(* ===== verification/_CoqProject ===== *)
-Q . S2P
Prelude.v
Checksum.v
Zerocopy.v
Wal.v
Block.v
Mmap.v
Page.v
PageProof.v
Storage.v
StorageProof.v
FaultSim.v
FaultProof.v
Durability.v
BTree.v
BTreeProof.v
Capability.v
PageCache.v
PageCacheProof.v
Scheduler.v
Ipc.v
Driver.v
Reactor.v
Mvcc.v
MvccProof.v
Ast.v
Value.v
Lexer.v
Datetime.v
Expr.v
VectorIndex.v
Parser.v
ParserProof.v
ParserPrint.v
SelectPrint.v
Aggregate.v
Planner.v
Exec.v
Window.v
Codec.v
Db.v
Select.v
Dml.v
Engine.v
StoreProof.v
DmlProof.v
EngineProof.v
DdlProof.v
QueryProof.v
QueryTerm.v
PgText.v
PgCodec.v
PgScram.v
PgSession.v
PgError.v
PgCompat.v
PgCatalog.v
PgSimple.v
PgSimpleProof.v
PgTask.v
PgTaskProof.v
PgServer.v
PgTls.v
PgBackup.v
Repl.v
ReplProof.v
PgOracle.v
Explain.v
Gpu.v
Bindings.v
PgBin.v
