(* ===== verification/Prelude.v ===== *)
(** * A verification of tpt-archon

    tpt-archon is an embedded database and microkernel in Rust. This library
    models its storage engine, its kernel services, its relational engine, its
    PostgreSQL front end and its command-line tools as Rocq functions,
    translated from the sources under [src/crates/], and proves the properties
    that make them correct. Paths below are relative to [src/crates/]; the
    crates are [tpt-archon-core], [tpt-archon-bridge], [tpt-archon-kernel],
    [tpt-archon-relational], [out-archon-pgwire], [out-archon-sql],
    [out-archon-pgcompat] and the bindings [out-archon-node], [out-archon-py] and
    [out-archon-wasm].

    ** The program and the files that model it

    Storage ([tpt-archon-core/src]).  A page is written to a block device with a
    CRC-32 behind it ([checksum.rs], [page.rs]: Checksum, Page); blocks live in
    memory or in a file ([block/]: Block, the trait [BlockDevice] as a class with
    its laws) or in a mapped file ([mmap.rs], [mmap_mut.rs]: Mmap, over the maps
    of the crate memmap2 as a class).  The buffer pool ([page.rs]: Page, PageProof) caches pages in
    frames with pins, dirty marks and LRU eviction.  The write-ahead log
    ([wal.rs]: Wal) frames records over the byte cursors of [zerocopy.rs]
    (Zerocopy).  The storage engine ([storage.rs]: Storage, StorageProof) logs
    page writes before it changes the pool; [Database] keeps the log in a sidecar
    file, and Durability proves that what [put] acknowledged survives crashes.
    The fault simulator ([faultsim.rs]: FaultSim, FaultProof) damages the log of
    a batch and recovers from it.
    The B-Link tree ([btree.rs]: BTree, BTreeProof) is an arena of nodes with
    right-links.

    Kernel ([tpt-archon-bridge/src], [tpt-archon-kernel/src]).  Capabilities are
    minted and revoked by an issuer that the enforcement points share
    ([capability.rs]: Capability); they gate the page cache ([page_cache.rs],
    [grant.rs], [memory.rs]: PageCache, PageCacheProof, over the buffer pool of
    Page), the message router ([ipc.rs]: Ipc) and the interrupt lines
    ([driver.rs]: Driver).  Tasks run under a round-robin scheduler
    ([scheduler.rs]: Scheduler), among them driver tasks and the I/O tasks of the
    io_uring reactor ([io_uring_backend.rs]: Reactor).

    Relational engine ([tpt-archon-relational/src]).  Syntax trees
    ([parser/ast.rs]: Ast); the lexer and the recursive-descent parser
    ([parser/]: Lexer, Parser, with ParserProof on termination, ParserPrint on
    printing and reading back the statements that change data, and SelectPrint on
    queries); values and their total order
    ([executor/value.rs]: Value); predicates, LIKE and dates
    ([executor/expr.rs]: Expr, Datetime); grouping ([executor/aggregate.rs]:
    Aggregate); window functions ([executor/window.rs]: Window); vector search,
    exact and by an inverted-file index ([executor/vector.rs],
    [vector_index.rs]: VectorIndex); the planner ([planner.rs]: Planner), the
    executor ([executor/exec.rs]: Exec) and the text of a plan ([explain.rs]:
    Explain) and the regions it is lowered to ([gpu.rs]: Gpu, over the crate
    tpt_gpu_ir_spec as a class); schemas and the row codec
    ([database/schema.rs], [database/codec.rs]: Codec); the multi-version store
    ([mvcc.rs]: Mvcc, MvccProof).

    SQL database ([tpt-archon-relational/src/database/]).  Db holds the state (a
    B-Link tree, a multi-version store and vector indexes per table, the
    transaction of the database and those of the sessions) and the reading of
    rows ([mod.rs], [storage.rs]); Select the queries ([select.rs],
    [subquery.rs]); Dml INSERT, UPDATE and DELETE with their constraints
    ([dml.rs]); Engine transactions, sessions, DDL and the dispatch of statements
    ([txn.rs], [ddl.rs], [mod.rs]).  Their theorems are in StoreProof (one table
    represents a finite map from ids to rows), DmlProof (the statements),
    EngineProof (transactions and sessions), DdlProof (CREATE TABLE and ALTER
    TABLE), QueryProof (queries over tables and
    joins) and QueryTerm (when queries end).

    PostgreSQL protocol ([out-archon-pgwire/src]).  Two servers share a database.
    The thread-per-connection server reads with [MessageReader] and answers with
    [MessageWriter] ([codec/]: PgCodec), keeps a session and its counters
    ([session.rs], [metrics.rs]: PgSession), authenticates with SCRAM-SHA-256
    ([startup.rs]: PgScram, PgSession), and handles a query by splitting its
    text, answering catalog queries itself and executing the rest in the session
    ([simple_query.rs], [catalog.rs]: PgSimple, PgSimpleProof, PgCatalog); its loop
    is [run_protocol] ([lib.rs]: PgServer), behind the negotiation of [serve_tls]
    (PgTls, the handshake of rustls as the class [Tls]).  The scheduled server runs each
    connection as a task of the Scheduler ([task.rs]: PgTask, PgTaskProof) over
    [read_message] and [write_message] (PgCodec), with its own splitting and
    normalization of statements ([compat.rs]: PgCompat).  Both report errors with
    an SQLSTATE ([error.rs], [sqlstate.rs]: PgError).  Backups of a database's two
    files are PgBackup ([backup.rs]).  PgBin holds the crate's two command lines
    and the loading of certificates and keys ([bin/], [tls.rs]).  PgText holds the functions of Rust's [str]
    and [char] that these modules call.

    Tools.  The SQL shell ([out-archon-sql]: Repl, ReplProof) reads statements up
    to their semicolon, executes them on a database and prints tables, CSV or
    JSON.  The compatibility oracle ([out-archon-pgcompat]: PgOracle) runs scripts
    against a reference server, whose client is a class, and compares the rows it
    extracts from the JSON of both.  The bindings for Node.js, Python and the
    browser (Bindings) execute one statement and convert its rows.

    ** How code is modelled

    A method that takes [&mut self] and returns a [Result] is a computation of
    the monad [M S E A] below: it threads the state, returns [Ok], [Err] or
    [Panic], and keeps the changes made before an error, as [?] does.  Panics
    (indexing, [unwrap], [expect], failed conversions) are values, so "never
    panics" is a statement.  Machine integers are [Z]; arithmetic wraps where the
    release profile wraps and the reduction is written out ([wrap32], [wrap64],
    [wrap_i64]); counts and indices of elements are [nat].  A [Vec] is a list, a
    [BTreeMap] a sorted list or a [gmap], a [String] its list of UTF-8 bytes, an
    [f32] its bit pattern with the arithmetic of the Standard Library's
    [SpecFloat].  A trait is a class, with a second class for its laws where a
    client is proved against them ([BlockDevice]/[BlockDeviceLaws],
    [UnifiedPageCache]/[UnifiedPageCacheLaws], [Task], [Driver]).  What
    [Rc<RefCell<_>>] or a mutex shares is an explicit store or world.

    Code outside the repository is a parameter: HMAC-SHA-256 and SHA-256 (class
    [PgScram.Crypto]; what the proofs use of them is the length of a digest, and
    a concrete instance shows that it can hold), random bytes, the texts of the
    operating system's errors, of Rust's [Debug] and of floating-point numbers
    (classes of printing functions), the clock.  A socket is the list of its
    events: data that has arrived, nothing yet, closed, or an error.

    Files.  A file is its contents, the part of them that has been synced, and a
    script of which operations fail; a crash keeps the synced contents and any
    mixture of old and new blocks, or any prefix of an append, of what was not
    synced.  Changing a file's length is durable at once.

    Loops.  A loop that consumes its input takes the input's length as fuel, a
    walk over an arena the number of its nodes, and theorems show that the fuel
    is enough: the result is [Ok], or any larger fuel gives the same result
    (Wal.replay, BTree.get, Scheduler.run_to_completion, Exec.chunks).  The
    submission loop of the reactor may really not end and has its bound as an
    argument.  The parser's fuel bounds its nesting and its input, and parser_total
    shows that parse_statement never runs out: it answers every input, but for
    the panic on input that ends in a dot.  The fuel of a query
    (Select.run_select_scoped) is the depth of the call stack: a query on views
    that refer to each other really exhausts it, and the outcome is then the
    failure StackOverflow, which no theorem confuses with a result.

    ** What is proved

    - Durability: put_durable (an acknowledged write is read back after any
      sequence of crashes, reopenings and failing calls), database_never_panics;
      recover_committed and commit_persists_before_flush (recovery applies
      the committed writes in order and touches nothing else, all of them when
      the device's writes succeed, and no page reaches the device before its
      commit is durable); faults_are_all_or_nothing and fuzz_never_fails (over a
      device whose calls succeed the fault simulator's assertions hold: a damaged
      batch is recovered whole or not at all); mapped_writes_reach_the_disk (after
      a sync the mapped file's disk holds every write); pool_simulates_array (the pool is an array of pages);
      crash_keeps_a_prefix and decode_detects_burst (the log's framing).
    - B-Link tree: btree_refines_map, btree_range_exact, blink_right_links,
      btree_nodes_fit_page (at most 64 keys in a node, and the bytes of a node
      within a page as long as no value is longer than its slot).
    - Isolation of the multi-version store: committed_serializable,
      snapshot_isolation, for every interleaving of transactions.
    - Protection: capability_unforgeable, pages_change_only_under_write_capability,
      revocation_is_final, channels_are_fifo.
    - Scheduling: round_robin_is_fair, run_to_completion_terminates.
    - Parsing: parser_total (parse_statement answers every input that does not
      end in a dot), dml_roundtrip (a printed INSERT, UPDATE or DELETE is
      read back as itself), select_roundtrip (and so is a printed query over
      tables, with joins, aggregates, conditions, grouping, order and limit).
    - Queries: select_pipeline (planning and executing a query gives its
      declarative answer, whatever the statistics), group_by_exact,
      window_functions_exact (ROW_NUMBER, and aggregates of whole partitions),
      vector_index_exact (searching when the scores are numbers), well_typed_predicates_evaluate,
      like_is_pattern_matching, value_order_total,
      civil_from_days_is_the_calendar, row_roundtrip.
    - Tables: dml_refines_maps (INSERT, UPDATE and DELETE are operations on the
      map that a table represents, inside and outside a transaction),
      dml_keeps_constraints, insert_delete_keep_references (keys over declared
      columns: the implicit id is assigned after the checks);
      create_table_adds_an_empty_map and alter_table_changes_columns (ALTER TABLE
      maps each row of the table to the row with the column added or removed;
      the columns it touches have no vector index).
    - Transactions and sessions: commit_is_atomic, rollback_restores,
      sessions_are_isolated, session_commit_publishes, no_lost_updates.
    - SELECT over tables: select_over_tables (the answer of a typed query is the
      declarative one, over the rows that the statement sees),
      joins_are_relational (every kind of join), acyclic_queries_terminate (a
      query whose CTEs and views do not refer to each other in a cycle ends,
      with a stack depth that is computed).
    - Protocol: framing_survives_chunking, error_responses_are_readable and
      base64_round_trip (what is written is read back);
      splitting_respects_quotes (untagged dollar quotes without a dollar sign in
      them); scram_accepts_the_password,
      scram_proof_is_of_the_key and scram_login_needs_a_users_key
      (authentication); status_follows_the_engine (the status that a client sees
      is that of its transaction); messages_are_answered (one poll answers a
      complete message with exactly the frames of its result or of its error and
      leaves the task ready for the next);
      catalog_is_total; backup_restores (the first snapshot of its second).  What is wrong is stated as exactly:
      reader_yields_startups_only, writer_frames_are_unreadable and
      thread_server_executes_nothing (the thread-per-connection server can
      neither understand nor be understood), partial_messages_stall,
      sqlstate_tables_differ, ssl_request_must_arrive_whole (a request for TLS in
      two pieces is never recognised).
    - Tools: csv_round_trip (the result set that is printed, without the line of
      the elapsed time, to a reader of RFC 4180), table_is_aligned and shell_runs_what_is_typed (the
      shell executes the statements typed, in order, however they are broken into
      lines); rows_are_extracted (the oracle reads back the values of rows of
      numbers, texts and nulls); plan_is_rendered_node_by_node;
      the_only_aggregate_is_emitted and aggregate_regions_are_well_formed (the
      regions of aggregates define each name before it is read);
      front_ends_agree (the shell and the bindings leave one database and return
      images of one result), objects_keep_distinct_columns.
    - Defects: mutual_views_exhaust_the_stack, io_tasks_never_complete (a reactor
      task never sees its completion), failed_replay_is_lost (a device error
      during recovery loses a committed page), planner_divides_by_zero,
      foreign_capability_accepted, failed_sync_is_forgotten,
      booleans_hang_the_oracle (its loop over JSON never ends on true or false),
      stale_index_hides_rows (DROP COLUMN leaves a vector index behind),
      topk_reads_an_undefined_name, a_limit_shrinks_the_column,
      load_private_key_takes_the_last, half_a_tls_configuration_is_plaintext,
      and the examples at the end of Expr, Datetime,
      Codec, Window, ParserProof, EngineProof, QueryProof, PgCompat, PgCatalog,
      PgSimpleProof, PgTaskProof, PgBackup, Mmap, ReplProof and PgOracle.

    The theorems on tables assume what Rust's types and the parser give (a literal
    fits its type, [dml_ok]), that ids stay below 2^64 ([ids_fit]), and a schema
    whose first column is the integer id, whose columns have distinct names and
    are fewer than 65536 ([schema_ok]); CREATE TABLE makes the first, and does not
    check the last two, which EngineProof shows.

    ** What is not modelled

    The mmap page cache (the code reads blocks of 4100 bytes into buffers of
    4096 and does not type-check); the process-wide counter of session ids;
    formatting of values by [Debug] (a parameter where a message prints one); the
    overflow of the native stack by the recursion of the lexer on dotted names
    (Lexer.expect_ident, whose fuel is the input's length); the panic that Rust's
    sort may raise on an order that is not total, which scores that are NaN give
    (VectorIndex.sort_by is a total insertion sort); the
    import of SQLite files, through the bindings of that library; the emission of
    a region's text and of a JSON document's (parameters); binding sockets, the
    interleaving of the threads of a server and the handshake of rustls (the
    operating system's and that crate's); the modules [server.rs] and
    [connection.rs] of the protocol crate, which no build includes; the crate
    [out-archon-verify], which holds tests of provers that are not in the
    repository.

    This file holds what the others share: outcomes and the monad, bytes and
    machine integers, the generic list functions of Rust's slices, tactics and
    hints. *)
From Stdlib Require Import ZArith Lia Strings.Byte.
From stdpp Require Import base numbers option list countable.

(** Notations of the development live in a scope of their own. *)
Declare Scope archon_scope.
Delimit Scope archon_scope with archon.

(** ** Outcomes and the state/error monad

    [outcome E A] is Rust's [Result<A, E>] with a third case for a panic, so
    that "this never panics" is a statement.  [M S E A] threads the state of a
    [&mut self] method: an error returned early keeps the changes made before
    it, as [?] does. *)
Inductive outcome (E A : Type) : Type :=
| Ok (a : A)
| Err (e : E)
| Panic.
Arguments Ok {E A} a.
Arguments Err {E A} e.
Arguments Panic {E A}.

Definition is_ok {E A} (o : outcome E A) : bool :=
  match o with Ok _ => true | _ => false end.

Definition M (S E A : Type) : Type := S -> outcome E A * S.

#[export] Instance M_ret {S E} : MRet (M S E) := fun A a s => (Ok a, s).
#[export] Instance M_bind {S E} : MBind (M S E) := fun A B k m s =>
  match m s with
  | (Ok a, s') => k a s'
  | (Err e, s') => (Err e, s')
  | (Panic, s') => (Panic, s')
  end.

Definition m_get {S E} : M S E S := fun s => (Ok s, s).
Definition m_put {S E} (s : S) : M S E unit := fun _ => (Ok tt, s).
Definition m_modify {S E} (f : S -> S) : M S E unit := fun s => (Ok tt, f s).
Definition m_err {S E A} (e : E) : M S E A := fun s => (Err e, s).
Definition m_panic {S E A} : M S E A := fun s => (Panic, s).

(** [map_err]: convert the error of a computation ([From] conversions and
    [.map_err(..)?]). *)
Definition m_map_err {S E F A} (f : E -> F) (m : M S E A) : M S F A := fun s =>
  match m s with
  | (Ok a, s') => (Ok a, s')
  | (Err e, s') => (Err (f e), s')
  | (Panic, s') => (Panic, s')
  end.

Definition map_err {E F A} (f : E -> F) (o : outcome E A) : outcome F A :=
  match o with Ok a => Ok a | Err e => Err (f e) | Panic => Panic end.

Lemma bind_ok {S E A B} (m : M S E A) (k : A -> M S E B) s a s' :
  m s = (Ok a, s') -> (m ≫= k) s = k a s'.
Proof. intros H. unfold mbind, M_bind. by rewrite H. Qed.

Lemma bind_err {S E A B} (m : M S E A) (k : A -> M S E B) s e s' :
  m s = (Err e, s') -> (m ≫= k) s = (Err e, s').
Proof. intros H. unfold mbind, M_bind. by rewrite H. Qed.

Lemma bind_inv {S E A B} (m : M S E A) (k : A -> M S E B) s b s2 :
  (m ≫= k) s = (Ok b, s2) -> exists a s1, m s = (Ok a, s1) /\ k a s1 = (Ok b, s2).
Proof.
  unfold mbind, M_bind. destruct (m s) as [[a|e|] s1]; [|done|done]. eauto.
Qed.

Lemma map_err_ok {S E F A} (f : E -> F) (m : M S E A) s a s' :
  m s = (Ok a, s') -> m_map_err f m s = (Ok a, s').
Proof. intros H. unfold m_map_err. by rewrite H. Qed.

Lemma map_err_inv {S E F A} (f : E -> F) (m : M S E A) s a s' :
  m_map_err f m s = (Ok a, s') -> m s = (Ok a, s').
Proof. unfold m_map_err. destruct (m s) as [[?|?|] ?]; congruence. Qed.

(** [loop { .. }]: the body continues with [inl] and breaks with [inr].  The
    fuel of a loop is shown to be enough where the loop is used. *)
Fixpoint m_loop {S E A B} (fuel : nat) (body : A -> M S E (A + B)) (a : A) : M S E B :=
  match fuel with
  | O => m_panic
  | S fuel' =>
      r ← body a;
      match r with
      | inl a' => m_loop fuel' body a'
      | inr b => mret b
      end
  end.

(** ** Bytes and machine integers

    A byte is [Byte.byte], so byte strings are well typed by construction.
    A [u32]/[u64]/[i64] is a [Z]; where the code converts or can overflow, the
    reduction is written out.  A [usize] that counts or indexes elements of a
    slice is a [nat]. *)
Definition u8_max : Z := 2 ^ 8 - 1.
Definition u32_max : Z := 2 ^ 32 - 1.
Definition u64_max : Z := 2 ^ 64 - 1.

Definition is_u32 (z : Z) : Prop := (0 <= z < 2 ^ 32)%Z.
Definition is_u64 (z : Z) : Prop := (0 <= z < 2 ^ 64)%Z.

(** [as u32], [as u64]: truncation. *)
Definition wrap32 (z : Z) : Z := (z mod 2 ^ 32)%Z.
Definition wrap64 (z : Z) : Z := (z mod 2 ^ 64)%Z.
(** [as i64]: two's complement. *)
Definition wrap_i64 (z : Z) : Z := ((z + 2 ^ 63) mod 2 ^ 64 - 2 ^ 63)%Z.

Definition b2z (b : byte) : Z := Z.of_N (Byte.to_N b).
Definition z2b (z : Z) : byte :=
  match Byte.of_N (Z.to_N (z mod 256)) with Some b => b | None => x00 end.

#[export] Instance byte_eq_decision : EqDecision byte := Byte.byte_eq_dec.

#[export] Instance byte_countable : Countable byte.
Proof.
  refine {| encode b := N.succ_pos (Byte.to_N b); decode p := Byte.of_N (Pos.pred_N p) |}.
  intros b. rewrite N.pos_pred_succ. apply Byte.of_to_N.
Defined.

Lemma b2z_range b : (0 <= b2z b < 256)%Z.
Proof.
  unfold b2z. assert (H := Byte.to_N_bounded b). lia.
Qed.

Lemma z2b_b2z b : z2b (b2z b) = b.
Proof.
  unfold z2b. rewrite Z.mod_small by apply b2z_range. unfold b2z.
  rewrite N2Z.id. by rewrite Byte.of_to_N.
Qed.

Lemma b2z_z2b z : b2z (z2b z) = (z mod 256)%Z.
Proof.
  unfold z2b. assert (Hr : (0 <= z mod 256 < 256)%Z) by (apply Z.mod_pos_bound; lia).
  destruct (Byte.of_N (Z.to_N (z mod 256))) as [b|] eqn:E.
  - apply Byte.to_of_N in E. unfold b2z. rewrite E. lia.
  - apply Byte.of_N_None_iff in E. lia.
Qed.

Lemma b2z_inj a b : b2z a = b2z b -> a = b.
Proof. intros H. rewrite <- (z2b_b2z a), <- (z2b_b2z b). by rewrite H. Qed.

Lemma b2z_eq_iff a b : b2z a = b2z b <-> a = b.
Proof. split; [apply b2z_inj | by intros ->]. Qed.

(** [to_le_bytes]/[from_le_bytes] at any width. *)
Fixpoint le_bytes (n : nat) (z : Z) : list byte :=
  match n with
  | O => []
  | S n' => z2b z :: le_bytes n' (z / 256)
  end.

Fixpoint le_val (l : list byte) : Z :=
  match l with
  | [] => 0%Z
  | b :: l' => (b2z b + 256 * le_val l')%Z
  end.

(** [to_be_bytes]/[from_be_bytes]. *)
Definition be_bytes (n : nat) (z : Z) : list byte := rev (le_bytes n z).
Definition be_val (l : list byte) : Z := le_val (rev l).

Lemma le_val_cons b l : le_val (b :: l) = (b2z b + 256 * le_val l)%Z.
Proof. reflexivity. Qed.

Lemma le_bytes_length n z : length (le_bytes n z) = n.
Proof. revert z. induction n as [|n IH]; intros z; simpl; [done|]. by rewrite IH. Qed.

Lemma le_val_bytes n z : le_val (le_bytes n z) = (z mod 256 ^ Z.of_nat n)%Z.
Proof.
  revert z. induction n as [|n IH]; intros z.
  - simpl. by rewrite Z.mod_1_r.
  - cbn [le_bytes le_val]. rewrite IH, b2z_z2b, Nat2Z.inj_succ, Z.pow_succ_r by lia.
    rewrite Z.rem_mul_r; lia.
Qed.

Lemma le_val_range l : (0 <= le_val l < 256 ^ Z.of_nat (length l))%Z.
Proof.
  induction l as [|b l IH]; [simpl; lia|].
  cbn [le_val length]. rewrite Nat2Z.inj_succ, Z.pow_succ_r by lia.
  assert (H := b2z_range b). lia.
Qed.

Lemma le_bytes_val l : le_bytes (length l) (le_val l) = l.
Proof.
  induction l as [|b l IH]; [done|]. cbn [length le_bytes le_val].
  assert (H := b2z_range b). f_equal.
  - apply b2z_inj. rewrite b2z_z2b, (Z.mul_comm 256), Z.mod_add by lia.
    by apply Z.mod_small.
  - rewrite (Z.mul_comm 256), Z.div_add, Z.div_small, Z.add_0_l by lia. exact IH.
Qed.

Lemma le_val_bytes_u32 z : is_u32 z -> le_val (le_bytes 4 z) = z.
Proof. intros H. rewrite le_val_bytes. apply Z.mod_small. exact H. Qed.

Lemma le_val_bytes_u64 z : is_u64 z -> le_val (le_bytes 8 z) = z.
Proof. intros H. rewrite le_val_bytes. apply Z.mod_small. exact H. Qed.

Lemma le_bytes_val_eq n l : length l = n -> le_bytes n (le_val l) = l.
Proof. intros <-. apply le_bytes_val. Qed.

Lemma le_val_inj l1 l2 : length l1 = length l2 -> le_val l1 = le_val l2 -> l1 = l2.
Proof. intros Hl Hv. rewrite <- (le_bytes_val l1), <- (le_bytes_val l2). by rewrite Hl, Hv. Qed.

Lemma le_val_is_u32 l : length l = 4 -> is_u32 (le_val l).
Proof. intros H. assert (Hr := le_val_range l). rewrite H in Hr. exact Hr. Qed.

Lemma le_val_is_u64 l : length l = 8 -> is_u64 (le_val l).
Proof. intros H. assert (Hr := le_val_range l). rewrite H in Hr. exact Hr. Qed.

Lemma be_bytes_length n z : length (be_bytes n z) = n.
Proof. unfold be_bytes. rewrite length_rev. apply le_bytes_length. Qed.

Lemma be_val_bytes n z : be_val (be_bytes n z) = (z mod 256 ^ Z.of_nat n)%Z.
Proof. unfold be_val, be_bytes. rewrite rev_involutive. apply le_val_bytes. Qed.

(** ** Lists as buffers *)

(** [copy_from_slice] into [buf[pos .. pos + len data]]; the callers guarantee
    the range is in bounds. *)
Definition splice {A} (pos : nat) (data buf : list A) : list A :=
  take pos buf ++ data ++ drop (pos + length data) buf.

(** [&buf[a .. b]]. *)
Definition slice {A} (a b : nat) (buf : list A) : list A := take (b - a) (drop a buf).

Lemma splice_length {A} pos (data buf : list A) :
  pos + length data <= length buf -> length (splice pos data buf) = length buf.
Proof.
  intros H. unfold splice. rewrite !length_app, length_take, length_drop. lia.
Qed.

Lemma splice_app {A} (pre data rest : list A) n :
  n = length pre ->
  splice n data (pre ++ rest) = pre ++ data ++ drop (length data) rest.
Proof.
  intros ->. unfold splice. rewrite take_app_length. f_equal. f_equal.
  rewrite <- drop_drop. by rewrite drop_app_length.
Qed.

Lemma slice_length {A} a b (buf : list A) :
  a <= b -> b <= length buf -> length (slice a b buf) = b - a.
Proof. intros H1 H2. unfold slice. rewrite length_take, length_drop. lia. Qed.

Lemma slice_app_mid {A} (l1 l2 l3 : list A) a b :
  a = length l1 -> b = a + length l2 -> slice a b (l1 ++ l2 ++ l3) = l2.
Proof.
  intros -> ->. unfold slice. rewrite drop_app_length.
  replace (length l1 + length l2 - length l1) with (length l2) by lia.
  apply take_app_length.
Qed.

Lemma slice_mid {A} (buf l1 l2 l3 : list A) a b :
  buf = l1 ++ l2 ++ l3 -> a = length l1 -> b = a + length l2 -> slice a b buf = l2.
Proof. intros ->. apply slice_app_mid. Qed.

Lemma slice_splice {A} pos (data buf : list A) :
  pos + length data <= length buf ->
  slice pos (pos + length data) (splice pos data buf) = data.
Proof.
  intros H. unfold splice. apply slice_app_mid; [|lia].
  rewrite length_take. lia.
Qed.

Lemma slice_splice_disjoint {A} pos (data buf : list A) a b :
  pos + length data <= length buf -> b <= length buf ->
  b <= pos \/ pos + length data <= a ->
  slice a b (splice pos data buf) = slice a b buf.
Proof.
  intros H Hb Hd. apply list_eq. intros i. unfold slice.
  destruct (decide (i < b - a)) as [Hi|Hi].
  2: { rewrite !lookup_take_ge by lia. done. }
  rewrite !lookup_take_lt by done. rewrite !lookup_drop. unfold splice.
  destruct Hd as [Hd|Hd].
  - rewrite lookup_app_l by (rewrite length_take; lia).
    rewrite lookup_take_lt by lia. done.
  - rewrite lookup_app_r by (rewrite length_take; lia).
    rewrite lookup_app_r by (rewrite length_take; lia).
    rewrite length_take, lookup_drop. f_equal. lia.
Qed.

Lemma take_plus_app {A} n m (l : list A) : take (n + m) l = take n l ++ take m (drop n l).
Proof. symmetry. apply take_take_drop. Qed.

(** [Iterator::position]: the index of the first element satisfying [p]. *)
Fixpoint position {A} (p : A -> bool) (l : list A) : option nat :=
  match l with
  | [] => None
  | x :: l' => if p x then Some 0 else S <$> position p l'
  end.

Lemma position_Some {A} (p : A -> bool) l i :
  position p l = Some i <->
  exists x, l !! i = Some x /\ p x = true /\
    (forall j y, j < i -> l !! j = Some y -> p y = false).
Proof.
  revert i. induction l as [|x l IH]; intros i; simpl.
  { split; [done|]. by intros (x & Hx & _). }
  destruct (p x) eqn:E.
  - split.
    + intros [= <-]. exists x. split_and!; [done|done|]. intros; lia.
    + intros (y & Hy & Hp & Hf). destruct i as [|i]; [done|].
      specialize (Hf 0 x ltac:(lia) eq_refl). congruence.
  - rewrite fmap_Some. split.
    + intros (j & Hj & ->). apply IH in Hj as (y & Hy & Hp & Hf).
      exists y. split_and!; [done|done|]. intros [|k] z Hk Hz; simpl in Hz.
      * by simplify_eq.
      * eapply (Hf k); [lia|done].
    + intros (y & Hy & Hp & Hf). destruct i as [|i]; [simpl in Hy; congruence|].
      exists i. split; [|done]. apply IH. exists y. split_and!; [done|done|].
      intros k z Hk Hz. apply (Hf (S k)); [lia|done].
Qed.

Lemma position_None {A} (p : A -> bool) l :
  position p l = None <-> forall x, x ∈ l -> p x = false.
Proof.
  induction l as [|x l IH]; simpl.
  { split; [|done]. intros _ x Hx. inversion Hx. }
  destruct (p x) eqn:E.
  - split; [done|]. intros H. specialize (H x ltac:(left)). congruence.
  - rewrite fmap_None, IH. split.
    + intros H y [->|Hy]%elem_of_cons; [done|]. by apply H.
    + intros H y Hy. apply H. by right.
Qed.

Lemma position_lt {A} (p : A -> bool) l i : position p l = Some i -> i < length l.
Proof. intros (x & Hx & _)%position_Some. by apply lookup_lt_Some in Hx. Qed.

(** [Vec::remove]. *)
Definition remove_at {A} (i : nat) (l : list A) : list A := take i l ++ drop (S i) l.
(** [Vec::insert]. *)
Definition insert_at {A} (i : nat) (x : A) (l : list A) : list A := take i l ++ x :: drop i l.

Lemma remove_at_length {A} i (l : list A) :
  i < length l -> length (remove_at i l) = length l - 1.
Proof. intros H. unfold remove_at. rewrite length_app, length_take, length_drop. lia. Qed.

Lemma insert_at_length {A} i (x : A) l : length (insert_at i x l) = S (length l).
Proof. unfold insert_at. rewrite length_app, length_take. simpl. rewrite length_drop. lia. Qed.

Lemma remove_at_perm {A} i (x : A) l : l !! i = Some x -> l ≡ₚ x :: remove_at i l.
Proof.
  intros H. rewrite <- (take_drop_middle l i x H) at 1. unfold remove_at.
  by rewrite Permutation_middle.
Qed.

(** ** Tactics and hints *)
Create HintDb archon.
Create Rewrite HintDb archon_len.
#[export] Hint Resolve b2z_range le_val_range : archon.
#[export] Hint Rewrite @length_app @length_cons @length_take @length_drop le_bytes_length
  @length_insert @length_replicate be_bytes_length : archon_len.

(** Solve a goal about list lengths. *)
Ltac len := autorewrite with archon_len in *; cbn [length] in *; lia.

(** The widths are literals; keep [simpl] from unrolling the encoders. *)
#[global] Opaque le_bytes le_val.

(** Run one monadic step whose result is known. *)
Ltac mstep H := first [rewrite (bind_ok _ _ _ _ _ H) | rewrite (bind_err _ _ _ _ _ H)].
