(* ===== verification/Checksum.v ===== *)
(** * Checksum: the CRC-32 of [crates/tpt-archon-core/src/checksum.rs]

    The bit-by-bit loop of [crc32], and what the WAL and the page frames rely
    on: the register stays a [u32], and any corruption confined to four
    consecutive bytes changes the checksum. *)
From Stdlib Require Import ZArith Lia Strings.Byte.
From stdpp Require Import base numbers list.
From S2P Require Import Prelude.
Local Open Scope Z_scope.

(** The bytes reserved in every block for the checksum. *)
Definition PAGE_CRC : nat := 4.

Definition CRC_POLY : Z := 0xEDB88320.

(** One round of the inner loop: [mask = (crc & 1).wrapping_neg();
    crc = (crc >> 1) ^ (0xEDB8_8320 & mask)]. *)
Definition crc_bit (crc : Z) : Z :=
  let mask := wrap32 (- Z.land crc 1) in
  Z.lxor (Z.shiftr crc 1) (Z.land CRC_POLY mask).

Fixpoint crc_bits (n : nat) (crc : Z) : Z :=
  match n with O => crc | S n' => crc_bits n' (crc_bit crc) end.

(** One iteration of [for &b in data]. *)
Definition crc_byte (crc : Z) (b : byte) : Z := crc_bits 8 (Z.lxor crc (b2z b)).

Lemma crc_byte_eq crc b : crc_byte crc b = crc_bits 8 (Z.lxor crc (b2z b)).
Proof. reflexivity. Qed.

Definition crc_update (crc : Z) (data : list byte) : Z := fold_left crc_byte data crc.

(** [!crc] on a [u32] is [crc ^ 0xFFFF_FFFF]. *)
Definition crc32 (data : list byte) : Z :=
  Z.lxor (crc_update 0xFFFFFFFF data) 0xFFFFFFFF.

(** ** The register stays a [u32] *)

Lemma is_u32_log2 z : is_u32 z <-> 0 <= z /\ (z = 0 \/ Z.log2 z < 32).
Proof.
  unfold is_u32. split.
  - intros [H1 H2]. split; [done|]. destruct (decide (z = 0)); [by left|right].
    apply Z.log2_lt_pow2; lia.
  - intros [H1 [->|H2]]; [lia|]. split; [done|].
    destruct (decide (z = 0)) as [->|]; [lia|]. apply Z.log2_lt_pow2; lia.
Qed.

Lemma lxor_u32 a b : is_u32 a -> is_u32 b -> is_u32 (Z.lxor a b).
Proof.
  rewrite !is_u32_log2. intros [Ha Ha'] [Hb Hb'].
  split; [by apply Z.lxor_nonneg|].
  destruct (decide (Z.lxor a b = 0)); [by left|right].
  destruct Ha' as [->|Ha']; [rewrite Z.lxor_0_l in *; lia|].
  destruct Hb' as [->|Hb']; [rewrite Z.lxor_0_r in *; lia|].
  assert (H := Z.log2_lxor a b Ha Hb). lia.
Qed.

Lemma crc_bit_alt c :
  crc_bit c = Z.lxor (Z.shiftr c 1) (if Z.odd c then CRC_POLY else 0).
Proof.
  unfold crc_bit. f_equal. change (Z.land c 1) with (Z.land c (Z.ones 1)).
  rewrite Z.land_ones by lia. change (2 ^ 1) with 2. rewrite Zmod_odd.
  destruct (Z.odd c); reflexivity.
Qed.

Lemma shiftr1_u32 c : is_u32 c -> 0 <= Z.shiftr c 1 < 2 ^ 31.
Proof.
  intros [H1 H2]. rewrite Z.shiftr_div_pow2 by lia. change (2 ^ 1) with 2.
  change (2 ^ 32) with (2 * 2 ^ 31) in H2.
  split; [apply Z.div_pos; lia | apply Z.div_lt_upper_bound; lia].
Qed.

Lemma crc_bit_u32 c : is_u32 c -> is_u32 (crc_bit c).
Proof.
  intros H. rewrite crc_bit_alt. apply lxor_u32.
  - apply shiftr1_u32 in H. unfold is_u32. lia.
  - destruct (Z.odd c); unfold is_u32, CRC_POLY; lia.
Qed.

Lemma crc_bits_u32 n c : is_u32 c -> is_u32 (crc_bits n c).
Proof. revert c. induction n; simpl; auto using crc_bit_u32. Qed.

Lemma byte_u32 b : is_u32 (b2z b).
Proof. assert (H := b2z_range b). unfold is_u32. lia. Qed.

Lemma crc_update_u32 data c : is_u32 c -> is_u32 (crc_update c data).
Proof.
  revert c. induction data as [|b data IH]; intros c H; [done|].
  cbn [crc_update fold_left]. apply IH. apply crc_bits_u32, lxor_u32; [done|].
  apply byte_u32.
Qed.

Lemma crc32_u32 data : is_u32 (crc32 data).
Proof.
  apply lxor_u32; [apply crc_update_u32|]; unfold is_u32; lia.
Qed.

(** ** Linearity and injectivity of the register update *)

Lemma crc_bit_lxor a b : crc_bit (Z.lxor a b) = Z.lxor (crc_bit a) (crc_bit b).
Proof.
  rewrite !crc_bit_alt, Z.shiftr_lxor.
  assert (Ho : Z.odd (Z.lxor a b) = xorb (Z.odd a) (Z.odd b)).
  { rewrite <- !Z.bit0_odd. apply Z.lxor_spec. }
  rewrite Ho. destruct (Z.odd a), (Z.odd b); simpl; rewrite ?Z.lxor_0_r.
  - rewrite <- Z.lxor_assoc, (Z.lxor_assoc (Z.shiftr a 1)), (Z.lxor_comm CRC_POLY).
    by rewrite <- (Z.lxor_assoc (Z.shiftr a 1)), Z.lxor_assoc, Z.lxor_nilpotent, Z.lxor_0_r.
  - by rewrite !Z.lxor_assoc, (Z.lxor_comm CRC_POLY).
  - by rewrite !Z.lxor_assoc.
  - done.
Qed.

Lemma crc_bits_lxor n a b : crc_bits n (Z.lxor a b) = Z.lxor (crc_bits n a) (crc_bits n b).
Proof. revert a b. induction n; intros a b; simpl; [done|]. by rewrite crc_bit_lxor. Qed.

Lemma crc_bits_plus n m c : crc_bits (n + m) c = crc_bits m (crc_bits n c).
Proof. revert c. induction n; intros c; simpl; auto. Qed.

(** Zero bits below the window are shifted out unchanged. *)
Lemma crc_bits_shiftl n v : crc_bits n (Z.shiftl v (Z.of_nat n)) = v.
Proof.
  revert v. induction n as [|n IH]; intros v; [apply Z.shiftl_0_r|].
  cbn [crc_bits]. rewrite <- (IH v) at 2. f_equal. rewrite crc_bit_alt.
  rewrite Nat2Z.inj_succ, Z.shiftl_mul_pow2, Z.pow_succ_r by lia.
  replace (v * (2 * 2 ^ Z.of_nat n)) with (2 * (v * 2 ^ Z.of_nat n)) by ring.
  rewrite Z.odd_mul. simpl. rewrite Z.lxor_0_r, Z.shiftr_div_pow2 by lia.
  change (2 ^ 1) with 2. rewrite Z.mul_comm, Z.div_mul by lia.
  by rewrite Z.shiftl_mul_pow2 by lia.
Qed.

Lemma crc_bit_zero c : is_u32 c -> crc_bit c = 0 -> c = 0.
Proof.
  intros Hc. rewrite crc_bit_alt. intros H%Z.lxor_eq.
  assert (Hs := shiftr1_u32 c Hc). unfold CRC_POLY in H.
  destruct (Z.odd c) eqn:E; [lia|].
  rewrite Z.shiftr_div_pow2 in H by lia. change (2 ^ 1) with 2 in H.
  rewrite (Z.div_mod c 2) by lia. rewrite H, Zmod_odd, E. done.
Qed.

Lemma crc_bits_zero n c : is_u32 c -> crc_bits n c = 0 -> c = 0.
Proof.
  revert c. induction n as [|n IH]; intros c Hc H; [done|].
  apply crc_bit_zero; [done|]. apply IH; [by apply crc_bit_u32|done].
Qed.

Lemma crc_bits_inj n a b : is_u32 a -> is_u32 b -> crc_bits n a = crc_bits n b -> a = b.
Proof.
  intros Ha Hb H. apply Z.lxor_eq, (crc_bits_zero n); [by apply lxor_u32|].
  by rewrite crc_bits_lxor, H, Z.lxor_nilpotent.
Qed.

Lemma crc_update_cons x l c : crc_update c (x :: l) = crc_update (crc_byte c x) l.
Proof. reflexivity. Qed.

(** Bytes absorbed one by one are absorbed as one little-endian word. *)
Lemma crc_update_word l c :
  crc_update c l = crc_bits (8 * length l) (Z.lxor c (le_val l)).
Proof.
  revert c. induction l as [|b l IH]; intros c; [simpl; by rewrite Z.lxor_0_r|].
  rewrite crc_update_cons, IH, length_cons, Nat.mul_succ_r, Nat.add_comm, crc_bits_plus.
  f_equal. rewrite crc_byte_eq, le_val_cons.
  assert (E : b2z b + 256 * le_val l = Z.lxor (b2z b) (Z.shiftl (le_val l) (Z.of_nat 8))).
  { assert (Hb := b2z_range b). rewrite Z.shiftl_mul_pow2 by lia.
    change (2 ^ Z.of_nat 8) with 256. rewrite <- Z.add_nocarry_lxor; [lia|].
    apply Z.bits_inj'. intros n Hn. rewrite Z.land_spec, Z.bits_0.
    destruct (decide (n < 8)).
    - change 256 with (2 ^ 8). rewrite (Z.mul_pow2_bits_low _ 8) by lia. apply andb_false_r.
    - rewrite (Z.bits_above_log2 (b2z b)); [done|lia|].
      destruct (decide (b2z b = 0)) as [->|]; [simpl; lia|].
      apply Z.log2_lt_pow2; [lia|]. eapply Z.lt_le_trans; [apply Hb|].
      change 256 with (2 ^ 8). apply Z.pow_le_mono_r; lia. }
  rewrite E, <- Z.lxor_assoc, (crc_bits_lxor 8 (Z.lxor c (b2z b))), crc_bits_shiftl. done.
Qed.

Lemma crc_update_app l1 l2 c : crc_update c (l1 ++ l2) = crc_update (crc_update c l1) l2.
Proof. apply fold_left_app. Qed.

Lemma crc_byte_u32 c x : is_u32 c -> is_u32 (crc_byte c x).
Proof. intros H. rewrite crc_byte_eq. apply crc_bits_u32, lxor_u32; auto using byte_u32. Qed.

Lemma lxor_cancel_r a b c : Z.lxor a c = Z.lxor b c -> a = b.
Proof.
  intros H. apply (f_equal (fun z => Z.lxor z c)) in H.
  by rewrite !Z.lxor_assoc, Z.lxor_nilpotent, !Z.lxor_0_r in H.
Qed.

Lemma crc_byte_inj a b x : is_u32 a -> is_u32 b -> crc_byte a x = crc_byte b x -> a = b.
Proof.
  intros Ha Hb H. rewrite !crc_byte_eq in H.
  apply crc_bits_inj in H; try (apply lxor_u32; auto using byte_u32).
  by apply lxor_cancel_r in H.
Qed.

Lemma crc_update_inj l a b :
  is_u32 a -> is_u32 b -> crc_update a l = crc_update b l -> a = b.
Proof.
  revert a b. induction l as [|x l IH]; intros a b Ha Hb H; [done|].
  rewrite !crc_update_cons in H.
  apply (crc_byte_inj a b x Ha Hb), IH; auto using crc_byte_u32.
Qed.

#[local] Opaque crc_bits crc_byte.

(** Two messages that differ only inside a window of at most four bytes have
    different checksums. *)
Lemma crc32_burst pre post w1 w2 :
  length w1 = length w2 -> (length w1 <= 4)%nat -> w1 <> w2 ->
  crc32 (pre ++ w1 ++ post) <> crc32 (pre ++ w2 ++ post).
Proof.
  intros Hl H4 Hne H. apply Hne. apply le_val_inj; [done|]. unfold crc32 in H.
  apply lxor_cancel_r in H. rewrite !crc_update_app in H.
  set (c := crc_update 0xFFFFFFFF pre) in *.
  assert (Hc : is_u32 c) by (apply crc_update_u32; unfold is_u32; lia).
  assert (Hw : forall w, (length w <= 4)%nat -> is_u32 (le_val w)).
  { intros w Hlw. assert (Hr := le_val_range w). unfold is_u32.
    split; [lia|]. eapply Z.lt_le_trans; [apply Hr|].
    change (2 ^ 32) with (256 ^ 4). apply Z.pow_le_mono_r; lia. }
  apply crc_update_inj in H; [|apply crc_update_u32; done..].
  rewrite !crc_update_word, <- Hl in H.
  apply crc_bits_inj in H; [|apply lxor_u32; auto with lia..].
  rewrite !(Z.lxor_comm c) in H. by apply lxor_cancel_r in H.
Qed.

#[local] Transparent crc_bits crc_byte.

Example crc32_check_value :
  crc32 [x31; x32; x33; x34; x35; x36; x37; x38; x39] = 0xCBF43926.
Proof. vm_compute. reflexivity. Qed.
