(* ===== verification/Zerocopy.v ===== *)
(** * Zerocopy: [crates/tpt-archon-core/src/zerocopy.rs]

    [FixedBuf], the little-endian [Cursor] writer and the bounds-checked
    [Reader], with the lemmas that let a codec be proved field by field. *)
From Stdlib Require Import ZArith Lia Strings.Byte.
From stdpp Require Import base numbers option list.
From S2P Require Import Prelude.

Record OutOfSpace : Type := mkOutOfSpace { needed : nat; available : nat }.

(** ** [FixedBuf<N>] *)
Module FixedBuf.

Record fixed_buf : Type := mkFixedBuf { bytes : list byte; len : nat }.

Section Capacity.
Context (N : nat).

Definition new : fixed_buf := {| bytes := replicate N x00; len := 0 |}.
Definition capacity (_ : fixed_buf) : nat := N.
Definition is_empty (b : fixed_buf) : bool := bool_decide (len b = 0).
Definition remaining (b : fixed_buf) : nat := N - len b.
Definition as_slice (b : fixed_buf) : list byte := take (len b) (bytes b).

(** Panics when [len > N]. *)
Definition set_len (n : nat) : M fixed_buf Empty_set unit := fun b =>
  if decide (n <= N) then (Ok tt, {| bytes := bytes b; len := n |}) else (Panic, b).

Definition extend_from_slice (data : list byte) : M fixed_buf OutOfSpace unit := fun b =>
  if decide (remaining b < length data) then
    (Err {| needed := length data; available := remaining b |}, b)
  else
    (Ok tt, {| bytes := splice (len b) data (bytes b); len := len b + length data |}).

Definition from_array (a : list byte) : fixed_buf := {| bytes := a; len := N |}.

(** The backing array has [N] bytes and the used part fits in it. *)
Definition wf (b : fixed_buf) : Prop := length (bytes b) = N /\ len b <= N.

Lemma new_wf : wf new.
Proof. split; simpl; [apply length_replicate | lia]. Qed.

Lemma extend_ok b data :
  wf b -> length data <= remaining b ->
  exists b', extend_from_slice data b = (Ok tt, b') /\ wf b' /\
             as_slice b' = as_slice b ++ data.
Proof.
  intros [Hl Hn] Hd. unfold remaining in Hd.
  eexists. split.
  { unfold extend_from_slice. rewrite decide_False by (unfold remaining; lia). reflexivity. }
  split.
  - split; simpl; [rewrite splice_length; lia | lia].
  - unfold as_slice, splice. simpl. rewrite take_plus_app.
    rewrite (take_app_le _ _ (len b)) by (rewrite length_take; lia).
    rewrite take_take, Nat.min_id. f_equal.
    rewrite drop_app_ge by (rewrite length_take; lia).
    rewrite length_take, Nat.min_l, Nat.sub_diag by lia. simpl. apply take_app_length.
Qed.

Lemma extend_full b data :
  remaining b < length data ->
  extend_from_slice data b = (Err {| needed := length data; available := remaining b |}, b).
Proof. intros H. unfold extend_from_slice. by rewrite decide_True. Qed.

End Capacity.
End FixedBuf.

(** ** [Cursor] *)
Module Cursor.

Record cursor : Type := mkCursor { buf : list byte; pos : nat }.

Definition new (b : list byte) : cursor := {| buf := b; pos := 0 |}.
Definition position (c : cursor) : nat := pos c.

(** [take]: reserves [n] bytes and returns where they start. *)
Definition take_n (n : nat) : M cursor OutOfSpace nat := fun c =>
  let avail := length (buf c) - pos c in
  if decide (avail < n) then (Err {| needed := n; available := avail |}, c)
  else (Ok (pos c), {| buf := buf c; pos := pos c + n |}).

(** [self.take(n)?.copy_from_slice(data)]. *)
Definition put (data : list byte) : M cursor OutOfSpace unit :=
  start ← take_n (length data);
  m_modify (fun c => {| buf := splice start data (buf c); pos := pos c |}).

Definition put_u8 (v : byte) : M cursor OutOfSpace unit := put [v].
Definition put_u16 (v : Z) : M cursor OutOfSpace unit := put (le_bytes 2 v).
Definition put_u32 (v : Z) : M cursor OutOfSpace unit := put (le_bytes 4 v).
Definition put_u64 (v : Z) : M cursor OutOfSpace unit := put (le_bytes 8 v).
Definition put_bytes (data : list byte) : M cursor OutOfSpace unit := put data.

(** The cursor stands after [done] with [rest] still to be overwritten. *)
Definition at_ (dn rest : list byte) : cursor :=
  {| buf := dn ++ rest; pos := length dn |}.

Lemma put_at dn data rest :
  length data <= length rest ->
  put data (at_ dn rest) = (Ok tt, at_ (dn ++ data) (drop (length data) rest)).
Proof.
  intros H. unfold put, mbind, M_bind, take_n, at_. simpl.
  rewrite decide_False by (rewrite length_app; lia).
  unfold m_modify. simpl. rewrite splice_app by done.
  by rewrite length_app, <- app_assoc.
Qed.

Lemma put_at_full dn data rest :
  length rest < length data ->
  put data (at_ dn rest) =
  (Err {| needed := length data; available := length rest |}, at_ dn rest).
Proof.
  intros H. unfold put, mbind, M_bind, take_n, at_. simpl.
  rewrite length_app. replace (length dn + length rest - length dn) with (length rest) by lia.
  by rewrite decide_True.
Qed.

End Cursor.

(** ** [Reader] *)
Module Reader.

Record reader : Type := mkReader { buf : list byte; pos : nat }.

Definition new (b : list byte) : reader := {| buf := b; pos := 0 |}.
Definition position (r : reader) : nat := pos r.
Definition remaining (r : reader) : nat := length (buf r) - pos r.

Definition take_n (n : nat) : M reader OutOfSpace (list byte) := fun r =>
  if decide (remaining r < n) then
    (Err {| needed := n; available := remaining r |}, r)
  else
    (Ok (slice (pos r) (pos r + n) (buf r)), {| buf := buf r; pos := pos r + n |}).

Definition read_u8 : M reader OutOfSpace byte :=
  b ← take_n 1; match b with [x] => mret x | _ => m_panic end.
Definition read_u16 : M reader OutOfSpace Z := b ← take_n 2; mret (le_val b).
Definition read_u32 : M reader OutOfSpace Z := b ← take_n 4; mret (le_val b).
Definition read_u64 : M reader OutOfSpace Z := b ← take_n 8; mret (le_val b).
Definition read_bytes (n : nat) : M reader OutOfSpace (list byte) := take_n n.

(** The reader of [whole] that still has the suffix [rest] to read. *)
Definition at_ (whole rest : list byte) : reader :=
  {| buf := whole; pos := length whole - length rest |}.

Lemma new_at b : new b = at_ b b.
Proof. unfold new, at_. by rewrite Nat.sub_diag. Qed.

Lemma remaining_at whole rest : rest `suffix_of` whole -> remaining (at_ whole rest) = length rest.
Proof. intros [k ->]. unfold remaining, at_. simpl. rewrite length_app. lia. Qed.

Lemma position_at whole rest : position (at_ whole rest) = length whole - length rest.
Proof. done. Qed.

Lemma take_at whole x rest :
  (x ++ rest) `suffix_of` whole ->
  take_n (length x) (at_ whole (x ++ rest)) = (Ok x, at_ whole rest).
Proof.
  intros Hs. unfold take_n. rewrite remaining_at by done.
  rewrite decide_False by (rewrite length_app; lia).
  destruct Hs as [k ->]. unfold at_. simpl. rewrite !length_app.
  f_equal; f_equal; [|lia].
  apply slice_app_mid; lia.
Qed.

Lemma take_short whole rest n :
  rest `suffix_of` whole -> length rest < n ->
  take_n n (at_ whole rest) = (Err {| needed := n; available := length rest |}, at_ whole rest).
Proof. intros Hs H. unfold take_n. rewrite remaining_at by done. by rewrite decide_True. Qed.

(** What a successful read says of the input. *)
Lemma take_inv whole rest n x r' :
  rest `suffix_of` whole ->
  take_n n (at_ whole rest) = (Ok x, r') ->
  exists rest', rest = x ++ rest' /\ length x = n /\ r' = at_ whole rest' /\
                rest' `suffix_of` whole.
Proof.
  intros Hs H. destruct (decide (length rest < n)) as [Hn|Hn].
  { rewrite take_short in H by done. done. }
  rewrite <- (take_drop n rest) in H, Hs.
  assert (Hl : length (take n rest) = n) by (rewrite length_take; lia).
  rewrite <- Hl in H at 1. rewrite take_at in H by done. injection H as <- <-.
  exists (drop n rest). split_and!; [by rewrite take_drop|done|done|].
  etrans; [|exact Hs]. by apply suffix_app_r.
Qed.

Lemma take_err_inv whole rest n e r' :
  rest `suffix_of` whole ->
  take_n n (at_ whole rest) = (Err e, r') -> length rest < n.
Proof.
  intros Hs H. unfold take_n in H. rewrite remaining_at in H by done.
  by case_decide.
Qed.

Lemma read_u8_at whole b rest :
  (b :: rest) `suffix_of` whole ->
  read_u8 (at_ whole (b :: rest)) = (Ok b, at_ whole rest).
Proof.
  intros Hs. unfold read_u8, mbind, M_bind.
  change 1 with (length [b]). change (b :: rest) with ([b] ++ rest).
  by rewrite take_at.
Qed.

Lemma read_u32_at whole x rest :
  length x = 4 -> (x ++ rest) `suffix_of` whole ->
  read_u32 (at_ whole (x ++ rest)) = (Ok (le_val x), at_ whole rest).
Proof.
  intros Hl Hs. unfold read_u32, mbind, M_bind. rewrite <- Hl. by rewrite take_at.
Qed.

Lemma read_u64_at whole x rest :
  length x = 8 -> (x ++ rest) `suffix_of` whole ->
  read_u64 (at_ whole (x ++ rest)) = (Ok (le_val x), at_ whole rest).
Proof.
  intros Hl Hs. unfold read_u64, mbind, M_bind. rewrite <- Hl. by rewrite take_at.
Qed.

Lemma read_u8_inv whole rest x r' :
  rest `suffix_of` whole -> read_u8 (at_ whole rest) = (Ok x, r') ->
  exists rest', rest = x :: rest' /\ r' = at_ whole rest' /\ rest' `suffix_of` whole.
Proof.
  intros Hs H. unfold read_u8, mbind, M_bind in H.
  destruct (take_n 1 (at_ whole rest)) as [[b|e|] s] eqn:E; [|done|done].
  apply take_inv in E as (rest' & -> & Hl & -> & Hs'); [|done].
  destruct b as [|b [|]]; try done. injection H as <- <-. exists rest'. done.
Qed.

Lemma read_u32_inv whole rest x r' :
  rest `suffix_of` whole -> read_u32 (at_ whole rest) = (Ok x, r') ->
  exists b rest', rest = b ++ rest' /\ length b = 4 /\ x = le_val b /\
    r' = at_ whole rest' /\ rest' `suffix_of` whole.
Proof.
  intros Hs H. unfold read_u32, mbind, M_bind in H.
  destruct (take_n 4 (at_ whole rest)) as [[b|e|] s] eqn:E; [|done|done].
  apply take_inv in E as (rest' & -> & Hl & -> & Hs'); [|done].
  injection H as <- <-. exists b, rest'. done.
Qed.

Lemma read_u64_inv whole rest x r' :
  rest `suffix_of` whole -> read_u64 (at_ whole rest) = (Ok x, r') ->
  exists b rest', rest = b ++ rest' /\ length b = 8 /\ x = le_val b /\
    r' = at_ whole rest' /\ rest' `suffix_of` whole.
Proof.
  intros Hs H. unfold read_u64, mbind, M_bind in H.
  destruct (take_n 8 (at_ whole rest)) as [[b|e|] s] eqn:E; [|done|done].
  apply take_inv in E as (rest' & -> & Hl & -> & Hs'); [|done].
  injection H as <- <-. exists b, rest'. done.
Qed.

End Reader.
