(* ===== verification/Wal.v ===== *)
(** * Wal: the write-ahead log of [crates/tpt-archon-core/src/wal.rs]

    Record framing ([encode]/[decode]), the in-memory log ([append],
    [truncate], [replay], [from_bytes]) and the facts recovery rests on: the
    framing round-trips and accepts nothing but its own output, and the log
    read back from any prefix of its bytes is a prefix of its records. *)
From Stdlib Require Import ZArith Lia Strings.Byte.
From stdpp Require Import base numbers option list.
From S2P Require Import Prelude Checksum Zerocopy.

Module Wal.

(** ** Records *)

Inductive RecordKind : Type := PageWrite | Commit | Checkpoint.

#[export] Instance RecordKind_eq_dec : EqDecision RecordKind.
Proof. solve_decision. Defined.

(** [kind as u8]. *)
Definition kind_tag (k : RecordKind) : byte :=
  match k with PageWrite => x01 | Commit => x02 | Checkpoint => x03 end.

Definition from_u8 (v : byte) : option RecordKind :=
  match v with
  | x01 => Some PageWrite
  | x02 => Some Commit
  | x03 => Some Checkpoint
  | _ => None
  end.

Record WalRecord : Type := mkRecord {
  lsn : Z;
  kind : RecordKind;
  block_id : Z;
  payload : list byte;
}.

#[export] Instance WalRecord_eq_dec : EqDecision WalRecord.
Proof. solve_decision. Defined.

Inductive WalError : Type :=
| OutOfSpace
| Malformed
| BadChecksum
| UnknownKind (tag : byte).

Definition of_space (_ : Zerocopy.OutOfSpace) : WalError := OutOfSpace.
Definition malformed (_ : Zerocopy.OutOfSpace) : WalError := Malformed.

(** lsn + kind + block_id + payload_len *)
Definition HEADER_LEN : nat := 8 + 1 + 8 + 4.

Definition encoded_len (r : WalRecord) : nat := 4 + HEADER_LEN + length (payload r) + 4.

(** The body of the block that scopes the first cursor of [encode]. *)
Definition encode_fields (r : WalRecord) : M Cursor.cursor Zerocopy.OutOfSpace nat :=
  let body_len := Z.of_nat (HEADER_LEN + length (payload r) + 4) in
  Cursor.put_u32 (wrap32 body_len);;
  Cursor.put_u64 (lsn r);;
  Cursor.put_u8 (kind_tag (kind r));;
  Cursor.put_u64 (block_id r);;
  Cursor.put_u32 (wrap32 (Z.of_nat (length (payload r))));;
  Cursor.put_bytes (payload r);;
  c ← m_get; mret (Cursor.position c).

(** [encode(&self, out)]: the result and the buffer as it is left. *)
Definition encode (r : WalRecord) : M (list byte) WalError nat := fun out =>
  match m_map_err of_space (encode_fields r) (Cursor.new out) with
  | (Ok end_before_crc, c) =>
      let out1 := Cursor.buf c in
      let crc := crc32 (slice 4 end_before_crc out1) in
      match m_map_err of_space (Cursor.put_u32 crc)
              (Cursor.new (drop end_before_crc out1)) with
      | (Ok _, c2) => (Ok (end_before_crc + 4), take end_before_crc out1 ++ Cursor.buf c2)
      | (Err e, c2) => (Err e, take end_before_crc out1 ++ Cursor.buf c2)
      | (Panic, c2) => (Panic, out1)
      end
  | (Err e, c) => (Err e, Cursor.buf c)
  | (Panic, c) => (Panic, Cursor.buf c)
  end.

Definition decode_m (data : list byte) : M Reader.reader WalError (WalRecord * nat) :=
  body_len ← m_map_err malformed Reader.read_u32;
  r ← m_get;
  if decide (Z.of_nat (Reader.remaining r) < body_len)%Z then m_err Malformed else
  let body_start := Reader.position r in
  lsn_ ← m_map_err malformed Reader.read_u64;
  tag ← m_map_err malformed Reader.read_u8;
  match from_u8 tag with
  | None => m_err (UnknownKind tag)
  | Some kind_ =>
      block_id_ ← m_map_err malformed Reader.read_u64;
      payload_len ← m_map_err malformed Reader.read_u32;
      payload_ ← m_map_err malformed (Reader.read_bytes (Z.to_nat payload_len));
      stored_crc ← m_map_err malformed Reader.read_u32;
      r' ← m_get;
      let body_end := Reader.position r' in
      let crc_region_end := body_end - 4 in
      if decide (Z.of_nat (body_end - body_start) ≠ body_len) then m_err Malformed else
      let computed := crc32 (slice body_start crc_region_end data) in
      if decide (computed ≠ stored_crc) then m_err BadChecksum else
      mret (mkRecord lsn_ kind_ block_id_ payload_, 4 + Z.to_nat body_len)
  end.

Definition decode (data : list byte) : outcome WalError (WalRecord * nat) :=
  fst (decode_m data (Reader.new data)).

(** ** The framing as a function *)

Definition body (r : WalRecord) : list byte :=
  le_bytes 8 (lsn r) ++ [kind_tag (kind r)] ++ le_bytes 8 (block_id r) ++
  le_bytes 4 (wrap32 (Z.of_nat (length (payload r)))) ++ payload r.

Definition frame (r : WalRecord) : list byte :=
  le_bytes 4 (wrap32 (Z.of_nat (HEADER_LEN + length (payload r) + 4))) ++
  body r ++ le_bytes 4 (crc32 (body r)).

(** A record whose fields are machine words and whose length fits the [u32]
    length field. *)
Definition rec_wf (r : WalRecord) : Prop :=
  is_u64 (lsn r) /\ is_u64 (block_id r) /\
  is_u32 (Z.of_nat (HEADER_LEN + length (payload r) + 4)).

Lemma from_u8_tag k : from_u8 (kind_tag k) = Some k.
Proof. by destruct k. Qed.

Lemma tag_from_u8 b k : from_u8 b = Some k -> b = kind_tag k.
Proof. destruct b; simpl; intros [= <-]; done. Qed.

Lemma body_length r : length (body r) = HEADER_LEN + length (payload r).
Proof. unfold body, HEADER_LEN. len. Qed.

Lemma frame_length r : length (frame r) = encoded_len r.
Proof. unfold frame, encoded_len. rewrite !length_app, !le_bytes_length, body_length. lia. Qed.

Lemma encoded_len_pos r : 0 < encoded_len r.
Proof. unfold encoded_len. lia. Qed.

(** ** [encode] writes the frame *)

(** The bytes written before the checksum. *)
Definition prefix (r : WalRecord) : list byte :=
  le_bytes 4 (wrap32 (Z.of_nat (HEADER_LEN + length (payload r) + 4))) ++ body r.

Lemma prefix_length r : length (prefix r) = 4 + HEADER_LEN + length (payload r).
Proof. unfold prefix. rewrite length_app, le_bytes_length, body_length. lia. Qed.

Lemma cursor_put_ok data dn rest :
  length data <= length rest ->
  Cursor.put data (Cursor.at_ dn rest) =
  (Ok tt, Cursor.at_ (dn ++ data) (drop (length data) rest)).
Proof. apply Cursor.put_at. Qed.

Ltac put_step :=
  unfold Cursor.put_u8, Cursor.put_u32, Cursor.put_u64, Cursor.put_bytes;
  match goal with
  | |- context [mbind ?k (Cursor.put ?d) (Cursor.at_ ?dn ?rest)] =>
      rewrite (bind_ok (Cursor.put d) k _ _ _ (cursor_put_ok d dn rest ltac:(len)))
  end.

Lemma encode_fields_ok r out :
  4 + HEADER_LEN + length (payload r) <= length out ->
  encode_fields r (Cursor.new out) =
  (Ok (4 + HEADER_LEN + length (payload r)),
   Cursor.at_ (prefix r) (drop (4 + HEADER_LEN + length (payload r)) out)).
Proof.
  intros H. unfold encode_fields, HEADER_LEN in *.
  change (Cursor.new out) with (Cursor.at_ [] out).
  repeat put_step. unfold m_get, mbind, M_bind. simpl.
  unfold mret, M_ret, Cursor.position. cbn [Cursor.at_ Cursor.pos].
  rewrite <- ?app_assoc. unfold prefix, body, HEADER_LEN.
  f_equal. f_equal. rewrite !drop_drop. f_equal.
Qed.

Lemma encode_ok r out :
  encoded_len r <= length out ->
  encode r out = (Ok (encoded_len r), frame r ++ drop (encoded_len r) out).
Proof.
  intros H. unfold encode, m_map_err. unfold encoded_len in H.
  rewrite encode_fields_ok by lia. cbn [Cursor.at_ Cursor.buf].
  assert (Hp := prefix_length r).
  rewrite (drop_app_length' (prefix r)) by done. rewrite (take_app_length' (prefix r)) by done.
  assert (Hs : slice 4 (4 + HEADER_LEN + length (payload r))
     (prefix r ++ drop (4 + HEADER_LEN + length (payload r)) out) = body r).
  { unfold prefix. rewrite <- app_assoc. apply slice_app_mid; [len|].
    rewrite body_length. lia. }
  rewrite Hs. change (Cursor.new ?l) with (Cursor.at_ [] l). unfold Cursor.put_u32.
  rewrite Cursor.put_at by len. cbn [Cursor.at_ Cursor.buf].
  unfold encoded_len. f_equal. rewrite le_bytes_length, drop_drop.
  unfold frame, prefix. by rewrite <- !app_assoc.
Qed.

(** ** [decode] of a frame *)

Lemma wrap32_small n : is_u32 n -> wrap32 n = n.
Proof. intros H. apply Z.mod_small. exact H. Qed.

Lemma suffix_drop_l {A} (x rest whole : list A) :
  (x ++ rest) `suffix_of` whole -> rest `suffix_of` whole.
Proof. intros H. etrans; [|exact H]. by apply suffix_app_r. Qed.

Lemma decode_frame r rest :
  rec_wf r -> decode (frame r ++ rest) = Ok (r, encoded_len r).
Proof.
  intros (Hl & Hb & Hp). unfold decode. rewrite Reader.new_at.
  set (whole := frame r ++ rest). assert (Hw : length whole = encoded_len r + length rest).
  { unfold whole. by rewrite length_app, frame_length. }
  assert (Hs : whole `suffix_of` whole) by done.
  unfold whole in Hs at 1. unfold whole at 3. unfold frame in Hs |- *. unfold body at 1 in Hs.
  unfold body at 1. rewrite <- !app_assoc in Hs |- *.
  unfold decode_m.
  erewrite bind_ok; [|apply map_err_ok, Reader.read_u32_at; [apply le_bytes_length|exact Hs]].
  apply suffix_drop_l in Hs.
  erewrite bind_ok; [|reflexivity].
  rewrite (wrap32_small _ Hp), (le_val_bytes_u32 _ Hp).
  rewrite Reader.remaining_at by done.
  rewrite decide_False by (unfold HEADER_LEN; len).
  erewrite bind_ok; [|apply map_err_ok, Reader.read_u64_at; [apply le_bytes_length|exact Hs]].
  apply suffix_drop_l in Hs.
  erewrite bind_ok; [|apply map_err_ok, Reader.read_u8_at; exact Hs].
  rewrite from_u8_tag. apply (suffix_drop_l [_]) in Hs.
  erewrite bind_ok; [|apply map_err_ok, Reader.read_u64_at; [apply le_bytes_length|exact Hs]].
  apply suffix_drop_l in Hs.
  erewrite bind_ok; [|apply map_err_ok, Reader.read_u32_at; [apply le_bytes_length|exact Hs]].
  apply suffix_drop_l in Hs.
  assert (Hpl : is_u32 (Z.of_nat (length (payload r)))) by (unfold is_u32, HEADER_LEN in *; lia).
  rewrite (wrap32_small _ Hpl), (le_val_bytes_u32 _ Hpl), (Nat2Z.id (length (payload r))).
  erewrite bind_ok; [|apply map_err_ok, Reader.take_at; exact Hs].
  apply suffix_drop_l in Hs.
  erewrite bind_ok; [|apply map_err_ok, Reader.read_u32_at; [apply le_bytes_length|exact Hs]].
  apply suffix_drop_l in Hs.
  erewrite bind_ok; [|reflexivity].
  rewrite !Reader.position_at, Hw.
  rewrite decide_False.
  2: { intros Hn; apply Hn; clear Hn. unfold encoded_len, HEADER_LEN. len. }
  rewrite le_val_bytes_u32 by apply crc32_u32. rewrite !le_val_bytes_u64 by done.
  rewrite decide_False.
  2: { intros Hn; apply Hn; clear Hn. f_equal. unfold whole, frame. rewrite <- app_assoc.
       rewrite <- app_assoc. apply slice_app_mid; rewrite ?body_length; unfold encoded_len, HEADER_LEN; len. }
  unfold mret, M_ret. cbn [fst]. rewrite Nat2Z.id.
  replace (encoded_len r) with (4 + (HEADER_LEN + length (payload r) + 4))
    by (unfold encoded_len; lia).
  by destruct r.
Qed.

(** ** [decode] accepts nothing but frames *)

Lemma le_bytes_of_val n l z : length l = n -> le_val l = z -> l = le_bytes n z.
Proof. intros Hl <-. symmetry. by apply le_bytes_val_eq. Qed.

Lemma decode_sound data r n :
  decode data = Ok (r, n) ->
  rec_wf r /\ n = encoded_len r /\ exists rest, data = frame r ++ rest.
Proof.
  unfold decode. intros H.
  destruct (decode_m data (Reader.new data)) as [o s] eqn:E. simpl in H. subst o.
  rewrite Reader.new_at in E. assert (Hs : data `suffix_of` data) by done.
  unfold decode_m in E.
  apply bind_inv in E as (bl & s0 & H0 & E). apply map_err_inv in H0.
  apply Reader.read_u32_inv in H0 as (b4 & d0 & Hd & Hb4 & -> & -> & Hs0); [|done].
  apply bind_inv in E as (r0 & s1 & [= <- <-] & E).
  case_decide as Hrem; [done|]. rewrite Reader.remaining_at in Hrem by done.
  apply bind_inv in E as (ls & s1 & H1 & E). apply map_err_inv in H1.
  apply Reader.read_u64_inv in H1 as (b8 & d1 & Hd1 & Hb8 & -> & -> & Hs1); [|done].
  apply bind_inv in E as (tag & s2 & H2 & E). apply map_err_inv in H2.
  apply Reader.read_u8_inv in H2 as (d2 & Hd2 & -> & Hs2); [|done].
  destruct (from_u8 tag) as [kd|] eqn:Hk; [|done]. apply tag_from_u8 in Hk as ->.
  apply bind_inv in E as (bk & s3 & H3 & E). apply map_err_inv in H3.
  apply Reader.read_u64_inv in H3 as (c8 & d3 & Hd3 & Hc8 & -> & -> & Hs3); [|done].
  apply bind_inv in E as (pn & s4 & H4 & E). apply map_err_inv in H4.
  apply Reader.read_u32_inv in H4 as (p4 & d4 & Hd4 & Hp4 & -> & -> & Hs4); [|done].
  apply bind_inv in E as (pl & s5 & H5 & E). apply map_err_inv in H5.
  apply Reader.take_inv in H5 as (d5 & Hd5 & Hpl & -> & Hs5); [|done].
  apply bind_inv in E as (cr & s6 & H6 & E). apply map_err_inv in H6.
  apply Reader.read_u32_inv in H6 as (q4 & d6 & Hd6 & Hq4 & -> & -> & Hs6); [|done].
  apply bind_inv in E as (r6 & s7 & [= <- <-] & E).
  rewrite !Reader.position_at in E.
  case_decide as Hbl; [done|]. case_decide as Hcrc; [done|].
  injection E as <- <- _.
  subst d0 d1 d2 d3 d4 d5.
  assert (Hdl : length data = 29 + length pl + length d6) by (rewrite Hd; len).
  assert (Hpr := le_val_is_u32 p4 Hp4). assert (Hpv : le_val p4 = Z.of_nat (length pl)).
  { unfold is_u32 in Hpr. lia. }
  assert (Hbv : le_val b4 = Z.of_nat (HEADER_LEN + length pl + 4)).
  { rewrite <- Hbl. unfold HEADER_LEN. len. }
  assert (Hbr := le_val_is_u32 b4 Hb4). rewrite Hbv in Hbr.
  set (rec := mkRecord (le_val b8) kd (le_val c8) pl).
  assert (Hwf : rec_wf rec).
  { split_and!; simpl; auto using le_val_is_u64. }
  assert (Hbody : body rec = b8 ++ [kind_tag kd] ++ c8 ++ p4 ++ pl).
  { unfold body, rec. simpl. rewrite !le_bytes_val_eq by done.
    rewrite wrap32_small by (rewrite <- Hpv; done). rewrite <- Hpv.
    by rewrite le_bytes_val_eq. }
  split_and!; [done| |exists d6].
  - rewrite Hbv, Nat2Z.id. unfold encoded_len. simpl. lia.
  - unfold frame. rewrite Hbody. simpl (payload rec).
    rewrite wrap32_small by done. rewrite <- Hbv, le_bytes_val_eq by done.
    rewrite <- (le_bytes_of_val 4 q4 (crc32 (b8 ++ [kind_tag kd] ++ c8 ++ p4 ++ pl))); [|done|].
    + rewrite Hd, <- !app_assoc. done.
    + rewrite <- Hcrc. f_equal.
      apply (slice_mid _ b4 _ (q4 ++ d6)); [rewrite Hd, <- !app_assoc; done|len..].
Qed.

(** A frame cut short anywhere is malformed: no partial record is surfaced. *)
Lemma decode_cut r n :
  rec_wf r -> n < encoded_len r -> decode (take n (frame r)) = Err Malformed.
Proof.
  intros (_ & _ & Hp) Hn. unfold decode. rewrite Reader.new_at. unfold decode_m.
  set (d := take n (frame r)).
  assert (Hl : length d = n) by (unfold d; rewrite length_take, frame_length; lia).
  assert (Hs : d `suffix_of` d) by done.
  destruct (decide (n < 4)) as [H4|H4].
  { unfold mbind at 1, M_bind at 1, m_map_err at 1. unfold Reader.read_u32 at 1, mbind, M_bind.
    by rewrite Reader.take_short by (rewrite ?Hl; done). }
  assert (Hd : d = le_bytes 4 (wrap32 (Z.of_nat (HEADER_LEN + length (payload r) + 4))) ++
    take (n - 4) (body r ++ le_bytes 4 (crc32 (body r)))).
  { unfold d, frame. rewrite take_app_ge by (rewrite le_bytes_length; lia).
    by rewrite le_bytes_length. }
  rewrite Hd in Hs at 1.
  match type of Hd with _ = ?x => replace (Reader.at_ d d) with (Reader.at_ d x) by by rewrite <- Hd end.
  erewrite bind_ok; [|apply map_err_ok, Reader.read_u32_at; [apply le_bytes_length|exact Hs]].
  apply suffix_drop_l in Hs.
  erewrite bind_ok; [|reflexivity].
  rewrite (wrap32_small _ Hp), (le_val_bytes_u32 _ Hp), Reader.remaining_at by done.
  rewrite decide_True; [done|].
  unfold encoded_len in Hn. rewrite length_take, length_app, body_length, le_bytes_length. lia.
Qed.

(** ** The log *)

Record wal : Type := mkWal { bytes : list byte; next_lsn : Z }.

Definition new : wal := {| bytes := []; next_lsn := 0 |}.

Definition truncate (byte_len : nat) (lsn_ : Z) (w : wal) : wal :=
  {| bytes := take byte_len (bytes w); next_lsn := lsn_ |}.

Definition as_bytes (w : wal) : list byte := bytes w.

(** [rec.encode(&mut frame).expect("sized buffer")] then
    [extend_from_slice(&frame[..n])]; [next_lsn += 1] wraps at [2^64]. *)
Definition append {E} (k : RecordKind) (blk : Z) (data : list byte) : M wal E Z := fun w =>
  let r := mkRecord (next_lsn w) k blk data in
  match encode r (replicate (encoded_len r) x00) with
  | (Ok n, fr) =>
      (Ok (next_lsn w),
       {| bytes := bytes w ++ take n fr; next_lsn := wrap64 (next_lsn w + 1) |})
  | _ => (Panic, w)
  end.

(** The loop of [replay]; [f] is the closure, [st] what it has captured.  The
    fuel is the number of bytes left: every record is longer than that. *)
Fixpoint replay_loop {St} (f : St -> WalRecord -> St) (fuel : nat) (bs : list byte)
    (offset count : nat) (st : St) : nat * St :=
  match fuel with
  | O => (count, st)
  | S fuel' =>
      if decide (offset < length bs) then
        match decode (drop offset bs) with
        | Ok (r, consumed) =>
            replay_loop f fuel' bs (offset + consumed) (count + 1) (f st r)
        | _ => (count, st)
        end
      else (count, st)
  end.

Definition replay {St} (f : St -> WalRecord -> St) (w : wal) (st : St) : nat * St :=
  replay_loop f (length (bytes w)) (bytes w) 0 0 st.

Fixpoint from_bytes_loop (fuel : nat) (bs : list byte) (offset : nat)
    (last_lsn : option Z) : nat * option Z :=
  match fuel with
  | O => (offset, last_lsn)
  | S fuel' =>
      if decide (offset < length bs) then
        match decode (drop offset bs) with
        | Ok (r, consumed) => from_bytes_loop fuel' bs (offset + consumed) (Some (lsn r))
        | _ => (offset, last_lsn)
        end
      else (offset, last_lsn)
  end.

Definition from_bytes (bs : list byte) : wal :=
  let '(offset, last_lsn) := from_bytes_loop (length bs) bs 0 None in
  {| bytes := take offset bs;
     next_lsn := match last_lsn with Some l => wrap64 (l + 1) | None => 0 end |}.

(** ** What a byte string logs *)

Definition log_of (rs : list WalRecord) : list byte := concat (map frame rs).

(** [bs] holds exactly the records [rs], followed by a tail that does not start
    with a record. *)
Definition parses (bs : list byte) (rs : list WalRecord) (tail : list byte) : Prop :=
  bs = log_of rs ++ tail /\ Forall rec_wf rs /\ is_ok (decode tail) = false.

(** The records a byte string holds. *)
Definition records (bs : list byte) : list WalRecord :=
  snd (replay (fun acc r => acc ++ [r]) {| bytes := bs; next_lsn := 0 |} []).

(** The records that fit completely in [n] bytes. *)
Fixpoint fitting (n : nat) (rs : list WalRecord) : list WalRecord :=
  match rs with
  | [] => []
  | r :: rs' =>
      if decide (encoded_len r <= n) then r :: fitting (n - encoded_len r) rs' else []
  end.

Lemma log_of_app rs1 rs2 : log_of (rs1 ++ rs2) = log_of rs1 ++ log_of rs2.
Proof. unfold log_of. by rewrite map_app, concat_app. Qed.

Lemma log_of_cons r rs : log_of (r :: rs) = frame r ++ log_of rs.
Proof. done. Qed.

Lemma decode_nil : decode [] = Err Malformed.
Proof. reflexivity. Qed.

Lemma encode_never_panics r :
  exists fr, encode r (replicate (encoded_len r) x00) = (Ok (encoded_len r), fr) /\
             take (encoded_len r) fr = frame r.
Proof.
  eexists. split.
  - apply encode_ok. by rewrite length_replicate.
  - rewrite <- (frame_length r) at 1. apply take_app_length.
Qed.

Lemma append_spec {E} k blk data w :
  append (E:=E) k blk data w =
  (Ok (next_lsn w),
   {| bytes := bytes w ++ frame (mkRecord (next_lsn w) k blk data);
      next_lsn := wrap64 (next_lsn w + 1) |}).
Proof.
  unfold append.
  destruct (encode_never_panics (mkRecord (next_lsn w) k blk data)) as (fr & He & Ht).
  by rewrite He, Ht.
Qed.

(** Every byte string parses in exactly one way. *)
Lemma parses_exists bs : exists rs tail, parses bs rs tail.
Proof.
  remember (length bs) as n eqn:Hn. revert bs Hn.
  induction (lt_wf n) as [n _ IH]. intros bs ->.
  destruct (decode bs) as [[r k]|e|] eqn:E.
  - destruct (decode_sound _ _ _ E) as (Hwf & -> & rest & ->).
    destruct (IH (length rest)) with (bs := rest) as (rs & tail & Hr & Hf & Ht); [|done|].
    { rewrite length_app, frame_length. unfold encoded_len. lia. }
    exists (r :: rs), tail. split_and!; [|by constructor|done].
    by rewrite log_of_cons, Hr, <- app_assoc.
  - exists [], bs. split_and!; [done|done|by rewrite E].
  - exists [], bs. split_and!; [done|done|by rewrite E].
Qed.

Lemma parses_cons_inv r bs rs tail :
  parses bs (r :: rs) tail -> rec_wf r /\ exists bs', bs = frame r ++ bs' /\ parses bs' rs tail.
Proof.
  intros (-> & Hf & Ht). inversion Hf; subst. split; [done|].
  exists (log_of rs ++ tail). rewrite log_of_cons, <- app_assoc. split; [done|]. split_and!; done.
Qed.

Lemma parses_nil_inv bs tail : parses bs [] tail -> bs = tail /\ is_ok (decode bs) = false.
Proof. intros (-> & _ & Ht). done. Qed.

Lemma replay_loop_parses {St} (f : St -> WalRecord -> St) rs tail :
  forall bs fuel pre count st,
  parses bs rs tail -> length bs <= fuel ->
  replay_loop f fuel (pre ++ bs) (length pre) count st =
  (count + length rs, foldl f st rs).
Proof.
  induction rs as [|r rs IH]; intros bs fuel pre count st Hp Hf.
  - apply parses_nil_inv in Hp as [-> Hd]. rewrite Nat.add_0_r.
    destruct fuel as [|fuel]; [done|]. cbn [replay_loop].
    case_decide; [|done]. rewrite drop_app_length. by destruct (decode tail) as [[]| |].
  - apply parses_cons_inv in Hp as (Hwf & bs' & -> & Hp).
    rewrite length_app, frame_length in Hf.
    destruct fuel as [|fuel]; [unfold encoded_len in Hf; lia|]. cbn [replay_loop].
    rewrite decide_True by (rewrite !length_app, frame_length; unfold encoded_len; lia).
    rewrite drop_app_length, decode_frame by done.
    rewrite app_assoc. replace (length pre + encoded_len r) with (length (pre ++ frame r))
      by (rewrite length_app, frame_length; done).
    rewrite IH by (try done; unfold encoded_len in Hf; lia).
    simpl. f_equal. lia.
Qed.

Lemma replay_parses {St} (f : St -> WalRecord -> St) w rs tail st :
  parses (bytes w) rs tail -> replay f w st = (length rs, foldl f st rs).
Proof.
  intros Hp. unfold replay. by apply (replay_loop_parses f rs tail (bytes w) _ []).
Qed.

Lemma records_parses bs rs tail : parses bs rs tail -> records bs = rs.
Proof.
  intros Hp. unfold records. rewrite (replay_parses _ _ rs tail) by done. simpl.
  clear Hp. induction rs as [|r rs IH] using rev_ind; [done|].
  by rewrite foldl_app, IH.
Qed.

Lemma from_bytes_loop_parses rs tail :
  forall bs fuel pre l,
  parses bs rs tail -> length bs <= fuel ->
  from_bytes_loop fuel (pre ++ bs) (length pre) l =
  (length pre + length (log_of rs), match last rs with Some r => Some (lsn r) | None => l end).
Proof.
  induction rs as [|r rs IH]; intros bs fuel pre l Hp Hf.
  - apply parses_nil_inv in Hp as [-> Hd]. simpl. rewrite Nat.add_0_r.
    destruct fuel as [|fuel]; [done|]. cbn [from_bytes_loop].
    case_decide; [|done]. rewrite drop_app_length. by destruct (decode tail) as [[]| |].
  - apply parses_cons_inv in Hp as (Hwf & bs' & -> & Hp).
    rewrite length_app, frame_length in Hf.
    destruct fuel as [|fuel]; [unfold encoded_len in Hf; lia|]. cbn [from_bytes_loop].
    rewrite decide_True by (rewrite !length_app, frame_length; unfold encoded_len; lia).
    rewrite drop_app_length, decode_frame by done.
    rewrite app_assoc. replace (length pre + encoded_len r) with (length (pre ++ frame r))
      by (rewrite length_app, frame_length; done).
    rewrite IH by (try done; unfold encoded_len in Hf; lia).
    rewrite log_of_cons, !length_app, frame_length. f_equal; [lia|].
    rewrite last_cons. by destruct (last rs).
Qed.

(** The LSN after the last record. *)
Definition lsn_after (rs : list WalRecord) : Z :=
  match last rs with Some r => wrap64 (lsn r + 1) | None => 0 end.

Lemma from_bytes_parses bs rs tail :
  parses bs rs tail -> from_bytes bs = {| bytes := log_of rs; next_lsn := lsn_after rs |}.
Proof.
  intros Hp. unfold from_bytes.
  assert (E := from_bytes_loop_parses rs tail bs (length bs) [] None Hp ltac:(done)).
  simpl in E. rewrite E.
  destruct Hp as (-> & _ & _). rewrite take_app_length.
  unfold lsn_after. by destruct (last rs).
Qed.

Lemma log_parses rs : Forall rec_wf rs -> parses (log_of rs) rs [].
Proof. intros H. split_and!; [by rewrite app_nil_r|done|by rewrite decode_nil]. Qed.

Lemma fitting_wf n rs : Forall rec_wf rs -> Forall rec_wf (fitting n rs).
Proof.
  intros H. revert n. induction H as [|r rs Hr _ IH]; intros n; simpl; [done|].
  case_decide; auto.
Qed.

Lemma cut_parses rs : forall n,
  Forall rec_wf rs -> exists tail, parses (take n (log_of rs)) (fitting n rs) tail.
Proof.
  induction rs as [|r rs IH]; intros n H; simpl.
  { exists []. unfold log_of. simpl. rewrite take_nil. by apply (log_parses []). }
  inversion H as [|? ? Hr Hrs]; subst. rewrite log_of_cons. case_decide as Hn.
  - destruct (IH (n - encoded_len r) Hrs) as (tail & Ht & Hf & Hd).
    exists tail. split_and!; [|by constructor|done].
    rewrite take_app_ge, frame_length by (rewrite frame_length; lia).
    by rewrite Ht, log_of_cons, <- app_assoc.
  - exists (take n (frame r)). split_and!; [|done|].
    + rewrite take_app_le; [done|]. rewrite frame_length. lia.
    + by rewrite decode_cut by (done || lia).
Qed.

Lemma fitting_prefix n rs : fitting n rs `prefix_of` rs.
Proof.
  revert n. induction rs as [|r rs IH]; intros n; simpl; [done|].
  case_decide; [by apply prefix_cons | apply prefix_nil].
Qed.

Lemma fitting_all n rs : length (log_of rs) <= n -> fitting n rs = rs.
Proof.
  revert n. induction rs as [|r rs IH]; intros n Hn; simpl; [done|].
  rewrite log_of_cons, length_app, frame_length in Hn.
  rewrite decide_True by lia. f_equal. apply IH. lia.
Qed.

(** ** Properties *)

(** The log after appending a list of (kind, block, payload). *)
Definition append_all (ops : list (RecordKind * Z * list byte)) (w : wal) : wal :=
  foldl (fun w '(k, blk, data) => snd (append (E:=Empty_set) k blk data w)) w ops.

(** The arguments of [append] are machine words and fit the length field. *)
Definition op_fits (op : RecordKind * Z * list byte) : Prop :=
  let '(_, blk, data) := op in
  is_u64 blk /\ is_u32 (Z.of_nat (HEADER_LEN + length data + 4)).

Lemma append_all_log ops : forall rs w,
  bytes w = log_of rs -> Forall rec_wf rs -> is_u64 (next_lsn w) -> Forall op_fits ops ->
  exists rs', bytes (append_all ops w) = log_of (rs ++ rs') /\ Forall rec_wf (rs ++ rs') /\
    map (fun r => (kind r, block_id r, payload r)) rs' = ops.
Proof.
  induction ops as [|[[k blk] data] ops IH]; intros rs w Hb Hrs Hl Hops.
  { exists []. by rewrite app_nil_r. }
  inversion Hops as [|? ? Hop Hops']; subst. destruct (Hop : _ /\ _) as [Hblk Hlen].
  simpl. rewrite append_spec. simpl.
  set (r := mkRecord (next_lsn w) k blk data).
  destruct (IH (rs ++ [r]) {| bytes := bytes w ++ frame r; next_lsn := wrap64 (next_lsn w + 1) |})
    as (rs' & H1 & H2 & H3); simpl.
  - rewrite Hb, log_of_app. f_equal. unfold log_of. simpl. by rewrite app_nil_r.
  - apply Forall_app. split; [done|]. by constructor; [|constructor].
  - apply Z.mod_pos_bound. lia.
  - done.
  - exists (r :: rs'). rewrite <- app_assoc in H1, H2. split_and!; [done|done|]. simpl. by f_equal.
Qed.

(** A record encoded into any buffer with room for it decodes to
    itself, and consumes exactly the bytes that were written. *)
Theorem decode_encode r out :
  rec_wf r -> encoded_len r <= length out ->
  exists out', encode r out = (Ok (encoded_len r), out') /\ length out' = length out /\
               decode out' = Ok (r, encoded_len r).
Proof.
  intros Hwf Hl. eexists. split; [by apply encode_ok|]. split; [|by apply decode_frame].
  rewrite length_app, length_drop, frame_length. lia.
Qed.

Lemma decode_encode_witness :
  let r := mkRecord 7 Commit 3 [x01; x02] in
  rec_wf r /\ encoded_len r <= 40 /\
  exists out', encode r (replicate 40 x00) = (Ok (encoded_len r), out') /\
               length out' = 40 /\ decode out' = Ok (r, encoded_len r).
Proof.
  assert (H : rec_wf (mkRecord 7 Commit 3 [x01; x02])).
  { unfold rec_wf, is_u64, is_u32; simpl; lia. }
  cbv zeta. split; [exact H|]. split; [vm_compute; lia|].
  apply (decode_encode _ (replicate 40 x00) H). vm_compute. lia.
Defined.

(** [decode] accepts nothing but the output of [encode]: the bytes it
    consumes are exactly the encoding of the record it returns. *)
Theorem decode_canonical data r n :
  decode data = Ok (r, n) ->
  n <= length data /\ encode r (replicate n x00) = (Ok n, take n data).
Proof.
  intros H. apply decode_sound in H as (Hwf & -> & rest & ->).
  rewrite (take_app_length' (frame r)) by (symmetry; apply frame_length). split.
  - rewrite length_app, frame_length. lia.
  - rewrite encode_ok by by rewrite length_replicate.
    rewrite drop_ge by by rewrite length_replicate. by rewrite app_nil_r.
Qed.

Lemma decode_canonical_witness :
  exists data r n, decode data = Ok (r, n) /\ n <= length data /\
    encode r (replicate n x00) = (Ok n, take n data).
Proof.
  set (r := mkRecord 7 Commit 3 [x01; x02]).
  exists (snd (encode r (replicate 33 x00))), r, 31.
  assert (H : decode (snd (encode r (replicate 33 x00))) = Ok (r, 31)) by (vm_compute; reflexivity).
  split; [exact H|]. exact (decode_canonical _ _ _ H).
Defined.

(** C40: If up to four consecutive bytes of a record's body are changed, the record
    is rejected, whatever follows it. *)
Theorem decode_detects_burst r pre w1 w2 post rest :
  rec_wf r -> body r = pre ++ w1 ++ post ->
  length w1 = length w2 -> length w1 <= 4 -> w1 <> w2 ->
  is_ok (decode (take 4 (frame r) ++ pre ++ w2 ++ post ++ drop (4 + length (body r)) (frame r)
                 ++ rest)) = false.
Proof.
  intros (_ & _ & Hp) Hb Hl H4 Hne. destruct (decode _) as [[r' n]|e|] eqn:E; [exfalso|done..].
  apply decode_sound in E as ((_ & _ & Hp') & _ & rest' & E).
  assert (Hlen : length (pre ++ w2 ++ post) = length (body r))
    by (rewrite Hb, !length_app; lia).
  unfold frame in E at 1 2. rewrite (take_app_length' (le_bytes _ _)) in E by by rewrite le_bytes_length.
  assert (Hd : drop (4 + length (body r)) (frame r) = le_bytes 4 (crc32 (body r))).
  { unfold frame. rewrite app_assoc. apply drop_app_length'. len. }
  unfold frame in Hd. rewrite Hd in E. clear Hd.
  unfold frame in E. rewrite <- !app_assoc in E.
  apply app_inj_1 in E as [E1 E]; [|by rewrite !le_bytes_length].
  assert (Hbl : length (body r') = length (body r)).
  { apply (f_equal le_val) in E1. rewrite !wrap32_small, !le_val_bytes_u32 in E1 by done.
    rewrite !body_length. lia. }
  replace (pre ++ w2 ++ post ++ le_bytes 4 (crc32 (body r)) ++ rest)
    with ((pre ++ w2 ++ post) ++ le_bytes 4 (crc32 (body r)) ++ rest) in E
    by by rewrite <- !app_assoc.
  apply app_inj_1 in E as [E2 E]; [|congruence].
  apply app_inj_1 in E as [E3 E]; [|by rewrite !le_bytes_length].
  apply (f_equal le_val) in E3. rewrite !le_val_bytes_u32 in E3 by apply crc32_u32.
  rewrite <- E2, Hb in E3. by apply crc32_burst in E3.
Qed.

(** A log cut at any byte and read back holds exactly the records that were
    completely written, in order, and nothing after them; it is ready to be
    appended to. *)
Theorem crash_keeps_a_prefix ops n :
  Forall op_fits ops ->
  exists rs, log_of rs = bytes (append_all ops new) /\
    map (fun r => (kind r, block_id r, payload r)) rs = ops /\
    let w := from_bytes (take n (bytes (append_all ops new))) in
    records (bytes w) = fitting n rs /\ bytes w = log_of (fitting n rs) /\
    next_lsn w = lsn_after (fitting n rs).
Proof.
  intros Hops. destruct (append_all_log ops [] new) as (rs & H1 & H2 & H3); try done.
  simpl in H1, H2. exists rs. split; [done|]. split; [done|].
  destruct (cut_parses rs n H2) as [tail Hp]. rewrite H1.
  rewrite (from_bytes_parses _ _ _ Hp). simpl. split; [|done].
  apply (records_parses _ _ []), log_parses, fitting_wf, H2.
Qed.

Lemma crash_keeps_a_prefix_witness :
  let ops := [(PageWrite, 1%Z, [x0a]); (Commit, 0%Z, [])] in
  Forall op_fits ops /\
  exists rs, log_of rs = bytes (append_all ops new) /\
    map (fun r => (kind r, block_id r, payload r)) rs = ops /\
    let w := from_bytes (take 40 (bytes (append_all ops new))) in
    records (bytes w) = fitting 40 rs /\ bytes w = log_of (fitting 40 rs) /\
    next_lsn w = lsn_after (fitting 40 rs).
Proof.
  assert (H : Forall op_fits [(PageWrite, 1%Z, [x0a]); (Commit, 0%Z, [])])
    by (repeat constructor; unfold is_u64, is_u32; simpl; lia).
  split; [exact H|]. exact (crash_keeps_a_prefix _ 40 H).
Defined.

Lemma decode_detects_burst_witness :
  let r := mkRecord 7 Commit 3 [x01; x02; x03] in
  rec_wf r /\ body r = (take 21 (body r)) ++ [x01; x02; x03] ++ [] /\
  is_ok (decode (take 4 (frame r) ++ take 21 (body r) ++ [x01; xff; x03] ++ []
                 ++ drop (4 + length (body r)) (frame r) ++ [])) = false.
Proof.
  cbv zeta. assert (H1 : rec_wf (mkRecord 7 Commit 3 [x01; x02; x03])).
  { unfold rec_wf, is_u64, is_u32; simpl; lia. }
  assert (H2 : body (mkRecord 7 Commit 3 [x01; x02; x03]) =
    take 21 (body (mkRecord 7 Commit 3 [x01; x02; x03])) ++ [x01; x02; x03] ++ [])
    by (vm_compute; reflexivity).
  split; [exact H1|]. split; [exact H2|].
  apply (decode_detects_burst _ _ _ _ _ [] H1 H2); [reflexivity|simpl; lia|discriminate].
Defined.

End Wal.
