(* ===== verification/Block.v ===== *)
(** * Block: the block devices of [crates/tpt-archon-core/src/block/]

    The [BlockDevice] trait as a class, the contract its clients rely on as the
    class [BlockDeviceLaws] (a failed write may tear the block it targets, and
    nothing else), and two backends that meet it: the in-memory device and the
    file device, whose I/O calls can fail. *)
From Stdlib Require Import ZArith Lia Strings.Byte.
From stdpp Require Import base numbers option list.
From S2P Require Import Prelude Checksum.

(** ** [block/mod.rs] *)

Inductive StorageError : Type :=
| OutOfBounds (block_id block_count : Z)
| ShortRead (got expected : nat)
| ShortWrite (got expected : nat)
| Io (kind : Z)
| SyncFailed
| AllFramesPinned
| UncommittedPagesPinned
| Unsupported
| Corrupt.

#[export] Instance StorageError_eq_dec : EqDecision StorageError.
Proof. solve_decision. Defined.

(** [PAGE_SIZE] of [page.rs]: 4096 bytes. *)
Definition PAGE_SIZE : nat := Z.to_nat 4096.
(** A block is a page and its checksum. *)
Definition BLOCK_SIZE : nat := PAGE_SIZE + PAGE_CRC.

Lemma PAGE_SIZE_Z : Z.of_nat PAGE_SIZE = 4096%Z.
Proof. reflexivity. Qed.
#[global] Opaque PAGE_SIZE.

Lemma BLOCK_SIZE_eq : BLOCK_SIZE = PAGE_SIZE + 4.
Proof. reflexivity. Qed.

Lemma BLOCK_SIZE_Z : Z.of_nat BLOCK_SIZE = 4100%Z.
Proof. unfold BLOCK_SIZE, PAGE_CRC. rewrite Nat2Z.inj_add, PAGE_SIZE_Z. reflexivity. Qed.
#[global] Opaque BLOCK_SIZE.

(** The trait.  [read_block] takes [&self] and fills the caller's buffer. *)
Class BlockDevice (D : Type) : Type := {
  read_block : D -> Z -> M (list byte) StorageError unit;
  write_block : Z -> list byte -> M D StorageError unit;
  sync : M D StorageError unit;
  block_count : D -> Z;
}.

(** The contract: [dev_ok] is the backend's invariant, [dev_block d i] what
    block [i] holds. *)
Class BlockDeviceLaws (D : Type) `{BlockDevice D} : Type := {
  dev_ok : D -> Prop;
  dev_block : D -> Z -> list byte;
  law_count d : dev_ok d -> (0 <= block_count d < 2 ^ 64 - 1)%Z;
  law_block_len d i :
    dev_ok d -> (0 <= i < block_count d)%Z -> length (dev_block d i) = BLOCK_SIZE;
  law_read_ok d i buf buf' :
    dev_ok d -> (0 <= i)%Z -> read_block d i buf = (Ok tt, buf') ->
    (i < block_count d)%Z /\ length buf = BLOCK_SIZE /\ buf' = dev_block d i;
  law_read_no_panic d i buf : dev_ok d -> (0 <= i)%Z -> fst (read_block d i buf) <> Panic;
  law_write_ok d i data d' :
    dev_ok d -> (0 <= i)%Z -> write_block i data d = (Ok tt, d') ->
    (i < block_count d)%Z /\ length data = BLOCK_SIZE /\ dev_ok d' /\
    block_count d' = block_count d /\ dev_block d' i = data /\
    (forall j, (0 <= j)%Z -> j <> i -> dev_block d' j = dev_block d j);
  law_write_err d i data e d' :
    dev_ok d -> (0 <= i)%Z -> write_block i data d = (Err e, d') ->
    dev_ok d' /\ block_count d' = block_count d /\
    (forall j, (0 <= j)%Z -> j <> i -> dev_block d' j = dev_block d j);
  law_write_no_panic d i data : dev_ok d -> (0 <= i)%Z -> fst (write_block i data d) <> Panic;
  law_sync d r d' :
    dev_ok d -> sync d = (r, d') ->
    r <> Panic /\ dev_ok d' /\ block_count d' = block_count d /\
    (forall j, (0 <= j)%Z -> dev_block d' j = dev_block d j);
}.

(** ** Blocks laid out one after the other in a byte array *)

Definition block_of (l : list byte) (i : Z) : list byte :=
  slice (Z.to_nat i * BLOCK_SIZE) (Z.to_nat i * BLOCK_SIZE + BLOCK_SIZE) l.

Lemma blocks_in_range (l : list byte) (n i : Z) :
  (Z.to_nat n * BLOCK_SIZE <= length l) -> (0 <= i < n)%Z ->
  Z.to_nat i * BLOCK_SIZE + BLOCK_SIZE <= length l.
Proof.
  intros Hl Hi. replace (Z.to_nat n)
    with (Z.to_nat i + 1 + (Z.to_nat n - Z.to_nat i - 1)) in Hl by lia. nia.
Qed.

Lemma block_of_length l i :
  Z.to_nat i * BLOCK_SIZE + BLOCK_SIZE <= length l -> length (block_of l i) = BLOCK_SIZE.
Proof. intros H. unfold block_of. rewrite slice_length; lia. Qed.

Lemma block_of_write l i data :
  Z.to_nat i * BLOCK_SIZE + BLOCK_SIZE <= length l -> length data = BLOCK_SIZE ->
  block_of (splice (Z.to_nat i * BLOCK_SIZE) data l) i = data.
Proof. intros Hl Hb. unfold block_of. rewrite <- Hb. apply slice_splice. rewrite Hb. lia. Qed.

(** A (possibly partial) write to block [i] leaves the other blocks alone. *)
Lemma block_of_write_other l i j data :
  Z.to_nat i * BLOCK_SIZE + BLOCK_SIZE <= length l -> length data <= BLOCK_SIZE ->
  (0 <= i)%Z -> (0 <= j)%Z -> j <> i ->
  block_of (splice (Z.to_nat i * BLOCK_SIZE) data l) j = block_of l j.
Proof.
  intros Hl Hb Hi Hj Hne. unfold block_of.
  assert (Hlen : length (splice (Z.to_nat i * BLOCK_SIZE) data l) = length l)
    by (apply splice_length; lia).
  destruct (decide (Z.to_nat j < Z.to_nat i)).
  - apply slice_splice_disjoint; [lia|nia|left; nia].
  - destruct (decide (Z.to_nat j * BLOCK_SIZE + BLOCK_SIZE <= length l)).
    + apply slice_splice_disjoint; [lia|lia|right; nia].
    + apply list_eq. intros k. unfold slice.
      destruct (decide (k < BLOCK_SIZE)); [|rewrite !lookup_take_ge by lia; done].
      rewrite !lookup_take_lt, !lookup_drop by lia. unfold splice.
      rewrite lookup_app_r by (rewrite length_take; nia).
      rewrite lookup_app_r by (rewrite length_take; nia).
      rewrite length_take, lookup_drop. f_equal. nia.
Qed.

(** ** [block/memory.rs] *)
Module InMemory.

Record InMemoryBlockDevice : Type := mkInMemory { blocks : list byte; count : Z }.

(** Panics when [block_count * BLOCK_SIZE] overflows [usize]. *)
Definition new (n : Z) : outcome StorageError InMemoryBlockDevice :=
  if decide (n * Z.of_nat BLOCK_SIZE < 2 ^ 64)%Z then
    Ok {| blocks := replicate (Z.to_nat n * BLOCK_SIZE) x00; count := n |}
  else Panic.

Definition range (d : InMemoryBlockDevice) (i : Z) : outcome StorageError (nat * nat) :=
  if decide (count d <= i)%Z then Err (OutOfBounds i (count d))
  else let start := Z.to_nat i * BLOCK_SIZE in Ok (start, start + BLOCK_SIZE).

(** Indexing [self.blocks[range]] panics when the range is out of bounds. *)
Definition mem_read (d : InMemoryBlockDevice) (i : Z) : M (list byte) StorageError unit :=
  fun buffer =>
    if decide (length buffer ≠ BLOCK_SIZE) then
      (Err (ShortRead (length buffer) BLOCK_SIZE), buffer)
    else match range d i with
    | Ok (a, b) =>
        if decide (b <= length (blocks d)) then (Ok tt, slice a b (blocks d))
        else (Panic, buffer)
    | Err e => (Err e, buffer)
    | Panic => (Panic, buffer)
    end.

Definition mem_write (i : Z) (data : list byte) : M InMemoryBlockDevice StorageError unit :=
  fun d =>
    if decide (length data ≠ BLOCK_SIZE) then
      (Err (ShortWrite (length data) BLOCK_SIZE), d)
    else match range d i with
    | Ok (a, b) =>
        if decide (b <= length (blocks d)) then
          (Ok tt, {| blocks := splice a data (blocks d); count := count d |})
        else (Panic, d)
    | Err e => (Err e, d)
    | Panic => (Panic, d)
    end.

Definition mem_sync : M InMemoryBlockDevice StorageError unit := mret tt.

#[export] Instance device : BlockDevice InMemoryBlockDevice := {|
  read_block := mem_read;
  write_block := mem_write;
  sync := mem_sync;
  block_count := count;
|}.

Definition ok (d : InMemoryBlockDevice) : Prop :=
  (0 <= count d)%Z /\ (count d * Z.of_nat BLOCK_SIZE < 2 ^ 64)%Z /\
  length (blocks d) = Z.to_nat (count d) * BLOCK_SIZE.

Definition block (d : InMemoryBlockDevice) (i : Z) : list byte := block_of (blocks d) i.

Lemma block_in_range d i :
  ok d -> (0 <= i < count d)%Z -> Z.to_nat i * BLOCK_SIZE + BLOCK_SIZE <= length (blocks d).
Proof. intros (H0 & _ & Hl) Hi. apply (blocks_in_range _ (count d)); lia. Qed.

Lemma new_ok n d : (0 <= n)%Z -> new n = Ok d -> ok d /\ count d = n.
Proof.
  unfold new. intros Hn. case_decide; [|done]. intros [= <-].
  split; [|done]. split_and!; simpl; [done|done|]. apply length_replicate.
Qed.

#[export] Instance device_laws : BlockDeviceLaws InMemoryBlockDevice.
Proof.
  refine {| dev_ok := ok; dev_block := block |}.
  - intros d (H0 & H1 & _). rewrite BLOCK_SIZE_Z in H1. simpl. lia.
  - intros d i Hok Hi. apply block_of_length. by apply block_in_range.
  - intros d i buf buf' Hok Hi H. simpl in *. unfold mem_read, range in H.
    case_decide as Hb; [done|]. case_decide as Hc; [done|]. case_decide; [|done].
    injection H as <-. split_and!; [lia|done|done].
  - intros d i buf Hok Hi. simpl. unfold mem_read, range.
    case_decide as Hb; [done|]. case_decide as Hc; [done|]. case_decide as Hl; [done|].
    assert (H := block_in_range d i Hok ltac:(lia)). lia.
  - intros d i data d' Hok Hi H. simpl in *. unfold mem_write, range in H.
    case_decide as Hb; [done|]. case_decide as Hc; [done|]. case_decide as Hl; [|done].
    injection H as <-. destruct Hok as (H0 & H1 & H2).
    split_and!; simpl; [lia|done| |done| |].
    + split_and!; simpl; [done|done|]. rewrite splice_length; lia.
    + apply block_of_write; [lia|done].
    + intros j Hj Hne. apply block_of_write_other; lia.
  - intros d i data e d' Hok Hi H. simpl in *. unfold mem_write, range in H.
    case_decide; [by injection H as <- <-|]. case_decide; [by injection H as <- <-|].
    case_decide; done.
  - intros d i data Hok Hi. simpl. unfold mem_write, range.
    case_decide as Hb; [done|]. case_decide as Hc; [done|]. case_decide as Hl; [done|].
    assert (H := block_in_range d i Hok ltac:(lia)). lia.
  - intros d r d' Hok [= <- <-]. done.
Defined.

End InMemory.

(** ** [block/file.rs]

    The operating system side of [std::fs::File]: the bytes of the file as the
    process sees them, the bytes a successful [sync_all] has made durable, the
    offsets at which reads fail, and a script saying which of the coming calls
    fail.  A failed [write_all] may have written a prefix of its data; changing
    the length is durable at once.  Every read and write of the device seeks to
    an absolute offset first, so the file position is not part of the state. *)
Module FileDevice.

Inductive io_event : Type := IoOk | IoFail (kind : Z) (written : nat).

Record file : Type := mkFile {
  f_data : list byte;
  f_synced : list byte;
  f_bad : nat -> option Z;
  f_script : list io_event;
}.

Definition UNEXPECTED_EOF : Z := 37.

Definition next_event (f : file) : io_event * file :=
  match f_script f with
  | [] => (IoOk, f)
  | e :: es => (e, mkFile (f_data f) (f_synced f) (f_bad f) es)
  end.

Definition with_data (f : file) (l : list byte) : file :=
  {| f_data := l; f_synced := f_synced f; f_bad := f_bad f; f_script := f_script f |}.
Definition with_synced (f : file) (l : list byte) : file :=
  {| f_data := f_data f; f_synced := l; f_bad := f_bad f; f_script := f_script f |}.

(** [seek(..).map_err(io_err)?]. *)
Definition seek : M file StorageError unit := fun f =>
  match next_event f with
  | (IoOk, f') => (Ok tt, f')
  | (IoFail k _, f') => (Err (Io k), f')
  end.

Definition write_all (off : nat) (data : list byte) : M file StorageError unit := fun f =>
  match next_event f with
  | (IoOk, f') => (Ok tt, with_data f' (splice off data (f_data f')))
  | (IoFail k n, f') => (Err (Io k), with_data f' (splice off (take n data) (f_data f')))
  end.

Definition read_exact (off n : nat) (f : file) : outcome StorageError (list byte) :=
  match f_bad f off with
  | Some k => Err (Io k)
  | None =>
      if decide (off + n <= length (f_data f)) then Ok (slice off (off + n) (f_data f))
      else Err (Io UNEXPECTED_EOF)
  end.

(** The contents [l] after a change of the file's length from [cur] to [n]. *)
Definition resize (n cur : nat) (l : list byte) : list byte :=
  take n l ++ replicate (n - cur) x00.

Definition set_len (n : nat) : M file StorageError unit := fun f =>
  match next_event f with
  | (IoOk, f') =>
      let cur := length (f_data f') in
      (Ok tt, with_synced (with_data f' (resize n cur (f_data f'))) (resize n cur (f_synced f')))
  | (IoFail k _, f') => (Err (Io k), f')
  end.

(** [sync_all().map_err(|_| SyncFailed)]. *)
Definition sync_all : M file StorageError unit := fun f =>
  match next_event f with
  | (IoOk, f') => (Ok tt, with_synced f' (f_data f'))
  | (IoFail _ _, f') => (Err SyncFailed, f')
  end.

Record FileBlockDevice : Type := mkFileDevice { fb_file : file; fb_count : Z }.

Definition create (f : file) (n : Z) : outcome StorageError FileBlockDevice :=
  let len := (n * Z.of_nat BLOCK_SIZE)%Z in
  if decide (2 ^ 64 <= len)%Z then Err (OutOfBounds n n)
  else match set_len (Z.to_nat len) f with
  | (Ok _, f') => Ok {| fb_file := f'; fb_count := n |}
  | (Err e, _) => Err e
  | (Panic, _) => Panic
  end.

Definition open (f : file) : outcome StorageError FileBlockDevice :=
  Ok {| fb_file := f; fb_count := (Z.of_nat (length (f_data f)) / Z.of_nat BLOCK_SIZE)%Z |}.

Definition offset (d : FileBlockDevice) (i : Z) : outcome StorageError nat :=
  if decide (fb_count d <= i)%Z then Err (OutOfBounds i (fb_count d))
  else Ok (Z.to_nat i * BLOCK_SIZE).

Definition file_read (d : FileBlockDevice) (i : Z) : M (list byte) StorageError unit :=
  fun buffer =>
    if decide (length buffer ≠ BLOCK_SIZE) then
      (Err (ShortRead (length buffer) BLOCK_SIZE), buffer)
    else match offset d i with
    | Ok off =>
        match read_exact off BLOCK_SIZE (fb_file d) with
        | Ok b => (Ok tt, b)
        | Err e => (Err e, buffer)
        | Panic => (Panic, buffer)
        end
    | Err e => (Err e, buffer)
    | Panic => (Panic, buffer)
    end.

Definition on_file {A} (m : M file StorageError A) : M FileBlockDevice StorageError A :=
  fun d => let '(r, f') := m (fb_file d) in (r, {| fb_file := f'; fb_count := fb_count d |}).

Definition file_write (i : Z) (data : list byte) : M FileBlockDevice StorageError unit :=
  fun d =>
    if decide (length data ≠ BLOCK_SIZE) then
      (Err (ShortWrite (length data) BLOCK_SIZE), d)
    else match offset d i with
    | Ok off => on_file (seek;; write_all off data) d
    | Err e => (Err e, d)
    | Panic => (Panic, d)
    end.

Definition file_sync : M FileBlockDevice StorageError unit := on_file sync_all.

#[export] Instance device : BlockDevice FileBlockDevice := {|
  read_block := file_read;
  write_block := file_write;
  sync := file_sync;
  block_count := fb_count;
|}.

Definition ok (d : FileBlockDevice) : Prop :=
  (0 <= fb_count d)%Z /\ (fb_count d * Z.of_nat BLOCK_SIZE < 2 ^ 64)%Z /\
  Z.to_nat (fb_count d) * BLOCK_SIZE <= length (f_data (fb_file d)).

Definition block (d : FileBlockDevice) (i : Z) : list byte := block_of (f_data (fb_file d)) i.

Lemma next_event_data f e f' :
  next_event f = (e, f') ->
  f_data f' = f_data f /\ f_synced f' = f_synced f /\ f_bad f' = f_bad f.
Proof. unfold next_event. destruct (f_script f); intros [= <- <-]; done. Qed.

Lemma create_ok f n d : (0 <= n)%Z -> create f n = Ok d -> ok d /\ fb_count d = n.
Proof.
  intros Hn. unfold create, set_len. case_decide; [done|].
  destruct (next_event f) as [[|k w] f'] eqn:E; [|done].
  intros [= <-]. split; [|done]. split_and!; simpl; [done|lia|].
  unfold resize. rewrite length_app, length_take, length_replicate. lia.
Qed.

Lemma open_ok f d :
  (Z.of_nat (length (f_data f)) < 2 ^ 64)%Z -> open f = Ok d -> ok d.
Proof.
  intros Hf [= <-]. assert (Hb := BLOCK_SIZE_Z). unfold ok. cbn [fb_count fb_file].
  rewrite Hb. assert (Hd := Z.mul_div_le (Z.of_nat (length (f_data f))) 4100 ltac:(lia)).
  assert (0 <= Z.of_nat (length (f_data f)) / 4100)%Z by (apply Z.div_pos; lia).
  split_and!; [done|lia|]. apply Nat2Z.inj_le. rewrite Nat2Z.inj_mul, Hb. lia.
Qed.

#[export] Instance device_laws : BlockDeviceLaws FileBlockDevice.
Proof.
  refine {| dev_ok := ok; dev_block := block |}.
  - intros d (H0 & H1 & _). rewrite BLOCK_SIZE_Z in H1. simpl. lia.
  - intros d i (H0 & H1 & H2) Hi. apply block_of_length. by apply (blocks_in_range _ (fb_count d)).
  - intros d i buf buf' (H0 & H1 & H2) Hi H. simpl in *. unfold file_read, offset, read_exact in H.
    case_decide as Hb; [done|]. case_decide as Hc; [done|].
    destruct (f_bad _ _); [done|]. case_decide; [|done].
    injection H as <-. split_and!; [lia|done|done].
  - intros d i buf Hok Hi. simpl. unfold file_read, offset, read_exact.
    case_decide; [done|]. case_decide; [done|]. destruct (f_bad _ _); [done|]. by case_decide.
  - intros d i data d' (H0 & H1 & H2) Hi H. simpl in *.
    unfold file_write, offset, on_file, mbind, M_bind, seek, write_all in H.
    case_decide as Hb; [done|]. case_decide as Hc; [done|].
    destruct (next_event (fb_file d)) as [[|k w] f1] eqn:E1; [|done].
    destruct (next_event f1) as [[|k w] f2] eqn:E2; [|done].
    apply next_event_data in E1 as [E1 _], E2 as [E2 _]. injection H as <-.
    assert (Hr := blocks_in_range _ (fb_count d) i H2 ltac:(lia)).
    split_and!; simpl; [lia|done| |done| |].
    + split_and!; simpl; [done|done|]. rewrite E2, E1, splice_length; lia.
    + unfold block. simpl. rewrite E2, E1. by apply block_of_write.
    + intros j Hj Hne. unfold block. simpl. rewrite E2, E1. apply block_of_write_other; lia.
  - intros d i data e d' (H0 & H1 & H2) Hi H. simpl in *.
    unfold file_write, offset, on_file, mbind, M_bind, seek, write_all in H.
    case_decide as Hb; [by injection H as <- <-|]. case_decide as Hc; [by injection H as <- <-|].
    assert (Hr := blocks_in_range _ (fb_count d) i H2 ltac:(lia)).
    destruct (next_event (fb_file d)) as [[|k w] f1] eqn:E1.
    2: { apply next_event_data in E1 as [E1 _]. injection H as <- <-.
         split_and!; [|done|]; [|intros j _ _; unfold block]; unfold ok; simpl; rewrite E1; done. }
    destruct (next_event f1) as [[|k w] f2] eqn:E2; [done|].
    apply next_event_data in E1 as [E1 _], E2 as [E2 _]. injection H as <- <-.
    assert (Ht : length (take w data) <= BLOCK_SIZE) by (rewrite length_take; lia).
    split_and!; [|done|].
    + split_and!; simpl; [done|done|]. rewrite E2, E1, splice_length; lia.
    + intros j Hj Hne. unfold block. simpl. rewrite E2, E1. apply block_of_write_other; lia.
  - intros d i data Hok Hi. simpl.
    unfold file_write, offset, on_file, mbind, M_bind, seek, write_all.
    case_decide; [done|]. case_decide; [done|].
    destruct (next_event (fb_file d)) as [[|k w] f1]; [|done].
    destruct (next_event f1) as [[|k1 w1] f2]; done.
  - intros d r d' (H0 & H1 & H2) H. simpl in *. unfold file_sync, on_file, sync_all in H.
    destruct (next_event (fb_file d)) as [[|k w] f1] eqn:E1;
      apply next_event_data in E1 as [E1 _]; injection H as <- <-;
      (split_and!; [done| |done|]; [|intros j _; unfold block]; unfold ok; simpl; rewrite E1; done).
Defined.

End FileDevice.
