(* ===== verification/Mmap.v ===== *)
(** * Mmap: the memory-mapped block devices of
    [crates/tpt-archon-core/src/block/mmap.rs] and [mmap_mut.rs]

    A mapping is the crate [memmap2]'s: a byte array with a range flush, given by
    the class [MmapMut] and what its documentation promises by [MmapMutLaws].
    Both devices meet the contract [BlockDeviceLaws], so that what is proved of
    the buffer pool and the storage engine holds over them. *)
From Stdlib Require Import ZArith Lia Strings.Byte.
From stdpp Require Import base numbers option list.
From S2P Require Import Prelude Block.

Module Mmap.

(** ** The mapping *)

(** [as_bytes] is the deref to [[u8]], [assign] a copy into a range of it. *)
Class MmapMut (Map : Type) : Type := {
  as_bytes : Map -> list byte;
  assign : nat -> list byte -> Map -> Map;
  flush_range : nat -> nat -> M Map unit unit;
}.

(** [persisted m k]: the file on disk holds byte [k] of the mapping.  A flush that
    succeeds makes its range so; one that fails promises nothing. *)
Class MmapMutLaws (Map : Type) `{MmapMut Map} : Type := {
  persisted : Map -> nat -> Prop;
  law_assign m off data :
    off + length data <= length (as_bytes m) ->
    as_bytes (assign off data m) = splice off data (as_bytes m) /\
    forall k, persisted m k -> k < off \/ off + length data <= k -> persisted (assign off data m) k;
  law_flush m off len r m' :
    flush_range off len m = (r, m') ->
    r <> Panic /\ as_bytes m' = as_bytes m /\
    (forall k, persisted m k -> persisted m' k) /\
    (r = Ok tt -> forall k, off <= k < off + len -> persisted m' k);
}.

(** ** [mmap.rs]: the read-only device *)

Record MmapBlockDevice : Type := mkMmap { ro_bytes : list byte; ro_count : Z }.

(** [open], from the outcome of opening and mapping the file. *)
Definition open (mapped : outcome Z (list byte)) : outcome StorageError MmapBlockDevice :=
  match mapped with
  | Ok l => Ok (mkMmap l (Z.of_nat (length l) / Z.of_nat BLOCK_SIZE))
  | Err kind => Err (Io kind)
  | Panic => Panic
  end.

Definition page_ref (d : MmapBlockDevice) (i : Z) : outcome StorageError (list byte) :=
  if decide (ro_count d <= i)%Z then Err (OutOfBounds i (ro_count d))
  else
    let start := Z.to_nat i * BLOCK_SIZE in
    let stop := start + BLOCK_SIZE in
    if decide (stop <= length (ro_bytes d)) then Ok (slice start stop (ro_bytes d)) else Panic.

Definition mmap_read (d : MmapBlockDevice) (i : Z) : M (list byte) StorageError unit := fun buffer =>
  if decide (length buffer ≠ BLOCK_SIZE) then (Err (ShortRead (length buffer) BLOCK_SIZE), buffer)
  else match page_ref d i with
  | Ok page => (Ok tt, page)
  | Err e => (Err e, buffer)
  | Panic => (Panic, buffer)
  end.

Definition mmap_write (_ : Z) (_ : list byte) : M MmapBlockDevice StorageError unit := m_err Unsupported.
Definition mmap_sync : M MmapBlockDevice StorageError unit := mret tt.

#[export] Instance ro_device : BlockDevice MmapBlockDevice := {|
  read_block := mmap_read;
  write_block := mmap_write;
  sync := mmap_sync;
  block_count := ro_count;
|}.

Definition ro_ok (d : MmapBlockDevice) : Prop :=
  (0 <= ro_count d)%Z /\ (ro_count d * Z.of_nat BLOCK_SIZE < 2 ^ 64)%Z /\
  Z.to_nat (ro_count d) * BLOCK_SIZE <= length (ro_bytes d).

(** The blocks of a byte array of less than 2^64 bytes. *)
Lemma count_ok len : (Z.of_nat len < 2 ^ 64)%Z ->
  let n := (Z.of_nat len / Z.of_nat BLOCK_SIZE)%Z in
  (0 <= n)%Z /\ (n * Z.of_nat BLOCK_SIZE < 2 ^ 64)%Z /\ Z.to_nat n * BLOCK_SIZE <= len.
Proof.
  intros Hf. rewrite BLOCK_SIZE_Z. intros n.
  assert (Hd := Z.mul_div_le (Z.of_nat len) 4100 ltac:(lia)).
  assert (0 <= n)%Z by (apply Z.div_pos; lia). subst n.
  split_and!; [done|lia|]. apply Nat2Z.inj_le. rewrite Nat2Z.inj_mul, BLOCK_SIZE_Z. lia.
Qed.

Lemma mapped_open_ok l : (Z.of_nat (length l) < 2 ^ 64)%Z ->
  exists d, open (Ok l) = Ok d /\ ro_ok d /\ ro_bytes d = l.
Proof. intros Hl. eexists. split; [done|]. split; [|done]. by apply count_ok. Qed.

Lemma page_ref_ok d i : ro_ok d -> (0 <= i)%Z ->
  page_ref d i = if decide (ro_count d <= i)%Z then Err (OutOfBounds i (ro_count d))
                 else Ok (block_of (ro_bytes d) i).
Proof.
  intros (H0 & H1 & H2) Hi. unfold page_ref. case_decide as Hc; [done|].
  by rewrite decide_True by (apply (blocks_in_range _ (ro_count d)); lia).
Qed.

#[export] Instance ro_device_laws : BlockDeviceLaws MmapBlockDevice.
Proof.
  refine {| dev_ok := ro_ok; dev_block := fun d => block_of (ro_bytes d) |}.
  - intros d (H0 & H1 & _). rewrite BLOCK_SIZE_Z in H1. simpl. lia.
  - intros d i (H0 & H1 & H2) Hi. apply block_of_length. by apply (blocks_in_range _ (ro_count d)).
  - intros d i buf buf' Hok Hi H. simpl in *. unfold mmap_read in H. rewrite page_ref_ok in H by done.
    case_decide; [done|]. case_decide; [done|]. injection H as <-. split_and!; [lia|lia|done].
  - intros d i buf Hok Hi. simpl. unfold mmap_read. rewrite page_ref_ok by done.
    case_decide; [done|]. by case_decide.
  - done.
  - intros d i data e d' Hok Hi [= <- <-]. done.
  - done.
  - intros d r d' Hok [= <- <-]. done.
Defined.

(** ** [mmap_mut.rs]: the writable device *)

Section Writable.
Context {Map : Type} {MM : MmapMut Map} {ML : MmapMutLaws Map}.

Record MmapWritableBlockDevice : Type := mkWritable {
  mmap : Map;
  rw_count : Z;
  dirty : option (Z * Z);
}.

(** [open], from the file's length and its mapping. *)
Definition open_writable (len : outcome Z nat) (mapped : outcome Z Map)
    : outcome StorageError MmapWritableBlockDevice :=
  match len, mapped with
  | Ok n, Ok m => Ok (mkWritable m (Z.of_nat n / Z.of_nat BLOCK_SIZE) None)
  | Err kind, _ | Ok _, Err kind => Err (Io kind)
  | _, _ => Panic
  end.

Definition widen_dirty (i : Z) (d : MmapWritableBlockDevice) : MmapWritableBlockDevice :=
  mkWritable (mmap d) (rw_count d)
    (Some match dirty d with Some (lo, hi) => (Z.min lo i, Z.max hi i) | None => (i, i) end).

Definition writable_read (d : MmapWritableBlockDevice) (i : Z) : M (list byte) StorageError unit := fun buffer =>
  if decide (length buffer ≠ BLOCK_SIZE) then (Err (ShortRead (length buffer) BLOCK_SIZE), buffer)
  else if decide (rw_count d <= i)%Z then (Err (OutOfBounds i (rw_count d)), buffer)
  else
    let start := Z.to_nat i * BLOCK_SIZE in
    let stop := start + BLOCK_SIZE in
    if decide (stop <= length (as_bytes (mmap d))) then (Ok tt, slice start stop (as_bytes (mmap d)))
    else (Panic, buffer).

Definition writable_write (i : Z) (data : list byte) : M MmapWritableBlockDevice StorageError unit := fun d =>
  if decide (length data ≠ BLOCK_SIZE) then (Err (ShortWrite (length data) BLOCK_SIZE), d)
  else if decide (rw_count d <= i)%Z then (Err (OutOfBounds i (rw_count d)), d)
  else
    let start := Z.to_nat i * BLOCK_SIZE in
    if decide (start + BLOCK_SIZE <= length (as_bytes (mmap d))) then
      (Ok tt, widen_dirty i (mkWritable (assign start data (mmap d)) (rw_count d) (dirty d)))
    else (Panic, d).

(** [self.dirty.take()] empties the span before the flush can fail. *)
Definition writable_sync : M MmapWritableBlockDevice StorageError unit := fun d =>
  match dirty d with
  | None => (Ok tt, d)
  | Some (lo, hi) =>
      let start := Z.to_nat lo * BLOCK_SIZE in
      let stop := (Z.to_nat hi + 1) * BLOCK_SIZE in
      let '(r, m) := flush_range start (stop - start) (mmap d) in
      (map_err (fun _ => SyncFailed) r, mkWritable m (rw_count d) None)
  end.

#[export] Instance rw_device : BlockDevice MmapWritableBlockDevice := {|
  read_block := writable_read;
  write_block := writable_write;
  sync := writable_sync;
  block_count := rw_count;
|}.

Definition rw_ok (d : MmapWritableBlockDevice) : Prop :=
  (0 <= rw_count d)%Z /\ (rw_count d * Z.of_nat BLOCK_SIZE < 2 ^ 64)%Z /\
  Z.to_nat (rw_count d) * BLOCK_SIZE <= length (as_bytes (mmap d)).

Definition rw_block (d : MmapWritableBlockDevice) (i : Z) : list byte := block_of (as_bytes (mmap d)) i.

Lemma writable_open_ok len m : (Z.of_nat len < 2 ^ 64)%Z -> len <= length (as_bytes m) ->
  exists d, open_writable (Ok len) (Ok m) = Ok d /\ rw_ok d /\ mmap d = m /\ dirty d = None.
Proof.
  intros Hl Hm. eexists. split; [done|]. split; [|done].
  destruct (count_ok len Hl) as (? & ? & ?). split_and!; simpl; [done|done|lia].
Qed.

(** A write in range and what it leaves. *)
Lemma write_in_range i data d : rw_ok d -> (0 <= i < rw_count d)%Z -> length data = BLOCK_SIZE ->
  let m := assign (Z.to_nat i * BLOCK_SIZE) data (mmap d) in
  writable_write i data d = (Ok tt, widen_dirty i (mkWritable m (rw_count d) (dirty d))) /\
  as_bytes m = splice (Z.to_nat i * BLOCK_SIZE) data (as_bytes (mmap d)) /\
  length (as_bytes m) = length (as_bytes (mmap d)).
Proof.
  intros (H0 & H1 & H2) Hi Hd m. assert (Hr := blocks_in_range _ _ _ H2 Hi).
  destruct (law_assign (mmap d) (Z.to_nat i * BLOCK_SIZE) data ltac:(lia)) as [Hb _].
  unfold writable_write. rewrite decide_False by lia. rewrite decide_False by lia.
  rewrite decide_True by lia. split; [done|]. split; [done|].
  subst m. rewrite Hb, splice_length; lia.
Qed.

(** What [sync] does to the mapping. *)
Lemma sync_inv d r d' : writable_sync d = (r, d') ->
  r <> Panic /\ rw_count d' = rw_count d /\ dirty d' = None /\ as_bytes (mmap d') = as_bytes (mmap d) /\
  (forall k, persisted (mmap d) k -> persisted (mmap d') k) /\
  (r = Ok tt -> forall lo hi k, dirty d = Some (lo, hi) ->
     Z.to_nat lo * BLOCK_SIZE <= k < (Z.to_nat hi + 1) * BLOCK_SIZE -> persisted (mmap d') k).
Proof.
  unfold writable_sync. destruct (dirty d) as [[lo hi]|] eqn:Ed.
  2: { intros [= <- <-]. by rewrite Ed. }
  destruct (flush_range _ _ _) as [r1 m] eqn:E. intros [= <- <-].
  destruct (law_flush _ _ _ _ _ E) as (Hp & Hb & Hk & Hf). simpl.
  split_and!; [by destruct r1|done|done|done|done|].
  intros Hr lo' hi' k [= <- <-] Hin. apply Hf; [|lia]. destruct r1 as [[]| |]; done.
Qed.

#[export] Instance rw_device_laws : BlockDeviceLaws MmapWritableBlockDevice.
Proof.
  refine {| dev_ok := rw_ok; dev_block := rw_block |}.
  - intros d (H0 & H1 & _). rewrite BLOCK_SIZE_Z in H1. simpl. lia.
  - intros d i (H0 & H1 & H2) Hi. apply block_of_length. by apply (blocks_in_range _ (rw_count d)).
  - intros d i buf buf' Hok Hi E. simpl in *. unfold writable_read in E.
    case_decide; [done|]. case_decide; [done|]. case_decide; [|done].
    injection E as <-. split_and!; [lia|lia|done].
  - intros d i buf (H0 & H1 & H2) Hi. simpl. unfold writable_read.
    case_decide; [done|]. case_decide; [done|].
    by rewrite decide_True by (apply (blocks_in_range _ (rw_count d)); lia).
  - intros d i data d' Hok Hi E. simpl in *.
    assert (Hl : length data = BLOCK_SIZE /\ (i < rw_count d)%Z).
    { unfold writable_write in E. case_decide; [done|]. case_decide; [done|]. lia. }
    destruct (write_in_range i data d Hok ltac:(lia) ltac:(apply Hl)) as (Ew & Hb & Hlen).
    rewrite Ew in E. injection E as <-. destruct Hok as (H0 & H1 & H2).
    assert (Hr := blocks_in_range _ _ i H2 ltac:(lia)). unfold rw_block. simpl. rewrite Hb.
    split_and!; [lia|lia| |done|apply block_of_write; lia|intros j ??; apply block_of_write_other; lia].
    split_and!; simpl; [done|done|lia].
  - intros d i data e d' Hok Hi E. simpl in *. unfold writable_write in E.
    case_decide; [by injection E as <- <-|]. case_decide; [by injection E as <- <-|]. by case_decide.
  - intros d i data (H0 & H1 & H2) Hi. simpl. unfold writable_write.
    case_decide; [done|]. case_decide; [done|].
    by rewrite decide_True by (apply (blocks_in_range _ (rw_count d)); lia).
  - intros d r d' (H0 & H1 & H2) E. apply sync_inv in E as (Hp & Hc & _ & Hb & _). simpl.
    unfold rw_ok, rw_block. by rewrite Hc, Hb.
Defined.

(** ** Durability *)

(** Block [i] is on disk as the mapping has it. *)
Definition on_disk (d : MmapWritableBlockDevice) (i : Z) : Prop :=
  forall k, Z.to_nat i * BLOCK_SIZE <= k < (Z.to_nat i + 1) * BLOCK_SIZE -> persisted (mmap d) k.

Definition in_span (i : Z) (span : option (Z * Z)) : Prop :=
  match span with Some (lo, hi) => (lo <= i <= hi)%Z | None => False end.

(** What is outside the dirty span is on disk. *)
Definition covered (d : MmapWritableBlockDevice) : Prop :=
  (forall i, (0 <= i < rw_count d)%Z -> ~ in_span i (dirty d) -> on_disk d i) /\
  match dirty d with Some (lo, hi) => (0 <= lo)%Z | None => True end.

Inductive op : Type := Write (i : Z) (data : list byte) | Sync.

Definition run_op (o : op) : M MmapWritableBlockDevice StorageError unit :=
  match o with Write i data => writable_write i data | Sync => writable_sync end.

(** The operations in order, a failed write being its caller's to handle; the
    result tells whether a [sync] failed. *)
Fixpoint run (ops : list op) (d : MmapWritableBlockDevice) : bool * MmapWritableBlockDevice :=
  match ops with
  | [] => (true, d)
  | o :: ops =>
      let '(r, d1) := run_op o d in
      let '(b, d2) := run ops d1 in
      (match o, r with Sync, Err _ => false | _, _ => b end, d2)
  end.

(** The blocks after the operations, on an array of blocks. *)
Fixpoint model (n : Z) (ops : list op) (f : Z -> list byte) : Z -> list byte :=
  match ops with
  | [] => f
  | Write i data :: ops =>
      model n ops (if decide (length data = BLOCK_SIZE /\ (i < n)%Z)
                   then (fun j => if decide (j = i) then data else f j) else f)
  | Sync :: ops => model n ops f
  end.

Lemma write_covered i data d r d' : rw_ok d -> covered d -> (0 <= i)%Z -> writable_write i data d = (r, d') ->
  rw_ok d' /\ covered d' /\ rw_count d' = rw_count d /\
  forall j, (0 <= j)%Z ->
    rw_block d' j = model (rw_count d) [Write i data] (rw_block d) j.
Proof.
  intros Hok [Hc Hlo] Hi E. simpl.
  destruct (decide (length data = BLOCK_SIZE /\ (i < rw_count d)%Z)) as [[Hl Hr]|Hn].
  2: { unfold writable_write in E. destruct (decide (length data ≠ BLOCK_SIZE)); [by injection E as <- <-|].
       destruct (decide (rw_count d <= i)%Z); [by injection E as <- <-|lia]. }
  destruct (write_in_range i data d Hok ltac:(lia) Hl) as (Ew & Hb & Hlen).
  rewrite Ew in E. injection E as <- <-. destruct Hok as (H0 & H1 & H2).
  assert (Hin := blocks_in_range _ _ i H2 ltac:(lia)).
  destruct (law_assign (mmap d) (Z.to_nat i * BLOCK_SIZE) data ltac:(lia)) as [_ Hp].
  split_and!; simpl; [by split_and!; simpl; lia| |done|].
  - split; [|simpl; destruct (dirty d) as [[lo hi]|]; lia]. simpl. intros j Hj Hns k Hk. apply Hp.
    + apply (Hc j Hj); [|done]. intros Hs. apply Hns. destruct (dirty d) as [[lo hi]|]; simpl in *; [lia|done].
    + assert (Z.to_nat j <> Z.to_nat i).
      { intros Heq. apply Hns. destruct (dirty d) as [[lo hi]|]; simpl; lia. }
      rewrite Hl. assert (Z.to_nat j < Z.to_nat i \/ Z.to_nat i < Z.to_nat j) as [] by lia; [left; nia|right; nia].
  - intros j Hj. unfold rw_block. simpl. rewrite Hb. case_decide as Hji.
    + subst j. apply block_of_write; lia.
    + apply block_of_write_other; lia.
Qed.

Lemma sync_covered d d' : rw_ok d -> covered d -> writable_sync d = (Ok tt, d') ->
  rw_ok d' /\ covered d' /\ rw_count d' = rw_count d /\ (forall j, rw_block d' j = rw_block d j) /\
  forall j, (0 <= j < rw_count d)%Z -> on_disk d' j.
Proof.
  intros (H0 & H1 & H2) [Hc Hlo] E. apply sync_inv in E as (_ & Hn & Hd & Hb & Hk & Hf).
  assert (Hall : forall j, (0 <= j < rw_count d)%Z -> on_disk d' j).
  { intros j Hj k Hin. destruct (dirty d) as [[lo hi]|] eqn:Ed.
    - destruct (decide (in_span j (Some (lo, hi)))) as [Hs|Hs].
      + simpl in Hs. apply (Hf eq_refl lo hi); [done|]. split; [nia|].
        assert (Z.to_nat j <= Z.to_nat hi) by lia. nia.
      + apply Hk, (Hc j Hj Hs k Hin).
    - apply Hk, (Hc j Hj); [by intros []|done]. }
  unfold rw_ok, covered, rw_block. rewrite Hn, Hd, Hb. split_and!; try done. all: try (intros j Hj _; by apply Hall).
Qed.

Lemma model_app n ops ops' : forall f, model n (ops ++ ops') f = model n ops' (model n ops f).
Proof. induction ops as [|[i data|] ops IH]; intros f; simpl; [done|apply IH|apply IH]. Qed.

Lemma model_ext n ops : forall f g, (forall j, (0 <= j)%Z -> f j = g j) ->
  forall j, (0 <= j)%Z -> model n ops f j = model n ops g j.
Proof.
  induction ops as [|[i data|] ops IH]; intros f g Hfg j Hj; simpl; [by apply Hfg| |by apply IH].
  apply IH; [|done]. intros k Hk. case_decide; [|by apply Hfg]. case_decide; [done|by apply Hfg].
Qed.

Definition op_ok (o : op) : Prop := match o with Write i _ => (0 <= i)%Z | Sync => True end.

(** C31: a writable mapping flushes only the span of blocks
    written since the last [sync], and that is enough.  Start with everything on
    disk and let any sequence of writes and syncs run in which no sync fails: the
    blocks are those of an array under the same writes, what lies outside the
    dirty span is on disk, and a [sync] that then succeeds leaves every block on
    disk as it was last written. *)
Theorem mapped_writes_reach_the_disk ops d d' :
  rw_ok d -> covered d -> Forall op_ok ops -> run ops d = (true, d') ->
  rw_ok d' /\ covered d' /\ rw_count d' = rw_count d /\
  (forall j, (0 <= j)%Z -> rw_block d' j = model (rw_count d) ops (rw_block d) j) /\
  forall d2, writable_sync d' = (Ok tt, d2) -> forall j, (0 <= j < rw_count d)%Z ->
    on_disk d2 j /\ rw_block d2 j = model (rw_count d) ops (rw_block d) j.
Proof.
  revert d. induction ops as [|o ops IH]; intros d Hok Hc Hops E; simpl in E.
  { injection E as <-. split_and!; try done. intros d2 Es j Hj.
    apply sync_covered in Es as (_ & _ & _ & Hb & Hall); [|done..]. split; [by apply Hall|apply Hb]. }
  inversion Hops as [|? ? Ho Hops']; subst.
  destruct (run_op o d) as [r d1] eqn:E1. destruct (run ops d1) as [b d3] eqn:E2.
  injection E as Eb <-.
  assert (b = true) as -> by (destruct o, r as [[]| |]; done).
  assert (rw_ok d1 /\ covered d1 /\ rw_count d1 = rw_count d /\
          forall j, (0 <= j)%Z -> rw_block d1 j = model (rw_count d) [o] (rw_block d) j) as (Hok1 & Hc1 & Hn & Hb).
  { destruct o as [i data|].
    - eapply write_covered; done.
    - simpl in E1. assert (r = Ok tt) as ->.
      { apply sync_inv in E1 as (Hp & _). destruct r as [[]| |]; done. }
      apply sync_covered in E1 as (? & ? & ? & Hb & _); [|done..]. split_and!; done. }
  destruct (IH d1 Hok1 Hc1 Hops' E2) as (Hok3 & Hc3 & Hn3 & Hb3 & Hs).
  assert (Hm : forall j, (0 <= j)%Z ->
    model (rw_count d1) ops (rw_block d1) j = model (rw_count d) (o :: ops) (rw_block d) j).
  { intros j Hj. rewrite Hn. change (o :: ops) with ([o] ++ ops). rewrite model_app. by apply model_ext. }
  split_and!; [done|done|congruence|intros j Hj; by rewrite Hb3, Hm|].
  intros d2 Es j Hj. destruct (Hs d2 Es j ltac:(lia)) as [? ->]. split; [done|]. apply Hm. lia.
Qed.

End Writable.
Arguments MmapWritableBlockDevice Map : clear implicits.

(** ** A mapping whose flushes follow a script *)

Record toy : Type := mkToy { t_bytes : list byte; t_disk : list byte; t_script : list bool }.

#[export] Instance toy_map : MmapMut toy := {|
  as_bytes := t_bytes;
  assign off data t := mkToy (splice off data (t_bytes t)) (t_disk t) (t_script t);
  flush_range off len := fun t =>
    match t_script t with
    | false :: s => (Err tt, mkToy (t_bytes t) (t_disk t) s)
    | _ => (Ok tt, mkToy (t_bytes t)
             (if decide (off + len <= length (t_bytes t) /\ length (t_disk t) = length (t_bytes t))
              then splice off (slice off (off + len) (t_bytes t)) (t_disk t) else t_bytes t)
             (tail (t_script t)))
    end
|}.

Definition toy_persisted (t : toy) (k : nat) : Prop :=
  length (t_bytes t) <= k \/ exists b, t_bytes t !! k = Some b /\ t_disk t !! k = Some b.

Lemma splice_lookup_out {A} off (data l : list A) k :
  off + length data <= length l -> k < off \/ off + length data <= k -> splice off data l !! k = l !! k.
Proof.
  intros Hl [Hk|Hk]; unfold splice.
  - rewrite lookup_app_l by (rewrite length_take; lia). by rewrite lookup_take_lt.
  - rewrite app_assoc, lookup_app_r by (rewrite length_app, length_take; lia).
    rewrite length_app, length_take, lookup_drop. f_equal. lia.
Qed.

#[export] Instance toy_laws : MmapMutLaws toy.
Proof.
  refine {| persisted := toy_persisted |}.
  - intros t off data Hl. split; [done|]. intros k [Hk|(b & Hb & Hd)] Hout.
    + left. simpl. by rewrite splice_length.
    + right. exists b. simpl in *. by rewrite splice_lookup_out.
  - intros t off len r t' E. simpl in E.
    assert (Hdone : forall k s,
      toy_persisted t k \/ off <= k < off + len ->
      toy_persisted (mkToy (t_bytes t)
        (if decide (off + len <= length (t_bytes t) /\ length (t_disk t) = length (t_bytes t))
         then splice off (slice off (off + len) (t_bytes t)) (t_disk t) else t_bytes t) s) k).
    { intros k s Hk. destruct (decide (length (t_bytes t) <= k)) as [|Hlt]; [by left|]. right. simpl.
      destruct (lookup_lt_is_Some_2 (t_bytes t) k ltac:(lia)) as [b Hb]. exists b. split; [done|].
      case_decide as Hd; [|done]. destruct Hd as [Hd Hlen].
      assert (Hs : length (slice off (off + len) (t_bytes t)) = len) by (rewrite slice_length; lia).
      destruct (decide (off <= k < off + len)) as [Hin|Hout].
      - unfold splice. rewrite lookup_app_r, length_take by (rewrite length_take; lia).
        rewrite lookup_app_l by lia. unfold slice. rewrite lookup_take_lt by lia.
        rewrite lookup_drop. rewrite <- Hb. f_equal. lia.
      - rewrite splice_lookup_out by lia. destruct Hk as [[?|(b' & Hb' & ->)]|?]; [lia|congruence|done]. }
    destruct (t_script t) as [|[] s]; injection E as <- <-.
    + split_and!; try done; intros; apply Hdone; auto.
    + split_and!; try done; intros; apply Hdone; auto.
    + split_and!; done.
Defined.

Definition toy_device (script : list bool) : MmapWritableBlockDevice toy :=
  mkWritable (mkToy (replicate (2 * BLOCK_SIZE) x00) (replicate (2 * BLOCK_SIZE) x00) script) 2 None.

Lemma toy_device_ok script : rw_ok (toy_device script) /\ covered (toy_device script).
Proof.
  split.
  - unfold rw_ok. simpl. rewrite length_replicate, BLOCK_SIZE_Z. lia.
  - split; [|done]. intros i Hi _ k Hk. simpl in *.
    right. exists x00. assert (k < BLOCK_SIZE + (BLOCK_SIZE + 0)).
    { assert (Z.to_nat i < 2) by lia. nia. }
    split; by apply (lookup_replicate_2 (2 * BLOCK_SIZE)).
Qed.

Definition toy_ops : list op :=
  [Write 1 (replicate BLOCK_SIZE xff); Sync; Write 0 (replicate BLOCK_SIZE x07); Write 7 []].

Lemma mapped_writes_reach_the_disk_witness :
  exists d', run toy_ops (toy_device []) = (true, d') /\
    rw_block d' 0 = replicate BLOCK_SIZE x07 /\
    forall d2, writable_sync d' = (Ok tt, d2) -> on_disk d2 0 /\ on_disk d2 1.
Proof.
  destruct (toy_device_ok []) as [Hok Hc].
  assert (Hf : fst (run toy_ops (toy_device [])) = true) by (vm_compute; reflexivity).
  destruct (run toy_ops (toy_device [])) as [b d'] eqn:Hr. simpl in Hf. subst b.
  exists d'. split; [done|].
  assert (Ho : Forall op_ok toy_ops) by (unfold toy_ops; repeat (apply Forall_cons_2; [unfold op_ok; first [exact I | lia]|]); apply Forall_nil_2).
  destruct (mapped_writes_reach_the_disk toy_ops (toy_device []) d' Hok Hc Ho Hr) as (_ & _ & _ & Hb & Hs).
  split; [rewrite Hb by done; vm_compute; reflexivity|].
  intros d2 E. change (rw_count (toy_device [])) with 2%Z in Hs.
  destruct (Hs d2 E 0%Z ltac:(lia)) as [H0 _], (Hs d2 E 1%Z ltac:(lia)) as [H1 _]. exact (conj H0 H1).
Defined.

(** A [sync] that fails has forgotten what to flush: the next one flushes nothing
    and reports success, and the write is not on disk. *)
Example failed_sync_is_forgotten :
  let d := snd (run [Write 0 (replicate BLOCK_SIZE xff); Sync] (toy_device [false])) in
  fst (writable_sync d) = Ok tt /\ dirty d = None /\
  t_bytes (mmap (snd (writable_sync d))) !! 0 = Some xff /\
  t_disk (mmap (snd (writable_sync d))) !! 0 = Some x00.
Proof. vm_compute. split_and!; reflexivity. Qed.

End Mmap.
