(* ===== verification/Page.v ===== *)
(** * Page: the page frames and the buffer pool of
    [crates/tpt-archon-core/src/page.rs]

    The block format ([encode_page_block], [decode_block]) and every operation
    of [BufferPool].  A reference to a page is the index of its frame;
    [write_frame] is the assignment through the [&mut Page] that [fetch_mut]
    returns. *)
From Stdlib Require Import ZArith Lia Strings.Byte.
From stdpp Require Import base numbers option list.
From S2P Require Import Prelude Checksum Block.

Module Page.

(** ** The block format *)

Definition zero_page : list byte := replicate PAGE_SIZE x00.

(** [copy_from_slice] panics when [page] is not [PAGE_SIZE] bytes. *)
Definition encode_page_block (page : list byte) : outcome StorageError (list byte) :=
  if decide (length page = PAGE_SIZE) then Ok (page ++ le_bytes 4 (crc32 page)) else Panic.

Definition decode_block (block : list byte) : outcome StorageError (list byte) :=
  if decide (length block ≠ PAGE_SIZE + PAGE_CRC) then
    Err (ShortRead (length block) (PAGE_SIZE + PAGE_CRC))
  else if forallb (fun b => Byte.eqb b x00) block then Ok zero_page
  else
    let page := take PAGE_SIZE block in
    let stored := le_val (slice PAGE_SIZE (PAGE_SIZE + 4) block) in
    if decide (crc32 page ≠ stored) then Err Corrupt else Ok page.

(** ** Frames *)

Inductive PageState : Type := Free | Clean | Dirty | Pinned (n : Z).

#[export] Instance PageState_eq_dec : EqDecision PageState.
Proof. solve_decision. Defined.

Definition is_pinned (s : PageState) : bool := match s with Pinned _ => true | _ => false end.

Record Frame : Type := mkFrame {
  block_id : Z;
  page : list byte;
  state : PageState;
  dirty_intent : bool;
}.

Definition set_state (s : PageState) (f : Frame) : Frame :=
  {| block_id := block_id f; page := page f; state := s; dirty_intent := dirty_intent f |}.
Definition set_intent (b : bool) (f : Frame) : Frame :=
  {| block_id := block_id f; page := page f; state := state f; dirty_intent := b |}.
Definition set_page (p : list byte) (f : Frame) : Frame :=
  {| block_id := block_id f; page := p; state := state f; dirty_intent := dirty_intent f |}.

(** [BlockId::MAX] marks a frame that has never held a page. *)
Definition BLOCK_ID_MAX : Z := 2 ^ 64 - 1.

Section Pool.
Context {D : Type} `{BlockDevice D}.

Record BufferPool : Type := mkPool {
  device : D;
  capacity : nat;
  frames : list Frame;
  lru : list nat;
  steal : bool;
}.

Definition with_device (d : D) (p : BufferPool) : BufferPool :=
  {| device := d; capacity := capacity p; frames := frames p; lru := lru p; steal := steal p |}.
Definition with_frames (fs : list Frame) (p : BufferPool) : BufferPool :=
  {| device := device p; capacity := capacity p; frames := fs; lru := lru p; steal := steal p |}.
Definition with_lru (l : list nat) (p : BufferPool) : BufferPool :=
  {| device := device p; capacity := capacity p; frames := frames p; lru := l; steal := steal p |}.

Abbreviation P := (M BufferPool StorageError).

(** Panics on a zero capacity. *)
Definition new (d : D) (cap : nat) : outcome StorageError BufferPool :=
  if decide (0 < cap) then
    Ok {| device := d; capacity := cap; frames := []; lru := []; steal := true |}
  else Panic.

Definition no_steal (p : BufferPool) : BufferPool :=
  {| device := device p; capacity := capacity p; frames := frames p; lru := lru p;
     steal := false |}.

Definition resident (p : BufferPool) : nat := length (frames p).

Definition find (p : BufferPool) (id : Z) : option nat :=
  position (fun f => bool_decide (block_id f = id)) (frames p).

Definition state_of (p : BufferPool) (id : Z) : option PageState :=
  idx ← find p id; state <$> frames p !! idx.

(** [self.frames[idx]]: panics out of bounds. *)
Definition frame_at (idx : nat) : P Frame := fun p =>
  match frames p !! idx with Some f => (Ok f, p) | None => (Panic, p) end.

Definition modify_frame (idx : nat) (g : Frame -> Frame) : P unit := fun p =>
  match frames p !! idx with
  | Some f => (Ok tt, with_frames (<[idx := g f]> (frames p)) p)
  | None => (Panic, p)
  end.

(** Run a device operation of the pool's device. *)
Definition on_device {A} (m : M D StorageError A) : P A := fun p =>
  let '(r, d') := m (device p) in (r, with_device d' p).

(** [encode_page_block] inside a pool operation. *)
Definition lift {A} (o : outcome StorageError A) : P A := fun p => (o, p).

Definition lru_remove (idx : nat) (l : list nat) : list nat :=
  match position (fun i => bool_decide (i = idx)) l with
  | Some p => remove_at p l
  | None => l
  end.

Definition touch (idx : nat) : P unit :=
  m_modify (fun p => with_lru (lru_remove idx (lru p) ++ [idx]) p).

(** The frame [evict] takes: the first of the LRU order that is not pinned
    and, without stealing, not dirty. *)
Fixpoint find_victim (steal_ : bool) (fs : list Frame) (l : list nat)
    : outcome StorageError (option nat) :=
  match l with
  | [] => Ok None
  | i :: l' =>
      match fs !! i with
      | None => Panic
      | Some f =>
          if negb (is_pinned (state f)) && (steal_ || negb (bool_decide (state f = Dirty)))
          then Ok (Some i) else find_victim steal_ fs l'
      end
  end.

Definition evict : P (option nat) :=
  p ← m_get;
  victim ← lift (find_victim (steal p) (frames p) (lru p));
  match victim with
  | None => mret None
  | Some idx =>
      f ← frame_at idx;
      (if decide (state f = Dirty) then
         block ← lift (encode_page_block (page f));
         on_device (write_block (block_id f) block)
       else mret tt);;
      m_modify (fun p => with_lru (lru_remove idx (lru p)) p);;
      modify_frame idx (set_state Free);;
      modify_frame idx (set_intent false);;
      mret (Some idx)
  end.

Definition acquire_frame : P nat :=
  p ← m_get;
  match position (fun f => bool_decide (state f = Free)) (frames p) with
  | Some idx => mret idx
  | None =>
      if decide (length (frames p) < capacity p) then
        m_modify (fun p => with_frames (frames p ++ [mkFrame BLOCK_ID_MAX zero_page Free false]) p);;
        mret (length (frames p))
      else
        v ← evict;
        p' ← m_get;
        match v with
        | Some idx => mret idx
        | None =>
            if existsb (fun f => bool_decide (state f = Dirty)) (frames p')
            then m_err UncommittedPagesPinned else m_err AllFramesPinned
        end
  end.

Definition reserve (id : Z) : P unit :=
  p ← m_get;
  match find p id with
  | None => acquire_frame;; mret tt
  | Some _ => mret tt
  end.

(** The count is a [u32]. *)
Definition pin (s : PageState) : PageState :=
  match s with Pinned n => Pinned (wrap32 (n + 1)) | _ => Pinned 1 end.

Definition pin_frame (idx : nat) : P unit :=
  modify_frame idx (fun f => set_state (pin (state f)) f).

Definition mark_dirty_pinned (idx : nat) : P unit := modify_frame idx (set_intent true).

(** Read block [id] of the device into a fresh buffer. *)
Definition load (id : Z) : P (list byte) := fun p =>
  match read_block (device p) id (replicate BLOCK_SIZE x00) with
  | (Ok _, block) => (decode_block block, p)
  | (Err e, _) => (Err e, p)
  | (Panic, _) => (Panic, p)
  end.

(** The miss path shared by [fetch] and [fetch_mut]. *)
Definition fetch_miss (id : Z) : P nat :=
  idx ← acquire_frame;
  pg ← load id;
  modify_frame idx (fun _ => mkFrame id pg (Pinned 1) false);;
  mret idx.

Definition fetch (id : Z) : P nat :=
  p ← m_get;
  match find p id with
  | Some idx => pin_frame idx;; touch idx;; mret idx
  | None => idx ← fetch_miss id; touch idx;; mret idx
  end.

Definition fetch_mut (id : Z) : P nat :=
  p ← m_get;
  idx ← (match find p id with
         | Some idx => pin_frame idx;; mret idx
         | None => fetch_miss id
         end);
  touch idx;;
  mark_dirty_pinned idx;;
  mret idx.

(** [frame.as_bytes_mut().copy_from_slice(page)]: panics on a wrong length. *)
Definition write_frame (idx : nat) (data : list byte) : P unit :=
  if decide (length data = PAGE_SIZE) then modify_frame idx (set_page data) else m_panic.

Definition unpinned (f : Frame) : Frame :=
  match state f with
  | Pinned n =>
      if decide (1 < n)%Z then set_state (Pinned (n - 1)) f
      else if dirty_intent f then set_state Dirty f
      else set_state Clean f
  | _ => f
  end.

Definition unpin (id : Z) : P unit :=
  p ← m_get;
  match find p id with
  | Some idx => modify_frame idx unpinned
  | None => mret tt
  end.

(** The test of [flush_all]. *)
Definition needs_flush (f : Frame) : bool :=
  bool_decide (state f = Dirty) || (dirty_intent f && is_pinned (state f)).

Definition flushed (f : Frame) : Frame :=
  let f1 := set_intent false f in
  if decide (state f = Dirty) then set_state Clean f1 else f1.

Definition flush_frame (idx : nat) : P unit :=
  f ← frame_at idx;
  if needs_flush f then
    block ← lift (encode_page_block (page f));
    on_device (write_block (block_id f) block);;
    modify_frame idx flushed
  else mret tt.

(** [for idx in a .. a + n]. *)
Fixpoint flush_from (a n : nat) : P unit :=
  match n with
  | O => mret tt
  | S n' => flush_frame a;; flush_from (S a) n'
  end.

Definition flush_all : P unit :=
  p ← m_get;
  flush_from 0 (length (frames p));;
  on_device sync.

End Pool.

Arguments BufferPool : clear implicits.

End Page.
