(* ===== verification/PageProof.v ===== *)
(** * PageProof: the buffer pool implements a flat array of pages

    [view p i] is the page a client of the pool sees at block [i].  Every
    operation keeps the pool's invariant and the view (assignment through
    [write_frame] changes it at one block), never panics, and leaves the device
    alone when the pool does not steal; [flush_all] makes the device agree with
    the view. *)
From Stdlib Require Import ZArith Lia Strings.Byte.
From stdpp Require Import base numbers option list.
From S2P Require Import Prelude Checksum Block Page.
Import Page.

(** ** The block format *)

Lemma encode_page_block_ok pg :
  length pg = PAGE_SIZE ->
  exists blk, encode_page_block pg = Ok blk /\ length blk = BLOCK_SIZE /\
              decode_block blk = Ok pg.
Proof.
  intros Hl. unfold encode_page_block. rewrite decide_True by done.
  eexists. split; [done|]. assert (Hb : length (pg ++ le_bytes 4 (crc32 pg)) = BLOCK_SIZE).
  { rewrite length_app, le_bytes_length, BLOCK_SIZE_eq. lia. }
  split; [done|]. unfold decode_block.
  case_decide as Hc; [by rewrite Hb, BLOCK_SIZE_eq in Hc|]. clear Hc.
  destruct (forallb _ _) eqn:Hz.
  - rewrite forallb_app in Hz. apply andb_true_iff in Hz as [Hz _].
    f_equal. unfold zero_page. rewrite <- Hl. clear Hl Hb.
    induction pg as [|b pg IH]; [done|]. simpl in Hz |- *.
    apply andb_true_iff in Hz as [Hb Hz].
    apply Byte.byte_dec_bl in Hb as ->. f_equal. by apply IH.
  - rewrite take_app_length' by done.
    rewrite (slice_mid _ pg (le_bytes 4 (crc32 pg)) []).
    + rewrite le_val_bytes_u32 by apply crc32_u32. by rewrite decide_False by auto.
    + by rewrite app_nil_r.
    + done.
    + by rewrite le_bytes_length.
Qed.

Lemma decode_block_length blk pg : decode_block blk = Ok pg -> length pg = PAGE_SIZE.
Proof.
  unfold decode_block. case_decide as Hl; [done|].
  destruct (forallb _ _); [intros [= <-]; apply length_replicate|].
  case_decide; [done|]. intros [= <-]. rewrite length_take. lia.
Qed.

Lemma decode_block_no_panic blk : decode_block blk <> Panic.
Proof.
  unfold decode_block. case_decide; [done|]. destruct (forallb _ _); [done|].
  by case_decide.
Qed.

(** ** The LRU list *)

Lemma lru_remove_spec i l :
  NoDup l ->
  NoDup (lru_remove i l) /\ (forall x, x ∈ lru_remove i l <-> x ∈ l /\ x <> i).
Proof.
  intros Hnd. unfold lru_remove.
  destruct (position _ l) as [k|] eqn:E.
  - apply position_Some in E as (x & Hx & Hp & _). apply bool_decide_eq_true in Hp as ->.
    assert (Hperm := remove_at_perm k i l Hx).
    assert (Hel : forall y, y ∈ l <-> y ∈ i :: remove_at k l) by (intros y; by f_equiv).
    rewrite Hperm in Hnd.
    apply NoDup_cons in Hnd as [Hni Hnd]. split; [done|].
    intros y. rewrite Hel, elem_of_cons. split.
    + intros Hy. split; [by right|]. by intros ->.
    + by intros [[->|Hy] Hne].
  - rewrite position_None in E. split; [done|]. intros y. split; [|by intros [Hy _]].
    intros Hy. split; [done|]. intros ->. specialize (E _ Hy).
    by apply bool_decide_eq_false in E.
Qed.

Section Proofs.
Context {D : Type} `{BlockDeviceLaws D}.
Abbreviation BufferPool := (Page.BufferPool D).
Implicit Types p q : BufferPool.

Definition in_range (d : D) (id : Z) : Prop := (0 <= id < block_count d)%Z.

(** What the device alone holds at a block. *)
Definition dview (d : D) (id : Z) : option (list byte) :=
  if ((0 <=? id) && (id <? block_count d))%Z then
    match decode_block (dev_block d id) with Ok pg => Some pg | _ => None end
  else None.

Lemma dview_in d id :
  in_range d id ->
  dview d id = match decode_block (dev_block d id) with Ok pg => Some pg | _ => None end.
Proof.
  intros [H1 H2]. unfold dview.
  rewrite (proj2 (Z.leb_le _ _) H1), (proj2 (Z.ltb_lt _ _) H2). done.
Qed.

(** What the pool shows at a block. *)
Definition view (p : BufferPool) (id : Z) : option (list byte) :=
  match find p id with
  | Some idx => page <$> frames p !! idx
  | None => dview (device p) id
  end.

Definition valid_id (id : Z) : Prop := (0 <= id)%Z /\ id <> BLOCK_ID_MAX.

Record frame_wf (d : D) (f : Frame) : Prop := {
  fw_len : length (page f) = PAGE_SIZE;
  fw_dirty : state f = Dirty -> dirty_intent f = true;
  fw_quiet : state f = Free \/ state f = Clean -> dirty_intent f = false;
  fw_max : block_id f = BLOCK_ID_MAX -> state f = Free;
  fw_range : block_id f <> BLOCK_ID_MAX -> in_range d (block_id f);
  fw_coh : block_id f <> BLOCK_ID_MAX -> dirty_intent f = false ->
           dview d (block_id f) = Some (page f);
}.

(** Everything but the coverage of the LRU list. *)
Record pool_core (p : BufferPool) : Prop := {
  pc_dev : dev_ok (device p);
  pc_len : length (frames p) <= capacity p;
  pc_lru_lt : forall i, i ∈ lru p -> i < length (frames p);
  pc_lru_nodup : NoDup (lru p);
  pc_frames : forall i f, frames p !! i = Some f -> frame_wf (device p) f;
  pc_uniq : forall i j fi fj, frames p !! i = Some fi -> frames p !! j = Some fj ->
    block_id fi = block_id fj -> block_id fi <> BLOCK_ID_MAX -> i = j;
}.

(** Every occupied frame (but [X]) is in the LRU list. *)
Definition covered (X : nat -> Prop) (p : BufferPool) : Prop :=
  forall i f, frames p !! i = Some f -> state f <> Free -> i ∈ lru p \/ X i.

Definition pool_wf (p : BufferPool) : Prop := pool_core p /\ covered (fun _ => False) p.

(** Same configuration, same pages seen. *)
Definition same_view (p p' : BufferPool) : Prop :=
  capacity p' = capacity p /\ steal p' = steal p /\
  block_count (device p') = block_count (device p) /\
  (steal p = false -> device p' = device p) /\
  (forall id, valid_id id -> view p' id = view p id).

Lemma same_view_refl p : same_view p p.
Proof. by split_and!. Qed.

Lemma same_view_trans p q r : same_view p q -> same_view q r -> same_view p r.
Proof.
  intros (a & b & c & d & e) (a' & b' & c' & d' & e').
  split_and!; [congruence..| |].
  - intros Hs. rewrite d' by congruence. auto.
  - intros id Hid. rewrite e' by done. auto.
Qed.

(** ** [find] and [view] *)

Lemma find_Some p id idx :
  find p id = Some idx -> exists f, frames p !! idx = Some f /\ block_id f = id.
Proof.
  intros (f & Hf & Hb & _)%position_Some. apply bool_decide_eq_true in Hb. eauto.
Qed.

Lemma find_None p id :
  find p id = None <-> forall i f, frames p !! i = Some f -> block_id f <> id.
Proof.
  unfold find. rewrite position_None. split.
  - intros Hn i f Hf Hb. specialize (Hn f). apply list_elem_of_lookup_2 in Hf.
    specialize (Hn Hf). by apply bool_decide_eq_false in Hn.
  - intros Hn f Hf. apply list_elem_of_lookup in Hf as [i Hf].
    apply bool_decide_eq_false. by eapply Hn.
Qed.

Lemma find_frame p idx f :
  pool_core p -> frames p !! idx = Some f -> block_id f <> BLOCK_ID_MAX ->
  find p (block_id f) = Some idx.
Proof.
  intros Hc Hf Hm. destruct (find p (block_id f)) as [j|] eqn:E.
  - apply find_Some in E as (g & Hg & Hb). f_equal. symmetry.
    eapply (pc_uniq p Hc idx j); eauto.
  - rewrite find_None in E. by destruct (E idx f Hf).
Qed.

Lemma view_frame p idx f :
  pool_core p -> frames p !! idx = Some f -> block_id f <> BLOCK_ID_MAX ->
  view p (block_id f) = Some (page f).
Proof.
  intros Hc Hf Hm. unfold view. rewrite (find_frame p idx f Hc Hf Hm). by rewrite Hf.
Qed.

Lemma find_map p q id :
  block_id <$> frames p = block_id <$> frames q -> find p id = find q id.
Proof.
  unfold find. generalize (frames p) (frames q). intros l.
  induction l as [|f l IH]; intros [|g l'] E; simpl in *; try done.
  injection E as E1 E2. rewrite E1. destruct (bool_decide _); [done|].
  by rewrite (IH l').
Qed.

(** Two pools with the same ids, pages and device show the same. *)
Lemma view_ext p q id :
  block_id <$> frames p = block_id <$> frames q -> page <$> frames p = page <$> frames q ->
  device p = device q -> view p id = view q id.
Proof.
  intros E1 E2 E3. unfold view. rewrite (find_map p q id E1), E3.
  destruct (find q id) as [idx|]; [|done].
  rewrite <- !list_lookup_fmap. by rewrite E2.
Qed.

Lemma fmap_insert_same {B} (g : Frame -> B) (fs : list Frame) idx f f' :
  fs !! idx = Some f -> g f' = g f -> g <$> <[idx := f']> fs = g <$> fs.
Proof.
  intros Hf Hg. rewrite list_fmap_insert. apply list_insert_id.
  rewrite list_lookup_fmap, Hf. simpl. by rewrite Hg.
Qed.

(** ** Updating one frame *)

Lemma modify_frame_ok (p : BufferPool) idx f g :
  frames p !! idx = Some f ->
  modify_frame idx g p = (Ok tt, with_frames (<[idx := g f]> (frames p)) p).
Proof. intros Hf. unfold modify_frame. by rewrite Hf. Qed.

(** Changing state and intent of a frame. *)
Lemma core_update p idx f f' :
  pool_core p -> frames p !! idx = Some f ->
  block_id f' = block_id f -> page f' = page f -> frame_wf (device p) f' ->
  pool_core (with_frames (<[idx := f']> (frames p)) p) /\
  same_view p (with_frames (<[idx := f']> (frames p)) p).
Proof.
  intros Hc Hf Hb Hp Hw. split.
  - destruct Hc as [Hd Hl Hlt Hnd Hfw Hu]. split; simpl; try done.
    + by rewrite length_insert.
    + intros i Hi. rewrite length_insert. auto.
    + intros i g Hg. apply list_lookup_insert_Some in Hg as [(-> & <- & _)|[_ Hg]]; eauto.
    + assert (Hid : forall i g, <[idx := f']> (frames p) !! i = Some g ->
        exists g', frames p !! i = Some g' /\ block_id g' = block_id g).
      { intros i g Hg. apply list_lookup_insert_Some in Hg as [(-> & <- & _)|[_ Hg]]; eauto. }
      intros i j fi fj Hi Hj He Hm.
      destruct (Hid _ _ Hi) as (gi & Hgi & Ei), (Hid _ _ Hj) as (gj & Hgj & Ej).
      eapply Hu; [exact Hgi|exact Hgj|congruence|congruence].
  - split_and!; simpl; try done. intros id _. apply view_ext; simpl; try done.
    + by apply (fmap_insert_same _ _ _ f).
    + by apply (fmap_insert_same _ _ _ f).
Qed.

Lemma covered_update X p idx f f' :
  covered X p -> frames p !! idx = Some f ->
  (state f' <> Free -> state f <> Free \/ X idx) ->
  covered X (with_frames (<[idx := f']> (frames p)) p).
Proof.
  intros Hc Hf Hs i g Hg Hst. simpl in *.
  apply list_lookup_insert_Some in Hg as [(-> & <- & _)|[_ Hg]]; [|eauto].
  destruct (Hs Hst); [eauto|by right].
Qed.

Lemma touch_spec X p idx f :
  pool_core p -> covered X p -> (forall i, X i -> i = idx) -> frames p !! idx = Some f ->
  exists p', touch idx p = (Ok tt, p') /\ pool_wf p' /\ same_view p p' /\
             frames p' = frames p /\ device p' = device p.
Proof.
  intros Hc Hcov HX Hf. eexists. split; [done|].
  destruct (lru_remove_spec idx (lru p) (pc_lru_nodup p Hc)) as [Hnd Hin].
  assert (Hlt := lookup_lt_Some _ _ _ Hf).
  split_and!; try done.
  - split.
    + destruct Hc as [Hd Hl Hl2 Hnd2 Hfw Hu]. split; simpl; try done.
      * intros i [Hi|Hi]%elem_of_app; [apply Hin in Hi as [Hi _]; auto|].
        by apply list_elem_of_singleton in Hi as ->.
      * apply NoDup_app. split_and!; [done| |apply NoDup_singleton].
        intros i Hi ->%list_elem_of_singleton. apply Hin in Hi as [_ Hi]. done.
    + intros i g Hg Hs. left. simpl in *. rewrite elem_of_app, list_elem_of_singleton, Hin.
      destruct (decide (i = idx)); [by right|left]. split; [|done].
      destruct (Hcov i g Hg Hs) as [?|?%HX]; done.
Qed.

(** ** The device under the pool *)

Lemma dview_ext d d' :
  block_count d' = block_count d ->
  forall id, dev_block d' id = dev_block d id -> dview d' id = dview d id.
Proof. intros Hc id Hb. unfold dview. by rewrite Hc, Hb. Qed.

Lemma view_nonframe p id : find p id = None -> view p id = dview (device p) id.
Proof. intros Hf. unfold view. by rewrite Hf. Qed.

(** A change of the device that only touches the block of a resident frame. *)
Lemma core_device p d' idx f f' :
  pool_core p -> frames p !! idx = Some f -> block_id f <> BLOCK_ID_MAX ->
  dev_ok d' -> block_count d' = block_count (device p) ->
  (forall j, (0 <= j)%Z -> j <> block_id f -> dev_block d' j = dev_block (device p) j) ->
  block_id f' = block_id f -> page f' = page f -> frame_wf d' f' ->
  let p' := with_frames (<[idx := f']> (frames p)) (with_device d' p) in
  pool_core p' /\
  (forall id, valid_id id -> view p' id = view p id).
Proof.
  intros Hc Hf Hm Hd' Hcnt Hoth Hb Hp Hw p'.
  assert (Hin : forall i, in_range d' i <-> in_range (device p) i)
    by (intros i; unfold in_range; by rewrite Hcnt).
  assert (Hfind : forall id, find p' id = find p id).
  { intros id. apply find_map. simpl. by apply (fmap_insert_same _ _ _ f). }
  split.
  - destruct Hc as [Hd Hl Hlt Hnd Hfw Hu]. split; simpl; try done.
    + by rewrite length_insert.
    + intros i Hi. rewrite length_insert. auto.
    + intros i g Hg. apply list_lookup_insert_Some in Hg as [(-> & <- & _)|[Hne Hg]]; [done|].
      destruct (Hfw i g Hg) as [F1 F2 F3 F4 F5 F6]. split; try done.
      * intros Hgm. apply Hin. auto.
      * intros Hgm Hgi. rewrite <- (F6 Hgm Hgi). apply dview_ext; [done|].
        apply Hoth; [by apply F5|]. intros Heq. apply Hne.
        symmetry. by apply (Hu i idx g f).
    + assert (Hid : forall i g, <[idx := f']> (frames p) !! i = Some g ->
        exists g', frames p !! i = Some g' /\ block_id g' = block_id g).
      { intros i g Hg. apply list_lookup_insert_Some in Hg as [(-> & <- & _)|[_ Hg]]; eauto. }
      intros i j fi fj Hi Hj He Hm2.
      destruct (Hid _ _ Hi) as (gi & Hgi & Ei), (Hid _ _ Hj) as (gj & Hgj & Ej).
      eapply Hu; [exact Hgi|exact Hgj|congruence|congruence].
  - intros id [Hid Hidm]. destruct (find p id) as [k|] eqn:E.
    + unfold view. rewrite Hfind, E. rewrite <- !list_lookup_fmap. simpl.
      by rewrite (fmap_insert_same _ _ _ f).
    + rewrite !view_nonframe by (rewrite ?Hfind; done). simpl.
      apply dview_ext; [done|]. apply Hoth; [done|].
      rewrite find_None in E. intros ->. by apply (E idx f).
Qed.

(** Writing a resident page back, whether the write succeeds or tears. *)
Lemma write_back p idx f :
  pool_core p -> frames p !! idx = Some f -> block_id f <> BLOCK_ID_MAX ->
  dirty_intent f = true ->
  exists blk r d', encode_page_block (page f) = Ok blk /\
    write_block (block_id f) blk (device p) = (r, d') /\ r <> Panic /\
    dev_ok d' /\ block_count d' = block_count (device p) /\
    (forall j, (0 <= j)%Z -> j <> block_id f -> dev_block d' j = dev_block (device p) j) /\
    (r = Ok tt -> dview d' (block_id f) = Some (page f)).
Proof.
  intros Hc Hf Hm Hdi. destruct (pc_frames p Hc idx f Hf) as [F1 F2 F3 F4 F5 F6].
  destruct (encode_page_block_ok (page f) F1) as (blk & He & Hbl & Hdec).
  destruct (F5 Hm) as [Hr0 Hr1]. assert (Hok := pc_dev p Hc).
  exists blk. destruct (write_block (block_id f) blk (device p)) as [r d'] eqn:Ew.
  exists r, d'. split; [done|]. split; [done|].
  destruct r as [[]|e|].
  - destruct (law_write_ok _ _ _ _ Hok Hr0 Ew) as (_ & _ & Hok' & Hcnt & Hsame & Hoth).
    split_and!; try done. intros _.
    rewrite dview_in by (unfold in_range; by rewrite Hcnt). by rewrite Hsame, Hdec.
  - destruct (law_write_err _ _ _ _ _ Hok Hr0 Ew) as (Hok' & Hcnt & Hoth). split_and!; done.
  - assert (Hnp := law_write_no_panic _ (block_id f) blk Hok Hr0). by rewrite Ew in Hnp.
Qed.

(** A dirty page stays readable through the pool whatever became of its block. *)
Lemma write_back_keeps p idx f d' :
  pool_core p -> frames p !! idx = Some f -> block_id f <> BLOCK_ID_MAX ->
  dirty_intent f = true -> dev_ok d' -> block_count d' = block_count (device p) ->
  (forall j, (0 <= j)%Z -> j <> block_id f -> dev_block d' j = dev_block (device p) j) ->
  pool_core (with_device d' p) /\
  (forall id, valid_id id -> view (with_device d' p) id = view p id).
Proof.
  intros Hc Hf Hm Hdi Hok Hcnt Hoth. destruct (pc_frames p Hc idx f Hf) as [F1 F2 F3 F4 F5 F6].
  destruct (core_device p d' idx f f Hc Hf Hm Hok Hcnt Hoth) as [Hc1 Hv1]; [done|done| |].
  { split; try done; [|congruence]. intros Hr. unfold in_range. rewrite Hcnt. by apply F5. }
  rewrite list_insert_id in Hc1, Hv1 by done.
  by replace (with_frames (frames p) (with_device d' p)) with (with_device d' p) in Hc1, Hv1
    by by destruct p.
Qed.

(** ** Eviction *)

Lemma find_victim_spec steal_ (fs : list Frame) l :
  (forall i, i ∈ l -> i < length fs) ->
  (exists idx f, find_victim steal_ fs l = Ok (Some idx) /\ idx ∈ l /\ fs !! idx = Some f /\
     is_pinned (state f) = false /\ (steal_ = false -> state f <> Dirty)) \/
  (find_victim steal_ fs l = Ok None /\
   forall i f, i ∈ l -> fs !! i = Some f ->
     is_pinned (state f) = true \/ steal_ = false /\ state f = Dirty).
Proof.
  induction l as [|i l IH]; intros Hl; simpl.
  { right. split; [done|]. intros i f Hi. inversion Hi. }
  destruct (lookup_lt_is_Some_2 fs i) as [f Hf]; [apply Hl; left|]. rewrite Hf.
  destruct (negb _ && _) eqn:Hc.
  - left. exists i, f. apply andb_true_iff in Hc as [Hc1 Hc2].
    apply negb_true_iff in Hc1. split_and!; [done|left|done|done|].
    intros -> Hs. simpl in Hc2. by rewrite bool_decide_eq_true_2 in Hc2.
  - destruct IH as [(idx & g & Hv & Hin & Hg & Hp & Hs)|[Hv Hall]].
    { intros j Hj. apply Hl. by right. }
    + left. exists idx, g. split_and!; try done. by right.
    + right. split; [done|]. intros j g [->|Hj]%elem_of_cons Hg; [|eauto].
      rewrite Hf in Hg. injection Hg as <-. apply andb_false_iff in Hc as [Hc|Hc].
      * left. by apply negb_false_iff in Hc.
      * right. apply orb_false_iff in Hc as [-> Hc]. apply negb_false_iff in Hc.
        by apply bool_decide_eq_true in Hc.
Qed.

Definition freed (f : Frame) : Frame := set_intent false (set_state Free f).

(** The end of [evict]: drop the frame from the LRU list and mark it free. *)
Definition evict_tail (idx : nat) : M BufferPool StorageError (option nat) :=
  m_modify (fun p => with_lru (lru_remove idx (lru p)) p);;
  modify_frame idx (set_state Free);;
  modify_frame idx (set_intent false);;
  mret (Some idx).

Lemma evict_tail_eq p idx f :
  frames p !! idx = Some f ->
  evict_tail idx p =
  (Ok (Some idx), with_lru (lru_remove idx (lru p)) (with_frames (<[idx := freed f]> (frames p)) p)).
Proof.
  intros Hf. assert (Hlt := lookup_lt_Some _ _ _ Hf).
  unfold evict_tail, mbind, M_bind, m_modify. unfold modify_frame at 1. simpl. rewrite Hf.
  unfold modify_frame. simpl. rewrite list_lookup_insert_eq by done.
  unfold mret, M_ret, with_frames, with_lru. simpl. by rewrite list_insert_insert_eq.
Qed.

(** Freeing a frame whose page, when it holds one, is on the device. *)
Lemma evict_tail_spec p idx f :
  pool_wf p -> frames p !! idx = Some f ->
  (block_id f <> BLOCK_ID_MAX -> dview (device p) (block_id f) = Some (page f)) ->
  exists p', evict_tail idx p = (Ok (Some idx), p') /\ pool_wf p' /\ same_view p p' /\
    block_id <$> frames p' = block_id <$> frames p /\ frames p' !! idx = Some (freed f).
Proof.
  intros [Hc Hcov] Hf Hd. eexists. split; [by apply evict_tail_eq|].
  destruct (pc_frames p Hc idx f Hf) as [F1 F2 F3 F4 F5 F6].
  destruct (core_update p idx f (freed f) Hc Hf) as [Hc' Hv]; [done|done| |].
  { split; simpl; auto; done. }
  destruct (lru_remove_spec idx (lru p) (pc_lru_nodup p Hc)) as [Hnd Hin].
  split_and!; [split| |by apply (fmap_insert_same _ _ _ f)|].
  - destruct Hc' as [G1 G2 G3 G4 G5 G6]. split; try done.
    intros i Hi. apply G3. by apply Hin.
  - intros i g Hg Hs. simpl in *.
    apply list_lookup_insert_Some in Hg as [(-> & <- & _)|[Hne Hg]]; [done|].
    destruct (Hcov i g Hg Hs) as [?|[]]. left. by apply Hin.
  - exact Hv.
  - apply list_lookup_insert_eq. by eapply lookup_lt_Some.
Qed.

(** What [evict] may return, and that it preserves the invariant. *)
Definition all_stuck p : Prop :=
  forall i f, frames p !! i = Some f -> state f <> Free ->
    is_pinned (state f) = true \/ steal p = false /\ state f = Dirty.

Definition evict_post p (r : outcome StorageError (option nat)) p' : Prop :=
  pool_wf p' /\ same_view p p' /\ block_id <$> frames p' = block_id <$> frames p /\
  match r with
  | Ok (Some idx) => exists f, frames p' !! idx = Some f /\ state f = Free
  | Ok None => p' = p /\ all_stuck p
  | Err _ => steal p = true
  | Panic => False
  end.

(** A dirty victim of a stealing pool is written back first. *)
Lemma evict_dirty p idx f r p' :
  pool_wf p -> frames p !! idx = Some f -> state f = Dirty -> steal p = true ->
  ((block ← lift (encode_page_block (page f)); on_device (write_block (block_id f) block));;
   evict_tail idx) p = (r, p') ->
  evict_post p r p'.
Proof.
  intros [Hc Hcov] Hf Hdirty Hst E.
  destruct (pc_frames p Hc idx f Hf) as [F1 F2 F3 F4 F5 F6].
  assert (Hm : block_id f <> BLOCK_ID_MAX) by (intros Hm; apply F4 in Hm; congruence).
  destruct (write_back p idx f Hc Hf Hm (F2 Hdirty))
    as (blk & rw & d' & He & Hw & Hnp & Hok' & Hcnt & Hoth & Hok).
  destruct (write_back_keeps p idx f d' Hc Hf Hm (F2 Hdirty) Hok' Hcnt Hoth) as [Hc1 Hv1].
  assert (Hsv1 : same_view p (with_device d' p)) by (split_and!; congruence || done).
  assert (Hwb : (block ← lift (encode_page_block (page f));
                 on_device (write_block (block_id f) block)) p = (rw, with_device d' p)).
  { erewrite bind_ok by (unfold lift; by rewrite He). unfold on_device. by rewrite Hw. }
  destruct rw as [[]|e|]; [| |done].
  - rewrite (bind_ok _ _ _ _ _ Hwb) in E.
    destruct (evict_tail_spec (with_device d' p) idx f) as (p2 & E2 & Hwf2 & Hsv2 & Hids & Hl);
      [by split|done|intros _; by apply Hok|].
    rewrite E2 in E. injection E as <- <-.
    split; [done|]. split; [by eapply same_view_trans|]. eauto.
  - rewrite (bind_err _ _ _ _ _ Hwb) in E. injection E as <- <-. by split_and!.
Qed.

Lemma evict_spec p r p' : pool_wf p -> evict p = (r, p') -> evict_post p r p'.
Proof.
  intros Hwf E. assert (Hwf' := Hwf). destruct Hwf' as [Hc Hcov]. unfold evict in E.
  rewrite (bind_ok m_get _ p p p) in E by done. cbv beta in E.
  destruct (find_victim_spec (steal p) (frames p) (lru p) (pc_lru_lt p Hc))
    as [(idx & f & Hv & Hin & Hf & Hpin & Hnd)|[Hv Hall]];
    erewrite bind_ok in E by (unfold lift; by rewrite Hv); cbv beta iota in E.
  2: { injection E as <- <-. split; [done|]. split; [apply same_view_refl|]. split_and!; [done|done|].
       intros i f Hf Hs. destruct (Hcov i f Hf Hs) as [Hi|[]]. eauto. }
  erewrite bind_ok in E by (unfold frame_at; by rewrite Hf). cbv beta in E.
  fold (evict_tail idx) in E. case_decide as Hdirty.
  - eapply evict_dirty; try done. destruct (steal p); [done|by destruct Hnd].
  - erewrite bind_ok in E by done.
    destruct (pc_frames p Hc idx f Hf) as [F1 F2 F3 F4 F5 F6].
    destruct (evict_tail_spec p idx f Hwf Hf) as (p2 & E2 & Hwf2 & Hsv2 & Hids & Hl).
    { intros Hm. apply F6, F3; [done|]. destruct (state f) eqn:Es; simpl in Hpin; auto; done. }
    rewrite E2 in E. injection E as <- <-. repeat (split; [done|]). eauto.
Qed.

(** ** Acquiring a frame *)

Definition placeholder : Frame := mkFrame BLOCK_ID_MAX zero_page Free false.

Lemma placeholder_wf d : frame_wf d placeholder.
Proof. by split. Qed.

Lemma grow_spec p :
  pool_wf p -> length (frames p) < capacity p ->
  let p' := with_frames (frames p ++ [placeholder]) p in
  pool_wf p' /\ same_view p p' /\ (forall id, id <> BLOCK_ID_MAX -> find p' id = find p id).
Proof.
  intros [Hc Hcov] Hlt p'. 
  assert (Hlk : forall i f, frames p' !! i = Some f ->
    frames p !! i = Some f \/ i = length (frames p) /\ f = placeholder).
  { intros i f Hf. simpl in Hf. apply lookup_app_Some in Hf as [Hf|[Hge Hf]]; [by left|right].
    destruct (i - length (frames p)) as [|k] eqn:Ek; simpl in Hf; [|by rewrite lookup_nil in Hf].
    injection Hf as <-. split; [lia|done]. }
  assert (Hfind : forall id, id <> BLOCK_ID_MAX -> find p' id = find p id).
  { intros id Hid. destruct (find p id) as [k|] eqn:E.
    - unfold find in *. apply position_Some in E as (f & Hf & Hb & Hmin).
      apply position_Some. exists f. split_and!; [|done|].
      + simpl. by apply lookup_app_l_Some.
      + intros j y Hj Hy. apply (Hmin j y Hj). apply Hlk in Hy as [Hy|[-> _]]; [done|].
        apply lookup_lt_Some in Hf. lia.
    - rewrite find_None in *. intros i f Hf. apply Hlk in Hf as [Hf|[_ ->]]; [eauto|].
      simpl. congruence. }
  split; [|split; [split_and!; try done|done]].
  - destruct Hc as [Hd Hl Hl2 Hnd Hfw Hu]. split.
    + split; simpl; try done.
      * rewrite length_app. simpl. lia.
      * intros i Hi. rewrite length_app. apply Hl2 in Hi. lia.
      * intros i f Hf. apply Hlk in Hf as [Hf|[_ ->]]; [eauto|]. apply placeholder_wf.
      * intros i j fi fj Hi Hj He Hm.
        apply Hlk in Hi as [Hi|[_ ->]]; [|done].
        apply Hlk in Hj as [Hj|[_ ->]]; [eauto|]. simpl in He. done.
    + intros i f Hf Hs. apply Hlk in Hf as [Hf|[_ ->]]; [|done]. by apply (Hcov i f).
  - intros id [_ Hid]. unfold view. rewrite Hfind by done.
    destruct (find p id) as [k|] eqn:E; [|done].
    apply find_Some in E as (f & Hf & _). simpl.
    by rewrite Hf, (lookup_app_l_Some _ _ _ _ Hf).
Qed.

(** Why a frame cannot be had: the pool is full and nothing may be evicted. *)
Definition refused p (e : StorageError) : Prop :=
  capacity p <= length (frames p) /\
  (forall i f, frames p !! i = Some f ->
     is_pinned (state f) = true \/ steal p = false /\ state f = Dirty) /\
  (e = AllFramesPinned /\ (forall i f, frames p !! i = Some f -> is_pinned (state f) = true) \/
   e = UncommittedPagesPinned /\ steal p = false /\
   exists i f, frames p !! i = Some f /\ state f = Dirty).

Lemma acquire_frame_spec p r p' :
  pool_wf p -> acquire_frame p = (r, p') ->
  pool_wf p' /\ same_view p p' /\
  (forall id, id <> BLOCK_ID_MAX -> find p' id = find p id) /\
  match r with
  | Ok idx => exists f, frames p' !! idx = Some f /\ state f = Free
  | Err e => steal p = true \/ p' = p /\ refused p e
  | Panic => False
  end.
Proof.
  intros Hwf E. unfold acquire_frame in E.
  rewrite (bind_ok m_get _ p p p) in E by done. cbv beta in E.
  destruct (position _ (frames p)) as [k|] eqn:Ep.
  { injection E as <- <-. split; [done|]. split; [apply same_view_refl|]. split; [done|].
    apply position_Some in Ep as (f & Hf & Hb & _). apply bool_decide_eq_true in Hb. eauto. }
  case_decide as Hcap.
  - injection E as <- <-. destruct (grow_spec p Hwf Hcap) as (H1 & H2 & H3).
    split; [done|]. split; [done|]. split; [done|]. exists placeholder. split; [|done].
    simpl. rewrite lookup_app_r by done. by rewrite Nat.sub_diag.
  - destruct (evict p) as [re pe] eqn:Ee.
    destruct (evict_spec p re pe Hwf Ee) as (Hwf' & Hsv & Hids & Hr).
    assert (Hfind : forall id, id <> BLOCK_ID_MAX -> find pe id = find p id)
      by (intros id _; by apply find_map).
    destruct re as [[idx|]|e|]; [| | |done].
    + rewrite (bind_ok _ _ _ _ _ Ee) in E. injection E as <- <-. auto.
    + rewrite (bind_ok _ _ _ _ _ Ee) in E. destruct Hr as [-> Hst].
      rewrite (bind_ok m_get _ p p p) in E by done. cbv beta iota in E.
      assert (Hfree : forall i f, frames p !! i = Some f -> state f <> Free).
      { intros i f Hf Hs. rewrite position_None in Ep.
        apply list_elem_of_lookup_2 in Hf. apply Ep in Hf.
        by apply bool_decide_eq_false in Hf. }
      assert (Hall : forall i f, frames p !! i = Some f ->
        is_pinned (state f) = true \/ steal p = false /\ state f = Dirty) by eauto.
      destruct (existsb _ _) eqn:Hx; injection E as <- <-;
        (split; [done|]; split; [apply same_view_refl|]; split; [done|]; right; split; [done|];
         split; [lia|]; split; [done|]).
      * right. apply existsb_exists in Hx as (f & Hin & Hb). apply bool_decide_eq_true in Hb.
        apply list_elem_of_In, list_elem_of_lookup in Hin as [i Hf].
        split; [done|]. destruct (Hall i f Hf) as [Hp|[Hs _]]; [by rewrite Hb in Hp|]. eauto.
      * left. split; [done|]. intros i f Hf. destruct (Hall i f Hf) as [?|[_ Hd]]; [done|].
        assert (Hx' : existsb (fun f => bool_decide (state f = Dirty)) (frames p) = true);
          [|congruence].
        apply existsb_exists. exists f. split; [|by apply bool_decide_eq_true].
        by apply list_elem_of_In, list_elem_of_lookup_2 with i.
    + rewrite (bind_err _ _ _ _ _ Ee) in E. injection E as <- <-. auto.
Qed.

(** ** Fetching *)

Lemma load_spec p id r p' :
  pool_core p -> valid_id id -> load id p = (r, p') ->
  p' = p /\ r <> Panic /\ (forall pg, r = Ok pg -> dview (device p) id = Some pg /\
    in_range (device p) id /\ length pg = PAGE_SIZE).
Proof.
  intros Hc [Hid _] E. unfold load in E. assert (Hok := pc_dev p Hc).
  assert (Hnp := law_read_no_panic (device p) id (replicate BLOCK_SIZE x00) Hok Hid).
  destruct (read_block _ _ _) as [[[]|e|] blk] eqn:Er; injection E as <- <-; [|done|done].
  destruct (law_read_ok _ _ _ _ Hok Hid Er) as (Hlt & _ & ->).
  split; [done|]. split; [apply decode_block_no_panic|]. intros pg Hd.
  split_and!; [|done|by apply decode_block_length in Hd].
  rewrite dview_in by done. by rewrite Hd.
Qed.

(** The frame a miss installs. *)
Lemma install_core p idx id pg :
  pool_core p -> valid_id id -> find p id = None -> dview (device p) id = Some pg ->
  in_range (device p) id -> length pg = PAGE_SIZE ->
  pool_core (with_frames (<[idx := mkFrame id pg (Pinned 1) false]> (frames p)) p).
Proof.
  intros [Hdv Hl Hl2 Hnd Hfw Hu] [_ Hm] Hnone Hd Hr Hlen.
  rewrite find_None in Hnone. split; simpl; try done.
  - by rewrite length_insert.
  - intros i Hi. rewrite length_insert. auto.
  - intros i h [(-> & <- & _)|[_ Hh]]%list_lookup_insert_Some; [|eauto]. split; simpl; done.
  - intros i j fi fj [(-> & <- & _)|[Hi1 Hi]]%list_lookup_insert_Some
      [(-> & <- & _)|[Hj1 Hj]]%list_lookup_insert_Some He Hx; [done| | |eauto].
    + simpl in He. by destruct (Hnone j fj Hj).
    + simpl in He. by destruct (Hnone i fi Hi).
Qed.

Lemma install_spec p idx f id pg :
  pool_wf p -> frames p !! idx = Some f -> state f = Free -> valid_id id ->
  find p id = None -> dview (device p) id = Some pg -> in_range (device p) id ->
  length pg = PAGE_SIZE ->
  let g := mkFrame id pg (Pinned 1) false in
  let p' := with_frames (<[idx := g]> (frames p)) p in
  pool_core p' /\ covered (fun i => i = idx) p' /\ same_view p p'.
Proof.
  intros [Hc Hcov] Hf Hfree Hid Hnone Hd Hr Hlen g p'.
  assert (Hlt := lookup_lt_Some _ _ _ Hf).
  assert (Hlk : forall i h, frames p' !! i = Some h ->
     i = idx /\ h = g \/ i <> idx /\ frames p !! i = Some h).
  { intros i h Hh. apply list_lookup_insert_Some in Hh as [(-> & <- & _)|[? ?]]; auto. }
  assert (Hcore : pool_core p') by by apply install_core.
  split; [done|]. split.
  - intros i h Hh Hs. apply Hlk in Hh as [[-> ->]|[_ Hh]]; [by right|left].
    destruct (Hcov i h Hh Hs) as [?|[]]; done.
  - split_and!; try done. intros j Hj.
    destruct (decide (j = id)) as [->|Hji].
    { rewrite (view_nonframe p id Hnone), Hd.
      assert (Hg : frames p' !! idx = Some g) by by apply list_lookup_insert_eq.
      assert (Hv := view_frame p' idx g Hcore Hg). simpl in Hv. apply Hv. apply Hid. }
    destruct (decide (j = block_id f)) as [->|Hjf].
    { destruct (pc_frames p Hc idx f Hf) as [F1 F2 F3 F4 F5 F6]. destruct Hj as [_ Hm].
      rewrite (view_frame p idx f Hc Hf Hm), view_nonframe.
      - simpl. apply F6; [done|]. auto.
      - apply find_None. intros i h Hh He.
        apply Hlk in Hh as [[-> ->]|[Hne Hh]]; [simpl in He; congruence|].
        apply Hne. by apply (pc_uniq p Hc i idx h f); rewrite ?He. }
    assert (Hfj : find p' j = find p j).
    { destruct (find p j) as [k|] eqn:Ek.
      - apply find_Some in Ek as (h & Hh & <-).
        assert (Hk : frames p' !! k = Some h).
        { simpl. rewrite list_lookup_insert_ne; [done|]. intros ->. congruence. }
        apply (find_frame p' k h Hcore Hk). apply Hj.
      - rewrite find_None in *. intros i h Hh. apply Hlk in Hh as [[-> ->]|[_ Hh]]; [|eauto].
        simpl. congruence. }
    unfold view. rewrite Hfj. destruct (find p j) as [k|] eqn:Ek; [|done].
    apply find_Some in Ek as (h & Hh & He). simpl. rewrite list_lookup_insert_ne; [done|].
    intros ->. congruence.
Qed.

Lemma fetch_miss_spec p id r p' :
  pool_wf p -> valid_id id -> find p id = None -> fetch_miss id p = (r, p') ->
  match r with
  | Ok idx => exists pg, pool_core p' /\ covered (fun i => i = idx) p' /\
      frames p' !! idx = Some (mkFrame id pg (Pinned 1) false) /\ view p id = Some pg
  | Err _ => pool_wf p'
  | Panic => False
  end /\ same_view p p'.
Proof.
  intros Hwf Hid Hnone E. unfold fetch_miss in E.
  destruct (acquire_frame p) as [ra pa] eqn:Ea.
  destruct (acquire_frame_spec p ra pa Hwf Ea) as (Hwf' & Hsv & Hfind & Hr).
  assert (Hna : find pa id = None) by (rewrite Hfind; [done|apply Hid]).
  destruct ra as [idx|e|]; [|rewrite (bind_err _ _ _ _ _ Ea) in E; by injection E as <- <-|done].
  destruct Hr as (f & Hf & Hfree). rewrite (bind_ok _ _ _ _ _ Ea) in E.
  destruct (load id pa) as [rl pl] eqn:El.
  destruct (load_spec pa id rl pl (proj1 Hwf') Hid El) as (-> & Hnp & Hok).
  destruct rl as [pg|e|]; [|rewrite (bind_err _ _ _ _ _ El) in E; by injection E as <- <-|done].
  rewrite (bind_ok _ _ _ _ _ El) in E. destruct (Hok pg eq_refl) as (Hd & Hr & Hlen).
  erewrite bind_ok in E by by apply modify_frame_ok. injection E as <- <-.
  destruct (install_spec pa idx f id pg Hwf' Hf Hfree Hid Hna Hd Hr Hlen) as (H1 & H2 & H3).
  split; [|by eapply same_view_trans].
  exists pg. split_and!; [done|done| |].
  - simpl. apply list_lookup_insert_eq. by apply lookup_lt_Some in Hf.
  - destruct Hsv as (_ & _ & _ & _ & Hv). rewrite <- (Hv id Hid).
    by rewrite (view_nonframe pa id Hna).
Qed.

(** Pinning a resident frame. *)
Lemma pin_frame_spec p id idx f :
  pool_wf p -> frames p !! idx = Some f -> block_id f = id -> valid_id id ->
  let f' := set_state (pin (state f)) f in
  let p' := with_frames (<[idx := f']> (frames p)) p in
  pin_frame idx p = (Ok tt, p') /\ pool_core p' /\ covered (fun i => i = idx) p' /\
  same_view p p' /\ frames p' !! idx = Some f'.
Proof.
  intros [Hc Hcov] Hf <- Hid f' p'.
  destruct (pc_frames p Hc idx f Hf) as [F1 F2 F3 F4 F5 F6].
  assert (Hpn : is_pinned (pin (state f)) = true) by by destruct (state f).
  destruct (core_update p idx f f' Hc Hf) as [Hc' Hv]; [done|done| |].
  { split; simpl; try done.
    - intros Hs. by rewrite Hs in Hpn.
    - intros [Hs|Hs]; by rewrite Hs in Hpn.
    - intros Hm. by destruct Hid. }
  split_and!; try done.
  - unfold pin_frame. by rewrite (modify_frame_ok p idx f).
  - intros i g Hg Hs. simpl in *.
    apply list_lookup_insert_Some in Hg as [(-> & <- & _)|[_ Hg]]; [by right|left].
    destruct (Hcov i g Hg Hs) as [?|[]]; done.
  - apply list_lookup_insert_eq. by apply lookup_lt_Some in Hf.
Qed.

Lemma fetch_spec p id r p' :
  pool_wf p -> valid_id id -> fetch id p = (r, p') ->
  pool_wf p' /\ same_view p p' /\
  match r with
  | Ok idx => exists f, frames p' !! idx = Some f /\ block_id f = id /\
      is_pinned (state f) = true /\ view p id = Some (page f)
  | Err _ => find p id = None
  | Panic => False
  end.
Proof.
  intros Hwf Hid E. unfold fetch in E.
  rewrite (bind_ok m_get _ p p p) in E by done. cbv beta in E.
  destruct (find p id) as [idx|] eqn:Ef.
  - apply find_Some in Ef as (f & Hf & Hb).
    destruct (pin_frame_spec p id idx f Hwf Hf Hb Hid) as (Hp & Hc & Hcov & Hsv & Hf').
    rewrite (bind_ok _ _ _ _ _ Hp) in E.
    destruct (touch_spec _ _ idx _ Hc Hcov (fun i Hi => Hi) Hf') as (p2 & Ht & Hwf2 & Hsv2 & Hfr & _).
    rewrite (bind_ok _ _ _ _ _ Ht) in E. injection E as <- <-.
    split; [done|]. split; [by eapply same_view_trans|].
    eexists. rewrite Hfr. split; [exact Hf'|]. simpl. split_and!; [done|by destruct (state f)|].
    rewrite <- Hb. apply (view_frame p idx f (proj1 Hwf) Hf). rewrite Hb. apply Hid.
  - destruct (fetch_miss id p) as [rm pm] eqn:Em.
    destruct (fetch_miss_spec p id rm pm Hwf Hid Ef Em) as [Hr Hsv].
    destruct rm as [idx|e|]; [|rewrite (bind_err _ _ _ _ _ Em) in E; by injection E as <- <-|done].
    rewrite (bind_ok _ _ _ _ _ Em) in E. destruct Hr as (pg & Hc & Hcov & Hf' & Hv).
    destruct (touch_spec _ _ idx _ Hc Hcov (fun i Hi => Hi) Hf') as (p2 & Ht & Hwf2 & Hsv2 & Hfr & _).
    rewrite (bind_ok _ _ _ _ _ Ht) in E. injection E as <- <-.
    split; [done|]. split; [by eapply same_view_trans|].
    eexists. rewrite Hfr. split; [exact Hf'|]. done.
Qed.

(** Marking a pinned frame modified. *)
Lemma mark_dirty_spec p idx f :
  pool_wf p -> frames p !! idx = Some f -> is_pinned (state f) = true ->
  block_id f <> BLOCK_ID_MAX ->
  let p' := with_frames (<[idx := set_intent true f]> (frames p)) p in
  mark_dirty_pinned idx p = (Ok tt, p') /\ pool_wf p' /\ same_view p p' /\
  frames p' !! idx = Some (set_intent true f).
Proof.
  intros [Hc Hcov] Hf Hp Hm p'.
  destruct (pc_frames p Hc idx f Hf) as [F1 F2 F3 F4 F5 F6].
  destruct (core_update p idx f (set_intent true f) Hc Hf) as [Hc' Hv]; [done|done| |].
  { split; simpl; try done. intros [Hs|Hs]; by rewrite Hs in Hp. }
  split; [by apply modify_frame_ok|]. split; [split; [done|]|].
  - by apply (covered_update _ p idx f); [|done|auto].
  - split; [done|]. apply list_lookup_insert_eq. by apply lookup_lt_Some in Hf.
Qed.

Lemma fetch_mut_spec p id r p' :
  pool_wf p -> valid_id id -> fetch_mut id p = (r, p') ->
  pool_wf p' /\ same_view p p' /\
  match r with
  | Ok idx => exists f, frames p' !! idx = Some f /\ block_id f = id /\
      is_pinned (state f) = true /\ dirty_intent f = true /\ view p id = Some (page f)
  | Err _ => find p id = None
  | Panic => False
  end.
Proof.
  intros Hwf Hid E. unfold fetch_mut in E.
  rewrite (bind_ok m_get _ p p p) in E by done. cbv beta in E.
  assert (Hfin : forall idx f p1 r p',
    pool_core p1 -> covered (fun i => i = idx) p1 -> same_view p p1 ->
    frames p1 !! idx = Some f -> block_id f = id -> is_pinned (state f) = true ->
    view p id = Some (page f) ->
    (touch idx;; mark_dirty_pinned idx;; mret idx) p1 = (r, p') ->
    pool_wf p' /\ same_view p p' /\ r = Ok idx /\
    exists f, frames p' !! idx = Some f /\ block_id f = id /\
      is_pinned (state f) = true /\ dirty_intent f = true /\ view p id = Some (page f)).
  { clear E r p'. intros idx f p1 r p' Hc Hcov Hsv Hf Hb Hpin Hv E.
    destruct (touch_spec _ _ idx _ Hc Hcov (fun i Hi => Hi) Hf) as (p2 & Ht & Hwf2 & Hsv2 & Hfr & _).
    rewrite (bind_ok _ _ _ _ _ Ht) in E. rewrite <- Hfr in Hf.
    destruct (mark_dirty_spec p2 idx f Hwf2 Hf Hpin) as (Hm & Hwf3 & Hsv3 & Hf3).
    { rewrite Hb. apply Hid. }
    rewrite (bind_ok _ _ _ _ _ Hm) in E. injection E as <- <-.
    split; [done|]. split; [eapply same_view_trans, same_view_trans; done|].
    split; [done|]. eexists. split; [exact Hf3|]. done. }
  destruct (find p id) as [idx|] eqn:Ef.
  - apply find_Some in Ef as (f & Hf & Hb).
    destruct (pin_frame_spec p id idx f Hwf Hf Hb Hid) as (Hp & Hc & Hcov & Hsv & Hf').
    erewrite bind_ok in E by by rewrite (bind_ok _ _ _ _ _ Hp).
    eapply Hfin in E as (H1 & H2 & -> & H3); try done; try by (destruct (state f)).
    rewrite <- Hb. apply (view_frame p idx f (proj1 Hwf) Hf). rewrite Hb. apply Hid.
  - destruct (fetch_miss id p) as [rm pm] eqn:Em.
    destruct (fetch_miss_spec p id rm pm Hwf Hid Ef Em) as [Hr Hsv].
    destruct rm as [idx|e|]; [|rewrite (bind_err _ _ _ _ _ Em) in E; by injection E as <- <-|done].
    rewrite (bind_ok _ _ _ _ _ Em) in E. destruct Hr as (pg & Hc & Hcov & Hf' & Hv).
    by eapply Hfin in E as (H1 & H2 & -> & H3).
Qed.

(** Assignment through the reference [fetch_mut] returned. *)
Lemma write_frame_spec p idx f data :
  pool_wf p -> frames p !! idx = Some f -> dirty_intent f = true ->
  block_id f <> BLOCK_ID_MAX -> length data = PAGE_SIZE ->
  let p' := with_frames (<[idx := set_page data f]> (frames p)) p in
  write_frame idx data p = (Ok tt, p') /\ pool_wf p' /\ device p' = device p /\
  (forall id, valid_id id ->
     view p' id = if decide (id = block_id f) then Some data else view p id).
Proof.
  intros [Hc Hcov] Hf Hdi Hm Hl p'. assert (Hlt := lookup_lt_Some _ _ _ Hf).
  assert (Hids : block_id <$> frames p' = block_id <$> frames p)
    by by apply (fmap_insert_same _ _ _ f).
  assert (Hcore : pool_core p').
  { destruct (pc_frames p Hc idx f Hf) as [F1 F2 F3 F4 F5 F6].
    destruct Hc as [Hd Hl1 Hl2 Hnd Hfw Hu]. split; simpl; try done.
    - by rewrite length_insert.
    - intros i Hi. rewrite length_insert. auto.
    - intros i g Hg. apply list_lookup_insert_Some in Hg as [(-> & <- & _)|[_ Hg]]; [|eauto].
      split; simpl; try done. intros _ Hq. congruence.
    - assert (Hid : forall i g, <[idx := set_page data f]> (frames p) !! i = Some g ->
        exists g', frames p !! i = Some g' /\ block_id g' = block_id g).
      { intros i g Hg. apply list_lookup_insert_Some in Hg as [(-> & <- & _)|[_ Hg]]; eauto. }
      intros i j fi fj Hi Hj He Hm2.
      destruct (Hid _ _ Hi) as (gi & Hgi & Ei), (Hid _ _ Hj) as (gj & Hgj & Ej).
      eapply Hu; [exact Hgi|exact Hgj|congruence|congruence]. }
  split; [|split; [|split]].
  - unfold write_frame. rewrite decide_True by done. by apply modify_frame_ok.
  - split; [done|]. by apply (covered_update _ p idx f); [|done|auto].
  - done.
  - intros id Hid. case_decide as Hb.
    + subst id. apply (view_frame p' idx (set_page data f) Hcore); [|done].
      by apply list_lookup_insert_eq.
    + unfold view. rewrite (find_map p' p id Hids).
      destruct (find p id) as [k|] eqn:Ek; [|done].
      apply find_Some in Ek as (h & Hh & He). simpl.
      rewrite list_lookup_insert_ne; [done|]. intros ->. congruence.
Qed.

Lemma unpinned_wf d f : frame_wf d f -> frame_wf d (unpinned f).
Proof.
  intros Hw. unfold unpinned. destruct (state f) as [| | |n] eqn:Es; try exact Hw.
  destruct Hw as [F1 F2 F3 F4 F5 F6]. destruct (decide (1 < n)%Z); [|destruct (dirty_intent f) eqn:Ed]; split; simpl; try done;
    try (intros Hm; apply F4 in Hm; congruence);
    try (intros [?|?]; done); try (intros; congruence). intros Hm _. by apply F6.
Qed.

Lemma unpin_spec p id r p' :
  pool_wf p -> valid_id id -> unpin id p = (r, p') ->
  r = Ok tt /\ pool_wf p' /\ same_view p p' /\
  forall idx f, find p id = Some idx -> frames p !! idx = Some f ->
    frames p' = <[idx := unpinned f]> (frames p).
Proof.
  intros [Hc Hcov] Hid E. unfold unpin in E.
  rewrite (bind_ok m_get _ p p p) in E by done. cbv beta in E.
  destruct (find p id) as [idx|] eqn:Ef.
  2: { injection E as <- <-. split; [done|]. split; [done|]. split; [apply same_view_refl|done]. }
  apply find_Some in Ef as (f & Hf & Hb). rewrite (modify_frame_ok p idx f _ Hf) in E.
  injection E as <- <-.
  assert (Hup : block_id (unpinned f) = block_id f /\ page (unpinned f) = page f).
  { unfold unpinned. destruct (state f); try done. case_decide; [done|].
    by destruct (dirty_intent f). }
  destruct (core_update p idx f (unpinned f) Hc Hf) as [Hc' Hv]; [apply Hup|apply Hup| |].
  { apply unpinned_wf. by apply (pc_frames p Hc idx). }
  split; [done|]. split; [split; [done|]|].
  - apply (covered_update _ p idx f); [done|done|]. intros Hs. left. intros Hf0.
    apply Hs. unfold unpinned. by rewrite Hf0.
  - split; [done|]. intros idx' f' [= <-] Hf'. by simplify_eq.
Qed.

(** ** Flushing *)

(** Like [same_view], for operations that may write the device. *)
Definition same_pages p p' : Prop :=
  capacity p' = capacity p /\ steal p' = steal p /\
  block_count (device p') = block_count (device p) /\
  (forall id, valid_id id -> view p' id = view p id).

Lemma same_view_pages p p' : same_view p p' -> same_pages p p'.
Proof. intros (a & b & c & _ & d). by split_and!. Qed.

Lemma same_pages_trans p q r : same_pages p q -> same_pages q r -> same_pages p r.
Proof.
  intros (a & b & c & d) (a' & b' & c' & d'). split_and!; [congruence..|].
  intros id Hid. rewrite d' by done. auto.
Qed.

(** [flush_all] writes exactly the frames marked dirty. *)
Lemma needs_flush_intent d f : frame_wf d f -> needs_flush f = dirty_intent f.
Proof.
  intros [_ F2 F3 _ _ _]. unfold needs_flush.
  destruct (state f) eqn:Es; simpl; rewrite ?andb_true_r, ?andb_false_r; try done;
    symmetry; auto.
Qed.

Lemma flushed_fields f :
  block_id (flushed f) = block_id f /\ page (flushed f) = page f /\
  dirty_intent (flushed f) = false.
Proof. unfold flushed. by case_decide. Qed.

Lemma flush_frame_spec p idx f r p' :
  pool_wf p -> frames p !! idx = Some f -> flush_frame idx p = (r, p') ->
  pool_wf p' /\ same_pages p p' /\ r <> Panic /\ length (frames p') = length (frames p) /\
  (r = Ok tt -> exists f', frames p' = <[idx := f']> (frames p) /\ dirty_intent f' = false).
Proof.
  intros [Hc Hcov] Hf E. unfold flush_frame in E.
  erewrite bind_ok in E by (unfold frame_at; by rewrite Hf). cbv beta in E.
  assert (Hw := pc_frames p Hc idx f Hf). destruct Hw as [F1 F2 F3 F4 F5 F6].
  assert (Hlt := lookup_lt_Some _ _ _ Hf).
  rewrite (needs_flush_intent _ f (pc_frames p Hc idx f Hf)) in E.
  destruct (dirty_intent f) eqn:Hdi.
  2: { injection E as <- <-. split; [done|]. split; [by split_and!|]. split; [done|].
       split; [done|]. intros _. exists f. by rewrite list_insert_id. }
  assert (Hm : block_id f <> BLOCK_ID_MAX).
  { intros Hm. discriminate F3. left. by apply F4. }
  destruct (write_back p idx f Hc Hf Hm Hdi)
    as (blk & rw & d' & He & Hwr & Hnp & Hok' & Hcnt & Hoth & Hok).
  erewrite bind_ok in E by (unfold lift; by rewrite He). cbv beta in E.
  assert (Hod : on_device (write_block (block_id f) blk) p = (rw, with_device d' p))
    by (unfold on_device; by rewrite Hwr).
  destruct rw as [[]|e|]; [| |done].
  - rewrite (bind_ok _ _ _ _ _ Hod) in E.
    rewrite (modify_frame_ok _ idx f) in E by done. injection E as <- <-.
    destruct (flushed_fields f) as (Hfb & Hfp & Hfd).
    destruct (core_device p d' idx f (flushed f) Hc Hf Hm Hok' Hcnt Hoth) as [Hc1 Hv1]; try done.
    { split; rewrite ?Hfb, ?Hfp, ?Hfd; try done.
      - unfold flushed. by case_decide.
      - intros Hr. unfold in_range. rewrite Hcnt. by apply F5.
      - intros _ _. by apply Hok. }
    split; [split; [exact Hc1|]|].
    + apply (covered_update _ (with_device d' p) idx f); [exact Hcov|done|].
      intros _. left. intros Hs. discriminate F3. by left.
    + split; [by split_and!|]. split; [done|]. split; [apply length_insert|].
      intros _. exists (flushed f). done.
  - rewrite (bind_err _ _ _ _ _ Hod) in E. injection E as <- <-.
    destruct (write_back_keeps p idx f d' Hc Hf Hm Hdi Hok' Hcnt Hoth) as [Hc1 Hv1].
    split; [by split|]. by split_and!.
Qed.

Lemma flush_from_spec n : forall a p r p',
  pool_wf p -> a + n = length (frames p) -> flush_from a n p = (r, p') ->
  pool_wf p' /\ same_pages p p' /\ r <> Panic /\ length (frames p') = length (frames p) /\
  (r = Ok tt -> (forall i f, i < a -> frames p' !! i = Some f ->
      exists f0, frames p !! i = Some f0 /\ dirty_intent f = dirty_intent f0) /\
    (forall i f, a <= i -> frames p' !! i = Some f -> dirty_intent f = false)).
Proof.
  induction n as [|n IH]; intros a p r p' Hwf Hlen E; simpl in E.
  { injection E as <- <-. split; [done|]. split; [by split_and!|]. split; [done|].
    split; [done|]. intros _. split; [eauto|].
    intros i f Hi Hf. apply lookup_lt_Some in Hf. lia. }
  destruct (lookup_lt_is_Some_2 (frames p) a) as [f Hf]; [lia|].
  destruct (flush_frame a p) as [r1 p1] eqn:E1.
  destruct (flush_frame_spec p a f r1 p1 Hwf Hf E1) as (Hwf1 & Hsp1 & Hnp & Hl1 & Hok1).
  destruct r1 as [[]|e|]; [| |done].
  2: { rewrite (bind_err _ _ _ _ _ E1) in E. injection E as <- <-. by split_and!. }
  rewrite (bind_ok _ _ _ _ _ E1) in E.
  destruct (IH (S a) p1 r p' Hwf1 ltac:(lia) E) as (Hwf2 & Hsp2 & Hnp2 & Hl2 & Hok2).
  split; [done|]. split; [by eapply same_pages_trans|]. split; [done|]. split; [lia|].
  intros ->. destruct (Hok1 eq_refl) as (f' & Hf1 & Hd), (Hok2 eq_refl) as [Hlow Hhigh].
  split.
  - intros i g Hi Hg. destruct (Hlow i g ltac:(lia) Hg) as (g0 & Hg0 & Hdg).
    rewrite Hf1, list_lookup_insert_ne in Hg0 by lia. eauto.
  - intros i g Hi Hg. destruct (decide (i = a)) as [->|Hne]; [|apply (Hhigh i); [lia|done]].
    destruct (Hlow a g ltac:(lia) Hg) as (g0 & Hg0 & Hdg).
    rewrite Hf1, list_lookup_insert_eq in Hg0 by lia. injection Hg0 as <-. congruence.
Qed.

Lemma flush_all_spec p r p' :
  pool_wf p -> flush_all p = (r, p') ->
  pool_wf p' /\ same_pages p p' /\ r <> Panic /\
  (r = Ok tt -> forall id, valid_id id -> dview (device p') id = view p id).
Proof.
  intros Hwf E. unfold flush_all in E.
  rewrite (bind_ok m_get _ p p p) in E by done. cbv beta in E.
  destruct (flush_from 0 (length (frames p)) p) as [r1 p1] eqn:E1.
  destruct (flush_from_spec _ 0 p r1 p1 Hwf eq_refl E1) as (Hwf1 & Hsp1 & Hnp & Hl1 & Hok1).
  destruct r1 as [[]|e|]; [| |done].
  2: { rewrite (bind_err _ _ _ _ _ E1) in E. injection E as <- <-. by split_and!. }
  rewrite (bind_ok _ _ _ _ _ E1) in E. unfold on_device in E.
  destruct (sync (device p1)) as [rs ds] eqn:Es. injection E as <- <-.
  destruct Hwf1 as [Hc1 Hcov1].
  destruct (law_sync _ _ _ (pc_dev p1 Hc1) Es) as (Hnps & Hoks & Hcnt & Hsame).
  assert (Hdv : forall id, (0 <= id)%Z -> dview ds id = dview (device p1) id)
    by (intros id Hid; apply dview_ext; auto).
  assert (Hview : forall id, valid_id id -> view (with_device ds p1) id = view p1 id).
  { intros id [Hid _]. unfold view. change (find (with_device ds p1) id) with (find p1 id).
    destruct (find p1 id); [done|]. by apply Hdv. }
  split; [split; [|exact Hcov1]|].
  - destruct Hc1 as [G1 G2 G3 G4 G5 G6]. split; simpl; try done.
    intros i f Hf. destruct (G5 i f Hf) as [F1 F2 F3 F4 F5 F6]. split; try done.
    + intros Hm. unfold in_range. rewrite Hcnt. by apply F5.
    + intros Hm Hq. rewrite Hdv by by apply F5. auto.
  - split; [|split; [done|]].
    + eapply same_pages_trans; [exact Hsp1|]. split_and!; done.
    + intros _ id Hid. destruct Hsp1 as (_ & _ & _ & Hv). simpl.
      rewrite Hdv by apply Hid. rewrite <- (Hv id Hid). destruct (Hok1 eq_refl) as [_ Hq].
      unfold view. destruct (find p1 id) as [k|] eqn:Ek; [|done].
      apply find_Some in Ek as (f & Hf & <-). rewrite Hf. simpl.
      destruct (pc_frames p1 Hc1 k f Hf) as [F1 F2 F3 F4 F5 F6].
      apply F6; [apply Hid|]. apply (Hq k f); [lia|done].
Qed.

(** ** A fresh pool *)

Lemma new_spec d cap p :
  dev_ok d -> Page.new d cap = Ok p ->
  pool_wf p /\ (forall id, view p id = dview d id) /\ device p = d.
Proof.
  intros Hd E. unfold Page.new in E. case_decide; [|done]. injection E as <-.
  split; [|done]. split.
  - split; simpl; try done; try lia; try (by intros i Hi; apply not_elem_of_nil in Hi).
    constructor.
  - intros i f Hf. done.
Qed.

Lemma no_steal_wf p : pool_wf p -> pool_wf (no_steal p).
Proof. intros [[] Hcov]. split; [by split|exact Hcov]. Qed.

(** [reserve] makes room without changing what the pool shows. *)
Lemma reserve_spec p id r p' :
  pool_wf p -> valid_id id -> reserve id p = (r, p') ->
  pool_wf p' /\ same_view p p' /\ r <> Panic.
Proof.
  intros Hwf Hid E. unfold reserve in E.
  rewrite (bind_ok m_get _ p p p) in E by done. cbv beta in E.
  destruct (find p id); [injection E as <- <-; split; [done|]; split; [apply same_view_refl|done]|].
  destruct (acquire_frame p) as [ra pa] eqn:Ea.
  destruct (acquire_frame_spec p ra pa Hwf Ea) as (Hwf' & Hsv & _ & Hr).
  destruct ra as [idx|e|]; [rewrite (bind_ok _ _ _ _ _ Ea) in E
    |rewrite (bind_err _ _ _ _ _ Ea) in E|done]; injection E as <- <-; done.
Qed.

(** ** The pool as an array of pages *)

(** What a client does with a pool. *)
Inductive pool_op : Type :=
| OpRead (id : Z)
| OpWrite (id : Z) (data : list byte)
| OpRelease (id : Z)
| OpFlush.

Definition op_valid (op : pool_op) : Prop :=
  match op with
  | OpRead id | OpRelease id => valid_id id
  | OpWrite id data => valid_id id /\ length data = PAGE_SIZE
  | OpFlush => True
  end.

Definition run_op (op : pool_op) : M BufferPool StorageError (list byte) :=
  match op with
  | OpRead id => idx ← fetch id; f ← frame_at idx; mret (page f)
  | OpWrite id data => idx ← fetch_mut id; write_frame idx data;; mret []
  | OpRelease id => unpin id;; mret []
  | OpFlush => flush_all;; mret []
  end.

(** The array: an operation that failed leaves it alone. *)
Definition spec_op (op : pool_op) (ok : bool) (a : Z -> option (list byte))
    : Z -> option (list byte) :=
  match op with
  | OpWrite id data => fun j => if ok && bool_decide (j = id) then Some data else a j
  | _ => a
  end.

Lemma run_op_read id p r p' :
  pool_wf p -> valid_id id -> run_op (OpRead id) p = (r, p') ->
  pool_wf p' /\ r <> Panic /\ (forall j, valid_id j -> view p' j = view p j) /\
  (steal p = false -> device p' = device p) /\ (forall b, r = Ok b -> view p id = Some b).
Proof.
  intros Hwf Hid E. simpl in E.
  destruct (fetch id p) as [rf pf] eqn:Ef.
  destruct (fetch_spec p id rf pf Hwf Hid Ef) as (Hwf' & (_ & _ & _ & Hd & Hv) & Hr).
  destruct rf as [idx|e|]; [| |done].
  2: { rewrite (bind_err _ _ _ _ _ Ef) in E. by injection E as <- <-. }
  rewrite (bind_ok _ _ _ _ _ Ef) in E. destruct Hr as (f & Hf & _ & _ & Hview).
  erewrite bind_ok in E by (unfold frame_at; by rewrite Hf). injection E as <- <-.
  split_and!; try done. by intros b [= <-].
Qed.

Lemma run_op_write id data p r p' :
  pool_wf p -> valid_id id -> length data = PAGE_SIZE -> run_op (OpWrite id data) p = (r, p') ->
  pool_wf p' /\ r <> Panic /\
  (forall j, valid_id j -> view p' j = spec_op (OpWrite id data) (is_ok r) (view p) j) /\
  (steal p = false -> device p' = device p).
Proof.
  intros Hwf Hid Hl E. simpl in E.
  destruct (fetch_mut id p) as [rf pf] eqn:Ef.
  destruct (fetch_mut_spec p id rf pf Hwf Hid Ef) as (Hwf' & (_ & _ & _ & Hd & Hv) & Hr).
  destruct rf as [idx|e|]; [| |done].
  2: { rewrite (bind_err _ _ _ _ _ Ef) in E. by injection E as <- <-. }
  rewrite (bind_ok _ _ _ _ _ Ef) in E. destruct Hr as (f & Hf & Hb & _ & Hdi & _).
  destruct (write_frame_spec pf idx f data Hwf' Hf Hdi) as (Hw & Hwf2 & Hd2 & Hv2);
    [rewrite Hb; apply Hid|done|].
  rewrite (bind_ok _ _ _ _ _ Hw) in E. injection E as <- <-. split_and!; try done.
  - intros j Hj. rewrite Hv2, Hb by done. simpl. case_decide as Hc.
    + by rewrite bool_decide_eq_true_2.
    + rewrite bool_decide_eq_false_2 by done. auto.
Qed.

(** C27: Whatever the device does, every client operation keeps the pool's invariant,
    never panics, and acts on the pages seen through the pool exactly as on an
    array of pages: reads return the element, a write that succeeds sets it,
    nothing else changes it.  A no-steal pool leaves the device alone except to
    flush, and after a flush that succeeds the device holds the array. *)
Theorem pool_simulates_array op p r p' :
  pool_wf p -> op_valid op -> run_op op p = (r, p') ->
  pool_wf p' /\ r <> Panic /\
  (forall j, valid_id j -> view p' j = spec_op op (is_ok r) (view p) j) /\
  match op with
  | OpRead id => forall b, r = Ok b -> view p id = Some b
  | OpFlush => is_ok r = true -> forall j, valid_id j -> dview (device p') j = view p j
  | _ => True
  end /\
  (steal p = false -> op <> OpFlush -> device p' = device p).
Proof.
  intros Hwf Hop E. destruct op as [id|id data|id|]; simpl in Hop.
  - destruct (run_op_read id p r p' Hwf Hop E) as (H1 & H2 & H3 & H4 & H5). split_and!; auto.
  - destruct Hop as [Hid Hl].
    destruct (run_op_write id data p r p' Hwf Hid Hl E) as (H1 & H2 & H3 & H4). split_and!; auto.
  - simpl in E. destruct (unpin id p) as [ru pu] eqn:Eu.
    destruct (unpin_spec p id ru pu Hwf Hop Eu) as (-> & Hwf' & (_ & _ & _ & Hd & Hv) & _).
    rewrite (bind_ok _ _ _ _ _ Eu) in E. injection E as <- <-. split_and!; auto.
  - simpl in E. destruct (flush_all p) as [rf pf] eqn:Ef.
    destruct (flush_all_spec p rf pf Hwf Ef) as (Hwf' & (_ & _ & _ & Hv) & Hnp & Hok).
    destruct rf as [[]|e|]; [| |done].
    + rewrite (bind_ok _ _ _ _ _ Ef) in E. injection E as <- <-.
      split; [done|]. split; [done|]. split; [done|]. split; [|done]. intros _. by apply Hok.
    + rewrite (bind_err _ _ _ _ _ Ef) in E. injection E as <- <-. by split_and!.
Qed.

End Proofs.

(** A page framed with its checksum is a whole block and decodes to itself. *)
Theorem block_roundtrip pg :
  length pg = PAGE_SIZE ->
  exists blk, encode_page_block pg = Ok blk /\ length blk = BLOCK_SIZE /\
              decode_block blk = Ok pg.
Proof. apply encode_page_block_ok. Qed.

Lemma block_roundtrip_witness :
  length zero_page = PAGE_SIZE /\
  exists blk, encode_page_block zero_page = Ok blk /\ length blk = BLOCK_SIZE /\
              decode_block blk = Ok zero_page.
Proof.
  assert (H : length zero_page = PAGE_SIZE) by apply length_replicate.
  split; [exact H|]. exact (block_roundtrip zero_page H).
Defined.

(** A block whose page was damaged in up to four consecutive bytes decodes to
    [Corrupt], unless the damage left nothing but zeros. *)
Theorem torn_block_detected pre w1 w2 post blk :
  length (pre ++ w1 ++ post) = PAGE_SIZE ->
  encode_page_block (pre ++ w1 ++ post) = Ok blk ->
  length w1 = length w2 -> length w1 <= 4 -> w1 <> w2 ->
  let damaged := pre ++ w2 ++ post ++ drop PAGE_SIZE blk in
  forallb (fun b => Byte.eqb b x00) damaged = false ->
  decode_block damaged = Err Corrupt.
Proof.
  intros Hl E Hw H4 Hne damaged Hz. unfold encode_page_block in E. rewrite decide_True in E by done.
  injection E as <-. unfold damaged in *. clear damaged.
  rewrite (drop_app_length' (pre ++ w1 ++ post)) in * by done.
  set (crc := le_bytes 4 (crc32 (pre ++ w1 ++ post))) in *.
  assert (Hl2 : length (pre ++ w2 ++ post) = PAGE_SIZE) by (rewrite <- Hl; len).
  replace (pre ++ w2 ++ post ++ crc) with ((pre ++ w2 ++ post) ++ crc) in *
    by by rewrite <- !app_assoc.
  unfold decode_block. rewrite decide_False.
  2: { intros Hn. apply Hn. rewrite length_app, Hl2. unfold crc. by rewrite le_bytes_length. }
  rewrite Hz, take_app_length' by done.
  rewrite (slice_mid _ (pre ++ w2 ++ post) crc []);
    [|by rewrite app_nil_r|done|unfold crc; by rewrite le_bytes_length].
  unfold crc. rewrite le_val_bytes_u32 by apply crc32_u32.
  rewrite decide_True; [done|]. intros Hc. symmetry in Hc. by apply crc32_burst in Hc.
Qed.

#[local] Existing Instance InMemory.device.
#[local] Existing Instance InMemory.device_laws.

Lemma torn_block_detected_witness :
  let post := replicate (PAGE_SIZE - 1) x00 in
  let blk := ([x01] ++ post) ++ le_bytes 4 (crc32 ([x01] ++ post)) in
  encode_page_block ([] ++ [x01] ++ post) = Ok blk /\
  decode_block ([] ++ [x02] ++ post ++ drop PAGE_SIZE blk) = Err Corrupt.
Proof.
  set (post := replicate (PAGE_SIZE - 1) x00).
  assert (Hl : length ([] ++ [x01] ++ post) = PAGE_SIZE).
  { unfold post. cbn [app length]. rewrite length_replicate. assert (H := PAGE_SIZE_Z). lia. }
  assert (He : encode_page_block ([] ++ [x01] ++ post) =
    Ok (([x01] ++ post) ++ le_bytes 4 (crc32 ([x01] ++ post)))).
  { unfold encode_page_block. by rewrite decide_True. }
  split; [exact He|].
  apply (torn_block_detected [] [x01] [x02] post _ Hl He); [done|simpl; lia|done|reflexivity].
Defined.

Lemma pool_simulates_array_witness :
  exists (p : Page.BufferPool InMemory.InMemoryBlockDevice) r p',
    pool_wf p /\ op_valid (OpWrite 1 zero_page) /\ run_op (OpWrite 1 zero_page) p = (r, p') /\
    is_ok r = true /\ view p' 1 = Some zero_page.
Proof.
  destruct (InMemory.new 2) as [d| |] eqn:Ed; [|discriminate Ed..].
  assert (Hd : dev_ok d) by (apply (InMemory.new_ok 2 d); [lia|exact Ed]).
  destruct (Page.new d 1) as [p| |] eqn:Ep; [|discriminate Ep..].
  destruct (new_spec d 1 p Hd Ep) as (Hwf & _ & _).
  destruct (run_op (OpWrite 1 zero_page) p) as [r p'] eqn:E.
  exists p, r, p'. assert (Hv : op_valid (OpWrite 1 zero_page)).
  { split; [split; [lia|discriminate]|apply length_replicate]. }
  assert (Hok : is_ok r = true).
  { replace r with (fst (run_op (OpWrite 1 zero_page) p)) by (rewrite E; reflexivity).
    injection Ed as <-. injection Ep as <-. vm_compute. reflexivity. }
  split; [exact Hwf|]. split; [exact Hv|]. split; [exact E|]. split; [exact Hok|].
  destruct (pool_simulates_array _ p r p' Hwf Hv E) as (_ & _ & H3 & _).
  rewrite H3, Hok by exact (proj1 Hv). reflexivity.
Defined.
