(* ===== verification/Storage.v ===== *)
(** * Storage: the storage engine and the file-backed database of
    [crates/tpt-archon-core/src/storage.rs]

    Every operation of [StorageEngine] and [Database].  The [persist] closure of
    [commit_durable] is an argument with a state of its own; the two files of a
    [Database] (the data file and the [.wal] sidecar) are the files of
    [Block.FileDevice], whose calls can fail. *)
From Stdlib Require Import ZArith Lia Strings.Byte.
From stdpp Require Import base numbers option list.
From S2P Require Import Prelude Block Wal Page.

Module Storage.

Section Engine.
Context {D : Type} `{BlockDevice D}.

Record StorageEngine : Type := mkEngine {
  pool : Page.BufferPool D;
  wal : Wal.wal;
}.

Abbreviation S := (M StorageEngine StorageError).

Definition on_pool {A} (m : M (Page.BufferPool D) StorageError A) : S A := fun e =>
  let '(r, p') := m (pool e) in (r, {| pool := p'; wal := wal e |}).

Definition on_wal {A} (m : M Wal.wal StorageError A) : S A := fun e =>
  let '(r, w') := m (wal e) in (r, {| pool := pool e; wal := w' |}).

Definition new (device : D) (capacity : nat) : outcome StorageError StorageEngine :=
  match Page.new device capacity with
  | Ok p => Ok {| pool := Page.no_steal p; wal := Wal.new |}
  | Err e => Err e
  | Panic => Panic
  end.

(** The [match] on [fetch_mut] of [write_page]. *)
Definition stage (block_id : Z) (page : list byte) (log_len : nat) (log_lsn : Z) : S unit :=
  fun e =>
    match on_pool (Page.fetch_mut block_id) e with
    | (Ok frame, e') => on_pool (Page.write_frame frame page;; Page.unpin block_id) e'
    | (Err err, e') => (on_wal (m_modify (Wal.truncate log_len log_lsn));; m_err err) e'
    | (Panic, e') => (Panic, e')
    end.

Definition write_page (block_id : Z) (page : list byte) : S unit :=
  if decide (length page ≠ PAGE_SIZE) then m_err (ShortWrite (length page) PAGE_SIZE) else
  e ← m_get;
  let block_count := block_count (Page.device (pool e)) in
  if decide (block_count <= block_id)%Z then m_err (OutOfBounds block_id block_count) else
  on_pool (Page.reserve block_id);;
  e ← m_get;
  let log_len := length (Wal.as_bytes (wal e)) in
  let log_lsn := Wal.next_lsn (wal e) in
  on_wal (Wal.append Wal.PageWrite block_id page);;
  stage block_id page log_len log_lsn.

Definition read_page (block_id : Z) : S (list byte) :=
  frame ← on_pool (Page.fetch block_id);
  f ← on_pool (Page.frame_at frame);
  mret (Page.page f).

Definition append_commit : S unit := on_wal (Wal.append Wal.Commit 0 []);; mret tt.

Definition flush_data : S unit := on_pool Page.flush_all.

Definition reset_wal : S unit := m_modify (fun e => {| pool := pool e; wal := Wal.new |}).

Definition wal_bytes (e : StorageEngine) : list byte := Wal.as_bytes (wal e).

(** [persist] is a closure over a state [W] of the caller. *)
Definition commit_durable {W : Type} (persist : list byte -> M W StorageError unit)
    : M (StorageEngine * W) StorageError unit := fun '(e, w) =>
  let log_len := length (Wal.as_bytes (wal e)) in
  let log_lsn := Wal.next_lsn (wal e) in
  match append_commit e with
  | (Ok _, e1) =>
      match persist (Wal.as_bytes (wal e1)) w with
      | (Ok _, w1) => let '(r, e2) := flush_data e1 in (r, (e2, w1))
      | (Err err, w1) =>
          let '(_, e2) := on_wal (m_modify (Wal.truncate log_len log_lsn)) e1 in
          (Err err, (e2, w1))
      | (Panic, w1) => (Panic, (e1, w1))
      end
  | (Err err, e1) => (Err err, (e1, w))
  | (Panic, e1) => (Panic, (e1, w))
  end.

(** *** Recovery *)

(** What the closure of [recover] captures. *)
Record Replay : Type := mkReplay {
  r_dev : D;
  r_pending : list (Z * list byte);
  r_applied : nat;
}.

(** One iteration of the loop over [pending.drain(..)]. *)
Definition apply_write (w : Z * list byte) : M Replay StorageError unit := fun s =>
  match Page.encode_page_block (snd w) with
  | Ok block =>
      match write_block (fst w) block (r_dev s) with
      | (Ok _, d) => (Ok tt, mkReplay d (r_pending s) (r_applied s + 1))
      | (Err _, d) => (Ok tt, mkReplay d (r_pending s) (r_applied s))
      | (Panic, d) => (Panic, mkReplay d (r_pending s) (r_applied s))
      end
  | Err e => (Err e, s)
  | Panic => (Panic, s)
  end.

Fixpoint apply_writes (ws : list (Z * list byte)) : M Replay StorageError unit :=
  match ws with
  | [] => mret tt
  | w :: ws' => apply_write w;; apply_writes ws'
  end.

(** The closure passed to [Wal::replay]. *)
Definition replay_record (rec : Wal.WalRecord) : M Replay StorageError unit :=
  match Wal.kind rec with
  | Wal.PageWrite =>
      if decide (length (Wal.payload rec) = PAGE_SIZE) then
        m_modify (fun s => mkReplay (r_dev s)
          (r_pending s ++ [(Wal.block_id rec, Wal.payload rec)]) (r_applied s))
      else mret tt
  | Wal.Commit | Wal.Checkpoint =>
      s ← m_get;
      m_modify (fun s => mkReplay (r_dev s) [] (r_applied s));;
      apply_writes (r_pending s)
  end.

(** A panic inside the closure unwinds out of [replay]. *)
Definition replay_step (st : outcome StorageError unit * Replay) (rec : Wal.WalRecord)
    : outcome StorageError unit * Replay :=
  match st with
  | (Ok _, s) => replay_record rec s
  | (o, s) => (o, s)
  end.

Definition recover (log_bytes : list byte) : S nat := fun e =>
  let wal' := Wal.from_bytes log_bytes in
  let '(_, (o, s)) :=
    Wal.replay replay_step wal' (Ok tt, mkReplay (Page.device (pool e)) [] 0) in
  let p' := Page.with_device (r_dev s) (pool e) in
  match o with
  | Ok _ => (Ok (r_applied s), {| pool := p'; wal := wal' |})
  | Err err => (Err err, {| pool := p'; wal := wal e |})
  | Panic => (Panic, {| pool := p'; wal := wal e |})
  end.

End Engine.

Arguments StorageEngine : clear implicits.

(** ** The file-backed database *)
Import FileDevice.

Record Database : Type := mkDatabase {
  engine : StorageEngine FileBlockDevice;
  wal_file : file;
}.

Definition on_engine {A} (m : M (StorageEngine FileBlockDevice) StorageError A)
    : M Database StorageError A := fun db =>
  let '(r, e') := m (engine db) in (r, {| engine := e'; wal_file := wal_file db |}).

Definition on_wal_file {A} (m : M file StorageError A) : M Database StorageError A := fun db =>
  let '(r, f') := m (wal_file db) in (r, {| engine := engine db; wal_file := f' |}).

(** [seek(Start(0))] then [read_to_end]. *)
Definition read_all : M file StorageError (list byte) := fun f =>
  match f_bad f 0 with
  | Some k => (Err (Io k), f)
  | None => (Ok (f_data f), f)
  end.
Definition read_to_end : M file StorageError (list byte) := seek;; read_all.

Definition persist_wal : M Database StorageError unit :=
  db ← m_get;
  let bytes := wal_bytes (engine db) in
  on_wal_file (seek;; write_all 0 bytes;; FileDevice.set_len (length bytes);; sync_all).

Definition put (block_id : Z) (page : list byte) : M Database StorageError unit :=
  on_engine (write_page block_id page);;
  on_engine append_commit;;
  persist_wal;;
  on_engine flush_data.

Definition get (block_id : Z) : M Database StorageError (list byte) :=
  on_engine (read_page block_id).

Definition recover_from (log_bytes : list byte) : M Database StorageError nat :=
  on_engine (recover log_bytes).

(** The number of page frames of a [Database]. *)
Definition DB_CAPACITY : nat := 64.

(** The body of [if !buf.is_empty()] in [open]: replay, then checkpoint. *)
Definition checkpoint (buf : list byte) : M Database StorageError unit :=
  on_engine (recover buf);;
  on_engine flush_data;;
  on_engine reset_wal;;
  on_wal_file (seek;; FileDevice.set_len 0).

(** The body of [open] once both files are open. *)
Definition open_body : M Database StorageError unit :=
  buf ← on_wal_file read_to_end;
  match buf with
  | [] => mret tt
  | _ => checkpoint buf
  end.

(** The files of a handle, as they are on disk. *)
Definition files (db : Database) : file * file :=
  (fb_file (Page.device (pool (engine db))), wal_file db).

(** [open]: the state is the pair of files (data, sidecar), an absent sidecar
    being an empty one. *)
Definition open : M (file * file) StorageError Database := fun '(data, walf) =>
  match FileDevice.open data with
  | Ok device =>
      match new device DB_CAPACITY with
      | Ok e =>
          let '(r, db) := open_body {| engine := e; wal_file := walf |} in
          (match r with Ok _ => Ok db | Err err => Err err | Panic => Panic end, files db)
      | Err err => (Err err, (data, walf))
      | Panic => (Panic, (data, walf))
      end
  | Err err => (Err err, (data, walf))
  | Panic => (Panic, (data, walf))
  end.

(** [create]: the sidecar is opened with [truncate(true)]. *)
Definition create (data walf : file) (n : Z) : outcome StorageError Database :=
  match FileDevice.create data n with
  | Ok device =>
      match new device DB_CAPACITY with
      | Ok e => Ok {| engine := e; wal_file := with_synced (with_data walf []) [] |}
      | Err err => Err err
      | Panic => Panic
      end
  | Err err => Err err
  | Panic => Panic
  end.

End Storage.
