(* ===== verification/StorageProof.v ===== *)
(** * StorageProof: durability of the storage engine and of the database

    The log determines the state: [eng_ok] ties the pages the engine shows to
    the page writes of its log, [untouched] says which blocks of the device may
    differ from the device the log started from.  Recovery of any device that
    differs only on committed blocks gives back exactly the committed writes. *)
From Stdlib Require Import ZArith Lia Strings.Byte.
From stdpp Require Import base numbers option list.
From S2P Require Import Prelude Checksum Block Wal Page PageProof Storage.
Import Storage.

(** ** Page writes of a log *)

Definition is_marker (r : Wal.WalRecord) : bool :=
  match Wal.kind r with Wal.PageWrite => false | _ => true end.

(** The page image a record carries, if [recover] would take it. *)
Definition image (r : Wal.WalRecord) : list (Z * list byte) :=
  match Wal.kind r with
  | Wal.PageWrite =>
      if decide (length (Wal.payload r) = PAGE_SIZE) then [(Wal.block_id r, Wal.payload r)] else []
  | _ => []
  end.

Definition all_writes (rs : list Wal.WalRecord) : list (Z * list byte) := concat (map image rs).

(** The writes followed by a commit marker, in order. *)
Fixpoint committed_from (pend : list (Z * list byte)) (rs : list Wal.WalRecord)
    : list (Z * list byte) :=
  match rs with
  | [] => []
  | r :: rs' =>
      if is_marker r then pend ++ committed_from [] rs'
      else committed_from (pend ++ image r) rs'
  end.
Definition committed (rs : list Wal.WalRecord) : list (Z * list byte) := committed_from [] rs.

(** The blocks a list of writes names. *)
Definition targets (ws : list (Z * list byte)) (id : Z) : Prop := id ∈ map fst ws.

#[export] Instance targets_dec ws id : Decision (targets ws id).
Proof. unfold targets. apply _. Defined.

(** What is seen after the writes [ws] on top of [v]: the last one wins. *)
Definition overlay1 (v : Z -> option (list byte)) (w : Z * list byte) : Z -> option (list byte) :=
  fun id => if decide (id = fst w) then Some (snd w) else v id.
Definition overlay (ws : list (Z * list byte)) (v : Z -> option (list byte)) :=
  foldl overlay1 v ws.

Lemma all_writes_app a b : all_writes (a ++ b) = all_writes a ++ all_writes b.
Proof. unfold all_writes. by rewrite map_app, concat_app. Qed.

Lemma committed_from_marker rs : forall pend r,
  is_marker r = true -> committed_from pend (rs ++ [r]) = pend ++ all_writes rs.
Proof.
  induction rs as [|a rs IH]; intros pend r Hr; simpl.
  { by rewrite Hr. }
  unfold all_writes. simpl. destruct (is_marker a) eqn:Ea.
  - assert (Hi : image a = []) by (unfold image, is_marker in *; by destruct (Wal.kind a)).
    rewrite Hi, IH by done. done.
  - rewrite IH by done. by rewrite <- app_assoc.
Qed.

(** A commit marker commits everything before it. *)
Lemma committed_marker rs r : is_marker r = true -> committed (rs ++ [r]) = all_writes rs.
Proof. intros Hr. by apply (committed_from_marker rs []). Qed.

Lemma committed_from_prefix rs : forall pend, committed_from pend rs `prefix_of` pend ++ all_writes rs.
Proof.
  induction rs as [|a rs IH]; intros pend; simpl.
  { apply prefix_nil. }
  unfold all_writes. simpl. destruct (is_marker a) eqn:Ea.
  - assert (Hi : image a = []) by (unfold image, is_marker in *; by destruct (Wal.kind a)).
    rewrite Hi. apply prefix_app. apply (IH []).
  - rewrite app_assoc. apply IH.
Qed.

Lemma committed_from_mono rs : forall pend rs',
  committed_from pend rs `prefix_of` committed_from pend (rs ++ rs').
Proof.
  induction rs as [|a rs IH]; intros pend rs'; simpl; [apply prefix_nil|].
  destruct (is_marker a); [apply prefix_app|]; apply IH.
Qed.

(** A longer log commits at least as much, in the same order. *)
Lemma committed_mono rs rs' : rs `prefix_of` rs' -> committed rs `prefix_of` committed rs'.
Proof. intros [k ->]. apply committed_from_mono. Qed.

Lemma committed_all rs : committed rs `prefix_of` all_writes rs.
Proof. apply (committed_from_prefix rs []). Qed.

Lemma overlay_app a b v : overlay (a ++ b) v = overlay b (overlay a v).
Proof. apply foldl_app. Qed.

(** A block named by the writes shows one of them. *)
Lemma overlay_target ws : forall v id, targets ws id ->
  exists pg, (id, pg) ∈ ws /\ overlay ws v id = Some pg.
Proof.
  induction ws as [|w ws IH] using rev_ind; intros v id Ht.
  { by apply elem_of_nil in Ht. }
  rewrite overlay_app. simpl. unfold overlay1. case_decide as Hid.
  - exists (snd w). split; [|done]. apply elem_of_app. right. subst id. destruct w. by left.
  - unfold targets in Ht. rewrite map_app, elem_of_app in Ht. destruct Ht as [Ht|Ht].
    + destruct (IH v id Ht) as (pg & Hin & Ho). exists pg. split; [|done].
      apply elem_of_app. by left.
    + apply list_elem_of_singleton in Ht. done.
Qed.

Lemma overlay_other ws : forall v id, ~ targets ws id -> overlay ws v id = v id.
Proof.
  induction ws as [|w ws IH]; intros v id Ht; simpl; [done|].
  rewrite IH by (intros Hx; apply Ht; by right). unfold overlay1.
  rewrite decide_False; [done|]. intros ->. apply Ht. left.
Qed.

Lemma overlay_ext ws v v' id :
  (~ targets ws id -> v id = v' id) -> overlay ws v id = overlay ws v' id.
Proof.
  intros Hv. destruct (decide (targets ws id)) as [Ht|Ht].
  2: { rewrite !overlay_other by done. auto. }
  clear Hv. revert v v'. induction ws as [|w ws IH] using rev_ind; intros v v'.
  { by apply elem_of_nil in Ht. }
  rewrite !overlay_app. simpl. unfold overlay1. case_decide; [done|]. apply IH.
  unfold targets in *. rewrite map_app, elem_of_app in Ht. destruct Ht as [Ht|Ht]; [done|].
  apply list_elem_of_singleton in Ht. done.
Qed.

Lemma targets_prefix a b id : a `prefix_of` b -> targets a id -> targets b id.
Proof.
  intros [k ->] Ht. unfold targets in *. rewrite map_app. apply elem_of_app. by left.
Qed.

Section Proofs.
Context {D : Type} `{BlockDeviceLaws D}.
Implicit Types p q : Page.BufferPool D.
Implicit Types e : StorageEngine D.

(** ** Which blocks a pool may write *)

(** The device agrees with [d0] on every block outside [X]. *)
Definition untouched (d0 : D) (X : Z -> Prop) (d : D) : Prop :=
  block_count d = block_count d0 /\
  forall j, (0 <= j)%Z -> ~ X j -> dev_block d j = dev_block d0 j.

(** The device after some writes to blocks in [X], which may have failed, and
    syncs. *)
Inductive dev_steps (X : Z -> Prop) (d : D) : D -> Prop :=
| ds_refl : dev_steps X d d
| ds_write d1 i blk r d2 :
    dev_steps X d d1 -> X i -> (0 <= i)%Z -> write_block i blk d1 = (r, d2) -> dev_steps X d d2
| ds_sync d1 r d2 : dev_steps X d d1 -> sync d1 = (r, d2) -> dev_steps X d d2.

Lemma dev_steps_trans X d d1 d2 : dev_steps X d d1 -> dev_steps X d1 d2 -> dev_steps X d d2.
Proof. intros H1 H2. induction H2; [done|by eapply ds_write|by eapply ds_sync]. Qed.

Lemma dev_steps_mono (X Y : Z -> Prop) d d1 :
  (forall i, X i -> Y i) -> dev_steps X d d1 -> dev_steps Y d d1.
Proof. intros HXY H1. induction H1; [constructor|eapply ds_write; eauto|by eapply ds_sync]. Qed.

(** Such steps touch nothing outside [X]. *)
Lemma dev_steps_untouched X d d' : dev_ok d -> dev_steps X d d' -> dev_ok d' /\ untouched d X d'.
Proof.
  intros Hok Hs. induction Hs as [|d1 i blk r d2 _ [Hok1 [Hc1 Hu1]] HX Hi Hw
    |d1 r d2 _ [Hok1 [Hc1 Hu1]] Hw]; [done| |].
  - assert (Hd2 : dev_ok d2 /\ block_count d2 = block_count d1 /\
      forall j, (0 <= j)%Z -> j <> i -> dev_block d2 j = dev_block d1 j).
    { destruct r as [[]|err|].
      - destruct (law_write_ok _ _ _ _ Hok1 Hi Hw) as (_ & _ & ? & ? & _ & ?). done.
      - exact (law_write_err _ _ _ _ _ Hok1 Hi Hw).
      - exfalso. apply (law_write_no_panic _ i blk Hok1 Hi). by rewrite Hw. }
    destruct Hd2 as (Hok2 & Hc2 & Hoth). split; [done|]. split; [congruence|].
    intros j Hj HXj. rewrite Hoth; [by apply Hu1|done|]. by intros ->.
  - destruct (law_sync _ _ _ Hok1 Hw) as (_ & Hok2 & Hc2 & Hsame).
    split; [done|]. split; [congruence|]. intros j Hj HXj. rewrite Hsame by done. by apply Hu1.
Qed.

(** A frame that may be written to the device by a flush. *)
Definition marked (f : Page.Frame) : Prop :=
  Page.state f = Page.Dirty \/ Page.dirty_intent f = true.

(** Only frames of blocks in [X] may be written. *)
Definition marked_in (X : Z -> Prop) p : Prop :=
  forall i f, Page.frames p !! i = Some f -> marked f -> X (Page.block_id f).

Definition keeps {A} (X : Z -> Prop) (m : M (Page.BufferPool D) StorageError A) : Prop :=
  forall p r p', m p = (r, p') -> marked_in X p -> marked_in X p'.

Lemma keeps_bind {A B} X (m : M (Page.BufferPool D) StorageError A) (k : A -> M _ _ B) :
  keeps X m -> (forall a, keeps X (k a)) -> keeps X (m ≫= k).
Proof.
  intros Hm Hk p r p' E Hp. unfold mbind, M_bind in E.
  destruct (m p) as [[a|err|] p1] eqn:E1; assert (H1 := Hm _ _ _ E1 Hp).
  - exact (Hk a p1 r p' E H1).
  - by injection E as <- <-.
  - by injection E as <- <-.
Qed.

Lemma keeps_same {A} X (m : M (Page.BufferPool D) StorageError A) :
  (forall p, Page.frames (snd (m p)) = Page.frames p) -> keeps X m.
Proof.
  intros Hm p r p' E Hp i f Hf. apply (Hp i). specialize (Hm p). rewrite E in Hm.
  simpl in Hm. by rewrite <- Hm.
Qed.

Lemma keeps_modify X idx g :
  (forall f, marked (g f) -> marked f /\ Page.block_id (g f) = Page.block_id f) ->
  keeps X (Page.modify_frame idx g).
Proof.
  intros Hg p r p' E Hp. unfold Page.modify_frame in E.
  destruct (Page.frames p !! idx) as [f|] eqn:Ef; injection E as <- <-; [|done].
  intros i h Hh Hm. simpl in Hh.
  apply list_lookup_insert_Some in Hh as [(-> & <- & _)|[_ Hh]]; [|by eapply Hp].
  destruct (Hg f Hm) as [H1 ->]. by eapply Hp.
Qed.

Lemma keeps_if {A} X (b : bool) (m1 m2 : M (Page.BufferPool D) StorageError A) :
  keeps X m1 -> keeps X m2 -> keeps X (if b then m1 else m2).
Proof. by destruct b. Qed.

Lemma keeps_decide {A} X (P : Prop) `{Decision P} (m1 m2 : M (Page.BufferPool D) StorageError A) :
  keeps X m1 -> keeps X m2 -> keeps X (if decide P then m1 else m2).
Proof. by case_decide. Qed.

Lemma keeps_on_device {A} X (m : M D StorageError A) : keeps X (Page.on_device m).
Proof. apply keeps_same. intros p. unfold Page.on_device. by destruct (m (Page.device p)). Qed.

Ltac keeps :=
  repeat first
    [ apply keeps_bind; [|intros]
    | apply keeps_if | apply keeps_decide | apply keeps_on_device
    | match goal with
      | |- keeps _ (match ?x with Some _ => _ | None => _ end) => destruct x
      | |- keeps _ (match ?x with Ok _ => _ | Err _ => _ | Panic => _ end) => destruct x
      end
    | solve [apply keeps_same; reflexivity]
    | solve [apply keeps_modify; intros f; unfold marked; simpl; intuition congruence] ].

Lemma frame_at_keeps X idx : keeps X (Page.frame_at idx).
Proof. apply keeps_same. intros p. unfold Page.frame_at. by destruct (_ !! _). Qed.

Lemma load_keeps X id : keeps X (Page.load id).
Proof.
  apply keeps_same. intros p. unfold Page.load.
  by destruct (read_block _ _ _) as [[]?].
Qed.

Lemma lift_keeps {A} X (o : outcome StorageError A) : keeps X (Page.lift o).
Proof. by apply keeps_same. Qed.

Ltac keeps_all :=
  repeat first [apply frame_at_keeps | apply load_keeps | apply lift_keeps | progress keeps].

Lemma evict_keeps X : keeps X Page.evict.
Proof. unfold Page.evict. keeps_all. Qed.

Lemma acquire_frame_keeps X : keeps X Page.acquire_frame.
Proof.
  unfold Page.acquire_frame. apply keeps_bind; [keeps_all|]. intros p0.
  destruct (position _ _); [keeps_all|]. apply keeps_decide.
  - apply keeps_bind; [|intros; keeps_all]. intros p r p' E Hp i f Hf Hm.
    injection E as <- <-. simpl in Hf.
    apply lookup_app_Some in Hf as [Hf|[_ Hf]]; [by eapply Hp|].
    destruct (i - _); [|done]. injection Hf as <-. by destruct Hm.
  - apply keeps_bind; [apply evict_keeps|]. intros v. keeps_all.
Qed.

Lemma reserve_keeps X id : keeps X (Page.reserve id).
Proof.
  unfold Page.reserve. apply keeps_bind; [keeps_all|]. intros p0.
  destruct (Page.find p0 id); [keeps_all|].
  apply keeps_bind; [apply acquire_frame_keeps|]. intros. keeps_all.
Qed.

Lemma fetch_miss_keeps X id : keeps X (Page.fetch_miss id).
Proof.
  unfold Page.fetch_miss. apply keeps_bind; [apply acquire_frame_keeps|]. intros idx.
  keeps_all.
Qed.

Lemma pin_frame_keeps X idx : keeps X (Page.pin_frame idx).
Proof.
  apply keeps_modify. intros f. unfold marked. simpl. intros Hm. split; [|done]. right.
  destruct Hm as [Hm|Hm]; [|done]. by destruct (Page.state f).
Qed.

Lemma touch_keeps X idx : keeps X (Page.touch idx).
Proof. by apply keeps_same. Qed.

Lemma fetch_keeps X id : keeps X (Page.fetch id).
Proof.
  unfold Page.fetch. apply keeps_bind; [keeps_all|]. intros p0.
  destruct (Page.find p0 id).
  - apply keeps_bind; [apply pin_frame_keeps|]. intros. apply keeps_bind; [apply touch_keeps|intros; keeps_all].
  - apply keeps_bind; [apply fetch_miss_keeps|]. intros. apply keeps_bind; [apply touch_keeps|intros; keeps_all].
Qed.

Lemma unpin_keeps X id : keeps X (Page.unpin id).
Proof.
  unfold Page.unpin. apply keeps_bind; [keeps_all|]. intros p0.
  destruct (Page.find p0 id); [|keeps_all]. apply keeps_modify. intros f.
  unfold marked, Page.unpinned. destruct (Page.state f) eqn:Es; simpl; rewrite ?Es; try done; try tauto.
  case_decide; simpl; [intuition congruence|].
  destruct (Page.dirty_intent f) eqn:Ed; simpl; rewrite ?Ed; intuition congruence.
Qed.

Lemma write_frame_keeps X idx data : keeps X (Page.write_frame idx data).
Proof.
  unfold Page.write_frame. apply keeps_decide; [|keeps_all]. by apply keeps_modify.
Qed.

(** [fetch_mut] marks the frame of its block. *)
Lemma fetch_mut_keeps (X : Z -> Prop) id p r p' :
  pool_wf p -> valid_id id -> Page.fetch_mut id p = (r, p') ->
  (is_ok r = true -> X id) -> marked_in X p -> marked_in X p'.
Proof.
  intros Hwf Hid E HX Hp. destruct (fetch_mut_spec p id r p' Hwf Hid E) as (_ & _ & Hr).
  unfold Page.fetch_mut in E. rewrite (bind_ok m_get _ p p p) in E by done. cbv beta in E.
  set (m1 := match Page.find p id with Some idx => _ | None => _ end) in E.
  assert (Hk : keeps X m1).
  { unfold m1. destruct (Page.find p id); [|apply fetch_miss_keeps].
    apply keeps_bind; [apply pin_frame_keeps|intros; keeps_all]. }
  unfold mbind at 1, M_bind at 1 in E.
  destruct (m1 p) as [[idx|err|] p1] eqn:E1; assert (H1 := Hk _ _ _ E1 Hp).
  2,3: by injection E as <- <-.
  rewrite (bind_ok (Page.touch idx) _ p1 tt _ eq_refl) in E.
  set (p2 := Page.with_lru _ p1) in E. assert (H2 : marked_in X p2) by exact H1.
  unfold Page.mark_dirty_pinned, Page.modify_frame, mbind, M_bind in E.
  destruct (Page.frames p2 !! idx) as [f|] eqn:Ef; injection E as <- <-; [|done].
  destruct Hr as (g & Hg & Hb & _). simpl in Hg.
  rewrite list_lookup_insert_eq in Hg by by apply lookup_lt_Some in Ef.
  injection Hg as <-. simpl in Hb.
  intros i h Hh Hm. simpl in Hh.
  apply list_lookup_insert_Some in Hh as [(-> & <- & _)|[_ Hh]]; [|by eapply H2].
  simpl. rewrite Hb. by apply HX.
Qed.

(** ** Flushing writes only marked blocks *)

Definition flush_inv d0 X p : Prop :=
  dev_ok (Page.device p) /\ marked_in X p /\ dev_steps X d0 (Page.device p) /\
  (forall i f, Page.frames p !! i = Some f -> marked f -> (0 <= Page.block_id f)%Z).

Lemma flush_frame_inv d0 X idx p r p' :
  flush_inv d0 X p -> Page.flush_frame idx p = (r, p') -> flush_inv d0 X p'.
Proof.
  intros (Hok & Hmk & Hst & Hpos) E. unfold Page.flush_frame in E.
  unfold mbind at 1, M_bind at 1, Page.frame_at in E.
  destruct (Page.frames p !! idx) as [f|] eqn:Ef; [|by injection E as <- <-].
  destruct (Page.needs_flush f) eqn:Hn; [|by injection E as <- <-].
  assert (Hm : marked f).
  { unfold Page.needs_flush in Hn. apply orb_true_iff in Hn as [Hn|Hn].
    - left. by apply bool_decide_eq_true in Hn.
    - right. by apply andb_true_iff in Hn as [Hn _]. }
  assert (HX := Hmk _ _ Ef Hm). assert (H0i := Hpos _ _ Ef Hm).
  unfold mbind at 1, M_bind at 1, Page.lift in E.
  destruct (Page.encode_page_block (Page.page f)) as [blk|e|]; [|by injection E as <- <-..].
  unfold mbind, M_bind, Page.on_device in E.
  destruct (write_block (Page.block_id f) blk (Page.device p)) as [rw d'] eqn:Ew.
  assert (Hst' : dev_steps X d0 d') by by eapply ds_write.
  assert (Hok' : dev_ok d')
    by (apply (dev_steps_untouched X (Page.device p)); [done|]; eapply ds_write; [constructor|done..]).
  destruct rw as [[]|e|]; [|by injection E as <- <-..].
  unfold Page.modify_frame in E. simpl in E. rewrite Ef in E. injection E as <- <-.
  assert (Hfl : forall i h, <[idx := Page.flushed f]> (Page.frames p) !! i = Some h ->
    marked h -> Page.frames p !! i = Some h).
  { intros i h Hh Hmh. apply list_lookup_insert_Some in Hh as [(-> & <- & _)|[_ Hh]]; [|done].
    exfalso. unfold Page.flushed, marked in Hmh. case_decide; simpl in Hmh; destruct Hmh; done. }
  split; [done|]. split; [|split; [done|]]; intros i h Hh Hmh; [eapply Hmk|eapply Hpos];
    try done; by eapply Hfl.
Qed.

Lemma flush_from_inv d0 X n : forall a p r p',
  flush_inv d0 X p -> Page.flush_from a n p = (r, p') -> flush_inv d0 X p'.
Proof.
  induction n as [|n IH]; intros a p r p' Hp E; simpl in E; [by injection E as <- <-|].
  unfold mbind, M_bind in E. destruct (Page.flush_frame a p) as [r1 p1] eqn:E1.
  assert (H1 := flush_frame_inv _ _ _ _ _ _ Hp E1).
  destruct r1; [by eapply IH in E|by injection E as <- <-..].
Qed.

Lemma flush_all_inv d0 X p r p' :
  flush_inv d0 X p -> Page.flush_all p = (r, p') -> flush_inv d0 X p'.
Proof.
  intros Hp E. unfold Page.flush_all in E.
  rewrite (bind_ok m_get _ p p p) in E by done. cbv beta in E.
  unfold mbind, M_bind in E. destruct (Page.flush_from _ _ p) as [r1 p1] eqn:E1.
  assert (H1 := flush_from_inv _ _ _ _ _ _ _ Hp E1).
  destruct r1; [|by injection E as <- <-..]. unfold Page.on_device in E.
  destruct (sync (Page.device p1)) as [rs ds] eqn:Es. injection E as <- <-.
  destruct H1 as (Hok & Hmk & Hst & Hpos).
  destruct (law_sync _ _ _ Hok Es) as (_ & Hok' & _).
  split; [done|]. split; [done|]. split; [by eapply ds_sync|done].
Qed.

(** ** The engine's state is determined by its log *)

Definition rec_fine d0 (r : Wal.WalRecord) : Prop :=
  Wal.rec_wf r /\
  (Wal.kind r = Wal.PageWrite ->
   length (Wal.payload r) = PAGE_SIZE /\ in_range d0 (Wal.block_id r)).

Record eng_ok d0 (rs : list Wal.WalRecord) e : Prop := {
  eo_wf : pool_wf (pool e);
  eo_steal : Page.steal (pool e) = false;
  eo_bytes : Wal.bytes (wal e) = Wal.log_of rs;
  eo_lsn : is_u64 (Wal.next_lsn (wal e));
  eo_recs : Forall (rec_fine d0) rs;
  eo_count : block_count (Page.device (pool e)) = block_count d0;
  eo_view : forall id, valid_id id ->
    view (pool e) id = overlay (all_writes rs) (dview d0) id;
  eo_marked : marked_in (targets (all_writes rs)) (pool e);
}.

Lemma eng_ok_wf_log d0 rs e : eng_ok d0 rs e -> Forall Wal.rec_wf rs.
Proof. intros [_ _ _ _ Hr _ _ _]. eapply Forall_impl; [exact Hr|]. by intros r [Hwf _]. Qed.

Lemma new_engine d cap e :
  dev_ok d -> new d cap = Ok e -> eng_ok d [] e /\ Page.device (pool e) = d.
Proof.
  intros Hd E. unfold new in E.
  destruct (Page.new d cap) as [p| |] eqn:Ep; [|done..]. injection E as <-.
  destruct (new_spec d cap p Hd Ep) as (Hwf & Hv & Hdev).
  split; [|done]. split; simpl; try done.
  - by apply no_steal_wf.
  - by rewrite Hdev.
  - intros id Hid. apply Hv.
  - unfold Page.new in Ep. case_decide; [|done]. injection Ep as <-. intros i f Hf. done.
Qed.

(** A step of the pool that keeps its pages. *)
Lemma eng_ok_pool d0 rs e p' :
  eng_ok d0 rs e -> pool_wf p' -> same_pages (pool e) p' ->
  marked_in (targets (all_writes rs)) p' ->
  eng_ok d0 rs {| pool := p'; wal := wal e |}.
Proof.
  intros [E1 E2 E3 E4 E5 E6 E7 E8] Hwf (_ & Hst & Hcnt & Hv) Hm. split; simpl; try done.
  - congruence.
  - congruence.
  - intros id Hid. rewrite Hv by done. auto.
Qed.

Lemma read_page_spec d0 rs e id r e' :
  eng_ok d0 rs e -> valid_id id -> read_page id e = (r, e') ->
  eng_ok d0 rs e' /\ Page.device (pool e') = Page.device (pool e) /\
  wal e' = wal e /\
  match r with
  | Ok pg => overlay (all_writes rs) (dview d0) id = Some pg
  | Err _ => True
  | Panic => False
  end.
Proof.
  intros He Hid E. unfold read_page in E. unfold mbind at 1, M_bind at 1, on_pool at 1 in E.
  destruct (Page.fetch id (pool e)) as [rf pf] eqn:Ef.
  destruct (fetch_spec _ _ _ _ (eo_wf _ _ _ He) Hid Ef) as (Hwf & Hsv & Hr).
  assert (Hmk := fetch_keeps _ _ _ _ _ Ef (eo_marked _ _ _ He)).
  assert (He' := eng_ok_pool d0 rs e pf He Hwf (same_view_pages _ _ Hsv) Hmk).
  assert (Hdev : Page.device pf = Page.device (pool e)).
  { destruct Hsv as (_ & _ & _ & Hs & _). apply Hs, (eo_steal _ _ _ He). }
  destruct rf as [idx|err|]; [| |done].
  2: { injection E as <- <-. done. }
  destruct Hr as (f & Hf & _ & _ & Hv).
  unfold mbind, M_bind, on_pool, Page.frame_at in E. simpl in E. rewrite Hf in E.
  injection E as <- <-. split; [done|]. split; [done|]. split; [done|].
  by rewrite <- (eo_view _ _ _ He id Hid).
Qed.

(** The log after one more record. *)
Lemma wal_append_ok w rs k blk data w' z :
  Wal.bytes w = Wal.log_of rs -> is_u64 (Wal.next_lsn w) ->
  Wal.append (E:=StorageError) k blk data w = (Ok z, w') ->
  let rec := Wal.mkRecord (Wal.next_lsn w) k blk data in
  Wal.bytes w' = Wal.log_of (rs ++ [rec]) /\ is_u64 (Wal.next_lsn w').
Proof.
  intros Hb Hl E rec. rewrite Wal.append_spec in E. injection E as _ <-. simpl.
  rewrite Hb, Wal.log_of_app. split.
  - f_equal. unfold Wal.log_of. simpl. by rewrite app_nil_r.
  - unfold is_u64, wrap64. apply Z.mod_pos_bound. lia.
Qed.

Lemma valid_in_range d id : dev_ok d -> in_range d id -> valid_id id.
Proof.
  intros Hd [H1 H2]. assert (Hc := law_count d Hd). split; [done|].
  unfold Page.BLOCK_ID_MAX. lia.
Qed.

Lemma in_range_u64 d id : dev_ok d -> in_range d id -> is_u64 id.
Proof. intros Hd [H1 H2]. assert (Hc := law_count d Hd). unfold is_u64. lia. Qed.

Lemma page_rec_wf lsn id page d :
  dev_ok d -> in_range d id -> is_u64 lsn -> length page = PAGE_SIZE ->
  Wal.rec_wf (Wal.mkRecord lsn Wal.PageWrite id page).
Proof.
  intros Hd Hid Hl Hp. split; [done|]. split; [by eapply in_range_u64|].
  cbn [Wal.payload]. rewrite Hp. unfold is_u32, Wal.HEADER_LEN. assert (Hz := PAGE_SIZE_Z). lia.
Qed.

Lemma commit_rec_wf lsn : is_u64 lsn -> Wal.rec_wf (Wal.mkRecord lsn Wal.Commit 0 []).
Proof. intros Hl. split; [done|]. split; [done|]. done. Qed.

(** Putting a page of block [id] in the frame of that block. *)
Lemma write_page_ok_pool d0 rs e (rec : Wal.WalRecord) p' w' id page :
  eng_ok d0 rs e -> rec_fine d0 rec -> image rec = [(id, page)] ->
  pool_wf p' -> Page.steal p' = false ->
  block_count (Page.device p') = block_count d0 ->
  (forall j, valid_id j ->
     view p' j = if decide (j = id) then Some page else view (pool e) j) ->
  marked_in (targets (all_writes (rs ++ [rec]))) p' ->
  Wal.bytes w' = Wal.log_of (rs ++ [rec]) -> is_u64 (Wal.next_lsn w') ->
  eng_ok d0 (rs ++ [rec]) {| pool := p'; wal := w' |}.
Proof.
  intros [E1 E2 E3 E4 E5 E6 E7 E8] Hrec Himg Hwf Hst Hcnt Hv Hm Hb Hl.
  split; simpl; try done.
  - apply Forall_app. split; [done|by constructor; [|constructor]].
  - intros j Hj. rewrite all_writes_app, overlay_app. unfold all_writes at 1. simpl.
    rewrite Himg. simpl. unfold overlay1. simpl. rewrite Hv by done.
    case_decide; [done|]. auto.
Qed.

Lemma targets_snoc rs rec id :
  targets (all_writes rs) id -> targets (all_writes (rs ++ [rec])) id.
Proof.
  apply targets_prefix. rewrite all_writes_app. by apply prefix_app_r.
Qed.

Lemma targets_new rs rec id page :
  image rec = [(id, page)] -> targets (all_writes (rs ++ [rec])) id.
Proof.
  intros Hi. unfold targets. rewrite all_writes_app, map_app. apply elem_of_app. right.
  unfold all_writes. simpl. rewrite Hi. left.
Qed.

Lemma marked_in_impl (X Y : Z -> Prop) p :
  (forall i, X i -> Y i) -> marked_in X p -> marked_in Y p.
Proof. intros HXY Hm i f Hf Hmk. apply HXY. by eapply Hm. Qed.

(** [stage]: on success the page is in its frame; on failure the log is as it
    was before the record. *)
Lemma stage_spec d0 rs e e1 id page r e' :
  eng_ok d0 rs e -> pool e1 = pool e -> in_range d0 id -> dev_ok d0 ->
  length page = PAGE_SIZE ->
  let rec := Wal.mkRecord (Wal.next_lsn (wal e)) Wal.PageWrite id page in
  Wal.bytes (wal e1) = Wal.log_of (rs ++ [rec]) -> is_u64 (Wal.next_lsn (wal e1)) ->
  stage id page (length (Wal.bytes (wal e))) (Wal.next_lsn (wal e)) e1 = (r, e') ->
  Page.device (pool e') = Page.device (pool e) /\
  match r with
  | Ok _ => eng_ok d0 (rs ++ [rec]) e'
  | Err _ => eng_ok d0 rs e'
  | Panic => False
  end.
Proof.
  intros He Hp1 Hr Hd Hlen rec Hb1 Hl1 E.
  assert (Hid := valid_in_range d0 id Hd Hr).
  assert (Himg : image rec = [(id, page)])
    by (unfold image, rec; simpl; by rewrite decide_True).
  unfold stage, on_pool at 1 in E. rewrite Hp1 in E.
  destruct (Page.fetch_mut id (pool e)) as [rf pf] eqn:Ef.
  destruct (fetch_mut_spec _ _ _ _ (eo_wf _ _ _ He) Hid Ef) as (Hwf & Hsv & Hrf).
  assert (Hmk : marked_in (targets (all_writes (rs ++ [rec]))) pf).
  { eapply fetch_mut_keeps; [apply He|exact Hid|exact Ef|intros _; by eapply targets_new|].
    eapply marked_in_impl; [|apply He]. intros i. apply targets_snoc. }
  destruct Hsv as (Hcap & Hst & Hcnt & Hdev & Hv). specialize (Hdev (eo_steal _ _ _ He)).
  destruct rf as [idx|err|]; [| |done].
  - destruct Hrf as (f & Hf & Hbf & Hpin & Hdi & _).
    destruct (write_frame_spec pf idx f page Hwf Hf Hdi) as (Hw & Hwf2 & Hdev2 & Hv2);
      [rewrite Hbf; apply Hid|done|].
    unfold on_pool in E. cbn [pool] in E. rewrite (bind_ok _ _ _ _ _ Hw) in E.
    assert (Hmk2 := write_frame_keeps _ _ _ _ _ _ Hw Hmk).
    set (p2 := Page.with_frames _ pf) in *.
    destruct (Page.unpin id p2) as [ru pu] eqn:Eu.
    destruct (unpin_spec p2 id ru pu Hwf2 Hid Eu) as (-> & Hwf3 & Hsv3 & _).
    assert (Hmk3 := unpin_keeps _ _ _ _ _ Eu Hmk2).
    injection E as <- <-. destruct Hsv3 as (_ & Hst3 & Hcnt3 & Hdev3 & Hv3).
    assert (Hst2 : Page.steal p2 = false) by (change (Page.steal pf = false); rewrite Hst; apply He).
    split; [simpl; rewrite (Hdev3 Hst2), Hdev2; done|].
    apply (write_page_ok_pool d0 rs e rec pu (wal e1) id page); try done.
    + split; [by eapply page_rec_wf; [..|apply He|]|done].
    + congruence.
    + rewrite (Hdev3 Hst2), Hdev2, Hdev. apply He.
    + intros j Hj. rewrite Hv3, Hv2 by done. rewrite Hbf. by rewrite Hv.
  - unfold mbind, M_bind, on_wal, m_modify, m_err in E. simpl in E. injection E as <- <-.
    simpl. split; [done|].
    assert (Htr : Wal.truncate (length (Wal.bytes (wal e))) (Wal.next_lsn (wal e)) (wal e1) = wal e).
    { unfold Wal.truncate. rewrite Hb1, (eo_bytes _ _ _ He), Wal.log_of_app, take_app_length.
      rewrite <- (eo_bytes _ _ _ He). by destruct (wal e). }
    rewrite Htr. apply eng_ok_pool; [done|done|by split_and!|].
    eapply fetch_mut_keeps; [apply He|exact Hid|exact Ef|done|apply He].
Qed.

Lemma write_page_spec d0 rs e id page r e' :
  eng_ok d0 rs e -> dev_ok d0 -> (0 <= id)%Z -> write_page id page e = (r, e') ->
  Page.device (pool e') = Page.device (pool e) /\
  match r with
  | Ok _ => length page = PAGE_SIZE /\ in_range d0 id /\
      eng_ok d0 (rs ++ [Wal.mkRecord (Wal.next_lsn (wal e)) Wal.PageWrite id page]) e'
  | Err _ => eng_ok d0 rs e'
  | Panic => False
  end.
Proof.
  intros He Hd Hid0 E. unfold write_page in E.
  case_decide as Hl; [injection E as <- <-; done|].
  rewrite (bind_ok m_get _ e e e) in E by done. cbv beta zeta in E.
  case_decide as Hc; [injection E as <- <-; done|].
  assert (Hr : in_range d0 id) by (split; [done|]; rewrite <- (eo_count _ _ _ He); lia).
  assert (Hid := valid_in_range d0 id Hd Hr).
  unfold mbind at 1, M_bind at 1, on_pool at 1 in E.
  destruct (Page.reserve id (pool e)) as [rr pr] eqn:Er.
  destruct (reserve_spec _ _ _ _ (eo_wf _ _ _ He) Hid Er) as (Hwf & Hsv & Hnp).
  assert (Hmk := reserve_keeps _ _ _ _ _ Er (eo_marked _ _ _ He)).
  assert (He1 := eng_ok_pool d0 rs e pr He Hwf (same_view_pages _ _ Hsv) Hmk).
  assert (Hdev : Page.device pr = Page.device (pool e)).
  { destruct Hsv as (_ & _ & _ & Hs & _). apply Hs, (eo_steal _ _ _ He). }
  destruct rr as [[]|err|]; [| |done].
  2: { injection E as <- <-. done. }
  set (e1 := {| pool := pr; wal := wal e |}) in *.
  rewrite (bind_ok m_get _ e1 e1 e1) in E by done. cbv beta zeta in E.
  unfold mbind, M_bind, on_wal in E.
  destruct (Wal.append Wal.PageWrite id page (wal e1)) as [ra w1] eqn:Ea.
  assert (Hra : ra = Ok (Wal.next_lsn (wal e))).
  { rewrite Wal.append_spec in Ea. by injection Ea as <- _. }
  subst ra. destruct (wal_append_ok _ rs _ _ _ _ _ (eo_bytes _ _ _ He1) (eo_lsn _ _ _ He1) Ea)
    as [Hb1 Hl1].
  destruct (stage_spec d0 rs e1 {| pool := pr; wal := w1 |} id page r e' He1 eq_refl Hr Hd Hl
    Hb1 Hl1 E) as [Hde Hres].
  split; [by rewrite Hde|]. destruct r; done.
Qed.

Lemma append_commit_spec d0 rs e :
  eng_ok d0 rs e ->
  exists e', append_commit e = (Ok tt, e') /\ pool e' = pool e /\
    eng_ok d0 (rs ++ [Wal.mkRecord (Wal.next_lsn (wal e)) Wal.Commit 0 []]) e'.
Proof.
  intros He. unfold append_commit, on_wal, mbind, M_bind.
  destruct (Wal.append Wal.Commit 0 [] (wal e)) as [ra w1] eqn:Ea.
  assert (Hra : ra = Ok (Wal.next_lsn (wal e))).
  { rewrite Wal.append_spec in Ea. by injection Ea as <- _. }
  subst ra. destruct (wal_append_ok _ rs _ _ _ _ _ (eo_bytes _ _ _ He) (eo_lsn _ _ _ He) Ea)
    as [Hb1 Hl1].
  eexists. split; [reflexivity|]. split; [done|].
  assert (Haw : forall r, all_writes (rs ++ [Wal.mkRecord r Wal.Commit 0 []]) = all_writes rs).
  { intros r. rewrite all_writes_app. unfold all_writes at 2. simpl. by rewrite app_nil_r. }
  destruct He as [E1 E2 E3 E4 E5 E6 E7 E8]. split; simpl; try done; rewrite ?Haw; try done.
  apply Forall_app. split; [done|]. constructor; [|constructor]. split; [|done].
  by apply commit_rec_wf.
Qed.

Lemma flush_data_spec d0 rs e r e' :
  eng_ok d0 rs e -> flush_data e = (r, e') ->
  r <> Panic /\ wal e' = wal e /\ eng_ok d0 rs e' /\
  dev_steps (targets (all_writes rs)) (Page.device (pool e)) (Page.device (pool e')) /\
  (r = Ok tt -> forall id, valid_id id ->
     dview (Page.device (pool e')) id = overlay (all_writes rs) (dview d0) id).
Proof.
  intros He E. unfold flush_data, on_pool in E.
  destruct (Page.flush_all (pool e)) as [rf pf] eqn:Ef. injection E as <- <-.
  destruct (flush_all_spec _ _ _ (eo_wf _ _ _ He) Ef) as (Hwf & Hsp & Hnp & Hok).
  assert (Hinv : flush_inv (Page.device (pool e)) (targets (all_writes rs)) pf).
  { eapply flush_all_inv; [|exact Ef]. split; [apply He|]. split; [apply He|].
    split; [constructor|]. intros i f Hf Hm. destruct (eo_wf _ _ _ He) as [Hc _].
    destruct (pc_frames _ Hc i f Hf) as [F1 F2 F3 F4 F5 F6].
    destruct (decide (Page.block_id f = Page.BLOCK_ID_MAX)) as [Hx|Hx];
      [rewrite Hx; done|]. apply F5. done. }
  destruct Hinv as (_ & Hmk & Hst & _).
  split; [done|]. split; [done|]. split; [by apply eng_ok_pool|]. split; [done|].
  intros -> id Hid. simpl. rewrite Hok by done. by apply (eo_view _ _ _ He).
Qed.

Lemma commit_durable_spec {W} (persist : list byte -> M W StorageError unit) d0 rs e w r e' w' :
  eng_ok d0 rs e -> commit_durable persist (e, w) = (r, (e', w')) ->
  let rs' := rs ++ [Wal.mkRecord (Wal.next_lsn (wal e)) Wal.Commit 0 []] in
  match persist (Wal.log_of rs') w with
  | (Ok _, w1) => w' = w1 /\ eng_ok d0 rs' e' /\ r <> Panic /\
      dev_steps (targets (all_writes rs)) (Page.device (pool e)) (Page.device (pool e')) /\
      (r = Ok tt -> forall id, valid_id id ->
         dview (Page.device (pool e')) id = overlay (all_writes rs) (dview d0) id)
  | (Err err, w1) => r = Err err /\ w' = w1 /\ e' = e
  | (Panic, w1) => r = Panic
  end.
Proof.
  intros He E rs'. unfold commit_durable in E.
  destruct (append_commit_spec d0 rs e He) as (e1 & Ha & Hp1 & He1). rewrite Ha in E.
  fold rs' in He1. unfold Wal.as_bytes in E. rewrite (eo_bytes _ _ _ He1) in E.
  assert (Haw : all_writes rs' = all_writes rs).
  { unfold rs'. rewrite all_writes_app. unfold all_writes at 2. simpl. by rewrite app_nil_r. }
  destruct (persist (Wal.log_of rs') w) as [[[]|err|] w1].
  - destruct (flush_data e1) as [rf ef] eqn:Ef. injection E as <- <- <-.
    destruct (flush_data_spec d0 rs' e1 rf ef He1 Ef) as (H1 & _ & H3 & H4 & H5).
    rewrite Haw, Hp1 in H4. rewrite Haw in H5. done.
  - unfold on_wal, m_modify in E. injection E as <- <- <-. split; [done|]. split; [done|].
    rewrite Hp1. destruct e as [p w0]. f_equal. simpl.
    unfold Wal.truncate. rewrite (eo_bytes _ _ _ He1). unfold rs'.
    rewrite Wal.log_of_app, <- (eo_bytes _ _ _ He). simpl. rewrite take_app_length.
    by destruct w0.
  - by injection E as <- _ _.
Qed.

(** ** Recovery *)

Lemma untouched_refl d X : untouched d X d.
Proof. done. Qed.

Lemma untouched_trans d0 d1 d2 X :
  untouched d0 X d1 -> untouched d1 X d2 -> untouched d0 X d2.
Proof. intros [H1 H2] [H3 H4]. split; [congruence|]. intros j Hj HX. rewrite H4, H2; done. Qed.

Lemma untouched_mono d0 (X Y : Z -> Prop) d :
  (forall j, X j -> Y j) -> untouched d0 X d -> untouched d0 Y d.
Proof. intros HXY [H1 H2]. split; [done|]. intros j Hj HY. apply H2; auto. Qed.

Lemma untouched_dview d0 X d id :
  untouched d0 X d -> (0 <= id)%Z -> ~ X id -> dview d id = dview d0 id.
Proof. intros [Hc Hb] Hid HX. by apply dview_ext; [|apply Hb]. Qed.

(** A write [recover] can apply. *)
Definition write_fine (w : Z * list byte) : Prop :=
  (0 <= fst w)%Z /\ length (snd w) = PAGE_SIZE.

Lemma apply_write_spec w s :
  dev_ok (r_dev s) -> write_fine w ->
  exists d n, apply_write w s = (Ok tt, mkReplay d (r_pending s) (r_applied s + n)) /\
    n <= 1 /\ dev_steps (fun j => j = fst w) (r_dev s) d /\
    (n = 1 -> dview d (fst w) = Some (snd w)).
Proof.
  intros Hok [Hid Hlen]. unfold apply_write.
  destruct (encode_page_block_ok (snd w) Hlen) as (blk & He & Hbl & Hdec). rewrite He.
  destruct (write_block (fst w) blk (r_dev s)) as [rw d] eqn:Ew.
  assert (Hst : dev_steps (fun j => j = fst w) (r_dev s) d)
    by (eapply ds_write; [constructor|done..]).
  destruct rw as [[]|err|].
  - destruct (law_write_ok _ _ _ _ Hok Hid Ew) as (Hlt & _ & Hok' & Hc & Hb & Hoth).
    exists d, 1. split; [done|]. split; [done|]. split; [done|].
    intros _. rewrite dview_in by (split; [done|]; congruence). by rewrite Hb, Hdec.
  - exists d, 0. rewrite Nat.add_0_r. split; [done|]. split; [lia|]. done.
  - exfalso. apply (law_write_no_panic _ (fst w) blk Hok Hid). by rewrite Ew.
Qed.

Lemma apply_writes_spec ws : forall s,
  dev_ok (r_dev s) -> Forall write_fine ws ->
  exists d n, apply_writes ws s = (Ok tt, mkReplay d (r_pending s) (r_applied s + n)) /\
    n <= length ws /\ dev_steps (targets ws) (r_dev s) d /\
    (n = length ws -> forall id, (0 <= id)%Z -> dview d id = overlay ws (dview (r_dev s)) id).
Proof.
  induction ws as [|w ws IH]; intros s Hok Hws.
  { exists (r_dev s), 0. rewrite Nat.add_0_r. destruct s. split_and!; try done. constructor. }
  inversion Hws as [|? ? Hw Hws']; subst.
  destruct (apply_write_spec w s Hok Hw) as (d1 & n1 & E1 & Hn1 & Hst1 & Hv1).
  destruct (dev_steps_untouched _ _ _ Hok Hst1) as [Hok1 Hun1].
  destruct (IH (mkReplay d1 (r_pending s) (r_applied s + n1)) Hok1 Hws')
    as (d2 & n2 & E2 & Hn2 & Hst2 & Hv2). simpl in E2, Hst2, Hv2.
  exists d2, (n1 + n2). split.
  { simpl. rewrite (bind_ok _ _ _ _ _ E1), E2. by rewrite Nat.add_assoc. }
  split; [simpl; lia|]. split.
  - eapply dev_steps_trans.
    + eapply dev_steps_mono; [|exact Hst1]. intros j ->. left.
    + eapply dev_steps_mono; [|exact Hst2]. intros j Hj. by right.
  - intros Hn id Hid. simpl in Hn. rewrite Hv2 by (done || lia). simpl.
    apply overlay_ext. intros _. unfold overlay1. case_decide as Hc.
    + subst id. apply Hv1. lia.
    + by apply (untouched_dview _ _ _ _ Hun1).
Qed.

(** The pending writes that the records leave. *)
Fixpoint pending_from (pend : list (Z * list byte)) (rs : list Wal.WalRecord)
    : list (Z * list byte) :=
  match rs with
  | [] => pend
  | r :: rs' => pending_from (if is_marker r then [] else pend ++ image r) rs'
  end.

Lemma image_fine r : Wal.rec_wf r -> Forall write_fine (image r).
Proof.
  intros (_ & Hb & _). unfold image. destruct (Wal.kind r); try constructor.
  case_decide; constructor; [|constructor]. split; [|done]. apply Hb.
Qed.

Lemma replay_record_write r s :
  is_marker r = false ->
  replay_record r s = (Ok tt, mkReplay (r_dev s) (r_pending s ++ image r) (r_applied s)).
Proof.
  unfold is_marker, replay_record, image. destruct (Wal.kind r); try done. intros _.
  case_decide; [done|]. rewrite app_nil_r. by destruct s.
Qed.

Lemma replay_record_marker r s :
  is_marker r = true ->
  replay_record r s = apply_writes (r_pending s) (mkReplay (r_dev s) [] (r_applied s)).
Proof. unfold is_marker, replay_record. by destruct (Wal.kind r). Qed.

Lemma replay_records rs : forall s,
  dev_ok (r_dev s) -> Forall write_fine (r_pending s) -> Forall Wal.rec_wf rs ->
  let ws := committed_from (r_pending s) rs in
  exists d n,
    foldl replay_step (Ok tt, s) rs =
      (Ok tt, mkReplay d (pending_from (r_pending s) rs) (r_applied s + n)) /\
    n <= length ws /\ dev_steps (targets ws) (r_dev s) d /\
    (n = length ws -> forall id, (0 <= id)%Z -> dview d id = overlay ws (dview (r_dev s)) id).
Proof.
  induction rs as [|r rs IH]; intros s Hok Hp Hrs ws.
  { exists (r_dev s), 0. rewrite Nat.add_0_r. destruct s. split_and!; try done. constructor. }
  inversion Hrs as [|? ? Hr Hrs']; subst. unfold ws. clear ws. simpl.
  destruct (is_marker r) eqn:Er.
  - rewrite replay_record_marker by done.
    destruct (apply_writes_spec (r_pending s) (mkReplay (r_dev s) [] (r_applied s)) Hok Hp)
      as (d1 & n1 & E1 & Hn1 & Hst1 & Hv1). simpl in E1, Hst1, Hv1. rewrite E1.
    destruct (dev_steps_untouched _ _ _ Hok Hst1) as [Hok1 _].
    destruct (IH (mkReplay d1 [] (r_applied s + n1)) Hok1 ltac:(constructor) Hrs')
      as (d2 & n2 & E2 & Hn2 & Hst2 & Hv2). simpl in E2, Hn2, Hst2, Hv2.
    exists d2, (n1 + n2). rewrite E2, Nat.add_assoc. split; [done|].
    rewrite length_app. split; [lia|]. split.
    + eapply dev_steps_trans; (eapply dev_steps_mono; [|eassumption]); intros j Hj;
        unfold targets in *; rewrite map_app, elem_of_app; auto.
    + intros Hn id Hid. rewrite Hv2 by (done || lia). rewrite overlay_app.
      apply overlay_ext. intros _. apply Hv1; [lia|done].
  - rewrite replay_record_write by done.
    destruct (IH (mkReplay (r_dev s) (r_pending s ++ image r) (r_applied s)))
      as (d2 & n2 & E2 & Hrest); [done| |done|].
    { apply Forall_app. split; [done|]. by apply image_fine. }
    exists d2, n2. split; done.
Qed.

(** [recover] never fails, touches only committed blocks, and when every device
    write went through the device shows exactly the committed writes. *)
Lemma recover_spec e bs rs tail :
  dev_ok (Page.device (pool e)) -> Wal.parses bs rs tail ->
  exists d n,
    recover bs e = (Ok n, {| pool := Page.with_device d (pool e);
                             wal := {| Wal.bytes := Wal.log_of rs;
                                       Wal.next_lsn := Wal.lsn_after rs |} |}) /\
    n <= length (committed rs) /\
    dev_steps (targets (committed rs)) (Page.device (pool e)) d /\
    (n = length (committed rs) -> forall id, (0 <= id)%Z ->
       dview d id = overlay (committed rs) (dview (Page.device (pool e))) id).
Proof.
  intros Hok Hp. assert (Hrs : Forall Wal.rec_wf rs) by apply Hp.
  unfold recover. rewrite (Wal.from_bytes_parses _ _ _ Hp).
  rewrite (Wal.replay_parses _ _ rs []) by by apply Wal.log_parses.
  destruct (replay_records rs (mkReplay (Page.device (pool e)) [] 0) Hok ltac:(constructor) Hrs)
    as (d & n & E & Hn & Hst & Hv). simpl in E, Hn, Hst, Hv.
  rewrite E. exists d, n. done.
Qed.

(** Every write to a block of the device goes through. *)
Definition writes_succeed : Prop :=
  forall (d : D) i data, dev_ok d -> in_range d i -> length data = BLOCK_SIZE -> fst (write_block i data d) = Ok tt.

Lemma apply_writes_all ws : writes_succeed -> forall s, dev_ok (r_dev s) -> Forall write_fine ws ->
  Forall (fun w => in_range (r_dev s) (fst w)) ws ->
  exists d, apply_writes ws s = (Ok tt, mkReplay d (r_pending s) (r_applied s + length ws)) /\
    dev_ok d /\ block_count d = block_count (r_dev s).
Proof.
  intros Hrel. induction ws as [|w ws IH]; intros s Hok Hws Hin.
  { exists (r_dev s). rewrite Nat.add_0_r. by destruct s. }
  inversion Hws as [|? ? [Hid Hl] Hws']; inversion Hin as [|? ? Hr Hin']; subst.
  destruct (encode_page_block_ok (snd w) Hl) as (blk & He & Hbl & _).
  assert (Hw := Hrel (r_dev s) (fst w) blk Hok Hr Hbl).
  destruct (write_block (fst w) blk (r_dev s)) as [rw d1] eqn:Ew. simpl in Hw. subst rw.
  destruct (law_write_ok _ _ _ _ Hok Hid Ew) as (_ & _ & Hok1 & Hc & _).
  destruct (IH (mkReplay d1 (r_pending s) (r_applied s + 1)) Hok1 Hws') as (d & E & Hd & Hcd).
  { eapply Forall_impl; [exact Hin'|]. intros v Hv. unfold in_range in *. simpl. by rewrite Hc. }
  exists d. split; [|split; [done|by rewrite Hcd]]. cbn [apply_writes].
  erewrite bind_ok by (unfold apply_write; rewrite He, Ew; reflexivity). rewrite E. simpl. do 2 f_equal. lia.
Qed.

(** All committed writes are applied, those of a marker together. *)
Lemma replay_all rs : writes_succeed -> forall s,
  dev_ok (r_dev s) -> Forall write_fine (r_pending s) -> Forall Wal.rec_wf rs ->
  Forall (fun w => in_range (r_dev s) (fst w)) (committed_from (r_pending s) rs) ->
  exists d pend, foldl replay_step (Ok tt, s) rs =
    (Ok tt, mkReplay d pend (r_applied s + length (committed_from (r_pending s) rs))).
Proof.
  intros Hrel. induction rs as [|r rs IH]; intros s Hok Hp Hrs Hin.
  { exists (r_dev s), (r_pending s). rewrite Nat.add_0_r. by destruct s. }
  inversion Hrs as [|? ? Hr Hrs']; subst. cbn [committed_from] in Hin |- *. simpl. destruct (is_marker r) eqn:Er.
  - apply Forall_app in Hin as [Hin1 Hin2]. rewrite replay_record_marker by done.
    destruct (apply_writes_all (r_pending s) Hrel (mkReplay (r_dev s) [] (r_applied s)) Hok Hp Hin1)
      as (d1 & E1 & Hok1 & Hc1). rewrite E1. simpl in Hc1.
    destruct (IH (mkReplay d1 [] (r_applied s + length (r_pending s))) Hok1 ltac:(constructor) Hrs') as (d & pend & E).
    { eapply Forall_impl; [exact Hin2|]. intros w. unfold in_range. simpl. by rewrite Hc1. }
    exists d, pend. simpl in E |- *. rewrite E, length_app. do 2 f_equal. lia.
  - rewrite replay_record_write by done.
    apply (IH (mkReplay (r_dev s) (r_pending s ++ image r) (r_applied s))); [done| |done|done].
    apply Forall_app. split; [done|]. by apply image_fine.
Qed.

Lemma recover_all e bs rs tail : writes_succeed ->
  dev_ok (Page.device (pool e)) -> Wal.parses bs rs tail ->
  Forall (fun w => in_range (Page.device (pool e)) (fst w)) (committed rs) ->
  fst (recover bs e) = Ok (length (committed rs)).
Proof.
  intros Hrel Hok Hp Hin. assert (Hrs : Forall Wal.rec_wf rs) by apply Hp.
  unfold recover. rewrite (Wal.from_bytes_parses _ _ _ Hp), (Wal.replay_parses _ _ rs []) by by apply Wal.log_parses.
  destruct (replay_all rs Hrel (mkReplay (Page.device (pool e)) [] 0) Hok ltac:(constructor) Hrs Hin) as (d & pend & E).
  by rewrite E.
Qed.

Lemma committed_in_range d0 rs : Forall (rec_fine d0) rs -> forall pend,
  Forall (fun w => in_range d0 (fst w)) pend -> Forall (fun w => in_range d0 (fst w)) (committed_from pend rs).
Proof.
  induction 1 as [|r rs [_ Hr] Hrs IH]; intros pend Hp; cbn [committed_from]; [constructor|].
  destruct (is_marker r); [apply Forall_app; split; [done|by apply IH]|].
  apply IH, Forall_app. split; [done|]. unfold image. destruct (Wal.kind r); try constructor.
  case_decide; constructor; [by apply Hr|constructor].
Qed.

(** ** Properties *)

(** A page write never touches the device. When it succeeds the log has gained
    exactly its record and the page is seen; when it fails the log and every
    page are as before. *)
Theorem write_page_atomic d0 rs e id page r e' :
  eng_ok d0 rs e -> dev_ok d0 -> (0 <= id)%Z -> write_page id page e = (r, e') ->
  Page.device (pool e') = Page.device (pool e) /\
  match r with
  | Ok _ => exists rec, image rec = [(id, page)] /\ is_marker rec = false /\
      eng_ok d0 (rs ++ [rec]) e' /\ view (pool e') id = Some page
  | Err _ => eng_ok d0 rs e' /\ wal_bytes e' = wal_bytes e /\
      (forall j, valid_id j -> view (pool e') j = view (pool e) j)
  | Panic => False
  end.
Proof.
  intros He Hd Hid E. destruct (write_page_spec d0 rs e id page r e' He Hd Hid E) as [H1 H2].
  split; [done|]. destruct r as [u|err|]; [| |done].
  - destruct H2 as (Hl & Hr & He'). eexists. split; [|split; [|split; [exact He'|]]]; [|done|].
    + unfold image. simpl. by rewrite decide_True.
    + rewrite (eo_view _ _ _ He') by by eapply valid_in_range.
      rewrite all_writes_app, overlay_app. unfold all_writes at 1. simpl. unfold image. simpl.
      rewrite decide_True by done. simpl. unfold overlay1. by rewrite decide_True.
  - split; [done|]. split.
    + unfold wal_bytes, Wal.as_bytes. rewrite (eo_bytes _ _ _ H2). symmetry. apply He.
    + intros j Hj. rewrite (eo_view _ _ _ H2 j Hj). symmetry. by apply He.
Qed.

(** [commit_durable] hands the complete log to [persist] before any device
    write.  If [persist] fails the engine is exactly as it was; otherwise only
    blocks of the batch are written, and on success the device holds the pages. *)
Theorem commit_persists_before_flush {W} (persist : list byte -> M W StorageError unit)
    d0 rs e w r e' w' :
  eng_ok d0 rs e -> commit_durable persist (e, w) = (r, (e', w')) ->
  exists mark, is_marker mark = true /\ committed (rs ++ [mark]) = all_writes rs /\
  match persist (Wal.log_of (rs ++ [mark])) w with
  | (Ok _, w1) => w' = w1 /\ eng_ok d0 (rs ++ [mark]) e' /\ r <> Panic /\
      dev_steps (targets (all_writes rs)) (Page.device (pool e)) (Page.device (pool e')) /\
      (r = Ok tt -> forall id, valid_id id ->
         dview (Page.device (pool e')) id = overlay (all_writes rs) (dview d0) id)
  | (Err err, w1) => r = Err err /\ w' = w1 /\ e' = e
  | (Panic, w1) => r = Panic
  end.
Proof.
  intros He E. eexists. split; [|split].
  3: exact (commit_durable_spec persist d0 rs e w r e' w' He E).
  - done.
  - by apply committed_marker.
Qed.

(** C17: Take any engine state, cut its log at any byte, and let the device be
    damaged on any blocks the surviving log has committed writes for.  Recovery of that log over that device
    never fails, and leaves every other block alone.  Where the device's writes go through, it applies every
    committed write of the surviving log, counts them all, and the device then shows exactly the committed
    writes, each over the earlier ones.  On any other device it counts at most that many, and when it counts
    them all the device shows them too. *)
Theorem recover_committed d0 rs e n dc cap e2 r e3 :
  eng_ok d0 rs e -> dev_ok d0 -> dev_ok dc ->
  untouched d0 (targets (committed (Wal.fitting n rs))) dc ->
  new dc cap = Ok e2 ->
  recover (take n (wal_bytes e)) e2 = (r, e3) ->
  exists k, r = Ok k /\ k <= length (committed (Wal.fitting n rs)) /\
    untouched dc (targets (committed (Wal.fitting n rs))) (Page.device (pool e3)) /\
    (writes_succeed -> k = length (committed (Wal.fitting n rs))) /\
    (k = length (committed (Wal.fitting n rs)) -> forall id, valid_id id ->
       dview (Page.device (pool e3)) id =
       overlay (committed (Wal.fitting n rs)) (dview d0) id).
Proof.
  intros He Hd0 Hdc Hun Hnew E.
  destruct (new_engine dc cap e2 Hdc Hnew) as [_ Hdev].
  unfold wal_bytes, Wal.as_bytes in E. rewrite (eo_bytes _ _ _ He) in E.
  destruct (Wal.cut_parses rs n (eng_ok_wf_log _ _ _ He)) as [tail Hp].
  destruct (recover_spec e2 _ _ tail ltac:(by rewrite Hdev) Hp) as (d & k & Er & Hk & Hst & Hv).
  assert (Hall := fun Hrel => recover_all e2 _ _ tail Hrel ltac:(by rewrite Hdev) Hp).
  rewrite Er in E, Hall. injection E as <- <-. exists k. rewrite Hdev in Hst, Hall. split; [done|]. split; [done|].
  split; [by apply (dev_steps_untouched _ _ _ Hdc Hst)|]. split.
  - intros Hrel. assert (Hin : Forall (fun w => in_range dc (fst w)) (committed (Wal.fitting n rs))).
    { assert (Hc : Forall (fun w => in_range d0 (fst w)) (committed (Wal.fitting n rs))).
      { apply (committed_in_range d0); [|constructor]. destruct (Wal.fitting_prefix n rs) as [l Hl].
        assert (Hf := eo_recs _ _ _ He). rewrite Hl in Hf. by apply Forall_app in Hf as [? _]. }
      eapply Forall_impl; [exact Hc|]. intros w. unfold in_range. by rewrite (proj1 Hun). }
    specialize (Hall Hrel Hin). cbn in Hall. congruence.
  - intros Hkk id Hid. simpl. rewrite Hv by (done || apply Hid). rewrite Hdev.
    apply overlay_ext. intros Hx. apply (untouched_dview _ _ _ _ Hun); [apply Hid|done].
Qed.

End Proofs.

(** *** Witnesses *)

#[local] Existing Instance InMemory.device.
#[local] Existing Instance InMemory.device_laws.

(** An engine over two blocks of memory, and a page. *)
Definition demo_page : list byte := replicate PAGE_SIZE x55.
Definition demo_dev : InMemory.InMemoryBlockDevice :=
  {| InMemory.blocks := replicate (2 * BLOCK_SIZE) x00; InMemory.count := 2 |}.

Lemma demo_dev_ok : dev_ok demo_dev.
Proof.
  simpl. unfold InMemory.ok. simpl. rewrite BLOCK_SIZE_Z, length_replicate. lia.
Qed.

Lemma demo_engine : exists e, new demo_dev 1 = Ok e /\ eng_ok demo_dev [] e.
Proof.
  eexists. split; [reflexivity|]. eapply (new_engine demo_dev 1); [apply demo_dev_ok|done].
Qed.

Lemma write_page_atomic_witness :
  exists e r e', eng_ok demo_dev [] e /\ write_page 1 demo_page e = (r, e') /\ r = Ok tt /\
    view (pool e') 1 = Some demo_page.
Proof.
  destruct (new demo_dev 1) as [e| |] eqn:En; [|discriminate En..].
  assert (He := proj1 (new_engine demo_dev 1 e demo_dev_ok En)).
  destruct (write_page 1 demo_page e) as [r e'] eqn:E.
  assert (Hr : r = Ok tt).
  { replace r with (fst (write_page 1 demo_page e)) by (rewrite E; reflexivity).
    injection En as <-. vm_compute. reflexivity. }
  exists e, r, e'. split; [exact He|]. split; [exact E|]. split; [exact Hr|].
  destruct (write_page_atomic demo_dev [] e 1 demo_page r e' He demo_dev_ok ltac:(lia) E) as [_ H].
  rewrite Hr in H. destruct H as (rec & _ & _ & _ & H). exact H.
Defined.

Lemma commit_persists_before_flush_witness :
  exists e r e' w', eng_ok demo_dev [] e /\
    commit_durable (fun _ => (m_err SyncFailed : M unit StorageError unit)) (e, tt)
      = (r, (e', w')) /\ r = Err SyncFailed /\ e' = e.
Proof.
  destruct (new demo_dev 1) as [e| |] eqn:En; [|discriminate En..].
  assert (He := proj1 (new_engine demo_dev 1 e demo_dev_ok En)).
  destruct (commit_durable (fun _ => (m_err SyncFailed : M unit StorageError unit)) (e, tt))
    as [r [e' w']] eqn:E.
  exists e, r, e', w'. split; [exact He|]. split; [exact E|].
  destruct (commit_persists_before_flush _ demo_dev [] e tt r e' w' He E) as (m & _ & _ & H).
  split; apply H.
Defined.

(** An engine that has logged two pages and committed them together. *)
Definition demo_fresh : StorageEngine InMemory.InMemoryBlockDevice :=
  {| pool := Page.mkPool demo_dev 1 [] [] false; wal := Wal.new |}.
Definition demo_start : StorageEngine InMemory.InMemoryBlockDevice :=
  {| pool := Page.mkPool demo_dev 2 [] [] false; wal := Wal.new |}.
Definition demo_page2 : list byte := replicate PAGE_SIZE x66.
Definition demo_committed : StorageEngine InMemory.InMemoryBlockDevice :=
  snd (append_commit (snd (write_page 0 demo_page2 (snd (write_page 1 demo_page demo_start))))).

(** A write that succeeds. *)
Lemma demo_write rs e id page :
  eng_ok demo_dev rs e -> (0 <= id)%Z -> fst (write_page id page e) = Ok tt ->
  exists lsn_, length page = PAGE_SIZE /\
    eng_ok demo_dev (rs ++ [Wal.mkRecord lsn_ Wal.PageWrite id page]) (snd (write_page id page e)).
Proof.
  intros He Hid Hr. destruct (write_page id page e) as [r e1] eqn:E. cbn [fst snd] in *. subst r.
  destruct (write_page_spec demo_dev rs e id page _ e1 He demo_dev_ok Hid E) as [_ (Hl & _ & He1)]. by eexists.
Qed.

Lemma demo_committed_ok :
  exists rs, eng_ok demo_dev rs demo_committed /\ committed rs = [(1%Z, demo_page); (0%Z, demo_page2)].
Proof.
  assert (He := proj1 (new_engine demo_dev 2 demo_start demo_dev_ok eq_refl)).
  destruct (demo_write [] demo_start 1 demo_page He ltac:(lia) ltac:(vm_compute; reflexivity)) as (l1 & Hl1 & He1).
  destruct (demo_write _ _ 0 demo_page2 He1 ltac:(lia) ltac:(vm_compute; reflexivity)) as (l2 & Hl2 & He2).
  destruct (append_commit_spec demo_dev _ _ He2) as (e3 & Ec & _ & He3).
  unfold demo_committed. rewrite Ec. cbn [snd]. eexists. split; [exact He3|].
  rewrite committed_marker by done. unfold all_writes, image. cbn [map concat app Wal.kind Wal.payload Wal.block_id].
  by rewrite !decide_True.
Qed.

Lemma memory_writes_succeed : writes_succeed (D := InMemory.InMemoryBlockDevice).
Proof.
  intros d i data Hok Hi Hb. simpl. unfold InMemory.mem_write, InMemory.range.
  rewrite decide_False by lia. rewrite decide_False by (destruct Hi as [_ Hi]; simpl in Hi; lia).
  by rewrite decide_True by by apply InMemory.block_in_range.
Qed.

Lemma recover_committed_witness :
  exists e3, recover (wal_bytes demo_committed) demo_fresh = (Ok 2, e3) /\
    dview (Page.device (pool e3)) 1 = Some demo_page /\ dview (Page.device (pool e3)) 0 = Some demo_page2.
Proof.
  destruct demo_committed_ok as (rs & He & Hc).
  destruct (recover (wal_bytes demo_committed) demo_fresh) as [r e3] eqn:E.
  assert (Hfit : Wal.fitting (length (wal_bytes demo_committed)) rs = rs).
  { apply Wal.fitting_all. unfold wal_bytes, Wal.as_bytes. rewrite (eo_bytes _ _ _ He). reflexivity. }
  assert (Et : recover (take (length (wal_bytes demo_committed)) (wal_bytes demo_committed)) demo_fresh
               = (r, e3)) by (rewrite firstn_all; exact E).
  destruct (recover_committed demo_dev rs demo_committed (length (wal_bytes demo_committed)) demo_dev 1
    demo_fresh r e3 He demo_dev_ok demo_dev_ok (untouched_refl _ _) eq_refl Et) as (k & Hk & _ & _ & Hall & Hv).
  rewrite Hfit, Hc in Hv, Hall. specialize (Hall memory_writes_succeed). subst k. exists e3.
  split; [by rewrite Hk|]. split; (rewrite (Hv eq_refl); [reflexivity|split; [lia|discriminate]]).
Defined.

(** Reading pins the frame and nothing releases it: with one frame, the second
    page cannot be read any more. *)
Example reads_exhaust_the_pool :
  let e1 := snd (read_page 0 demo_fresh) in
  is_ok (fst (read_page 0 demo_fresh)) = true /\ fst (read_page 1 e1) = Err AllFramesPinned.
Proof. vm_compute. split; reflexivity. Qed.
