(* ===== verification/FaultSim.v ===== *)
(** * FaultSim: the fault simulator [crates/tpt-archon-core/src/faultsim.rs]

    The simulator damages the log of a committed batch of pages and recovers from
    it.  [trial] and [fuzz] are its functions, with [unwrap], [assert!] and
    indexing as panics; FaultProof shows that over a device whose calls succeed
    none of them happens. *)
From Stdlib Require Import ZArith Lia Strings.Byte.
From stdpp Require Import base numbers option list.
From S2P Require Import Prelude Checksum Block Wal Page Storage.

Module FaultSim.

Inductive Fault : Type := TruncateTail (n : nat) | CorruptTail | ZeroTail.

Definition flip (b : byte) : byte := z2b (Z.lxor (b2z b) 255).

Definition apply (f : Fault) (log : list byte) : list byte :=
  match log with
  | [] => log
  | _ =>
      match f with
      | TruncateTail n => take (length log - n) log
      | CorruptTail => alter flip (length log - 1) log
      | ZeroTail => let start := length log - 4 in take start log ++ replicate (length log - start) x00
      end
  end.

Section Trial.
Context {D : Type} `{BlockDevice D}.

(** [r.unwrap()]. *)
Definition unwrap {A} (r : outcome StorageError A) : outcome StorageError A :=
  match r with Ok a => Ok a | _ => Panic end.

Definition page_byte (i : nat) : byte := z2b (Z.of_nat i mod 256).
(** [vec![i as u8; PAGE_SIZE]]. *)
Definition page_of (i : nat) : list byte := replicate PAGE_SIZE (page_byte i).

(** [for i in a..a + n]. *)
Fixpoint write_pages (a n : nat) : M (Storage.StorageEngine D) StorageError unit :=
  match n with
  | O => mret tt
  | S n =>
      (fun e => let '(r, e) := Storage.write_page (Z.of_nat a) (page_of a) e in (unwrap r, e));;
      write_pages (S a) n
  end.

Definition capacity_for (committed : nat) : nat := Nat.max committed 1 + 1.

(** The log of a batch of pages committed on the device. *)
Definition committed_log (device : D) (committed : nat) : outcome StorageError (list byte) :=
  match Storage.new device (capacity_for committed) with
  | Ok e =>
      match write_pages 0 committed e with
      | (Ok _, e) =>
          match Storage.commit_durable (W := unit) (fun _ => mret tt) (e, tt) with
          | (Ok _, (e, _)) => Ok (Storage.wal_bytes e)
          | _ => Panic
          end
      | _ => Panic
      end
  | _ => Panic
  end.

(** Recovery of a log over the device. *)
Definition recovered (device : D) (committed : nat) (log : list byte)
    : outcome StorageError (nat * Storage.StorageEngine D) :=
  match Storage.new device (capacity_for committed) with
  | Ok e2 =>
      match Storage.recover log e2 with
      | (Ok applied, e2) => Ok (applied, e2)
      | _ => Panic
      end
  | _ => Panic
  end.

(** The state of the closure that computes what the blocks should hold. *)
Record Expect : Type := mkExpect { expected : list (option byte); pending : list (Z * byte) }.

Definition expect_write (es : list (option byte)) (w : Z * byte) : list (option byte) :=
  <[Z.to_nat w.1 := Some w.2]> es.

Definition expect_record (s : Expect) (rec : Wal.WalRecord) : Expect :=
  match Wal.kind rec with
  | Wal.PageWrite =>
      match Wal.payload rec with
      | b :: _ => mkExpect (expected s) (pending s ++ [(Wal.block_id rec, b)])
      | [] => s
      end
  | Wal.Commit | Wal.Checkpoint => mkExpect (foldl expect_write (expected s) (pending s)) []
  end.

Definition trial (device : D) (committed : nat) (fault : Fault)
    : outcome StorageError (nat * list (option byte)) :=
  match committed_log device committed with
  | Ok log =>
      let corrupted := apply fault log in
      match recovered device committed corrupted with
      | Ok (applied, _) =>
          let '(_, s) := Wal.replay expect_record (Wal.from_bytes corrupted) (mkExpect (replicate committed None) []) in
          Ok (applied, expected s)
      | _ => Panic
      end
  | _ => Panic
  end.

(** The reads at the end of a turn of [fuzz]; a failed read is skipped. *)
Fixpoint check_pages (idx : nat) (es : list (option byte)) (e2 : Storage.StorageEngine D) : outcome StorageError unit :=
  match es with
  | [] => Ok tt
  | None :: es => check_pages (S idx) es e2
  | Some exp :: es =>
      match Storage.read_page (Z.of_nat idx) e2 with
      | (Ok (b :: _), e2) => if Byte.eqb b exp then check_pages (S idx) es e2 else Panic
      | (Ok [], _) | (Panic, _) => Panic
      | (Err _, e2) => check_pages (S idx) es e2
      end
  end.

Definition faults : list Fault :=
  [TruncateTail 0; TruncateTail 1; TruncateTail 4; CorruptTail; ZeroTail].

(** The xorshift step; the left shifts drop the bits beyond 64. *)
Definition next_seed (seed : Z) : Z :=
  let seed := Z.lxor seed (wrap64 (Z.shiftl seed 13)) in
  let seed := Z.lxor seed (Z.shiftr seed 7) in
  Z.lxor seed (wrap64 (Z.shiftl seed 17)).

(** A turn of [fuzz], its assertions included. *)
Definition fuzz_turn (make_device : D) (seed : Z) : outcome StorageError unit :=
  let committed := Z.to_nat (seed mod 8) + 1 in
  match faults !! Z.to_nat (seed mod 5) with
  | None => Panic
  | Some fault =>
      match trial make_device committed fault with
      | Ok (applied, es) =>
          if applied <=? committed then
            match committed_log make_device committed with
            | Ok log =>
                match recovered make_device committed (apply fault log) with
                | Ok (_, e2) => check_pages 0 es e2
                | _ => Panic
                end
            | _ => Panic
            end
          else Panic
      | _ => Panic
      end
  end.

Fixpoint fuzz_loop (make_device : D) (trials : nat) (seed : Z) : outcome StorageError unit :=
  match trials with
  | O => Ok tt
  | S trials =>
      let seed := next_seed seed in
      match fuzz_turn make_device seed with
      | Ok _ => fuzz_loop make_device trials seed
      | o => o
      end
  end.

(** [make_device] returns equal devices: it is one value here. *)
Definition fuzz (make_device : D) (trials : nat) : outcome StorageError unit :=
  fuzz_loop make_device trials 0x9E3779B97F4A7C15.

End Trial.
End FaultSim.
