(* ===== verification/FaultProof.v ===== *)
(** * FaultProof: the fault simulator never fails

    Over a device whose calls succeed, the storage engine makes progress: a batch
    of pages that fits the pool is written and committed.  A log of one batch that
    is damaged the way the simulator does it holds the whole batch or none of its
    commit, so that recovery applies all pages or none, and the simulator's
    assertions hold whatever the number of its trials. *)
From Stdlib Require Import ZArith Lia Strings.Byte.
From stdpp Require Import base numbers option list.
From S2P Require Import Prelude Checksum Block Wal Page PageProof Storage StorageProof FaultSim.

Module FaultProof.
Import Storage FaultSim.

(** A device whose calls succeed on its blocks. *)
Class ReliableDevice (D : Type) `{BlockDeviceLaws D} : Prop := {
  reliable_read (d : D) i buf : dev_ok d -> in_range d i -> length buf = BLOCK_SIZE -> fst (read_block d i buf) = Ok tt;
  reliable_write (d : D) i data : dev_ok d -> in_range d i -> length data = BLOCK_SIZE -> fst (write_block i data d) = Ok tt;
  reliable_sync (d : D) : dev_ok d -> fst (sync d) = Ok tt
}.

(** ** Damaged logs *)

(** A frame with another checksum does not decode. *)
Lemma decode_bad_crc r x : Wal.rec_wf r -> length x = 4 -> x <> le_bytes 4 (crc32 (Wal.body r)) ->
  is_ok (Wal.decode (Wal.prefix r ++ x)) = false.
Proof.
  intros (_ & _ & Hp) Hx Hne. destruct (Wal.decode _) as [[r' n]|err|] eqn:E; [exfalso|done..].
  apply Wal.decode_sound in E as ((_ & _ & Hp') & _ & rest & E).
  unfold Wal.prefix, Wal.frame in E. rewrite <- !app_assoc in E.
  apply app_inj_1 in E as [E1 E]; [|by rewrite !le_bytes_length].
  assert (Hbl : length (Wal.body r) = length (Wal.body r')).
  { apply (f_equal le_val) in E1. rewrite !Wal.wrap32_small, !le_val_bytes_u32 in E1 by done.
    rewrite !Wal.body_length. lia. }
  apply app_inj_1 in E as [E2 E]; [|done]. rewrite E2 in Hne. apply Hne.
  apply (f_equal length) in E as El. rewrite length_app, le_bytes_length in El.
  destruct rest; [by rewrite app_nil_r in E|simpl in El; lia].
Qed.

Lemma frame_split r : Wal.frame r = Wal.prefix r ++ le_bytes 4 (crc32 (Wal.body r)).
Proof. unfold Wal.frame, Wal.prefix. by rewrite <- app_assoc. Qed.

Lemma prefix_of_snoc {A} (l ws : list A) c : l `prefix_of` ws ++ [c] -> l = ws ++ [c] \/ l `prefix_of` ws.
Proof.
  intros [k Hk]. destruct k as [|x k _] using rev_ind; [left; by rewrite app_nil_r in Hk|].
  right. rewrite app_assoc in Hk. apply app_inj_tail in Hk as [-> _]. by exists k.
Qed.

(** The damage of the last four bytes. *)
Lemma apply_tail f ws r : (forall n, f <> TruncateTail n) -> exists x, length x = 4 /\
  apply f (Wal.log_of (ws ++ [r])) = Wal.log_of ws ++ Wal.prefix r ++ x.
Proof.
  intros Hf. rewrite Wal.log_of_app, Wal.log_of_cons, frame_split. change (Wal.log_of []) with (@nil byte).
  rewrite app_nil_r, app_assoc. set (pre := Wal.log_of ws ++ Wal.prefix r). set (crc := le_bytes _ _).
  assert (Hc : length crc = 4) by apply le_bytes_length.
  assert (Hne : forall A (a b : A), match pre ++ crc with [] => a | _ => b end = b).
  { intros A a b. destruct (pre ++ crc) eqn:E; [|done]. apply (f_equal length) in E.
    rewrite length_app in E. simpl in E. lia. }
  unfold apply. rewrite Hne. destruct f as [n| |]; [by destruct (Hf n)|..].
  - exists (alter flip 3 crc). rewrite length_alter. split; [done|].
    rewrite alter_app_r_alt by (rewrite length_app; lia). unfold pre. rewrite <- app_assoc. do 3 f_equal.
    rewrite length_app. f_equal. lia.
  - exists (replicate 4 x00). split; [done|]. rewrite length_app, Hc.
    replace (length pre + 4 - 4) with (length pre) by lia.
    replace (length pre + 4 - length pre) with 4 by lia. rewrite take_app_length. unfold pre. by rewrite <- app_assoc.
Qed.

Lemma apply_damage f ws r : Forall Wal.rec_wf (ws ++ [r]) ->
  let log := Wal.log_of (ws ++ [r]) in
  apply f log <> log -> exists rs tail, Wal.parses (apply f log) rs tail /\ rs `prefix_of` ws.
Proof.
  intros Hwf log Hne. assert (Hwf' := Hwf). apply Forall_app in Hwf' as [Hws Hr]. inversion Hr as [|? ? Hr' _]; subst.
  destruct f as [n| |].
  - destruct (Wal.cut_parses (ws ++ [r]) (length log - n) Hwf) as [tail Hp].
    assert (Ha : apply (TruncateTail n) log = take (length log - n) log).
    { unfold apply. destruct log eqn:El; [|done]. by rewrite take_nil. }
    exists (Wal.fitting (length log - n) (ws ++ [r])), tail. rewrite Ha. split; [done|].
    destruct (prefix_of_snoc _ _ _ (Wal.fitting_prefix (length log - n) (ws ++ [r]))) as [E|]; [|done].
    destruct Hne. rewrite Ha. apply take_ge. destruct Hp as (Ht & _). rewrite E in Ht.
    apply (f_equal length) in Ht. rewrite length_take, length_app in Ht. fold log in Ht. lia.
  - destruct (apply_tail CorruptTail ws r ltac:(done)) as (x & Hx & Ha). fold log in Ha. rewrite Ha in *.
    exists ws, (Wal.prefix r ++ x). split; [|done]. split; [done|]. split; [done|]. apply decode_bad_crc; [done..|].
    intros ->. apply Hne. unfold log. by rewrite <- frame_split, Wal.log_of_app, Wal.log_of_cons, app_nil_r.
  - destruct (apply_tail ZeroTail ws r ltac:(done)) as (x & Hx & Ha). fold log in Ha. rewrite Ha in *.
    exists ws, (Wal.prefix r ++ x). split; [|done]. split; [done|]. split; [done|]. apply decode_bad_crc; [done..|].
    intros ->. apply Hne. unfold log. by rewrite <- frame_split, Wal.log_of_app, Wal.log_of_cons, app_nil_r.
Qed.

#[local] Existing Instance Page.PageState_eq_dec.
#[local] Existing Instance InMemory.device.
#[local] Existing Instance InMemory.device_laws.

#[export] Instance memory_reliable : ReliableDevice InMemory.InMemoryBlockDevice.
Proof.
  split.
  - intros d i buf Hok Hi Hb. simpl. unfold InMemory.mem_read, InMemory.range.
    rewrite decide_False by lia. rewrite decide_False by (destruct Hi as [_ Hi]; simpl in Hi; lia).
    by rewrite decide_True by by apply InMemory.block_in_range.
  - intros d i data Hok Hi Hb. simpl. unfold InMemory.mem_write, InMemory.range.
    rewrite decide_False by lia. rewrite decide_False by (destruct Hi as [_ Hi]; simpl in Hi; lia).
    by rewrite decide_True by by apply InMemory.block_in_range.
  - done.
Qed.

Section Proofs.
Context {D : Type} `{ReliableDevice D}.
Implicit Types (p : Page.BufferPool D) (e : StorageEngine D).

(** ** Progress of the pool *)

Definition free_frame p : Prop := is_Some (position (fun f => bool_decide (Page.state f = Page.Free)) (Page.frames p)).

Lemma acquire_free p : free_frame p -> exists idx, Page.acquire_frame p = (Ok idx, p).
Proof. intros [idx E]. exists idx. unfold Page.acquire_frame. rewrite (bind_ok m_get _ p p p) by done. by rewrite E. Qed.

Lemma acquire_grows p : length (Page.frames p) < Page.capacity p ->
  exists idx p', Page.acquire_frame p = (Ok idx, p') /\ free_frame p' /\
    length (Page.frames p') <= length (Page.frames p) + 1 /\ Page.capacity p' = Page.capacity p.
Proof.
  intros Hlt. unfold Page.acquire_frame. rewrite (bind_ok m_get _ p p p) by done. cbv beta.
  destruct (position _ (Page.frames p)) as [k|] eqn:E; [exists k, p; split_and!; [done|by exists k|lia|done]|].
  rewrite decide_True by done. do 2 eexists. split; [reflexivity|]. split_and!; simpl; [|rewrite length_app; simpl; lia|done].
  unfold free_frame. simpl. destruct (position _ (_ ++ _)) as [k|] eqn:E'; [by exists k|].
  rewrite position_None in E'. discriminate (E' (Page.mkFrame Page.BLOCK_ID_MAX Page.zero_page Page.Free false)).
  apply list_elem_of_In, in_or_app. right. by left.
Qed.

Lemma reserve_progress p id : pool_wf p -> valid_id id -> length (Page.frames p) < Page.capacity p ->
  exists p', Page.reserve id p = (Ok tt, p') /\ (Page.find p' id = None -> free_frame p') /\
    length (Page.frames p') <= length (Page.frames p) + 1 /\ Page.capacity p' = Page.capacity p.
Proof.
  intros Hwf Hid Hlt. unfold Page.reserve. rewrite (bind_ok m_get _ p p p) by done. cbv beta.
  destruct (Page.find p id) as [k|] eqn:Ef; [exists p; split_and!; [done|congruence|lia|done]|].
  destruct (acquire_grows p Hlt) as (idx & p' & E & Hf & Hl & Hc).
  rewrite (bind_ok _ _ _ _ _ E). exists p'. done.
Qed.

Lemma load_progress p id : dev_ok (Page.device p) -> in_range (Page.device p) id ->
  is_Some (dview (Page.device p) id) -> exists pg, Page.load id p = (Ok pg, p).
Proof.
  intros Hok Hr [pg Hv]. unfold Page.load.
  assert (Hl : length (replicate BLOCK_SIZE x00) = BLOCK_SIZE) by apply length_replicate.
  assert (Hrel := reliable_read _ id _ Hok Hr Hl).
  destruct (read_block _ _ _) as [r blk] eqn:Er. simpl in Hrel. subst r.
  destruct (law_read_ok _ _ _ _ Hok (proj1 Hr) Er) as (_ & _ & ->).
  rewrite dview_in in Hv by done. destruct (Page.decode_block _) as [pg'| |]; [|done..]. by exists pg'.
Qed.

Lemma fetch_mut_progress p id : pool_wf p -> valid_id id -> in_range (Page.device p) id ->
  is_Some (dview (Page.device p) id) -> (Page.find p id = None -> free_frame p) ->
  exists idx p', Page.fetch_mut id p = (Ok idx, p') /\ length (Page.frames p') = length (Page.frames p) /\
    Page.capacity p' = Page.capacity p.
Proof.
  intros Hwf Hid Hr Hv Hfree. unfold Page.fetch_mut. rewrite (bind_ok m_get _ p p p) by done. cbv beta.
  assert (Hend : forall idx q, length (Page.frames q) = length (Page.frames p) -> Page.capacity q = Page.capacity p ->
    idx < length (Page.frames q) -> exists idx' p',
      (Page.touch idx;; Page.mark_dirty_pinned idx;; mret idx) q = (Ok idx', p') /\
      length (Page.frames p') = length (Page.frames p) /\ Page.capacity p' = Page.capacity p).
  { intros idx q Hl Hc Hlt. destruct (lookup_lt_is_Some_2 (Page.frames q) idx Hlt) as [f Hf].
    unfold Page.touch. erewrite bind_ok by reflexivity. unfold Page.mark_dirty_pinned.
    erewrite bind_ok by by apply modify_frame_ok.
    do 2 eexists. split; [reflexivity|]. simpl. by rewrite length_insert. }
  destruct (Page.find p id) as [k|] eqn:Ef.
  - apply find_Some in Ef as (f & Hf & _). unfold Page.pin_frame.
    erewrite bind_ok; [|erewrite bind_ok by (by apply modify_frame_ok); reflexivity].
    apply Hend; simpl; rewrite ?length_insert; [done|done|by eapply lookup_lt_Some].
  - destruct (acquire_free p (Hfree eq_refl)) as [idx Ea].
    destruct (load_progress p id (pc_dev p (proj1 Hwf)) Hr Hv) as [pg El].
    assert (Hidx : exists f, Page.frames p !! idx = Some f).
    { destruct (acquire_frame_spec p _ _ Hwf Ea) as (_ & _ & _ & f & Hf & _). eauto. }
    destruct Hidx as [f Hf]. erewrite bind_ok.
    2: { unfold Page.fetch_miss. rewrite (bind_ok _ _ _ _ _ Ea), (bind_ok _ _ _ _ _ El).
         erewrite bind_ok by by apply modify_frame_ok. reflexivity. }
    apply Hend; simpl; rewrite ?length_insert; [done|done|by eapply lookup_lt_Some].
Qed.

Lemma unpin_length p id r p' : Page.unpin id p = (r, p') ->
  length (Page.frames p') = length (Page.frames p) /\ Page.capacity p' = Page.capacity p.
Proof.
  unfold Page.unpin. rewrite (bind_ok m_get _ p p p) by done. cbv beta.
  destruct (Page.find p id) as [k|]; [|by intros [= <- <-]].
  unfold Page.modify_frame. destruct (Page.frames p !! k); intros [= <- <-]; simpl; by rewrite ?length_insert.
Qed.

(** ** Progress of the engine *)

(** An engine over a device that has not changed, with room for [n] pages more. *)
Definition roomy (d0 : D) (n : nat) e : Prop :=
  Page.device (pool e) = d0 /\ length (Page.frames (pool e)) + n <= Page.capacity (pool e).

Lemma stage_progress e id page a b : pool_wf (pool e) -> valid_id id -> in_range (Page.device (pool e)) id ->
  is_Some (dview (Page.device (pool e)) id) -> (Page.find (pool e) id = None -> free_frame (pool e)) ->
  length page = PAGE_SIZE ->
  exists e', stage id page a b e = (Ok tt, e') /\
    length (Page.frames (pool e')) = length (Page.frames (pool e)) /\ Page.capacity (pool e') = Page.capacity (pool e).
Proof.
  intros Hwf Hid Hr Hv Hfree Hlen.
  destruct (fetch_mut_progress (pool e) id Hwf Hid Hr Hv Hfree) as (idx & p1 & Ef & Hl1 & Hc1).
  destruct (fetch_mut_spec _ _ _ _ Hwf Hid Ef) as (Hwf1 & _ & f & Hf & Hbf & _ & Hdi & _).
  assert (Hne : Page.block_id f <> Page.BLOCK_ID_MAX) by (rewrite Hbf; apply Hid).
  destruct (write_frame_spec p1 idx f page Hwf1 Hf Hdi Hne Hlen) as (Ew & Hwf2 & _).
  destruct (Page.unpin id (Page.with_frames (<[idx := Page.set_page page f]> (Page.frames p1)) p1)) as [r3 p3] eqn:Eu.
  destruct (unpin_spec _ _ _ _ Hwf2 Hid Eu) as (-> & _). apply unpin_length in Eu as Hu.
  destruct Hu as [Hl3 Hc3]. simpl in Hl3, Hc3. rewrite length_insert in Hl3.
  eexists. split.
  - unfold stage, on_pool at 1. rewrite Ef. unfold on_pool. cbn [pool wal].
    rewrite (bind_ok _ _ _ _ _ Ew), Eu. reflexivity.
  - simpl. split; congruence.
Qed.

Lemma write_page_progress d0 rs e id page n : eng_ok d0 rs e -> roomy d0 (S n) e -> dev_ok d0 ->
  in_range d0 id -> is_Some (dview d0 id) -> length page = PAGE_SIZE ->
  exists e', write_page id page e = (Ok tt, e') /\ roomy d0 n e' /\
    eng_ok d0 (rs ++ [Wal.mkRecord (Wal.next_lsn (wal e)) Wal.PageWrite id page]) e'.
Proof.
  intros He [Hdev Hroom] Hd Hr Hv Hlen. assert (Hid := valid_in_range d0 id Hd Hr).
  destruct (reserve_progress (pool e) id (eo_wf _ _ _ He) Hid ltac:(lia)) as (p1 & Er & Hfree & Hl1 & Hc1).
  destruct (reserve_spec _ _ _ _ (eo_wf _ _ _ He) Hid Er) as (Hwf1 & (_ & _ & _ & Hd1 & _) & _).
  specialize (Hd1 (eo_steal _ _ _ He)). rewrite Hdev in Hd1.
  set (w1 := snd (Wal.append (E := StorageError) Wal.PageWrite id page (wal e))).
  destruct (stage_progress {| pool := p1; wal := w1 |} id page
    (length (Wal.as_bytes (wal e))) (Wal.next_lsn (wal e))) as (e' & Es & Hl2 & Hc2);
    simpl; rewrite ?Hd1; try done.
  assert (Ew : write_page id page e = (Ok tt, e')).
  { unfold write_page. rewrite decide_False by lia. rewrite (bind_ok m_get _ e e e) by done. cbv beta zeta.
    rewrite decide_False by (rewrite Hdev; destruct Hr; lia).
    assert (Ep : on_pool (Page.reserve id) e = (Ok tt, {| pool := p1; wal := wal e |}))
      by (unfold on_pool; by rewrite Er).
    rewrite (bind_ok _ _ _ _ _ Ep). rewrite (bind_ok m_get _ _ _ _) by done. cbv beta zeta. cbn [wal].
    assert (Ea : on_wal (Wal.append Wal.PageWrite id page) {| pool := p1; wal := wal e |} =
      (Ok (Wal.next_lsn (wal e)), {| pool := p1; wal := w1 |})).
    { unfold on_wal, w1. cbn [pool wal]. by rewrite !Wal.append_spec. }
    rewrite (bind_ok _ _ _ _ _ Ea). exact Es. }
  destruct (write_page_spec d0 rs e id page _ _ He Hd (proj1 Hr) Ew) as (Hdev' & _ & _ & He').
  exists e'. split; [done|]. split; [|done]. split; [congruence|]. simpl in *. lia.
Qed.

(** What a record says, without its number. *)
Definition said (r : Wal.WalRecord) : Wal.RecordKind * Z * list byte := (Wal.kind r, Wal.block_id r, Wal.payload r).

Lemma page_of_length i : length (page_of i) = PAGE_SIZE.
Proof. apply length_replicate. Qed.

(** The records of a batch of pages. *)
Definition batch (a n : nat) : list (Wal.RecordKind * Z * list byte) :=
  map (fun i => (Wal.PageWrite, Z.of_nat i, page_of i)) (seq a n).

Definition readable (d0 : D) (n : nat) : Prop :=
  forall i, i < n -> in_range d0 (Z.of_nat i) /\ is_Some (dview d0 (Z.of_nat i)).

Lemma write_pages_progress d0 m n : forall a rs e, eng_ok d0 rs e -> roomy d0 n e -> dev_ok d0 ->
  readable d0 m -> a + n <= m ->
  exists rs' e', write_pages a n e = (Ok tt, e') /\ eng_ok d0 (rs ++ rs') e' /\
    Page.device (pool e') = d0 /\ map said rs' = batch a n.
Proof.
  induction n as [|n IH]; intros a rs e He Hr Hd Hread Ha.
  { exists [], e. rewrite app_nil_r. split_and!; [done|done|apply Hr|done]. }
  destruct (Hread a ltac:(lia)) as [Hin Hv].
  destruct (write_page_progress d0 rs e (Z.of_nat a) (page_of a) n He Hr Hd Hin Hv (page_of_length a))
    as (e1 & E1 & Hr1 & He1).
  destruct (IH (S a) _ e1 He1 Hr1 Hd Hread ltac:(lia)) as (rs' & e' & E' & He' & Hd' & Hs).
  eexists (_ :: rs'), e'. split; [|split; [by rewrite <- app_assoc in He'|split; [done|]]].
  - cbn [write_pages]. erewrite bind_ok by (rewrite E1; reflexivity). exact E'.
  - cbn [map]. unfold batch. cbn [seq map]. f_equal. exact Hs.
Qed.

(** ** Progress of the commit *)

Lemma flush_frame_progress p idx f : pool_wf p -> Page.frames p !! idx = Some f ->
  exists p', Page.flush_frame idx p = (Ok tt, p').
Proof.
  intros Hwf Hf. destruct (Page.flush_frame idx p) as [r p'] eqn:E.
  destruct (flush_frame_spec p idx f r p' Hwf Hf E) as (_ & _ & Hnp & _).
  unfold Page.flush_frame in E. erewrite bind_ok in E by (unfold Page.frame_at; by rewrite Hf). cbv beta in E.
  destruct (pc_frames p (proj1 Hwf) idx f Hf) as [F1 F2 F3 F4 F5 F6].
  rewrite (needs_flush_intent _ f (pc_frames p (proj1 Hwf) idx f Hf)) in E.
  destruct (Page.dirty_intent f) eqn:Hdi; [|injection E as <- <-; by eexists].
  assert (Hm : Page.block_id f <> Page.BLOCK_ID_MAX) by (intros Hm; discriminate F3; left; by apply F4).
  destruct (encode_page_block_ok (Page.page f) F1) as (blk & He & Hbl & _).
  erewrite bind_ok in E by (unfold Page.lift; by rewrite He). cbv beta in E.
  assert (Hw := reliable_write _ _ blk (pc_dev p (proj1 Hwf)) (F5 Hm) Hbl).
  destruct (write_block (Page.block_id f) blk (Page.device p)) as [rw d'] eqn:Ew. simpl in Hw. subst rw.
  erewrite bind_ok in E by (unfold Page.on_device; by rewrite Ew).
  erewrite modify_frame_ok in E by exact Hf. injection E as <- <-. by eexists.
Qed.

Lemma flush_from_progress n : forall a p, pool_wf p -> a + n = length (Page.frames p) ->
  exists p', Page.flush_from a n p = (Ok tt, p') /\ pool_wf p'.
Proof.
  induction n as [|n IH]; intros a p Hwf Hl; [by exists p|].
  destruct (lookup_lt_is_Some_2 (Page.frames p) a ltac:(lia)) as [f Hf].
  destruct (flush_frame_progress p a f Hwf Hf) as [p1 E1].
  destruct (flush_frame_spec p a f _ _ Hwf Hf E1) as (Hwf1 & _ & _ & Hl1 & _).
  destruct (IH (S a) p1 Hwf1 ltac:(lia)) as (p' & E' & Hwf').
  exists p'. split; [|done]. cbn [Page.flush_from]. by rewrite (bind_ok _ _ _ _ _ E1).
Qed.

Lemma flush_all_progress p : pool_wf p -> exists p', Page.flush_all p = (Ok tt, p').
Proof.
  intros Hwf. destruct (flush_from_progress (length (Page.frames p)) 0 p Hwf eq_refl) as (p1 & E1 & Hwf1).
  assert (Hs := reliable_sync _ (pc_dev p1 (proj1 Hwf1))).
  destruct (sync (Page.device p1)) as [r d] eqn:Es. simpl in Hs. subst r.
  eexists. unfold Page.flush_all. rewrite (bind_ok m_get _ p p p) by done. cbv beta.
  rewrite (bind_ok _ _ _ _ _ E1). unfold Page.on_device. by rewrite Es.
Qed.

(** The log of a batch. *)
Lemma committed_log_ok d0 m n : dev_ok d0 -> readable d0 m -> n <= m ->
  exists rs lsn_, committed_log d0 n = Ok (Wal.log_of (rs ++ [Wal.mkRecord lsn_ Wal.Commit 0 []])) /\
    map said rs = batch 0 n /\ Forall Wal.rec_wf (rs ++ [Wal.mkRecord lsn_ Wal.Commit 0 []]) /\
    Forall (rec_fine d0) rs.
Proof.
  intros Hd Hread Hn. unfold committed_log.
  destruct (new d0 (capacity_for n)) as [e| |] eqn:En.
  2,3: unfold new, Page.new, capacity_for in En; rewrite decide_True in En by lia; done.
  destruct (new_engine d0 _ e Hd En) as [He Hdev].
  assert (Hroom : roomy d0 n e).
  { split; [done|]. unfold new, Page.new, capacity_for in En. rewrite decide_True in En by lia.
    injection En as <-. simpl. lia. }
  destruct (write_pages_progress d0 m n 0 [] e He Hroom Hd Hread Hn) as (rs & e1 & E1 & He1 & Hd1 & Hs).
  rewrite E1. cbn [app] in He1.
  destruct (append_commit_spec d0 rs e1 He1) as (e2 & E2 & Hp2 & He2).
  destruct (flush_all_progress (pool e2) (eo_wf _ _ _ He2)) as [p3 E3].
  exists rs, (Wal.next_lsn (wal e1)). unfold commit_durable. rewrite E2. cbn [mret M_ret].
  unfold flush_data, on_pool. rewrite E3. split; [|split; [done|split; [by eapply eng_ok_wf_log|apply He1]]].
  f_equal. unfold wal_bytes, Wal.as_bytes. simpl. apply He2.
Qed.

(** ** The records of a batch *)

(** A record without its number and the page it carries. *)
Definition page_rec (i : nat) (r : Wal.WalRecord) : Prop := said r = (Wal.PageWrite, Z.of_nat i, page_of i).

Lemma batch_recs n : forall a rs, map said rs = batch a n -> Forall2 page_rec (seq a n) rs.
Proof.
  induction n as [|n IH]; intros a [|r rs] Hs; try done.
  unfold batch in Hs. cbn [seq map] in Hs. injection Hs as E1 E2 E3 E4.
  constructor; [|by apply IH]. unfold page_rec, said. by rewrite E1, E2, E3.
Qed.

Definition pages (a n : nat) : list (Z * list byte) := map (fun i => (Z.of_nat i, page_of i)) (seq a n).

Lemma page_rec_image i r : page_rec i r -> is_marker r = false /\ image r = [(Z.of_nat i, page_of i)].
Proof.
  unfold page_rec, said, is_marker, image. intros [= E1 E2 E3]. rewrite E1, E2, E3. split; [done|].
  by rewrite decide_True by apply page_of_length.
Qed.

Lemma batch_writes ids rs : Forall2 page_rec ids rs ->
  Forall (fun r => is_marker r = false) rs /\ all_writes rs = map (fun i => (Z.of_nat i, page_of i)) ids.
Proof.
  induction 1 as [|i r ids rs Hi _ [IH1 IH2]]; [done|]. apply page_rec_image in Hi as [Hm Hg].
  split; [by constructor|]. unfold all_writes in *. cbn [map concat]. by rewrite Hg, IH2.
Qed.

Lemma markerless rs : Forall (fun r => is_marker r = false) rs -> forall pend, committed_from pend rs = [].
Proof. induction 1 as [|r rs Hr _ IH]; intros pend; [done|]. simpl. by rewrite Hr, IH. Qed.

Lemma markerless_replay rs : Forall (fun r => is_marker r = false) rs -> forall s : Replay (D := D),
  foldl replay_step (Ok tt, s) rs = (Ok tt, mkReplay (r_dev s) (r_pending s ++ all_writes rs) (r_applied s)).
Proof.
  induction 1 as [|r rs Hr _ IH]; intros s; cbn [foldl].
  { unfold all_writes. simpl. rewrite app_nil_r. by destruct s. }
  cbn [replay_step]. rewrite replay_record_write, IH by done. unfold all_writes. simpl. by rewrite <- app_assoc.
Qed.

(** ** What the simulator expects *)

Definition bytes_of (a n : nat) : list (Z * byte) := map (fun i => (Z.of_nat i, page_byte i)) (seq a n).

Lemma expect_page i r s : page_rec i r ->
  expect_record s r = mkExpect (expected s) (pending s ++ [(Z.of_nat i, page_byte i)]).
Proof. unfold page_rec, said, expect_record. intros [= E1 E2 E3]. by rewrite E1, E2, E3. Qed.

Lemma expect_pages ids rs : Forall2 page_rec ids rs -> forall s,
  foldl expect_record s rs = mkExpect (expected s) (pending s ++ map (fun i => (Z.of_nat i, page_byte i)) ids).
Proof.
  induction 1 as [|i r ids rs Hi _ IH]; intros s; cbn [foldl map].
  { rewrite app_nil_r. by destruct s. }
  rewrite (expect_page i r s Hi), IH. cbn [expected pending]. by rewrite <- app_assoc.
Qed.

(** What the blocks hold when the whole batch counts. *)
Definition all_pages (n : nat) : list (option byte) := map (fun i => Some (page_byte i)) (seq 0 n).

Lemma expect_writes k : forall a,
  foldl expect_write (all_pages a ++ replicate k None) (bytes_of a k) = all_pages (a + k).
Proof.
  induction k as [|k IH]; intros a; [by rewrite app_nil_r, Nat.add_0_r|].
  unfold bytes_of. cbn [seq map foldl replicate]. unfold expect_write at 2. cbn [fst snd].
  rewrite Nat2Z.id.
  assert (Hl : length (all_pages a) = a) by (unfold all_pages; by rewrite length_map, length_seq).
  replace (<[a := Some (page_byte a)]> (all_pages a ++ None :: replicate k None))
    with (all_pages (S a) ++ replicate k None).
  2: { rewrite <- Hl at 2. rewrite insert_app_r_alt by lia. rewrite Nat.sub_diag. unfold all_pages.
       rewrite seq_S, map_app. by rewrite <- app_assoc. }
  replace (a + S k) with (S a + k) by lia. apply IH.
Qed.

Lemma overlay_pages v k : forall a i, a <= i -> i < a + k -> overlay (pages a k) v (Z.of_nat i) = Some (page_of i).
Proof.
  induction k as [|k IH]; intros a i Ha Hi; [lia|]. unfold pages. rewrite seq_S, map_app, overlay_app. cbn [map overlay foldl].
  unfold overlay1. cbn [fst snd]. case_decide as Hc; [apply Nat2Z.inj in Hc as ->; done|]. apply IH; [done|].
  assert (i <> a + k) by congruence. lia.
Qed.

(** ** Recovery on a device whose calls succeed *)

Definition lands (d : D) (w : Z * list byte) : Prop := in_range d (fst w) /\ length (snd w) = PAGE_SIZE.

Lemma apply_writes_progress ws : forall s, dev_ok (r_dev s) -> Forall (lands (r_dev s)) ws ->
  exists d, apply_writes ws s = (Ok tt, mkReplay d (r_pending s) (r_applied s + length ws)).
Proof.
  induction ws as [|w ws IH]; intros s Hok Hws.
  { exists (r_dev s). rewrite Nat.add_0_r. by destruct s. }
  inversion Hws as [|? ? [Hr Hl] Hws']; subst.
  destruct (encode_page_block_ok (snd w) Hl) as (blk & He & Hbl & _).
  assert (Hw := reliable_write (r_dev s) (fst w) blk Hok Hr Hbl).
  destruct (write_block (fst w) blk (r_dev s)) as [rw d1] eqn:Ew. simpl in Hw. subst rw.
  destruct (law_write_ok _ _ _ _ Hok (proj1 Hr) Ew) as (_ & _ & Hok1 & Hc & _).
  destruct (IH (mkReplay d1 (r_pending s) (r_applied s + 1)) Hok1) as [d E].
  { eapply Forall_impl; [exact Hws'|]. intros v [Hv1 Hv2]. split; [|done]. unfold in_range in *. simpl. by rewrite Hc. }
  exists d. cbn [apply_writes]. erewrite bind_ok by (unfold apply_write; rewrite He, Ew; reflexivity).
  rewrite E. simpl. do 2 f_equal. lia.
Qed.

(** Recovery of a log over a fresh engine. *)
Lemma recovered_log d0 n bs rs tail : dev_ok d0 -> Wal.parses bs rs tail ->
  exists k e, recovered d0 n bs = Ok (k, e) /\ pool_wf (pool e) /\ k <= length (committed rs) /\
    (k = length (committed rs) -> forall id, valid_id id -> view (pool e) id = overlay (committed rs) (dview d0) id).
Proof.
  intros Hd Hp. unfold recovered.
  destruct (new d0 (capacity_for n)) as [e| |] eqn:En.
  2,3: unfold new, Page.new, capacity_for in En; rewrite decide_True in En by lia; done.
  destruct (new_engine d0 _ e Hd En) as [_ Hdev].
  destruct (recover_spec e bs rs tail ltac:(by rewrite Hdev) Hp) as (d & k & Er & Hk & Hst & Hv).
  rewrite Er. rewrite Hdev in Hst, Hv. destruct (dev_steps_untouched _ _ _ Hd Hst) as [Hd' _].
  assert (En' : new d (capacity_for n) = Ok {| pool := Page.with_device d (pool e); wal := Wal.new |}).
  { unfold new, Page.new in *. case_decide; [|done]. by injection En as <-. }
  destruct (new_engine d _ _ Hd' En') as [He' _]. eexists k, _. split; [done|]. split; [apply He'|]. split; [done|].
  intros Hkk id Hid. etransitivity; [exact (eo_view _ _ _ He' id Hid)|]. apply Hv; [done|apply Hid].
Qed.

(** Recovery of the whole log of a batch applies each page. *)
Lemma recovered_batch d0 n rs lsn_ : dev_ok d0 -> readable d0 n -> Forall2 page_rec (seq 0 n) rs ->
  let c := Wal.mkRecord lsn_ Wal.Commit 0 [] in Forall Wal.rec_wf (rs ++ [c]) ->
  exists e, recovered d0 n (Wal.log_of (rs ++ [c])) = Ok (n, e) /\ pool_wf (pool e) /\
    forall i, i < n -> view (pool e) (Z.of_nat i) = Some (page_of i).
Proof.
  intros Hd Hread Hrs c Hwf. assert (Hp := Wal.log_parses _ Hwf).
  destruct (batch_writes _ _ Hrs) as [Hm Hw].
  assert (Hc : committed (rs ++ [c]) = pages 0 n) by (by rewrite committed_marker, Hw).
  destruct (recovered_log d0 n _ _ _ Hd Hp) as (k & e & Er & Hwfe & Hk & Hv). rewrite Hc in Hk, Hv.
  assert (Hlen : length (pages 0 n) = n) by (unfold pages; by rewrite length_map, length_seq).
  assert (Hkn : k = n).
  { unfold recovered in Er. destruct (new d0 (capacity_for n)) as [e0| |] eqn:En; [|done..].
    destruct (new_engine d0 _ e0 Hd En) as [_ Hdev]. unfold recover in Er.
    rewrite (Wal.from_bytes_parses _ _ _ Hp), (Wal.replay_parses _ _ (rs ++ [c]) []) in Er by by apply Wal.log_parses.
    rewrite foldl_app, markerless_replay in Er by done. cbn [foldl replay_step r_dev r_pending r_applied app] in Er.
    rewrite replay_record_marker in Er by done. cbn [r_dev r_pending r_applied] in Er. rewrite Hw, Hdev in Er.
    destruct (apply_writes_progress (pages 0 n) (mkReplay d0 [] 0) Hd) as [d E].
    { unfold pages. apply List.Forall_map, List.Forall_forall. intros i Hi%in_seq. split; [apply Hread; lia|apply page_of_length]. }
    unfold pages in E. rewrite E in Er. injection Er as <- _. cbn [r_applied]. by rewrite length_map, length_seq. }
  subst k. exists e. split; [done|]. split; [done|]. intros i Hi. destruct (Hread i Hi) as [Hr _].
  rewrite (Hv (eq_sym Hlen) _ (valid_in_range d0 _ Hd Hr)). by apply overlay_pages; lia.
Qed.

(** ** Trials *)

Definition none_of (n : nat) : list (option byte) := replicate n None.

(** What a damaged log of a batch recovers to and what the simulator expects of it. *)
Definition outcome_of (d0 : D) (n : nat) (bs : list byte) (k : nat) (es : list (option byte)) : Prop :=
  exists e, recovered d0 n bs = Ok (k, e) /\ pool_wf (pool e) /\
    (forall i b, es !! i = Some (Some b) -> valid_id (Z.of_nat i) /\ exists l, view (pool e) (Z.of_nat i) = Some (b :: l)) /\
    expected (snd (Wal.replay expect_record (Wal.from_bytes bs) (mkExpect (none_of n) []))) = es.

Lemma expected_of {St} (f : St -> Wal.WalRecord -> St) bs rs tail st : Wal.parses bs rs tail ->
  snd (Wal.replay f (Wal.from_bytes bs) st) = foldl f st rs.
Proof.
  intros Hp. rewrite (Wal.from_bytes_parses _ _ _ Hp), (Wal.replay_parses _ _ rs []); [done|].
  apply Wal.log_parses, Hp.
Qed.

Lemma outcome_whole d0 n rs lsn_ : dev_ok d0 -> readable d0 n -> Forall2 page_rec (seq 0 n) rs ->
  let c := Wal.mkRecord lsn_ Wal.Commit 0 [] in Forall Wal.rec_wf (rs ++ [c]) ->
  outcome_of d0 n (Wal.log_of (rs ++ [c])) n (all_pages n).
Proof.
  intros Hd Hread Hrs c Hwf. destruct (recovered_batch d0 n rs lsn_ Hd Hread Hrs Hwf) as (e & Er & Hwfe & Hv).
  exists e. split; [done|]. split; [done|]. split.
  - intros i b Hi. unfold all_pages in Hi. rewrite list_lookup_fmap in Hi.
    apply fmap_Some in Hi as (j & Hj & [= ->]). apply lookup_seq in Hj as [-> Hj].
    split; [apply (valid_in_range d0); [done|by apply Hread]|]. rewrite Hv by done. by eexists.
  - rewrite (expected_of _ _ _ _ _ (Wal.log_parses _ Hwf)), foldl_app, (expect_pages _ _ Hrs). exact (expect_writes n 0).
Qed.

Lemma outcome_none d0 n rs ws bs tail : dev_ok d0 -> Forall2 page_rec (seq 0 n) ws ->
  Wal.parses bs rs tail -> rs `prefix_of` ws -> outcome_of d0 n bs 0 (none_of n).
Proof.
  intros Hd Hws Hp [k ->]. apply Forall2_app_inv_r in Hws as (l1 & l2 & Hrs & _ & _).
  destruct (recovered_log d0 n _ _ _ Hd Hp) as (j & e & Er & Hwf & Hj & _).
  unfold committed in Hj. rewrite (markerless rs (proj1 (batch_writes _ _ Hrs))) in Hj.
  assert (j = 0) as -> by (simpl in Hj; lia). exists e. split; [done|]. split; [done|]. split.
  - intros i b Hi. unfold none_of in Hi. by apply lookup_replicate in Hi as [].
  - by rewrite (expected_of _ _ _ _ _ Hp), (expect_pages _ _ Hrs).
Qed.

(** The damage that the log of a batch survives is none at all. *)
Definition intact (f : Fault) (log : list byte) : Prop := apply f log = log.

#[export] Instance intact_dec f log : Decision (intact f log).
Proof. unfold intact. apply _. Defined.

(** Only no truncation at all leaves a log as it was, and a flipped byte never does. *)
Lemma intact_faults log : log <> [] ->
  (forall n, intact (TruncateTail n) log <-> n = 0) /\ ~ intact CorruptTail log.
Proof.
  intros Hne. unfold intact. destruct log as [|b0 log0] eqn:El; [done|]. rewrite <- El in *. clear Hne.
  assert (Hpos : 0 < length log) by (rewrite El; simpl; lia). split.
  - intros n. replace (apply (TruncateTail n) log) with (take (length log - n) log) by by rewrite El.
    split; [intros Ht%(f_equal length); rewrite length_take in Ht; lia|intros ->; rewrite Nat.sub_0_r; apply firstn_all].
  - replace (apply CorruptTail log) with (alter flip (length log - 1) log) by by rewrite El. intros Ha.
    destruct (lookup_lt_is_Some_2 log (length log - 1) ltac:(lia)) as [b Hb].
    assert (Hl : alter flip (length log - 1) log !! (length log - 1) = Some (flip b)).
    { rewrite list_lookup_alter, decide_True by done. by rewrite Hb. }
    rewrite Ha, Hb in Hl. injection Hl as Hf.
    destruct b; discriminate Hf.
Qed.

Lemma batch_damaged d0 m n f : dev_ok d0 -> readable d0 m -> n <= m -> exists log, committed_log d0 n = Ok log /\
  outcome_of d0 n (apply f log) (if decide (intact f log) then n else 0)
    (if decide (intact f log) then all_pages n else none_of n).
Proof.
  intros Hd Hread Hn. destruct (committed_log_ok d0 m n Hd Hread Hn) as (rs & lsn_ & Ec & Hs & Hwf & _).
  eexists. split; [exact Ec|]. apply batch_recs in Hs. case_decide as Hi.
  - rewrite Hi. apply outcome_whole; [done| |done..]. intros i Hlt. apply Hread. lia.
  - destruct (apply_damage f rs _ Hwf Hi) as (rs' & tail & Hp & Hpre). by eapply outcome_none.
Qed.

(** ** Properties *)

(** C18: On a device whose calls succeed and whose first [n] blocks can be read, recovering
    the damaged log of a committed batch of [n] pages applies each page of the batch when the damage left the log
    as it was, and none of them otherwise, and these are the pages the simulator expects. *)
Theorem faults_are_all_or_nothing d0 n f : dev_ok d0 -> readable d0 n ->
  exists log, committed_log d0 n = Ok log /\
    trial d0 n f = Ok (if decide (intact f log) then (n, all_pages n) else (0, none_of n)).
Proof.
  intros Hd Hread. destruct (batch_damaged d0 n n f Hd Hread ltac:(lia)) as (log & Ec & e & Er & _ & _ & He).
  exists log. split; [done|]. unfold trial. rewrite Ec, Er. fold (none_of n).
  destruct (Wal.replay _ _ _) as [c s]. cbn [snd] in He. rewrite He. by case_decide.
Qed.

Lemma read_page_seen e id r e' : pool_wf (pool e) -> valid_id id -> read_page id e = (r, e') ->
  pool_wf (pool e') /\ (forall j, valid_id j -> view (pool e') j = view (pool e) j) /\
  match r with Ok pg => view (pool e) id = Some pg | Err _ => True | Panic => False end.
Proof.
  intros Hwf Hid E. unfold read_page in E. unfold mbind at 1, M_bind at 1, on_pool at 1 in E.
  destruct (Page.fetch id (pool e)) as [rf pf] eqn:Ef.
  destruct (fetch_spec _ _ _ _ Hwf Hid Ef) as (Hwf' & (_ & _ & _ & _ & Hsv) & Hr).
  destruct rf as [idx|err|]; [|injection E as <- <-; by split_and!|done].
  destruct Hr as (f & Hf & _ & _ & Hv).
  unfold mbind, M_bind, on_pool, Page.frame_at in E. simpl in E. rewrite Hf in E.
  injection E as <- <-. by split_and!.
Qed.

Lemma check_pages_ok es : forall a e, pool_wf (pool e) ->
  (forall i b, es !! i = Some (Some b) -> valid_id (Z.of_nat (a + i)) /\
     exists l, view (pool e) (Z.of_nat (a + i)) = Some (b :: l)) ->
  check_pages a es e = Ok tt.
Proof.
  induction es as [|o es IH]; intros a e Hwf Hes; [done|].
  assert (Htl : forall e', (forall j, valid_id j -> view (pool e') j = view (pool e) j) ->
    forall i b, es !! i = Some (Some b) -> valid_id (Z.of_nat (S a + i)) /\
      exists l, view (pool e') (Z.of_nat (S a + i)) = Some (b :: l)).
  { intros e' Hv i b Hi. destruct (Hes (S i) b Hi) as [Hid Hl]. replace (S a + i) with (a + S i) by lia.
    split; [done|]. by rewrite Hv. }
  destruct o as [b|]; cbn [check_pages]; [|by apply IH; [|apply Htl]].
  destruct (Hes 0 b eq_refl) as [Hid [l Hl]]. rewrite Nat.add_0_r in Hid, Hl.
  destruct (read_page (Z.of_nat a) e) as [r e'] eqn:E.
  destruct (read_page_seen _ _ _ _ Hwf Hid E) as (Hwf' & Hv & Hr).
  destruct r as [pg|err|]; [|by apply IH; [|apply Htl]|done].
  rewrite Hl in Hr. injection Hr as <-. rewrite Byte.byte_dec_lb by done. by apply IH; [|apply Htl].
Qed.

Lemma fuzz_turn_ok d0 seed : dev_ok d0 -> readable d0 8 -> fuzz_turn d0 seed = Ok tt.
Proof.
  intros Hd Hread. unfold fuzz_turn. set (n := Z.to_nat (seed mod 8) + 1).
  assert (Hm := Z.mod_pos_bound seed 8 ltac:(lia)). assert (Hm' := Z.mod_pos_bound seed 5 ltac:(lia)).
  destruct (faults !! Z.to_nat (seed mod 5)) as [f|] eqn:Ef.
  2: { apply lookup_ge_None in Ef. unfold faults in Ef. simpl in Ef. lia. }
  destruct (batch_damaged d0 8 n f Hd Hread ltac:(lia)) as (log & Ec & e & Er & Hwf & Hes & He).
  unfold trial. rewrite Ec, Er. fold (none_of n). destruct (Wal.replay _ _ _) as [c s]. cbn [snd] in He.
  rewrite (proj2 (Nat.leb_le _ _)) by (case_decide; lia).
  rewrite He. by apply check_pages_ok.
Qed.

(** Over a device whose calls succeed and whose first eight blocks can be read, the
    simulator finishes every one of its trials: no call it unwraps fails, none of its assertions is
    broken and no read shows another byte than it expects. *)
Theorem fuzz_never_fails d0 trials : dev_ok d0 -> readable d0 8 -> fuzz d0 trials = Ok tt.
Proof.
  intros Hd Hread. unfold fuzz. generalize 0x9E3779B97F4A7C15%Z as seed.
  induction trials as [|t IH]; intros seed; [done|]. cbn [fuzz_loop]. by rewrite fuzz_turn_ok.
Qed.

End Proofs.

(** *** Witnesses *)

(** The sixteen blocks of memory the simulator's own test uses. *)
Definition memory_device : InMemory.InMemoryBlockDevice :=
  {| InMemory.blocks := replicate (16 * BLOCK_SIZE) x00; InMemory.count := 16 |}.

Lemma memory_device_ok : dev_ok memory_device.
Proof. simpl. unfold InMemory.ok. simpl. rewrite BLOCK_SIZE_Z, length_replicate. lia. Qed.

Lemma memory_readable : readable memory_device 8.
Proof.
  intros i Hi. split; [unfold in_range; simpl; lia|].
  do 8 (destruct i as [|i]; [vm_compute; by eexists|]). lia.
Qed.

Lemma faults_are_all_or_nothing_witness :
  exists log, committed_log memory_device 1 = Ok log /\
    trial memory_device 1 (TruncateTail 1) = Ok (0, [None]).
Proof.
  destruct (faults_are_all_or_nothing memory_device 1 (TruncateTail 1)) as (log & Ec & E).
  - exact memory_device_ok.
  - intros i Hi. apply memory_readable. lia.
  - exists log. split; [exact Ec|]. rewrite E.
    destruct (committed_log_ok memory_device 1 1 memory_device_ok) as (rs & l & Ec' & _);
      [intros i Hi; apply memory_readable; lia|lia|].
    rewrite Ec in Ec'. injection Ec' as ->. rewrite decide_False; [reflexivity|].
    intros Hi. apply intact_faults in Hi; [done|]. intros Hn%(f_equal length).
    rewrite Wal.log_of_app, length_app, Wal.log_of_cons, length_app, Wal.frame_length in Hn. unfold Wal.encoded_len in Hn. simpl in Hn. lia.
Defined.

Lemma fuzz_never_fails_witness : fuzz memory_device 256 = Ok tt.
Proof. apply (fuzz_never_fails memory_device 256); [exact memory_device_ok|exact memory_readable]. Defined.

End FaultProof.
