(* ===== verification/Durability.v ===== *)
(** * Durability: a file-backed [Database] across crashes and reopens

    Executions of [Database] over its two files, with I/O calls that fail, with
    crashes that lose or scramble whatever was not synced, and with [open] after
    each crash.  Every acknowledged [put] survives; nothing but attempted [put]s
    is ever seen, in the order of the attempts. *)
From Stdlib Require Import ZArith Lia Strings.Byte.
From stdpp Require Import base numbers option list.
From S2P Require Import Prelude Checksum Block Wal Page PageProof Storage StorageProof.
Import FileDevice Storage.

(** ** Crashes *)

(** A machine crash keeps the length of the data file, and every block whose
    bytes were durable; other blocks may hold anything.  The sidecar keeps the
    records that were durable and possibly some of the following ones, perhaps
    followed by a torn record. *)
Definition crash_data (cur new : file) : Prop :=
  length (f_data new) = length (f_data cur) /\ f_synced new = f_data new /\
  forall j, (0 <= j)%Z -> block_of (f_synced cur) j = block_of (f_data cur) j ->
    block_of (f_data new) j = block_of (f_data cur) j.

Definition crash_wal (cur new : file) : Prop :=
  f_synced new = f_data new /\
  Wal.records (f_synced cur) `prefix_of` Wal.records (f_data new) /\
  Wal.records (f_data new) `prefix_of` Wal.records (f_data cur).

Definition crash (cur new : file * file) : Prop :=
  crash_data (fst cur) (fst new) /\ crash_wal (snd cur) (snd new).

(** Every device write of the replay [open] does goes through. *)
Definition replays_all (fs : file * file) : Prop :=
  exists d e n e', FileDevice.open (fst fs) = Ok d /\ new d DB_CAPACITY = Ok e /\
    recover (f_data (snd fs)) e = (Ok n, e') /\
    n = length (committed (Wal.records (f_data (snd fs)))).

(** ** Executions

    [exec base acked att st]: starting from a database created over a device
    showing [base], the [put]s [att] were attempted and those of [acked] have
    returned [Ok]; [st] is the open handle, or the files of a closed one. *)
Inductive state : Type :=
| Up (db : Database)
| Down (fs : file * file).

Inductive exec : (Z -> option (list byte)) -> list (Z * list byte) -> list (Z * list byte) ->
    state -> Prop :=
| exec_create data walf n db :
    (0 <= n)%Z -> f_synced data = f_data data -> create data walf n = Ok db ->
    exec (dview (Page.device (pool (engine db)))) [] [] (Up db)
| exec_put base acked att db id page r db' :
    exec base acked att (Up db) -> (0 <= id)%Z -> put id page db = (r, db') ->
    exec base (acked ++ if is_ok r then [(id, page)] else []) (att ++ [(id, page)]) (Up db')
| exec_get base acked att db id r db' :
    exec base acked att (Up db) -> valid_id id -> get id db = (r, db') ->
    exec base acked att (Up db')
| exec_crash_up base acked att db fs :
    exec base acked att (Up db) -> crash (files db) fs -> exec base acked att (Down fs)
| exec_crash_down base acked att fs fs' :
    exec base acked att (Down fs) -> crash fs fs' -> exec base acked att (Down fs')
| exec_open base acked att fs db fs' :
    exec base acked att (Down fs) -> replays_all fs -> open fs = (Ok db, fs') ->
    exec base acked att (Up db)
| exec_open_err base acked att fs err fs' :
    exec base acked att (Down fs) -> open fs = (Err err, fs') ->
    exec base acked att (Down fs').

(** ** The file device under device steps *)

(** Outside [X], what the process sees is durable. *)
Definition quiet (X : Z -> Prop) (f : file) : Prop :=
  forall j, (0 <= j)%Z -> ~ X j -> block_of (f_synced f) j = block_of (f_data f) j.

Lemma write_shape i blk (d : FileBlockDevice) r d' :
  dev_ok d -> (0 <= i)%Z -> write_block i blk d = (r, d') ->
  length (f_data (fb_file d')) = length (f_data (fb_file d)) /\
  f_synced (fb_file d') = f_synced (fb_file d).
Proof.
  intros (H0 & H1 & H2) Hi H. simpl in H.
  unfold file_write, offset, on_file, mbind, M_bind, seek, write_all in H.
  case_decide as Hb; [by injection H as <- <-|]. case_decide as Hc; [by injection H as <- <-|].
  assert (Hr := blocks_in_range _ (fb_count d) i H2 ltac:(lia)).
  destruct (next_event (fb_file d)) as [[|k w] f1] eqn:E1;
    apply next_event_data in E1 as (E1 & E1' & _).
  2: { injection H as <- <-. simpl. by rewrite E1, E1'. }
  destruct (next_event f1) as [[|k w] f2] eqn:E2;
    apply next_event_data in E2 as (E2 & E2' & _); injection H as <- <-; simpl;
    rewrite E2, E2', E1, E1'; (split; [|done]); apply splice_length; rewrite ?length_take; lia.
Qed.

Lemma steps_shape X (d d' : FileBlockDevice) :
  dev_ok d -> dev_steps X d d' ->
  length (f_data (fb_file d')) = length (f_data (fb_file d)) /\
  fb_count d' = fb_count d /\ (quiet X (fb_file d) -> quiet X (fb_file d')).
Proof.
  intros Hok Hs. induction Hs as [|d1 i blk r d2 Hs (L1 & C1 & Q1) HX Hi Hw
    |d1 r d2 Hs (L1 & C1 & Q1) Hw]; [done| |].
  - destruct (dev_steps_untouched X d d1 Hok Hs) as [Hok1 _].
    destruct (write_shape i blk d1 r d2 Hok1 Hi Hw) as [L2 S2].
    assert (Hs2 : dev_steps X d1 d2) by (eapply ds_write; [constructor|done..]).
    destruct (dev_steps_untouched X d1 d2 Hok1 Hs2) as [_ [C2 Hun]].
    split; [congruence|]. split; [simpl in C2; congruence|].
    intros Hq j Hj HXj. rewrite S2, (Q1 Hq j Hj HXj). symmetry. by apply Hun.
  - simpl in Hw. unfold file_sync, on_file, sync_all in Hw.
    destruct (next_event (fb_file d1)) as [[|k w] f1] eqn:E1;
      apply next_event_data in E1 as (E1 & E1' & _); injection Hw as <- <-; simpl;
      unfold quiet; simpl; rewrite E1, ?E1'; done.
Qed.

(** ** The invariant *)

Definition is_sublist (a b : list (Z * list byte)) : Prop := a `sublist_of` b.

(** The open database: the device [d0] the current log started from shows the
    writes [ws0] of earlier logs, [rs] are the records of the log, [ss] the
    durable ones. *)
Record up_ok base acked att (db : Database) d0 ws0 rs ss (k : nat) : Prop := {
  up_dev : dev_ok d0;
  up_base : forall id, valid_id id -> dview d0 id = overlay ws0 base id;
  up_eng : eng_ok d0 rs (engine db);
  up_whole : (Z.of_nat (length (f_data (fb_file d0))) / Z.of_nat BLOCK_SIZE)%Z = fb_count d0;
  up_wal : f_data (wal_file db) = take k (Wal.log_of rs);
  up_k : k <= length (Wal.log_of rs);
  up_synced : f_synced (wal_file db) = Wal.log_of ss;
  up_prefix : ss `prefix_of` rs;
  up_steps : dev_steps (targets (committed ss)) d0 (Page.device (pool (engine db)));
  up_quiet : quiet (targets (committed ss)) (fb_file (Page.device (pool (engine db))));
  up_acked : acked `sublist_of` ws0 ++ committed ss;
  up_att : ws0 ++ all_writes rs `sublist_of` att;
}.

(** The closed files: [rs] are the records of the sidecar. *)
Record down_ok base acked att (fs : file * file) (d0 d : FileBlockDevice) ws0 rs tail : Prop := {
  dn_dev : dev_ok d0;
  dn_base : forall id, valid_id id -> dview d0 id = overlay ws0 base id;
  dn_open : FileDevice.open (fst fs) = Ok d;
  dn_ok : dev_ok d;
  dn_parse : Wal.parses (f_data (snd fs)) rs tail;
  dn_synced : f_synced (snd fs) = f_data (snd fs);
  dn_fine : Forall (rec_fine d0) rs;
  dn_untouched : untouched d0 (targets (committed rs)) d;
  dn_quiet : quiet (targets (committed rs)) (fst fs);
  dn_acked : acked `sublist_of` ws0 ++ committed rs;
  dn_att : ws0 ++ all_writes rs `sublist_of` att;
}.

Definition state_ok base acked att (st : state) : Prop :=
  match st with
  | Up db => exists d0 ws0 rs ss k, up_ok base acked att db d0 ws0 rs ss k
  | Down fs => exists d0 d ws0 rs tail, down_ok base acked att fs d0 d ws0 rs tail
  end.

(** ** [put] *)

Lemma seek_spec f r f' :
  seek f = (r, f') -> r <> Panic /\ f_data f' = f_data f /\ f_synced f' = f_synced f.
Proof.
  unfold seek. destruct (next_event f) as [[|] f1] eqn:E;
    apply next_event_data in E as (E1 & E2 & _); intros [= <- <-]; done.
Qed.

Lemma splice_prefix {A} n m (l : list A) : splice 0 (take m l) (take n l) = take (max n m) l.
Proof.
  unfold splice. change (take 0 (take n l)) with (@nil A). rewrite app_nil_l, length_take, Nat.add_0_l.
  destruct (decide (n <= m)) as [Hn|Hn].
  - rewrite drop_ge, app_nil_r by (rewrite length_take; lia). by rewrite Nat.max_r by done.
  - rewrite Nat.max_l by lia. destruct (decide (length l <= m)) as [Hl|Hl].
    + rewrite drop_ge, app_nil_r by (rewrite length_take; lia). by rewrite !take_ge by lia.
    + rewrite Nat.min_l by lia. rewrite <- (take_drop m (take n l)) at 2.
      f_equal. rewrite take_take. f_equal. lia.
Qed.

Lemma write_all_spec f old n bytes r f' :
  f_data f = take n old -> old `prefix_of` bytes -> n <= length old ->
  write_all 0 bytes f = (r, f') ->
  r <> Panic /\ f_synced f' = f_synced f /\
  exists k, f_data f' = take k bytes /\ k <= length bytes /\ (r = Ok tt -> k = length bytes).
Proof.
  intros Hd [more ->] Hn E. rewrite <- (take_app_le old more n Hn) in Hd.
  rewrite length_app. unfold write_all in E.
  destruct (next_event f) as [[|w m] f1] eqn:E1;
    apply next_event_data in E1 as (E1 & E2 & _); injection E as <- <-; simpl;
    (split; [done|]); (split; [done|]); rewrite E1, Hd.
  - exists (length (old ++ more)). rewrite length_app. split; [|done].
    assert (Hs := splice_prefix n (length (old ++ more)) (old ++ more)).
    rewrite firstn_all, length_app, Nat.max_r in Hs by lia. exact Hs.
  - exists (min (max n m) (length old + length more)). split; [|split; [lia|done]].
    rewrite splice_prefix. destruct (decide (max n m <= length old + length more)) as [Hx|Hx].
    + by rewrite Nat.min_l by done.
    + rewrite Nat.min_r by lia. rewrite <- (length_app old more), firstn_all, take_ge; [done|].
      rewrite length_app. lia.
Qed.

Lemma set_len_spec f n r f' :
  FileDevice.set_len n f = (r, f') ->
  r <> Panic /\
  (r = Ok tt -> n <= length (f_data f) ->
     f_data f' = take n (f_data f) /\ f_synced f' = take n (f_synced f)) /\
  (r <> Ok tt -> f_data f' = f_data f /\ f_synced f' = f_synced f).
Proof.
  unfold FileDevice.set_len. destruct (next_event f) as [[|k w] f1] eqn:E;
    apply next_event_data in E as (E1 & E2 & _); intros [= <- <-].
  - split; [done|]. split; [|done]. intros _ Hn. simpl. rewrite E1, E2. unfold resize.
    replace (n - length (f_data f)) with 0 by lia. by rewrite !app_nil_r.
  - split; [done|]. split; done.
Qed.

Lemma sync_all_spec f r f' :
  sync_all f = (r, f') ->
  r <> Panic /\ f_data f' = f_data f /\
  f_synced f' = match r with Ok _ => f_data f | _ => f_synced f end.
Proof.
  unfold sync_all. destruct (next_event f) as [[|] f1] eqn:E;
    apply next_event_data in E as (E1 & E2 & _); intros [= <- <-]; simpl; rewrite ?E1; done.
Qed.

(** Rewriting the sidecar with a log that extends what it holds: whatever
    fails, it holds a prefix of the new log, and what was durable stays so. *)
Lemma persist_wal_spec db old n synced r db' :
  f_data (wal_file db) = take n old -> n <= length old ->
  old `prefix_of` wal_bytes (engine db) ->
  f_synced (wal_file db) = synced -> synced `prefix_of` wal_bytes (engine db) ->
  persist_wal db = (r, db') ->
  let bytes := wal_bytes (engine db) in
  r <> Panic /\ engine db' = engine db /\
  exists k, f_data (wal_file db') = take k bytes /\ k <= length bytes /\
  f_synced (wal_file db') = match r with Ok _ => bytes | _ => synced end.
Proof.
  intros Hd Hn Hp Hsy Hsp E bytes. unfold persist_wal in E.
  rewrite (bind_ok m_get _ db db db) in E by done. cbv beta zeta in E. fold bytes in E, Hp, Hsp.
  unfold on_wal_file in E.
  set (m := _ ;; _) in E. destruct (m (wal_file db)) as [rm fm] eqn:Em.
  injection E as <- <-. simpl. enough (rm <> Panic /\ exists k, f_data fm = take k bytes /\
    k <= length bytes /\ f_synced fm = match rm with Ok _ => bytes | _ => synced end) by tauto.
  assert (Hold : exists k, take n old = take k bytes /\ k <= length bytes).
  { destruct Hp as [more Hb]. exists n. rewrite Hb, length_app, take_app_le by lia. split; [done|lia]. }
  unfold m, mbind, M_bind in Em. clear m.
  destruct (seek (wal_file db)) as [r1 f1] eqn:E1.
  destruct (seek_spec _ _ _ E1) as (N1 & D1 & S1).
  destruct r1 as [[]|e1|]; [| |done].
  2: { injection Em as <- <-. split; [done|]. rewrite D1, S1, Hd. destruct Hold as (k & -> & Hk); eauto. }
  destruct (write_all 0 bytes f1) as [r2 f2] eqn:E2.
  destruct (write_all_spec f1 old n bytes r2 f2 ltac:(congruence) Hp Hn E2)
    as (N2 & S2 & k & D2 & Hk & Hfull).
  destruct r2 as [[]|e2|]; [| |done].
  2: { injection Em as <- <-. split; [done|]. exists k. split; [done|]. split; [done|]. congruence. }
  specialize (Hfull eq_refl) as ->. rewrite firstn_all in D2.
  destruct (FileDevice.set_len (length bytes) f2) as [r3 f3] eqn:E3.
  destruct (set_len_spec _ _ _ _ E3) as (N3 & Y3 & Z3).
  destruct r3 as [[]|e3|]; [| |done].
  2: { destruct (Z3 ltac:(done)) as [D3 S3]. injection Em as <- <-. split; [done|].
       exists (length bytes). rewrite firstn_all. split; [congruence|]. split; [done|congruence]. }
  destruct (Y3 eq_refl ltac:(rewrite D2; done)) as [D3 S3]. rewrite D2, firstn_all in D3.
  assert (S3' : f_synced f3 = synced).
  { rewrite S3, S2, S1, Hsy. apply take_ge. destruct Hsp as [more Hb]. rewrite Hb, length_app. lia. }
  destruct (sync_all_spec _ _ _ Em) as (N4 & D4 & S4).
  split; [done|]. exists (length bytes). rewrite firstn_all. split; [congruence|]. split; [done|].
  rewrite S4. destruct rm; congruence.
Qed.

Lemma prefix_sublist {A} (a b : list A) : a `prefix_of` b -> a `sublist_of` b.
Proof. intros [k ->]. by apply sublist_inserts_r. Qed.

Lemma log_of_prefix a b : a `prefix_of` b -> Wal.log_of a `prefix_of` Wal.log_of b.
Proof. intros [k ->]. rewrite Wal.log_of_app. by eexists. Qed.

(** A [put] that failed before its log record was persisted. *)
Lemma up_ok_same base acked att db d0 ws0 rs ss k e' w :
  up_ok base acked att db d0 ws0 rs ss k -> eng_ok d0 rs e' ->
  Page.device (pool e') = Page.device (pool (engine db)) ->
  up_ok base acked (att ++ [w]) {| engine := e'; wal_file := wal_file db |} d0 ws0 rs ss k.
Proof.
  intros [] He Hd. split; simpl; rewrite ?Hd; try done.
  by apply sublist_inserts_r.
Qed.

(** The records a [put] logs. *)
Lemma put_log rs lsn lsn' id pg b p :
  length pg = PAGE_SIZE ->
  let rs' := (rs ++ [Wal.mkRecord lsn Wal.PageWrite id pg]) ++ [Wal.mkRecord lsn' Wal.Commit b p] in
  rs `prefix_of` rs' /\ all_writes rs' = all_writes rs ++ [(id, pg)] /\ committed rs' = all_writes rs'.
Proof.
  intros Hl rs'.
  assert (Himg : all_writes [Wal.mkRecord lsn Wal.PageWrite id pg] = [(id, pg)]).
  { unfold all_writes, image. simpl. by rewrite decide_True. }
  assert (Haw : all_writes rs' = all_writes rs ++ [(id, pg)]).
  { unfold rs'. rewrite !all_writes_app, Himg. apply app_nil_r. }
  split; [|split; [done|]].
  - unfold rs'. rewrite <- app_assoc. by eexists.
  - unfold rs' at 1. rewrite committed_marker by done. by rewrite all_writes_app, Himg.
Qed.

(** A [put] whose record reached the disk, after the flush that follows. *)
Lemma up_ok_flushed base acked att db d0 ws0 rs ss k rs' w (ack : bool) e f k' :
  up_ok base acked att db d0 ws0 rs ss k -> rs `prefix_of` rs' ->
  all_writes rs' = all_writes rs ++ [w] -> committed rs' = all_writes rs' ->
  eng_ok d0 rs' e ->
  dev_steps (targets (committed rs')) (Page.device (pool (engine db))) (Page.device (pool e)) ->
  f_data f = take k' (Wal.log_of rs') -> k' <= length (Wal.log_of rs') ->
  f_synced f = Wal.log_of rs' ->
  up_ok base (acked ++ if ack then [w] else []) (att ++ [w])
    {| engine := e; wal_file := f |} d0 ws0 rs' rs' k'.
Proof.
  intros [U1 U2 U3 U4 U5 U5' U6 U7 U8 U9 U10 U11] Hpre Haw Hcm He St Hf Hk Hs.
  assert (Hmono : forall j, targets (committed ss) j -> targets (committed rs') j).
  { intros j. apply targets_prefix, committed_mono. by etrans. }
  assert (Hst : dev_steps (targets (committed rs')) d0 (Page.device (pool (engine db))))
    by (eapply dev_steps_mono; [exact Hmono|done]).
  split; cbn [engine wal_file]; try done.
  - by eapply dev_steps_trans.
  - destruct (dev_steps_untouched _ _ _ U1 Hst) as [Hokd _].
    apply (steps_shape _ _ _ Hokd St). intros j Hj HX. apply U9; [done|]. auto.
  - rewrite Hcm, Haw, app_assoc. apply sublist_app.
    + etrans; [exact U10|]. apply sublist_app; [done|]. apply prefix_sublist.
      etrans; [apply committed_mono; exact U7|apply committed_all].
    + by destruct ack; [|apply sublist_nil_l].
  - rewrite Haw, app_assoc. by apply sublist_app.
Qed.

Lemma put_ok base acked att db d0 ws0 rs ss k id pg r db' :
  up_ok base acked att db d0 ws0 rs ss k -> (0 <= id)%Z -> put id pg db = (r, db') ->
  r <> Panic /\
  exists rs' ss' k', up_ok base (acked ++ if is_ok r then [(id, pg)] else []) (att ++ [(id, pg)])
    db' d0 ws0 rs' ss' k'.
Proof.
  intros Hup Hid E. unfold put in E.
  unfold mbind at 1, M_bind at 1, on_engine at 1 in E.
  destruct (write_page id pg (engine db)) as [r1 e1] eqn:E1.
  destruct (write_page_spec d0 rs _ _ _ _ _ (up_eng _ _ _ _ _ _ _ _ _ Hup)
    (up_dev _ _ _ _ _ _ _ _ _ Hup) Hid E1) as [Hd1 H1].
  destruct r1 as [[]|err|]; [| |done].
  2: { injection E as <- <-. split; [done|]. rewrite app_nil_r.
       exists rs, ss, k. by apply up_ok_same. }
  destruct H1 as (Hlen & Hr & He1). set (rec := Wal.mkRecord _ _ _ _) in He1.
  unfold mbind at 1, M_bind at 1, on_engine at 1 in E. cbn [engine wal_file] in E.
  destruct (append_commit_spec d0 _ e1 He1) as (e2 & E2 & Hp2 & He2). rewrite E2 in E.
  set (mark := Wal.mkRecord _ Wal.Commit _ _) in He2. clear E1 E2.
  set (rs' := (rs ++ [rec]) ++ [mark]) in He2.
  assert (Hlog : rs `prefix_of` rs' /\ all_writes rs' = all_writes rs ++ [(id, pg)] /\
                 committed rs' = all_writes rs') by by apply put_log.
  destruct Hlog as (Hpre & Haw & Hcm).
  unfold mbind at 1, M_bind at 1 in E.
  destruct (persist_wal {| engine := e2; wal_file := wal_file db |}) as [r3 db3] eqn:E3.
  assert (Hb2 : wal_bytes e2 = Wal.log_of rs') by apply (eo_bytes _ _ _ He2).
  assert (Hup' := Hup). destruct Hup' as [U1 U2 U3 U4 U5 U5' U6 U7 U8 U9 U10 U11].
  destruct (persist_wal_spec {| engine := e2; wal_file := wal_file db |} (Wal.log_of rs) k
    (Wal.log_of ss) r3 db3 U5 U5') as (N3 & Hen & k' & D3 & K3 & S3);
    [cbn [engine]; rewrite Hb2; by apply log_of_prefix|done| |exact E3|].
  { cbn [engine]. rewrite Hb2. apply log_of_prefix. by etrans. }
  cbn [engine] in Hen, D3, K3, S3. rewrite Hb2 in D3, K3, S3.
  assert (Hdev2 : Page.device (pool e2) = Page.device (pool (engine db))) by by rewrite Hp2.
  destruct r3 as [[]|err|]; [| |done].
  2: { injection E as <- <-. split; [done|]. rewrite app_nil_r. exists rs', ss, k'.
       split; rewrite ?Hen, ?Hdev2; try done; [by etrans|].
       rewrite Haw, app_assoc. by apply sublist_app. }
  unfold on_engine in E. rewrite Hen in E.
  destruct (flush_data e2) as [r4 e4] eqn:E4. injection E as <- <-.
  destruct (flush_data_spec d0 rs' e2 r4 e4 He2 E4) as (N4 & _ & He4 & St4 & _).
  split; [done|]. exists rs', rs', k'. rewrite <- Hcm, Hdev2 in St4.
  by eapply up_ok_flushed.
Qed.

(** ** [create] and [get] *)

Lemma create_ok' data walf n db :
  (0 <= n)%Z -> f_synced data = f_data data -> create data walf n = Ok db ->
  up_ok (dview (Page.device (pool (engine db)))) [] [] db
    (Page.device (pool (engine db))) [] [] [] 0.
Proof.
  intros Hn Hsy E. unfold create in E.
  destruct (FileDevice.create data n) as [d| |] eqn:Ec; [|done..].
  destruct (new d DB_CAPACITY) as [e| |] eqn:Ee; [|done..]. injection E as <-.
  destruct (create_ok _ _ _ Hn Ec) as [Hok Hcnt].
  assert (Hokd : dev_ok d) by exact Hok.
  destruct (new_engine d _ e Hokd Ee) as [He Hd]. cbn [engine]. rewrite Hd.
  assert (Hshape : Z.of_nat (length (f_data (fb_file d))) = (n * Z.of_nat BLOCK_SIZE)%Z /\
    f_synced (fb_file d) = f_data (fb_file d)).
  { clear He Hd Ee. unfold FileDevice.create, FileDevice.set_len in Ec.
    case_decide as Hlim; [done|].
    destruct (next_event data) as [[|] f1] eqn:E1; [|done].
    apply next_event_data in E1 as (E1 & E2 & _). injection Ec as <-. simpl.
    rewrite E1, E2, Hsy. split; [|done]. unfold resize.
    rewrite length_app, length_take, length_replicate. lia. }
  destruct Hshape as [Hl Hs].
  split; cbn [engine wal_file]; try done.
  - rewrite Hl, Z.div_mul by (rewrite BLOCK_SIZE_Z; lia). by rewrite <- Hcnt.
  - rewrite Hd. constructor.
  - rewrite Hd. intros j Hj _. by rewrite Hs.
Qed.

Lemma get_ok base acked att db d0 ws0 rs ss k id r db' :
  up_ok base acked att db d0 ws0 rs ss k -> valid_id id -> get id db = (r, db') ->
  up_ok base acked att db' d0 ws0 rs ss k /\
  match r with
  | Ok pg => overlay (ws0 ++ all_writes rs) base id = Some pg
  | Err _ => True
  | Panic => False
  end.
Proof.
  intros Hup Hid E. unfold get, on_engine in E.
  destruct (read_page id (engine db)) as [r1 e1] eqn:E1. injection E as <- <-.
  destruct Hup as [U1 U2 U3 U4 U5 U5' U6 U7 U8 U9 U10 U11].
  destruct (read_page_spec d0 rs _ _ _ _ U3 Hid E1) as (He & Hd & _ & Hr).
  split.
  - split; cbn [engine wal_file]; rewrite ?Hd; done.
  - destruct r1; try done. rewrite overlay_app, <- Hr. apply overlay_ext.
    intros _. by rewrite <- U2.
Qed.

(** ** Crashes *)

Lemma open_files f d : FileDevice.open f = Ok d -> fb_file d = f /\
  fb_count d = (Z.of_nat (length (f_data f)) / Z.of_nat BLOCK_SIZE)%Z.
Proof. by intros [= <-]. Qed.

Lemma crash_up_ok base acked att db fs d0 ws0 rs ss k :
  up_ok base acked att db d0 ws0 rs ss k -> crash (files db) fs ->
  exists rs' tail d, down_ok base acked att fs d0 d ws0 rs' tail.
Proof.
  intros [U1 U2 U3 U4 U5 U5' U6 U7 U8 U9 U10 U11] [(C1 & C2 & C3) (C4 & C5 & C6)].
  destruct fs as [data' walf']. simpl in C1, C2, C3, C4, C5, C6.
  set (dc := Page.device (pool (engine db))) in *.
  destruct (Wal.parses_exists (f_data walf')) as (rs' & tail & Hp).
  exists rs', tail.
  assert (Hwf := eng_ok_wf_log _ _ _ U3).
  rewrite (Wal.records_parses _ _ _ Hp) in C5, C6.
  rewrite U6, (Wal.records_parses _ ss []) in C5
    by (apply Wal.log_parses; destruct U7 as [m ->]; apply Forall_app in Hwf; tauto).
  destruct (Wal.cut_parses rs k Hwf) as [tl Hcut].
  rewrite U5, (Wal.records_parses _ _ _ Hcut) in C6.
  assert (Hpre : rs' `prefix_of` rs) by (etrans; [exact C6|apply Wal.fitting_prefix]).
  assert (Hst := dev_steps_mono _ (targets (committed rs')) _ _
    (fun j => targets_prefix _ _ j (committed_mono _ _ C5)) U8).
  destruct (dev_steps_untouched _ _ _ U1 Hst) as [Hokc [Hcc Huc]].
  destruct (steps_shape _ _ _ U1 Hst) as (Hlc & Hcnt & _).
  fold dc in Hlc, Hcnt, Hokc, Hcc, Huc.
  eexists. split; [exact U1|exact U2|reflexivity|..].
  - simpl. rewrite C1. destruct Hokc as (K0 & K1 & K2).
    assert (Hb := BLOCK_SIZE_Z). cbn [fst files] in *. fold dc.
    unfold ok. cbn [fb_count fb_file]. rewrite Hlc, U4, C1, Hlc. rewrite Hcnt, Hlc in *. done.
  - exact Hp.
  - done.
  - destruct U3 as [_ _ _ _ Hr _ _ _]. destruct Hpre as [m ->]. by apply Forall_app in Hr as [Hr _].
  - split.
    + simpl. rewrite C1. cbn [fst files]. fold dc. by rewrite Hlc, U4.
    + intros j Hj HX. simpl. unfold block. cbn [fb_file]. rewrite C3; [by apply Huc|done|].
      apply U9; [done|]. intros Ht. apply HX. by apply (targets_prefix _ _ _ (committed_mono _ _ C5)).
  - intros j _ _. simpl. by rewrite C2.
  - etrans; [exact U10|]. apply sublist_app; [done|]. by apply prefix_sublist, committed_mono.
  - etrans; [|exact U11]. apply sublist_app; [done|]. apply prefix_sublist.
    destruct Hpre as [m ->]. rewrite all_writes_app. by eexists.
Qed.

Lemma crash_down_ok base acked att fs fs' d0 d ws0 rs tail :
  down_ok base acked att fs d0 d ws0 rs tail -> crash fs fs' ->
  exists tail' d', down_ok base acked att fs' d0 d' ws0 rs tail'.
Proof.
  intros [N1 N2 N3 N4 N5 N6 N7 N8 N9 N10 N11] [(C1 & C2 & C3) (C4 & C5 & C6)].
  destruct (Wal.parses_exists (f_data (snd fs'))) as (rs' & tail' & Hp).
  rewrite N6, (Wal.records_parses _ _ _ Hp), (Wal.records_parses _ _ _ N5) in *.
  assert (rs' = rs) as ->.
  { destruct C5 as [a Ha], C6 as [b Hb]. subst rs'. rewrite <- app_assoc in Hb.
    apply (f_equal length) in Hb as Hlen. rewrite !length_app in Hlen.
    destruct a; [by rewrite app_nil_r|simpl in Hlen; lia]. }
  apply open_files in N3 as Hd. destruct Hd as [Hf Hc].
  exists tail'. eexists. split; [exact N1|exact N2|reflexivity|..]; try done.
  - destruct N4 as (K0 & K1 & K2). unfold dev_ok; simpl. unfold ok. cbn [fb_count fb_file].
    rewrite Hc, Hf in *. rewrite C1. done.
  - split; [simpl; rewrite C1, <- Hc; apply N8|]. intros j Hj HX. destruct N8 as [_ Hu].
    rewrite <- (Hu j Hj HX). simpl. unfold block. cbn [fb_file]. rewrite Hf.
    apply C3; [done|]. by apply N9.
  - intros j _ _. by rewrite C2.
Qed.

(** ** [open] *)

Lemma read_to_end_spec f r f' :
  read_to_end f = (r, f') ->
  r <> Panic /\ f_data f' = f_data f /\ f_synced f' = f_synced f /\
  (forall buf, r = Ok buf -> buf = f_data f).
Proof.
  unfold read_to_end, mbind, M_bind. intros E.
  destruct (seek f) as [r1 f1] eqn:E1. destruct (seek_spec _ _ _ E1) as (N & D & S).
  destruct r1 as [[]|e|]; [| |done].
  - unfold read_all in E. destruct (f_bad f1 0); injection E as <- <-; [done|].
    split_and!; try done. intros buf [= <-]. done.
  - by injection E as <- <-.
Qed.

(** A failed [open] leaves the sidecar as it was, and the data file changed only
    where the log names it. *)
Lemma down_ok_step base acked att fs d0 d ws0 rs tail d1 walf' :
  down_ok base acked att fs d0 d ws0 rs tail ->
  dev_steps (targets (committed rs)) d d1 ->
  f_data walf' = f_data (snd fs) -> f_synced walf' = f_synced (snd fs) ->
  exists d', down_ok base acked att (fb_file d1, walf') d0 d' ws0 rs tail.
Proof.
  intros [N1 N2 N3 N4 N5 N6 N7 N8 N9 N10 N11] Hst HD HS.
  destruct (dev_steps_untouched _ _ _ N4 Hst) as [Hok1 Hun1].
  destruct (steps_shape _ _ _ N4 Hst) as (Hl & Hcnt & Hq).
  apply open_files in N3 as [Hf Hc].
  assert (Hd' : FileDevice.open (fb_file d1) = Ok d1).
  { unfold FileDevice.open. rewrite Hl, Hf, <- Hc, <- Hcnt. by destruct d1. }
  exists d1. split; simpl; rewrite ?HD, ?HS; try done.
  - by eapply untouched_trans.
  - apply Hq. by rewrite Hf.
Qed.

Lemma new_with_device (d d1 : FileBlockDevice) cap e :
  new d cap = Ok e ->
  new d1 cap = Ok {| pool := Page.with_device d1 (pool e); wal := Wal.new |} /\ wal e = Wal.new.
Proof.
  unfold new, Page.new. case_decide; [|done]. intros [= <-]. done.
Qed.

Lemma flush_quiet (d : FileBlockDevice) cap e w r e' :
  dev_ok d -> new d cap = Ok e -> flush_data {| pool := pool e; wal := w |} = (r, e') ->
  r <> Panic /\ wal e' = w /\ Page.frames (pool e') = [] /\
  dev_steps (fun _ => False) d (Page.device (pool e')) /\
  (r = Ok tt -> quiet (fun _ => False) (fb_file (Page.device (pool e')))) /\
  eng_ok d [] {| pool := pool e'; wal := Wal.new |}.
Proof.
  intros Hok Hnew E. destruct (new_engine d cap e Hok Hnew) as [He Hd].
  assert (Hfr : Page.frames (pool e) = [])
    by (unfold new, Page.new in Hnew; case_decide; [|done]; by injection Hnew as <-).
  unfold flush_data, on_pool in E. cbn [pool wal] in E.
  assert (E2 : flush_data e = let '(r, p') := Page.flush_all (pool e) in
    (r, {| pool := p'; wal := wal e |})) by done.
  destruct (Page.flush_all (pool e)) as [rf pf] eqn:Ef. injection E as <- <-.
  destruct (flush_data_spec d [] e _ _ He E2) as (Hnp & _ & He2 & Hst & _).
  rewrite Hd in Hst. cbn [pool] in Hst, He2.
  unfold Page.flush_all in Ef. rewrite (bind_ok m_get _ (pool e) (pool e) (pool e)) in Ef by done.
  rewrite Hfr in Ef. cbn [length Page.flush_from] in Ef.
  rewrite (bind_ok _ _ (pool e) tt (pool e)) in Ef by done. unfold Page.on_device in Ef.
  destruct (sync (Page.device (pool e))) as [rs ds] eqn:Es. injection Ef as <- <-.
  split; [done|]. split; [done|]. split; [done|]. split.
  - eapply dev_steps_mono; [|exact Hst]. intros j Hj. by apply elem_of_nil in Hj.
  - split.
    + intros ->. cbn [Page.device Page.with_device pool]. simpl in Es.
      unfold file_sync, on_file, sync_all in Es.
      destruct (next_event _) as [[|] f1] eqn:E1; [|done]. injection Es as <-. intros j Hj _.
      simpl. by apply next_event_data in E1 as [-> _].
    + destruct (new_with_device d d cap e Hnew) as [_ Hw]. rewrite Hw in He2. exact He2.
Qed.

(** The database once everything is replayed, flushed and the sidecar cleared. *)
Lemma up_ok_checkpointed base acked att fs d0 d ws0 rs tail d1 e w :
  down_ok base acked att fs d0 d ws0 rs tail ->
  dev_steps (targets (committed rs)) d d1 ->
  (forall id, (0 <= id)%Z -> dview d1 id = overlay (committed rs) (dview d) id) ->
  eng_ok d1 [] e -> dev_steps (fun _ => False) d1 (Page.device (pool e)) ->
  quiet (fun _ => False) (fb_file (Page.device (pool e))) ->
  f_data w = [] -> f_synced w = [] ->
  up_ok base acked att {| engine := e; wal_file := w |} d1 (ws0 ++ committed rs) [] [] 0.
Proof.
  intros [N1 N2 N3 N4 N5 N6 N7 N8 N9 N10 N11] Hst Hv He Hst2 Hq HD HS.
  destruct (dev_steps_untouched _ _ _ N4 Hst) as [Hok1 Hun1].
  destruct (steps_shape _ _ _ N4 Hst) as (Hl1 & Hc1 & _).
  destruct (open_files _ _ N3) as [Hfd Hcd].
  split; cbn [engine wal_file pool]; try done.
  - intros id Hid. rewrite Hv by apply Hid. rewrite overlay_app.
    apply overlay_ext. intros Hx. rewrite <- (N2 id Hid).
    apply (untouched_dview _ _ _ _ N8); [apply Hid|done].
  - by rewrite Hl1, Hc1, Hfd, Hcd.
  - eapply dev_steps_mono; [|exact Hst2]. done.
  - intros j Hj _. apply (Hq j Hj). tauto.
  - by rewrite app_nil_r.
  - rewrite app_nil_r. etrans; [|exact N11]. apply sublist_app; [done|].
    apply prefix_sublist, committed_all.
Qed.

(** Opening the files of an empty log changes nothing. *)
Lemma up_ok_opened base acked att fs d0 d ws0 tail e w :
  down_ok base acked att fs d0 d ws0 [] tail -> new d DB_CAPACITY = Ok e ->
  f_data w = [] -> f_synced w = [] ->
  up_ok base acked att {| engine := e; wal_file := w |} d ws0 [] [] 0.
Proof.
  intros [N1 N2 N3 N4 N5 N6 N7 N8 N9 N10 N11] Hnew HD HS.
  destruct (new_engine d _ e N4 Hnew) as [He Hde]. destruct (open_files _ _ N3) as [Hfd Hcd].
  split; cbn [engine wal_file]; rewrite ?Hde; try done.
  - intros id Hid. rewrite <- (N2 id Hid). apply (untouched_dview _ _ _ _ N8); [apply Hid|].
    intros Hx. by apply elem_of_nil in Hx.
  - by rewrite Hfd, Hcd.
  - constructor.
  - by rewrite Hfd.
Qed.

(** A log without bytes holds no record. *)
Lemma parses_nil rs tail : Wal.parses [] rs tail -> rs = [].
Proof.
  intros (Hnil & _ & _). destruct rs as [|r rs]; [done|].
  apply (f_equal length) in Hnil. rewrite Wal.log_of_cons, !length_app, Wal.frame_length in Hnil.
  unfold Wal.encoded_len in Hnil. simpl in Hnil. lia.
Qed.

Lemma checkpoint_spec base acked att fs d0 d ws0 rs tail e w1 r db :
  down_ok base acked att fs d0 d ws0 rs tail -> new d DB_CAPACITY = Ok e ->
  f_data w1 = f_data (snd fs) -> f_synced w1 = f_synced (snd fs) ->
  checkpoint (f_data (snd fs)) {| engine := e; wal_file := w1 |} = (r, db) ->
  match r with
  | Ok _ => replays_all fs -> exists d0' ws0', up_ok base acked att db d0' ws0' [] [] 0
  | Err _ => exists d', down_ok base acked att (files db) d0 d' ws0 rs tail
  | Panic => False
  end.
Proof.
  intros Hdn Hnew HD HS E.
  assert (Hstay : forall d1 w, dev_steps (targets (committed rs)) d d1 ->
    f_data w = f_data w1 -> f_synced w = f_synced w1 ->
    exists d', down_ok base acked att (fb_file d1, w) d0 d' ws0 rs tail).
  { intros d1 w Hs HDw HSw. apply (down_ok_step base acked att fs d0 d ws0 rs tail); congruence. }
  assert (Hdn' := Hdn). destruct Hdn' as [N1 N2 N3 N4 N5 N6 N7 N8 N9 N10 N11].
  destruct (new_engine d _ e N4 Hnew) as [He Hde].
  unfold checkpoint, on_engine, on_wal_file in E.
  unfold mbind at 1, M_bind at 1 in E. cbn [engine wal_file] in E.
  destruct (recover_spec e _ rs tail ltac:(by rewrite Hde) N5) as (d1 & n & Er & Hn & Hst & Hv).
  rewrite Hde in Hst, Hv. rewrite Er in E.
  destruct (dev_steps_untouched _ _ _ N4 Hst) as [Hok1 Hun1].
  destruct (new_with_device d d1 _ e Hnew) as [Hnew1 _].
  unfold mbind at 1, M_bind at 1 in E. cbn [engine wal_file] in E.
  destruct (flush_data _) as [r2 e2] eqn:E2.
  destruct (flush_quiet d1 _ _ _ _ _ Hok1 Hnew1 E2) as (Hnp & _ & Hfr & Hst2 & Hq & He2).
  assert (Hst12 : dev_steps (targets (committed rs)) d (Page.device (pool e2))).
  { eapply dev_steps_trans; [exact Hst|]. eapply dev_steps_mono; [|exact Hst2]. done. }
  destruct r2 as [[]|err|]; [| |done].
  2: { injection E as <- <-. by apply Hstay. }
  unfold mbind at 1, M_bind at 1, reset_wal, m_modify in E. cbn [engine wal_file pool] in E.
  unfold mbind, M_bind in E.
  destruct (seek w1) as [r3 w3] eqn:E3. destruct (seek_spec _ _ _ E3) as (P3 & D3 & S3).
  destruct r3 as [[]|err|]; [| |done].
  2: { injection E as <- <-. by apply Hstay. }
  destruct (FileDevice.set_len 0 w3) as [r4 w4] eqn:E4.
  destruct (set_len_spec _ _ _ _ E4) as (P4 & Y4 & Z4). injection E as <- <-.
  destruct r4 as [[]|err|]; [| |done].
  2: { destruct (Z4 ltac:(done)) as [D4 S4]. unfold files; cbn [engine wal_file pool]. apply Hstay; [done|congruence..]. }
  destruct (Y4 eq_refl ltac:(lia)) as [D4 S4].
  intros (d' & e' & n' & e'' & R1 & R2 & R3 & R4).
  assert (d' = d) as -> by congruence. assert (e' = e) as -> by congruence.
  rewrite Er in R3. injection R3 as <- _. rewrite (Wal.records_parses _ _ _ N5) in R4.
  exists d1, (ws0 ++ committed rs).
  eapply up_ok_checkpointed; eauto; congruence.
Qed.

Lemma open_down base acked att fs d0 d ws0 rs tail r fs' :
  down_ok base acked att fs d0 d ws0 rs tail -> open fs = (r, fs') ->
  match r with
  | Ok db => replays_all fs -> exists d0' ws0', up_ok base acked att db d0' ws0' [] [] 0
  | Err _ => exists d', down_ok base acked att fs' d0 d' ws0 rs tail
  | Panic => False
  end.
Proof.
  intros Hdn E. destruct fs as [data walf].
  assert (Hdn' := Hdn). destruct Hdn' as [N1 N2 N3 N4 N5 N6 N7 N8 N9 N10 N11].
  cbn [fst snd] in *. unfold open in E. rewrite N3 in E.
  assert (Hnew : exists e, new d DB_CAPACITY = Ok e).
  { unfold new, Page.new. rewrite decide_True by (unfold DB_CAPACITY; lia). eauto. }
  destruct Hnew as [e Hnew]. rewrite Hnew in E.
  destruct (new_engine d _ e N4 Hnew) as [He Hde].
  destruct (open_files _ _ N3) as [Hfd Hcd].
  unfold open_body, on_wal_file, on_engine in E.
  unfold mbind at 1, M_bind at 1 in E. cbn [wal_file engine] in E.
  destruct (read_to_end walf) as [r1 w1] eqn:E1.
  destruct (read_to_end_spec _ _ _ E1) as (P1 & D1 & S1 & B1).
  assert (Hstay : forall d1 w, dev_steps (targets (committed rs)) d d1 ->
    f_data w = f_data walf -> f_synced w = f_synced walf ->
    exists d', down_ok base acked att (fb_file d1, w) d0 d' ws0 rs tail)
    by (intros d1 w Hs HD HS; by apply (down_ok_step base acked att (data, walf) d0 d)).
  destruct r1 as [buf|err|]; [| |done].
  2: { injection E as <- <-. unfold files. cbn [engine wal_file]. rewrite Hde.
       apply Hstay; [constructor|done..]. }
  specialize (B1 buf eq_refl) as ->.
  destruct (f_data walf) as [|b bs] eqn:Hcons.
  { apply parses_nil in N5 as Hrs. subst rs. injection E as <- <-. intros _. exists d, ws0.
    by eapply up_ok_opened; [exact Hdn|exact Hnew|congruence..]. }
  rewrite <- Hcons in *.
  destruct (checkpoint (f_data walf) {| engine := e; wal_file := w1 |}) as [rc dbc] eqn:Ec.
  assert (Hc := checkpoint_spec base acked att (data, walf) d0 d ws0 rs tail e w1 rc dbc
    Hdn Hnew D1 S1 Ec).
  destruct rc; injection E as <- <-; exact Hc.
Qed.

(** ** The invariant of executions *)

Lemma exec_ok base acked att st : exec base acked att st -> state_ok base acked att st.
Proof.
  induction 1 as [data walf n db Hn Hs Hc|base acked att db id pg r db' _ IH Hid Hp
    |base acked att db id r db' _ IH Hid Hg|base acked att db fs _ IH Hc
    |base acked att fs fs' _ IH Hc|base acked att fs db fs' _ IH Hr Ho
    |base acked att fs err fs' _ IH Ho]; simpl in *.
  - exists (Page.device (pool (engine db))), [], [], [], 0. by eapply create_ok'.
  - destruct IH as (d0 & ws0 & rs & ss & k & Hup).
    destruct (put_ok _ _ _ _ _ _ _ _ _ _ _ _ _ Hup Hid Hp) as (_ & rs' & ss' & k' & Hup').
    by exists d0, ws0, rs', ss', k'.
  - destruct IH as (d0 & ws0 & rs & ss & k & Hup).
    destruct (get_ok _ _ _ _ _ _ _ _ _ _ _ _ Hup Hid Hg) as [Hup' _].
    by exists d0, ws0, rs, ss, k.
  - destruct IH as (d0 & ws0 & rs & ss & k & Hup).
    destruct (crash_up_ok _ _ _ _ _ _ _ _ _ _ Hup Hc) as (rs' & tail & d & Hd).
    by exists d0, d, ws0, rs', tail.
  - destruct IH as (d0 & d & ws0 & rs & tail & Hd).
    destruct (crash_down_ok _ _ _ _ _ _ _ _ _ _ Hd Hc) as (tail' & d' & Hd').
    by exists d0, d', ws0, rs, tail'.
  - destruct IH as (d0 & d & ws0 & rs & tail & Hd).
    destruct (open_down _ _ _ _ _ _ _ _ _ _ _ Hd Ho Hr) as (d0' & ws0' & Hup).
    by exists d0', ws0', [], [], 0.
  - destruct IH as (d0 & d & ws0 & rs & tail & Hd).
    destruct (open_down _ _ _ _ _ _ _ _ _ _ _ Hd Ho) as (d' & Hd').
    by exists d0, d', ws0, rs, tail.
Qed.

(** ** Properties *)

(** C1: Across any interleaving of puts, gets, failing I/O calls, machine crashes
    and reopens whose replay writes go through, a page read is the result of
    applying, in order, a list of writes that contains every acknowledged [put]
    and nothing but attempted [put]s. *)
Theorem put_durable base acked att db id pg db' :
  exec base acked att (Up db) -> valid_id id -> get id db = (Ok pg, db') ->
  exists ws, acked `sublist_of` ws /\ ws `sublist_of` att /\ overlay ws base id = Some pg.
Proof.
  intros He Hid Hg. apply exec_ok in He as (d0 & ws0 & rs & ss & k & Hup).
  destruct (get_ok _ _ _ _ _ _ _ _ _ _ _ _ Hup Hid Hg) as [_ Hv].
  exists (ws0 ++ all_writes rs). split; [|split; [apply Hup|exact Hv]].
  etrans; [apply Hup|]. apply sublist_app; [done|]. apply prefix_sublist.
  etrans; [apply committed_mono, (up_prefix _ _ _ _ _ _ _ _ _ Hup)|apply committed_all].
Qed.

(** No operation of the database panics, whatever I/O calls fail and whatever
    crashes came before: [put], [get] and [open] return [Ok] or an error. *)
Theorem database_never_panics base acked att st :
  exec base acked att st ->
  match st with
  | Up db => (forall id pg, (0 <= id)%Z -> fst (put id pg db) <> Panic) /\
             (forall id, valid_id id -> fst (get id db) <> Panic)
  | Down fs => fst (open fs) <> Panic
  end.
Proof.
  intros He. apply exec_ok in He. destruct st as [db|fs]; simpl in He.
  - destruct He as (d0 & ws0 & rs & ss & k & Hup). split.
    + intros id pg Hid. destruct (put id pg db) as [r db'] eqn:E.
      by destruct (put_ok _ _ _ _ _ _ _ _ _ _ _ _ _ Hup Hid E).
    + intros id Hid. destruct (get id db) as [r db'] eqn:E.
      destruct (get_ok _ _ _ _ _ _ _ _ _ _ _ _ Hup Hid E) as [_ Hv]. by destruct r.
  - destruct He as (d0 & d & ws0 & rs & tail & Hd). destruct (open fs) as [r fs'] eqn:E.
    assert (H := open_down _ _ _ _ _ _ _ _ _ _ _ Hd E). by destruct r.
Qed.

(** *** Concrete executions *)

Definition demo_file (script : list io_event) : file := mkFile [] [] (fun _ => None) script.
Definition with_script (f : file) (s : list io_event) : file :=
  mkFile (f_data f) (f_synced f) (f_bad f) s.

(** A database of one block, after one [put]; [script] is for the data file. *)
Definition demo_put (script : list io_event) : outcome StorageError unit * (file * file) :=
  match create (demo_file script) (demo_file []) 1 with
  | Ok db => let '(r, db') := put 0 demo_page db in (r, files db')
  | _ => (Panic, (demo_file [], demo_file []))
  end.

(** What block 0 holds for a process that opens these files. *)
Definition demo_reopen (fs : file * file) : outcome StorageError (list byte) :=
  match open fs with
  | (Ok db, _) => fst (get 0 db)
  | (Err e, _) => Err e
  | (Panic, _) => Panic
  end.

(** [open] ignores a write that fails during the replay and still discards the
    log: the same files recover the committed page when the device works, and
    lose it for good when one seek fails while replaying. *)
Theorem failed_replay_is_lost :
  exists data walf,
    demo_put [IoOk; IoFail 5 0] = (Err (Io 5), (data, walf)) /\
    committed (Wal.records (f_synced walf)) = [(0%Z, demo_page)] /\
    demo_reopen (data, walf) = Ok demo_page /\
    match open (with_script data [IoFail 5 0], walf) with
    | (Ok db, fs') => demo_reopen fs' = Ok Page.zero_page
    | _ => False
    end.
Proof.
  exists (fst (snd (demo_put [IoOk; IoFail 5 0]))), (snd (snd (demo_put [IoOk; IoFail 5 0]))).
  split; [vm_compute; reflexivity|]. split; [vm_compute; reflexivity|].
  split; vm_compute; reflexivity.
Qed.

Lemma put_durable_witness :
  exists base db pg db', exec base [(0%Z, demo_page)] [(0%Z, demo_page)] (Up db) /\
    get 0 db = (Ok pg, db') /\
    exists ws, [(0%Z, demo_page)] `sublist_of` ws /\ ws `sublist_of` [(0%Z, demo_page)] /\
      overlay ws base 0%Z = Some pg.
Proof.
  destruct (create (demo_file []) (demo_file []) 1) as [db| |] eqn:Ec; [|discriminate Ec..].
  destruct (put 0 demo_page db) as [r db1] eqn:Ep.
  assert (He := exec_put _ _ _ _ 0 demo_page r db1 (exec_create (demo_file []) _ 1 db ltac:(lia) eq_refl Ec)
    ltac:(lia) Ep).
  destruct (get 0 db1) as [rg db2] eqn:Eg.
  assert (H : r = Ok tt /\ rg = Ok demo_page).
  { replace rg with (fst (get 0 db1)) by (rewrite Eg; reflexivity). clear He Eg.
    replace r with (fst (put 0 demo_page db)) by (rewrite Ep; reflexivity).
    replace db1 with (snd (put 0 demo_page db)) by (rewrite Ep; reflexivity). clear Ep.
    injection Ec as <-. split; vm_compute; reflexivity. }
  destruct H as [-> ->]. eexists _, db1, demo_page, db2. split; [exact He|].
  split; [exact Eg|]. apply (put_durable _ _ _ _ _ _ _ He) in Eg; [exact Eg|].
  split; [lia|discriminate].
Defined.

Lemma database_never_panics_witness :
  exists base db, exec base [] [] (Up db) /\ fst (put 0 demo_page db) <> Panic.
Proof.
  destruct (create (demo_file []) (demo_file []) 1) as [db| |] eqn:Ec; [|discriminate Ec..].
  assert (He := exec_create (demo_file []) _ 1 db ltac:(lia) eq_refl Ec).
  eexists _, db. split; [exact He|].
  apply (proj1 (database_never_panics _ _ _ _ He)). lia.
Defined.
