(* ===== verification/BTree.v ===== *)
(** * BTree: the B-Link tree of [crates/tpt-archon-core/src/btree.rs]

    The arena of nodes and every operation of the tree.  A loop over the nodes
    takes the size of the arena as its fuel (no loop visits a node twice, see
    BTreeProof); an index out of bounds panics. *)
From Stdlib Require Import ZArith Lia Strings.Byte.
From stdpp Require Import base numbers option list.
From S2P Require Import Prelude Block.

Module BTree.

(** ** Nodes *)

Definition NODE_CAPACITY : nat := 64.
Definition VALUE_SLOT_BYTES : nat := 48.
Definition NODE_HEADER_BYTES : nat := 1 + 2 + 8.

(** The compile-time assertion: a panic fails the build. *)
Definition assert_node_fits_page : outcome Empty_set nat :=
  let per_key := 8 + VALUE_SLOT_BYTES in
  let max := NODE_HEADER_BYTES + NODE_CAPACITY * per_key in
  if decide (max <= PAGE_SIZE) then Ok max else Panic.

(** A value is a byte string. *)
Abbreviation val := (list byte).

Inductive Node : Type :=
| Leaf (keys : list Z) (vals : list val) (right : option nat) (high_key : option Z)
| Internal (keys : list Z) (children : list nat) (right : option nat) (high_key : option Z).

Record btree : Type := mkTree { nodes : list Node; root : nat }.

Definition new : btree := {| nodes := [Leaf [] [] None None]; root := 0 |}.

(** [slice::binary_search] on strictly sorted keys: where the key is, or where
    it would go. *)
Inductive search_result : Type := Found (i : nat) | Missing (i : nat).

Fixpoint binary_search (keys : list Z) (key : Z) : search_result :=
  match keys with
  | [] => Missing 0
  | k :: keys' =>
      if (k <? key)%Z then
        match binary_search keys' key with
        | Found i => Found (S i)
        | Missing i => Missing (S i)
        end
      else if (k =? key)%Z then Found 0 else Missing 0
  end.

(** The child to descend to. *)
Definition child_index (keys : list Z) (key : Z) : nat :=
  match binary_search keys key with Found i => i + 1 | Missing i => i end.

(** The test that sends a reader along the right-link. *)
Definition beyond (right : option nat) (high_key : option Z) (key : Z) : option nat :=
  match high_key with
  | Some hk => if (hk <=? key)%Z then right else None
  | None => None
  end.

(** ** Reading *)

Fixpoint get_loop (fuel : nat) (ns : list Node) (id : nat) (key : Z)
    : outcome Empty_set (option val) :=
  match fuel with
  | O => Panic
  | S fuel' =>
      match ns !! id with
      | None => Panic
      | Some (Internal keys children right_ high_key) =>
          match beyond right_ high_key key with
          | Some r => get_loop fuel' ns r key
          | None =>
              match children !! child_index keys key with
              | Some c => get_loop fuel' ns c key
              | None => Panic
              end
          end
      | Some (Leaf keys vals right_ high_key) =>
          match beyond right_ high_key key with
          | Some r => get_loop fuel' ns r key
          | None =>
              match binary_search keys key with
              | Found i => match vals !! i with Some v => Ok (Some v) | None => Panic end
              | Missing _ => Ok None
              end
          end
      end
  end.

Definition get (t : btree) (key : Z) : outcome Empty_set (option val) :=
  get_loop (length (nodes t)) (nodes t) (root t) key.

Definition contains (t : btree) (key : Z) : outcome Empty_set bool :=
  match get t key with
  | Ok o => Ok (bool_decide (is_Some o))
  | Err e => Err e
  | Panic => Panic
  end.

Fixpoint leaf_loop (fuel : nat) (ns : list Node) (index : list Z -> nat) (id : nat)
    : outcome Empty_set nat :=
  match fuel with
  | O => Panic
  | S fuel' =>
      match ns !! id with
      | None => Panic
      | Some (Internal keys children _ _) =>
          match children !! index keys with
          | Some c => leaf_loop fuel' ns index c
          | None => Panic
          end
      | Some (Leaf _ _ _ _) => Ok id
      end
  end.

Definition leftmost_leaf_for (t : btree) (key : Z) : outcome Empty_set nat :=
  leaf_loop (length (nodes t)) (nodes t) (fun keys => child_index keys key) (root t).

Definition leftmost_leaf (t : btree) : outcome Empty_set nat :=
  leaf_loop (length (nodes t)) (nodes t) (fun _ => 0) (root t).

(** The loop over one leaf's keys: the output, and whether [hi] was reached. *)
Fixpoint scan_leaf (lo hi : Z) (keys : list Z) (vals : list val) (out : list (Z * val))
    : outcome Empty_set (list (Z * val) * bool) :=
  match keys with
  | [] => Ok (out, false)
  | k :: keys' =>
      if (hi <=? k)%Z then Ok (out, true)
      else if (lo <=? k)%Z then
        match vals with
        | v :: vals' => scan_leaf lo hi keys' vals' (out ++ [(k, v)])
        | [] => Panic
        end
      else scan_leaf lo hi keys' (tail vals) out
  end.

Fixpoint range_loop (fuel : nat) (ns : list Node) (lo hi : Z) (id : nat) (out : list (Z * val))
    : outcome Empty_set (list (Z * val)) :=
  match fuel with
  | O => Panic
  | S fuel' =>
      match ns !! id with
      | Some (Leaf keys vals right_ _) =>
          match scan_leaf lo hi keys vals out with
          | Ok (out', true) => Ok out'
          | Ok (out', false) =>
              match right_ with
              | Some r => range_loop fuel' ns lo hi r out'
              | None => Ok out'
              end
          | Err e => Err e
          | Panic => Panic
          end
      | _ => Panic
      end
  end.

Definition range (t : btree) (lo hi : Z) : outcome Empty_set (list (Z * val)) :=
  if (hi <=? lo)%Z then Ok []
  else match leftmost_leaf_for t lo with
       | Ok id => range_loop (length (nodes t)) (nodes t) lo hi id []
       | Err e => Err e
       | Panic => Panic
       end.

Fixpoint len_loop (fuel : nat) (ns : list Node) (id n : nat) : outcome Empty_set nat :=
  match fuel with
  | O => Panic
  | S fuel' =>
      match ns !! id with
      | Some (Leaf keys _ right_ _) =>
          match right_ with
          | Some r => len_loop fuel' ns r (n + length keys)
          | None => Ok (n + length keys)
          end
      | _ => Panic
      end
  end.

Definition len (t : btree) : outcome Empty_set nat :=
  match leftmost_leaf t with
  | Ok id => len_loop (length (nodes t)) (nodes t) id 0
  | Err e => Err e
  | Panic => Panic
  end.

Definition is_empty (t : btree) : outcome Empty_set bool :=
  match len t with Ok n => Ok (bool_decide (n = 0)) | Err e => Err e | Panic => Panic end.

(** ** Writing *)

Abbreviation A := (M (list Node) Empty_set).

Fixpoint delete_loop (fuel : nat) (id : nat) (key : Z) : A (option val) := fun ns =>
  match fuel with
  | O => (Panic, ns)
  | S fuel' =>
      match ns !! id with
      | None => (Panic, ns)
      | Some (Internal keys children right_ high_key) =>
          match beyond right_ high_key key with
          | Some r => delete_loop fuel' r key ns
          | None =>
              match children !! child_index keys key with
              | Some c => delete_loop fuel' c key ns
              | None => (Panic, ns)
              end
          end
      | Some (Leaf keys vals right_ high_key) =>
          match beyond right_ high_key key with
          | Some r => delete_loop fuel' r key ns
          | None =>
              match binary_search keys key with
              | Found i =>
                  match vals !! i with
                  | Some v =>
                      (Ok (Some v),
                       <[id := Leaf (remove_at i keys) (remove_at i vals) right_ high_key]> ns)
                  | None => (Panic, ns)
                  end
              | Missing _ => (Ok None, ns)
              end
          end
      end
  end.

Definition delete (t : btree) (key : Z) : outcome Empty_set (option val) * btree :=
  let '(r, ns) := delete_loop (length (nodes t)) (root t) key (nodes t) in
  (r, {| nodes := ns; root := root t |}).

(** [NODE_CAPACITY.div_ceil(2)]. *)
Definition MID : nat := (NODE_CAPACITY + 1) / 2.

Definition split_leaf (id : nat) : A (Z * nat) := fun ns =>
  match ns !! id with
  | Some (Leaf keys vals right_ high_key) =>
      match drop MID keys with
      | sep :: _ =>
          if decide (length vals < MID) then (Panic, ns) else
          let new_id := length ns in
          (Ok (sep, new_id),
           <[id := Leaf (take MID keys) (take MID vals) (Some new_id) (Some sep)]> ns
             ++ [Leaf (drop MID keys) (drop MID vals) right_ high_key])
      | [] => (Panic, ns)
      end
  | _ => (Panic, ns)
  end.

Definition split_internal (id : nat) : A (Z * nat) := fun ns =>
  match ns !! id with
  | Some (Internal keys children right_ high_key) =>
      match keys !! MID with
      | Some sep =>
          if decide (length children < MID + 1) then (Panic, ns) else
          let new_id := length ns in
          (Ok (sep, new_id),
           <[id := Internal (take MID keys) (take (MID + 1) children) (Some new_id) (Some sep)]> ns
             ++ [Internal (drop (MID + 1) keys) (drop (MID + 1) children) right_ high_key])
      | None => (Panic, ns)
      end
  | _ => (Panic, ns)
  end.

(** Insert the separator of a child that split. *)
Definition insert_split (id : nat) (sep : Z) (right_id : nat) : A (option (Z * nat)) := fun ns =>
  match ns !! id with
  | Some (Internal keys children right_ high_key) =>
      let pos := match binary_search keys sep with Found i => i | Missing i => i end in
      if decide (length children < pos + 1) then (Panic, ns) else
      let keys' := insert_at pos sep keys in
      let ns' := <[id := Internal keys' (insert_at (pos + 1) right_id children) right_ high_key]> ns in
      if decide (NODE_CAPACITY < length keys') then (s ← split_internal id; mret (Some s)) ns'
      else (Ok None, ns')
  | _ => (Ok None, ns)
  end.

Fixpoint insert_rec (fuel : nat) (id : nat) (key : Z) (value : val) : A (option (Z * nat)) :=
  fun ns =>
  match fuel with
  | O => (Panic, ns)
  | S fuel' =>
      match ns !! id with
      | None => (Panic, ns)
      | Some (Leaf keys vals right_ high_key) =>
          match binary_search keys key with
          | Found i =>
              if decide (length vals <= i) then (Panic, ns) else
              (Ok None, <[id := Leaf keys (<[i := value]> vals) right_ high_key]> ns)
          | Missing i =>
              if decide (length vals < i) then (Panic, ns) else
              let keys' := insert_at i key keys in
              let ns' := <[id := Leaf keys' (insert_at i value vals) right_ high_key]> ns in
              if decide (NODE_CAPACITY < length keys') then (s ← split_leaf id; mret (Some s)) ns'
              else (Ok None, ns')
          end
      | Some (Internal keys children _ _) =>
          match children !! child_index keys key with
          | None => (Panic, ns)
          | Some child =>
              (s ← insert_rec fuel' child key value;
               match s with
               | Some (sep, right_id) => insert_split id sep right_id
               | None => mret None
               end) ns
          end
      end
  end.

Definition insert (t : btree) (key : Z) (value : val) : outcome Empty_set unit * btree :=
  match insert_rec (length (nodes t)) (root t) key value (nodes t) with
  | (Ok None, ns) => (Ok tt, {| nodes := ns; root := root t |})
  | (Ok (Some (sep, right_id)), ns) =>
      (Ok tt, {| nodes := ns ++ [Internal [sep] [root t; right_id] None None];
                 root := length ns |})
  | (Err e, ns) => (Err e, {| nodes := ns; root := root t |})
  | (Panic, ns) => (Panic, {| nodes := ns; root := root t |})
  end.

End BTree.
