(* ===== verification/BTreeProof.v ===== *)
(** * BTreeProof: the B-Link tree is a finite map, sorted by key

    [rep ns h id lo hi first next kvs fp] says that the nodes of the arena [ns]
    reached from [id] form a tree of height [h] holding the bindings [kvs] in key
    order, all within [lo, hi); its leaves are chained by right-links from
    [first] to [next], and [fp] lists its nodes.  Every operation is proved
    against the list of bindings. *)
From Stdlib Require Import ZArith Lia Strings.Byte.
From stdpp Require Import base numbers option list gmap.
From S2P Require Import Prelude Block BTree.
Import BTree.

(** ** Bindings in key order *)

Abbreviation binding := (Z * val)%type.

Fixpoint kv_get (k : Z) (l : list binding) : option val :=
  match l with
  | [] => None
  | (x, v) :: l' => if (x =? k)%Z then Some v else kv_get k l'
  end.

Fixpoint kv_insert (k : Z) (v : val) (l : list binding) : list binding :=
  match l with
  | [] => [(k, v)]
  | (x, w) :: l' =>
      if (x <? k)%Z then (x, w) :: kv_insert k v l'
      else if (x =? k)%Z then (k, v) :: l'
      else (k, v) :: (x, w) :: l'
  end.

Fixpoint kv_delete (k : Z) (l : list binding) : list binding :=
  match l with
  | [] => []
  | (x, w) :: l' => if (x =? k)%Z then l' else (x, w) :: kv_delete k l'
  end.

(** The bindings [range] returns. *)
Definition kv_range (lo hi : Z) (l : list binding) : list binding :=
  filter (fun p => lo <= p.1 < hi)%Z l.

Definition below (k : Z) (l : list binding) : Prop := Forall (fun p => p.1 < k)%Z l.
Definition beyond_key (k : Z) (l : list binding) : Prop := Forall (fun p => k < p.1)%Z l.

Lemma kv_get_app_r k l1 l2 : below k l1 -> kv_get k (l1 ++ l2) = kv_get k l2.
Proof.
  induction 1 as [|[x v] l Hx _ IH]; [done|]. simpl in *.
  rewrite (proj2 (Z.eqb_neq x k)) by lia. done.
Qed.

Lemma kv_get_beyond k l : beyond_key k l -> kv_get k l = None.
Proof.
  induction 1 as [|[x v] l Hx _ IH]; [done|]. simpl in *.
  by rewrite (proj2 (Z.eqb_neq x k)) by lia.
Qed.

Lemma kv_get_app_l k l1 l2 : beyond_key k l2 -> kv_get k (l1 ++ l2) = kv_get k l1.
Proof.
  intros H2. induction l1 as [|[x v] l IH]; simpl; [by apply kv_get_beyond|].
  by destruct (x =? k)%Z.
Qed.

Lemma kv_insert_app_r k v l1 l2 :
  below k l1 -> kv_insert k v (l1 ++ l2) = l1 ++ kv_insert k v l2.
Proof.
  induction 1 as [|[x w] l Hx _ IH]; [done|]. simpl in *.
  rewrite (proj2 (Z.ltb_lt x k)) by lia. by rewrite IH.
Qed.

Lemma kv_insert_app_l k v l1 l2 :
  beyond_key k l2 -> kv_insert k v (l1 ++ l2) = kv_insert k v l1 ++ l2.
Proof.
  intros H2. induction l1 as [|[x w] l IH]; simpl.
  - destruct H2 as [|[x w] l Hx _]; [done|]. simpl in *.
    rewrite (proj2 (Z.ltb_ge x k)) by lia. by rewrite (proj2 (Z.eqb_neq x k)) by lia.
  - rewrite IH. by destruct (x <? k)%Z, (x =? k)%Z.
Qed.

Lemma kv_delete_app_r k l1 l2 : below k l1 -> kv_delete k (l1 ++ l2) = l1 ++ kv_delete k l2.
Proof.
  induction 1 as [|[x w] l Hx _ IH]; [done|]. simpl in *.
  rewrite (proj2 (Z.eqb_neq x k)) by lia. by rewrite IH.
Qed.

Lemma kv_delete_beyond k l : beyond_key k l -> kv_delete k l = l.
Proof.
  induction 1 as [|[x w] l Hx _ IH]; [done|]. simpl in *.
  rewrite (proj2 (Z.eqb_neq x k)) by lia. by rewrite IH.
Qed.

Lemma kv_delete_app_l k l1 l2 : beyond_key k l2 -> kv_delete k (l1 ++ l2) = kv_delete k l1 ++ l2.
Proof.
  intros H2. induction l1 as [|[x w] l IH]; simpl; [by apply kv_delete_beyond|].
  rewrite IH. by destruct (x =? k)%Z.
Qed.

(** ** Increasing keys *)

Definition above (lo : option Z) (k : Z) : Prop :=
  match lo with Some l => (l < k)%Z | None => True end.

Fixpoint inc (lo : option Z) (ks : list Z) : Prop :=
  match ks with
  | [] => True
  | k :: ks' => above lo k /\ inc (Some k) ks'
  end.

Definition in_bounds (lo hi : option Z) (k : Z) : Prop :=
  match lo with Some l => (l <= k)%Z | None => True end /\
  match hi with Some h => (k < h)%Z | None => True end.

Lemma inc_weaken lo lo' ks : (forall k, above lo k -> above lo' k) -> inc lo ks -> inc lo' ks.
Proof. intros H. destruct ks as [|k ks]; [done|]. intros [H1 H2]. split; [by apply H|done]. Qed.

Lemma inc_forall lo ks : inc lo ks -> Forall (above lo) ks.
Proof.
  revert lo. induction ks as [|k ks IH]; intros lo; [constructor|]. intros [H1 H2].
  constructor; [done|]. apply IH in H2. eapply Forall_impl; [exact H2|].
  intros x Hx. destruct lo; simpl in *; [lia|done].
Qed.

Lemma inc_None lo ks : inc lo ks -> inc None ks.
Proof. by apply inc_weaken. Qed.

Lemma inc_cons_lt k ks x : inc (Some k) ks -> x ∈ ks -> (k < x)%Z.
Proof. intros H Hx. apply inc_forall in H. rewrite Forall_forall in H. by apply (H x). Qed.

Lemma inc_app lo ks1 ks2 :
  inc lo (ks1 ++ ks2) <->
  inc lo ks1 /\ inc None ks2 /\ (forall x, x ∈ ks2 -> above lo x) /\
  (forall x y, x ∈ ks1 -> y ∈ ks2 -> (x < y)%Z).
Proof.
  revert lo. induction ks1 as [|k ks1 IH]; intros lo; simpl.
  - split.
    + intros H. split; [done|]. split; [by eapply inc_None|]. split; [|by intros x y ?%elem_of_nil].
      intros x Hx. apply inc_forall in H. rewrite Forall_forall in H. auto.
    + intros (_ & H & Ha & _). destruct ks2 as [|y ks2]; [done|]. destruct H as [_ H].
      split; [apply Ha; left|done].
  - rewrite IH. split.
    + intros (H1 & H2 & H3 & H4 & H5). split_and!; try done.
      * intros x Hx. apply H4 in Hx. destruct lo; simpl in *; [lia|done].
      * intros x y [->|Hx]%elem_of_cons Hy; [by apply H4|by apply H5].
    + intros ((H1 & H2) & H3 & H4 & H5). split_and!; try done.
      * intros x Hx. apply H5; [left|done].
      * intros x y Hx Hy. apply H5; [by right|done].
Qed.

(** ** Binary search *)

Lemma search_small ks k : Forall (fun x => k < x)%Z ks -> binary_search ks k = Missing 0.
Proof.
  intros H. destruct H as [|x l Hx _]; [done|]. simpl.
  rewrite (proj2 (Z.ltb_ge x k)), (proj2 (Z.eqb_neq x k)) by lia. done.
Qed.

Lemma child_index_cons x ks k :
  inc (Some x) ks ->
  child_index (x :: ks) k = if (x <=? k)%Z then S (child_index ks k) else 0.
Proof.
  intros Hi. unfold child_index. simpl. destruct (Z.ltb_spec x k).
  - rewrite (proj2 (Z.leb_le x k)) by lia. by destruct (binary_search ks k).
  - destruct (Z.eqb_spec x k) as [->|Hne].
    + rewrite (proj2 (Z.leb_le k k)) by lia. rewrite search_small; [done|].
      apply inc_forall in Hi. done.
    + by rewrite (proj2 (Z.leb_gt x k)) by lia.
Qed.

(** A leaf's arrays against its bindings. *)
Lemma search_get ks vs k :
  inc None ks -> length ks = length vs ->
  match binary_search ks k with
  | Found i => exists v, vs !! i = Some v /\ kv_get k (zip ks vs) = Some v
  | Missing i => kv_get k (zip ks vs) = None
  end.
Proof.
  revert vs. induction ks as [|x ks IH]; intros [|v vs] Hi Hl; try done. simpl in Hl |- *.
  destruct Hi as [_ Hi]. injection Hl as Hl. specialize (IH vs (inc_None _ _ Hi) Hl).
  destruct (Z.ltb_spec x k).
  - rewrite (proj2 (Z.eqb_neq x k)) by lia. by destruct (binary_search ks k).
  - destruct (Z.eqb_spec x k) as [->|Hne]; [by exists v|].
    rewrite search_small in IH; [done|]. apply inc_forall in Hi.
    eapply Forall_impl; [exact Hi|]. simpl. intros; lia.
Qed.

Lemma search_insert ks vs k v :
  inc None ks -> length ks = length vs ->
  match binary_search ks k with
  | Found i => i < length vs /\ kv_insert k v (zip ks vs) = zip ks (<[i := v]> vs)
  | Missing i => i <= length vs /\
      kv_insert k v (zip ks vs) = zip (insert_at i k ks) (insert_at i v vs) /\
      inc None (insert_at i k ks)
  end.
Proof.
  revert vs. induction ks as [|x ks IH]; intros [|w vs] Hi Hl; try done. simpl in Hl |- *.
  destruct Hi as [_ Hi]. injection Hl as Hl. specialize (IH vs (inc_None _ _ Hi) Hl).
  destruct (Z.ltb_spec x k) as [Hx|Hx].
  - destruct (binary_search ks k) as [i|i].
    + destruct IH as [H1 H2]. split; [lia|]. simpl. by rewrite H2.
    + destruct IH as (H1 & H2 & H3). split; [lia|]. unfold insert_at in *. simpl. rewrite H2.
      split; [done|]. split; [done|]. apply inc_app in H3 as (A1 & A2 & _ & A4).
      apply inc_app. assert (Hks := inc_forall _ _ Hi). rewrite Forall_forall in Hks.
      split_and!; try done.
      * rewrite <- (take_drop i ks) in Hi. apply inc_app in Hi. tauto.
      * intros y [->|Hy]%elem_of_cons; [done|]. apply Hks.
        rewrite <- (take_drop i ks). apply elem_of_app. by right.
  - destruct (Z.eqb_spec x k) as [->|Hne]; [split; [lia|done]|].
    split; [lia|]. unfold insert_at. simpl. split; [done|]. split_and!; [done|simpl; lia|done].
Qed.

Lemma search_delete ks vs k :
  inc None ks -> length ks = length vs ->
  match binary_search ks k with
  | Found i => kv_delete k (zip ks vs) = zip (remove_at i ks) (remove_at i vs) /\
      inc None (remove_at i ks)
  | Missing i => kv_delete k (zip ks vs) = zip ks vs
  end.
Proof.
  revert vs. induction ks as [|x ks IH]; intros [|w vs] Hi Hl; try done. simpl in Hl |- *.
  destruct Hi as [_ Hi]. injection Hl as Hl. specialize (IH vs (inc_None _ _ Hi) Hl).
  destruct (Z.ltb_spec x k) as [Hx|Hx].
  - rewrite (proj2 (Z.eqb_neq x k)) by lia. destruct (binary_search ks k) as [i|i].
    + destruct IH as [H1 H2]. unfold remove_at in *. simpl. rewrite H1. split; [done|].
      apply inc_app in H2 as (A1 & A2 & _ & A4).
      rewrite <- (take_drop i ks) in Hi. apply inc_app in Hi as (B1 & _ & B3 & _).
      split; [done|]. apply inc_app. split_and!; try done.
      intros y Hy. apply B3. rewrite <- Nat.add_1_r, <- (drop_drop ks 1 i) in Hy. by eapply subseteq_drop.
    + by rewrite IH.
  - destruct (Z.eqb_spec x k) as [->|Hne]; [split; [done|by eapply inc_None]|].
    rewrite kv_delete_beyond; [done|]. apply inc_forall in Hi. clear IH.
    revert vs Hl. induction Hi as [|y ks Hy _ IHk]; intros [|u vs] Hl; try done; [constructor..|].
    simpl. constructor; [simpl in *; lia|]. apply IHk. simpl in Hl. lia.
Qed.

(** ** Trees over the arena *)

(** A predicate on subtrees: node, bounds, first leaf, leaf after the last,
    bindings, nodes. *)
Definition subtree : Type :=
  nat -> option Z -> option Z -> nat -> option nat -> list binding -> list nat -> Prop.

Definition lt_hi (k : Z) (hi : option Z) : Prop :=
  match hi with Some h => (k < h)%Z | None => True end.

Fixpoint forest (R : subtree) (lo : option Z) (ks : list Z) (cs : list nat) (hi : option Z)
    (first : nat) (next : option nat) (kvs : list binding) (fp : list nat) : Prop :=
  match ks, cs with
  | [], [c] => R c lo hi first next kvs fp
  | k :: ks', c :: cs' =>
      exists f2 kv1 kv2 fp1 fp2,
        R c lo (Some k) first (Some f2) kv1 fp1 /\
        forest R (Some k) ks' cs' hi f2 next kv2 fp2 /\
        kvs = kv1 ++ kv2 /\ fp = fp1 ++ fp2 /\ above lo k /\ lt_hi k hi
  | _, _ => False
  end.

Fixpoint rep (ns : list Node) (h : nat) : subtree :=
  fun id lo hi first next kvs fp =>
  match h with
  | O => exists keys vals,
      ns !! id = Some (Leaf keys vals next hi) /\ kvs = zip keys vals /\
      length keys = length vals /\ inc None keys /\ Forall (in_bounds lo hi) keys /\
      length keys <= NODE_CAPACITY /\ first = id /\ fp = [id]
  | S h' => exists keys children link fp',
      ns !! id = Some (Internal keys children link hi) /\
      forest (rep ns h') lo keys children hi first next kvs fp' /\
      length keys <= NODE_CAPACITY /\ fp = id :: fp'
  end.

(** A subtree predicate whose bindings are within its bounds. *)
Definition bounded (R : subtree) : Prop :=
  forall c lo hi f n kvs fp, R c lo hi f n kvs fp -> Forall (fun p => in_bounds lo hi p.1) kvs.

Lemma bounds_up lo k hi p :
  lt_hi k hi -> in_bounds lo (Some k) p -> in_bounds lo hi p.
Proof. intros Hk [H1 H2]. split; [done|]. destruct hi; simpl in *; [lia|done]. Qed.

Lemma bounds_down lo k hi p : above lo k -> in_bounds (Some k) hi p -> in_bounds lo hi p.
Proof. intros Hk [H1 H2]. split; [|done]. destruct lo; simpl in *; [lia|done]. Qed.

Lemma forest_bounded R : bounded R -> forall ks lo cs hi f n kvs fp,
  forest R lo ks cs hi f n kvs fp -> Forall (fun p => in_bounds lo hi p.1) kvs.
Proof.
  intros HR. induction ks as [|k ks IH]; intros lo [|c cs] hi f n kvs fp H; simpl in H; try done.
  - destruct cs; [|done]. by apply HR in H.
  - destruct H as (f2 & kv1 & kv2 & fp1 & fp2 & H1 & H2 & -> & -> & Hk & Hh).
    apply HR in H1. apply IH in H2. apply Forall_app. split.
    + eapply Forall_impl; [exact H1|]. intros p. by apply bounds_up.
    + eapply Forall_impl; [exact H2|]. intros p. by apply bounds_down.
Qed.

Lemma forest_length R ks : forall lo cs hi f n kvs fp,
  forest R lo ks cs hi f n kvs fp -> length cs = S (length ks).
Proof.
  induction ks as [|k ks IH]; intros lo [|c cs] hi f n kvs fp H; simpl in H; try done.
  - by destruct cs.
  - destruct H as (f2 & kv1 & kv2 & fp1 & fp2 & _ & H2 & _). apply IH in H2. simpl. by rewrite H2.
Qed.

Lemma forest_inc R ks : forall lo cs hi f n kvs fp,
  forest R lo ks cs hi f n kvs fp -> inc lo ks /\ Forall (fun k => lt_hi k hi) ks.
Proof.
  induction ks as [|k ks IH]; intros lo [|c cs] hi f n kvs fp H; simpl in H; try done.
  destruct H as (f2 & kv1 & kv2 & fp1 & fp2 & _ & H2 & _ & _ & Hk & Hh).
  apply IH in H2 as [H2 H3]. split; [done|]. by constructor.
Qed.

Lemma zip_keys (ks : list Z) (vs : list val) : length ks = length vs -> map fst (zip ks vs) = ks.
Proof.
  revert vs. induction ks as [|k ks IH]; intros [|v vs] H; try done. simpl in *. f_equal. auto.
Qed.

Lemma rep_bounded ns h : bounded (rep ns h).
Proof.
  induction h as [|h IH]; intros c lo hi f n kvs fp H; simpl in H.
  - destruct H as (keys & vals & _ & -> & Hl & _ & Hb & _).
    rewrite <- (zip_keys keys vals Hl) in Hb. exact (proj1 (Forall_map _ _ _) Hb).
  - destruct H as (keys & children & link & fp' & _ & H & _). by eapply forest_bounded.
Qed.

(** A subtree predicate that depends only on the nodes it lists. *)
Lemma forest_mono (R R' : subtree) ks : forall lo cs hi f n kvs fp,
  (forall c lo hi f n kv fp0, (forall x, x ∈ fp0 -> x ∈ fp) ->
     R c lo hi f n kv fp0 -> R' c lo hi f n kv fp0) ->
  forest R lo ks cs hi f n kvs fp -> forest R' lo ks cs hi f n kvs fp.
Proof.
  induction ks as [|k ks IH]; intros lo [|c cs] hi f n kvs fp HR H; simpl in H; try done.
  - destruct cs; [|done]. simpl. by apply HR.
  - destruct H as (f2 & kv1 & kv2 & fp1 & fp2 & H1 & H2 & -> & -> & Hk & Hh).
    exists f2, kv1, kv2, fp1, fp2. split_and!; try done.
    + apply HR; [|done]. intros x Hx. apply elem_of_app. by left.
    + eapply IH; [|exact H2]. intros c' lo' hi' f' n' kv' fp0 Hx. apply HR.
      intros x Hx'. apply elem_of_app. right. auto.
Qed.

Lemma rep_frame ns ns' h : forall id lo hi f n kvs fp,
  (forall x, x ∈ fp -> ns' !! x = ns !! x) ->
  rep ns h id lo hi f n kvs fp -> rep ns' h id lo hi f n kvs fp.
Proof.
  induction h as [|h IH]; intros id lo hi f n kvs fp Hx H; simpl in H |- *.
  - destruct H as (keys & vals & Hn & H). exists keys, vals. split; [|done].
    destruct H as (_ & _ & _ & _ & _ & _ & ->). rewrite Hx; [done|left].
  - destruct H as (keys & children & link & fp' & Hn & H & Hc & ->).
    exists keys, children, link, fp'. split; [rewrite Hx; [done|left]|]. split; [|done].
    eapply forest_mono; [|exact H]. intros c lo' hi' f' n' kv fp0 Hs. apply IH.
    intros x Hx0. apply Hx. right. auto.
Qed.

(** ** The child on the path to a key *)

(** The forest with a hole at the child that covers [key]. *)
Record focus (R : subtree) (key : Z) lo ks cs hi f n kvs fp (c : nat) lo' hi' f' n'
    kvL kvc kvR fpL fpc fpR : Prop := {
  fo_child : cs !! child_index ks key = Some c;
  fo_rep : R c lo' hi' f' n' kvc fpc;
  fo_in : in_bounds lo' hi' key;
  fo_lo : forall k, above lo' k -> above lo k;
  fo_hi : forall k, lt_hi k hi' -> lt_hi k hi;
  fo_kvs : kvs = kvL ++ kvc ++ kvR;
  fo_fp : fp = fpL ++ fpc ++ fpR;
  fo_left : below key kvL;
  fo_right : beyond_key key kvR;
  (** Put back a changed child. *)
  fo_same : forall (R' : subtree) kvc' fpc',
    (forall c lo hi f n kv fp0, (forall x, x ∈ fp0 -> x ∈ fpL ++ fpR) ->
       R c lo hi f n kv fp0 -> R' c lo hi f n kv fp0) ->
    R' c lo' hi' f' n' kvc' fpc' ->
    forest R' lo ks cs hi f n (kvL ++ kvc' ++ kvR) (fpL ++ fpc' ++ fpR);
  (** Put back a child that split. *)
  fo_split : forall (R' : subtree) sep rid f2 kv1 kv2 fp1 fp2,
    (forall c lo hi f n kv fp0, (forall x, x ∈ fp0 -> x ∈ fpL ++ fpR) ->
       R c lo hi f n kv fp0 -> R' c lo hi f n kv fp0) ->
    above lo' sep -> lt_hi sep hi' ->
    R' c lo' (Some sep) f' (Some f2) kv1 fp1 ->
    R' rid (Some sep) hi' f2 n' kv2 fp2 ->
    binary_search ks sep = Missing (child_index ks key) /\
    forest R' lo (insert_at (child_index ks key) sep ks)
      (insert_at (child_index ks key + 1) rid cs) hi f n
      (kvL ++ (kv1 ++ kv2) ++ kvR) (fpL ++ (fp1 ++ fp2) ++ fpR);
}.

Lemma in_bounds_lt lo k key p :
  in_bounds lo (Some k) p -> (k <= key)%Z -> (p < key)%Z.
Proof. intros [_ H] Hk. simpl in H. lia. Qed.

Lemma focus_only (R : subtree) key c lo hi f n kvs fp :
  R c lo hi f n kvs fp -> in_bounds lo hi key ->
  focus R key lo [] [c] hi f n kvs fp c lo hi f n [] kvs [] [] fp [].
Proof.
  intros H Hin. split; try done.
  - by rewrite app_nil_r.
  - by rewrite app_nil_r.
  - constructor.
  - constructor.
  - intros R' kvc' fpc' _ H'. by rewrite !app_nil_r.
  - intros R' sep rid f2 kv1 kv2 fp1 fp2 _ Ha Hl H1 H2. split; [done|].
    rewrite !app_nil_r. simpl. exists f2, kv1, kv2, fp1, fp2. done.
Qed.

(** The child left of the first separator. *)
Lemma focus_first (R : subtree) key k ks c cs lo hi f f2 n kv1 kv2 fp1 fp2 :
  bounded R -> R c lo (Some k) f (Some f2) kv1 fp1 ->
  forest R (Some k) ks cs hi f2 n kv2 fp2 -> above lo k -> lt_hi k hi ->
  in_bounds lo hi key -> (key < k)%Z -> child_index (k :: ks) key = 0 ->
  focus R key lo (k :: ks) (c :: cs) hi f n (kv1 ++ kv2) (fp1 ++ fp2)
    c lo (Some k) f (Some f2) [] kv1 kv2 [] fp1 fp2.
Proof.
  intros HR H1 H2 Hk Hh Hin Hlt Hci.
  assert (Hkeep : forall R' : subtree,
    (forall c lo hi f n kv fp0, (forall x, x ∈ fp0 -> x ∈ [] ++ fp2) ->
       R c lo hi f n kv fp0 -> R' c lo hi f n kv fp0) ->
    forest R' (Some k) ks cs hi f2 n kv2 fp2)
    by (intros R' Hmono; by eapply forest_mono).
  split; try done.
  - by rewrite Hci.
  - split; [apply Hin|done].
  - intros x Hx. destruct hi; simpl in *; [lia|done].
  - constructor.
  - apply (forest_bounded R HR) in H2. eapply Forall_impl; [exact H2|].
    intros p [Hp _]. simpl in Hp. lia.
  - intros R' kvc' fpc' Hmono Hc. simpl. exists f2, kvc', kv2, fpc', fp2. split_and!; try done.
    by apply Hkeep.
  - intros R' sep rid g kva kvb fpa fpb Hmono Ha Hl Hr1 Hr2. rewrite Hci. simpl in Hl.
    split.
    + simpl. rewrite (proj2 (Z.ltb_ge k sep)) by lia.
      by rewrite (proj2 (Z.eqb_neq k sep)) by lia.
    + unfold insert_at. simpl. exists g, kva, (kvb ++ kv2), fpa, (fpb ++ fp2).
      rewrite <- !app_assoc. split_and!; try done.
      * exists f2, kvb, kv2, fpb, fp2. split_and!; try done. by apply Hkeep.
      * destruct hi; simpl in *; [lia|done].
Qed.

(** A child right of the first separator, found in the rest of the forest. *)
Lemma focus_rest (R : subtree) key k ks c0 cs lo hi f f2 n kv1 kv2 fp1 fp2
    c lo' hi' f' n' kvL kvc kvR fpL fpc fpR :
  bounded R -> R c0 lo (Some k) f (Some f2) kv1 fp1 -> above lo k -> lt_hi k hi ->
  (k <= key)%Z -> child_index (k :: ks) key = S (child_index ks key) ->
  focus R key (Some k) ks cs hi f2 n kv2 fp2 c lo' hi' f' n' kvL kvc kvR fpL fpc fpR ->
  focus R key lo (k :: ks) (c0 :: cs) hi f n (kv1 ++ kv2) (fp1 ++ fp2)
    c lo' hi' f' n' (kv1 ++ kvL) kvc kvR (fp1 ++ fpL) fpc fpR.
Proof.
  intros HR H1 Hk Hh Hle Hci [F1 F2 F3 F4 F5 F6 F7 F8 F9 F10 F11].
  assert (Hrest : forall R' : subtree,
    (forall c lo hi f n kv fp0, (forall x, x ∈ fp0 -> x ∈ (fp1 ++ fpL) ++ fpR) ->
       R c lo hi f n kv fp0 -> R' c lo hi f n kv fp0) ->
    R' c0 lo (Some k) f (Some f2) kv1 fp1 /\
    forall c lo hi f n kv fp0, (forall x, x ∈ fp0 -> x ∈ fpL ++ fpR) ->
      R c lo hi f n kv fp0 -> R' c lo hi f n kv fp0).
  { intros R' Hmono. split.
    - apply Hmono; [|done]. intros x Hx. rewrite !elem_of_app. auto.
    - intros c' l0 h0 g0 n0 kv0 fp0 Hs. apply Hmono.
      intros x Hx. apply Hs in Hx. rewrite !elem_of_app in *. tauto. }
  split; try done.
  - by rewrite Hci.
  - intros x Hx. apply F4 in Hx. destruct lo; simpl in *; [lia|done].
  - by rewrite F6, <- app_assoc.
  - by rewrite F7, <- app_assoc.
  - apply Forall_app. split; [|done]. eapply Forall_impl; [by apply (HR _ _ _ _ _ _ _ H1)|].
    intros p Hp. exact (in_bounds_lt lo k key p.1 Hp Hle).
  - intros R' kvc' fpc' [Hc0 Hmono]%Hrest Hc. simpl.
    exists f2, kv1, (kvL ++ kvc' ++ kvR), fp1, (fpL ++ fpc' ++ fpR).
    rewrite <- !app_assoc. split_and!; try done. by apply F10.
  - intros R' sep rid g kva kvb fpa fpb [Hc0 Hmono]%Hrest Ha Hl Hr1 Hr2.
    destruct (F11 R' sep rid g kva kvb fpa fpb Hmono Ha Hl Hr1 Hr2) as [G1 G2].
    rewrite Hci. assert (Hks : (k < sep)%Z) by by apply (F4 sep).
    split.
    + simpl. rewrite (proj2 (Z.ltb_lt k sep)) by done. by rewrite G1.
    + unfold insert_at in *. cbn [take drop Nat.add app]. simpl.
      exists f2, kv1, (kvL ++ (kva ++ kvb) ++ kvR), fp1, (fpL ++ (fpa ++ fpb) ++ fpR).
      rewrite <- !app_assoc in *. split_and!; done.
Qed.

Lemma forest_focus (R : subtree) key : bounded R -> forall ks lo cs hi f n kvs fp,
  forest R lo ks cs hi f n kvs fp -> in_bounds lo hi key ->
  exists c lo' hi' f' n' kvL kvc kvR fpL fpc fpR,
    focus R key lo ks cs hi f n kvs fp c lo' hi' f' n' kvL kvc kvR fpL fpc fpR.
Proof.
  intros HR. induction ks as [|k ks IH]; intros lo [|c cs] hi f n kvs fp H Hin;
    simpl in H; try done.
  - destruct cs; [|done].
    exists c, lo, hi, f, n, [], kvs, [], [], fp, []. by apply focus_only.
  - destruct H as (f2 & kv1 & kv2 & fp1 & fp2 & H1 & H2 & -> & -> & Hk & Hh).
    assert (Hinc := proj1 (forest_inc _ _ _ _ _ _ _ _ _ H2)).
    assert (Hci := child_index_cons k ks key Hinc).
    destruct (Z.leb_spec k key) as [Hle|Hlt].
    + assert (Hin' : in_bounds (Some k) hi key) by (split; [done|apply Hin]).
      destruct (IH _ _ _ _ _ _ _ H2 Hin') as (c' & lo' & hi' & f' & n' & kvL & kvc & kvR &
        fpL & fpc & fpR & Hfo).
      exists c', lo', hi', f', n', (kv1 ++ kvL), kvc, kvR, (fp1 ++ fpL), fpc, fpR.
      by apply (focus_rest R key k ks c cs lo hi f f2 n kv1 kv2 fp1 fp2).
    + exists c, lo, (Some k), f, (Some f2), [], kv1, kv2, [], fp1, fp2.
      by apply focus_first.
Qed.

(** ** Fuel: the height is less than the number of nodes *)

Lemma forest_size (R : subtree) m : (forall c lo hi f n kv fp, R c lo hi f n kv fp -> m <= length fp) ->
  forall ks lo cs hi f n kvs fp, forest R lo ks cs hi f n kvs fp -> m <= length fp.
Proof.
  intros HR. induction ks as [|k ks IH]; intros lo [|c cs] hi f n kvs fp H; simpl in H; try done.
  - destruct cs; [|done]. by eapply HR.
  - destruct H as (f2 & kv1 & kv2 & fp1 & fp2 & H1 & _ & _ & -> & _).
    apply HR in H1. rewrite length_app. lia.
Qed.

Lemma rep_size ns h : forall id lo hi f n kvs fp, rep ns h id lo hi f n kvs fp -> h < length fp.
Proof.
  induction h as [|h IH]; intros id lo hi f n kvs fp H; simpl in H.
  - destruct H as (keys & vals & _ & _ & _ & _ & _ & _ & _ & ->). simpl. lia.
  - destruct H as (keys & children & link & fp' & _ & H & _ & ->). simpl.
    assert (S h <= length fp'); [|lia]. eapply (forest_size _ _ (fun _ _ _ _ _ _ _ Hr => IH _ _ _ _ _ _ _ Hr)), H.
Qed.

Lemma nodup_bounded (l : list nat) n : NoDup l -> (forall x, x ∈ l -> x < n) -> length l <= n.
Proof.
  intros Hnd Hl. rewrite <- (length_seq n 0). apply submseteq_length, NoDup_submseteq; [done|].
  intros x Hx. apply elem_of_seq. apply Hl in Hx. lia.
Qed.

(** ** Reading *)

Lemma not_beyond lo hi key link : in_bounds lo hi key -> beyond link hi key = None.
Proof.
  intros [_ H]. unfold beyond. destruct hi; [|done]. simpl in H. by rewrite (proj2 (Z.leb_gt _ _)).
Qed.

Lemma get_loop_spec ns key h : forall id lo hi f n kvs fp fuel,
  rep ns h id lo hi f n kvs fp -> in_bounds lo hi key -> h < fuel ->
  get_loop fuel ns id key = Ok (kv_get key kvs).
Proof.
  induction h as [|h IH]; intros id lo hi f n kvs fp [|fuel] H Hin Hf; try lia; simpl in H |- *.
  - destruct H as (keys & vals & -> & -> & Hl & Hi & _). rewrite (not_beyond _ _ _ _ Hin).
    assert (Hs := search_get keys vals key Hi Hl). destruct (binary_search keys key) as [i|i].
    + destruct Hs as (v & -> & ->). done.
    + by rewrite Hs.
  - destruct H as (keys & children & link & fp' & -> & H & _ & _).
    rewrite (not_beyond _ _ _ _ Hin).
    destruct (forest_focus _ key (rep_bounded ns h) _ _ _ _ _ _ _ _ H Hin)
      as (c & lo' & hi' & f' & n' & kvL & kvc & kvR & fpL & fpc & fpR & []).
    rewrite fo_child0, (IH _ _ _ _ _ _ _ fuel fo_rep0 fo_in0) by lia.
    by rewrite fo_kvs0, kv_get_app_r, kv_get_app_l.
Qed.

(** ** Deleting *)

Lemma remove_at_sub {A} i (l : list A) x : x ∈ remove_at i l -> x ∈ l.
Proof.
  unfold remove_at. rewrite elem_of_app. intros [H|H].
  - by eapply subseteq_take.
  - by eapply subseteq_drop.
Qed.

Lemma delete_loop_spec key h : forall ns id lo hi f n kvs fp fuel,
  rep ns h id lo hi f n kvs fp -> NoDup fp -> (forall x, x ∈ fp -> x < length ns) ->
  in_bounds lo hi key -> h < fuel ->
  exists ns', delete_loop fuel id key ns = (Ok (kv_get key kvs), ns') /\
    rep ns' h id lo hi f n (kv_delete key kvs) fp /\ length ns' = length ns /\
    (forall x, x ∉ fp -> ns' !! x = ns !! x).
Proof.
  induction h as [|h IH]; intros ns id lo hi f n kvs fp [|fuel] H Hnd Hlt Hin Hf; try lia;
    simpl in H |- *.
  - destruct H as (keys & vals & Hn & -> & Hl & Hi & Hb & Hc & -> & ->). rewrite Hn.
    rewrite (not_beyond _ _ _ _ Hin).
    assert (Hs := search_get keys vals key Hi Hl). assert (Hd := search_delete keys vals key Hi Hl).
    destruct (binary_search keys key) as [i|i] eqn:Eb.
    + destruct Hs as (v & Hv & Hg). destruct Hd as [Hd Hi']. rewrite Hv, Hg, Hd.
      eexists. split; [done|]. assert (Hiv := lookup_lt_Some _ _ _ Hv).
      split; [|split; [apply length_insert|]].
      * exists (remove_at i keys), (remove_at i vals). rewrite !remove_at_length by lia.
        split_and!; try done; try lia.
        -- apply list_lookup_insert_eq, Hlt. left.
        -- rewrite Forall_forall in Hb |- *. intros x Hx. apply remove_at_sub in Hx. by apply Hb.
      * intros x Hx. rewrite list_lookup_insert_ne; [done|]. intros ->. apply Hx. left.
    + rewrite Hs, Hd. eexists. split; [done|]. split; [|done].
      exists keys, vals. split_and!; done.
  - destruct H as (keys & children & link & fp' & Hn & H & Hc & ->). rewrite Hn.
    rewrite (not_beyond _ _ _ _ Hin).
    destruct (forest_focus _ key (rep_bounded ns h) _ _ _ _ _ _ _ _ H Hin)
      as (c & lo' & hi' & f' & n' & kvL & kvc & kvR & fpL & fpc & fpR & []).
    rewrite fo_child0. subst fp' kvs. apply NoDup_cons in Hnd as [Hid Hnd].
    assert (Hsep : forall x, x ∈ fpc -> x ∉ fpL ++ fpR).
    { intros x Hx. apply NoDup_app in Hnd as (N1 & N2 & N3). apply NoDup_app in N3 as (N4 & N5 & N6).
      rewrite elem_of_app. intros [Hy|Hy]; [apply (N2 x Hy), elem_of_app; by left|by apply (N5 x)]. }
    destruct (IH ns c lo' hi' f' n' kvc fpc fuel fo_rep0) as (ns' & E & Hr & Hlen & Hfr); try done; try lia.
    { apply NoDup_app in Hnd as (_ & _ & N3). by apply NoDup_app in N3 as (N4 & _). }
    { intros x Hx. apply Hlt. right. rewrite !elem_of_app. auto. }
    rewrite E. exists ns'. split.
    { by rewrite kv_get_app_r, kv_get_app_l. }
    split; [|split; [done|]].
    + exists keys, children, link, (fpL ++ fpc ++ fpR). split.
      { rewrite Hfr; [done|]. intros Hx. apply Hid. rewrite !elem_of_app. auto. }
      split; [|done]. rewrite kv_delete_app_r, kv_delete_app_l by done.
      apply fo_same0; [|done]. intros c0 l0 h0 f0 n0 kv0 fp0 Hs. apply rep_frame.
      intros x Hx. apply Hfr. intros Hxc. apply (Hsep x Hxc). auto.
    + intros x Hx. apply Hfr. intros Hxc. apply Hx. right. rewrite !elem_of_app. auto.
Qed.

(** ** Splitting *)

Lemma MID_lt : 0 < MID < NODE_CAPACITY.
Proof. unfold MID, NODE_CAPACITY. simpl. lia. Qed.

Lemma inc_split ks m sep lo :
  inc lo ks -> ks !! m = Some sep ->
  Forall (fun k => k < sep)%Z (take m ks) /\ inc (Some sep) (drop (S m) ks) /\ above lo sep.
Proof.
  intros Hi Hs. rewrite <- (take_drop_middle ks m sep Hs) in Hi.
  apply inc_app in Hi as (H1 & H2 & H3 & H4). split; [|split].
  - apply Forall_forall. intros x Hx. apply H4; [done|left].
  - apply H2.
  - apply H3. left.
Qed.

Lemma forest_split (R : subtree) ks : forall m sep lo cs hi f n kvs fp,
  forest R lo ks cs hi f n kvs fp -> ks !! m = Some sep ->
  exists f2 kv1 kv2 fp1 fp2,
    forest R lo (take m ks) (take (S m) cs) (Some sep) f (Some f2) kv1 fp1 /\
    forest R (Some sep) (drop (S m) ks) (drop (S m) cs) hi f2 n kv2 fp2 /\
    kvs = kv1 ++ kv2 /\ fp = fp1 ++ fp2 /\ lt_hi sep hi.
Proof.
  induction ks as [|k ks IH]; intros m sep lo [|c cs] hi f n kvs fp H Hm; simpl in H; try done.
  destruct H as (f2 & kv1 & kv2 & fp1 & fp2 & H1 & H2 & -> & -> & Hk & Hh).
  destruct m as [|m]; simpl in Hm.
  - injection Hm as <-. exists f2, kv1, kv2, fp1, fp2. by split_and!.
  - destruct (IH m sep _ _ _ _ _ _ _ H2 Hm) as (g & kva & kvb & fpa & fpb & G1 & G2 & -> & -> & Hs).
    exists g, (kv1 ++ kva), kvb, (fp1 ++ fpa), fpb. rewrite <- !app_assoc.
    split_and!; try done. exists f2, kv1, kva, fp1, fpa. split_and!; try done.
    assert (Hi := proj1 (forest_inc _ _ _ _ _ _ _ _ _ H2)).
    apply (inc_cons_lt k ks sep Hi). by eapply list_elem_of_lookup_2.
Qed.

(** What a node that split leaves: the left half in place, the right half in a
    new node. *)
Definition split_post ns' h id rid lo hi sep f n kvs fp' : Prop :=
  exists f2 kv1 kv2 fp1 fp2,
    fp' = fp1 ++ fp2 /\ kvs = kv1 ++ kv2 /\ above lo sep /\ lt_hi sep hi /\
    rep ns' h id lo (Some sep) f (Some f2) kv1 fp1 /\
    rep ns' h rid (Some sep) hi f2 n kv2 fp2.

Lemma lookup_split_old (ns : list Node) id a b x :
  x < length ns -> x <> id -> (<[id := a]> ns ++ [b]) !! x = ns !! x.
Proof.
  intros Hx Hne. rewrite lookup_app_l by (rewrite length_insert; lia).
  by rewrite list_lookup_insert_ne.
Qed.

Lemma lookup_split_id (ns : list Node) id a b :
  id < length ns -> (<[id := a]> ns ++ [b]) !! id = Some a.
Proof.
  intros Hx. rewrite lookup_app_l by (rewrite length_insert; lia). by apply list_lookup_insert_eq.
Qed.

Lemma lookup_split_new (ns : list Node) id a b :
  (<[id := a]> ns ++ [b]) !! length ns = Some b.
Proof. rewrite <- (length_insert ns id a). by rewrite list_lookup_middle. Qed.

Lemma split_leaf_spec ns id lo hi n keys vals :
  ns !! id = Some (Leaf keys vals n hi) -> length keys = length vals -> inc None keys ->
  Forall (in_bounds lo hi) keys -> length keys = S NODE_CAPACITY ->
  exists sep ns', split_leaf id ns = (Ok (sep, length ns), ns') /\
    length ns' = S (length ns) /\
    (forall x, x < length ns -> x <> id -> ns' !! x = ns !! x) /\
    split_post ns' 0 id (length ns) lo hi sep id n (zip keys vals) [id; length ns].
Proof.
  intros Hn Hl Hi Hb Hc. assert (Hid := lookup_lt_Some _ _ _ Hn).
  assert (HM := MID_lt).
  destruct (lookup_lt_is_Some_2 keys MID) as [sep Hs]; [lia|].
  destruct (inc_split keys MID sep None Hi Hs) as (H1 & H2 & _).
  assert (Hd : drop MID keys = sep :: drop (S MID) keys) by by apply drop_S.
  assert (Hsb : in_bounds lo hi sep).
  { rewrite Forall_forall in Hb. apply Hb. by eapply list_elem_of_lookup_2. }
  assert (Habove : above lo sep).
  { destruct lo as [l|]; [|done]. simpl.
    destruct (lookup_lt_is_Some_2 keys 0) as [k0 Hk0]; [lia|].
    rewrite Forall_forall in Hb. destruct (Hb k0) as [Hb0 _]; [by eapply list_elem_of_lookup_2|].
    rewrite Forall_forall in H1. assert (Hlt : (k0 < sep)%Z); [|simpl in Hb0; lia].
    apply H1. eapply list_elem_of_lookup_2. rewrite lookup_take_lt; [exact Hk0|].
    unfold MID, NODE_CAPACITY. simpl. lia. }
  unfold split_leaf. rewrite Hn, Hd. rewrite decide_False by lia.
  eexists sep, _. split; [reflexivity|].
  split; [rewrite length_app, length_insert; simpl; lia|].
  split; [intros x Hx Hne; by apply lookup_split_old|].
  exists (length ns), (zip (take MID keys) (take MID vals)), (zip (drop MID keys) (drop MID vals)),
    [id], [length ns].
  split; [done|]. split.
  { rewrite <- (take_drop MID keys) at 1. rewrite <- (take_drop MID vals) at 1.
    apply zip_with_app. rewrite !length_take. lia. }
  split; [done|]. split; [apply Hsb|]. rewrite <- (take_drop MID keys) in Hi, Hb.
  apply inc_app in Hi as (I1 & I2 & _). apply Forall_app in Hb as [B1 B2].
  split.
  - eexists _, _. split; [by apply lookup_split_id|]. split_and!; try done.
    + rewrite !length_take. lia.
    + rewrite Forall_forall in B1, H1 |- *. intros x Hx. split; [by apply B1|]. by apply H1.
    + rewrite length_take. lia.
  - eexists _, _. split; [apply lookup_split_new|].
    rewrite <- Hd. split_and!; try done.
    + rewrite !length_drop. lia.
    + rewrite Hd. constructor; [split; [simpl; lia|apply Hsb]|].
      rewrite Hd in B2. apply Forall_cons in B2 as [_ B2]. apply inc_forall in H2.
      rewrite Forall_forall in B2, H2 |- *. intros x Hx. split; [|by apply B2].
      apply H2 in Hx. simpl in *. lia.
    + rewrite length_drop. lia.
Qed.

Lemma split_internal_spec ns h id lo hi f n kvs fp keys children link :
  ns !! id = Some (Internal keys children link hi) ->
  forest (rep ns h) lo keys children hi f n kvs fp -> length keys = S NODE_CAPACITY ->
  id ∉ fp -> (forall x, x ∈ fp -> x < length ns) ->
  exists sep ns' fp1 fp2, split_internal id ns = (Ok (sep, length ns), ns') /\
    length ns' = S (length ns) /\
    (forall x, x < length ns -> x <> id -> ns' !! x = ns !! x) /\
    fp = fp1 ++ fp2 /\
    split_post ns' (S h) id (length ns) lo hi sep f n kvs ((id :: fp1) ++ length ns :: fp2).
Proof.
  intros Hn H Hc Hid Hlt. assert (Hidl := lookup_lt_Some _ _ _ Hn). assert (HM := MID_lt).
  destruct (lookup_lt_is_Some_2 keys MID) as [sep Hs]; [lia|].
  destruct (forest_split _ _ MID sep _ _ _ _ _ _ _ H Hs)
    as (f2 & kv1 & kv2 & fp1 & fp2 & H1 & H2 & Hkv & Hfp & Hhi).
  destruct (inc_split keys MID sep lo (proj1 (forest_inc _ _ _ _ _ _ _ _ _ H)) Hs) as (_ & _ & Ha).
  assert (Hcl := forest_length _ _ _ _ _ _ _ _ _ H).
  unfold split_internal. rewrite Hn, Hs. rewrite decide_False by lia.
  eexists sep, _, fp1, fp2. split; [reflexivity|].
  split; [rewrite length_app, length_insert; simpl; lia|].
  split; [intros x Hx Hne; by apply lookup_split_old|]. split; [done|].
  exists f2, kv1, kv2, (id :: fp1), (length ns :: fp2). split_and!; try done.
  - eexists _, _, _, fp1. split; [by apply lookup_split_id|]. rewrite Nat.add_1_r.
    split; [|split; [rewrite length_take; lia|done]].
    eapply forest_mono; [|exact H1]. intros c l0 h0 f0 n0 kv fp0 Hs0. apply rep_frame.
    intros x Hx. apply Hs0 in Hx. assert (x ∈ fp) by (rewrite Hfp; apply elem_of_app; by left).
    apply lookup_split_old; [by apply Hlt|]. by intros ->.
  - eexists _, _, _, fp2. split; [by apply lookup_split_new|]. rewrite Nat.add_1_r.
    split; [|split; [rewrite length_drop; lia|done]].
    eapply forest_mono; [|exact H2]. intros c l0 h0 f0 n0 kv fp0 Hs0. apply rep_frame.
    intros x Hx. apply Hs0 in Hx. assert (x ∈ fp) by (rewrite Hfp; apply elem_of_app; by right).
    apply lookup_split_old; [by apply Hlt|]. by intros ->.
Qed.

(** ** Inserting *)

(** What [insert_rec] leaves below [id]. *)
Definition insert_post ns ns' h id lo hi f n kvs (fp : list nat) (res : option (Z * nat)) : Prop :=
  length ns <= length ns' /\
  (forall x, x < length ns -> x ∉ fp -> ns' !! x = ns !! x) /\
  exists fp', NoDup fp' /\ (forall x, x ∈ fp' -> x ∈ fp \/ length ns <= x < length ns') /\
  match res with
  | None => rep ns' h id lo hi f n kvs fp'
  | Some (sep, rid) => split_post ns' h id rid lo hi sep f n kvs fp'
  end.

Lemma insert_at_bounds lo hi i k (ks : list Z) :
  in_bounds lo hi k -> Forall (in_bounds lo hi) ks -> Forall (in_bounds lo hi) (insert_at i k ks).
Proof.
  intros Hk Hb. unfold insert_at. rewrite <- (take_drop i ks) in Hb.
  apply Forall_app in Hb as [H1 H2]. apply Forall_app. split; [done|]. by constructor.
Qed.

Lemma insert_leaf_spec ns id lo hi n keys vals key v fuel :
  ns !! id = Some (Leaf keys vals n hi) -> length keys = length vals -> inc None keys ->
  Forall (in_bounds lo hi) keys -> length keys <= NODE_CAPACITY -> in_bounds lo hi key ->
  exists res ns', insert_rec (S fuel) id key v ns = (Ok res, ns') /\
    insert_post ns ns' 0 id lo hi id n (kv_insert key v (zip keys vals)) [id] res.
Proof.
  intros Hn Hl Hi Hb Hc Hin. assert (Hid := lookup_lt_Some _ _ _ Hn).
  cbn [insert_rec]. rewrite Hn. assert (Hs := search_insert keys vals key v Hi Hl).
  destruct (binary_search keys key) as [i|i].
  - destruct Hs as [Hiv ->]. rewrite decide_False by lia. eexists _, _. split; [reflexivity|].
    split; [by rewrite length_insert|]. split.
    { intros x Hx Hxid. rewrite list_lookup_insert_ne; [done|]. intros ->. apply Hxid. left. }
    exists [id]. split; [by apply NoDup_singleton|]. split; [auto|].
    eexists _, _. split; [by apply list_lookup_insert_eq|]. rewrite length_insert. by split_and!.
  - destruct Hs as (Hiv & -> & Hi'). rewrite decide_False by lia.
    set (ks' := insert_at i key keys) in *. set (vs' := insert_at i v vals) in *.
    assert (Hlk : length ks' = S (length keys)) by apply insert_at_length.
    assert (Hlv : length vs' = S (length vals)) by apply insert_at_length.
    assert (Hb' : Forall (in_bounds lo hi) ks') by by apply insert_at_bounds.
    set (ns1 := <[id := Leaf ks' vs' n hi]> ns).
    assert (Hn1 : ns1 !! id = Some (Leaf ks' vs' n hi)) by by apply list_lookup_insert_eq.
    assert (Hl1 : length ns1 = length ns) by apply length_insert.
    assert (Hother : forall x, x ∉ [id] -> ns1 !! x = ns !! x).
    { intros x Hx. apply list_lookup_insert_ne. intros ->. apply Hx. left. }
    case_decide as Hfull.
    + destruct (split_leaf_spec ns1 id lo hi n ks' vs' Hn1) as (sep & ns' & E & Hl' & Hfr & Hsp);
        try done; try lia.
      rewrite (bind_ok _ _ _ _ _ E). eexists _, ns'. split; [reflexivity|].
      rewrite Hl1 in *. split; [lia|]. split.
      { intros x Hx Hxid. rewrite Hfr; [by apply Hother|done|]. intros ->. apply Hxid. left. }
      exists [id; length ns]. split; [|split; [|done]].
      * apply NoDup_cons. split; [|by apply NoDup_singleton].
        intros Hx%list_elem_of_singleton. lia.
      * intros x [->|Hx%list_elem_of_singleton]%elem_of_cons; [left; left|right; lia].
    + eexists _, ns1. split; [reflexivity|]. split; [lia|]. split; [intros x _; apply Hother|].
      exists [id]. split; [by apply NoDup_singleton|]. split; [auto|].
      exists ks', vs'. split_and!; try done; lia.
Qed.

(** Putting back a child that split, then splitting this node if it is full. *)
Lemma insert_split_spec ns h id lo hi f n keys children link kvs fp sep rid i :
  ns !! id = Some (Internal keys children link hi) ->
  binary_search keys sep = Missing i -> length keys <= NODE_CAPACITY ->
  i <= length keys -> length children = S (length keys) ->
  forest (rep ns h) lo (insert_at i sep keys) (insert_at (i + 1) rid children) hi f n kvs fp ->
  id ∉ fp -> NoDup fp -> (forall x, x ∈ fp -> x < length ns) ->
  exists res ns', insert_split id sep rid ns = (Ok res, ns') /\
    insert_post ns ns' (S h) id lo hi f n kvs (id :: fp) res.
Proof.
  intros Hn Hs Hc Hi Hcl H Hid Hnd Hlt. assert (Hidl := lookup_lt_Some _ _ _ Hn).
  unfold insert_split. rewrite Hn, Hs. rewrite decide_False by lia.
  set (ks' := insert_at i sep keys) in *. set (cs' := insert_at (i + 1) rid children) in *.
  assert (Hlk : length ks' = S (length keys)) by apply insert_at_length.
  set (ns1 := <[id := Internal ks' cs' link hi]> ns).
  assert (Hn1 : ns1 !! id = Some (Internal ks' cs' link hi)) by by apply list_lookup_insert_eq.
  assert (Hl1 : length ns1 = length ns) by apply length_insert.
  assert (Hother : forall x, x <> id -> ns1 !! x = ns !! x)
    by (intros x Hx; by apply list_lookup_insert_ne).
  assert (H1 : forest (rep ns1 h) lo ks' cs' hi f n kvs fp).
  { eapply forest_mono; [|exact H]. intros c l0 h0 f0 n0 kv fp0 Hs0. apply rep_frame.
    intros x Hx. apply Hother. intros ->. apply Hid. auto. }
  case_decide as Hfull.
  - destruct (split_internal_spec ns1 h id lo hi f n kvs fp ks' cs' link Hn1 H1)
      as (s & ns' & fp1 & fp2 & E & Hl' & Hfr & -> & Hsp); [lia|done|by rewrite Hl1|].
    rewrite (bind_ok _ _ _ _ _ E). eexists _, ns'. split; [reflexivity|].
    rewrite Hl1 in *. split; [lia|]. split.
    { intros x Hx Hxid. assert (x <> id) by (intros ->; apply Hxid; left).
      rewrite Hfr by done. by apply Hother. }
    exists ((id :: fp1) ++ length ns :: fp2). split; [|split; [|done]].
    + rewrite <- Permutation_middle. simpl.
      assert (Hnew : length ns ∉ fp1 ++ fp2) by (intros Hx; apply Hlt in Hx; lia).
      apply NoDup_cons. split; [|by apply NoDup_cons].
      intros [Hx|Hx]%elem_of_cons; [lia|done].
    + intros x [[->|Hx]%elem_of_cons|[->|Hx]%elem_of_cons]%elem_of_app.
      * left. left.
      * left. right. apply elem_of_app. by left.
      * right. lia.
      * left. right. apply elem_of_app. by right.
  - eexists _, ns1. split; [reflexivity|]. split; [lia|]. split.
    { intros x Hx Hxid. apply Hother. intros ->. apply Hxid. left. }
    exists (id :: fp). split; [by apply NoDup_cons|]. split; [auto|].
    exists ks', cs', link, fp. split_and!; try done; lia.
Qed.

(** The nodes of a tree whose child was replaced are still distinct. *)
Lemma nodup_replace (fpL fpc fpR fpc' : list nat) id len :
  NoDup (id :: fpL ++ fpc ++ fpR) -> (forall x, x ∈ (id :: fpL ++ fpc ++ fpR) -> x < len) ->
  NoDup fpc' -> (forall x, x ∈ fpc' -> x ∈ fpc \/ len <= x) ->
  NoDup (id :: fpL ++ fpc' ++ fpR).
Proof.
  intros Hnd Hlt Hnd' Hx.
  assert (Hp : forall l : list nat, id :: fpL ++ l ++ fpR ≡ₚ l ++ (id :: fpL ++ fpR)).
  { intros l. rewrite <- Permutation_middle. f_equiv. rewrite !app_assoc. f_equiv.
    by rewrite Permutation_app_comm. }
  rewrite Hp in Hnd |- *. apply NoDup_app in Hnd as (N1 & N2 & N3). apply NoDup_app.
  split; [done|]. split; [|done]. intros x Hin Hout.
  destruct (Hx x Hin) as [Hc|Hc]; [by apply (N2 x)|].
  assert (x < len); [|lia]. apply Hlt. rewrite Hp. apply elem_of_app. by right.
Qed.

(** A child's nodes are apart from those of the rest of the tree. *)
Lemma footprint_child (fpL fpc fpR : list nat) id len :
  NoDup (id :: fpL ++ fpc ++ fpR) -> (forall x, x ∈ (id :: fpL ++ fpc ++ fpR) -> x < len) ->
  NoDup fpc /\ (forall x, x ∈ fpc -> x < len) /\ id ∉ fpc /\
  (forall x, x ∈ fpL ++ fpR -> (x ∉ fpc) /\ x < len).
Proof.
  intros [Hid (N1 & N2 & (N4 & N5 & N6)%NoDup_app)%NoDup_app]%NoDup_cons Hlt. split_and!.
  - done.
  - intros x Hx. apply Hlt. right. rewrite !elem_of_app. auto.
  - intros Hx. apply Hid. rewrite !elem_of_app. auto.
  - intros x Hx. split.
    + intros Hxc. apply elem_of_app in Hx as [Hx|Hx]; [|by apply (N5 x)].
      apply (N2 x Hx), elem_of_app. by left.
    + apply Hlt. right. rewrite !elem_of_app in *. tauto.
Qed.

(** An insertion into the child, seen from the parent. *)
Lemma insert_post_parent ns ns1 ns2 h id lo hi f n kvs fp fp1 res :
  (forall x, x ∈ fp -> x < length ns) -> length ns <= length ns1 ->
  (forall x, x < length ns -> x ∉ fp -> ns1 !! x = ns !! x) ->
  (forall x, x ∈ fp1 -> x ∈ fp \/ length ns <= x < length ns1) ->
  insert_post ns1 ns2 h id lo hi f n kvs fp1 res ->
  insert_post ns ns2 h id lo hi f n kvs fp res.
Proof.
  intros Hlt Hle Hfr Hb (Hle2 & Hfr2 & fp2 & Hnd & Hx & Hres).
  split; [lia|]. split.
  - intros x Hxl Hxfp. rewrite Hfr2; [by apply Hfr|lia|].
    intros Hy. destruct (Hb x Hy) as [Hz|Hz]; [done|lia].
  - exists fp2. split; [done|]. split; [|done]. intros x Hy. apply Hx in Hy as [Hy|Hy].
    + destruct (Hb x Hy) as [Hz|Hz]; [by left|right; lia].
    + right. lia.
Qed.

Lemma insert_rec_spec key v h : forall ns id lo hi f n kvs fp fuel,
  rep ns h id lo hi f n kvs fp -> NoDup fp -> (forall x, x ∈ fp -> x < length ns) ->
  in_bounds lo hi key -> h < fuel ->
  exists res ns', insert_rec fuel id key v ns = (Ok res, ns') /\
    insert_post ns ns' h id lo hi f n (kv_insert key v kvs) fp res.
Proof.
  induction h as [|h IH]; intros ns id lo hi f n kvs fp [|fuel] H Hnd Hlt Hin Hf; try lia.
  { destruct H as (keys & vals & Hn & -> & Hl & Hi & Hb & Hc & -> & ->).
    by apply insert_leaf_spec. }
  destruct H as (keys & children & link & fp' & Hn & H & Hc & ->).
  assert (Hcl := forest_length _ _ _ _ _ _ _ _ _ H).
  destruct (forest_focus _ key (rep_bounded ns h) _ _ _ _ _ _ _ _ H Hin)
    as (c & lo' & hi' & f' & n' & kvL & kvc & kvR & fpL & fpc & fpR & []).
  cbn [insert_rec]. rewrite Hn, fo_child0. subst fp' kvs.
  destruct (footprint_child _ _ _ _ _ Hnd Hlt) as (Hndc & Hsub & Hidc & Hsep).
  assert (Hidl := lookup_lt_Some _ _ _ Hn).
  destruct (IH ns c lo' hi' f' n' kvc fpc fuel fo_rep0 Hndc Hsub fo_in0 ltac:(lia))
    as (res & ns1 & E & Hle & Hfr & fpc' & Hnd' & Hx' & Hres).
  rewrite (bind_ok _ _ _ _ _ E).
  assert (Hkeep : forall c lo hi f n kv fp0, (forall x, x ∈ fp0 -> x ∈ fpL ++ fpR) ->
    rep ns h c lo hi f n kv fp0 -> rep ns1 h c lo hi f n kv fp0).
  { intros c0 l0 h0 f0 n0 kv0 fp0 Hs. apply rep_frame. intros x [H1 H2]%Hs%Hsep. by apply Hfr. }
  assert (Hn1 : ns1 !! id = Some (Internal keys children link hi)) by by rewrite Hfr.
  assert (Hnew : NoDup (id :: fpL ++ fpc' ++ fpR)).
  { apply (nodup_replace fpL fpc fpR fpc' id (length ns)); try done.
    intros x Hx. apply Hx' in Hx. intuition lia. }
  assert (Hbound : forall x, x ∈ (id :: fpL ++ fpc' ++ fpR) ->
    x ∈ (id :: fpL ++ fpc ++ fpR) \/ length ns <= x < length ns1).
  { intros x. rewrite !elem_of_cons, !elem_of_app. intros [?|[?|[Hx|?]]]; auto.
    apply Hx' in Hx as [?|?]; auto 6. }
  assert (Hfr1 : forall x, x < length ns -> x ∉ (id :: fpL ++ fpc ++ fpR) -> ns1 !! x = ns !! x).
  { intros x Hx Hxfp. apply Hfr; [done|]. intros Hy. apply Hxfp. right. rewrite !elem_of_app. auto. }
  rewrite kv_insert_app_r, kv_insert_app_l by done.
  destruct res as [[sep rid]|].
  - destruct Hres as (f2 & kv1 & kv2 & fp1 & fp2 & -> & Hkv & Ha & Hl & R1 & R2).
    destruct (fo_split0 (rep ns1 h) sep rid f2 kv1 kv2 fp1 fp2 Hkeep Ha Hl R1 R2) as [Hbs Hfo].
    rewrite <- Hkv in Hfo. apply NoDup_cons in Hnew as [Hnew1 Hnew2].
    assert (Hci := lookup_lt_Some _ _ _ fo_child0).
    destruct (insert_split_spec ns1 h id lo hi f n keys children link _ _ sep rid
      (child_index keys key) Hn1 Hbs Hc ltac:(lia) Hcl Hfo) as (res & ns2 & E2 & Hpost); try done.
    + intros x Hx. destruct (Hbound x) as [Hy|Hy]; [by right| |lia]. apply Hlt in Hy. lia.
    + exists res, ns2. split; [exact E2|]. by eapply insert_post_parent.
  - exists None, ns1. split; [done|]. split; [done|]. split; [done|].
    exists (id :: fpL ++ fpc' ++ fpR). split; [done|]. split; [done|].
    exists keys, children, link, (fpL ++ fpc' ++ fpR). split; [done|]. split; [|done].
    by apply fo_same0.
Qed.

(** ** The chain of leaves *)

Definition ordered (lo hi : option Z) : Prop :=
  match lo, hi with Some l, Some h => (l < h)%Z | _, _ => True end.

Lemma in_bounds_ordered lo hi k : in_bounds lo hi k -> ordered lo hi.
Proof. intros [H1 H2]. destruct lo, hi; simpl in *; try done. lia. Qed.

(** The leaves [lv], with their bindings, are linked from [start] to [next]; the
    high key of each is the lower bound of the following one, from [lo] to [hi]. *)
Fixpoint chain (ns : list Node) (start : option nat) (lo : option Z)
    (lv : list (nat * list binding)) (hi : option Z) (next : option nat) : Prop :=
  match lv with
  | [] => start = next /\ lo = hi
  | (id, kvs) :: lv' =>
      start = Some id /\ exists keys vals link hk,
        ns !! id = Some (Leaf keys vals link hk) /\ kvs = zip keys vals /\
        length keys = length vals /\ inc None keys /\ Forall (in_bounds lo hk) keys /\
        ordered lo hk /\ (lv' = [] \/ is_Some hk) /\ chain ns link hk lv' hi next
  end.

Definition leaf_kvs (lv : list (nat * list binding)) : list binding := concat (map snd lv).

Lemma leaf_kvs_app a b : leaf_kvs (a ++ b) = leaf_kvs a ++ leaf_kvs b.
Proof. unfold leaf_kvs. by rewrite map_app, concat_app. Qed.

Lemma chain_app ns lv1 : forall start lo mid lm lv2 hi next,
  chain ns start lo lv1 lm mid -> chain ns mid lm lv2 hi next -> lv2 = [] \/ is_Some lm ->
  chain ns start lo (lv1 ++ lv2) hi next.
Proof.
  induction lv1 as [|[id kvs] lv1 IH]; intros start lo mid lm lv2 hi next H1 H2 Hm; simpl in *.
  - by destruct H1 as [-> ->].
  - destruct H1 as (-> & keys & vals & link & hk & H3 & H4 & H5 & H6 & H7 & H8 & H9 & H10).
    split; [done|]. exists keys, vals, link, hk. split_and!; try done; [|by eapply IH].
    destruct H9 as [->|H9]; [|by right]. destruct H10 as [_ ->].
    destruct Hm as [->|Hm]; [by left|by right].
Qed.

Definition chainable (ns : list Node) (R : subtree) : Prop :=
  forall c lo hi f n kvs fp, R c lo hi f n kvs fp -> ordered lo hi ->
    exists lv, chain ns (Some f) lo lv hi n /\ leaf_kvs lv = kvs /\ length lv <= length fp.

Lemma forest_chain ns R : chainable ns R -> forall ks lo cs hi f n kvs fp,
  forest R lo ks cs hi f n kvs fp -> ordered lo hi ->
  exists lv, chain ns (Some f) lo lv hi n /\ leaf_kvs lv = kvs /\ length lv <= length fp.
Proof.
  intros HR. induction ks as [|k ks IH]; intros lo [|c cs] hi f n kvs fp H Ho; simpl in H; try done.
  - destruct cs; [|done]. by eapply HR.
  - destruct H as (f2 & kv1 & kv2 & fp1 & fp2 & H1 & H2 & -> & -> & Hk & Hh).
    destruct (HR _ _ _ _ _ _ _ H1 Hk) as (lv1 & C1 & <- & L1).
    destruct (IH _ _ _ _ _ _ _ H2 Hh) as (lv2 & C2 & <- & L2).
    exists (lv1 ++ lv2). split; [eapply chain_app; eauto|]. split; [apply leaf_kvs_app|].
    rewrite !length_app. lia.
Qed.

Lemma rep_chain ns h : chainable ns (rep ns h).
Proof.
  induction h as [|h IH]; intros c lo hi f n kvs fp H Ho; simpl in H.
  - destruct H as (keys & vals & Hn & -> & Hl & Hi & Hb & _ & -> & ->).
    exists [(c, zip keys vals)]. split; [|split; [apply app_nil_r|done]].
    split; [done|]. exists keys, vals, n, hi. split_and!; try done. by left.
  - destruct H as (keys & children & link & fp' & _ & H & _ & ->).
    destruct (forest_chain ns _ IH _ _ _ _ _ _ _ _ H Ho) as (lv & H1 & H2 & H3).
    exists lv. simpl. split_and!; [done|done|lia].
Qed.

(** The child that covers [key], with the leaves to its right. *)
Lemma forest_leaf_for ns R key : bounded R -> chainable ns R -> forall ks lo cs hi f n kvs fp,
  forest R lo ks cs hi f n kvs fp -> in_bounds lo hi key ->
  exists c lo' hi' f' n' kvL kvc fpc lvR,
    cs !! child_index ks key = Some c /\ R c lo' hi' f' n' kvc fpc /\ in_bounds lo' hi' key /\
    kvs = kvL ++ kvc ++ leaf_kvs lvR /\ below key kvL /\ chain ns n' hi' lvR hi n /\
    (lvR = [] \/ is_Some hi') /\
    length lvR + length fpc <= length fp.
Proof.
  intros HR HC. induction ks as [|k ks IH]; intros lo [|c cs] hi f n kvs fp H Hin;
    simpl in H; try done.
  - destruct cs; [|done]. exists c, lo, hi, f, n, [], kvs, fp, [].
    split_and!; try done. + by rewrite app_nil_r. + constructor. + by left.
  - destruct H as (f2 & kv1 & kv2 & fp1 & fp2 & H1 & H2 & -> & -> & Hk & Hh).
    assert (Hinc := proj1 (forest_inc _ _ _ _ _ _ _ _ _ H2)).
    rewrite (child_index_cons k ks key Hinc). rewrite length_app.
    destruct (Z.leb_spec k key) as [Hle|Hlt].
    + destruct (IH _ _ _ _ _ _ _ H2) as (c' & lo' & hi' & f' & n' & kvL & kvc & fpc & lvR &
        F1 & F2 & F3 & -> & F5 & F6 & F6' & F7); [split; [done|apply Hin]|].
      exists c', lo', hi', f', n', (kv1 ++ kvL), kvc, fpc, lvR.
      rewrite <- !app_assoc. split_and!; try done; [|lia].
      apply Forall_app. split; [|done]. eapply Forall_impl; [by apply (HR _ _ _ _ _ _ _ H1)|].
      intros p Hp. exact (in_bounds_lt lo k key p.1 Hp Hle).
    + destruct (forest_chain ns R HC _ _ _ _ _ _ _ _ H2 Hh) as (lvR & C1 & <- & C3).
      exists c, lo, (Some k), f, (Some f2), [], kv1, fp1, lvR.
      split_and!; try done; [by split; [apply Hin|]|constructor|by right|lia].
Qed.

Lemma leaf_for_spec ns key h : forall id lo hi f n kvs fp fuel,
  rep ns h id lo hi f n kvs fp -> in_bounds lo hi key -> h < fuel ->
  exists leaf lo' kvL lv, leaf_loop fuel ns (fun ks => child_index ks key) id = Ok leaf /\
    chain ns (Some leaf) lo' lv hi n /\ kvs = kvL ++ leaf_kvs lv /\ below key kvL /\
    length lv <= length fp.
Proof.
  induction h as [|h IH]; intros id lo hi f n kvs fp [|fuel] H Hin Hf; try lia.
  - destruct (rep_chain ns 0 _ _ _ _ _ _ _ H (in_bounds_ordered _ _ _ Hin)) as (lv & H1 & H2 & H3).
    destruct H as (keys & vals & Hn & Hkv & Hl & _ & _ & _ & -> & ->).
    exists id, lo, [], lv. simpl. rewrite Hn. split_and!; try done. constructor.
  - destruct H as (keys & children & link & fp' & Hn & H & _ & ->).
    destruct (forest_leaf_for ns _ key (rep_bounded ns h) (rep_chain ns h) _ _ _ _ _ _ _ _ H Hin)
      as (c & lo' & hi' & f' & n' & kvL & kvc & fpc & lvR & F1 & F2 & F3 & -> & F5 & F6 & F6' & F7).
    destruct (IH _ _ _ _ _ _ _ fuel F2 F3 ltac:(lia))
      as (leaf & lo2 & kvL' & lv & G1 & G2 & -> & G4 & G5).
    exists leaf, lo2, (kvL ++ kvL'), (lv ++ lvR). simpl. rewrite Hn, F1. split; [done|].
    split; [by eapply chain_app|]. rewrite leaf_kvs_app, <- !app_assoc. split; [done|].
    split; [by apply Forall_app|]. rewrite length_app. lia.
Qed.

Lemma leftmost_spec ns h : forall id lo hi f n kvs fp fuel,
  rep ns h id lo hi f n kvs fp -> h < fuel ->
  leaf_loop fuel ns (fun _ => 0) id = Ok f.
Proof.
  induction h as [|h IH]; intros id lo hi f n kvs fp [|fuel] H Hf; try lia; simpl in H |- *.
  - by destruct H as (keys & vals & -> & _ & _ & _ & _ & _ & -> & _).
  - destruct H as (keys & children & link & fp' & -> & H & _ & _).
    destruct keys as [|k ks], children as [|c cs]; simpl in H; try done.
    + destruct cs; [|done]. eapply IH; [exact H|lia].
    + destruct H as (f2 & kv1 & kv2 & fp1 & fp2 & H1 & _). eapply IH; [exact H1|lia].
Qed.

(** ** Scans *)

Lemma kv_range_app lo hi a b : kv_range lo hi (a ++ b) = kv_range lo hi a ++ kv_range lo hi b.
Proof. apply filter_app. Qed.

Lemma kv_range_none lo hi l :
  Forall (fun p => p.1 < lo \/ hi <= p.1)%Z l -> kv_range lo hi l = [].
Proof.
  induction 1 as [|p l Hp _ IH]; [done|]. unfold kv_range in *.
  rewrite filter_cons_False; [done|]. lia.
Qed.

Lemma scan_leaf_spec lo hi keys : forall vals out,
  inc None keys -> length keys = length vals ->
  exists b, scan_leaf lo hi keys vals out = Ok (out ++ kv_range lo hi (zip keys vals), b) /\
    (b = true -> exists k, k ∈ keys /\ (hi <= k)%Z).
Proof.
  induction keys as [|k keys IH]; intros [|v vals] out Hi Hl; try done; simpl.
  - exists false. by rewrite app_nil_r.
  - simpl in Hl. destruct Hi as [_ Hi]. unfold kv_range. destruct (Z.leb_spec hi k) as [Hk|Hk].
    + exists true. split; [|intros _; exists k; split; [left|done]].
      change (filter _ _) with (kv_range lo hi ((k, v) :: zip keys vals)).
      rewrite kv_range_none, app_nil_r; [done|]. constructor; [simpl; lia|].
      apply inc_forall in Hi. rewrite <- (zip_keys keys vals) in Hi by lia.
      assert (Hz : Forall (fun p : binding => above (Some k) p.1) (zip keys vals))
        by exact (proj1 (Forall_map _ _ _) Hi).
      eapply Forall_impl; [exact Hz|]. simpl. intros; lia.
    + destruct (Z.leb_spec lo k) as [Hlk|Hlk].
      * rewrite filter_cons_True by (simpl; lia).
        destruct (IH vals (out ++ [(k, v)]) (inc_None _ _ Hi) ltac:(lia)) as (b & -> & Hb).
        exists b. rewrite <- app_assoc. split; [done|]. intros Hbt.
        destruct (Hb Hbt) as (x & Hx & Hxh). exists x. split; [by right|done].
      * rewrite filter_cons_False by (simpl; lia).
        destruct (IH vals out (inc_None _ _ Hi) ltac:(lia)) as (b & -> & Hb).
        exists b. split; [done|]. intros Hbt. destruct (Hb Hbt) as (x & Hx & Hxh).
        exists x. split; [by right|done].
Qed.

Lemma range_loop_spec ns lo hi lv : forall fuel id l h out,
  chain ns (Some id) l lv h None -> inc None (map fst (leaf_kvs lv)) -> length lv <= fuel ->
  range_loop fuel ns lo hi id out = Ok (out ++ kv_range lo hi (leaf_kvs lv)).
Proof.
  induction lv as [|[id' kvs] lv IH]; intros [|fuel] id l h out Hc Hi Hf; simpl in Hc, Hf; try done; try lia; try (by destruct Hc).
  destruct Hc as ([= <-] & keys & vals & link & hk & Hn & -> & Hl & _ & _ & _ & _ & Hc).
  unfold leaf_kvs in Hi |- *. simpl in Hi |- *. fold (leaf_kvs lv) in Hi |- *.
  rewrite map_app, zip_keys in Hi by done. apply inc_app in Hi as (I1 & I2 & _ & I4).
  rewrite Hn. destruct (scan_leaf_spec lo hi keys vals out I1 Hl) as (b & -> & Hb).
  rewrite kv_range_app. destruct b.
  - destruct (Hb eq_refl) as (k & Hk & Hkh). rewrite (kv_range_none lo hi (leaf_kvs lv)).
    { by rewrite app_nil_r. }
    apply Forall_forall. intros p Hp. right. assert (k < p.1)%Z; [|lia].
    apply I4; [done|]. apply list_elem_of_fmap. eauto.
  - destruct link as [r|].
    + rewrite (IH _ _ _ _ _ Hc) by (done || lia). by rewrite <- app_assoc.
    + destruct lv as [|[] ?]; [|by destruct Hc]. by rewrite app_nil_r.
Qed.

Lemma len_loop_spec ns lv : forall fuel id l h m,
  chain ns (Some id) l lv h None -> length lv <= fuel ->
  len_loop fuel ns id m = Ok (m + length (leaf_kvs lv)).
Proof.
  induction lv as [|[id' kvs] lv IH]; intros [|fuel] id l h m Hc Hf; simpl in Hc, Hf; try done; try lia; try (by destruct Hc).
  destruct Hc as ([= <-] & keys & vals & link & hk & Hn & -> & Hl & _ & _ & _ & _ & Hc).
  unfold leaf_kvs. simpl. fold (leaf_kvs lv). rewrite Hn, length_app, length_zip_with.
  replace (min (length keys) (length vals)) with (length keys) by lia.
  destruct link as [r|].
  - rewrite (IH _ _ _ _ _ Hc) by (done || lia). f_equal. lia.
  - destruct lv as [|[] ?]; [|by destruct Hc]. simpl. f_equal. unfold leaf_kvs. simpl. lia.
Qed.

(** Bindings are in key order. *)
Definition sorted_tree (R : subtree) : Prop :=
  forall c lo hi f n kvs fp, R c lo hi f n kvs fp -> inc None (map fst kvs).

Lemma forest_sorted R : bounded R -> sorted_tree R -> forall ks lo cs hi f n kvs fp,
  forest R lo ks cs hi f n kvs fp -> inc None (map fst kvs).
Proof.
  intros HB HS. induction ks as [|k ks IH]; intros lo [|c cs] hi f n kvs fp H; simpl in H; try done.
  - destruct cs; [|done]. by eapply HS.
  - destruct H as (f2 & kv1 & kv2 & fp1 & fp2 & H1 & H2 & -> & -> & _).
    rewrite map_app. apply inc_app. split; [by eapply HS|]. split; [by eapply IH|].
    split; [done|]. intros x y Hx Hy.
    apply HB in H1. apply (forest_bounded R HB) in H2. rewrite Forall_forall in H1, H2.
    apply list_elem_of_fmap in Hx as (p & -> & Hp), Hy as (q & -> & Hq).
    apply H1 in Hp as [_ Hp]. apply H2 in Hq as [Hq _]. simpl in *. lia.
Qed.

Lemma rep_sorted ns h : sorted_tree (rep ns h).
Proof.
  induction h as [|h IH]; intros c lo hi f n kvs fp H; simpl in H.
  - destruct H as (keys & vals & _ & -> & Hl & Hi & _). by rewrite zip_keys.
  - destruct H as (keys & children & link & fp' & _ & H & _).
    by eapply forest_sorted; [apply rep_bounded|exact IH|].
Qed.

(** ** Readers that follow right-links *)

Definition lo_le (lo : option Z) (k : Z) : Prop :=
  match lo with Some l => (l <= k)%Z | None => True end.

Lemma chain_lower ns lv : forall start lo hi next,
  chain ns start lo lv hi next -> Forall (fun p => lo_le lo p.1) (leaf_kvs lv).
Proof.
  induction lv as [|[id kvs] lv IH]; intros start lo hi next H; simpl in H; [constructor|].
  destruct H as (_ & keys & vals & link & hk & _ & -> & Hl & _ & Hb & Ho & Hs & H).
  apply IH in H. unfold leaf_kvs. simpl. apply Forall_app. split.
  - rewrite <- (zip_keys keys vals Hl) in Hb.
    assert (Hz : Forall (fun p : binding => in_bounds lo hk p.1) (zip keys vals))
      by exact (proj1 (Forall_map _ _ _) Hb).
    eapply Forall_impl; [exact Hz|]. by intros p [Hp _].
  - destruct Hs as [->|[h ->]]; [constructor|]. eapply Forall_impl; [exact H|].
    intros q Hq. destruct lo as [l|]; simpl in *; [lia|done].
Qed.

(** Starting at any leaf of the chain whose lower bound is at most [key], a
    reader finds the binding of [key] by right-links alone. *)
Lemma chain_get ns key lv : forall fuel id lo hi,
  chain ns (Some id) lo lv hi None -> lo_le lo key -> in_bounds None hi key ->
  length lv <= fuel -> get_loop fuel ns id key = Ok (kv_get key (leaf_kvs lv)).
Proof.
  induction lv as [|[id' kvs] lv IH]; intros [|fuel] id lo hi H Hlo Hhi Hf; simpl in H, Hf;
    try lia; try (by destruct H).
  destruct H as ([= <-] & keys & vals & link & hk & Hn & -> & Hl & Hi & Hb & Ho & Hs & H).
  simpl. rewrite Hn. unfold leaf_kvs. simpl. fold (leaf_kvs lv).
  assert (Hz : Forall (fun p : binding => in_bounds lo hk p.1) (zip keys vals)).
  { rewrite <- (zip_keys keys vals Hl) in Hb. exact (proj1 (Forall_map _ _ _) Hb). }
  unfold beyond. destruct hk as [h|].
  - destruct (Z.leb_spec h key) as [Hle|Hlt].
    + assert (Hbel : below key (zip keys vals)).
      { eapply Forall_impl; [exact Hz|]. intros p [_ Hp]. simpl in Hp. lia. }
      rewrite (kv_get_app_r _ _ _ Hbel). destruct link as [r|].
      * rewrite (IH fuel r (Some h) hi); try done; lia.
      * destruct lv as [|[] ?]; [|by destruct H]. destruct H as [_ <-].
        destruct Hhi as [_ Hhi]. simpl in Hhi. lia.
    + assert (Hbey : beyond_key key (leaf_kvs lv)).
      { eapply Forall_impl; [by eapply chain_lower|]. intros p Hp. simpl in Hp. lia. }
      rewrite (kv_get_app_l _ _ _ Hbey). assert (Hg := search_get keys vals key Hi Hl).
      destruct (binary_search keys key); [by destruct Hg as (v & -> & ->)|by rewrite Hg].
  - destruct Hs as [->|[? [=]]]. rewrite app_nil_r.
    assert (Hg := search_get keys vals key Hi Hl).
    destruct (binary_search keys key); [by destruct Hg as (v & -> & ->)|by rewrite Hg].
Qed.

(** ** The tree as a finite map *)

Definition to_map (l : list binding) : gmap Z val := list_to_map l.

Lemma kv_get_map k l : kv_get k l = to_map l !! k.
Proof.
  unfold to_map. induction l as [|[x v] l IH]; [done|]. cbn [list_to_map foldr kv_get].
  destruct (Z.eqb_spec x k) as [->|Hne].
  - cbn. by rewrite lookup_insert_eq.
  - cbn. by rewrite lookup_insert_ne.
Qed.

Lemma kv_get_insert k v l x :
  kv_get x (kv_insert k v l) = if decide (x = k) then Some v else kv_get x l.
Proof.
  induction l as [|[y w] l IH]; simpl.
  - destruct (Z.eqb_spec k x), (decide (x = k)); congruence.
  - destruct (Z.ltb_spec y k); [|destruct (Z.eqb_spec y k) as [->|Hne]]; simpl.
    + rewrite IH. destruct (Z.eqb_spec y x); [|done]. case_decide; [lia|done].
    + destruct (Z.eqb_spec k x), (decide (x = k)); congruence.
    + destruct (Z.eqb_spec k x), (decide (x = k)); congruence.
Qed.

Lemma kv_insert_map k v l : to_map (kv_insert k v l) = <[k := v]> (to_map l).
Proof.
  apply map_eq. intros x. rewrite <- kv_get_map, kv_get_insert. case_decide as Hx.
  - subst x. by rewrite lookup_insert_eq.
  - by rewrite lookup_insert_ne, kv_get_map.
Qed.

Lemma kv_get_below_head k l x : inc (Some k) (map fst l) -> (x <= k)%Z -> kv_get x l = None.
Proof.
  intros Hi Hx. apply kv_get_beyond. apply inc_forall in Hi.
  assert (Hz : Forall (fun p : binding => above (Some k) p.1) l)
    by exact (proj1 (Forall_map _ _ _) Hi).
  eapply Forall_impl; [exact Hz|]. simpl. intros; lia.
Qed.

Lemma kv_delete_map k l : inc None (map fst l) -> to_map (kv_delete k l) = base.delete k (to_map l).
Proof.
  intros Hi. apply map_eq. intros x. rewrite <- kv_get_map.
  destruct (decide (x = k)) as [->|Hx].
  - rewrite lookup_delete_eq. induction l as [|[y w] l IH]; [done|]. simpl in *.
    destruct Hi as [_ Hi]. destruct (Z.eqb_spec y k) as [->|Hne].
    + by apply (kv_get_below_head k).
    + simpl. rewrite (proj2 (Z.eqb_neq y k)) by done. apply IH. by eapply inc_None.
  - rewrite lookup_delete_ne by done. rewrite <- kv_get_map. clear Hi.
    induction l as [|[y w] l IH]; [done|]. simpl. destruct (Z.eqb_spec y k) as [->|Hne]; simpl.
    + by rewrite (proj2 (Z.eqb_neq k x)) by congruence.
    + by rewrite IH.
Qed.

Lemma inc_nodup lo ks : inc lo ks -> NoDup ks.
Proof.
  revert lo. induction ks as [|k ks IH]; intros lo; [constructor|]. intros [_ Hi].
  apply NoDup_cons. split; [|by eapply IH]. intros Hk. apply (inc_cons_lt _ _ _ Hi) in Hk. lia.
Qed.

(** A well-formed tree over the arena holding the bindings [kvs]. *)
Definition tree_rep (t : btree) (kvs : list binding) : Prop :=
  exists h f fp, rep (nodes t) h (root t) None None f None kvs fp /\ NoDup fp /\
    (forall x, x ∈ fp -> x < length (nodes t)).

Lemma tree_fuel ns h id f kvs fp :
  rep ns h id None None f None kvs fp -> NoDup fp -> (forall x, x ∈ fp -> x < length ns) ->
  h < length ns /\ length fp <= length ns.
Proof.
  intros H Hnd Hlt. apply rep_size in H. assert (Hb := nodup_bounded fp _ Hnd Hlt). lia.
Qed.

Lemma all_in_bounds key : in_bounds None None key.
Proof. done. Qed.

Lemma new_rep : tree_rep new [].
Proof.
  exists 0, 0, [0]. split; [|split; [by apply NoDup_singleton|]].
  - exists [], []. split_and!; try done. simpl. unfold NODE_CAPACITY. lia.
  - intros x Hx%list_elem_of_singleton. subst. simpl. lia.
Qed.

Lemma get_spec t kvs key : tree_rep t kvs -> get t key = Ok (kv_get key kvs).
Proof.
  intros (h & f & fp & H & Hnd & Hlt). destruct (tree_fuel _ _ _ _ _ _ H Hnd Hlt) as [Hh _].
  by apply (get_loop_spec _ _ h _ None None f None kvs fp).
Qed.

Lemma insert_spec t kvs key v :
  tree_rep t kvs -> exists t', insert t key v = (Ok tt, t') /\ tree_rep t' (kv_insert key v kvs).
Proof.
  intros (h & f & fp & H & Hnd & Hlt). destruct (tree_fuel _ _ _ _ _ _ H Hnd Hlt) as [Hh _].
  destruct (insert_rec_spec key v h _ _ None None f None kvs fp _ H Hnd Hlt (all_in_bounds key) Hh)
    as (res & ns' & E & Hle & Hfr & fp' & Hnd' & Hx' & Hres).
  assert (Hlt' : forall x, x ∈ fp' -> x < length ns').
  { intros x Hx. destruct (Hx' x Hx) as [Hy|Hy]; [apply Hlt in Hy; lia|lia]. }
  unfold insert. rewrite E. destruct res as [[sep rid]|].
  - eexists. split; [reflexivity|].
    destruct Hres as (f2 & kv1 & kv2 & fp1 & fp2 & -> & Hkv & _ & _ & R1 & R2).
    exists (S h), f, (length ns' :: fp1 ++ fp2). cbn [nodes root].
    assert (Hold : forall x, x ∈ fp1 ++ fp2 ->
      (ns' ++ [Internal [sep] [root t; rid] None None]) !! x = ns' !! x).
    { intros x Hx. apply lookup_app_l. by apply Hlt'. }
    split; [|split].
    + exists [sep], [root t; rid], None, (fp1 ++ fp2). split; [by rewrite list_lookup_middle|].
      split; [|split; [simpl; unfold NODE_CAPACITY; lia|done]].
      simpl. exists f2, kv1, kv2, fp1, fp2. split_and!; try done.
      * eapply rep_frame; [|exact R1]. intros x Hx. apply Hold, elem_of_app. by left.
      * eapply rep_frame; [|exact R2]. intros x Hx. apply Hold, elem_of_app. by right.
    + apply NoDup_cons. split; [|done]. intros Hx. apply Hlt' in Hx. lia.
    + intros x [->|Hx]%elem_of_cons; rewrite length_app; simpl; [lia|]. apply Hlt' in Hx. lia.
  - eexists. split; [reflexivity|]. by exists h, f, fp'.
Qed.

Lemma delete_spec t kvs key :
  tree_rep t kvs ->
  exists t', delete t key = (Ok (kv_get key kvs), t') /\ tree_rep t' (kv_delete key kvs).
Proof.
  intros (h & f & fp & H & Hnd & Hlt). destruct (tree_fuel _ _ _ _ _ _ H Hnd Hlt) as [Hh _].
  destruct (delete_loop_spec key h _ _ None None f None kvs fp _ H Hnd Hlt (all_in_bounds key) Hh)
    as (ns' & E & Hr & Hlen & _).
  unfold delete. rewrite E. eexists. split; [reflexivity|]. exists h, f, fp. simpl. by rewrite Hlen.
Qed.

Lemma tree_sorted t kvs : tree_rep t kvs -> inc None (map fst kvs).
Proof. intros (h & f & fp & H & _). by eapply rep_sorted. Qed.

Lemma range_spec t kvs lo hi : tree_rep t kvs -> range t lo hi = Ok (kv_range lo hi kvs).
Proof.
  intros Ht. assert (Hs := tree_sorted _ _ Ht). destruct Ht as (h & f & fp & H & Hnd & Hlt).
  destruct (tree_fuel _ _ _ _ _ _ H Hnd Hlt) as [Hh Hfp]. unfold range.
  destruct (Z.leb_spec hi lo).
  - rewrite kv_range_none; [done|]. apply Forall_forall. intros; lia.
  - destruct (leaf_for_spec _ lo h _ None None _ _ _ _ _ H (all_in_bounds lo) Hh)
      as (leaf & lo' & kvL & lv & El & Hc & -> & Hb & Hl).
    unfold leftmost_leaf_for. rewrite El.
    rewrite map_app in Hs. apply inc_app in Hs as (_ & Hs & _).
    rewrite (range_loop_spec _ lo hi lv _ _ _ _ [] Hc Hs) by lia.
    rewrite kv_range_app, (kv_range_none lo hi kvL); [done|].
    eapply Forall_impl; [exact Hb|]. simpl. intros; lia.
Qed.

Lemma leftmost_leaf_spec t kvs : tree_rep t kvs ->
  exists f lv, leftmost_leaf t = Ok f /\ chain (nodes t) (Some f) None lv None None /\
    leaf_kvs lv = kvs /\ length lv <= length (nodes t).
Proof.
  intros (h & f & fp & H & Hnd & Hlt). destruct (tree_fuel _ _ _ _ _ _ H Hnd Hlt) as [Hh Hfp].
  destruct (rep_chain _ h _ _ _ _ _ _ _ H I) as (lv & Hc & Hk & Hl).
  exists f, lv. split; [by eapply leftmost_spec|]. split; [done|]. split; [done|lia].
Qed.

Lemma len_spec t kvs : tree_rep t kvs -> len t = Ok (length kvs).
Proof.
  intros Ht. destruct (leftmost_leaf_spec t kvs Ht) as (f & lv & El & Hc & <- & Hl).
  unfold len. rewrite El. by rewrite (len_loop_spec _ lv _ _ _ _ 0 Hc).
Qed.

(** ** Properties *)

Inductive tree_op : Type := OpInsert (k : Z) (v : val) | OpDelete (k : Z).

Fixpoint run_ops (ops : list tree_op) (t : btree) : list (outcome Empty_set (option val)) * btree :=
  match ops with
  | [] => ([], t)
  | OpInsert k v :: ops' =>
      let '(r, t1) := insert t k v in
      let '(rs, t2) := run_ops ops' t1 in
      (match r with Ok _ => Ok None | Err e => Err e | Panic => Panic end :: rs, t2)
  | OpDelete k :: ops' =>
      let '(r, t1) := delete t k in
      let '(rs, t2) := run_ops ops' t1 in (r :: rs, t2)
  end.

Fixpoint map_ops (ops : list tree_op) (m : gmap Z val)
    : list (outcome Empty_set (option val)) * gmap Z val :=
  match ops with
  | [] => ([], m)
  | OpInsert k v :: ops' => let '(rs, m2) := map_ops ops' (<[k := v]> m) in (Ok None :: rs, m2)
  | OpDelete k :: ops' => let '(rs, m2) := map_ops ops' (base.delete k m) in (Ok (m !! k) :: rs, m2)
  end.

Lemma run_ops_spec ops : forall t kvs, tree_rep t kvs ->
  exists t' kvs', run_ops ops t = (fst (map_ops ops (to_map kvs)), t') /\ tree_rep t' kvs' /\
    to_map kvs' = snd (map_ops ops (to_map kvs)).
Proof.
  induction ops as [|[k v|k] ops IH]; intros t kvs Ht; simpl.
  - by exists t, kvs.
  - destruct (insert_spec t kvs k v Ht) as (t1 & -> & Ht1).
    destruct (IH t1 _ Ht1) as (t2 & kvs2 & E & Ht2 & Hm).
    rewrite kv_insert_map in E, Hm. destruct (map_ops ops _) as [rs m2]. simpl in *.
    rewrite E. by exists t2, kvs2.
  - destruct (delete_spec t kvs k Ht) as (t1 & -> & Ht1).
    destruct (IH t1 _ Ht1) as (t2 & kvs2 & E & Ht2 & Hm).
    rewrite kv_delete_map in E, Hm by by eapply tree_sorted.
    rewrite kv_get_map. destruct (map_ops ops _) as [rs m2]. simpl in *.
    rewrite E. by exists t2, kvs2.
Qed.

(** C6: Any sequence of inserts and deletes on a new tree returns what the same
    sequence returns on a finite map, never panics, and leaves a tree whose
    lookups are the map's. *)
Theorem btree_refines_map ops :
  exists t, run_ops ops new = (fst (map_ops ops ∅), t) /\
    forall k, get t k = Ok (snd (map_ops ops ∅) !! k).
Proof.
  destruct (run_ops_spec ops new [] new_rep) as (t & kvs & E & Ht & Hm).
  exists t. split; [exact E|]. intros k. rewrite (get_spec t kvs k Ht), kv_get_map.
  by rewrite Hm.
Qed.

(** A range scan returns, in strictly increasing key order, exactly the bindings
    of the map whose keys are in [lo, hi). *)
Theorem btree_range_exact ops lo hi :
  exists l, range (snd (run_ops ops new)) lo hi = Ok l /\ inc None (map fst l) /\
    forall k v, (k, v) ∈ l <-> (lo <= k < hi)%Z /\ snd (map_ops ops ∅) !! k = Some v.
Proof.
  destruct (run_ops_spec ops new [] new_rep) as (t & kvs & E & Ht & Hm).
  change (to_map []) with (∅ : gmap Z val) in Hm.
  rewrite E. simpl. exists (kv_range lo hi kvs). split; [by apply range_spec|].
  assert (Hs := tree_sorted _ _ Ht). split.
  - clear -Hs. unfold kv_range. induction kvs as [|[x w] kvs IH]; [done|].
    simpl in Hs. destruct Hs as [_ Hs]. specialize (IH (inc_None _ _ Hs)).
    rewrite filter_cons. case_decide; [|done]. simpl. split; [done|].
    apply inc_forall in Hs. destruct (filter _ kvs) as [|q l] eqn:Eq; [done|].
    simpl in *. split; [|apply IH]. rewrite Forall_forall in Hs. apply Hs.
    apply list_elem_of_fmap. exists q. split; [done|].
    assert (Hq : q ∈ filter (fun p : binding => (lo <= p.1 < hi)%Z) kvs) by (rewrite Eq; left).
    by apply list_elem_of_filter in Hq as [_ Hq].
  - intros k v. unfold kv_range. rewrite list_elem_of_filter. simpl.
    rewrite <- Hm. f_equiv. unfold to_map. apply elem_of_list_to_map. by eapply inc_nodup.
Qed.

(** The length counted along the leaf chain is the number of keys of the map, and
    the tree reports itself empty exactly when the map is. *)
Theorem btree_len_exact ops :
  len (snd (run_ops ops new)) = Ok (size (snd (map_ops ops ∅))) /\
  is_empty (snd (run_ops ops new)) = Ok (bool_decide (snd (map_ops ops ∅) = ∅)).
Proof.
  destruct (run_ops_spec ops new [] new_rep) as (t & kvs & E & Ht & Hm).
  rewrite E. cbn [snd]. change (to_map []) with (∅ : gmap Z val) in Hm. rewrite <- Hm.
  assert (Hlen : len t = Ok (size (to_map kvs))).
  { rewrite (len_spec t kvs Ht). f_equal. symmetry. unfold to_map.
    rewrite map_size_list_to_map; [done|]. by eapply inc_nodup, (tree_sorted t). }
  split; [done|]. unfold is_empty. rewrite Hlen. f_equal. apply bool_decide_ext.
  apply map_size_empty_iff.
Qed.

(** A reader that starts at the leftmost leaf and only ever follows right-links and
    high keys finds every key, wherever splits have moved it. *)
Theorem blink_right_links ops key :
  exists f, leftmost_leaf (snd (run_ops ops new)) = Ok f /\
    get_loop (length (nodes (snd (run_ops ops new)))) (nodes (snd (run_ops ops new))) f key =
    Ok (snd (map_ops ops ∅) !! key).
Proof.
  destruct (run_ops_spec ops new [] new_rep) as (t & kvs & E & Ht & Hm).
  rewrite E. cbn [snd]. change (to_map []) with (∅ : gmap Z val) in Hm. rewrite <- Hm.
  destruct (leftmost_leaf_spec t kvs Ht) as (f & lv & El & Hc & <- & Hl).
  exists f. split; [done|]. rewrite <- kv_get_map. by eapply chain_get.
Qed.

(** ** Every node fits its page *)

Definition node_keys (n : Node) : list Z :=
  match n with Leaf keys _ _ _ => keys | Internal keys _ _ _ => keys end.

Definition high_key (n : Node) : option Z :=
  match n with Leaf _ _ _ hk => hk | Internal _ _ _ hk => hk end.

Definition sum_lengths (vals : list val) : nat := foldr (fun v n => length v + n) 0 vals.

(** The bytes of a node's content: the header, eight for each key, the high key
    and each child, and the values as they are. *)
Definition node_bytes (n : Node) : nat :=
  NODE_HEADER_BYTES + 8 * length (node_keys n) + match high_key n with Some _ => 8 | None => 0 end +
  match n with
  | Leaf _ vals _ _ => sum_lengths vals
  | Internal _ children _ _ => 8 * length children
  end.

(** A value that fits the slot the capacity was computed with. *)
Definition slot_sized (v : val) : Prop := length v <= VALUE_SLOT_BYTES.
Definition inserts_slot_sized (ops : list tree_op) : Prop :=
  Forall (fun o => match o with OpInsert _ v => slot_sized v | OpDelete _ => True end) ops.

Section Fits.
(** What is known of each inserted value. *)
Context (P : val -> Prop).

(** A leaf has one value for each key, an internal node at most one child more. *)
Definition payload (n : Node) : Prop :=
  match n with
  | Leaf keys vals _ _ => length vals = length keys /\ Forall P vals
  | Internal keys children _ _ => length children <= S (length keys)
  end.

Definition fits (n : Node) : Prop := length (node_keys n) <= NODE_CAPACITY /\ payload n.

Lemma fits_update ns id n : Forall fits ns -> fits n -> Forall fits (<[id := n]> ns).
Proof. intros. by apply Forall_insert. Qed.

(** A node one key over the capacity splits into two that fit. *)
Lemma split_leaf_fits ns id n r ns' :
  Forall fits ns -> length (node_keys n) = S NODE_CAPACITY -> payload n ->
  split_leaf id (<[id := n]> ns) = (Ok r, ns') -> Forall fits ns'.
Proof.
  intros Hf Hn Hp E. unfold split_leaf in E. assert (HM := MID_lt).
  destruct (<[id := n]> ns !! id) as [[keys vals link hk|]|] eqn:El; try done.
  apply list_lookup_insert_Some in El as [(_ & En & _)|[? _]]; [|done]. subst n. simpl in Hn.
  destruct Hp as [Hl HP]. destruct (drop MID keys) as [|sep rest] eqn:Ed; [done|]. case_decide; [done|].
  injection E as <- <-. rewrite list_insert_insert_eq. apply Forall_app. split.
  - apply fits_update; [done|]. split; [simpl; rewrite length_take; lia|].
    split; [rewrite !length_take; lia|by apply Forall_take].
  - constructor; [|constructor]. rewrite <- Ed. split; [simpl; rewrite length_drop; lia|].
    split; [rewrite !length_drop; lia|by apply Forall_drop].
Qed.

Lemma split_internal_fits ns id n r ns' :
  Forall fits ns -> length (node_keys n) = S NODE_CAPACITY -> payload n ->
  split_internal id (<[id := n]> ns) = (Ok r, ns') -> Forall fits ns'.
Proof.
  intros Hf Hn Hp E. unfold split_internal in E. assert (HM : MID = 32) by reflexivity. assert (HM' := MID_lt).
  destruct (<[id := n]> ns !! id) as [[|keys children link hk]|] eqn:El; try done.
  apply list_lookup_insert_Some in El as [(_ & En & _)|[? _]]; [|done]. subst n. simpl in Hn, Hp.
  destruct (keys !! MID); [|done]. case_decide; [done|].
  injection E as <- <-. rewrite list_insert_insert_eq. apply Forall_app. split.
  - apply fits_update; [done|]. split; simpl; rewrite !length_take; lia.
  - constructor; [|constructor]. split; simpl; rewrite !length_drop; lia.
Qed.

Lemma insert_at_forall {X} (Q : X -> Prop) i x l : Q x -> Forall Q l -> Forall Q (insert_at i x l).
Proof.
  intros. unfold insert_at. apply Forall_app. split; [by apply Forall_take|].
  constructor; [done|by apply Forall_drop].
Qed.

Lemma insert_split_fits ns id sep rid r ns' :
  Forall fits ns -> insert_split id sep rid ns = (Ok r, ns') -> Forall fits ns'.
Proof.
  intros Hf E. unfold insert_split in E.
  destruct (ns !! id) as [[|keys children link hk]|] eqn:El; [by injection E as <- <-| |by injection E as <- <-].
  destruct (proj1 (Forall_lookup _ _) Hf _ _ El) as [Hk Hp]. simpl in Hk, Hp.
  set (pos := match binary_search keys sep with Found i => i | Missing i => i end) in E.
  case_decide; [done|].
  assert (Hpay : payload (Internal (insert_at pos sep keys) (insert_at (pos + 1) rid children) link hk))
    by (simpl; rewrite !insert_at_length; lia).
  case_decide as Hc; rewrite insert_at_length in Hc.
  - apply bind_inv in E as (s & ns1 & E & [= <- <-]).
    eapply split_internal_fits; [exact Hf| |exact Hpay|exact E]. simpl. rewrite insert_at_length. lia.
  - injection E as <- <-. apply fits_update; [done|]. split; [|done]. simpl. rewrite insert_at_length. lia.
Qed.

Lemma insert_rec_fits key v fuel : P v -> forall id ns r ns',
  Forall fits ns -> insert_rec fuel id key v ns = (Ok r, ns') -> Forall fits ns'.
Proof.
  intros HP. induction fuel as [|fuel IH]; intros id ns r ns' Hf E; [done|]. cbn [insert_rec] in E.
  destruct (ns !! id) as [[keys vals link hk|keys children link hk]|] eqn:El; [| |done].
  - destruct (proj1 (Forall_lookup _ _) Hf _ _ El) as (Hk & Hl & Hvals). simpl in Hk.
    destruct (binary_search keys key) as [i|i].
    + case_decide; [done|]. injection E as <- <-. apply fits_update; [done|]. split; [done|].
      split; [by rewrite length_insert|by apply Forall_insert].
    + case_decide; [done|].
      assert (Hpay : payload (Leaf (insert_at i key keys) (insert_at i v vals) link hk))
        by (split; [by rewrite !insert_at_length, Hl|by apply insert_at_forall]).
      case_decide as Hc; rewrite insert_at_length in Hc.
      * apply bind_inv in E as (s & ns1 & E & [= <- <-]).
        eapply split_leaf_fits; [exact Hf| |exact Hpay|exact E]. simpl. rewrite insert_at_length. lia.
      * injection E as <- <-. apply fits_update; [done|]. split; [|done]. simpl. rewrite insert_at_length. lia.
  - destruct (children !! _); [|done]. apply bind_inv in E as (s & ns1 & E1 & E).
    apply (IH _ _ _ _ Hf) in E1. destruct s as [[sep rid]|].
    + by eapply insert_split_fits.
    + by injection E as <- <-.
Qed.

Lemma delete_loop_fits key fuel : forall id ns r ns',
  Forall fits ns -> delete_loop fuel id key ns = (r, ns') -> Forall fits ns'.
Proof.
  induction fuel as [|fuel IH]; intros id ns r ns' Hf E; [by injection E as <- <-|]. simpl in E.
  destruct (ns !! id) as [[keys vals link hk|keys children link hk]|] eqn:El;
    [| |by injection E as <- <-]; destruct (beyond link hk key); [by eapply IH| |by eapply IH|].
  - destruct (binary_search keys key) as [i|i]; [|by injection E as <- <-].
    destruct (vals !! i) eqn:Ei; injection E as <- <-; [|done]. apply fits_update; [done|].
    destruct (proj1 (Forall_lookup _ _) Hf _ _ El) as (Hk & Hl & Hvals). simpl in Hk.
    apply lookup_lt_Some in Ei. unfold remove_at. split; [|split].
    + simpl. rewrite length_app, length_take, length_drop. lia.
    + rewrite !length_app, !length_take, !length_drop. lia.
    + apply Forall_app. split; [by apply Forall_take|by apply Forall_drop].
  - destruct (children !! _); [by eapply IH|by injection E as <- <-].
Qed.

Lemma run_ops_fits ops : Forall (fun o => match o with OpInsert _ v => P v | OpDelete _ => True end) ops ->
  forall t kvs, tree_rep t kvs -> Forall fits (nodes t) -> Forall fits (nodes (snd (run_ops ops t))).
Proof.
  induction 1 as [|[k v|k] ops HP _ IH]; intros t kvs Ht Hf; simpl; [done| |].
  - destruct (insert_spec t kvs k v Ht) as (t1 & E & Ht1). rewrite E.
    specialize (IH t1 _ Ht1). destruct (run_ops ops t1) as [rs t2]. simpl in *. apply IH.
    unfold insert in E. destruct (insert_rec _ _ _ _ _) as [[[[sep rid]|]|e|] ns] eqn:Ei;
      simplify_eq; apply insert_rec_fits in Ei; try done.
    apply Forall_app. split; [done|]. constructor; [|constructor]. split; simpl; unfold NODE_CAPACITY; lia.
  - destruct (delete_spec t kvs k Ht) as (t1 & E & Ht1). rewrite E.
    specialize (IH t1 _ Ht1). destruct (run_ops ops t1) as [rs t2]. simpl in *. apply IH.
    unfold delete in E. destruct (delete_loop _ _ _ _) as [r ns] eqn:Ed. simplify_eq.
    by eapply delete_loop_fits in Ed.
Qed.

Lemma new_tree_fits ops : Forall (fun o => match o with OpInsert _ v => P v | OpDelete _ => True end) ops ->
  Forall fits (nodes (snd (run_ops ops new))).
Proof.
  intros HP. apply (run_ops_fits ops HP new []); [apply new_rep|].
  constructor; [|constructor]. split; [simpl; lia|]. by repeat constructor.
Qed.
End Fits.

Lemma sum_lengths_le m vals : Forall (fun v => length v <= m) vals -> sum_lengths vals <= length vals * m.
Proof. induction 1 as [|v vals Hv _ IH]; simpl; lia. Qed.

Lemma fits_page n : fits slot_sized n -> node_bytes n <= PAGE_SIZE.
Proof.
  intros [Hk Hp]. assert (H := PAGE_SIZE_Z). unfold node_bytes, NODE_HEADER_BYTES, NODE_CAPACITY in *.
  assert (Hh : match high_key n with Some _ => 8 | None => 0 end <= 8) by (destruct (high_key n); lia).
  destruct n as [keys vals link hk|keys children link hk]; simpl in *.
  - destruct Hp as [Hl Hv]. apply sum_lengths_le in Hv. unfold VALUE_SLOT_BYTES in Hv. lia.
  - lia.
Qed.

(** C34: The compile-time assertion holds, and after any sequence of inserts and
    deletes every node of the arena has at most [NODE_CAPACITY] keys.  If every inserted value has at most
    [VALUE_SLOT_BYTES] bytes then the bytes of every node (its header, its keys, its high key, its children, and
    its values as they are) fit one page.  Longer values are accepted, and then a node may not fit
    ([long_value_exceeds_page]). *)
Theorem btree_nodes_fit_page ops :
  assert_node_fits_page = Ok (NODE_HEADER_BYTES + NODE_CAPACITY * (8 + VALUE_SLOT_BYTES)) /\
  (forall id n, nodes (snd (run_ops ops new)) !! id = Some n -> length (node_keys n) <= NODE_CAPACITY) /\
  (inserts_slot_sized ops ->
   forall id n, nodes (snd (run_ops ops new)) !! id = Some n -> node_bytes n <= PAGE_SIZE).
Proof.
  split_and!.
  - unfold assert_node_fits_page. rewrite decide_True; [done|].
    unfold NODE_HEADER_BYTES, VALUE_SLOT_BYTES, NODE_CAPACITY. assert (H := PAGE_SIZE_Z). lia.
  - intros id n Hn. assert (Hf := new_tree_fits (fun _ => True) ops ltac:(by apply Forall_forall; intros [])).
    apply (proj1 (Forall_lookup _ _) Hf _ _ Hn).
  - intros Hops id n Hn. apply fits_page.
    exact (proj1 (Forall_lookup _ _) (new_tree_fits slot_sized ops Hops) _ _ Hn).
Qed.

(** A hundred inserts, which split the leaf, and a delete. *)
Definition slot_ops : list tree_op :=
  map (fun i => OpInsert (Z.of_nat i) (replicate (i mod 49) x00)) (seq 0 100) ++ [OpDelete 7].

Lemma btree_nodes_fit_page_witness :
  inserts_slot_sized slot_ops /\ length (nodes (snd (run_ops slot_ops new))) = 4 /\
  forall id n, nodes (snd (run_ops slot_ops new)) !! id = Some n -> node_bytes n <= PAGE_SIZE.
Proof.
  assert (H : inserts_slot_sized slot_ops).
  { unfold inserts_slot_sized, slot_ops. apply Forall_app. split; [|by repeat constructor].
    apply Forall_map, Forall_forall. intros i _. unfold slot_sized. rewrite length_replicate.
    unfold VALUE_SLOT_BYTES. assert (i mod 49 < 49) by (apply Nat.mod_upper_bound; lia). lia. }
  split; [exact H|]. split; [vm_compute; reflexivity|].
  destruct (btree_nodes_fit_page slot_ops) as (_ & _ & Hp). exact (Hp H).
Defined.

(** The slot is not enforced: a leaf with one long value is larger than a page. *)
Example long_value_exceeds_page :
  exists n, nodes (snd (run_ops [OpInsert 1 (replicate 5000 x00)] new)) !! 0 = Some n /\
    PAGE_SIZE < node_bytes n.
Proof.
  exists (Leaf [1%Z] [replicate 5000 x00] None None). split; [reflexivity|]. assert (H := PAGE_SIZE_Z).
  unfold node_bytes. cbn [sum_lengths foldr node_keys length]. rewrite length_replicate. lia.
Qed.
