(* ===== verification/Capability.v ===== *)
(** * Capability: the capability tokens and their issuer
    ([crates/tpt-archon-bridge/src/capability.rs])

    A [SharedIssuer] ([Rc<RefCell<CapabilityIssuer>>]) is the address of a cell
    of a store of issuers, so that an enforcement point sees the revocations
    made through another handle. *)
From Stdlib Require Import ZArith Lia.
From stdpp Require Import base numbers option list gmap.
From S2P Require Import Prelude.

Module Capability.

(** ** Rights, resources and tokens *)

Inductive Right : Type := Read | Write | ReadWrite.

#[global] Instance Right_eq_dec : EqDecision Right.
Proof. solve_decision. Defined.

Definition allows_read (r : Right) : bool :=
  match r with Read | ReadWrite => true | Write => false end.

Definition allows_write (r : Right) : bool :=
  match r with Write | ReadWrite => true | Read => false end.

Inductive Resource : Type :=
| Page (id : Z)
| Channel (id : Z)
| Device (id : Z).

#[global] Instance Resource_eq_dec : EqDecision Resource.
Proof. solve_decision. Defined.

(** The fields are private in the code: only [mint] builds one. *)
Record Capability : Type := mkCap { serial : Z; resource : Resource; right_ : Right }.

#[global] Instance Capability_eq_dec : EqDecision Capability.
Proof. solve_decision. Defined.

(** [Capability::authorizes]: the structural check. *)
Definition cap_authorizes (cap : Capability) (res : Resource) (r : Right) : bool :=
  bool_decide (resource cap = res) &&
  match r with
  | Read => allows_read (right_ cap)
  | Write => allows_write (right_ cap)
  | ReadWrite => allows_read (right_ cap) && allows_write (right_ cap)
  end.

(** ** The issuer *)

Record CapabilityIssuer : Type := mkIssuer { next_serial : Z; live : gset Z }.

Definition new : CapabilityIssuer := {| next_serial := 0; live := ∅ |}.

(** [checked_add(1).expect(..)]: panics, before anything changed, when the
    serial space is exhausted. *)
Definition mint (res : Resource) (r : Right) : M CapabilityIssuer Empty_set Capability := fun i =>
  let s := next_serial i in
  if (s =? u64_max)%Z then (Panic, i)
  else (Ok (mkCap s res r), {| next_serial := s + 1; live := {[ s ]} ∪ live i |}).

Definition revoke (cap : Capability) (i : CapabilityIssuer) : CapabilityIssuer :=
  {| next_serial := next_serial i; live := live i ∖ {[ serial cap ]} |}.

Definition validate (i : CapabilityIssuer) (cap : Capability) : bool :=
  bool_decide (serial cap ∈ live i).

(** [CapabilityIssuer::authorizes]: live and structurally authorized. *)
Definition authorizes (i : CapabilityIssuer) (cap : Capability) (res : Resource) (r : Right)
    : bool :=
  validate i cap && cap_authorizes cap res r.

(** ** Shared issuers *)

Abbreviation SharedIssuer := nat (only parsing).

(** The store of the issuers behind the shared handles. *)
Abbreviation store := (list CapabilityIssuer).

(** [issuer.borrow().authorizes(..)].  A handle always points to its cell; an
    address outside the store would panic. *)
Definition shared_authorizes {E} (h : store) (a : SharedIssuer) (cap : Capability)
    (res : Resource) (r : Right) : outcome E bool :=
  match h !! a with Some i => Ok (authorizes i cap res r) | None => Panic end.

(** [issuer.borrow_mut().mint(..)] and [issuer.borrow_mut().revoke(..)]. *)
Definition shared_mint (a : SharedIssuer) (res : Resource) (r : Right)
    : M store Empty_set Capability := fun h =>
  match h !! a with
  | Some i => let '(o, i') := mint res r i in (o, <[a := i']> h)
  | None => (Panic, h)
  end.

Definition shared_revoke (a : SharedIssuer) (cap : Capability) : M store Empty_set unit := fun h =>
  match h !! a with
  | Some i => (Ok tt, <[a := revoke cap i]> h)
  | None => (Panic, h)
  end.

(** ** The life of an issuer

    An event on an issuer is a mint or a revocation; [issue] runs the events
    and collects the tokens in the order they were minted. *)
Inductive event : Type :=
| Mint (res : Resource) (r : Right)
| Revoke (cap : Capability).

Fixpoint issue (evs : list event) (i : CapabilityIssuer)
    : outcome Empty_set (list Capability) * CapabilityIssuer :=
  match evs with
  | [] => (Ok [], i)
  | Mint res r :: evs' =>
      match mint res r i with
      | (Ok c, i') => let '(o, i'') := issue evs' i' in
                      (match o with Ok cs => Ok (c :: cs) | e => e end, i'')
      | (Err e, i') => (Err e, i')
      | (Panic, i') => (Panic, i')
      end
  | Revoke c :: evs' => issue evs' (revoke c i)
  end.

(** Whether the right a token carries covers the right that is asked for. *)
Definition covers (have want : Right) : Prop := have = want \/ have = ReadWrite.

Lemma cap_authorizes_spec cap res r :
  cap_authorizes cap res r = true <-> resource cap = res /\ covers (right_ cap) r.
Proof.
  unfold cap_authorizes, covers. rewrite andb_true_iff, bool_decide_eq_true.
  destruct r, (right_ cap); simpl; intuition congruence.
Qed.

Lemma authorizes_spec i cap res r :
  authorizes i cap res r = true <->
  serial cap ∈ live i /\ resource cap = res /\ covers (right_ cap) r.
Proof.
  unfold authorizes, validate.
  by rewrite andb_true_iff, bool_decide_eq_true, cap_authorizes_spec.
Qed.

(** The checks of the two proper rights, as the right that is missing. *)
Lemma authorizes_write_dec i cap res :
  authorizes i cap res Write =
  bool_decide (serial cap ∈ live i /\ resource cap = res /\ right_ cap <> Read).
Proof.
  apply eq_true_iff_eq. rewrite authorizes_spec, bool_decide_eq_true. unfold covers.
  destruct (right_ cap); intuition congruence.
Qed.

Lemma authorizes_read_dec i cap res :
  authorizes i cap res Read =
  bool_decide (serial cap ∈ live i /\ resource cap = res /\ right_ cap <> Write).
Proof.
  apply eq_true_iff_eq. rewrite authorizes_spec, bool_decide_eq_true. unfold covers.
  destruct (right_ cap); intuition congruence.
Qed.

(** [Write] is authorized exactly when [Write] or [ReadWrite] is: the second
    disjunct of the driver framework's checks never adds anything. *)
Lemma authorizes_or_rw i cap res r :
  authorizes i cap res r || authorizes i cap res ReadWrite = authorizes i cap res r.
Proof.
  destruct (authorizes i cap res r) eqn:E; [done|]. simpl.
  apply not_true_iff_false. apply not_true_iff_false in E.
  rewrite authorizes_spec in *. unfold covers in *. naive_solver.
Qed.

(** Serials below [next_serial] only, so a fresh serial is never live. *)
Definition ok (i : CapabilityIssuer) : Prop :=
  (0 <= next_serial i <= u64_max)%Z /\ forall s, s ∈ live i -> (0 <= s < next_serial i)%Z.

Lemma issuer_new_ok : ok new.
Proof. split; [unfold u64_max; simpl; lia|]. intros s Hs. set_solver. Qed.

Lemma mint_inv res r i c i' :
  mint res r i = (Ok c, i') ->
  c = mkCap (next_serial i) res r /\ next_serial i <> u64_max /\
  i' = {| next_serial := next_serial i + 1; live := {[ next_serial i ]} ∪ live i |}.
Proof. unfold mint. case_match eqn:E; intros; simplify_eq. split; [done|]. split; [lia|done]. Qed.

Lemma mint_ok res r i c i' : ok i -> mint res r i = (Ok c, i') -> ok i'.
Proof.
  intros [Hn Hl] (-> & Hm & ->)%mint_inv. split; simpl; [lia|].
  intros s [->%elem_of_singleton|Hs]%elem_of_union; [lia|]. specialize (Hl s Hs). lia.
Qed.

Lemma revoke_ok c i : ok i -> ok (revoke c i).
Proof. intros [Hn Hl]. split; [done|]. simpl. intros s Hs. apply Hl. set_solver. Qed.

(** What is not live and below [next_serial] never becomes live again. *)
Lemma issue_dead evs i cs i' s :
  issue evs i = (Ok cs, i') -> (s < next_serial i)%Z -> s ∉ live i -> s ∉ live i'.
Proof.
  revert i cs. induction evs as [|[res r|c] evs IH]; intros i cs E Hs Hd; simpl in E.
  - by simplify_eq.
  - destruct (mint res r i) as [[c|[]|] i1] eqn:Em; [|done].
    destruct (issue evs i1) as [[cs1|[]|] i2] eqn:Ei; simplify_eq.
    apply mint_inv in Em as (-> & _ & ->). eapply IH; [exact Ei|simpl; lia|].
    simpl. set_solver by lia.
  - eapply IH; [exact E|done|]. simpl. set_solver.
Qed.

(** The serials of the minted tokens are the consecutive numbers from
    [next_serial]. *)
Lemma issue_serials evs i cs i' :
  issue evs i = (Ok cs, i') ->
  map serial cs = seqZ (next_serial i) (Z.of_nat (length cs)) /\
  next_serial i' = (next_serial i + Z.of_nat (length cs))%Z.
Proof.
  revert i cs. induction evs as [|[res r|c] evs IH]; intros i cs E; simpl in E.
  - simplify_eq. simpl. split; [done|lia].
  - destruct (mint res r i) as [[c|[]|] i1] eqn:Em; [|done].
    destruct (issue evs i1) as [[cs1|[]|] i2] eqn:Ei; simplify_eq.
    apply mint_inv in Em as (-> & _ & ->). apply IH in Ei as [Hs Hn]. simpl in *.
    rewrite Hs. split; [|lia]. rewrite (seqZ_cons (next_serial i)) by lia. unfold Z.succ. repeat f_equal; lia.
  - by apply (IH (revoke c i)).
Qed.

(** The serials that the events revoke. *)
Definition revoked (evs : list event) : list Z :=
  omap (fun e => match e with Revoke c => Some (serial c) | _ => None end) evs.

(** A live serial stays live until one of the events revokes it. *)
Lemma issue_live evs i cs i' s :
  ok i -> issue evs i = (Ok cs, i') -> (s < next_serial i)%Z ->
  (s ∈ live i' <-> s ∈ live i /\ s ∉ revoked evs).
Proof.
  revert i cs. induction evs as [|[res r|c] evs IH]; intros i cs Hok E Hs; simpl in E.
  - simplify_eq. unfold revoked. simpl. set_solver.
  - destruct (mint res r i) as [[c|[]|] i1] eqn:Em; [|done].
    destruct (issue evs i1) as [[cs1|[]|] i2] eqn:Ei; simplify_eq.
    assert (Hok1 := mint_ok _ _ _ _ _ Hok Em). apply mint_inv in Em as (-> & _ & ->).
    rewrite (IH _ _ Hok1 Ei) by (simpl; lia). change (revoked (Mint res r :: evs)) with (revoked evs).
    simpl. set_solver by lia.
  - rewrite (IH _ _ (revoke_ok c i Hok) E Hs).
    change (revoked (Revoke c :: evs)) with (serial c :: revoked evs). simpl. set_solver.
Qed.

Lemma issue_app evs1 evs2 i :
  issue (evs1 ++ evs2) i =
  match issue evs1 i with
  | (Ok cs1, i1) => let '(o, i2) := issue evs2 i1 in
                    (match o with Ok cs2 => Ok (cs1 ++ cs2) | e => e end, i2)
  | r => r
  end.
Proof.
  revert i. induction evs1 as [|[res r|c] evs1 IH]; intros i; simpl.
  - by destruct (issue evs2 i) as [[?|[]|] ?].
  - destruct (mint res r i) as [[c|[]|] i1]; [|done]. rewrite IH.
    destruct (issue evs1 i1) as [[cs1|[]|] i2]; [|done].
    by destruct (issue evs2 i2) as [[?|[]|] ?].
  - apply IH.
Qed.

Lemma issue_ok evs i cs i' : ok i -> issue evs i = (Ok cs, i') -> ok i'.
Proof.
  revert i cs. induction evs as [|[res r|c] evs IH]; intros i cs Hok E; simpl in E.
  - by simplify_eq.
  - destruct (mint res r i) as [[c|[]|] i1] eqn:Em; [|done].
    destruct (issue evs i1) as [[cs1|[]|] i2] eqn:Ei; simplify_eq.
    eapply IH; [|exact Ei]. by eapply mint_ok.
  - eapply IH; [|exact E]. by apply revoke_ok.
Qed.

(** ** Properties *)

(** C38: The tokens an issuer mints have pairwise distinct serials, and a token
    minted at some point is honoured at a later point for exactly the
    resource it names and the rights it carries, until it is revoked and never
    again after that. *)
Theorem capability_unforgeable evs1 res r evs2 cs i :
  issue (evs1 ++ Mint res r :: evs2) new = (Ok cs, i) ->
  NoDup (map serial cs) /\
  exists c, cs !! length (omap (fun e => match e with Mint _ _ => Some tt | _ => None end) evs1)
              = Some c /\
    resource c = res /\ right_ c = r /\
    forall res' r', authorizes i c res' r' = true <->
      serial c ∉ revoked evs2 /\ res' = res /\ covers r r'.
Proof.
  intros E. split.
  { apply issue_serials in E as [-> _]. apply NoDup_seqZ. }
  rewrite issue_app in E. destruct (issue evs1 new) as [[cs1|[]|] i1] eqn:E1; [|done].
  simpl in E. destruct (mint res r i1) as [[c|[]|] i2] eqn:Em; [|done].
  destruct (issue evs2 i2) as [[cs2|[]|] i3] eqn:E2; simplify_eq.
  exists c. assert (Hok1 := issue_ok _ _ _ _ issuer_new_ok E1). assert (Hok2 := mint_ok _ _ _ _ _ Hok1 Em).
  apply mint_inv in Em as (-> & _ & ->). simpl. split_and!; [|done|done|].
  - assert (Hlen : length (omap (fun e => match e with Mint _ _ => Some tt | _ => None end) evs1)
                   = length cs1).
    { clear -E1. revert E1. generalize new. revert cs1.
      induction evs1 as [|[res r|c] evs1 IH]; intros cs1 i E; simpl in *; [by simplify_eq| |by eapply IH].
      destruct (mint res r i) as [[c|[]|] i2]; [|done].
      destruct (issue evs1 i2) as [[cs2|[]|] i3] eqn:E2; simplify_eq. simpl. f_equal. by eapply IH. }
    rewrite Hlen, lookup_app_r, Nat.sub_diag by done. done.
  - intros res' r'. rewrite authorizes_spec. simpl.
    rewrite (issue_live _ _ _ _ (next_serial i1) Hok2 E2) by (simpl; lia). simpl.
    set_solver.
Qed.

Lemma capability_unforgeable_witness :
  exists cs i,
  issue ([Mint (Page 3) Read; Mint (Page 4) Write] ++ Mint (Channel 1) ReadWrite
           :: [Revoke (mkCap 0 (Page 3) Read); Mint (Page 5) Read]) new = (Ok cs, i) /\
  exists c, cs !! 2 = Some c /\ authorizes i c (Channel 1) Write = true.
Proof.
  eexists _, _. split; [reflexivity|].
  destruct (capability_unforgeable [Mint (Page 3) Read; Mint (Page 4) Write] (Channel 1) ReadWrite
    [Revoke (mkCap 0 (Page 3) Read); Mint (Page 5) Read] _ _ eq_refl) as [_ (c & Hc & _ & _ & Ha)].
  exists c. split; [exact Hc|]. apply Ha.
  vm_compute in Hc. injection Hc as <-. split_and!; [|done|by right].
  vm_compute. intros H. inversion H as [|? ? ? H']; inversion H'.
Defined.

(** Issuers do not recognise each other's tokens apart: two issuers that ran
    the same number of mints accept each other's tokens, so a token for a
    resource one issuer never granted passes its check. *)
Theorem foreign_capability_accepted res r res' r' :
  exists ca cb ia ib,
    issue [Mint res r] new = (Ok [ca], ia) /\ issue [Mint res' r'] new = (Ok [cb], ib) /\
    validate ib ca = true /\ authorizes ib ca res r = true.
Proof.
  eexists _, _, _, _. split; [reflexivity|]. split; [reflexivity|].
  split; [apply bool_decide_eq_true; simpl; set_solver|].
  apply authorizes_spec. simpl. split_and!; [set_solver|done|by left].
Qed.

End Capability.
