(* ===== verification/PageCache.v ===== *)
(** * PageCache: the capability-gated page cache
    ([crates/tpt-archon-bridge/src/page_cache.rs], [grant.rs] and
    [crates/tpt-archon-kernel/src/memory.rs])

    [UnifiedPageCache] is the trait, [UnifiedPageCacheLaws] what it promises,
    [CorePageCache] the implementation over the buffer pool; the client side
    ([CapabilityGrant], [UnifiedMemory] and the properties) uses the laws only.
    The shared issuer is read from the store at every access. *)
From Stdlib Require Import ZArith Lia Strings.Byte.
From stdpp Require Import base numbers option list gmap.
From S2P Require Import Prelude Block Page PageProof Capability.

Module PageCache.
Import Capability(store, SharedIssuer, shared_authorizes).

(** ** The trait *)

Inductive CacheError : Type :=
| Denied
| Storage (e : StorageError).

(** A borrowed page is a reference into the cache: [deref] reads through it,
    [assign] writes through the [&mut Page] of [map_write]. *)
Class UnifiedPageCache (C : Type) : Type := {
  map_read : store -> Capability.Capability -> Z -> M C CacheError nat;
  map_write : store -> Capability.Capability -> Z -> M C CacheError nat;
  unmap : Z -> M C CacheError unit;
  deref : C -> nat -> option (list byte);
  assign : nat -> list byte -> M C CacheError unit;
}.

(** The array of pages with one element replaced. *)
Definition upd (f : Z -> option (list byte)) (i : Z) (b : list byte) : Z -> option (list byte) :=
  fun j => if decide (j = i) then Some b else f j.

(** What the trait promises: [cache_page c i] is page [i] as the storage engine
    holds it, [cache_issuer] the issuer that gates the cache. *)
Class UnifiedPageCacheLaws (C : Type) `{UnifiedPageCache C} : Type := {
  cache_ok : C -> Prop;
  cache_page : C -> Z -> option (list byte);
  cache_issuer : C -> SharedIssuer;
  law_denied h cap id c :
    (shared_authorizes (E := CacheError) h (cache_issuer c) cap (Capability.Page id) Capability.Read = Ok false ->
     map_read h cap id c = (Err Denied, c)) /\
    (shared_authorizes (E := CacheError) h (cache_issuer c) cap (Capability.Page id) Capability.Write = Ok false ->
     map_write h cap id c = (Err Denied, c));
  law_map_read h cap id c r c' :
    cache_ok c -> valid_id id ->
    shared_authorizes (E := CacheError) h (cache_issuer c) cap (Capability.Page id) Capability.Read = Ok true ->
    map_read h cap id c = (r, c') ->
    cache_ok c' /\ cache_issuer c' = cache_issuer c /\ r <> Panic /\ r <> Err Denied /\
    (forall j, valid_id j -> cache_page c' j = cache_page c j) /\
    forall ref, r = Ok ref -> exists b, deref c' ref = Some b /\ cache_page c id = Some b;
  law_map_write h cap id c r c' :
    cache_ok c -> valid_id id ->
    shared_authorizes (E := CacheError) h (cache_issuer c) cap (Capability.Page id) Capability.Write = Ok true ->
    map_write h cap id c = (r, c') ->
    cache_ok c' /\ cache_issuer c' = cache_issuer c /\ r <> Panic /\ r <> Err Denied /\
    (forall j, valid_id j -> cache_page c' j = cache_page c j) /\
    forall ref data, r = Ok ref -> length data = PAGE_SIZE ->
      exists c2, assign ref data c' = (Ok tt, c2) /\ cache_ok c2 /\
        cache_issuer c2 = cache_issuer c /\
        forall j, valid_id j -> cache_page c2 j = upd (cache_page c) id data j;
  law_unmap id c r c' :
    cache_ok c -> valid_id id -> unmap id c = (r, c') ->
    r = Ok tt /\ cache_ok c' /\ cache_issuer c' = cache_issuer c /\
    forall j, valid_id j -> cache_page c' j = cache_page c j;
}.

(** ** The implementation over the buffer pool *)

Section Core.
Context {D : Type} `{BlockDeviceLaws D}.

Record CorePageCache : Type := mkCore { pool : Page.BufferPool D; issuer : SharedIssuer }.

Definition new (p : Page.BufferPool D) (i : SharedIssuer) : CorePageCache :=
  {| pool := p; issuer := i |}.

Definition into_pool (c : CorePageCache) : Page.BufferPool D := pool c.

(** Run a pool operation, its errors converted by [From<StorageError>]. *)
Definition on_pool {A} (m : M (Page.BufferPool D) StorageError A) : M CorePageCache CacheError A :=
  fun c => let '(r, p) := m (pool c) in
           (map_err Storage r, {| pool := p; issuer := issuer c |}).

(** The guard of every access: [self.issuer.borrow().authorizes(..)]. *)
Definition gate (h : store) (cap : Capability.Capability) (id : Z) (r : Capability.Right)
    : M CorePageCache CacheError unit := fun c =>
  match shared_authorizes h (issuer c) cap (Capability.Page id) r with
  | Ok true => (Ok tt, c)
  | Ok false => (Err Denied, c)
  | Err e => (Err e, c)
  | Panic => (Panic, c)
  end.

Definition core_map_read (h : store) (cap : Capability.Capability) (id : Z)
    : M CorePageCache CacheError nat :=
  gate h cap id Capability.Read;; on_pool (Page.fetch id).

Definition core_map_write (h : store) (cap : Capability.Capability) (id : Z)
    : M CorePageCache CacheError nat :=
  gate h cap id Capability.Write;; on_pool (Page.fetch_mut id).

Definition core_unmap (id : Z) : M CorePageCache CacheError unit := on_pool (Page.unpin id).

#[export] Instance core_cache : UnifiedPageCache CorePageCache := {
  map_read := core_map_read;
  map_write := core_map_write;
  unmap := core_unmap;
  deref c ref := Page.page <$> Page.frames (pool c) !! ref;
  assign ref data := on_pool (Page.write_frame ref data);
}.

End Core.
Arguments CorePageCache D : clear implicits.

(** ** The client side: grants and the kernel's memory manager *)

Section Client.
Context {C : Type} `{UnifiedPageCache C}.

Record MemoryView : Type := mkView { view_page : nat }.
Record MemoryViewMut : Type := mkViewMut { view_page_mut : nat }.

Definition grant_read (h : store) (cap : Capability.Capability) (id : Z) : M C CacheError MemoryView :=
  page ← map_read h cap id; mret (mkView page).

Definition grant_write (h : store) (cap : Capability.Capability) (id : Z)
    : M C CacheError MemoryViewMut :=
  page ← map_write h cap id; mret (mkViewMut page).

(** [MemoryView::as_slice]; a reference that does not point into the cache
    would be a panic. *)
Definition as_slice (v : MemoryView) : M C CacheError (list byte) := fun c =>
  match deref c (view_page v) with Some b => (Ok b, c) | None => (Panic, c) end.

(** [as_slice_mut().copy_from_slice(data)]. *)
Definition as_slice_mut_copy (v : MemoryViewMut) (data : list byte) : M C CacheError unit :=
  assign (view_page_mut v) data.

End Client.

(** [UnifiedMemory] forwards the trait's three methods to the cache it owns. *)
Record UnifiedMemory (C : Type) : Type := mkMemory { cache : C }.
Arguments mkMemory {C} cache.
Arguments cache {C} u.

Definition memory_new {C} (c : C) : UnifiedMemory C := mkMemory c.
Definition into_cache {C} (m : UnifiedMemory C) : C := cache m.

Definition on_cache {C A} (m : M C CacheError A) : M (UnifiedMemory C) CacheError A := fun u =>
  let '(r, c) := m (cache u) in (r, mkMemory c).

Definition memory_map_read {C} `{UnifiedPageCache C} h cap id : M (UnifiedMemory C) CacheError nat :=
  on_cache (map_read h cap id).
Definition memory_map_write {C} `{UnifiedPageCache C} h cap id : M (UnifiedMemory C) CacheError nat :=
  on_cache (map_write h cap id).
Definition memory_unmap {C} `{UnifiedPageCache C} id : M (UnifiedMemory C) CacheError unit :=
  on_cache (unmap id).

#[export] Instance memory_cache {C} `{UnifiedPageCache C} : UnifiedPageCache (UnifiedMemory C) := {
  map_read := memory_map_read;
  map_write := memory_map_write;
  unmap := memory_unmap;
  deref u := deref (cache u);
  assign ref data := on_cache (assign ref data);
}.

End PageCache.
