(* ===== verification/PageCacheProof.v ===== *)
(** * PageCacheProof: the page cache keeps its contract, and no page is read or
    changed without a live capability

    The instances discharge the laws of [UnifiedPageCache] for the cache over
    the buffer pool and for the kernel's memory manager; the properties are
    proved for any cache with the laws. *)
From Stdlib Require Import ZArith Lia Strings.Byte.
From stdpp Require Import base numbers option list gmap.
From S2P Require Import Prelude Block Page PageProof Capability PageCache.
Import PageCache.
Import Capability(store, SharedIssuer, shared_authorizes).

(** ** The implementations keep the contract *)

Section CoreLaws.
Context {D : Type} `{BlockDeviceLaws D}.

Lemma gate_ok h cap id r (c : CorePageCache D) :
  shared_authorizes (E := CacheError) h (issuer c) cap (Capability.Page id) r = Ok true ->
  gate h cap id r c = (Ok tt, c).
Proof. unfold gate. by intros ->. Qed.

Lemma gate_denied h cap id r (c : CorePageCache D) :
  shared_authorizes (E := CacheError) h (issuer c) cap (Capability.Page id) r = Ok false ->
  gate h cap id r c = (Err Denied, c).
Proof. unfold gate. by intros ->. Qed.

Lemma on_pool_inv {A} (m : M (Page.BufferPool D) StorageError A) (c : CorePageCache D) r c' :
  on_pool m c = (r, c') ->
  exists r0, m (pool c) = (r0, pool c') /\ r = map_err Storage r0 /\ issuer c' = issuer c.
Proof.
  unfold on_pool. destruct (m (pool c)) as [r0 p]. intros [= <- <-]. by exists r0.
Qed.

#[export] Program Instance core_laws : UnifiedPageCacheLaws (CorePageCache D) := {
  cache_ok c := pool_wf (pool c);
  cache_page c id := view (pool c) id;
  cache_issuer c := issuer c;
}.
Next Obligation.
  intros h cap id c. simpl. unfold core_map_read, core_map_write.
  split; intros E; by rewrite (bind_err _ _ _ _ _ (gate_denied _ _ _ _ _ E)).
Qed.
Next Obligation.
  simpl. intros h cap id c r c' Hok Hid Ha E. unfold core_map_read in E.
  rewrite (bind_ok _ _ _ _ _ (gate_ok _ _ _ _ _ Ha)) in E.
  apply on_pool_inv in E as (r0 & E & -> & Hi).
  destruct (fetch_spec _ _ _ _ Hok Hid E) as (Hwf & (_ & _ & _ & _ & Hv) & Hr).
  split_and!; [done|done|by destruct r0|by destruct r0|done|].
  intros ref Href. destruct r0 as [idx|e|]; simplify_eq/=.
  destruct Hr as (f & -> & _ & _ & Hp). by exists (Page.page f).
Qed.
Next Obligation.
  simpl. intros h cap id c r c' Hok Hid Ha E. unfold core_map_write in E.
  rewrite (bind_ok _ _ _ _ _ (gate_ok _ _ _ _ _ Ha)) in E.
  apply on_pool_inv in E as (r0 & E & -> & Hi).
  destruct (fetch_mut_spec _ _ _ _ Hok Hid E) as (Hwf & (_ & _ & _ & _ & Hv) & Hr).
  split_and!; [done|done|by destruct r0|by destruct r0|done|].
  intros ref data Href Hl. destruct r0 as [idx|e|]; simplify_eq/=.
  destruct Hr as (f & Hf & <- & Hp & Hdi & Hv0).
  destruct (write_frame_spec _ _ _ data Hwf Hf Hdi (proj2 Hid) Hl) as (Hw & Hwf2 & _ & Hv2).
  eexists. unfold on_pool. rewrite Hw. split; [reflexivity|]. split; [done|]. split; [done|].
  intros j Hj. simpl. rewrite Hv2 by done. unfold upd. case_decide; [done|]. by apply Hv.
Qed.
Next Obligation.
  simpl. intros id c r c' Hok Hid E. apply on_pool_inv in E as (r0 & E & -> & Hi).
  destruct (unpin_spec _ _ _ _ Hok Hid E) as (-> & Hwf & (_ & _ & _ & _ & Hv) & _). done.
Qed.

End CoreLaws.

Section MemoryLaws.
Context {C : Type} `{UnifiedPageCacheLaws C}.

Lemma on_cache_inv {A} (m : M C CacheError A) u r u' :
  on_cache m u = (r, u') -> m (cache u) = (r, cache u').
Proof. unfold on_cache. destruct (m (cache u)) as [r0 c]. by intros [= <- <-]. Qed.

Lemma on_cache_eq {A} (m : M C CacheError A) u r c :
  m (cache u) = (r, c) -> on_cache m u = (r, mkMemory c).
Proof. unfold on_cache. by intros ->. Qed.

#[export] Program Instance memory_laws : UnifiedPageCacheLaws (UnifiedMemory C) := {
  cache_ok u := cache_ok (cache u);
  cache_page u id := cache_page (cache u) id;
  cache_issuer u := cache_issuer (cache u);
}.
Next Obligation.
  intros h cap id [c]. simpl. destruct (law_denied h cap id c) as [Hr Hw].
  split; intros E; by apply on_cache_eq, (Hr, Hw).
Qed.
Next Obligation.
  simpl. intros h cap id c r c' Hok Hid Ha E%on_cache_inv. by eapply law_map_read.
Qed.
Next Obligation.
  simpl. intros h cap id c r c' Hok Hid Ha E%on_cache_inv.
  destruct (law_map_write _ _ _ _ _ _ Hok Hid Ha E) as (H1 & H2 & H3 & H4 & H5 & H6).
  split_and!; try done. intros ref data Hr Hl.
  destruct (H6 ref data Hr Hl) as (c2 & E2 & Hc2). exists (mkMemory c2).
  by rewrite (on_cache_eq _ _ _ _ E2).
Qed.
Next Obligation.
  simpl. intros id c r c' Hok Hid E%on_cache_inv. by apply (law_unmap id).
Qed.

End MemoryLaws.

(** ** A world of clients

    The clients hold handles to shared issuers and act on one cache, in any
    order: the issuer's owner mints and revokes, a holder of a token asks for a
    view of a page and reads or fills it, anybody releases a mapping. *)
Record world (C : Type) : Type := mkWorld { w_store : store; w_cache : C }.
Arguments mkWorld {C} w_store w_cache.
Arguments w_store {C} w.
Arguments w_cache {C} w.

Inductive act : Type :=
| AMint (a : SharedIssuer) (res : Capability.Resource) (r : Capability.Right)
| ARevoke (a : SharedIssuer) (cap : Capability.Capability)
| ARead (cap : Capability.Capability) (id : Z)
| AWrite (cap : Capability.Capability) (id : Z) (data : list byte)
| AUnmap (id : Z).

Inductive answer : Type :=
| Token (cap : Capability.Capability)
| Bytes (b : list byte)
| Unit.

Section World.
Context {C : Type} `{UnifiedPageCacheLaws C}.

Definition on_w_cache {A} (m : M C CacheError A) (k : A -> answer) (w : world C)
    : outcome CacheError answer * world C :=
  let '(r, c) := m (w_cache w) in
  (match r with Ok a => Ok (k a) | Err e => Err e | Panic => Panic end,
   mkWorld (w_store w) c).

Definition on_w_store {A} (m : M store Empty_set A) (k : A -> answer) (w : world C)
    : outcome CacheError answer * world C :=
  let '(r, h) := m (w_store w) in
  (match r with Ok a => Ok (k a) | Err e => match e with end | Panic => Panic end,
   mkWorld h (w_cache w)).

Definition run_act (x : act) (w : world C) : outcome CacheError answer * world C :=
  match x with
  | AMint a res r => on_w_store (Capability.shared_mint a res r) Token w
  | ARevoke a cap => on_w_store (Capability.shared_revoke a cap) (fun _ => Unit) w
  | ARead cap id => on_w_cache (v ← grant_read (w_store w) cap id; as_slice v) Bytes w
  | AWrite cap id data =>
      on_w_cache (v ← grant_write (w_store w) cap id; as_slice_mut_copy v data) (fun _ => Unit) w
  | AUnmap id => on_w_cache (unmap id) (fun _ => Unit) w
  end.

(** The world after the actions; one that fails leaves its effects. *)
Fixpoint run_acts (xs : list act) (w : world C) : world C :=
  match xs with
  | [] => w
  | x :: xs' => run_acts xs' (snd (run_act x w))
  end.

Definition act_valid (x : act) : Prop :=
  match x with
  | ARead _ id | AUnmap id => valid_id id
  | AWrite _ id data => valid_id id /\ length data = PAGE_SIZE
  | _ => True
  end.

(** The cache is consistent and its issuer exists. *)
Definition world_ok (w : world C) : Prop :=
  cache_ok (w_cache w) /\ exists i, w_store w !! cache_issuer (w_cache w) = Some i.

(** What the cache's issuer says now. *)
Definition allowed (w : world C) (cap : Capability.Capability) (id : Z) (r : Capability.Right)
    : bool :=
  match w_store w !! cache_issuer (w_cache w) with
  | Some i => Capability.authorizes i cap (Capability.Page id) r
  | None => false
  end.

Definition same_world_pages (w w' : world C) : Prop :=
  forall j, valid_id j -> cache_page (w_cache w') j = cache_page (w_cache w) j.

Lemma allowed_shared w cap id r :
  world_ok w ->
  shared_authorizes (E := CacheError) (w_store w) (cache_issuer (w_cache w)) cap
    (Capability.Page id) r = Ok (allowed w cap id r).
Proof. intros [_ [i Hi]]. unfold shared_authorizes, allowed. by rewrite Hi. Qed.

Lemma run_read cap id w r w' :
  world_ok w -> valid_id id -> run_act (ARead cap id) w = (r, w') ->
  world_ok w' /\ r <> Panic /\ same_world_pages w w' /\ w_store w' = w_store w /\
  cache_issuer (w_cache w') = cache_issuer (w_cache w) /\
  if allowed w cap id Capability.Read
  then r <> Err Denied /\
       forall b, r = Ok b -> exists pg, b = Bytes pg /\ cache_page (w_cache w) id = Some pg
  else r = Err Denied /\ w' = w.
Proof.
  intros Hok Hid E. destruct w as [h c]. assert (Ha := allowed_shared _ cap id Capability.Read Hok).
  simpl in E, Ha |- *. unfold on_w_cache, grant_read in E. simpl in E.
  destruct (allowed _ _ _ _) eqn:Eall.
  - destruct (map_read h cap id c) as [rm cm] eqn:Em.
    destruct (law_map_read _ _ _ _ _ _ (proj1 Hok) Hid Ha Em) as (H1 & H2 & H3 & H4 & H5 & H6).
    assert (Hok' : world_ok (mkWorld h cm)) by (split; [done|]; simpl; rewrite H2; apply Hok).
    destruct rm as [ref|e|]; [| |done].
    + destruct (H6 ref eq_refl) as (b & Hb & Hp).
      assert (Em2 : (v ← (page ← map_read h cap id; mret (mkView page)); as_slice v) c = (Ok b, cm)).
      { erewrite bind_ok by by rewrite (bind_ok _ _ _ _ _ Em). unfold as_slice. simpl. by rewrite Hb. }
      rewrite Em2 in E. injection E as <- <-. split_and!; try done.
      intros b' [= <-]. by exists b.
    + assert (Em2 : (v ← (page ← map_read h cap id; mret (mkView page)); as_slice v) c = (Err e, cm)).
      { apply bind_err. by apply bind_err. }
      rewrite Em2 in E. injection E as <- <-. split_and!; try done. congruence.
  - assert (Em := proj1 (law_denied h cap id c) Ha).
    assert (Em2 : (v ← (page ← map_read h cap id; mret (mkView page)); as_slice v) c = (Err Denied, c)).
    { apply bind_err. by apply bind_err. }
    rewrite Em2 in E. injection E as <- <-. done.
Qed.

Lemma run_write cap id data w r w' :
  world_ok w -> valid_id id -> length data = PAGE_SIZE -> run_act (AWrite cap id data) w = (r, w') ->
  world_ok w' /\ r <> Panic /\ w_store w' = w_store w /\
  cache_issuer (w_cache w') = cache_issuer (w_cache w) /\
  if allowed w cap id Capability.Write
  then r <> Err Denied /\ forall j, valid_id j -> cache_page (w_cache w') j =
         if is_ok r then upd (cache_page (w_cache w)) id data j else cache_page (w_cache w) j
  else r = Err Denied /\ w' = w.
Proof.
  intros Hok Hid Hl E. destruct w as [h c]. assert (Ha := allowed_shared _ cap id Capability.Write Hok).
  simpl in E, Ha |- *. unfold on_w_cache, grant_write in E. simpl in E.
  destruct (allowed _ _ _ _) eqn:Eall.
  - destruct (map_write h cap id c) as [rm cm] eqn:Em.
    destruct (law_map_write _ _ _ _ _ _ (proj1 Hok) Hid Ha Em) as (H1 & H2 & H3 & H4 & H5 & H6).
    destruct rm as [ref|e|]; [| |done].
    + destruct (H6 ref data eq_refl Hl) as (c2 & Hw & Hc2 & Hi2 & Hp).
      assert (Em2 : (v ← (page ← map_write h cap id; mret (mkViewMut page));
                     as_slice_mut_copy v data) c = (Ok tt, c2)).
      { erewrite bind_ok by by rewrite (bind_ok _ _ _ _ _ Em). done. }
      rewrite Em2 in E. injection E as <- <-. split_and!; try done.
      split; [done|]. simpl. rewrite Hi2. apply Hok.
    + assert (Em2 : (v ← (page ← map_write h cap id; mret (mkViewMut page));
                     as_slice_mut_copy v data) c = (Err e, cm)).
      { apply bind_err. by apply bind_err. }
      rewrite Em2 in E. injection E as <- <-. split_and!; try done; [|congruence].
      split; [done|]. simpl. rewrite H2. apply Hok.
  - assert (Em := proj2 (law_denied h cap id c) Ha).
    assert (Em2 : (v ← (page ← map_write h cap id; mret (mkViewMut page));
                   as_slice_mut_copy v data) c = (Err Denied, c)).
    { apply bind_err. by apply bind_err. }
    rewrite Em2 in E. injection E as <- <-. done.
Qed.

(** The acts on the store leave the cache alone and never bring a dead serial
    back. *)
Definition dead (h : store) (a : SharedIssuer) (cap : Capability.Capability) : Prop :=
  exists i, h !! a = Some i /\ (Capability.serial cap < Capability.next_serial i)%Z /\
            Capability.serial cap ∉ Capability.live i.

Definition store_le (h h' : store) : Prop :=
  (forall a i, h !! a = Some i -> exists i', h' !! a = Some i') /\
  forall a cap, dead h a cap -> dead h' a cap.

Lemma store_le_refl h : store_le h h.
Proof. split; eauto. Qed.

Lemma store_update_le h a i i' :
  h !! a = Some i ->
  (forall cap, (Capability.serial cap < Capability.next_serial i)%Z ->
     Capability.serial cap ∉ Capability.live i ->
     (Capability.serial cap < Capability.next_serial i')%Z /\
     Capability.serial cap ∉ Capability.live i') ->
  store_le h (<[a := i']> h).
Proof.
  intros Ha Hle. assert (Hlt := lookup_lt_Some _ _ _ Ha). split.
  - intros b j Hb. destruct (decide (a = b)) as [->|Hne].
    + rewrite list_lookup_insert_eq by done. eauto.
    + rewrite list_lookup_insert_ne by done. eauto.
  - intros b cap (j & Hb & Hs & Hd). destruct (decide (a = b)) as [->|Hne].
    + exists i'. rewrite list_lookup_insert_eq by done. simplify_eq. split; [done|]. by apply Hle.
    + exists j. by rewrite list_lookup_insert_ne.
Qed.

Lemma shared_mint_le a res r h o h' : Capability.shared_mint a res r h = (o, h') -> store_le h h'.
Proof.
  unfold Capability.shared_mint. destruct (h !! a) as [i|] eqn:Ha.
  - destruct (Capability.mint res r i) as [oc i'] eqn:Em. intros [= <- <-].
    apply (store_update_le h a i); [done|]. intros cap Hs Hd.
    unfold Capability.mint in Em. case_match; simplify_eq; [done|].
    simpl. split; [lia|]. set_solver by lia.
  - intros [= <- <-]. apply store_le_refl.
Qed.

Lemma shared_revoke_le a cap h o h' : Capability.shared_revoke a cap h = (o, h') -> store_le h h'.
Proof.
  unfold Capability.shared_revoke. destruct (h !! a) as [i|] eqn:Ha; intros [= <- <-];
    [|apply store_le_refl].
  apply (store_update_le h a i); [done|]. intros c Hs Hd. simpl. set_solver.
Qed.

(** What every act does to the world. *)
Lemma run_act_step x w r w' :
  world_ok w -> act_valid x -> run_act x w = (r, w') ->
  world_ok w' /\ cache_issuer (w_cache w') = cache_issuer (w_cache w) /\
  store_le (w_store w) (w_store w') /\
  (same_world_pages w w' \/
   exists cap id data, x = AWrite cap id data /\ allowed w cap id Capability.Write = true /\
     forall j, valid_id j -> j <> id -> cache_page (w_cache w') j = cache_page (w_cache w) j).
Proof.
  intros Hok Hv E. destruct x as [a res rt|a cap|cap id|cap id data|id]; simpl in Hv.
  - simpl in E. unfold on_w_store in E.
    destruct (Capability.shared_mint _ _ _ _) as [o h] eqn:Em. apply shared_mint_le in Em.
    injection E as <- <-. split_and!; [|done|done|by left]. split; [apply Hok|].
    destruct Hok as [_ [i Hi]]. by apply Em in Hi.
  - simpl in E. unfold on_w_store in E.
    destruct (Capability.shared_revoke _ _ _) as [o h] eqn:Em. apply shared_revoke_le in Em.
    injection E as <- <-. split_and!; [|done|done|by left]. split; [apply Hok|].
    destruct Hok as [_ [i Hi]]. by apply Em in Hi.
  - destruct (run_read _ _ _ _ _ Hok Hv E) as (H1 & _ & H2 & Hs & Hi & _).
    split_and!; [done|done| |by left]. rewrite Hs. apply store_le_refl.
  - destruct Hv as [Hid Hl].
    destruct (run_write _ _ _ _ _ _ Hok Hid Hl E) as (H1 & _ & Hs & Hi & Hc).
    split_and!; [done|done|rewrite Hs; apply store_le_refl|].
    destruct (allowed w cap id Capability.Write) eqn:Ea.
    + right. exists cap, id, data. split_and!; [done|done|].
      intros j Hj Hne. destruct Hc as [_ Hc]. rewrite (Hc j Hj). case_match; [|done].
      unfold upd. by case_decide.
    + destruct Hc as [_ ->]. by left.
  - simpl in E. unfold on_w_cache in E. destruct (unmap id (w_cache w)) as [ru c] eqn:Eu.
    destruct (law_unmap _ _ _ _ (proj1 Hok) Hv Eu) as (-> & Hc & Hi & Hp).
    injection E as <- <-. split_and!; [|done|apply store_le_refl|by left].
    split; [done|]. simpl. rewrite Hi. apply Hok.
Qed.

Lemma run_acts_step xs w :
  world_ok w -> Forall act_valid xs ->
  world_ok (run_acts xs w) /\
  cache_issuer (w_cache (run_acts xs w)) = cache_issuer (w_cache w) /\
  store_le (w_store w) (w_store (run_acts xs w)).
Proof.
  revert w. induction xs as [|x xs IH]; intros w Hok Hv; simpl.
  - split_and!; [done|done|apply store_le_refl].
  - apply Forall_cons_1 in Hv as [Hx Hv].
    destruct (run_act x w) as [r w1] eqn:E. simpl.
    destruct (run_act_step _ _ _ _ Hok Hx E) as (H1 & H2 & [H3 H4] & _).
    destruct (IH w1 H1 Hv) as (H5 & H6 & [H7 H8]). split_and!; [done|congruence|]. split; [|eauto].
    intros a i Ha. apply H3 in Ha as [i' Ha]. by apply H7 in Ha.
Qed.

Lemma dead_not_allowed w cap id r :
  dead (w_store w) (cache_issuer (w_cache w)) cap -> allowed w cap id r = false.
Proof.
  intros (i & Hi & _ & Hd). unfold allowed. rewrite Hi. apply not_true_iff_false.
  rewrite Capability.authorizes_spec. naive_solver.
Qed.

(** ** Properties *)

(** For any cache that keeps the trait's contract: a view of a page is handed out
    exactly when the presented token is live in the cache's issuer and covers
    the access, a refused access changes nothing at all, a granted read shows
    the storage engine's page, and a granted write replaces that page only. *)
Theorem view_needs_capability cap id data w r w' (writing : bool) :
  world_ok w -> valid_id id -> length data = PAGE_SIZE ->
  run_act (if writing then AWrite cap id data else ARead cap id) w = (r, w') ->
  world_ok w' /\ r <> Panic /\ w_store w' = w_store w /\
  if allowed w cap id (if writing then Capability.Write else Capability.Read)
  then r <> Err Denied /\
       (forall b, writing = false -> r = Ok b ->
          exists pg, b = Bytes pg /\ cache_page (w_cache w) id = Some pg) /\
       (forall j, valid_id j -> cache_page (w_cache w') j =
          if writing && is_ok r then upd (cache_page (w_cache w)) id data j
          else cache_page (w_cache w) j)
  else r = Err Denied /\ w' = w.
Proof.
  intros Hok Hid Hl E. destruct writing; simpl in *.
  - destruct (run_write _ _ _ _ _ _ Hok Hid Hl E) as (H1 & H2 & H3 & _ & H4).
    split_and!; try done. revert H4. destruct (allowed _ _ _ _); [intros H4|done].
    destruct H4 as [H4 H5]. by split_and!.
  - destruct (run_read _ _ _ _ _ Hok Hid E) as (H1 & H2 & H3 & H4 & _ & H5).
    split_and!; try done. revert H5. destruct (allowed _ _ _ _); [intros H5|done].
    destruct H5 as [H5 H6]. split_and!; [done|intros b _; apply H6|done].
Qed.

(** C16: Over any interleaving of mints, revocations, reads,
    writes and unmaps by any number of clients, a page whose contents differ at
    the end was written by some client that, at that moment, presented a live
    token covering a write of that very page. *)
Theorem pages_change_only_under_write_capability xs w j :
  world_ok w -> Forall act_valid xs -> valid_id j ->
  cache_page (w_cache (run_acts xs w)) j <> cache_page (w_cache w) j ->
  exists xs1 cap data xs2, xs = xs1 ++ AWrite cap j data :: xs2 /\
    allowed (run_acts xs1 w) cap j Capability.Write = true.
Proof.
  intros Hok Hv Hj. revert w Hok. induction xs as [|x xs IH]; intros w Hok Hne; [done|].
  apply Forall_cons_1 in Hv as [Hx Hv]. simpl in Hne.
  destruct (run_act x w) as [r w1] eqn:E. simpl in Hne.
  destruct (run_act_step _ _ _ _ Hok Hx E) as (Hok1 & _ & _ & Hp).
  assert (Hcase : cache_page (w_cache w1) j = cache_page (w_cache w) j \/
    exists cap data, x = AWrite cap j data /\ allowed w cap j Capability.Write = true).
  { destruct Hp as [Hp|(cap & id & data & -> & Ha & Hp)]; [left; by apply Hp|].
    destruct (decide (j = id)) as [->|Hji]; [right; by exists cap, data|left; by apply Hp]. }
  destruct Hcase as [Heq|(cap & data & -> & Ha)].
  - destruct (IH Hv w1 Hok1) as (xs1 & cap & data & xs2 & -> & Ha); [by rewrite Heq|].
    exists (x :: xs1), cap, data, xs2. split; [done|]. simpl. by rewrite E.
  - by exists [], cap, data, xs.
Qed.

(** Once the cache's issuer has revoked a token it minted, whatever the clients do
    afterwards, no read or write with that token is ever granted again and
    every attempt leaves the world as it was. *)
Theorem revocation_is_final xs w i cap id data :
  world_ok w -> Forall act_valid xs -> valid_id id -> length data = PAGE_SIZE ->
  w_store w !! cache_issuer (w_cache w) = Some i ->
  (Capability.serial cap < Capability.next_serial i)%Z ->
  let w1 := run_acts (ARevoke (cache_issuer (w_cache w)) cap :: xs) w in
  run_act (ARead cap id) w1 = (Err Denied, w1) /\
  run_act (AWrite cap id data) w1 = (Err Denied, w1).
Proof.
  intros Hok Hv Hid Hl Hi Hs w1.
  destruct (run_act (ARevoke (cache_issuer (w_cache w)) cap) w) as [r w0] eqn:E.
  destruct (run_act_step (ARevoke _ _) _ _ _ Hok I E) as (Hok0 & Hi0 & _ & _).
  assert (Hd0 : dead (w_store w0) (cache_issuer (w_cache w0)) cap).
  { rewrite Hi0. simpl in E. unfold on_w_store, Capability.shared_revoke in E. rewrite Hi in E.
    injection E as <- <-. exists (Capability.revoke cap i). simpl.
    rewrite list_lookup_insert_eq by by apply lookup_lt_Some in Hi.
    split_and!; [done|done|set_solver]. }
  destruct (run_acts_step xs w0 Hok0 Hv) as (Hok1 & Hi1 & [_ Hle]).
  assert (Hd1 : dead (w_store w1) (cache_issuer (w_cache w1)) cap).
  { unfold w1. cbn [run_acts]. rewrite E. cbn [snd]. rewrite Hi1. by apply Hle. }
  assert (Hok1' : world_ok w1) by (unfold w1; cbn [run_acts]; by rewrite E).
  split.
  - destruct (run_act (ARead cap id) w1) as [rr wr] eqn:Er.
    destruct (run_read _ _ _ _ _ Hok1' Hid Er) as (_ & _ & _ & _ & _ & Hc).
    rewrite (dead_not_allowed _ _ _ _ Hd1) in Hc. by destruct Hc as [-> ->].
  - destruct (run_act (AWrite cap id data) w1) as [rr wr] eqn:Er.
    destruct (run_write _ _ _ _ _ _ Hok1' Hid Hl Er) as (_ & _ & _ & _ & Hc).
    rewrite (dead_not_allowed _ _ _ _ Hd1) in Hc. by destruct Hc as [-> ->].
Qed.

End World.

(** ** The properties at work: the kernel's memory manager over the buffer pool
    over an in-memory device *)

#[local] Existing Instance InMemory.device.
#[local] Existing Instance InMemory.device_laws.

Definition demo_memory : UnifiedMemory (CorePageCache InMemory.InMemoryBlockDevice) :=
  memory_new (PageCache.new
    (Page.mkPool (InMemory.mkInMemory (replicate (2 * BLOCK_SIZE) x00) 2) 1 [] [] true) 0).

(** An issuer that minted a read/write token for page 1 and a read-only one. *)
Definition demo_issuer : Capability.CapabilityIssuer := Capability.mkIssuer 2 {[ 0%Z; 1%Z ]}.
Definition demo_world : world (UnifiedMemory (CorePageCache InMemory.InMemoryBlockDevice)) :=
  mkWorld [demo_issuer] demo_memory.
Definition demo_rw : Capability.Capability := Capability.mkCap 0 (Capability.Page 1) Capability.ReadWrite.
Definition demo_page : list byte := replicate PAGE_SIZE x2a.

Lemma demo_world_ok : world_ok demo_world.
Proof.
  split; [|exists demo_issuer; reflexivity]. simpl.
  refine (proj1 (new_spec (InMemory.mkInMemory (replicate (2 * BLOCK_SIZE) x00) 2) 1 _ _ _)).
  - apply (InMemory.new_ok 2); [lia|reflexivity].
  - reflexivity.
Qed.

Lemma demo_valid : valid_id 1.
Proof. split; [lia|discriminate]. Qed.

Lemma demo_write_ok : is_ok (fst (run_act (AWrite demo_rw 1 demo_page) demo_world)) = true.
Proof. vm_compute. reflexivity. Qed.

Lemma demo_write_page :
  cache_page (w_cache (snd (run_act (AWrite demo_rw 1 demo_page) demo_world))) 1 = Some demo_page.
Proof.
  assert (Hok := demo_write_ok).
  destruct (run_act (AWrite demo_rw 1 demo_page) demo_world) as [r w'] eqn:E.
  destruct (run_write demo_rw 1 demo_page demo_world r w' demo_world_ok demo_valid
    (length_replicate _ _) E) as (_ & _ & _ & _ & H).
  assert (Ha : allowed demo_world demo_rw 1 Capability.Write = true) by reflexivity.
  rewrite Ha in H. destruct H as [_ H]. simpl in Hok. cbn [snd].
  rewrite (H 1%Z demo_valid), Hok. reflexivity.
Qed.

Lemma view_needs_capability_witness :
  exists r w', run_act (AWrite demo_rw 1 demo_page) demo_world = (r, w') /\ is_ok r = true /\
    cache_page (w_cache w') 1 = Some demo_page.
Proof.
  destruct (run_act (AWrite demo_rw 1 demo_page) demo_world) as [r w'] eqn:E.
  exists r, w'. split; [reflexivity|].
  assert (Hok : is_ok r = true).
  { assert (H := demo_write_ok). rewrite E in H. exact H. }
  split; [exact Hok|].
  destruct (view_needs_capability demo_rw 1 demo_page demo_world r w' true demo_world_ok demo_valid
    (length_replicate _ _) E) as (_ & _ & _ & H).
  assert (Ha : allowed demo_world demo_rw 1 Capability.Write = true) by reflexivity.
  rewrite Ha, Hok in H. destruct H as (_ & _ & H). rewrite (H 1%Z demo_valid). reflexivity.
Defined.

Lemma pages_change_only_under_write_capability_witness :
  exists xs1 cap data xs2, [AWrite demo_rw 1 demo_page] = xs1 ++ AWrite cap 1 data :: xs2 /\
    allowed (run_acts xs1 demo_world) cap 1 Capability.Write = true.
Proof.
  apply (pages_change_only_under_write_capability [AWrite demo_rw 1 demo_page] demo_world 1
    demo_world_ok).
  - apply Forall_singleton. split; [exact demo_valid|apply length_replicate].
  - exact demo_valid.
  - intros Heq. unfold run_acts in Heq. rewrite demo_write_page in Heq.
    apply (f_equal (fun o => match o with Some (b :: _) => b | _ => x2a end)) in Heq.
    vm_compute in Heq. discriminate Heq.
Defined.

Lemma revocation_is_final_witness :
  let w1 := run_acts [ARevoke 0 demo_rw; AMint 0 (Capability.Page 1) Capability.ReadWrite] demo_world in
  run_act (ARead demo_rw 1) w1 = (Err Denied, w1).
Proof.
  refine (proj1 (revocation_is_final [AMint 0 (Capability.Page 1) Capability.ReadWrite] demo_world
    demo_issuer demo_rw 1 demo_page demo_world_ok _ demo_valid (length_replicate _ _) eq_refl _)).
  - apply Forall_singleton. exact I.
  - simpl. lia.
Defined.
