(* ===== verification/Scheduler.v ===== *)
(** * Scheduler: the cooperative round-robin scheduler
    ([crates/tpt-archon-kernel/src/scheduler.rs])

    The [Task] trait is a class: the state of a boxed task is a value of [T],
    and what the tasks share through [Rc<RefCell<_>>] is a world [W] that every
    poll may read and change. *)
From Stdlib Require Import ZArith Lia.
From stdpp Require Import base numbers option list.
From S2P Require Import Prelude.

Module Scheduler.

Inductive Poll : Type := Pending | Ready.

#[export] Instance Poll_eq_dec : EqDecision Poll.
Proof. solve_decision. Defined.

Class Task (W T : Type) : Type := poll : T -> W -> Poll * T * W.

Section Scheduler.
Context {W T : Type} `{Task W T}.

Record Entry : Type := mkEntry { id : Z; task : T }.

(** [ready] is the deque, its front first. *)
Record Scheduler : Type := mkSched { ready : list Entry; next_id : Z }.

Definition new : Scheduler := {| ready := []; next_id := 0 |}.

(** The id counter is a [u64]. *)
Definition spawn (t : T) (s : Scheduler) : Z * Scheduler :=
  (next_id s, {| ready := ready s ++ [mkEntry (next_id s) t]; next_id := wrap64 (next_id s + 1) |}).

Definition task_count (s : Scheduler) : nat := length (ready s).

Definition tick (s : Scheduler) (w : W) : option (Z * Poll) * Scheduler * W :=
  match ready s with
  | [] => (None, s, w)
  | entry :: rest =>
      let '(result, t', w') := poll (task entry) w in
      let rest' := if decide (result = Pending) then rest ++ [mkEntry (id entry) t'] else rest in
      (Some (id entry, result), {| ready := rest'; next_id := next_id s |}, w')
  end.

(** The [while self.tick().is_some()] loop with [ticks] counted so far: [None]
    when the fuel does not suffice. *)
Fixpoint run_loop (fuel : nat) (s : Scheduler) (w : W) (ticks : nat)
    : option (nat * Scheduler * W) :=
  match fuel with
  | O => None
  | S fuel' =>
      match tick s w with
      | (None, s', w') => Some (ticks, s', w')
      | (Some _, s', w') => run_loop fuel' s' w' (ticks + 1)
      end
  end.

Definition run_to_completion (fuel : nat) (s : Scheduler) (w : W)
    : option (nat * Scheduler * W) := run_loop fuel s w 0.

(** ** Fairness *)

(** [n] ticks, with what they reported. *)
Fixpoint ticks (n : nat) (s : Scheduler) (w : W) : list (Z * Poll) * Scheduler * W :=
  match n with
  | O => ([], s, w)
  | S n' =>
      match tick s w with
      | (Some o, s1, w1) => let '(os, s2, w2) := ticks n' s1 w1 in (o :: os, s2, w2)
      | (None, s1, w1) => ([], s1, w1)
      end
  end.

(** One round over a list of entries: each is polled once, in order, and the
    ones that are still pending stay, in order. *)
Fixpoint round (q : list Entry) (w : W) : list (Z * Poll) * list Entry * W :=
  match q with
  | [] => ([], [], w)
  | e :: q' =>
      let '(r, t', w1) := poll (task e) w in
      let '(os, q1, w2) := round q' w1 in
      ((id e, r) :: os, (if decide (r = Pending) then [mkEntry (id e) t'] else []) ++ q1, w2)
  end.

Lemma ticks_round q1 q2 n w os q w' :
  round q1 w = (os, q, w') ->
  ticks (length q1) (mkSched (q1 ++ q2) n) w = (os, mkSched (q2 ++ q) n, w').
Proof.
  revert q2 w os q w'. induction q1 as [|e q1 IH]; intros q2 w os q w' E; simpl in E.
  - injection E as <- <- <-. simpl. by rewrite app_nil_r.
  - destruct (poll (task e) w) as [[r t'] w1] eqn:Ep.
    destruct (round q1 w1) as [[os1 qq] w2] eqn:Er. injection E as <- <- <-.
    simpl. unfold tick. simpl. rewrite Ep. simpl. destruct r; simpl.
    + rewrite <- app_assoc. rewrite (IH (q2 ++ [mkEntry (id e) t']) _ _ _ _ Er).
      by rewrite <- app_assoc.
    + by rewrite (IH q2 _ _ _ _ Er).
Qed.

Lemma round_ids q w os q' w' : round q w = (os, q', w') -> map fst os = map id q.
Proof.
  revert w os q' w'. induction q as [|e q IH]; intros w os q' w' E; simpl in E.
  - by injection E as <- <- <-.
  - destruct (poll (task e) w) as [[r t'] w1]. destruct (round q w1) as [[os1 q1] w2] eqn:Er.
    injection E as <- <- <-. simpl. f_equal. by eapply IH.
Qed.

(** ** Termination *)

(** A bound on the polls a task still needs: every poll that does not finish
    the task lowers it. *)
Definition decreases (rem : T -> nat) : Prop :=
  forall t w t' w', poll t w = (Pending, t', w') -> rem t' < rem t.

Definition work (rem : T -> nat) (s : Scheduler) : nat :=
  sum_list_with (fun e => S (rem (task e))) (ready s).

Lemma tick_work rem s w o s' w' :
  decreases rem -> tick s w = (Some o, s', w') -> work rem s' < work rem s.
Proof.
  intros Hdec. unfold tick, work. destruct (ready s) as [|e q]; [done|].
  destruct (poll (task e) w) as [[r t'] w1] eqn:Ep. intros E. injection E as <- <- <-.
  case_decide as Hr; simpl.
  - rewrite sum_list_with_app. simpl. subst r. apply Hdec in Ep. lia.
  - lia.
Qed.

Lemma run_loop_terminates rem fuel s w n :
  decreases rem -> work rem s < fuel ->
  exists m s' w', run_loop fuel s w n = Some (n + m, s', w') /\ m <= work rem s /\ ready s' = [].
Proof.
  intros Hdec. revert s w n. induction fuel as [|fuel IH]; intros s w n Hf; [lia|].
  simpl. destruct (tick s w) as [[[o|] s1] w1] eqn:Et.
  - assert (Hw := tick_work _ _ _ _ _ _ Hdec Et).
    destruct (IH s1 w1 (n + 1)) as (m & s' & w' & E & Hm & Hr); [lia|].
    exists (S m), s', w'. split_and!; [|lia|done]. rewrite E. do 3 f_equal. lia.
  - exists 0, s1, w1. unfold tick in Et. destruct (ready s) as [|e q] eqn:Eq.
    + injection Et as <- <-. split_and!; [do 3 f_equal; lia|lia|done].
    + by destruct (poll (task e) w) as [[? ?] ?].
Qed.

(** When a poll finishes a task exactly when nothing remains and otherwise takes
    one step of it, the number of ticks is exact. *)
Definition exact (rem : T -> nat) : Prop :=
  forall t w r t' w', poll t w = (r, t', w') ->
    if decide (r = Pending) then rem t = S (rem t') else rem t = 0.

Lemma exact_decreases rem : exact rem -> decreases rem.
Proof. intros He t w t' w' E. apply He in E. simpl in E. lia. Qed.

Lemma run_loop_exact rem fuel s w n :
  exact rem -> work rem s < fuel ->
  exists s' w', run_loop fuel s w n = Some (n + work rem s, s', w') /\ ready s' = [].
Proof.
  intros He. revert s w n. induction fuel as [|fuel IH]; intros s w n Hf; [lia|].
  simpl. destruct (tick s w) as [[[o|] s1] w1] eqn:Et.
  - assert (Hw : work rem s = S (work rem s1)).
    { unfold tick, work in *. destruct (ready s) as [|e q]; [done|].
      destruct (poll (task e) w) as [[r t'] w2] eqn:Ep. injection Et as <- <- <-.
      apply He in Ep. simpl. case_decide; simpl; [rewrite sum_list_with_app; simpl|]; lia. }
    destruct (IH s1 w1 (n + 1)) as (s' & w' & E & Hr); [lia|].
    exists s', w'. split; [|done]. rewrite E. do 3 f_equal. lia.
  - exists s1, w1. unfold tick in Et. destruct (ready s) as [|e q] eqn:Eq.
    + injection Et as <- <-. unfold work. rewrite Eq. split; [do 3 f_equal; simpl; lia|done].
    + by destruct (poll (task e) w) as [[? ?] ?].
Qed.

(** ** Tasks over the life of a scheduler *)

Inductive call : Type := Spawn (t : T) | Tick.

(** The ids spawned, the ids reported [Ready], and the scheduler in the end. *)
Fixpoint run_calls (cs : list call) (s : Scheduler) (w : W) : list Z * list Z * Scheduler :=
  match cs with
  | [] => ([], [], s)
  | Spawn t :: cs' =>
      let '(i, s1) := spawn t s in
      let '(sp, fin, s2) := run_calls cs' s1 w in (i :: sp, fin, s2)
  | Tick :: cs' =>
      let '(o, s1, w1) := tick s w in
      let '(sp, fin, s2) := run_calls cs' s1 w1 in
      (sp, (match o with Some (i, Ready) => [i] | _ => [] end) ++ fin, s2)
  end.

Definition spawns (cs : list call) : nat :=
  length (omap (fun c => match c with Spawn _ => Some tt | Tick => None end) cs).

Lemma run_calls_spec cs s w sp fin s' :
  run_calls cs s w = (sp, fin, s') -> (0 <= next_id s)%Z ->
  (next_id s + Z.of_nat (spawns cs) < 2 ^ 64)%Z ->
  sp = seqZ (next_id s) (Z.of_nat (spawns cs)) /\
  map id (ready s) ++ sp ≡ₚ fin ++ map id (ready s').
Proof.
  revert s w sp fin s'. induction cs as [|[t|] cs IH]; intros s w sp fin s' E H0 Hb; simpl in E.
  - injection E as <- <- <-. unfold spawns. simpl. split; [done|]. by rewrite app_nil_r.
  - destruct (run_calls cs _ w) as [[sp1 fin1] s1] eqn:Er. injection E as <- <- <-.
    change (spawns (Spawn t :: cs)) with (S (spawns cs)) in *.
    apply IH in Er as [-> Hp]; simpl in *;
      unfold wrap64 in *; rewrite (Z.mod_small (next_id s + 1)) in * by lia; [|lia|lia].
    split.
    + rewrite (seqZ_cons (next_id s)) by lia. repeat f_equal; lia.
    + rewrite <- Hp. rewrite map_app. simpl. by rewrite <- app_assoc.
  - destruct (tick s w) as [[o s1] w1] eqn:Et.
    destruct (run_calls cs s1 w1) as [[sp1 fin1] s2] eqn:Er. injection E as <- <- <-.
    change (spawns (Tick :: cs)) with (spawns cs) in *.
    assert (Hn : next_id s1 = next_id s).
    { unfold tick in Et. destruct (ready s); [by simplify_eq|].
      destruct (poll _ _) as [[? ?] ?]. by simplify_eq. }
    apply IH in Er as [-> Hp]; [|lia|lia]. rewrite Hn in *. split; [done|].
    rewrite <- app_assoc, <- Hp. unfold tick in Et. destruct (ready s) as [|e q] eqn:Eq.
    + injection Et as <- <- <-. simpl. rewrite Eq. done.
    + destruct (poll (task e) w) as [[r t'] w2]. injection Et as <- <- <-. destruct r; simpl.
      * rewrite map_app. simpl. rewrite <- app_assoc. simpl. apply Permutation_middle.
      * done.
Qed.

(** ** Properties *)

(** C39: As many ticks as there are tasks poll each of them exactly once, in queue
    order, and keep exactly the pending ones, in order: no task waits longer
    than one round whatever the others do. *)
Theorem round_robin_is_fair s w os q w' :
  round (ready s) w = (os, q, w') ->
  ticks (task_count s) s w = (os, mkSched q (next_id s), w') /\ map fst os = map id (ready s).
Proof.
  intros E. split; [|by eapply round_ids]. destruct s as [rd n]. unfold task_count. simpl in *.
  apply (ticks_round rd [] n) in E. rewrite app_nil_r in E. exact E.
Qed.

(** When every poll that does not finish a task lowers a bound on the
    polls it still needs, [run_to_completion] returns, whatever the tasks do to
    what they share: the queue is empty, and the ticks it counted are at most
    one per task more than the bounds. *)
Theorem run_to_completion_terminates rem s w :
  decreases rem ->
  exists n s' w', ready s' = [] /\ n <= work rem s /\
    forall fuel, work rem s < fuel -> run_to_completion fuel s w = Some (n, s', w').
Proof.
  intros Hdec. destruct (run_loop_terminates rem (S (work rem s)) s w 0 Hdec) as (n & s' & w' & E & Hn & Hr);
    [lia|].
  exists n, s', w'. split_and!; [done|done|]. intros fuel Hf.
  assert (Hmono : forall a b s w k r, a <= b -> run_loop a s w k = Some r -> run_loop b s w k = Some r).
  { clear. induction a as [|a IH]; intros [|b] s w k r Hab E; [done|done|lia|]. simpl in *.
    destruct (tick s w) as [[[o|] s1] w1]; [|done]. apply IH; [lia|done]. }
  eapply Hmono; [|exact E]. lia.
Qed.

(** Over any sequence of spawns and ticks (fewer than 2^64 spawns), ids are never
    reused, and every spawned task either has been reported [Ready] exactly once
    or is still in the queue exactly once: no task is lost or finished twice. *)
Theorem tasks_are_conserved cs w sp fin s :
  run_calls cs new w = (sp, fin, s) -> (Z.of_nat (spawns cs) < 2 ^ 64)%Z ->
  length sp = spawns cs /\ NoDup (fin ++ map id (ready s)) /\ sp ≡ₚ fin ++ map id (ready s).
Proof.
  intros E Hb. destruct (run_calls_spec _ _ _ _ _ _ E) as [-> Hp]; [simpl; lia|done|].
  simpl in Hp. split_and!; [rewrite length_seqZ; lia| |done].
  rewrite <- Hp. apply NoDup_seqZ.
Qed.

End Scheduler.
Arguments Entry : clear implicits.
Arguments Scheduler : clear implicits.
Arguments call : clear implicits.

(** ** The properties at work: tasks that count down *)

(** A task that is ready after a number of polls, and the polls made so far. *)
Definition countdown : Task nat nat := fun k w =>
  match k with O => (Ready, O, S w) | S k' => (Pending, k', S w) end.

#[local] Existing Instance countdown.

Definition demo_sched : Scheduler nat :=
  mkSched [mkEntry 0 2; mkEntry 1 0; mkEntry 2 1] 3.

Lemma round_robin_is_fair_witness :
  exists s', ticks 3 demo_sched 0 = ([(0, Pending); (1, Ready); (2, Pending)]%Z, s', 3).
Proof.
  destruct (round_robin_is_fair demo_sched 0 [(0, Pending); (1, Ready); (2, Pending)]%Z
    [mkEntry 0 1; mkEntry 2 0] 3) as [H _]; [reflexivity|].
  eexists. exact H.
Defined.

Lemma run_to_completion_terminates_witness :
  exists n s' w', run_to_completion 7 demo_sched 0 = Some (n, s', w') /\ ready s' = [] /\ n <= 6.
Proof.
  destruct (run_to_completion_terminates (fun k => k) demo_sched 0) as (n & s' & w' & Hr & Hn & E).
  { intros [|k] w t' w' [=]; lia. }
  exists n, s', w'. split; [apply E; vm_compute; lia|]. split; [exact Hr|exact Hn].
Defined.

Lemma tasks_are_conserved_witness :
  exists sp fin s, run_calls [Spawn 1; Spawn 0; Tick; Tick; Spawn 4; Tick] new 0 = (sp, fin, s) /\
    sp ≡ₚ fin ++ map id (ready s) /\ fin = [1; 0]%Z.
Proof.
  destruct (run_calls [Spawn 1; Spawn 0; Tick; Tick; Spawn 4; Tick] new 0) as [[sp fin] s] eqn:E.
  exists sp, fin, s. split; [exact eq_refl|].
  destruct (tasks_are_conserved [Spawn 1; Spawn 0; Tick; Tick; Spawn 4; Tick] 0 sp fin s)
    as (_ & _ & H); [exact E|vm_compute; reflexivity|].
  split; [exact H|]. vm_compute in E. injection E as <- <- <-. reflexivity.
Defined.

End Scheduler.
