(* ===== verification/Ipc.v ===== *)
(** * Ipc: the capability-gated message router
    ([crates/tpt-archon-kernel/src/ipc.rs]) *)
From Stdlib Require Import ZArith Lia Strings.Byte.
From stdpp Require Import base numbers option list gmap.
From S2P Require Import Prelude Capability.

Module Ipc.
Import Capability(store, SharedIssuer, shared_authorizes).

Record Message : Type := mkMsg { channel : Z; payload : list byte }.

#[export] Instance Message_eq_dec : EqDecision Message.
Proof. solve_decision. Defined.

Inductive IpcError : Type := Denied | NoSuchChannel.

(** [inboxes] is the [BTreeMap]; [issuer] the handle to the shared issuer. *)
Record MessageRouter : Type := mkRouter {
  inboxes : gmap Z (list Message);
  issuer : SharedIssuer;
}.

Definition new (i : SharedIssuer) : MessageRouter := {| inboxes := ∅; issuer := i |}.

Definition with_inboxes (ib : gmap Z (list Message)) (r : MessageRouter) : MessageRouter :=
  {| inboxes := ib; issuer := issuer r |}.

(** [entry(channel).or_default()]: an existing inbox is kept. *)
Definition register_channel (ch : Z) (r : MessageRouter) : MessageRouter :=
  match inboxes r !! ch with
  | Some _ => r
  | None => with_inboxes (<[ch := []]> (inboxes r)) r
  end.

Definition send (h : store) (cap : Capability.Capability) (m : Message)
    : M MessageRouter IpcError unit := fun r =>
  match shared_authorizes h (issuer r) cap (Capability.Channel (channel m)) Capability.Write with
  | Ok true =>
      match inboxes r !! channel m with
      | Some inbox => (Ok tt, with_inboxes (<[channel m := inbox ++ [m]]> (inboxes r)) r)
      | None => (Err NoSuchChannel, r)
      end
  | Ok false => (Err Denied, r)
  | Err e => (Err e, r)
  | Panic => (Panic, r)
  end.

(** [mem::take] leaves an empty inbox. *)
Definition receive (h : store) (cap : Capability.Capability) (ch : Z)
    : M MessageRouter IpcError (list Message) := fun r =>
  match shared_authorizes h (issuer r) cap (Capability.Channel ch) Capability.Read with
  | Ok true =>
      match inboxes r !! ch with
      | Some inbox => (Ok inbox, with_inboxes (<[ch := []]> (inboxes r)) r)
      | None => (Err NoSuchChannel, r)
      end
  | Ok false => (Err Denied, r)
  | Err e => (Err e, r)
  | Panic => (Panic, r)
  end.

(** ** The router among its clients

    Clients send and receive, channels are registered, and the owners of the
    issuers mint and revoke, in any order. *)
Inductive ipc_op : Type :=
| Register (ch : Z)
| Send (cap : Capability.Capability) (m : Message)
| Receive (cap : Capability.Capability) (ch : Z)
| Mint (a : SharedIssuer) (res : Capability.Resource) (rt : Capability.Right)
| Revoke (a : SharedIssuer) (cap : Capability.Capability).

(** An operation's messages: those [receive] returned. *)
Definition run_op (op : ipc_op) (h : store) (r : MessageRouter)
    : outcome IpcError (list Message) * store * MessageRouter :=
  match op with
  | Register ch => (Ok [], h, register_channel ch r)
  | Send cap m => let '(o, r') := send h cap m r in
                  (match o with Ok _ => Ok [] | Err e => Err e | Panic => Panic end, h, r')
  | Receive cap ch => let '(o, r') := receive h cap ch r in (o, h, r')
  | Mint a res rt => let '(o, h') := Capability.shared_mint a res rt h in
                     (match o with Ok _ => Ok [] | Err e => match e with end | Panic => Panic end, h', r)
  | Revoke a cap => let '(o, h') := Capability.shared_revoke a cap h in
                    (match o with Ok _ => Ok [] | Err e => match e with end | Panic => Panic end, h', r)
  end.

(** The operations with what each returned, and the store and router at the
    end. *)
Fixpoint run_ops (ops : list ipc_op) (h : store) (r : MessageRouter)
    : list (ipc_op * outcome IpcError (list Message)) * store * MessageRouter :=
  match ops with
  | [] => ([], h, r)
  | op :: ops' =>
      let '(o, h1, r1) := run_op op h r in
      let '(log, h2, r2) := run_ops ops' h1 r1 in ((op, o) :: log, h2, r2)
  end.

(** The messages accepted for a channel, and the messages taken from it. *)
Definition accepted (ch : Z) (e : ipc_op * outcome IpcError (list Message)) : list Message :=
  match e with
  | (Send _ m, Ok _) => if decide (channel m = ch) then [m] else []
  | _ => []
  end.

Definition delivered (ch : Z) (e : ipc_op * outcome IpcError (list Message)) : list Message :=
  match e with
  | (Receive _ c, Ok ms) => if decide (c = ch) then ms else []
  | _ => []
  end.

Definition inbox_of (r : MessageRouter) (ch : Z) : list Message := default [] (inboxes r !! ch).

Lemma shared_authorizes_inv {E} h a cap res rt b :
  shared_authorizes (E := E) h a cap res rt = Ok b ->
  exists i, h !! a = Some i /\ Capability.authorizes i cap res rt = b.
Proof. unfold shared_authorizes. destruct (h !! a) as [i|]; intros [= <-]. by exists i. Qed.

(** One operation moves exactly the messages it accepted or delivered. *)
Lemma run_op_inbox op h r o h' r' ch :
  run_op op h r = (o, h', r') ->
  inbox_of r ch ++ accepted ch (op, o) = delivered ch (op, o) ++ inbox_of r' ch /\
  issuer r' = issuer r.
Proof.
  unfold inbox_of. destruct op as [c|cap m|cap c|a res rt|a cap]; simpl; intros E.
  - injection E as <- <- <-. unfold register_channel. rewrite app_nil_r.
    destruct (inboxes r !! c) as [l|] eqn:Ec; [done|]. simpl.
    destruct (decide (c = ch)) as [->|]; [by rewrite Ec, lookup_insert_eq|by rewrite lookup_insert_ne].
  - unfold send in E. destruct (shared_authorizes _ _ _ _ _) as [[]|e|]; [|simplify_eq/=; by rewrite app_nil_r..].
    destruct (inboxes r !! channel m) as [l|] eqn:Ec; simplify_eq/=; [|by rewrite app_nil_r].
    split; [|done]. case_decide as Hc.
    + subst ch. by rewrite Ec, lookup_insert_eq.
    + rewrite lookup_insert_ne by done. by rewrite app_nil_r.
  - unfold receive in E. destruct (shared_authorizes _ _ _ _ _) as [[]|e|]; [|simplify_eq/=; by rewrite app_nil_r..].
    destruct (inboxes r !! c) as [l|] eqn:Ec; simplify_eq/=; [|by rewrite app_nil_r].
    split; [|done]. rewrite app_nil_r. case_decide as Hc.
    + subst ch. rewrite Ec, lookup_insert_eq. simpl. by rewrite app_nil_r.
    + by rewrite lookup_insert_ne.
  - destruct (Capability.shared_mint a res rt h) as [[?|[]|] ?]; simplify_eq/=; by rewrite app_nil_r.
  - destruct (Capability.shared_revoke a cap h) as [[?|[]|] ?]; simplify_eq/=; by rewrite app_nil_r.
Qed.

Lemma run_ops_inbox ops h r log h' r' ch :
  run_ops ops h r = (log, h', r') ->
  inbox_of r ch ++ (log ≫= accepted ch) = (log ≫= delivered ch) ++ inbox_of r' ch.
Proof.
  revert h r log. induction ops as [|op ops IH]; intros h r log E; simpl in E.
  - injection E as <- <- <-. simpl. by rewrite app_nil_r.
  - destruct (run_op op h r) as [[o h1] r1] eqn:E1.
    destruct (run_ops ops h1 r1) as [[log1 h2] r2] eqn:E2. injection E as <- <- <-.
    apply (run_op_inbox _ _ _ _ _ _ ch) in E1 as [E1 _]. apply IH in E2.
    rewrite !bind_cons, app_assoc, E1, <- app_assoc, E2. by rewrite app_assoc.
Qed.

(** The router's issuer grants the access now. *)
Definition granted (h : store) (a : SharedIssuer) (cap : Capability.Capability) (ch : Z)
    (rt : Capability.Right) : Prop :=
  exists i, h !! a = Some i /\ Capability.authorizes i cap (Capability.Channel ch) rt = true.

Definition store_after (ops : list ipc_op) (h : store) (r : MessageRouter) : store :=
  let '(_, h', _) := run_ops ops h r in h'.
Definition router_after (ops : list ipc_op) (h : store) (r : MessageRouter) : MessageRouter :=
  let '(_, _, r') := run_ops ops h r in r'.

Lemma run_ops_snoc ops op h r :
  let '(o, h', r') := run_op op (store_after ops h r) (router_after ops h r) in
  store_after (ops ++ [op]) h r = h' /\ router_after (ops ++ [op]) h r = r'.
Proof.
  unfold store_after, router_after.
  revert h r. induction ops as [|x ops IH]; intros h r; simpl.
  - by destruct (run_op op h r) as [[o h'] r'].
  - destruct (run_op x h r) as [[o1 h1] r1]. specialize (IH h1 r1).
    destruct (run_ops ops h1 r1) as [[log h2] r2].
    destruct (run_ops (ops ++ [op]) h1 r1) as [[log' h3] r3]. exact IH.
Qed.

Lemma router_after_issuer ops h r : issuer (router_after ops h r) = issuer r.
Proof.
  induction ops as [|op ops IH] using rev_ind; [done|].
  assert (Hs := run_ops_snoc ops op h r).
  destruct (run_op op _ _) as [[o h'] r'] eqn:E. destruct Hs as [_ ->].
  apply (run_op_inbox _ _ _ _ _ _ 0) in E as [_ ->]. done.
Qed.

(** A message that is new in an inbox is the one the operation sent, under a
    grant. *)
Lemma run_op_new op h r o h' r' ch m :
  run_op op h r = (o, h', r') -> m ∈ inbox_of r' ch -> m ∉ inbox_of r ch ->
  channel m = ch /\ exists cap, op = Send cap m /\ granted h (issuer r) cap ch Capability.Write.
Proof.
  intros E Hin Hnot. destruct (run_op_inbox _ _ _ _ _ _ ch E) as [Hm _].
  assert (Hacc : m ∈ accepted ch (op, o)).
  { assert (Hx : m ∈ inbox_of r ch ++ accepted ch (op, o)) by (rewrite Hm; set_solver).
    apply elem_of_app in Hx as [?|?]; done. }
  unfold accepted in Hacc. destruct op as [| cap m'| | |]; try by apply not_elem_of_nil in Hacc.
  destruct o as [ms|e|]; try by apply not_elem_of_nil in Hacc.
  case_decide as Hc; [|by apply not_elem_of_nil in Hacc].
  apply list_elem_of_singleton in Hacc as ->. split; [done|]. exists cap. split; [done|].
  simpl in E. unfold send in E.
  destruct (shared_authorizes _ _ _ _ _) as [[]|e|] eqn:Ea; simplify_eq.
  apply shared_authorizes_inv in Ea as (i & Hi & Ha). by exists i.
Qed.

Lemma inbox_sent ops h a ch m :
  m ∈ inbox_of (router_after ops h (new a)) ch ->
  channel m = ch /\ exists p cap q, ops = p ++ Send cap m :: q /\
    granted (store_after p h (new a)) a cap ch Capability.Write.
Proof.
  induction ops as [|op ops IH] using rev_ind.
  { unfold inbox_of, router_after. simpl. rewrite lookup_empty. by intros ?%not_elem_of_nil. }
  intros Hin. assert (Hs := run_ops_snoc ops op h (new a)).
  destruct (run_op op _ _) as [[o h'] r'] eqn:E. destruct Hs as [_ Hr]. rewrite Hr in Hin.
  destruct (decide (m ∈ inbox_of (router_after ops h (new a)) ch)) as [Hold|Hnew].
  - destruct (IH Hold) as (Hc & p & cap & q & -> & Hg). split; [done|].
    exists p, cap, (q ++ [op]). by rewrite <- app_assoc.
  - destruct (run_op_new _ _ _ _ _ _ _ _ E Hin Hnew) as (Hc & cap & -> & Hg).
    rewrite router_after_issuer in Hg. split; [done|]. by exists ops, cap, [].
Qed.

(** ** Properties *)

(** On every channel of a router, whatever the interleaving of senders,
    receivers, registrations, mints and revocations, the messages delivered so
    far followed by the messages waiting are exactly the accepted messages in
    the order they were sent: nothing is lost, duplicated, reordered or
    delivered to another channel. *)
Theorem channels_are_fifo ops h a ch :
  let '(log, _, r) := run_ops ops h (new a) in
  (log ≫= accepted ch) = (log ≫= delivered ch) ++ inbox_of r ch.
Proof.
  destruct (run_ops ops h (new a)) as [[log h'] r] eqn:E.
  apply (run_ops_inbox _ _ _ _ _ _ ch) in E. unfold inbox_of in E at 1. simpl in E.
  by rewrite lookup_empty in E.
Qed.

(** After any history, whoever receives messages from a channel presents a
    token that is live and covers a read of that channel, and every message
    received was addressed to that channel and sent earlier by a client whose
    token, at that moment, was live and covered a write of it. *)
Theorem deliveries_are_authorized ops h a cap ch ms r :
  receive (store_after ops h (new a)) cap ch (router_after ops h (new a)) = (Ok ms, r) ->
  granted (store_after ops h (new a)) a cap ch Capability.Read /\
  forall m, m ∈ ms -> channel m = ch /\
    exists p cap' q, ops = p ++ Send cap' m :: q /\
      granted (store_after p h (new a)) a cap' ch Capability.Write.
Proof.
  intros E. unfold receive in E. rewrite router_after_issuer in E.
  destruct (shared_authorizes _ _ _ _ _) as [[]|e|] eqn:Ea; try done.
  destruct (inboxes _ !! ch) as [l|] eqn:El; [|done]. injection E as <- _.
  apply shared_authorizes_inv in Ea as (i & Hi & Ha). split; [by exists i|].
  intros m Hm. apply inbox_sent. unfold inbox_of. by rewrite El.
Qed.

Lemma deliveries_are_authorized_witness :
  let ops := [Register 7; Mint 0 (Capability.Channel 7) Capability.Write;
              Mint 0 (Capability.Channel 7) Capability.Read;
              Send (Capability.mkCap 0 (Capability.Channel 7) Capability.Write) (mkMsg 7 [x01])] in
  let h := [Capability.new] in
  let cap := Capability.mkCap 1 (Capability.Channel 7) Capability.Read in
  exists r, receive (store_after ops h (new 0)) cap 7 (router_after ops h (new 0))
              = (Ok [mkMsg 7 [x01]], r) /\
    granted (store_after ops h (new 0)) 0 cap 7 Capability.Read.
Proof.
  intros ops h cap. eexists. split; [reflexivity|].
  eapply (deliveries_are_authorized ops h 0 cap 7). reflexivity.
Defined.

End Ipc.
