(* ===== verification/Driver.v ===== *)
(** * Driver: the user-space driver framework
    ([crates/tpt-archon-kernel/src/driver.rs])

    A [DriverTask] is a [Task] of the scheduler whose world is the store of the
    issuers and the router the tasks share. *)
From Stdlib Require Import ZArith Lia Strings.Byte.
From stdpp Require Import base numbers option list gmap.
From S2P Require Import Prelude Capability Ipc Scheduler.

Module Driver.
Import Capability(store, SharedIssuer, shared_authorizes).
Import Ipc(Message, MessageRouter, mkMsg).
Import Scheduler(Poll, Pending, Ready, Task, poll).

Inductive DriverError : Type := InjectDenied.

(** What the tasks share. *)
Record kernel : Type := mkKernel { k_store : store; k_router : MessageRouter }.

(** The trait: [handle_interrupt] gets the router mutably, and may act on the
    issuers it holds handles to. *)
Class Driver (X : Type) : Type := {
  device : X -> Z;
  handle_interrupt : Message -> Capability.Capability -> X -> kernel -> list Message * X * kernel;
}.

(** ** The interrupt line *)

Record MockInterruptSource : Type := mkSource { queue : list Message }.

Definition source_new : MockInterruptSource := mkSource [].

(** [a || b] over checks that could panic. *)
Definition either {E} (a b : outcome E bool) : outcome E bool :=
  match a with Ok true => Ok true | Ok false => b | e => e end.

Definition inject (h : store) (a : SharedIssuer) (cap : Capability.Capability) (dev : Z)
    (msg : Message) : M MockInterruptSource DriverError unit := fun s =>
  match either (shared_authorizes h a cap (Capability.Device dev) Capability.Write)
               (shared_authorizes h a cap (Capability.Device dev) Capability.ReadWrite) with
  | Ok true => (Ok tt, mkSource (queue s ++ [msg]))
  | Ok false => (Err InjectDenied, s)
  | Err e => (Err e, s)
  | Panic => (Panic, s)
  end.

Definition pop_interrupt (s : MockInterruptSource) : option Message * MockInterruptSource :=
  match queue s with
  | [] => (None, s)
  | m :: q => (Some m, mkSource q)
  end.

Definition pending (s : MockInterruptSource) : bool := negb (bool_decide (queue s = [])).

(** ** Driver tasks *)

Section Task.
Context {X : Type} `{Driver X}.

(** The router field is the handle to the world's router. *)
Record DriverTask : Type := mkTask {
  driver : X;
  source : MockInterruptSource;
  cap : Capability.Capability;
}.

Definition new (src : MockInterruptSource) (c : Capability.Capability) (x : X) : DriverTask :=
  {| driver := x; source := src; cap := c |}.

(** The messages [handle_interrupt] returns are dropped. *)
Definition task_poll : Task kernel DriverTask := fun t k =>
  match pop_interrupt (source t) with
  | (Some msg, src) =>
      let '(_, x, k') := handle_interrupt msg (cap t) (driver t) k in
      (Pending, {| driver := x; source := src; cap := cap t |}, k')
  | (None, src) => (Ready, {| driver := driver t; source := src; cap := cap t |}, k)
  end.

#[export] Existing Instance task_poll.

Definition stand_up {E} (h : store) (a : SharedIssuer) (device_cap : Capability.Capability) (dev : Z)
    (src : MockInterruptSource) (response_cap : Capability.Capability) (x : X)
    : outcome E (option DriverTask) :=
  match either (shared_authorizes h a device_cap (Capability.Device dev) Capability.Read)
               (shared_authorizes h a device_cap (Capability.Device dev) Capability.ReadWrite) with
  | Ok true => Ok (Some (new src response_cap x))
  | Ok false => Ok None
  | Err e => Err e
  | Panic => Panic
  end.

(** The interrupts still to handle: every poll handles one. *)
Definition todo (t : DriverTask) : nat := length (queue (source t)).

Lemma task_exact : Scheduler.exact todo.
Proof.
  intros t k r t' k' E. unfold poll, task_poll, pop_interrupt in E. unfold todo.
  destruct (queue (source t)) as [|m q] eqn:Eq.
  - injection E as <- <- <-. done.
  - destruct (handle_interrupt m (cap t) (driver t) k) as [[ms x] k1].
    injection E as <- <- <-. done.
Qed.

(** The interrupts of one line handled in order. *)
Fixpoint handle_all (ms : list Message) (c : Capability.Capability) (x : X) (k : kernel)
    : X * kernel :=
  match ms with
  | [] => (x, k)
  | m :: ms' => let '(_, x', k') := handle_interrupt m c x k in handle_all ms' c x' k'
  end.

Lemma tick_driver m ms c x k i nx ms' x' k' :
  handle_interrupt m c x k = (ms', x', k') ->
  Scheduler.tick (Scheduler.mkSched [Scheduler.mkEntry i (mkTask x (mkSource (m :: ms)) c)] nx) k =
  (Some (i, Pending), Scheduler.mkSched [Scheduler.mkEntry i (mkTask x' (mkSource ms) c)] nx, k').
Proof. intros E. unfold Scheduler.tick. simpl. unfold poll, task_poll. simpl. by rewrite E. Qed.

Lemma run_single ms c x k n i :
  forall fuel nx, length ms + 1 < fuel ->
  Scheduler.run_loop fuel (Scheduler.mkSched [Scheduler.mkEntry i (mkTask x (mkSource ms) c)] nx) k n =
  Some (n + (length ms + 1), Scheduler.mkSched [] nx, snd (handle_all ms c x k)).
Proof.
  revert x k n. induction ms as [|m ms IH]; intros x k n fuel nx Hf; simpl in Hf.
  - destruct fuel as [|[|fuel]]; [lia|lia|]. simpl. reflexivity.
  - destruct fuel as [|fuel]; [lia|]. cbn [Scheduler.run_loop handle_all].
    destruct (handle_interrupt m c x k) as [[ms' x'] k'] eqn:Eh.
    rewrite (tick_driver _ _ _ _ _ _ _ _ _ _ Eh), (IH x' k' (n + 1) fuel nx) by lia. simpl. do 3 f_equal. lia.
Qed.

(** ** Properties *)

(** Any set of driver tasks, whatever their drivers do, runs to completion
    under the scheduler in exactly one tick per queued interrupt and one more
    per task; a single task has then handled its interrupts in arrival order. *)
Theorem drivers_run_to_completion (s : Scheduler.Scheduler DriverTask) k :
  let n := sum_list_with (fun e => S (todo (Scheduler.task e))) (Scheduler.ready s) in
  exists s' k', Scheduler.ready s' = [] /\
    Scheduler.run_to_completion (S n) s k = Some (n, s', k') /\
    forall i ms c x, Scheduler.ready s = [Scheduler.mkEntry i (mkTask x (mkSource ms) c)] ->
      k' = snd (handle_all ms c x k).
Proof.
  intros n. destruct (Scheduler.run_loop_exact todo (S n) s k 0 task_exact) as (s' & k' & E & Hr).
  { unfold n, Scheduler.work. lia. }
  exists s', k'. split; [done|]. split; [exact E|]. intros i ms c x Hs.
  destruct s as [rd nx]. simpl in Hs, n. subst rd.
  rewrite run_single in E by (unfold n, todo; simpl; lia). by injection E.
Qed.

(** An interrupt enters a device's line, at the end, exactly when the presented
    token is live and covers a write of the device, and a driver task is stood
    up exactly when the token is live and covers a read of it; otherwise
    nothing changes. *)
Theorem device_capability_gates h a i c dev msg s rc (x : X) :
  h !! a = Some i ->
  inject h a c dev msg s =
    (if decide (Capability.serial c ∈ Capability.live i /\
                Capability.resource c = Capability.Device dev /\
                Capability.right_ c <> Capability.Read)
     then (Ok tt, mkSource (queue s ++ [msg])) else (Err InjectDenied, s)) /\
  stand_up (E := Empty_set) h a c dev s rc x =
    Ok (if decide (Capability.serial c ∈ Capability.live i /\
                   Capability.resource c = Capability.Device dev /\
                   Capability.right_ c <> Capability.Write)
        then Some (mkTask x s rc) else None).
Proof.
  intros Hi. unfold inject, stand_up, shared_authorizes. rewrite Hi.
  assert (Hor : forall E rt,
    either (E := E) (Ok (Capability.authorizes i c (Capability.Device dev) rt))
      (Ok (Capability.authorizes i c (Capability.Device dev) Capability.ReadWrite)) =
    Ok (Capability.authorizes i c (Capability.Device dev) rt)).
  { intros E rt. rewrite <- (Capability.authorizes_or_rw i c (Capability.Device dev) rt) at 2.
    simpl. by destruct (Capability.authorizes i c _ rt). }
  rewrite !Hor, Capability.authorizes_write_dec, Capability.authorizes_read_dec.
  split; case_bool_decide; by case_decide.
Qed.

End Task.
Arguments DriverTask : clear implicits.

(** A driver that acknowledges every interrupt on its response channel. *)
Definition ack_driver : Driver Z := {|
  device x := x;
  handle_interrupt msg c x k :=
    let '(_, r) := Ipc.send (k_store k) c (mkMsg 9 (Ipc.payload msg)) (k_router k) in
    ([], x, mkKernel (k_store k) r)
|}.
#[local] Existing Instance ack_driver.

Lemma device_capability_gates_witness :
  let h := [Capability.mkIssuer 1 {[ 0%Z ]}] in
  inject h 0 (Capability.mkCap 0 (Capability.Device 7) Capability.Write) 7 (mkMsg 7 [x01]) source_new
  = (Ok tt, mkSource [mkMsg 7 [x01]]).
Proof.
  intros h.
  destruct (device_capability_gates h 0 (Capability.mkIssuer 1 {[ 0%Z ]})
    (Capability.mkCap 0 (Capability.Device 7) Capability.Write) 7 (mkMsg 7 [x01]) source_new
    (Capability.mkCap 0 (Capability.Device 7) Capability.Write) 7%Z) as [H _]; [reflexivity|].
  rewrite H. rewrite decide_True; [reflexivity|]. simpl. split; [set_solver|]. split; congruence.
Defined.

End Driver.
