(* ===== verification/Reactor.v ===== *)
(** * Reactor: the [io_uring] reactor and its tasks
    ([crates/tpt-archon-kernel/src/io_uring_backend.rs])

    The ring of the [io_uring] crate is a parameter: any implementation of its
    submission queue, [submit] and completion queue.  The kernel's writes into
    a read buffer are outside the program. *)
From Stdlib Require Import ZArith Lia Strings.Byte.
From stdpp Require Import base numbers option list gmap.
From S2P Require Import Prelude Scheduler.

Module Reactor.
Import Scheduler(Poll, Pending, Ready, Task, poll).

(** A submission entry: what [opcode::Read]/[opcode::Write] build. *)
Inductive Sqe : Type :=
| SqeRead (fd : Z) (len : Z) (offset : Z) (user_data : Z)
| SqeWrite (fd : Z) (buf : list byte) (len : Z) (offset : Z) (user_data : Z).

(** The operations of the ring: creating one with room for a number of entries
    may fail, [push] fails on a full queue, [submit] may fail,
    [completion] drains the completions, each with its user data and result. *)
Class IoUring (R : Type) : Type := {
  ring_new : Z -> outcome unit R;
  ring_push : Sqe -> R -> bool * R;
  ring_submit : R -> bool * R;
  ring_completion : R -> list (Z * Z) * R;
}.

Inductive IoOutcome : Type :=
| OPending
| ODone (res : Z).

Section Reactor.
Context {R : Type} `{IoUring R}.

(** The cell of an outcome is reachable only through the map. *)
Record Reactor : Type := mkReactor {
  ring : R;
  next_op_id : Z;
  pending : gmap Z IoOutcome;
}.

Definition new (entries : Z) : outcome unit Reactor :=
  match ring_new entries with
  | Ok r => Ok {| ring := r; next_op_id := 0; pending := ∅ |}
  | Err e => Err e
  | Panic => Panic
  end.

Definition with_ring (r : R) (x : Reactor) : Reactor :=
  {| ring := r; next_op_id := next_op_id x; pending := pending x |}.
Definition with_pending (p : gmap Z IoOutcome) (x : Reactor) : Reactor :=
  {| ring := ring x; next_op_id := next_op_id x; pending := p |}.

Definition next_id (x : Reactor) : Z * Reactor :=
  (next_op_id x,
   {| ring := ring x; next_op_id := wrap64 (next_op_id x + 1); pending := pending x |}).

(** The [while push(..).is_err()] loop, for at most [fuel] rounds: [None] when
    the queue was still full. *)
Fixpoint push (fuel : nat) (e : Sqe) (x : Reactor) : option Reactor :=
  match fuel with
  | O => None
  | S fuel' =>
      let '(ok, r) := ring_push e (ring x) in
      if ok then Some (with_ring r x)
      else let '(_, r') := ring_submit r in push fuel' e (with_ring r' x)
  end.

Definition submit (fuel : nat) (mk : Z -> Sqe) (x : Reactor) : option (Z * Reactor) :=
  let '(op_id, x1) := next_id x in
  x2 ← push fuel (mk op_id) x1;
  Some (op_id, with_pending (<[op_id := OPending]> (pending x2)) x2).

(** [buf.len() as u32]. *)
Definition submit_read (fuel : nat) (fd : Z) (buf : list byte) (offset : Z) (x : Reactor)
    : option (Z * Reactor) :=
  submit fuel (SqeRead fd (wrap32 (Z.of_nat (length buf))) offset) x.

Definition submit_write (fuel : nat) (fd : Z) (buf : list byte) (offset : Z) (x : Reactor)
    : option (Z * Reactor) :=
  submit fuel (SqeWrite fd buf (wrap32 (Z.of_nat (length buf))) offset) x.

(** The loop over the completions: the outcome of a known operation is taken
    out of the map before it is set. *)
Fixpoint reap (cqes : list (Z * Z)) (p : gmap Z IoOutcome) (completed : nat)
    : gmap Z IoOutcome * nat :=
  match cqes with
  | [] => (p, completed)
  | (op_id, _) :: cqes' => reap cqes' (delete op_id p) (completed + 1)
  end.

(** [Err] when [submit] fails. *)
Definition poll_completions (x : Reactor) : outcome unit nat * Reactor :=
  let '(ok, r) := ring_submit (ring x) in
  if ok then
    let '(cqes, r') := ring_completion r in
    let '(p, completed) := reap cqes (pending x) 0 in
    (Ok completed, with_pending p (with_ring r' x))
  else (Err tt, with_ring r x).

Definition take_result (x : Reactor) (op_id : Z) : option Z :=
  match pending x !! op_id with
  | Some (ODone res) => Some res
  | Some OPending => None
  | None => None
  end.

(** ** Tasks *)

Inductive Phase : Type :=
| NotSubmitted
| Submitted (op_id : Z)
| Done (res : Z).

(** [IoReadTask] and [IoWriteTask]. *)
Inductive IoTask : Type :=
| IoReadTask (fd : Z) (offset : Z) (buf : list byte) (phase : Phase)
| IoWriteTask (fd : Z) (offset : Z) (buf : list byte) (phase : Phase).

Definition read_new (fd offset : Z) (len : nat) : IoTask :=
  IoReadTask fd offset (replicate len x00) NotSubmitted.
Definition write_new (fd offset : Z) (data : list byte) : IoTask :=
  IoWriteTask fd offset data NotSubmitted.

Definition phase (t : IoTask) : Phase :=
  match t with IoReadTask _ _ _ p => p | IoWriteTask _ _ _ p => p end.

Definition set_phase (p : Phase) (t : IoTask) : IoTask :=
  match t with
  | IoReadTask fd off buf _ => IoReadTask fd off buf p
  | IoWriteTask fd off buf _ => IoWriteTask fd off buf p
  end.

(** [result()] panics before completion. *)
Definition result (t : IoTask) : outcome Empty_set Z :=
  match phase t with Done res => Ok res | _ => Panic end.

Definition submit_task (fuel : nat) (t : IoTask) (x : Reactor) : option (Z * Reactor) :=
  match t with
  | IoReadTask fd off buf _ => submit_read fuel fd buf off x
  | IoWriteTask fd off buf _ => submit_write fuel fd buf off x
  end.

(** The two [poll]s, which are the same but for the entry they submit.  A
    submission loop that does not end leaves the task as it is. *)
Definition io_poll (fuel : nat) : Task Reactor IoTask := fun t x =>
  match phase t with
  | NotSubmitted =>
      match submit_task fuel t x with
      | Some (op_id, x1) =>
          let '(_, x2) := poll_completions x1 in (Pending, set_phase (Submitted op_id) t, x2)
      | None => (Pending, t, x)
      end
  | Submitted op_id =>
      let '(_, x1) := poll_completions x in
      match take_result x1 op_id with
      | Some res => (Ready, set_phase (Done res) t, x1)
      | None => (Pending, t, x1)
      end
  | Done _ => (Ready, t, x)
  end.

(** ** No operation is ever seen to complete *)

(** The invariant of the map: it holds no [ODone]. *)
Definition no_done (x : Reactor) : Prop :=
  forall op_id o, pending x !! op_id = Some o -> o = OPending.

Definition not_done (t : IoTask) : Prop := forall res, phase t <> Done res.

Lemma reap_no_done cqes p n :
  (forall op_id o, p !! op_id = Some o -> o = OPending) ->
  forall op_id o, fst (reap cqes p n) !! op_id = Some o -> o = OPending.
Proof.
  revert p n. induction cqes as [|[i res] cqes IH]; intros p n Hp; simpl; [done|].
  apply IH. intros op_id o [_ Ho]%lookup_delete_Some. by eapply Hp.
Qed.

Lemma poll_completions_no_done x r x' :
  no_done x -> poll_completions x = (r, x') -> no_done x'.
Proof.
  intros Hx E. unfold poll_completions in E. destruct (ring_submit (ring x)) as [[] rg].
  - destruct (ring_completion rg) as [cqes rg'].
    assert (Hr := reap_no_done cqes (pending x) 0 Hx).
    destruct (reap cqes (pending x) 0) as [p n]. by injection E as <- <-.
  - by injection E as <- <-.
Qed.

Lemma push_pending fuel e x x' : push fuel e x = Some x' -> pending x' = pending x.
Proof.
  revert x. induction fuel as [|fuel IH]; intros x E; simpl in E; [done|].
  destruct (ring_push e (ring x)) as [[] r].
  - by injection E as <-.
  - destruct (ring_submit r) as [b r']. by apply IH in E as ->.
Qed.

Lemma submit_no_done fuel mk x i x' :
  no_done x -> submit fuel mk x = Some (i, x') -> no_done x'.
Proof.
  intros Hx E. unfold submit in E. simpl in E.
  destruct (push fuel _ _) as [x2|] eqn:Ep; [|done]. apply push_pending in Ep.
  simpl in E. injection E as <- <-. intros op_id o. simpl. rewrite Ep. simpl.
  intros [[_ <-]|[_ Ho]]%lookup_insert_Some; [done|]. by eapply Hx.
Qed.

Lemma io_poll_pending fuel t x :
  no_done x -> not_done t ->
  exists t' x', io_poll fuel t x = (Pending, t', x') /\ no_done x' /\ not_done t'.
Proof.
  intros Hx Ht. unfold io_poll. destruct (phase t) as [|op_id|res] eqn:Ep.
  - destruct (submit_task fuel t x) as [[i x1]|] eqn:Es.
    + assert (H1 : no_done x1).
      { destruct t; by eapply submit_no_done. }
      destruct (poll_completions x1) as [r x2] eqn:Ec.
      exists (set_phase (Submitted i) t), x2. split; [done|].
      split; [by eapply poll_completions_no_done|]. by destruct t.
    + by exists t, x.
  - destruct (poll_completions x) as [r x1] eqn:Ec.
    assert (H1 := poll_completions_no_done _ _ _ Hx Ec). unfold take_result.
    destruct (pending x1 !! op_id) as [o|] eqn:Eo.
    + rewrite (H1 _ _ Eo). by exists t, x1.
    + by exists t, x1.
  - exfalso. by eapply Ht.
Qed.

Definition queue_ok (s : Scheduler.Scheduler IoTask) : Prop :=
  Forall (fun e => not_done (Scheduler.task e)) (Scheduler.ready s).

Lemma tick_pending fuel (s : Scheduler.Scheduler IoTask) x e q :
  no_done x -> queue_ok s -> Scheduler.ready s = e :: q ->
  exists s' x', Scheduler.tick (H := io_poll fuel) s x = (Some (Scheduler.id e, Pending), s', x') /\
    no_done x' /\ queue_ok s' /\ length (Scheduler.ready s') = length (Scheduler.ready s).
Proof.
  intros Hx Hs Hq. unfold queue_ok in *. rewrite Hq in *. apply Forall_cons_1 in Hs as [He Hs].
  destruct (io_poll_pending fuel (Scheduler.task e) x Hx He) as (t' & x' & E & Hx' & Ht').
  unfold Scheduler.tick, poll. rewrite Hq, E. simpl.
  eexists _, _. split; [reflexivity|]. simpl. split; [done|]. split.
  - apply Forall_app. split; [done|]. by apply Forall_singleton.
  - rewrite length_app. simpl. lia.
Qed.

(** Whatever the ring reports, a reactor that started empty never hands a
    completion to its tasks: every tick of a scheduler of I/O tasks reports
    [Pending], so [run_to_completion] does not return for any fuel as long as
    one I/O task was spawned. *)
Theorem io_tasks_never_complete pf (s : Scheduler.Scheduler IoTask) entries x fuel :
  new entries = Ok x ->
  Forall (fun e => phase (Scheduler.task e) = NotSubmitted) (Scheduler.ready s) ->
  Scheduler.ready s <> [] ->
  Forall (fun o => snd o = Pending) (fst (fst (Scheduler.ticks (H := io_poll pf) fuel s x))) /\
  Scheduler.run_to_completion (H := io_poll pf) fuel s x = None.
Proof.
  intros Hnew Hn Hne.
  assert (Hx : no_done x).
  { unfold new in Hnew. destruct (ring_new entries); simplify_eq. intros i o Hi. simpl in Hi.
    by rewrite lookup_empty in Hi. }
  assert (Hs : queue_ok s).
  { eapply Forall_impl; [exact Hn|]. intros e He res. by rewrite He. }
  clear Hn Hnew. unfold Scheduler.run_to_completion. generalize 0 at 1. revert x s Hs Hne Hx.
  induction fuel as [|fuel IH]; intros x s Hs Hne Hx n; simpl; [done|].
  destruct (Scheduler.ready s) as [|e q] eqn:Eq; [done|].
  destruct (tick_pending pf s x e q Hx Hs Eq) as (s1 & x1 & E & Hx1 & Hs1 & Hl).
  rewrite E. assert (Hne1 : Scheduler.ready s1 <> []).
  { intros Hr. rewrite Hr, Eq in Hl. discriminate Hl. }
  destruct (IH x1 s1 Hs1 Hne1 Hx1 (n + 1)) as [H1 H2]. split; [|exact H2].
  destruct (Scheduler.ticks fuel s1 x1) as [[os s2] x2]. simpl in *. by apply Forall_cons.
Qed.

End Reactor.
Arguments Reactor : clear implicits.

(** A ring that completes every submitted operation at once. *)
Definition eager_ring : IoUring (list Z * list Z) := {|
  ring_new _ := Ok ([], []);
  ring_push e r := (true, (fst r ++ [match e with SqeRead _ _ _ u => u | SqeWrite _ _ _ _ u => u end], snd r));
  ring_submit r := (true, ([], snd r ++ fst r));
  ring_completion r := (map (fun u => (u, 8%Z)) (snd r), (fst r, []));
|}.
#[local] Existing Instance eager_ring.

Lemma io_tasks_never_complete_witness :
  let s := Scheduler.mkSched [Scheduler.mkEntry 0 (read_new 3 0 8)] 1 in
  Scheduler.run_to_completion (H := io_poll 1) 1000 s (mkReactor ([], []) 0 ∅) = None.
Proof.
  intros s. refine (proj2 (io_tasks_never_complete 1 s 8 (mkReactor ([], []) 0 ∅) 1000 eq_refl _ _)).
  - apply Forall_singleton. reflexivity.
  - discriminate.
Defined.

End Reactor.
