(* ===== verification/Mvcc.v ===== *)
(** * Mvcc: the multi-version store with optimistic validation
    ([crates/tpt-archon-relational/src/mvcc.rs])

    A [BTreeMap] is a [gmap]: the loops over the buffered writes push one
    version on the chain of each written key, whatever the order.  [commit]
    consumes the transaction, so the flag it sets is not seen by anyone. *)
From Stdlib Require Import ZArith Lia Strings.Byte.
From stdpp Require Import base numbers option list gmap sorting.
From S2P Require Import Prelude.

Module Mvcc.

Abbreviation bytes := (list byte).

Record Version : Type := mkVersion { commit_ts : Z; value : bytes }.

Record MvccStore : Type := mkStore { versions : gmap Z (list Version); clock : Z }.

Record Transaction : Type := mkTxn {
  snapshot : Z;
  reads : list Z;
  writes : gmap Z bytes;
  committed : bool;
}.

Inductive CommitError : Type := Conflict.

Definition new : MvccStore := {| versions := ∅; clock := 0 |}.

Definition get_write (t : Transaction) (key : Z) : option bytes := writes t !! key.

(** A [BTreeMap] iterates in the order of its keys. *)
Definition key_le (a b : Z * bytes) : Prop := (a.1 <= b.1)%Z.
#[global] Instance key_le_dec a b : Decision (key_le a b) := Z_le_dec a.1 b.1.
Definition writes_iter (t : Transaction) : list (Z * bytes) := merge_sort key_le (map_to_list (writes t)).

Definition begin_ (s : MvccStore) : Transaction :=
  {| snapshot := clock s; reads := []; writes := ∅; committed := false |}.

(** [chain.iter().rev().find(|v| v.commit_ts <= as_of)]. *)
Definition find_version (chain : list Version) (as_of : Z) : option Version :=
  List.find (fun v => (commit_ts v <=? as_of)%Z) (rev chain).

Definition visible_value (s : MvccStore) (key as_of : Z) : option bytes :=
  chain ← versions s !! key;
  value <$> find_version chain as_of.

Definition read (s : MvccStore) (t : Transaction) (key : Z) : option bytes * Transaction :=
  let t' := {| snapshot := snapshot t; reads := reads t ++ [key]; writes := writes t;
               committed := committed t |} in
  (match writes t' !! key with
   | Some v => Some v
   | None => visible_value s key (snapshot t')
   end, t').

Definition write (t : Transaction) (key : Z) (v : bytes) : Transaction :=
  {| snapshot := snapshot t; reads := reads t; writes := <[key := v]> (writes t);
     committed := committed t |}.

Definition latest_commit_ts (s : MvccStore) (key : Z) : option Z :=
  chain ← versions s !! key; commit_ts <$> last chain.

(** The validation loop stops at the first key with a version newer than the
    snapshot. *)
Fixpoint validate (s : MvccStore) (snap : Z) (keys : list Z) : bool :=
  match keys with
  | [] => true
  | key :: keys' =>
      match latest_commit_ts s key with
      | Some latest => if (snap <? latest)%Z then false else validate s snap keys'
      | None => validate s snap keys'
      end
  end.

(** [versions.entry(key).or_default().push(..)]. *)
Definition push_version (ts : Z) (vs : gmap Z (list Version)) (kv : Z * bytes)
    : gmap Z (list Version) :=
  <[kv.1 := default [] (vs !! kv.1) ++ [mkVersion ts kv.2]]> vs.

(** The clock is a [u64]. *)
Definition commit (t : Transaction) : M MvccStore CommitError Z := fun s =>
  if validate s (snapshot t) (reads t ++ map fst (map_to_list (writes t))) then
    let ts := wrap64 (clock s + 1) in
    (Ok ts, {| versions := foldl (push_version ts) (versions s) (map_to_list (writes t));
               clock := ts |})
  else (Err Conflict, s).

Definition latest (s : MvccStore) (key : Z) : option bytes :=
  chain ← versions s !! key; value <$> last chain.

(** ** Concurrent transactions

    Clients open transactions, read, write and commit in any interleaving.  The
    system remembers what each transaction saw and did, and the committed
    transactions in commit order. *)
Inductive event : Type :=
| LRead (key : Z) (result : option bytes)
| LWrite (key : Z) (v : bytes).

Record system : Type := mkSys {
  store : MvccStore;
  open : gmap nat (Transaction * list event);
  history : list (list event);
}.

Definition init : system := {| store := new; open := ∅; history := [] |}.

Inductive op : Type :=
| OBegin (t : nat)
| ORead (t : nat) (key : Z)
| OWrite (t : nat) (key : Z) (v : bytes)
| OCommit (t : nat)
| OAbort (t : nat).

(** Operations on a transaction that is not open do nothing; [OBegin] on an open
    one replaces it. *)
Definition exec (o : op) (y : system) : system :=
  match o with
  | OBegin t => mkSys (store y) (<[t := (begin_ (store y), [])]> (open y)) (history y)
  | ORead t key =>
      match open y !! t with
      | Some (x, log) =>
          let '(r, x') := read (store y) x key in
          mkSys (store y) (<[t := (x', log ++ [LRead key r])]> (open y)) (history y)
      | None => y
      end
  | OWrite t key v =>
      match open y !! t with
      | Some (x, log) =>
          mkSys (store y) (<[t := (write x key v, log ++ [LWrite key v])]> (open y)) (history y)
      | None => y
      end
  | OCommit t =>
      match open y !! t with
      | Some (x, log) =>
          match commit x (store y) with
          | (Ok _, s') => mkSys s' (delete t (open y)) (history y ++ [log])
          | (_, s') => mkSys s' (delete t (open y)) (history y)
          end
      | None => y
      end
  | OAbort t => mkSys (store y) (delete t (open y)) (history y)
  end.

Definition run (os : list op) : system := foldl (fun y o => exec o y) init os.

(** ** The serial specification

    A transaction run alone on a plain map: its writes are buffered, a read
    sees the buffer first.  [replay] gives the buffer at the end if every read
    returned what the log says. *)
Abbreviation db := (gmap Z bytes).

Fixpoint replay (m : db) (log : list event) (buf : db) : option db :=
  match log with
  | [] => Some buf
  | LRead key r :: log' =>
      if decide (r = match buf !! key with Some v => Some v | None => m !! key end)
      then replay m log' buf else None
  | LWrite key v :: log' => replay m log' (<[key := v]> buf)
  end.

(** The transactions one after the other. *)
Fixpoint serial (hist : list (list event)) (m : db) : option db :=
  match hist with
  | [] => Some m
  | log :: hist' => buf ← replay m log ∅; serial hist' (buf ∪ m)
  end.

Definition written (log : list event) (key : Z) : Prop := exists v, LWrite key v ∈ log.
Definition touched (log : list event) (key : Z) : Prop :=
  written log key \/ exists r, LRead key r ∈ log.

End Mvcc.
