(* ===== verification/MvccProof.v ===== *)
(** * MvccProof: committed transactions are serializable in commit order

    The invariant [inv] ties the version chains to the states of the serial
    specification; the properties follow for every interleaving. *)
From Stdlib Require Import ZArith Lia Strings.Byte.
From stdpp Require Import base numbers option list gmap.
From S2P Require Import Prelude Mvcc.
Import Mvcc.

(** ** Replaying logs *)

Lemma replay_app m l1 l2 buf : replay m (l1 ++ l2) buf = (b ← replay m l1 buf; replay m l2 b).
Proof.
  revert buf. induction l1 as [|[key r|key v] l1 IH]; intros buf; simpl; [done| |apply IH].
  case_decide; [apply IH|done].
Qed.

Lemma replay_ext m m' log buf :
  (forall key r, LRead key r ∈ log -> m !! key = m' !! key) -> replay m log buf = replay m' log buf.
Proof.
  revert buf. induction log as [|[key r|key v] log IH]; intros buf Hm; simpl; [done| |].
  - rewrite (Hm key r) by left. case_decide; [|done]. apply IH. intros k r' Hk.
    apply (Hm k r'). by right.
  - apply IH. intros k r Hk. apply (Hm k r). by right.
Qed.

Lemma replay_written m log buf buf' key :
  replay m log buf = Some buf' -> (is_Some (buf' !! key) <-> is_Some (buf !! key) \/ written log key).
Proof.
  unfold written.
  revert buf. induction log as [|[k r|k v] log IH]; intros buf E; simpl in E.
  - injection E as <-. split; [by left|]. intros [?|[v Hv]]; [done|by apply not_elem_of_nil in Hv].
  - case_decide; [|done]. rewrite (IH _ E). split; intros [H1|[v Hv]]; try by left.
    + right. exists v. by right.
    + right. exists v. by apply elem_of_cons in Hv as [?|?].
  - rewrite (IH _ E). rewrite lookup_insert_is_Some'. split.
    + intros [[->|H1]|[w Hw]]; [right; exists v; left|by left|right; exists w; by right].
    + intros [H1|[w Hw]]; [by left; right|].
      apply elem_of_cons in Hw as [[= -> ->]|Hw]; [by left; left|right; by exists w].
Qed.

Lemma serial_app h log m :
  serial (h ++ [log]) m = (m' ← serial h m; buf ← replay m' log ∅; Some (buf ∪ m')).
Proof.
  revert m. induction h as [|l h IH]; intros m; simpl; [done|].
  destruct (replay m l ∅) as [buf|]; simpl; [apply IH|done].
Qed.

(** ** Version chains *)

Lemma find_version_snoc chain v as_of :
  find_version (chain ++ [v]) as_of =
  if (commit_ts v <=? as_of)%Z then Some v else find_version chain as_of.
Proof. unfold find_version. by rewrite rev_app_distr. Qed.

(** A chain whose last version is old enough shows it. *)
Lemma find_version_last chain v as_of :
  last chain = Some v -> (commit_ts v <= as_of)%Z -> find_version chain as_of = Some v.
Proof.
  intros Hl Hv. apply last_Some in Hl as [l ->]. rewrite find_version_snoc.
  by rewrite (proj2 (Z.leb_le _ _) Hv).
Qed.

Lemma foldl_push ts l vs key :
  NoDup l.*1 ->
  foldl (push_version ts) vs l !! key =
  match (list_to_map l : db) !! key with
  | Some v => Some (default [] (vs !! key) ++ [mkVersion ts v])
  | None => vs !! key
  end.
Proof.
  revert vs. induction l as [|[k v] l IH]; intros vs Hnd; simpl; [by rewrite lookup_empty|].
  apply NoDup_cons in Hnd as [Hk Hnd]. rewrite IH by done. unfold push_version. simpl.
  destruct (decide (k = key)) as [->|Hne].
  - rewrite !lookup_insert_eq. by rewrite (not_elem_of_list_to_map_1 l key Hk).
  - by rewrite !lookup_insert_ne.
Qed.

Lemma commit_versions x s r s' key :
  commit x s = (r, s') ->
  match r with
  | Ok ts => ts = wrap64 (clock s + 1) /\ clock s' = ts /\
      versions s' !! key = match writes x !! key with
                           | Some v => Some (default [] (versions s !! key) ++ [mkVersion ts v])
                           | None => versions s !! key
                           end
  | _ => s' = s
  end.
Proof.
  unfold commit. case_match; intros E; injection E as <- <-; [|done].
  split; [done|]. split; [done|]. simpl. rewrite foldl_push by apply NoDup_fst_map_to_list.
  by rewrite list_to_map_to_list.
Qed.

(** Validation looks for a newer version of some key. *)
Lemma validate_false s snap keys :
  validate s snap keys = false <->
  exists key ts, key ∈ keys /\ latest_commit_ts s key = Some ts /\ (snap < ts)%Z.
Proof.
  induction keys as [|k keys IH]; simpl.
  { split; [done|]. intros (key & ts & Hk & _). by apply not_elem_of_nil in Hk. }
  destruct (latest_commit_ts s k) as [l|] eqn:El; [destruct (Z.ltb_spec snap l)|].
  - split; [|done]. intros _. exists k, l. split; [by left|done].
  - rewrite IH. split; intros (key & ts & Hk & Ht & Hs).
    + exists key, ts. split; [by right|done].
    + apply elem_of_cons in Hk as [->|Hk]; [simplify_eq; lia|]. by exists key, ts.
  - rewrite IH. split; intros (key & ts & Hk & Ht & Hs).
    + exists key, ts. split; [by right|done].
    + apply elem_of_cons in Hk as [->|Hk]; [congruence|]. by exists key, ts.
Qed.

(** ** The invariant *)

(** State [n]: the serial state after the first [n] committed transactions. *)
Definition state_at (h : list (list event)) (n : nat) (m : db) : Prop :=
  n <= length h /\ serial (take n h) ∅ = Some m.

Record txn_ok (h : list (list event)) (x : Transaction) (log : list event) : Prop := {
  tx_replay : exists n m, snapshot x = Z.of_nat n /\ state_at h n m /\ replay m log ∅ = Some (writes x);
  tx_reads : forall key, key ∈ reads x <-> exists r, LRead key r ∈ log;
}.

Record inv (y : system) : Prop := {
  inv_clock : clock (store y) = Z.of_nat (length (history y));
  inv_state : forall n, n <= length (history y) ->
    exists m, state_at (history y) n m /\ forall key, visible_value (store y) key (Z.of_nat n) = m !! key;
  inv_last : forall key chain, versions (store y) !! key = Some chain ->
    exists v, last chain = Some v /\
      forall n log, history y !! n = Some log -> written log key -> (Z.of_nat n < commit_ts v)%Z;
  inv_chain : forall key chain v, versions (store y) !! key = Some chain -> v ∈ chain ->
    exists n log, commit_ts v = Z.of_nat (S n) /\ history y !! n = Some log /\ written log key;
  inv_dom : forall n log key, history y !! n = Some log -> written log key ->
    is_Some (versions (store y) !! key);
  inv_open : forall t x log, open y !! t = Some (x, log) -> txn_ok (history y) x log;
}.

Lemma state_at_unique h n m m' : state_at h n m -> state_at h n m' -> m = m'.
Proof. intros [_ H1] [_ H2]. congruence. Qed.

(** The newest version of a key is not newer than the clock. *)
Lemma latest_le_clock y key ts :
  inv y -> latest_commit_ts (store y) key = Some ts -> (ts <= clock (store y))%Z.
Proof.
  intros Hy E. unfold latest_commit_ts in E.
  destruct (versions (store y) !! key) as [chain|] eqn:Ec; [|done]. simpl in E.
  destruct (last chain) as [v|] eqn:El; [|done]. injection E as <-.
  destruct (inv_chain y Hy key chain v Ec) as (n & log & -> & Hn & _).
  { apply last_Some in El as [l ->]. set_solver. }
  rewrite (inv_clock y Hy). apply lookup_lt_Some in Hn. lia.
Qed.

(** A snapshot that is not older than the newest version of a key shows the
    newest value. *)
Lemma visible_latest s key as_of :
  (forall ts, latest_commit_ts s key = Some ts -> (ts <= as_of)%Z) ->
  (forall chain, versions s !! key = Some chain -> chain <> []) ->
  visible_value s key as_of = latest s key.
Proof.
  intros Ht Hne. unfold visible_value, latest, latest_commit_ts in *.
  destruct (versions s !! key) as [chain|]; simpl in *; [|done].
  destruct (last chain) as [v|] eqn:El; simpl in *.
  - rewrite (find_version_last _ _ _ El); [done|]. by apply Ht.
  - apply last_None in El. by destruct (Hne chain).
Qed.

Lemma chains_nonempty y key chain : inv y -> versions (store y) !! key = Some chain -> chain <> [].
Proof.
  intros Hy E. destruct (inv_last y Hy key chain E) as (v & Hv & _).
  destruct chain; [discriminate Hv|discriminate].
Qed.

(** A transaction that validates replays on the current state. *)
Lemma replay_now y x log m :
  inv y -> txn_ok (history y) x log ->
  validate (store y) (snapshot x) (reads x ++ map fst (map_to_list (writes x))) = true ->
  state_at (history y) (length (history y)) m -> replay m log ∅ = Some (writes x).
Proof.
  intros Hy [(n & m0 & Hsn & Hst & Hrep) Hreads] Hval Hm. rewrite <- Hrep. symmetry.
  destruct (inv_state y Hy n (proj1 Hst)) as (m1 & H1 & Hv1).
  assert (m1 = m0) as -> by by eapply state_at_unique.
  destruct (inv_state y Hy _ (proj1 Hm)) as (m2 & H2 & Hv2).
  assert (m2 = m) as -> by by eapply state_at_unique.
  apply replay_ext. intros key r Hin. rewrite <- Hv1, <- Hv2.
  assert (Hold : forall ts, latest_commit_ts (store y) key = Some ts -> (ts <= Z.of_nat n)%Z).
  { intros ts Hts. destruct (Z.le_gt_cases ts (Z.of_nat n)) as [?|Hgt]; [done|]. exfalso.
    apply not_false_iff_true in Hval. apply Hval, validate_false. exists key, ts.
    split; [|split; [done|lia]]. apply elem_of_app. left. apply Hreads. by exists r. }
  rewrite !visible_latest; try done; try (intros chain Hc; by eapply chains_nonempty).
  intros ts Hts. specialize (Hold ts Hts). apply (latest_le_clock y key ts Hy) in Hts.
  rewrite (inv_clock y Hy) in Hts. lia.
Qed.

(** ** Preservation *)

Lemma init_inv : inv init.
Proof.
  split; simpl; try done.
  - intros n Hn. assert (n = 0) as -> by lia. exists ∅. split; [done|]. intros key.
    unfold visible_value. simpl. by rewrite lookup_empty.
Qed.

(** The store and the history are unchanged. *)
Lemma inv_open_change y o :
  inv y -> (forall t x log, o !! t = Some (x, log) -> txn_ok (history y) x log) ->
  inv (mkSys (store y) o (history y)).
Proof. intros [H1 H2 H3 H4 H5 H6] Ho. by split. Qed.

Lemma state_at_app h log n m : state_at h n m -> state_at (h ++ [log]) n m.
Proof.
  intros [Hn Hs]. split; [rewrite length_app; lia|]. by rewrite take_app_le.
Qed.

Lemma txn_ok_app h log0 x log : txn_ok h x log -> txn_ok (h ++ [log0]) x log.
Proof.
  intros [(n & m & H1 & H2 & H3) Hr]. split; [|done]. exists n, m. split_and!; [done| |done].
  by apply state_at_app.
Qed.

Lemma elem_of_snoc {A} (l : list A) x y : x ∈ l ++ [y] <-> x ∈ l \/ x = y.
Proof. set_solver. Qed.

Lemma read_ok y x log key r x' :
  inv y -> txn_ok (history y) x log -> read (store y) x key = (r, x') ->
  txn_ok (history y) x' (log ++ [LRead key r]).
Proof.
  intros Hy [(n & m & Hsn & Hst & Hrep) Hreads] E. unfold read in E. simpl in E.
  injection E as <- <-. split; simpl.
  - exists n, m. split_and!; [done|done|]. rewrite replay_app, Hrep. simpl.
    destruct (inv_state y Hy n (proj1 Hst)) as (m1 & H1 & Hv).
    assert (m1 = m) as -> by by eapply state_at_unique.
    rewrite Hsn, Hv. by rewrite decide_True.
  - intros k. rewrite elem_of_snoc, Hreads. split.
    + intros [[r Hr]| ->]; eexists; apply elem_of_snoc; [left; exact Hr|by right].
    + intros [r [Hr|[= -> _]]%elem_of_snoc]; [left; by exists r|by right].
Qed.

Lemma write_ok h x log key v :
  txn_ok h x log -> txn_ok h (write x key v) (log ++ [LWrite key v]).
Proof.
  intros [(n & m & Hsn & Hst & Hrep) Hreads]. split; simpl.
  - exists n, m. split_and!; [done|done|]. by rewrite replay_app, Hrep.
  - intros k. rewrite Hreads. split.
    + intros [r Hr]. exists r. apply elem_of_snoc. by left.
    + intros [r [Hr|[=]]%elem_of_snoc]. by exists r.
Qed.

Lemma lookup_snoc_inv {A} (h : list A) x n y :
  (h ++ [x]) !! n = Some y -> h !! n = Some y \/ (n = length h /\ y = x).
Proof.
  intros E. destruct (decide (n < length h)) as [Hn|Hn].
  - left. by rewrite lookup_app_l in E.
  - rewrite lookup_app_r in E by lia. apply list_lookup_singleton_Some in E as [He ->].
    right. split; [lia|done].
Qed.

(** ** A commit that validates *)

Section Commit.
  Context (y : system) (x : Transaction) (log : list event) (ts : Z) (s' : MvccStore).
  Context (Hy : inv y) (Hx : txn_ok (history y) x log).
  Context (Hb : (Z.of_nat (S (length (history y))) < 2 ^ 64)%Z).
  Context (E : commit x (store y) = (Ok ts, s')).

Lemma commit_stamp : ts = Z.of_nat (S (length (history y))).
Proof.
  destruct (commit_versions _ _ _ _ 0 E) as (-> & _ & _). rewrite (inv_clock y Hy).
  unfold wrap64. rewrite Z.mod_small by lia. lia.
Qed.

(** The values seen at a timestamp. *)
Lemma commit_visible n key :
  n <= S (length (history y)) ->
  visible_value s' key (Z.of_nat n) =
  if decide (n = S (length (history y)))
  then match writes x !! key with
       | Some v => Some v
       | None => visible_value (store y) key (Z.of_nat (length (history y)))
       end
  else visible_value (store y) key (Z.of_nat n).
Proof.
  intros Hn. assert (Hts := commit_stamp).
  destruct (commit_versions _ _ _ _ key E) as (_ & _ & Hv).
  destruct (writes x !! key) as [v|] eqn:Ew.
  - unfold visible_value at 1. rewrite Hv. simpl. rewrite find_version_snoc. simpl commit_ts.
    case_decide as Hd.
    + subst n. by rewrite (proj2 (Z.leb_le _ _)) by lia.
    + rewrite (proj2 (Z.leb_gt _ _)) by lia. unfold visible_value.
      by destruct (versions (store y) !! key).
  - assert (Hsame : forall a, visible_value s' key a = visible_value (store y) key a).
    { intros a. unfold visible_value. by rewrite Hv. }
    rewrite Hsame. case_decide as Hd; [|done]. subst n.
    rewrite !visible_latest; try done; try (intros chain Hc; by eapply chains_nonempty);
      intros ts' Hts'; apply (latest_le_clock y key ts' Hy) in Hts';
      rewrite (inv_clock y Hy) in Hts'; lia.
Qed.

Lemma commit_replays m :
  state_at (history y) (length (history y)) m -> replay m log ∅ = Some (writes x).
Proof.
  apply replay_now; [done|done|]. unfold commit in E. by destruct (validate _ _ _).
Qed.

Lemma commit_written key : is_Some (writes x !! key) <-> written log key.
Proof.
  destruct (inv_state y Hy (length (history y))) as (m & Hm & _); [done|].
  rewrite (replay_written _ _ _ _ key (commit_replays m Hm)), lookup_empty.
  split; [intros [[? [=]]|?]; done|by right].
Qed.

Lemma commit_states n :
  n <= S (length (history y)) ->
  exists m, state_at (history y ++ [log]) n m /\
    forall key, visible_value s' key (Z.of_nat n) = m !! key.
Proof.
  intros Hn. assert (Hvis := fun key => commit_visible n key Hn).
  destruct (decide (n = S (length (history y)))) as [->|Hne].
  - destruct (inv_state y Hy (length (history y))) as (m & Hm & Hvm); [done|].
    assert (Hser : serial (history y) ∅ = Some m)
      by (rewrite <- (firstn_all (history y)); apply Hm).
    exists (writes x ∪ m). split.
    + split; [rewrite length_app; simpl; lia|].
      rewrite take_ge by (rewrite length_app; simpl; lia). rewrite serial_app, Hser. simpl.
      by rewrite (commit_replays m Hm).
    + intros key. rewrite Hvis, Hvm, lookup_union.
      destruct (writes x !! key), (m !! key); done.
  - destruct (inv_state y Hy n) as (m1 & H1 & Hv1); [lia|]. exists m1.
    split; [by apply state_at_app|]. intros key. rewrite Hvis. apply Hv1.
Qed.

Lemma commit_chains key chain v :
  versions s' !! key = Some chain -> v ∈ chain ->
  exists n l, commit_ts v = Z.of_nat (S n) /\ (history y ++ [log]) !! n = Some l /\ written l key.
Proof.
  intros Hc Hin. destruct (commit_versions _ _ _ _ key E) as (_ & _ & Hv). rewrite Hv in Hc.
  assert (Hold : forall ch, versions (store y) !! key = Some ch -> v ∈ ch ->
    exists n l, commit_ts v = Z.of_nat (S n) /\ (history y ++ [log]) !! n = Some l /\ written l key).
  { intros ch Hch Hvch. destruct (inv_chain y Hy key ch v Hch Hvch) as (n & l & H1 & H2 & H3).
    exists n, l. split_and!; [done| |done]. by apply lookup_app_l_Some. }
  destruct (writes x !! key) as [w|] eqn:Ew; [|by eapply Hold].
  injection Hc as <-. apply elem_of_snoc in Hin as [Hin| ->].
  - destruct (versions (store y) !! key) as [ch|] eqn:Ech; [by eapply Hold|].
    by apply not_elem_of_nil in Hin.
  - exists (length (history y)), log. simpl.
    split_and!; [apply commit_stamp|apply list_lookup_middle; done|].
    apply commit_written. by rewrite Ew.
Qed.

Lemma commit_inv t : inv (mkSys s' (delete t (open y)) (history y ++ [log])).
Proof.
  assert (Hvers := fun key => commit_versions _ _ _ _ key E). simpl in Hvers.
  assert (Hts := commit_stamp). split; simpl.
  - destruct (Hvers 0%Z) as (_ & -> & _). rewrite length_app, Hts. simpl. lia.
  - intros n Hn. rewrite length_app in Hn. simpl in Hn. apply commit_states. lia.
  - intros key chain Hc. destruct (Hvers key) as (_ & _ & Hv). rewrite Hv in Hc.
    destruct (writes x !! key) as [v|] eqn:Ew.
    + injection Hc as <-. exists (mkVersion ts v). split; [apply last_snoc|]. simpl.
      intros n l Hn _. apply lookup_lt_Some in Hn. rewrite length_app in Hn. simpl in Hn. lia.
    + destruct (inv_last y Hy key chain Hc) as (v & Hl & Hmax). exists v. split; [done|].
      intros n l Hn Hwr. apply lookup_snoc_inv in Hn as [Hn|[-> ->]]; [by eapply Hmax|].
      apply commit_written in Hwr as [? Hwr]. congruence.
  - exact commit_chains.
  - intros n l key Hn Hwr. destruct (Hvers key) as (_ & _ & ->).
    destruct (writes x !! key) as [w|] eqn:Ew; [done|].
    apply lookup_snoc_inv in Hn as [Hn|[-> ->]]; [by eapply inv_dom|].
    apply commit_written in Hwr as [? ?]. congruence.
  - intros t' x' log' [_ Ho]%lookup_delete_Some. apply txn_ok_app. by eapply inv_open.
Qed.

End Commit.

Lemma exec_inv o y :
  inv y -> (Z.of_nat (S (length (history y))) < 2 ^ 64)%Z -> inv (exec o y).
Proof.
  intros Hy Hb. assert (Hopen := inv_open y Hy).
  destruct o as [t|t key|t key v|t|t]; simpl.
  - apply inv_open_change; [done|]. intros t' x log [[_ [= <- <-]]|[_ Ho]]%lookup_insert_Some; [|eauto].
    split; simpl.
    + destruct (inv_state y Hy (length (history y))) as (m & Hm & _); [done|].
      exists (length (history y)), m. split_and!; [apply (inv_clock y Hy)|done|done].
    + intros key. split; [by intros ?%not_elem_of_nil|]. by intros [r ?%not_elem_of_nil].
  - destruct (open y !! t) as [[x log]|] eqn:Eo; [|done].
    destruct (read (store y) x key) as [r x'] eqn:Er. apply inv_open_change; [done|].
    intros t' x1 log1 [[_ [= <- <-]]|[_ Ho]]%lookup_insert_Some; [|eauto].
    eapply read_ok; eauto.
  - destruct (open y !! t) as [[x log]|] eqn:Eo; [|done]. apply inv_open_change; [done|].
    intros t' x1 log1 [[_ [= <- <-]]|[_ Ho]]%lookup_insert_Some; [|eauto].
    apply write_ok. eauto.
  - destruct (open y !! t) as [[x log]|] eqn:Eo; [|done].
    destruct (commit x (store y)) as [[ts|e|] s'] eqn:Ec.
    + eapply commit_inv; eauto.
    + assert (s' = store y) as -> by apply (commit_versions _ _ _ _ 0 Ec).
      apply inv_open_change; [done|]. intros t' x' log' [_ Ho]%lookup_delete_Some. eauto.
    + assert (s' = store y) as -> by apply (commit_versions _ _ _ _ 0 Ec).
      apply inv_open_change; [done|]. intros t' x' log' [_ Ho]%lookup_delete_Some. eauto.
  - apply inv_open_change; [done|]. intros t' x' log' [_ Ho]%lookup_delete_Some. eauto.
Qed.

Lemma exec_history o y : length (history (exec o y)) <= S (length (history y)).
Proof.
  destruct o as [t|t key|t key v|t|t]; simpl; try lia.
  - destruct (open y !! t) as [[x log]|]; [|lia]. destruct (read (store y) x key). simpl. lia.
  - destruct (open y !! t) as [[x log]|]; simpl; lia.
  - destruct (open y !! t) as [[x log]|]; [|lia].
    destruct (commit x (store y)) as [[?|?|] ?]; simpl; rewrite ?length_app; simpl; lia.
Qed.

Lemma run_inv os : (Z.of_nat (length os) < 2 ^ 64)%Z -> inv (run os) /\ length (history (run os)) <= length os.
Proof.
  induction os as [|o os IH] using rev_ind; intros Hb; [split; [apply init_inv|simpl; lia]|].
  rewrite length_app in Hb. simpl in Hb. destruct IH as [Hi Hl]; [lia|].
  unfold run in *. rewrite foldl_app. simpl. split.
  - apply exec_inv; [done|]. lia.
  - assert (H := exec_history o (foldl (fun y o => exec o y) init os)). rewrite length_app. simpl. lia.
Qed.

(** ** Properties *)

(** C9: For every interleaving of any number of transactions (fewer than 2^64
    operations), the transactions that committed, run one after the other in
    commit order on a plain map, make exactly the reads they made and leave
    exactly the values the store now holds. *)
Theorem committed_serializable os :
  (Z.of_nat (length os) < 2 ^ 64)%Z ->
  exists m, serial (history (run os)) ∅ = Some m /\
    forall key, latest (store (run os)) key = m !! key.
Proof.
  intros Hb. destruct (run_inv os Hb) as [Hy _].
  destruct (inv_state _ Hy (length (history (run os)))) as (m & [_ Hm] & Hv); [done|].
  rewrite firstn_all in Hm. exists m. split; [done|]. intros key. rewrite <- Hv. symmetry.
  apply visible_latest; [|intros chain Hc; by eapply chains_nonempty].
  intros ts Hts. apply (latest_le_clock _ _ _ Hy) in Hts. by rewrite (inv_clock _ Hy) in Hts.
Qed.

(** An open transaction sees one state throughout: all its reads are those of the
    serial state its snapshot names, overlaid with its own writes, however many
    transactions have committed since. *)
Theorem snapshot_isolation os t x log :
  (Z.of_nat (length os) < 2 ^ 64)%Z -> open (run os) !! t = Some (x, log) ->
  exists n m, snapshot x = Z.of_nat n /\ n <= length (history (run os)) /\
    serial (take n (history (run os))) ∅ = Some m /\ replay m log ∅ = Some (writes x).
Proof.
  intros Hb Ho. destruct (run_inv os Hb) as [Hy _].
  destruct (inv_open _ Hy _ _ _ Ho) as [(n & m & H1 & [H2 H3] & H4) _]. by exists n, m.
Qed.

(** A commit is refused exactly when a transaction that committed after its
    snapshot wrote a key it read or wrote: no lost update or stale read gets
    through, and there are no spurious aborts. *)
Theorem conflicts_are_exact os t x log :
  (Z.of_nat (length os) < 2 ^ 64)%Z -> open (run os) !! t = Some (x, log) ->
  fst (commit x (store (run os))) = Err Conflict <->
  exists n log' key, history (run os) !! n = Some log' /\ (snapshot x <= Z.of_nat n)%Z /\
    written log' key /\ touched log key.
Proof.
  intros Hb Ho. destruct (run_inv os Hb) as [Hy _].
  destruct (inv_open _ Hy _ _ _ Ho) as [(n0 & m & Hsn & Hst & Hrep) Hreads].
  assert (Htouch : forall key, key ∈ reads x ++ map fst (map_to_list (writes x)) <-> touched log key).
  { intros key. rewrite elem_of_app, Hreads. unfold touched.
    assert (Hk : key ∈ map fst (map_to_list (writes x)) <-> written log key).
    { rewrite (list_elem_of_fmap fst). assert (Hw := replay_written _ _ _ _ key Hrep).
      rewrite lookup_empty in Hw. split.
      - intros ((k & v) & -> & Hin%elem_of_map_to_list). destruct Hw as [Hw _]. simpl.
        destruct Hw as [[? [=]]|?]; [by exists v|done].
      - intros Hwr. destruct Hw as [_ Hw]. destruct Hw as [v Hv]; [by right|].
        exists (key, v). split; [done|]. by apply elem_of_map_to_list. }
    rewrite Hk. tauto. }
  unfold commit. transitivity (validate (store (run os)) (snapshot x)
    (reads x ++ map fst (map_to_list (writes x))) = false).
  { by destruct (validate _ _ _). }
  rewrite validate_false. unfold latest_commit_ts. split.
  - intros (key & ts & Hk & Hl & Hts).
    destruct (versions _ !! key) as [chain|] eqn:Ec; [|done]. simpl in Hl.
    destruct (last chain) as [v|] eqn:El; [|done]. injection Hl as <-.
    destruct (inv_chain _ Hy key chain v Ec) as (n & log' & Hv & Hn & Hwr).
    { apply last_Some in El as [l ->]. set_solver. }
    exists n, log', key. split_and!; [done|lia|done|by apply Htouch].
  - intros (n & log' & key & Hn & Hs & Hwr & Ht).
    destruct (inv_dom _ Hy _ _ _ Hn Hwr) as [chain Ec].
    destruct (inv_last _ Hy key chain Ec) as (v & El & Hmax).
    exists key, (commit_ts v). rewrite Ec. simpl. rewrite El. split_and!; [by apply Htouch|done|].
    specialize (Hmax n log' Hn Hwr). lia.
Qed.

(** ** The properties at work: two transactions that increment the same key *)

Definition demo_ops : list op :=
  [OBegin 0; OWrite 0 5 [x01]; OCommit 0; OBegin 1; OBegin 2; ORead 1 5; ORead 2 5;
   OWrite 1 5 [x02]; OWrite 2 5 [x03]; OCommit 1].

Lemma committed_serializable_witness :
  exists m, serial (history (run demo_ops)) ∅ = Some m /\ latest (store (run demo_ops)) 5 = m !! 5%Z /\
    latest (store (run demo_ops)) 5 = Some [x02].
Proof.
  destruct (committed_serializable demo_ops) as (m & H1 & H2); [vm_compute; reflexivity|].
  exists m. split; [exact H1|]. split; [exact (H2 5%Z)|vm_compute; reflexivity].
Defined.

Lemma snapshot_isolation_witness :
  exists x log, open (run demo_ops) !! 2 = Some (x, log) /\ exists n m, snapshot x = Z.of_nat n /\
    serial (take n (history (run demo_ops))) ∅ = Some m /\ replay m log ∅ = Some (writes x).
Proof.
  destruct (open (run demo_ops) !! 2) as [[x log]|] eqn:E; [|vm_compute in E; discriminate E].
  exists x, log. split; [exact eq_refl|].
  destruct (snapshot_isolation demo_ops 2 x log) as (n & m & H1 & _ & H2 & H3);
    [vm_compute; reflexivity|exact E|].
  exists n, m. split; [exact H1|]. split; [exact H2|exact H3].
Defined.

Lemma conflicts_are_exact_witness :
  exists x log, open (run demo_ops) !! 2 = Some (x, log) /\
    exists n log' key, history (run demo_ops) !! n = Some log' /\ (snapshot x <= Z.of_nat n)%Z /\
      written log' key /\ touched log key.
Proof.
  destruct (open (run demo_ops) !! 2) as [[x log]|] eqn:E; [|vm_compute in E; discriminate E].
  exists x, log. split; [exact eq_refl|].
  apply (conflicts_are_exact demo_ops 2 x log); [vm_compute; reflexivity|exact E|].
  vm_compute in E. injection E as <- <-. vm_compute. reflexivity.
Defined.
