(* ===== verification/Ast.v ===== *)
(** * Ast: the syntax trees of [crates/tpt-archon-relational/src/parser/ast.rs]

    A Rust [String] is its list of UTF-8 bytes.  A 32-bit float is its bit
    pattern, a number below 2^32.  The statement structs that contain one
    another are one mutual inductive type with a projection per field. *)
From Stdlib Require Import ZArith Lia Strings.Byte Strings.String.
From stdpp Require Import base numbers option list.
From S2P Require Import Prelude.

Module Ast.

Abbreviation str := (list byte).

(** A string constant of the source. *)
Definition lit (s : string) : str := list_byte_of_string s.

(** The bit pattern of an [f32]. *)
Abbreviation f32 := Z.

Inductive CmpOp : Type := Eq | Ne | Lt | Le | Gt | Ge.

Inductive Literal : Type :=
| LInt (i : Z)
| LFloat (f : f32)
| LText (s : str)
| LVector (v : list f32)
| LBool (b : bool)
| LNull.

Inductive DateTimeField : Type := Year | Month | Day | Hour | Minute | Second.

Inductive AggregateFunc : Type := Count | Sum | Avg | Min | Max.

#[global] Instance AggregateFunc_eq_dec : EqDecision AggregateFunc.
Proof. solve_decision. Defined.

Record OrderBy : Type := mkOrderBy { ob_column : str; descending : bool }.

Inductive WindowFunc : Type :=
| RowNumber
| Rank
| DenseRank
| Lag (column : str) (offset : Z) (default : option Literal)
| Lead (column : str) (offset : Z) (default : option Literal)
| WAgg (func : AggregateFunc) (column : str).

Inductive FrameBound : Type :=
| UnboundedPreceding
| Preceding (n : Z)
| CurrentRow
| Following (n : Z)
| UnboundedFollowing.

Inductive FrameKind : Type := Rows | Range.

Record WindowFrame : Type := mkFrame { wf_kind : FrameKind; wf_start : FrameBound; wf_end : FrameBound }.

Record WindowSpec : Type := mkWindowSpec {
  partition_by : list str;
  ws_order_by : list OrderBy;
  frame : option WindowFrame;
}.

Record WindowCall : Type := mkWindowCall { wc_func : WindowFunc; wc_spec : WindowSpec }.

Inductive JoinType : Type := Inner | Left | Right | Full | Cross.

Record OrderByCosine : Type := mkCosine { obc_column : str; param : nat; k : Z }.

(** The bool of [Union] is true for [ALL]. *)
Inductive SetOperation : Type := Union (all : bool) | Intersect | Except.

(** ** Expressions and queries *)

Inductive Expr : Type :=
| Cmp (column : str) (op : CmpOp) (value : Literal)
| CmpColumn (left : str) (op : CmpOp) (right : str)
| IsNull (column : str) (negated : bool)
| Like (column : str) (pattern : str)
| InInt (column : str) (values : list Z)
| BetweenInt (column : str) (low high : Z)
| And (l r : Expr)
| Or (l r : Expr)
| Not (e : Expr)
| Exists_ (query : SelectStatement)
| InSubquery (column : str) (query : SelectStatement)
| ScalarCmp (column : str) (op : CmpOp) (query : SelectStatement)
| Agg (func : AggregateFunc) (column : str)
| AggCmp (func : AggregateFunc) (column : str) (op : CmpOp) (value : Literal)
| ExtractCmp (field : DateTimeField) (source : str) (op : CmpOp) (value : Literal)

with TableRef : Type :=
| Named (name : str) (alias : option str)
| Subquery (query : SelectStatement) (alias : str)

with Join : Type :=
| mkJoin (jtype : JoinType) (table : TableRef) (on_expr : option Expr)

with SelectStatement : Type :=
| mkSelect (columns : list str) (star : bool) (table : TableRef) (filter : option Expr)
    (joins : list Join) (group_by : list str) (aggregates : list (str * AggregateFunc * str))
    (window_funcs : list (str * WindowCall)) (order_by : list OrderBy)
    (order_by_cosine : option OrderByCosine) (limit : option Z) (having : option Expr)
    (with_ctes : list CTE)

with CTE : Type :=
| mkCTE (name : str) (query : SelectStatement)
    (recursive_term : option (SetOperation * SelectStatement)).

Definition columns (s : SelectStatement) : list str :=
  let '(mkSelect c _ _ _ _ _ _ _ _ _ _ _ _) := s in c.
Definition star (s : SelectStatement) : bool :=
  let '(mkSelect _ b _ _ _ _ _ _ _ _ _ _ _) := s in b.
Definition table (s : SelectStatement) : TableRef :=
  let '(mkSelect _ _ t _ _ _ _ _ _ _ _ _ _) := s in t.
Definition filter (s : SelectStatement) : option Expr :=
  let '(mkSelect _ _ _ f _ _ _ _ _ _ _ _ _) := s in f.
Definition joins (s : SelectStatement) : list Join :=
  let '(mkSelect _ _ _ _ j _ _ _ _ _ _ _ _) := s in j.
Definition group_by (s : SelectStatement) : list str :=
  let '(mkSelect _ _ _ _ _ g _ _ _ _ _ _ _) := s in g.
Definition aggregates (s : SelectStatement) : list (str * AggregateFunc * str) :=
  let '(mkSelect _ _ _ _ _ _ a _ _ _ _ _ _) := s in a.
Definition window_funcs (s : SelectStatement) : list (str * WindowCall) :=
  let '(mkSelect _ _ _ _ _ _ _ w _ _ _ _ _) := s in w.
Definition order_by (s : SelectStatement) : list OrderBy :=
  let '(mkSelect _ _ _ _ _ _ _ _ o _ _ _ _) := s in o.
Definition order_by_cosine (s : SelectStatement) : option OrderByCosine :=
  let '(mkSelect _ _ _ _ _ _ _ _ _ o _ _ _) := s in o.
Definition limit (s : SelectStatement) : option Z :=
  let '(mkSelect _ _ _ _ _ _ _ _ _ _ l _ _) := s in l.
Definition having (s : SelectStatement) : option Expr :=
  let '(mkSelect _ _ _ _ _ _ _ _ _ _ _ h _) := s in h.
Definition with_ctes (s : SelectStatement) : list CTE :=
  let '(mkSelect _ _ _ _ _ _ _ _ _ _ _ _ c) := s in c.

Definition set_with_ctes (c : list CTE) (s : SelectStatement) : SelectStatement :=
  let '(mkSelect a1 a2 a3 a4 a5 a6 a7 a8 a9 a10 a11 a12 _) := s in
  mkSelect a1 a2 a3 a4 a5 a6 a7 a8 a9 a10 a11 a12 c.

(** Set the fields of the tail: [ORDER BY], its cosine form, [LIMIT]. *)
Definition set_tail (o : list OrderBy) (c : option OrderByCosine) (l : option Z)
    (s : SelectStatement) : SelectStatement :=
  let '(mkSelect a1 a2 a3 a4 a5 a6 a7 a8 _ _ _ a12 a13) := s in
  mkSelect a1 a2 a3 a4 a5 a6 a7 a8 o c l a12 a13.

(** [TableRef::name]: the alias if there is one. *)
Definition name (t : TableRef) : str :=
  match t with
  | Named n alias => default n alias
  | Subquery _ alias => alias
  end.

Definition table_name (t : TableRef) : str :=
  match t with
  | Named n _ => n
  | Subquery _ alias => alias
  end.

(** ** Types of columns *)

Inductive ColumnType : Type :=
| TInt
| TBoolean
| TFloat
| TDouble
| TNumeric
| TText
| TVarchar (n : Z)
| TDate
| TTimestamp
| TVector.

#[global] Instance ColumnType_eq_dec : EqDecision ColumnType.
Proof. solve_decision. Defined.

Definition pg_type_name (t : ColumnType) : str :=
  match t with
  | TInt => lit "int8"
  | TBoolean => lit "bool"
  | TFloat => lit "float4"
  | TDouble => lit "float8"
  | TNumeric => lit "numeric"
  | TText => lit "text"
  | TVarchar _ => lit "varchar"
  | TDate => lit "date"
  | TTimestamp => lit "timestamp"
  | TVector => lit "vector"
  end.

Definition pg_type_oid (t : ColumnType) : Z :=
  match t with
  | TInt => 20
  | TBoolean => 16
  | TFloat => 700
  | TDouble => 701
  | TNumeric => 1700
  | TText => 25
  | TVarchar _ => 1043
  | TDate => 1082
  | TTimestamp => 1114
  | TVector => 25
  end.

(** ** Statements *)

#[global] Instance CmpOp_eq_dec : EqDecision CmpOp.
Proof. solve_decision. Defined.

#[global] Instance Literal_eq_dec : EqDecision Literal.
Proof. solve_decision. Defined.

Record Assignment : Type := mkAssignment { a_column : str; a_value : Literal }.

Record InsertStatement : Type := mkInsert {
  i_table : str;
  i_columns : list str;
  i_values : list (list Literal);
}.

Record UpdateStatement : Type := mkUpdate {
  u_table : str;
  u_assignments : list Assignment;
  u_filter : option Expr;
}.

Record DeleteStatement : Type := mkDelete { d_table : str; d_filter : option Expr }.

Inductive ColumnConstraint : Type := NotNull | PrimaryKey | Unique.

#[global] Instance ColumnConstraint_eq_dec : EqDecision ColumnConstraint.
Proof. solve_decision. Defined.

Inductive TableConstraint : Type :=
| TPrimaryKey (cols : list str)
| TUnique (cols : list str)
| TForeignKey (columns : list str) (ref_table : str) (ref_columns : list str)
| TCheck (e : Expr).

Record ColumnDef : Type := mkColumnDef {
  cd_name : str;
  ctype : ColumnType;
  cd_constraints : list ColumnConstraint;
}.

Record CreateTableStatement : Type := mkCreateTable {
  ct_table : str;
  ct_columns : list ColumnDef;
  ct_constraints : list TableConstraint;
}.

Record CreateViewStatement : Type := mkCreateView { cv_name : str; cv_query : SelectStatement }.

Inductive AlterTableOp : Type :=
| AddColumn (c : ColumnDef)
| DropColumn (name : str)
| RenameColumn (old_name new_name : str).

Record AlterTableStatement : Type := mkAlterTable { at_table : str; at_op : AlterTableOp }.

Record CompoundStatement : Type := mkCompound {
  first : SelectStatement;
  operations : list (SetOperation * SelectStatement);
  co_order_by : list OrderBy;
  co_limit : option Z;
}.

Record SetParameterStatement : Type := mkSetParameter { sp_name : str; sp_value : str }.
Record ShowParameterStatement : Type := mkShowParameter { sh_name : str }.
Record ResetParameterStatement : Type := mkResetParameter { rp_name : str }.

Record SelectLiteralItem : Type := mkLiteralItem { li_value : Literal; li_alias : option str }.

Inductive Statement : Type :=
| Select (s : SelectStatement)
| SelectLiteral (items : list SelectLiteralItem)
| Compound (c : CompoundStatement)
| Insert (i : InsertStatement)
| Update (u : UpdateStatement)
| Delete (d : DeleteStatement)
| CreateTable (c : CreateTableStatement)
| CreateView (c : CreateViewStatement)
| DropView (name : str)
| AlterTable (a : AlterTableStatement)
| Begin
| Commit
| Rollback
| SetParameter (s : SetParameterStatement)
| ShowParameter (s : ShowParameterStatement)
| ResetParameter (s : ResetParameterStatement)
| ResetAll.

End Ast.
