(* ===== verification/Value.v ===== *)
(** * Value: the values of rows and their order
    ([crates/tpt-archon-relational/src/executor/value.rs])

    [cmp] is the [Ord] of [Value], used to sort, group and deduplicate rows;
    the theorem is that it is a total order.  A float is its bit pattern
    ([Ast.f32]); comparisons and arithmetic on floats go through the Standard
    Library's [SpecFloat] at binary32 and binary64. *)
From Stdlib Require Import ZArith Lia Strings.Byte Strings.String Floats.SpecFloat.
From stdpp Require Import base numbers option list.
From S2P Require Import Prelude Ast.

Module Value.
Import Ast(str, lit, f32).

Inductive Value : Type :=
| Int (i : Z)
| Float (f : f32)
| Text (s : str)
| Vector (v : list f32)
| Bool (b : bool)
| Null.

#[global] Instance Value_eq_dec : EqDecision Value.
Proof. solve_decision. Defined.

(** ** Floats by their bits *)

(** [i32::from_ne_bytes] of a 32-bit pattern. *)
Definition to_i32 (b : Z) : Z := if (b <? 2 ^ 31)%Z then b else (b - 2 ^ 32)%Z.

(** The key that [f32::total_cmp] compares: the bits as a signed integer, the
    low 31 of them flipped when the sign bit is set. *)
Definition total_key (b : f32) : Z :=
  let s := to_i32 b in Z.lxor s (Z.shiftr (wrap32 (Z.shiftr s 31)) 1).

Definition total_cmp (a b : f32) : comparison := (total_key a ?= total_key b)%Z.

(** The number a bit pattern stands for. *)
Definition f32_spec (b : f32) : spec_float :=
  let s := Z.testbit b 31 in
  let e := Z.land (Z.shiftr b 23) 255 in
  let m := Z.land b (2 ^ 23 - 1) in
  if (e =? 255)%Z then (if (m =? 0)%Z then S754_infinity s else S754_nan)
  else if (e =? 0)%Z then match m with Zpos p => S754_finite s p (-149) | _ => S754_zero s end
  else match (m + 2 ^ 23)%Z with Zpos p => S754_finite s p (e - 150) | _ => S754_zero s end.

Definition f32_bits (x : spec_float) : f32 :=
  let sign (s : bool) := if s then (2 ^ 31)%Z else 0%Z in
  match x with
  | S754_zero s => sign s
  | S754_infinity s => (sign s + Z.shiftl 255 23)%Z
  | S754_nan => (Z.shiftl 255 23 + 2 ^ 22)%Z
  | S754_finite s m e =>
      if (Zpos m <? 2 ^ 23)%Z then (sign s + Zpos m)%Z
      else (sign s + Z.shiftl (e + 150) 23 + (Zpos m - 2 ^ 23))%Z
  end.

(** [as f32]: the nearest float, ties to even. *)
Definition f32_of_int (i : Z) : f32 := f32_bits (binary_normalize 24 128 i 0 false).

(** *** Rounding gives 32-bit patterns *)

Lemma digits_bound p : (Zpos p < 2 ^ Zpos (digits2_pos p))%Z.
Proof.
  induction p as [p IH|p IH|]; cbn [digits2_pos]; [| |reflexivity].
  all: rewrite Pos2Z.inj_succ, Z.pow_succ_r by lia; lia.
Qed.

(** Shifting right drops digits. *)
Definition fits (n : Z) (r : shr_record) : Prop := (0 <= shr_m r < 2 ^ n)%Z.

Lemma shr_1_fits n r : (0 < n)%Z -> fits n r -> fits (n - 1) (shr_1 r).
Proof.
  unfold fits. destruct r as [m r s]. cbn [shr_m]. intros Hn [H0 H].
  assert (Hp : (2 ^ n = 2 * 2 ^ (n - 1))%Z) by (rewrite <- Z.pow_succ_r by lia; f_equal; lia).
  assert (0 < 2 ^ (n - 1))%Z by (apply Z.pow_pos_nonneg; lia).
  destruct m as [|[p|p|]|p]; cbn [shr_1 shr_m]; lia.
Qed.

Lemma iter_pos_fits p : forall (n : Z) r, (Zpos p <= n)%Z -> fits n r -> fits (n - Zpos p) (SpecFloat.iter_pos shr_1 p r).
Proof.
  induction p as [p IH|p IH|]; intros n r Hn Hr; cbn [SpecFloat.iter_pos].
  - replace (n - Zpos p~1)%Z with (n - 1 - Zpos p - Zpos p)%Z by lia.
    apply IH; [lia|]. apply IH; [lia|]. apply shr_1_fits; [lia|done].
  - replace (n - Zpos p~0)%Z with (n - Zpos p - Zpos p)%Z by lia. apply IH; [lia|]. apply IH; [lia|done].
  - apply shr_1_fits; [lia|done].
Qed.

Lemma shr_fexp_fits m e l : (0 <= m)%Z ->
  fits 24 (fst (shr_fexp 24 128 m e l)) /\ (-149 <= snd (shr_fexp 24 128 m e l))%Z.
Proof.
  intros Hm. unfold shr_fexp.
  assert (Hr : fits (Zdigits2 m) (shr_record_of_loc m l)).
  { unfold fits. replace (shr_m (shr_record_of_loc m l)) with m by by destruct l as [|[]].
    destruct m as [|p|p]; [done|split; [done|apply digits_bound]|lia]. }
  assert (Hd : (0 <= Zdigits2 m)%Z) by (destruct m; simpl; lia).
  set (k := (fexp 24 128 (Zdigits2 m + e) - e)%Z). assert (Hk : k = (fexp 24 128 (Zdigits2 m + e) - e)%Z) by done.
  unfold fexp, emin in Hk. assert (Hw : forall a b r, (a <= b)%Z -> fits a r -> fits b r).
  { intros a b r Hab [? ?]. split; [done|]. eapply Z.lt_le_trans; [done|]. apply Z.pow_le_mono_r; lia. }
  destruct k as [|p|p]; cbn [shr fst snd].
  - split; [|lia]. eapply Hw; [|done]. lia.
  - split; [|lia]. destruct (Z.le_gt_cases (Zpos p) (Zdigits2 m)) as [Hp|Hp].
    + apply (Hw (Zdigits2 m - Zpos p)%Z); [lia|]. by apply iter_pos_fits.
    + apply (Hw 0%Z); [lia|]. replace 0%Z with (Zpos p - Zpos p)%Z by lia.
      apply iter_pos_fits; [lia|]. eapply Hw; [|done]. lia.
  - split; [|lia]. eapply Hw; [|done]. lia.
Qed.

Lemma binary_round_u32 s m e l : is_u32 (f32_bits (binary_round_aux 24 128 s (Zpos m) e l)).
Proof.
  unfold binary_round_aux. destruct (shr_fexp 24 128 (Zpos m) e l) as [r e'] eqn:E1.
  assert (H1 := shr_fexp_fits (Zpos m) e l ltac:(lia)). rewrite E1 in H1. destruct H1 as [[Hr _] _]. simpl in Hr.
  assert (Hn : (0 <= round_nearest_even (shr_m r) (loc_of_shr_record r))%Z).
  { unfold round_nearest_even. repeat case_match; lia. }
  assert (H2 := shr_fexp_fits _ e' loc_Exact Hn).
  destruct (shr_fexp 24 128 (round_nearest_even (shr_m r) (loc_of_shr_record r)) e' loc_Exact) as [r2 e2].
  destruct H2 as [[Hr2 Hb] He]. simpl in *. unfold is_u32.
  destruct (shr_m r2) as [|p|p]; [by destruct s| |lia]. change (Zpos p < 16777216)%Z in Hb.
  destruct (Z.leb_spec e2 (128 - 24)); [|by destruct s]. simpl. rewrite Z.shiftl_mul_pow2 by lia.
  case_match; destruct s; lia.
Qed.

Lemma f32_of_int_u32 i : is_u32 (f32_of_int i).
Proof.
  unfold f32_of_int, binary_normalize, binary_round. destruct i as [|p|p]; [done| |];
    destruct (shl_align _ _ _) as [m e]; apply binary_round_u32.
Qed.

(** ** The order of values *)

(** Byte-wise lexicographic order: [str]'s [Ord]. *)
Fixpoint str_cmp (a b : str) : comparison :=
  match a, b with
  | [], [] => Eq
  | [], _ :: _ => Lt
  | _ :: _, [] => Gt
  | x :: a', y :: b' => match (b2z x ?= b2z y)%Z with Eq => str_cmp a' b' | o => o end
  end.

(** [zip .. map cmp .. find != Equal .. unwrap_or Equal]. *)
Fixpoint bits_cmp (a b : list f32) : comparison :=
  match a, b with
  | x :: a', y :: b' => match (x ?= y)%Z with Eq => bits_cmp a' b' | o => o end
  | _, _ => Eq
  end.

Definition bool_cmp (a b : bool) : comparison :=
  match a, b with
  | false, true => Lt
  | true, false => Gt
  | _, _ => Eq
  end.

Definition cmp (a b : Value) : comparison :=
  match a, b with
  | Int x, Int y => (x ?= y)%Z
  | Float x, Float y => total_cmp x y
  | Text x, Text y => str_cmp x y
  | Bool x, Bool y => bool_cmp x y
  | Vector x, Vector y =>
      match Nat.compare (length x) (length y) with Eq => bits_cmp x y | o => o end
  | Null, Null => Eq
  | Null, _ => Gt
  | _, Null => Lt
  | Int _, _ => Lt
  | _, Int _ => Gt
  | Bool _, _ => Lt
  | _, Bool _ => Gt
  | Float _, Text _ | Float _, Vector _ => Lt
  | Text _, Float _ | Vector _, Float _ => Gt
  | Text _, Vector _ => Lt
  | Vector _, Text _ => Gt
  end.

(** ** Equality: the derived [PartialEq]

    Floats compare as numbers: a NaN differs from itself and the two zeros are
    equal, unlike in [cmp]. *)
Definition f32_eqb (a b : f32) : bool := SFeqb (f32_spec a) (f32_spec b).

(** [Vec]'s and slices' [==]. *)
Definition list_eqb {A} (eqb : A -> A -> bool) (a b : list A) : bool :=
  (length a =? length b) && forallb (fun p => eqb p.1 p.2) (zip a b).

Definition eqb (a b : Value) : bool :=
  match a, b with
  | Int x, Int y => (x =? y)%Z
  | Float x, Float y => f32_eqb x y
  | Text x, Text y => bool_decide (x = y)
  | Vector x, Vector y => list_eqb f32_eqb x y
  | Bool x, Bool y => Bool.eqb x y
  | Null, Null => true
  | _, _ => false
  end.

Definition row_eqb : list Value -> list Value -> bool := list_eqb eqb.

Lemma f32_eqb_sym a b : f32_eqb a b = f32_eqb b a.
Proof.
  unfold f32_eqb, SFeqb. destruct (f32_spec a) as [|[]| |[] m e], (f32_spec b) as [|[]| |[] m' e']; try reflexivity; simpl.
  all: rewrite (Z.compare_antisym e' e); destruct (e' ?= e)%Z; try done; simpl.
  all: change (Pos.compare_cont Eq m m') with (m ?= m')%positive; change (Pos.compare_cont Eq m' m) with (m' ?= m)%positive.
  all: rewrite (Pos.compare_antisym m' m); by destruct (m' ?= m)%positive.
Qed.

Lemma list_eqb_sym {A} (f : A -> A -> bool) a b : (forall x y, f x y = f y x) -> list_eqb f a b = list_eqb f b a.
Proof.
  intros Hf. unfold list_eqb. rewrite Nat.eqb_sym. f_equal. revert b.
  induction a as [|x a IH]; intros [|y b]; try done. simpl. by rewrite Hf, IH.
Qed.

Lemma eqb_sym a b : eqb a b = eqb b a.
Proof.
  destruct a as [| | | |[]|], b as [| | | |[]|]; try done; simpl; [apply Z.eqb_sym|apply f32_eqb_sym| |].
  - apply bool_decide_ext. naive_solver.
  - apply list_eqb_sym, f32_eqb_sym.
Qed.

Lemma row_eqb_sym a b : row_eqb a b = row_eqb b a.
Proof. apply list_eqb_sym, eqb_sym. Qed.

(** [contains(&Value::Null)]. *)
Definition is_null (v : Value) : bool := match v with Null => true | _ => false end.

(** Equal keys have [Null] in the same places. *)
Lemma eqb_null a b : eqb a b = true -> is_null a = is_null b.
Proof. by destruct a, b. Qed.

Lemma row_eqb_null a b : row_eqb a b = true -> existsb is_null a = existsb is_null b.
Proof.
  unfold row_eqb, list_eqb. revert b. induction a as [|x a IH]; intros [|y b]; try done.
  simpl. rewrite !andb_true_iff. intros (Hl & H & Hr). rewrite (eqb_null _ _ H). f_equal. apply IH.
  by rewrite Hl, Hr.
Qed.

(** ** Rows, tables and results *)

Abbreviation Row := (list Value).

Record Table : Type := mkTable { t_columns : list str; t_rows : list Row }.

Definition table_new (cols : list str) : Table := {| t_columns := cols; t_rows := [] |}.
Definition table_insert (r : Row) (t : Table) : Table :=
  {| t_columns := t_columns t; t_rows := t_rows t ++ [r] |}.

Inductive ExecError : Type :=
| UnknownColumn (c : str)
| TypeMismatch
| GroupByColumnNotFound (c : str)
| UnresolvedSubquery
| Unsupported (msg : str).

Record ResultSet : Type := mkResult { columns : list str; rows : list Row; affected : option Z }.

Inductive CommandTag : Type :=
| Select (n : Z) | Insert (n : Z) | Update (n : Z) | Delete (n : Z)
| CreateTable | CreateView | DropView | AlterTable
| Begin | Commit | Rollback | Set_ | Reset_ | Empty.

Definition as_str (t : CommandTag) : str :=
  match t with
  | Select _ => lit "SELECT"
  | Insert _ => lit "INSERT"
  | Update _ => lit "UPDATE"
  | Delete _ => lit "DELETE"
  | CreateTable => lit "CREATE TABLE"
  | CreateView => lit "CREATE VIEW"
  | DropView => lit "DROP VIEW"
  | AlterTable => lit "ALTER TABLE"
  | Begin => lit "BEGIN"
  | Commit => lit "COMMIT"
  | Rollback => lit "ROLLBACK"
  | Set_ => lit "SET"
  | Reset_ => lit "RESET"
  | Empty => lit ""
  end.

Definition row_count (t : CommandTag) : option Z :=
  match t with
  | Select n | Insert n | Update n | Delete n => Some n
  | _ => None
  end.

Definition literal_to_value (l : Ast.Literal) : Value :=
  match l with
  | Ast.LInt v => Int v
  | Ast.LFloat v => Float v
  | Ast.LText s => Text s
  | Ast.LVector v => Vector v
  | Ast.LBool b => Bool b
  | Ast.LNull => Null
  end.

(** ** The order is total *)

(** The laws of an [Ord]: comparing is consistent with equality, with swapping
    the arguments, and transitive. *)
Record order_laws {A} (P : A -> Prop) (c : A -> A -> comparison) : Prop := {
  ord_eq a b : P a -> P b -> c a b = Eq <-> a = b;
  ord_opp a b : c b a = CompOpp (c a b);
  ord_trans a b d : P a -> P b -> P d -> c a b = Lt -> c b d = Lt -> c a d = Lt;
}.

(** A float's pattern has 32 bits. *)
Definition is_f32 (b : f32) : Prop := (0 <= b < 2 ^ 32)%Z.

Definition value_wf (v : Value) : Prop :=
  match v with
  | Float f => is_f32 f
  | Vector l => Forall is_f32 l
  | _ => True
  end.

Lemma total_key_inj a b : is_f32 a -> is_f32 b -> total_key a = total_key b -> a = b.
Proof.
  intros Ha Hb. unfold total_key, to_i32, is_f32 in *.
  assert (Hkey : forall x, (0 <= x < 2 ^ 32)%Z ->
    Z.shiftr (wrap32 (Z.shiftr (if (x <? 2 ^ 31)%Z then x else (x - 2 ^ 32)%Z) 31)) 1 =
    if (x <? 2 ^ 31)%Z then 0%Z else (2 ^ 31 - 1)%Z).
  { intros x Hx. rewrite !Z.shiftr_div_pow2 by lia.
    destruct (Z.ltb_spec x (2 ^ 31)).
    - rewrite (Z.div_small x) by lia. reflexivity.
    - replace ((x - 2 ^ 32) / 2 ^ 31)%Z with (-1)%Z; [reflexivity|].
      apply (Z.div_unique _ _ _ (x - 2 ^ 31)); lia. }
  rewrite (Hkey a Ha), (Hkey b Hb).
  assert (Hneg : forall x, (2 ^ 31 <= x < 2 ^ 32)%Z ->
    (Z.lxor (x - 2 ^ 32) (2 ^ 31 - 1) < 0)%Z).
  { intros x Hx. destruct (Z.lt_ge_cases (Z.lxor (x - 2 ^ 32) (2 ^ 31 - 1)) 0) as [?|Hge]; [done|].
    apply Z.lxor_nonneg in Hge. lia. }
  destruct (Z.ltb_spec a (2 ^ 31)), (Z.ltb_spec b (2 ^ 31)); rewrite ?Z.lxor_0_r.
  - done.
  - intros E. specialize (Hneg b). lia.
  - intros E. specialize (Hneg a). lia.
  - intros E. apply (f_equal (fun z => Z.lxor z (2 ^ 31 - 1))) in E.
    rewrite !Z.lxor_assoc, !Z.lxor_nilpotent, !Z.lxor_0_r in E. lia.
Qed.

Lemma Z_laws : order_laws (fun _ => True) Z.compare.
Proof.
  split; intros.
  - apply Z.compare_eq_iff.
  - apply Z.compare_antisym.
  - rewrite Z.compare_lt_iff in *. lia.
Qed.

Lemma total_cmp_laws : order_laws is_f32 total_cmp.
Proof.
  unfold total_cmp. split.
  - intros a b Ha Hb. rewrite Z.compare_eq_iff. split; [by apply total_key_inj|by intros ->].
  - intros a b. apply Z.compare_antisym.
  - intros a b d _ _ _. rewrite !Z.compare_lt_iff. lia.
Qed.

Lemma bool_laws : order_laws (fun _ => True) bool_cmp.
Proof. split; intros; by repeat match goal with b : bool |- _ => destruct b end. Qed.

(** One step of a lexicographic comparison. *)
Lemma lex_trans (c1 c2 c3 r1 r2 r3 : comparison) :
  (c1 = Lt -> c2 = Lt -> c3 = Lt) -> (c1 = Eq -> c3 = c2) -> (c2 = Eq -> c3 = c1) ->
  (r1 = Lt -> r2 = Lt -> r3 = Lt) ->
  (match c1 with Eq => r1 | Lt => Lt | Gt => Gt end) = Lt -> (match c2 with Eq => r2 | Lt => Lt | Gt => Gt end) = Lt ->
  (match c3 with Eq => r3 | Lt => Lt | Gt => Gt end) = Lt.
Proof.
  intros H1 H2 H3 H4 E1 E2. destruct c1, c2; try discriminate.
  - rewrite H2 by done. auto.
  - by rewrite H2 by done.
  - by rewrite H3 by done.
  - by rewrite H1 by done.
Qed.

Lemma Z_lex (x y z : Z) (r1 r2 r3 : comparison) :
  (r1 = Lt -> r2 = Lt -> r3 = Lt) ->
  (match (x ?= y)%Z with Eq => r1 | o => o end) = Lt ->
  (match (y ?= z)%Z with Eq => r2 | o => o end) = Lt ->
  (match (x ?= z)%Z with Eq => r3 | o => o end) = Lt.
Proof.
  intros Hr. apply (lex_trans (x ?= y)%Z (y ?= z)%Z (x ?= z)%Z); [| | |exact Hr].
  - rewrite !Z.compare_lt_iff. lia.
  - rewrite Z.compare_eq_iff. by intros ->.
  - rewrite Z.compare_eq_iff. by intros ->.
Qed.

Lemma str_laws : order_laws (fun _ => True) str_cmp.
Proof.
  split.
  - intros a b _ _. revert b. induction a as [|x a IH]; intros [|y b]; simpl; try done.
    destruct (Z.compare_spec (b2z x) (b2z y)) as [E|E|E].
    + apply b2z_inj in E as ->. rewrite IH. split; [by intros ->|by intros [= ->]].
    + split; [done|]. intros [= -> _]. lia.
    + split; [done|]. intros [= -> _]. lia.
  - intros a. induction a as [|x a IH]; intros [|y b]; simpl; try done.
    rewrite (Z.compare_antisym (b2z x) (b2z y)). destruct (b2z x ?= b2z y)%Z; simpl; auto.
  - intros a b d _ _ _. revert b d. induction a as [|x a IH]; intros [|y b] [|z d]; simpl; try done.
    apply Z_lex. apply IH.
Qed.

Lemma bits_cmp_eq a b : length a = length b -> bits_cmp a b = Eq <-> a = b.
Proof.
  revert b. induction a as [|x a IH]; intros [|y b] Hl; simpl in *; try done.
  destruct (Z.compare_spec x y) as [->|E|E].
  - rewrite IH by lia. split; [by intros ->|by intros [= ->]].
  - split; [done|]. intros [= -> _]. lia.
  - split; [done|]. intros [= -> _]. lia.
Qed.

Lemma bits_cmp_opp a b : bits_cmp b a = CompOpp (bits_cmp a b).
Proof.
  revert b. induction a as [|x a IH]; intros [|y b]; simpl; try done.
  rewrite (Z.compare_antisym x y). destruct (x ?= y)%Z; simpl; auto.
Qed.

Lemma bits_cmp_trans a b d :
  length a = length b -> length b = length d ->
  bits_cmp a b = Lt -> bits_cmp b d = Lt -> bits_cmp a d = Lt.
Proof.
  revert b d. induction a as [|x a IH]; intros [|y b] [|z d] H1 H2; simpl in *; try done.
  apply Z_lex. apply IH; lia.
Qed.

Definition vec_cmp (x y : list f32) : comparison :=
  match Nat.compare (length x) (length y) with Eq => bits_cmp x y | o => o end.

Lemma vec_laws : order_laws (fun _ => True) vec_cmp.
Proof.
  unfold vec_cmp. split.
  - intros a b _ _. destruct (Nat.compare_spec (length a) (length b)) as [E|E|E].
    + by apply bits_cmp_eq.
    + split; [done|]. intros ->. lia.
    + split; [done|]. intros ->. lia.
  - intros a b. rewrite (Nat.compare_antisym (length a)).
    destruct (Nat.compare (length a) (length b)); simpl; auto using bits_cmp_opp.
  - intros a b d _ _ _.
    destruct (Nat.compare_spec (length a) (length b)) as [E1|E1|E1];
    destruct (Nat.compare_spec (length b) (length d)) as [E2|E2|E2];
    destruct (Nat.compare_spec (length a) (length d)) as [E3|E3|E3]; try done; try lia.
    by apply bits_cmp_trans.
Qed.

Lemma cmp_laws : order_laws value_wf cmp.
Proof.
  destruct Z_laws as [Z1 Z2 Z3], total_cmp_laws as [F1 F2 F3], bool_laws as [B1 B2 B3],
    str_laws as [S1 S2 S3], vec_laws as [V1 V2 V3].
  split.
  - intros [x|x|x|x|x|] [y|y|y|y|y|] Ha Hb; simpl; try (split; [done|by intros [=]]).
    + rewrite (Z1 x y) by done. split; [by intros ->|by intros [= ->]].
    + rewrite (F1 x y) by done. split; [by intros ->|by intros [= ->]].
    + rewrite (S1 x y) by done. split; [by intros ->|by intros [= ->]].
    + change (vec_cmp x y = Eq <-> Vector x = Vector y).
      rewrite (V1 x y) by done. split; [by intros ->|by intros [= ->]].
    + rewrite (B1 x y) by done. split; [by intros ->|by intros [= ->]].
  - intros [x|x|x|x|x|] [y|y|y|y|y|]; simpl; auto. apply V2.
  - intros [x|x|x|x|x|] [y|y|y|y|y|] [z|z|z|z|z|] Ha Hb Hd; simpl; try done; eauto.
Qed.

(** The lexicographic order on lists of an ordered type: [Vec]'s [Ord]. *)
Fixpoint lex_cmp {A} (c : A -> A -> comparison) (a b : list A) : comparison :=
  match a, b with
  | [], [] => Eq
  | [], _ :: _ => Lt
  | _ :: _, [] => Gt
  | x :: a', y :: b' => match c x y with Eq => lex_cmp c a' b' | Lt => Lt | Gt => Gt end
  end.

Lemma lex_laws {A} (P : A -> Prop) c : order_laws P c -> order_laws (Forall P) (lex_cmp c).
Proof.
  intros [H1 H2 H3]. split.
  - intros a. induction a as [|x a IH]; intros [|y b] Ha Hb; simpl; try done.
    apply Forall_cons_1 in Ha as [Hx Ha]. apply Forall_cons_1 in Hb as [Hy Hb].
    destruct (c x y) eqn:E.
    + apply H1 in E as ->; [|done..]. rewrite IH by done. split; [by intros ->|by intros [= ->]].
    + split; [done|]. intros [= -> _]. assert (c y y = Eq) by by apply H1. congruence.
    + split; [done|]. intros [= -> _]. assert (c y y = Eq) by by apply H1. congruence.
  - intros a. induction a as [|x a IH]; intros [|y b]; simpl; try done.
    rewrite (H2 x y). destruct (c x y); simpl; auto.
  - intros a. induction a as [|x a IH]; intros [|y b] [|z d] Ha Hb Hd; simpl; try done.
    apply Forall_cons_1 in Ha as [Hx Ha]. apply Forall_cons_1 in Hb as [Hy Hb].
    apply Forall_cons_1 in Hd as [Hz Hd].
    apply (lex_trans (c x y) (c y z) (c x z)); [by apply H3| | |by apply IH].
    + intros E. apply H1 in E as ->; done.
    + intros E. apply H1 in E as ->; done.
Qed.

(** The order used to sort, group and deduplicate is a total order on values: it
    says equal only of identical values (floats by bit pattern, so NaN equals
    itself and the two zeros differ), swapping the arguments swaps the answer,
    and it is transitive across all types, NULL last; rows ordered
    lexicographically by it are totally ordered too. *)
Theorem value_order_total :
  order_laws value_wf cmp /\ order_laws (Forall value_wf) (lex_cmp cmp) /\
  forall v, v <> Null -> cmp v Null = Lt.
Proof. split_and!; [apply cmp_laws|apply lex_laws, cmp_laws|by intros []]. Qed.

End Value.
