(* ===== verification/Lexer.v ===== *)
(** * Lexer: the tokenizer and the token stream
    ([crates/tpt-archon-relational/src/parser/lexer.rs])

    The input is the UTF-8 bytes of the string; the lexer only slices it at
    ASCII bytes, which are character boundaries.  The parser reads tokens from
    a [TokenStream] in the state/error monad: looking past the last token is an
    index out of bounds, a panic. *)
From Stdlib Require Import ZArith Lia Strings.Byte Strings.String Floats.SpecFloat.
From stdpp Require Import base numbers option list.
From S2P Require Import Prelude Ast Value.

Module Lexer.
Import Ast(str, lit, f32, CmpOp).

Inductive Tok : Type :=
| Ident (s : str)
| Int (i : Z)
| Float (f : f32)
| Text (s : str)
| Star
| Comma
| Dot
| Op (op : CmpOp)
| Param
| LParen
| RParen
| LBracket
| RBracket
| Eof.

#[global] Instance Tok_eq_dec : EqDecision Tok.
Proof. solve_decision. Defined.

Inductive ParseError : Type := mkParseError (msg : str).

Definition MAX_PARSE_DEPTH : nat := 100.

(** Formatting code the sources do not contain: the derived [Debug] of [Tok],
    and the shortest decimal form of an [f32]. *)
Class Fmt : Type := { tok_debug : Tok -> str; f32_display : f32 -> str }.

(** ** Bytes of text *)

Definition QUOTE : byte := x27.
Definition DOT : byte := "."%byte.

Definition in_range (lo hi : byte) (c : byte) : bool :=
  (b2z lo <=? b2z c)%Z && (b2z c <=? b2z hi)%Z.

Definition is_ascii_whitespace (c : byte) : bool :=
  existsb (Byte.eqb c) [x20; x09; x0a; x0c; x0d].
Definition is_ascii_digit (c : byte) : bool := in_range "0"%byte "9"%byte c.
Definition is_ascii_upper (c : byte) : bool := in_range "A"%byte "Z"%byte c.
Definition is_ascii_lower (c : byte) : bool := in_range "a"%byte "z"%byte c.
Definition is_ascii_alphabetic (c : byte) : bool := is_ascii_upper c || is_ascii_lower c.
Definition is_ascii_alphanumeric (c : byte) : bool := is_ascii_alphabetic c || is_ascii_digit c.

Definition to_ascii_lower (c : byte) : byte := if is_ascii_upper c then z2b (b2z c + 32) else c.
Definition to_ascii_lowercase (s : str) : str := map to_ascii_lower s.

Definition ident_start (c : byte) : bool := is_ascii_alphabetic c || Byte.eqb c "_"%byte.
Definition ident_char (c : byte) : bool := is_ascii_alphanumeric c || Byte.eqb c "_"%byte.

(** [while pos < len && p(b[pos]) { pos += 1 }]: how far it goes. *)
Fixpoint span (p : byte -> bool) (l : list byte) : nat :=
  match l with
  | c :: l' => if p c then S (span p l') else 0
  | [] => 0
  end.
Definition skip_while (p : byte -> bool) (b : list byte) (pos : nat) : nat :=
  pos + span p (drop pos b).

(** ** Numbers *)

Definition digit_val (c : byte) : Z := (b2z c - 48)%Z.

(** The value of a run of digits read after [acc]. *)
Definition digits_val (acc : Z) (l : list byte) : Z :=
  fold_left (fun a c => (10 * a + digit_val c)%Z) l acc.

(** [text.parse::<i64>()] on an optional minus and digits. *)
Definition parse_i64 (text : str) : option Z :=
  let '(neg, ds) := match text with
                    | c :: ds => if Byte.eqb c "-"%byte then (true, ds) else (false, text)
                    | [] => (false, [])
                    end in
  if decide (ds = []) then None
  else if negb (forallb is_ascii_digit ds) then None
  else
    let v := if (neg : bool) then (- digits_val 0 ds)%Z else digits_val 0 ds in
    if (- 2 ^ 63 <=? v)%Z && (v <? 2 ^ 63)%Z then Some v else None.

(** [text.parse::<f32>()] on an optional minus, digits, a dot and digits: the
    float nearest to the decimal, ties to even. *)
Definition parse_f32 (text : str) : option f32 :=
  let '(neg, ds) := match text with
                    | c :: ds => if Byte.eqb c "-"%byte then (true, ds) else (false, text)
                    | [] => (false, [])
                    end in
  let n := span is_ascii_digit ds in
  let frac := drop (S n) ds in
  match drop n ds with
  | c :: _ =>
      if Byte.eqb c DOT && forallb is_ascii_digit frac && negb (bool_decide (frac = [])) then
        let scale := S754_finite false (10 ^ Pos.of_nat (length frac)) 0 in
        match digits_val (digits_val 0 (take n ds)) frac with
        | Zpos m => Some (Value.f32_bits (SFdiv 24 128 (S754_finite neg m 0) scale))
        | _ => Some (Value.f32_bits (S754_zero neg))
        end
      else None
  | [] => None
  end.

(** [to_string] of an integer. *)
Definition int_digit (z : Z) : byte := z2b (48 + z).
Fixpoint nat_digits (fuel : nat) (z : Z) (acc : list byte) : list byte :=
  match fuel with
  | O => acc
  | S fuel' =>
      let acc' := int_digit (z mod 10) :: acc in
      if (z <? 10)%Z then acc' else nat_digits fuel' (z / 10) acc'
  end.
(** 20 digits are enough for 64 bits. *)
Definition int_to_string (z : Z) : str :=
  if (z <? 0)%Z then "-"%byte :: nat_digits 20 (- z) [] else nat_digits 20 z [].

(** ** The lexer *)

Abbreviation L := (outcome ParseError).

Definition fail {A} (msg : string) : L A := Err (mkParseError (lit msg)).

(** The body of a text literal: [rest] is what is left, [chunk] the bytes since
    [chunk_start].  Returns the text and the position after the literal. *)
Fixpoint text_loop (rest : list byte) (text chunk : str) (pos : nat) : L (str * nat) :=
  match rest with
  | [] => fail "unterminated text literal"
  | c :: rest' =>
      if Byte.eqb c QUOTE then
        match rest' with
        | c2 :: rest'' =>
            if Byte.eqb c2 QUOTE then text_loop rest'' (text ++ chunk ++ [QUOTE]) [] (pos + 2)
            else Ok (text ++ chunk, pos + 1)
        | [] => Ok (text ++ chunk, pos + 1)
        end
      else text_loop rest' text (chunk ++ [c]) (pos + 1)
  end.

Definition byte_is (o : option byte) (c : byte) : bool :=
  match o with Some c' => Byte.eqb c' c | None => false end.
Definition byte_sat (p : byte -> bool) (o : option byte) : bool :=
  match o with Some c => p c | None => false end.

(** A number: where it ends, and whether it is a float. *)
Definition number_end (b : list byte) (start : nat) (c : byte) : nat * bool :=
  let p1 := if Byte.eqb c "-"%byte then start + 1 else start in
  let p2 := skip_while is_ascii_digit b p1 in
  if byte_is (b !! p2) DOT then
    if byte_sat is_ascii_digit (b !! (p2 + 1)) then
      let p3 := skip_while is_ascii_digit b (p2 + 1) in
      if byte_sat is_ascii_alphabetic (b !! p3) then (p2, false) else (p3, true)
    else (p2, false)
  else (p2, false).

(** [other as char]: a byte past ASCII is a two-byte character. *)
Definition char_utf8 (c : byte) : str :=
  if (b2z c <? 128)%Z then [c] else [z2b (192 + b2z c / 64); z2b (128 + b2z c mod 64)].

(** The next token at [pos0], and the position after it. *)
Definition next_tok (b : list byte) (pos0 : nat) : L (Tok * nat) :=
  let pos := skip_while is_ascii_whitespace b pos0 in
  match b !! pos with
  | None => Ok (Eof, pos)
  | Some c =>
      if Byte.eqb c "*"%byte then Ok (Star, pos + 1)
      else if Byte.eqb c ","%byte then Ok (Comma, pos + 1)
      else if Byte.eqb c "("%byte then Ok (LParen, pos + 1)
      else if Byte.eqb c ")"%byte then Ok (RParen, pos + 1)
      else if Byte.eqb c "."%byte then Ok (Dot, pos + 1)
      else if Byte.eqb c "["%byte then Ok (LBracket, pos + 1)
      else if Byte.eqb c "]"%byte then Ok (RBracket, pos + 1)
      else if Byte.eqb c "="%byte then Ok (Op Ast.Eq, pos + 1)
      else if Byte.eqb c "<"%byte then
        if byte_is (b !! (pos + 1)) "="%byte then Ok (Op Ast.Le, pos + 2)
        else if byte_is (b !! (pos + 1)) ">"%byte then Ok (Op Ast.Ne, pos + 2)
        else Ok (Op Ast.Lt, pos + 1)
      else if Byte.eqb c ">"%byte then
        if byte_is (b !! (pos + 1)) "="%byte then Ok (Op Ast.Ge, pos + 2) else Ok (Op Ast.Gt, pos + 1)
      else if Byte.eqb c "!"%byte then
        if byte_is (b !! (pos + 1)) "="%byte then Ok (Op Ast.Ne, pos + 2)
        else fail "unexpected '!'"
      else if Byte.eqb c "?"%byte then Ok (Param, pos + 1)
      else if Byte.eqb c QUOTE then
        match text_loop (drop (pos + 1) b) [] [] (pos + 1) with
        | Ok (text, pos') => Ok (Text text, pos')
        | Err e => Err e
        | Panic => Panic
        end
      else if is_ascii_digit c || Byte.eqb c "-"%byte then
        let '(pos', is_float) := number_end b pos c in
        let text := slice pos pos' b in
        if is_float then
          match parse_f32 text with Some f => Ok (Float f, pos') | None => fail "invalid float" end
        else
          match parse_i64 text with Some i => Ok (Int i, pos') | None => fail "invalid integer" end
      else if ident_start c then
        let pos' := skip_while ident_char b pos in
        Ok (Ident (slice pos pos' b), pos')
      else
        Err (mkParseError (lit "unexpected character '" ++ char_utf8 c ++ lit "'"))
  end.

(** ** The token stream *)

Record TokenStream : Type := mkTokenStream {
  tokens : list Tok;
  pos : nat;
  depth : nat;
}.

(** The loop of [TokenStream::new]. *)
Fixpoint tokenize_from (fuel : nat) (b : list byte) (p : nat) (acc : list Tok) : L (list Tok) :=
  match fuel with
  | O => Panic
  | S fuel' =>
      match next_tok b p with
      | Ok (tok, p') =>
          let acc' := acc ++ [tok] in
          if decide (tok = Eof) then Ok acc' else tokenize_from fuel' b p' acc'
      | Err e => Err e
      | Panic => Panic
      end
  end.

Definition tokenize (input : list byte) : L (list Tok) :=
  tokenize_from (S (length input)) input 0 [].

Definition new (input : list byte) : L TokenStream :=
  match tokenize input with
  | Ok toks => Ok {| tokens := toks; pos := 0; depth := 0 |}
  | Err e => Err e
  | Panic => Panic
  end.

Abbreviation P := (M TokenStream ParseError).

Definition p_err {A} (msg : string) : P A := m_err (mkParseError (lit msg)).

Definition set_pos (n : nat) (ts : TokenStream) : TokenStream :=
  {| tokens := tokens ts; pos := n; depth := depth ts |}.
Definition set_depth (d : nat) (ts : TokenStream) : TokenStream :=
  {| tokens := tokens ts; pos := pos ts; depth := d |}.

Definition peek : P Tok := fun ts =>
  match tokens ts !! pos ts with Some t => (Ok t, ts) | None => (Panic, ts) end.

Definition next : P Tok := fun ts =>
  match tokens ts !! pos ts with
  | Some t => (Ok t, set_pos (pos ts + 1) ts)
  | None => (Panic, ts)
  end.

Definition save : P nat := fun ts => (Ok (pos ts), ts).
Definition restore (p : nat) : P unit := fun ts => (Ok tt, set_pos p ts).

Definition enter_depth : P unit := fun ts =>
  let ts' := set_depth (depth ts + 1) ts in
  if decide (MAX_PARSE_DEPTH < depth ts') then
    (Err (mkParseError (lit "expression or subquery nesting too deep")), ts')
  else (Ok tt, ts').

Definition exit_depth : P unit := fun ts => (Ok tt, set_depth (depth ts - 1) ts).

(** A loop over the stream; it cannot go round more often than there are
    tokens. *)
Definition ts_loop {A B} (body : A -> P (A + B)) (a : A) : P B := fun ts =>
  m_loop (S (length (tokens ts))) body a ts.

(** ** Helpers *)

Definition eq_ignore_case (a b : str) : bool :=
  bool_decide (length a = length b) &&
  forallb (fun xy => Byte.eqb (to_ascii_lower xy.1) (to_ascii_lower xy.2)) (zip a b).

(** [Tok::Ident(kw) if eq_ignore_case(&kw, word)]. *)
Definition is_word (t : Tok) (word : string) : bool :=
  match t with Ident kw => eq_ignore_case kw (lit word) | _ => false end.

Definition expected {A} (what : string) : P A :=
  m_err (mkParseError (lit "expected " ++ lit what)).

(** Names are joined right to left: [a.b.c] is [a] and [b.c]. *)
Fixpoint expect_ident_fuel (fuel : nat) (what : string) : P str :=
  match fuel with
  | O => m_panic
  | S fuel' =>
      t ← next;
      match t with
      | Ident name =>
          d ← peek;
          if decide (d = Dot) then
            next;;
            field ← expect_ident_fuel fuel' "field name after '.'";
            mret (name ++ [DOT] ++ field)
          else mret name
      | _ => expected what
      end
  end.

Definition expect_ident (what : string) : P str := fun ts =>
  expect_ident_fuel (S (length (tokens ts))) what ts.

Definition expect_kw (word : string) : P unit :=
  t ← next;
  if is_word t word then mret tt else expected word.

Definition is_kw (s : str) : bool :=
  existsb (fun w => bool_decide (to_ascii_lowercase s = lit w))
    ["select"; "insert"; "update"; "delete"; "from"; "where"; "set"; "order"; "limit"; "group";
     "having"; "join"; "on"; "create"; "view"; "drop"; "begin"; "commit"; "rollback"; "not";
     "exists"; "extract"]%string.

Definition expect_int (what : string) : P Z :=
  t ← next;
  match t with Int v => mret v | _ => expected what end.

Definition expect_tok (want : Tok) (what : string) : P unit :=
  got ← next;
  if decide (got = want) then mret tt else expected what.

End Lexer.
