(* ===== verification/Datetime.v ===== *)
(** * Datetime: the calendar functions of
    [crates/tpt-archon-relational/src/executor/expr.rs]

    Integers are [i64]; division truncates ([Z.quot]).  The specification is the
    proleptic Gregorian calendar by its rule for the day after a date. *)
From Stdlib Require Import ZArith Lia.
From stdpp Require Import base numbers option list.
From S2P Require Import Prelude Ast.

Module Datetime.
Import Ast(DateTimeField, Year, Month, Day, Hour, Minute, Second).
#[local] Open Scope Z_scope.

Definition MICROS_PER_DAY : Z := 86400000000.
Definition DAYS_LIKE_THRESHOLD : Z := 1000000000000.

Definition i64_min : Z := - 2 ^ 63.
Definition i64_max : Z := 2 ^ 63 - 1.

(** [i64::saturating_mul]. *)
Definition saturating_mul (a b : Z) : Z := Z.max i64_min (Z.min i64_max (a * b)).

Definition civil_from_days (days : Z) : Z * Z * Z :=
  let z := days + 719468 in
  let era := Z.quot (if 0 <=? z then z else z - 146096) 146097 in
  let doe := z - era * 146097 in
  let yoe := Z.quot (doe - Z.quot doe 1460 + Z.quot doe 36524 - Z.quot doe 146096) 365 in
  let y := yoe + era * 400 in
  let doy := doe - (365 * yoe + Z.quot yoe 4 - Z.quot yoe 100) in
  let mp := Z.quot (5 * doy + 2) 153 in
  let d := doy - Z.quot (153 * mp + 2) 5 + 1 in
  let m := if mp <? 10 then mp + 3 else mp - 9 in
  let y := if m <=? 2 then y + 1 else y in
  (y, m, d).

Definition extract_datetime_field (field : DateTimeField) (value : Z) : Z :=
  let micros :=
    if Z.abs value <? DAYS_LIKE_THRESHOLD then saturating_mul value MICROS_PER_DAY else value in
  match field with
  | Year => let '(y, _, _) := civil_from_days (Z.quot micros MICROS_PER_DAY) in y
  | Month => let '(_, m, _) := civil_from_days (Z.quot micros MICROS_PER_DAY) in m
  | Day => let '(_, _, d) := civil_from_days (Z.quot micros MICROS_PER_DAY) in d
  | Hour => let total_secs := Z.quot micros 1000000 in Z.rem (Z.quot total_secs 3600) 24
  | Minute => let total_secs := Z.quot micros 1000000 in Z.rem (Z.quot total_secs 60) 60
  | Second => Z.quot micros 1000000
  end.

(** ** The calendar *)

Definition leap (y : Z) : bool :=
  (y mod 4 =? 0) && (negb (y mod 100 =? 0) || (y mod 400 =? 0)).

Definition days_in_month (y m : Z) : Z :=
  match m with
  | 2 => if leap y then 29 else 28
  | 4 | 6 | 9 | 11 => 30
  | _ => 31
  end.

Definition next_day (date : Z * Z * Z) : Z * Z * Z :=
  let '(y, m, d) := date in
  if d <? days_in_month y m then (y, m, d + 1)
  else if m <? 12 then (y, m + 1, 1)
  else (y + 1, 1, 1).

(** The part of the algorithm within one era of 400 years, and the shift of a
    date by whole eras. *)
Definition civil_in_era (doe : Z) : Z * Z * Z :=
  let yoe := Z.quot (doe - Z.quot doe 1460 + Z.quot doe 36524 - Z.quot doe 146096) 365 in
  let doy := doe - (365 * yoe + Z.quot yoe 4 - Z.quot yoe 100) in
  let mp := Z.quot (5 * doy + 2) 153 in
  let d := doy - Z.quot (153 * mp + 2) 5 + 1 in
  let m := if mp <? 10 then mp + 3 else mp - 9 in
  (if m <=? 2 then yoe + 1 else yoe, m, d).

Definition shift (era : Z) (date : Z * Z * Z) : Z * Z * Z :=
  let '(y, m, d) := date in (y + era * 400, m, d).

Lemma quot_floor z :
  Z.quot (if 0 <=? z then z else z - 146096) 146097 = z / 146097.
Proof.
  destruct (Z.leb_spec 0 z).
  - by rewrite Z.quot_div_nonneg by lia.
  - rewrite <- (Z.opp_involutive (z - 146096)), Z.quot_opp_l, Z.quot_div_nonneg by lia.
    assert (H1 := Z.div_mod (- (z - 146096)) 146097). assert (H2 := Z.div_mod z 146097).
    assert (H3 := Z.mod_pos_bound (- (z - 146096)) 146097). assert (H4 := Z.mod_pos_bound z 146097).
    lia.
Qed.

Lemma civil_era days :
  civil_from_days days =
  shift ((days + 719468) / 146097) (civil_in_era ((days + 719468) mod 146097)).
Proof.
  unfold civil_from_days. rewrite quot_floor.
  replace (days + 719468 - (days + 719468) / 146097 * 146097) with ((days + 719468) mod 146097)
    by (rewrite Z.mod_eq by lia; lia).
  unfold civil_in_era, shift. cbv zeta. destruct (_ <=? 2); f_equal; f_equal; lia.
Qed.

Lemma leap_shift y k : leap (y + k * 400) = leap y.
Proof.
  unfold leap. replace (y + k * 400) with (y + (k * 100) * 4) at 1 by lia. rewrite Z.mod_add by lia.
  replace (y + k * 400) with (y + (k * 4) * 100) at 1 by lia. rewrite !Z.mod_add by lia. done.
Qed.

Lemma next_day_shift k date : next_day (shift k date) = shift k (next_day date).
Proof.
  destruct date as [[y m] d]. unfold next_day, shift.
  assert (H : days_in_month (y + k * 400) m = days_in_month y m).
  { unfold days_in_month. rewrite leap_shift. done. }
  rewrite H. destruct (_ <? _); [done|]. destruct (_ <? _); [done|]. f_equal; f_equal; lia.
Qed.

(** The days of one era, by evaluation. *)
Fixpoint era_ok (n : nat) (doe : Z) (date : Z * Z * Z) : bool :=
  match n with
  | O => true
  | S n' => let date' := civil_in_era (doe + 1) in
            bool_decide (next_day date = date') && era_ok n' (doe + 1) date'
  end.

Lemma era_ok_sound n doe k :
  era_ok n doe (civil_in_era doe) = true -> 0 <= k < Z.of_nat n ->
  next_day (civil_in_era (doe + k)) = civil_in_era (doe + k + 1).
Proof.
  revert doe k. induction n as [|n IH]; intros doe k H Hk; [lia|]. cbn [era_ok] in H.
  apply andb_true_iff in H as [H1 H2]. apply bool_decide_eq_true in H1.
  destruct (decide (k = 0)) as [->|Hne]; [by rewrite Z.add_0_r|].
  replace (doe + k) with (doe + 1 + (k - 1)) by lia. apply IH; [done|lia].
Qed.

Lemma era_days doe :
  0 <= doe < 146096 -> next_day (civil_in_era doe) = civil_in_era (doe + 1).
Proof.
  intros H. assert (Hok : era_ok (Z.to_nat 146096) 0 (civil_in_era 0) = true) by (vm_compute; reflexivity).
  apply (era_ok_sound _ _ doe) in Hok; [exact Hok|lia].
Qed.

(** ** Properties *)

(** Day 0 is 1 January 1970, and for every day, before or after it, the
    date of the following day is the calendar's next date: leap years, months
    and centuries included. *)
Theorem civil_from_days_is_the_calendar :
  civil_from_days 0 = (1970, 1, 1) /\
  forall days, next_day (civil_from_days days) = civil_from_days (days + 1).
Proof.
  split; [reflexivity|]. intros days. rewrite !civil_era, next_day_shift.
  set (z := days + 719468). replace (days + 1 + 719468) with (z + 1) by lia.
  assert (Hm := Z.mod_pos_bound z 146097). assert (Hd := Z.div_mod z 146097).
  destruct (decide (z mod 146097 = 146096)) as [E|E].
  - assert (Hq : (z + 1) / 146097 = z / 146097 + 1) by (symmetry; apply (Z.div_unique _ _ _ 0); lia).
    assert (Hr : (z + 1) mod 146097 = 0) by (symmetry; apply (Z.mod_unique _ _ (z / 146097 + 1)); lia).
    rewrite Hq, Hr, E. unfold shift. vm_compute (next_day _). vm_compute (civil_in_era 0).
    f_equal; f_equal; lia.
  - assert (Hq : (z + 1) / 146097 = z / 146097) by (symmetry; apply (Z.div_unique _ _ _ (z mod 146097 + 1)); lia).
    assert (Hr : (z + 1) mod 146097 = z mod 146097 + 1) by (symmetry; apply (Z.mod_unique _ _ (z / 146097)); lia).
    rewrite Hq, Hr, era_days by lia. done.
Qed.

(** Extracting from a date (a day count whose microseconds fit an [i64]) gives
    the fields of that calendar day. *)
Lemma extract_from_date v :
  Z.abs v <= 106751991 ->
  (extract_datetime_field Year v, extract_datetime_field Month v, extract_datetime_field Day v)
  = civil_from_days v.
Proof.
  intros H. unfold extract_datetime_field.
  assert (Ht : (Z.abs v <? DAYS_LIKE_THRESHOLD) = true).
  { apply Z.ltb_lt. unfold DAYS_LIKE_THRESHOLD. lia. }
  rewrite Ht. assert (Hs : saturating_mul v MICROS_PER_DAY = v * MICROS_PER_DAY).
  { unfold saturating_mul, i64_min, i64_max, MICROS_PER_DAY. lia. }
  rewrite Hs, Z.quot_mul by done. by destruct (civil_from_days v) as [[y m] d].
Qed.

(** The second field is the number of seconds since the epoch, not the second of
    the minute. *)
Lemma extract_second_is_total v :
  DAYS_LIKE_THRESHOLD <= Z.abs v -> extract_datetime_field Second v = Z.quot v 1000000.
Proof.
  intros H. unfold extract_datetime_field.
  assert (Ht : (Z.abs v <? DAYS_LIKE_THRESHOLD) = false) by (apply Z.ltb_ge; lia).
  by rewrite Ht.
Qed.

(** The last second of 2023 is reported as second 1704067199. *)
Example extract_second_example :
  extract_datetime_field Second 1704067199000000 = 1704067199.
Proof. reflexivity. Qed.

(** 31 December 1969 at noon, minus a month, is placed on the following day: the
    division truncates towards the epoch. *)
Example extract_before_epoch_example :
  civil_from_days (-1728000000000 / MICROS_PER_DAY) = (1969, 12, 12) /\
  extract_datetime_field Day (-1728000000001) = 12 /\
  civil_from_days ((-1728000000001) / MICROS_PER_DAY) = (1969, 12, 11).
Proof. split_and!; reflexivity. Qed.

End Datetime.
