(* ===== verification/Expr.v ===== *)
(** * Expr: evaluation of [WHERE] and [HAVING] expressions
    ([crates/tpt-archon-relational/src/executor/expr.rs])

    Indexing a row out of bounds panics.  The lookup of a column is generic in
    the type of the cells, so that it resolves types the way it resolves
    values. *)
From Stdlib Require Import ZArith Lia Strings.Byte Strings.String Floats.SpecFloat.
From stdpp Require Import base numbers option list.
From S2P Require Import Prelude Ast Value Datetime.

Module Expr.
Import Ast(str, lit, f32, CmpOp, Expr).
Import Value(Value, Int, Float, Text, Vector, Bool, Null, ExecError).

(** ** Names *)

Definition DOT : byte := "."%byte.

(** [rfind('.')]. *)
Fixpoint rfind_dot (s : str) : option nat :=
  match s with
  | [] => None
  | c :: s' =>
      match rfind_dot s' with
      | Some i => Some (S i)
      | None => if Byte.eqb c DOT then Some 0 else None
      end
  end.

(** [c.rfind('.').map_or(c, |i| &c[i + 1..])]. *)
Definition unqualified (c : str) : str :=
  match rfind_dot c with Some i => drop (i + 1) c | None => c end.

Section Find.
Context {V : Type}.

(** [columns.iter().position(p)] and then [&row[idx]]. *)
Definition find_in {E} (p : str -> bool) (columns : list str) (row : list V)
    : outcome E (option V) :=
  match position p columns with
  | Some idx => match row !! idx with Some v => Ok (Some v) | None => Panic end
  | None => Ok None
  end.

(** The first scope in which the column is found. *)
Fixpoint find_outer {E} (p : str -> bool) (outer : list (list str * list V))
    : outcome E (option V) :=
  match outer with
  | [] => Ok None
  | (ocols, orow) :: outer' =>
      match find_in p ocols orow with
      | Ok None => find_outer p outer'
      | r => r
      end
  end.

(** [or_else] on lookups. *)
Definition orelse {E} (a : outcome E (option V)) (b : outcome E (option V))
    : outcome E (option V) :=
  match a with Ok None => b | r => r end.

Definition find_value {E} (name : str) (columns : list str) (row : list V)
    (outer : list (list str * list V)) (valid_qualifiers : list str) : outcome E (option V) :=
  let exact := fun c => bool_decide (c = name) in
  orelse (find_in exact columns row)
    (match rfind_dot name with
     | Some dot =>
         orelse (find_outer exact outer)
           (let qualifier := take dot name in
            let stripped := drop (dot + 1) name in
            if negb (bool_decide (valid_qualifiers = []))
               && negb (bool_decide (qualifier ∈ valid_qualifiers))
            then Ok None
            else
              let suffix := fun c => bool_decide (unqualified c = stripped) in
              orelse (find_in suffix columns row) (find_outer suffix outer))
     | None =>
         let suffix := fun c => bool_decide (unqualified c = name) in
         orelse (find_in suffix columns row) (find_outer suffix outer)
     end).

(** [.ok_or_else(|| UnknownColumn(..))]. *)
Definition lookup_column (name : str) (columns : list str) (row : list V)
    (outer : list (list str * list V)) (valid_qualifiers : list str) : outcome ExecError V :=
  match find_value name columns row outer valid_qualifiers with
  | Ok (Some v) => Ok v
  | Ok None => Err (Value.UnknownColumn name)
  | Err e => Err e
  | Panic => Panic
  end.

End Find.

(** ** Comparisons *)

(** [PartialOrd] on a totally ordered type, from its [cmp]. *)
Definition eval_cmp (op : CmpOp) (c : comparison) : bool :=
  match op, c with
  | Ast.Eq, Eq => true
  | Ast.Ne, (Lt | Gt) => true
  | Ast.Lt, Lt => true
  | Ast.Le, (Lt | Eq) => true
  | Ast.Gt, Gt => true
  | Ast.Ge, (Gt | Eq) => true
  | _, _ => false
  end.

(** IEEE comparison: a NaN is unordered with everything. *)
Definition eval_float_cmp (op : CmpOp) (l r : f32) : bool :=
  match SFcompare (Value.f32_spec l) (Value.f32_spec r) with
  | Some c => eval_cmp op c
  | None => match op with Ast.Ne => true | _ => false end
  end.

Definition eval_text_cmp (op : CmpOp) (l r : str) : bool := eval_cmp op (Value.str_cmp l r).

Definition PERCENT : byte := "%"%byte.
Definition UNDERSCORE : byte := "_"%byte.

Fixpoint like_recurse (text pat : str) {struct pat} : bool :=
  match pat with
  | [] => bool_decide (text = [])
  | c :: pat' =>
      if Byte.eqb c PERCENT then
        existsb (fun i => like_recurse (drop i text) pat') (seq 0 (S (length text)))
      else if Byte.eqb c UNDERSCORE then
        match text with [] => false | _ :: text' => like_recurse text' pat' end
      else
        match text with
        | [] => false
        | t :: text' => if negb (Byte.eqb t c) then false else like_recurse text' pat'
        end
  end.

Definition like_match (text pattern : str) : bool := like_recurse text pattern.

(** ** Evaluation *)

(** The comparison of two values; [Bool]s are comparable when [bools]. *)
Definition cmp_values (bools : bool) (op : CmpOp) (l r : Value) : outcome ExecError (option bool) :=
  match l, r with
  | Null, _ | _, Null => Ok None
  | Int l, Int r => Ok (Some (eval_cmp op (l ?= r)%Z))
  | Float l, Float r => Ok (Some (eval_float_cmp op l r))
  | Text l, Text r => Ok (Some (eval_text_cmp op l r))
  | Bool l, Bool r =>
      if bools then Ok (Some (eval_cmp op (Value.bool_cmp l r))) else Err Value.TypeMismatch
  | _, _ => Err Value.TypeMismatch
  end.

(** [agg_default_alias] of [aggregate.rs]. *)
Definition agg_default_alias (func : Ast.AggregateFunc) (column : str) : str :=
  let tag := match func with
             | Ast.Count => lit "count"
             | Ast.Sum => lit "sum"
             | Ast.Avg => lit "avg"
             | Ast.Min => lit "min"
             | Ast.Max => lit "max"
             end in
  if decide (column = lit "*") then tag else tag ++ lit "(" ++ column ++ lit ")".

Definition kleene_and (l r : option bool) : option bool :=
  match l, r with
  | Some false, _ | _, Some false => Some false
  | Some true, Some true => Some true
  | _, _ => None
  end.

Definition kleene_or (l r : option bool) : option bool :=
  match l, r with
  | Some true, _ | _, Some true => Some true
  | Some false, Some false => Some false
  | _, _ => None
  end.

Definition kleene_not (b : option bool) : option bool := negb <$> b.

(** Both operands are evaluated, the left one first. *)
Definition both (l r : outcome ExecError (option bool)) (f : option bool -> option bool -> option bool)
    : outcome ExecError (option bool) :=
  match l with
  | Ok a => match r with Ok b => Ok (f a b) | Err e => Err e | Panic => Panic end
  | Err e => Err e
  | Panic => Panic
  end.

Definition obind {E A B} (o : outcome E A) (f : A -> outcome E B) : outcome E B :=
  match o with Ok a => f a | Err e => Err e | Panic => Panic end.

Section Eval.
Context (columns : list str) (row : list Value) (outer : list (list str * list Value))
  (valid_qualifiers : list str).

Fixpoint eval_expr_scoped (expr : Expr) : outcome ExecError (option bool) :=
  match expr with
  | Ast.Cmp column op value =>
      obind (lookup_column column columns row outer valid_qualifiers) (fun v =>
      cmp_values true op v (Value.literal_to_value value))
  | Ast.CmpColumn left_ op right_ =>
      obind (lookup_column left_ columns row outer valid_qualifiers) (fun lv =>
      obind (lookup_column right_ columns row outer valid_qualifiers) (fun rv =>
      cmp_values true op lv rv))
  | Ast.IsNull column negated =>
      obind (lookup_column column columns row outer valid_qualifiers) (fun v =>
      let is_null := match v with Null => true | _ => false end in
      Ok (Some (negb (Bool.eqb is_null negated))))
  | Ast.Like column pattern =>
      obind (lookup_column column columns row outer valid_qualifiers) (fun v =>
      match v with
      | Text t => Ok (Some (like_match t pattern))
      | Null => Ok None
      | _ => Ok (Some false)
      end)
  | Ast.InInt column values =>
      obind (lookup_column column columns row outer valid_qualifiers) (fun v =>
      match v with
      | Int v => Ok (Some (bool_decide (v ∈ values)))
      | Null => Ok None
      | _ => Ok (Some false)
      end)
  | Ast.BetweenInt column low high =>
      obind (lookup_column column columns row outer valid_qualifiers) (fun v =>
      match v with
      | Int v => Ok (Some ((low <=? v)%Z && (v <=? high)%Z))
      | Null => Ok None
      | _ => Ok (Some false)
      end)
  | Ast.And l r => both (eval_expr_scoped l) (eval_expr_scoped r) kleene_and
  | Ast.Or l r => both (eval_expr_scoped l) (eval_expr_scoped r) kleene_or
  | Ast.Not inner => obind (eval_expr_scoped inner) (fun b => Ok (kleene_not b))
  | Ast.Agg func column =>
      obind (lookup_column (agg_default_alias func column) columns row outer valid_qualifiers) (fun v =>
      Ok (Some (match v with Null => false | _ => true end)))
  | Ast.AggCmp func column op value =>
      obind (lookup_column (agg_default_alias func column) columns row outer valid_qualifiers) (fun v =>
      cmp_values false op v (Value.literal_to_value value))
  | Ast.ExtractCmp field source op value =>
      obind (lookup_column source columns row outer valid_qualifiers) (fun v =>
      match v, Value.literal_to_value value with
      | Null, _ | _, Null => Ok None
      | Int n, Int r =>
          Ok (Some (eval_cmp op (Datetime.extract_datetime_field field n ?= r)%Z))
      | _, _ => Err Value.TypeMismatch
      end)
  | Ast.Exists_ _ | Ast.InSubquery _ _ | Ast.ScalarCmp _ _ _ => Err Value.UnresolvedSubquery
  end.

End Eval.

Definition eval_expr (expr : Expr) (columns : list str) (row : list Value)
    (valid_qualifiers : list str) : outcome ExecError bool :=
  match eval_expr_scoped columns row [] valid_qualifiers expr with
  | Ok (Some b) => Ok b
  | Ok None => Ok false
  | Err e => Err e
  | Panic => Panic
  end.

Definition eval_scalar (expr : Expr) (columns : list str) (row : list Value)
    (valid_qualifiers : list str) : outcome ExecError (option Value) :=
  match eval_expr_scoped columns row [] valid_qualifiers expr with
  | Ok (Some true) => Ok (Some (Int 1))
  | Ok (Some false) => Ok (Some (Int 0))
  | Ok None => Ok None
  | Err e => Err e
  | Panic => Panic
  end.

(** ** LIKE *)

(** What a pattern matches, byte by byte. *)
Inductive matches : str -> str -> Prop :=
| matches_nil : matches [] []
| matches_any t1 t2 p : matches t2 p -> matches (t1 ++ t2) (PERCENT :: p)
| matches_one c t p : matches t p -> matches (c :: t) (UNDERSCORE :: p)
| matches_byte c t p : c <> PERCENT -> c <> UNDERSCORE -> matches t p -> matches (c :: t) (c :: p).

(** C37: [LIKE] succeeds exactly when the pattern matches: [%] any sequence of bytes,
    [_] any one byte, any other byte itself; the search over [%] always ends. *)
Theorem like_is_pattern_matching t p : like_match t p = true <-> matches t p.
Proof.
  unfold like_match. split.
  - revert t. induction p as [|c p IH]; intros t H; cbn [like_recurse] in H.
    + apply bool_decide_eq_true in H as ->. constructor.
    + destruct (Byte.eqb c PERCENT) eqn:E1.
      * apply Byte.byte_dec_bl in E1 as ->. apply existsb_exists in H as (i & _ & H).
        rewrite <- (take_drop i t). constructor. by apply IH.
      * destruct (Byte.eqb c UNDERSCORE) eqn:E2; destruct t as [|x t]; try discriminate.
        -- apply Byte.byte_dec_bl in E2 as ->. constructor. by apply IH.
        -- destruct (Byte.eqb x c) eqn:E3; [|discriminate H]. apply Byte.byte_dec_bl in E3 as ->.
           constructor; [| |by apply IH].
           ++ intros ->. discriminate E1.
           ++ intros ->. discriminate E2.
  - intros Hm. induction Hm as [|t1 t2 p Hm IH|c t p Hm IH|c t p H1 H2 Hm IH]; cbn [like_recurse].
    + reflexivity.
    + change (Byte.eqb PERCENT PERCENT) with true. apply existsb_exists. exists (length t1).
      split; [apply in_seq; rewrite length_app; lia|]. by rewrite drop_app_length.
    + exact IH.
    + assert (E1 : Byte.eqb c PERCENT = false).
      { apply not_true_iff_false. by intros E%Byte.byte_dec_bl. }
      assert (E2 : Byte.eqb c UNDERSCORE = false).
      { apply not_true_iff_false. by intros E%Byte.byte_dec_bl. }
      rewrite E1, E2, (Byte.byte_dec_lb (eq_refl c)). exact IH.
Qed.

(** A character of two bytes is not one [_]. *)
Example like_underscore_is_a_byte : like_match [xc3; xa9] [UNDERSCORE] = false.
Proof. reflexivity. Qed.

(** ** Typing *)

Inductive ty : Type := YInt | YFloat | YText | YVector | YBool.

#[global] Instance ty_eq_dec : EqDecision ty.
Proof. solve_decision. Defined.

(** A value of a nullable column. *)
Definition has_type (v : Value) (t : ty) : Prop :=
  match v, t with
  | Null, _ | Int _, YInt | Float _, YFloat | Text _, YText | Vector _, YVector | Bool _, YBool => True
  | _, _ => False
  end.

(** A literal can be compared with a column of the type. *)
Definition comparable (bools : bool) (t : ty) (l : Ast.Literal) : bool :=
  match l, t with
  | Ast.LNull, _ => true
  | Ast.LInt _, YInt | Ast.LFloat _, YFloat | Ast.LText _, YText => true
  | Ast.LBool _, YBool => bools
  | _, _ => false
  end.

Definition column_type (columns : list str) (types : list ty) (q : list str) (name : str) : option ty :=
  match lookup_column name columns types [] q with Ok t => Some t | _ => None end.

Fixpoint well_typed (columns : list str) (types : list ty) (q : list str) (e : Expr) : bool :=
  let col := column_type columns types q in
  match e with
  | Ast.Cmp c _ v => match col c with Some t => comparable true t v | None => false end
  | Ast.CmpColumn l _ r =>
      match col l, col r with
      | Some t, Some t' => bool_decide (t = t') && negb (bool_decide (t = YVector))
      | _, _ => false
      end
  | Ast.IsNull c _ | Ast.Like c _ | Ast.InInt c _ | Ast.BetweenInt c _ _ =>
      bool_decide (is_Some (col c))
  | Ast.And l r | Ast.Or l r => well_typed columns types q l && well_typed columns types q r
  | Ast.Not e' => well_typed columns types q e'
  | Ast.Agg f c => bool_decide (is_Some (col (agg_default_alias f c)))
  | Ast.AggCmp f c _ v =>
      match col (agg_default_alias f c) with Some t => comparable false t v | None => false end
  | Ast.ExtractCmp _ c _ v =>
      match col c, v with
      | Some _, Ast.LNull => true
      | Some YInt, Ast.LInt _ => true
      | _, _ => false
      end
  | Ast.Exists_ _ | Ast.InSubquery _ _ | Ast.ScalarCmp _ _ _ => false
  end.

(** Looking a column up in related rows gives related cells. *)
Lemma find_in_rel {V W E} (R : V -> W -> Prop) p columns (r1 : list V) (r2 : list W) w :
  Forall2 R r1 r2 -> find_in (E := E) p columns r2 = Ok (Some w) ->
  exists v, find_in (E := E) p columns r1 = Ok (Some v) /\ R v w.
Proof.
  intros HR H. unfold find_in in *. destruct (position p columns) as [i|]; [|done].
  destruct (r2 !! i) as [w'|] eqn:Ew; [|done]. injection H as <-.
  destruct (Forall2_lookup_r _ _ _ _ _ HR Ew) as (v & -> & Hv). by exists v.
Qed.

Lemma find_in_none {V W E} (R : V -> W -> Prop) p columns (r1 : list V) (r2 : list W) :
  Forall2 R r1 r2 -> find_in (E := E) p columns r2 = Ok None -> find_in (E := E) p columns r1 = Ok None.
Proof.
  unfold find_in. destruct (position p columns) as [i|]; [|done]. by destruct (r2 !! i).
Qed.

Lemma orelse_inv {V E} (a b : outcome E (option V)) v :
  orelse a b = Ok (Some v) -> a = Ok (Some v) \/ (a = Ok None /\ b = Ok (Some v)).
Proof. destruct a as [[w|]|e|]; simpl; auto. Qed.

Lemma orelse_rel {V W E} (R : V -> W -> Prop) p columns (r1 : list V) (r2 : list W) b1 b2 w :
  Forall2 R r1 r2 ->
  (b2 = Ok (Some w) -> exists v, b1 = Ok (Some v) /\ R v w) ->
  orelse (find_in (E := E) p columns r2) b2 = Ok (Some w) ->
  exists v, orelse (find_in (E := E) p columns r1) b1 = Ok (Some v) /\ R v w.
Proof.
  intros HR Hb H. apply orelse_inv in H as [H|[H1 H2]].
  - destruct (find_in_rel R p columns r1 r2 w HR H) as (v & -> & Hv). by exists v.
  - rewrite (find_in_none R p columns r1 r2 HR H1). simpl. by apply Hb.
Qed.

Lemma lookup_column_typed columns types row q name t :
  Forall2 has_type row types -> column_type columns types q name = Some t ->
  exists v, lookup_column name columns row [] q = Ok v /\ has_type v t.
Proof.
  intros HR H. unfold column_type, lookup_column in *.
  destruct (find_value name columns types [] q) as [[t'|]|e|] eqn:E; [|done..]. injection H as ->.
  cut (exists v, find_value (E := ExecError) name columns row [] q = Ok (Some v) /\ has_type v t).
  { intros (v & -> & Hv). by exists v. }
  unfold find_value in *. revert E. apply (orelse_rel has_type); [done|].
  destruct (rfind_dot name) as [dot|]; simpl.
  - case_match; [done|]. apply (orelse_rel has_type); [done|done].
  - apply (orelse_rel has_type); [done|done].
Qed.

Lemma cmp_values_typed bools op v t l :
  has_type v t -> comparable bools t l = true ->
  exists b, cmp_values bools op v (Value.literal_to_value l) = Ok b.
Proof.
  intros Hv Hc. destruct v, t; try done; destruct l; try done; simpl in *; eauto.
  subst bools. eauto.
Qed.

Lemma cmp_columns_typed op v v' t :
  has_type v t -> has_type v' t -> t <> YVector -> exists b, cmp_values true op v v' = Ok b.
Proof. intros H1 H2 Ht. destruct t; try done; destruct v; try done; destruct v'; try done; simpl; eauto. Qed.

(** Progress for predicates. *)
Lemma well_typed_evaluates columns types row q e :
  Forall2 has_type row types -> well_typed columns types q e = true ->
  exists b, eval_expr_scoped columns row [] q e = Ok b /\
            eval_expr e columns row q = Ok (bool_decide (b = Some true)).
Proof.
  intros HR Hw. cut (exists b, eval_expr_scoped columns row [] q e = Ok b).
  { intros [b E]. exists b. split; [done|]. unfold eval_expr. rewrite E. by destruct b as [[]|]. }
  assert (Hcol : forall c, is_Some (column_type columns types q c) ->
    exists v, lookup_column c columns row [] q = Ok v).
  { intros c [t Ht]. destruct (lookup_column_typed _ _ _ _ _ _ HR Ht) as (v & Hv & _). by exists v. }
  induction e; cbn [well_typed eval_expr_scoped] in *; try discriminate Hw.
  - destruct (column_type _ _ _ _) as [t|] eqn:Et; [|done].
    destruct (lookup_column_typed _ _ _ _ _ _ HR Et) as (v & -> & Hv). simpl.
    by eapply cmp_values_typed.
  - destruct (column_type columns types q left) as [t|] eqn:El; [|done].
    destruct (column_type columns types q right) as [t'|] eqn:Er; [|done].
    apply andb_true_iff in Hw as [H1 H2]. apply bool_decide_eq_true in H1 as <-.
    apply negb_true_iff, bool_decide_eq_false in H2.
    destruct (lookup_column_typed _ _ _ _ _ _ HR El) as (v & -> & Hv).
    destruct (lookup_column_typed _ _ _ _ _ _ HR Er) as (v' & -> & Hv'). simpl.
    by eapply cmp_columns_typed.
  - apply bool_decide_eq_true in Hw. destruct (Hcol _ Hw) as [v ->]. simpl. eauto.
  - apply bool_decide_eq_true in Hw. destruct (Hcol _ Hw) as [v ->]. destruct v; simpl; eauto.
  - apply bool_decide_eq_true in Hw. destruct (Hcol _ Hw) as [v ->]. destruct v; simpl; eauto.
  - apply bool_decide_eq_true in Hw. destruct (Hcol _ Hw) as [v ->]. destruct v; simpl; eauto.
  - apply andb_true_iff in Hw as [H1 H2]. destruct (IHe1 H1) as [a ->], (IHe2 H2) as [b ->].
    simpl. eauto.
  - apply andb_true_iff in Hw as [H1 H2]. destruct (IHe1 H1) as [a ->], (IHe2 H2) as [b ->].
    simpl. eauto.
  - destruct (IHe Hw) as [b ->]. simpl. eauto.
  - apply bool_decide_eq_true in Hw. destruct (Hcol _ Hw) as [v ->]. simpl. eauto.
  - destruct (column_type _ _ _ _) as [t|] eqn:Et; [|done].
    destruct (lookup_column_typed _ _ _ _ _ _ HR Et) as (v & -> & Hv). simpl.
    by eapply cmp_values_typed.
  - destruct (column_type _ _ _ _) as [t|] eqn:Et; [|done].
    destruct (lookup_column_typed _ _ _ _ _ _ HR Et) as (v & -> & Hv). simpl.
    destruct t, value; try done; destruct v; try done; simpl; eauto.
Qed.

(** C36: A predicate that type-checks against a table's column types evaluates,
    on every row of those types, NULLs included, to true, false or unknown: no
    error and no out-of-bounds access; and [eval_expr] keeps the row exactly
    when the answer is true. *)
Theorem well_typed_predicates_evaluate columns types row q e :
  Forall2 has_type row types -> well_typed columns types q e = true ->
  exists b, eval_expr_scoped columns row [] q e = Ok b /\
            eval_expr e columns row q = Ok (bool_decide (b = Some true)).
Proof. apply well_typed_evaluates. Qed.

Lemma well_typed_predicates_evaluate_witness :
  let e := Ast.And (Ast.Cmp (lit "t.a") Ast.Gt (Ast.LInt 3))
                   (Ast.Not (Ast.Like (lit "b") (lit "x%"))) in
  let cols := [lit "a"; lit "b"] in
  exists b, eval_expr_scoped cols [Int 5; Null] [] [lit "t"] e = Ok b /\
            eval_expr e cols [Int 5; Null] [lit "t"] = Ok (bool_decide (b = Some true)).
Proof.
  intros e cols. apply (well_typed_predicates_evaluate cols [YInt; YText] [Int 5; Null] [lit "t"] e).
  - repeat constructor.
  - vm_compute. reflexivity.
Defined.

(** De Morgan and double negation hold in the three-valued logic, errors
    included. *)
Lemma kleene_de_morgan columns row outer q a b :
  eval_expr_scoped columns row outer q (Ast.Not (Ast.And a b)) =
  eval_expr_scoped columns row outer q (Ast.Or (Ast.Not a) (Ast.Not b)) /\
  eval_expr_scoped columns row outer q (Ast.Not (Ast.Not a)) =
  eval_expr_scoped columns row outer q a.
Proof.
  cbn [eval_expr_scoped].
  destruct (eval_expr_scoped columns row outer q a) as [[[]|]|e|];
    destruct (eval_expr_scoped columns row outer q b) as [[[]|]|e'|]; done.
Qed.

End Expr.
