(* ===== verification/VectorIndex.v ===== *)
(** * VectorIndex: nearest neighbours by inner product
    ([crates/tpt-archon-relational/src/vector_index.rs] and
    [executor/vector.rs])

    Floats are bit patterns and their arithmetic is [SpecFloat]'s, so the code is
    executable.  [sort_by] with [partial_cmp(..).unwrap_or(Equal)] is a stable
    insertion sort: where a score is a NaN the comparison is no order, and Rust
    leaves the result open and may panic, so the theorem on searching asks for
    scores that are numbers.  A count or an index is a [nat]. *)
From Stdlib Require Import ZArith Lia Strings.Byte Floats.SpecFloat.
From stdpp Require Import base numbers option list gmap sorting.
From S2P Require Import Prelude Ast Value.

Module VectorIndex.
Import Ast(f32).

(** ** Single-precision arithmetic *)

Definition f32_op (op : spec_float -> spec_float -> spec_float) (a b : f32) : f32 :=
  Value.f32_bits (op (Value.f32_spec a) (Value.f32_spec b)).
Definition f32_add : f32 -> f32 -> f32 := f32_op (SFadd 24 128).
Definition f32_sub : f32 -> f32 -> f32 := f32_op (SFsub 24 128).
Definition f32_mul : f32 -> f32 -> f32 := f32_op (SFmul 24 128).
Definition f32_div : f32 -> f32 -> f32 := f32_op (SFdiv 24 128).

Definition F_ZERO : f32 := 0%Z.
(** [-0.0], where [Iterator::sum] starts. *)
Definition F_NEG_ZERO : f32 := (2 ^ 31)%Z.
Definition F_HALF : f32 := 1056964608%Z.
Definition F_THREE_HALVES : f32 := 1069547520%Z.

(** [a.partial_cmp(&b).unwrap_or(Equal)]. *)
Definition f32_cmp (a b : f32) : comparison :=
  match SFcompare (Value.f32_spec a) (Value.f32_spec b) with Some c => c | None => Eq end.

Definition f32_le (a b : f32) : bool := SFleb (Value.f32_spec a) (Value.f32_spec b).

(** The sum of the products, over the shorter length. *)
Definition dot (a b : list f32) : f32 :=
  foldl f32_add F_NEG_ZERO (zip_with f32_mul a b).

Definition sqrt_f32 (x : f32) : f32 :=
  if f32_le x F_ZERO then F_ZERO
  else
    let y0 := wrap32 (1597463007 - Z.shiftr x 1) in
    let step y := f32_mul y (f32_sub F_THREE_HALVES (f32_mul (f32_mul (f32_mul F_HALF x) y) y)) in
    f32_mul x (step (step (step (step y0)))).

Definition normalize (v : list f32) : list f32 :=
  let norm := sqrt_f32 (dot v v) in
  if Value.f32_eqb norm F_ZERO then v else map (fun x => f32_div x norm) v.

#[global] Arguments f32_cmp : simpl never.
#[global] Arguments dot : simpl never.
#[global] Arguments normalize : simpl never.

(** ** Sorting by score *)

Section Sort.
Context {A : Type} (c : A -> A -> comparison).

(** [slice::sort_by] where [c] is a total preorder.  (Where it is not, the
    library may return any order or panic, which this total function cannot
    show.)  Insert after the elements that are not greater. *)
Fixpoint insert_by (x : A) (l : list A) : list A :=
  match l with
  | [] => [x]
  | y :: l' => match c y x with Gt => x :: l | _ => y :: insert_by x l' end
  end.

Definition sort_by (l : list A) : list A := foldl (fun s x => insert_by x s) [] l.
End Sort.

(** [|a, b| b.1.partial_cmp(&a.1).unwrap_or(Equal)]: the best score first. *)
Definition by_score {A} (a b : A * f32) : comparison := f32_cmp b.2 a.2.

(** [enumerate]. *)
Definition enumerate {A} (l : list A) : list (nat * A) := zip (seq 0 (length l)) l.

(** [executor::vector_topk]: the indices of the best [k] embeddings. *)
Definition vector_topk (embeddings : list (list f32)) (query : list f32) (k : nat) : list nat :=
  let scored := map (fun ie => (ie.1, dot ie.2 query)) (enumerate embeddings) in
  take k (map fst (sort_by by_score scored)).

(** ** Clusters *)

(** [max_by] keeps the last of equal maxima. *)
Definition max_by_score (l : list (nat * f32)) : option nat :=
  match l with
  | [] => None
  | x :: l' => Some (foldl (fun a b => match f32_cmp a.2 b.2 with Gt => a | _ => b end) x l').1
  end.

Definition nearest_cluster (centroids : list (list f32)) (unit_v : list f32) : nat :=
  default 0 (max_by_score (map (fun ic => (ic.1, dot ic.2 unit_v)) (enumerate centroids))).

Definition MIN_ROWS_FOR_INDEX : nat := 1000.
Definition DEFAULT_NPROBE : nat := 8.
Definition KMEANS_ITERS : nat := 4.

(** The binary search of [nlist_for]: an [usize] product that overflows is
    greater than [n]. *)
Fixpoint isqrt_loop (fuel n lo hi : nat) : nat :=
  match fuel with
  | O => lo
  | S fuel' =>
      if lo <? hi then
        let mid := lo + (hi - lo + 1) / 2 in
        if mid * mid <=? n then isqrt_loop fuel' n mid hi else isqrt_loop fuel' n lo (mid - 1)
      else lo
  end.

Definition nlist_for (n : nat) : nat := Nat.min 256 (Nat.max 1 (isqrt_loop n n 0 n)).

(** [v[i]]. *)
Definition at_ {E A} (l : list A) (i : nat) : outcome E A :=
  match l !! i with Some x => Ok x | None => Panic end.

(** [f(&mut v[i])]. *)
Definition update {E A} (f : A -> A) (i : nat) (l : list A) : outcome E (list A) :=
  match l !! i with Some x => Ok (<[i := f x]> l) | None => Panic end.

Definition obind {E A B} (o : outcome E A) (f : A -> outcome E B) : outcome E B :=
  match o with Ok a => f a | Err e => Err e | Panic => Panic end.

Fixpoint seed_loop {E} (unit_vectors : list (list f32)) (nlist : nat) (is_ : list nat)
    : outcome E (list (list f32)) :=
  match is_ with
  | [] => Ok []
  | i :: is' =>
      obind (at_ unit_vectors (i * length unit_vectors / nlist)) (fun v =>
      obind (seed_loop unit_vectors nlist is') (fun vs => Ok (v :: vs)))
  end.

Definition seed_centroids {E} (unit_vectors : list (list f32)) (nlist : nat)
    : outcome E (list (list f32)) := seed_loop unit_vectors nlist (seq 0 nlist).

(** ** The index *)

Record IvfFlatIndex : Type := mkIndex {
  dim_ : nat;
  centroids : list (list f32);
  lists : list (list (Z * list f32));
  id_to_list : gmap Z nat;
}.

(** One pass over the vectors: every vector joins the sum of its cluster.  A
    [zip] stops at the shorter of the two. *)
Definition add_into (s x : list f32) : list f32 :=
  zip_with f32_add s x ++ drop (length x) s.

Fixpoint assign_loop {E} (cs unit_vectors : list (list f32)) (sums : list (list f32)) (counts : list nat)
    : outcome E (list (list f32) * list nat) :=
  match unit_vectors with
  | [] => Ok (sums, counts)
  | uv :: uvs =>
      let c := nearest_cluster cs uv in
      obind (update (fun s => add_into s uv) c sums) (fun sums =>
      obind (update S c counts) (fun counts => assign_loop cs uvs sums counts))
  end.

(** The new centroid of a cluster: the normalised mean, or the old one when it
    is empty. *)
Definition mean_into (centroid sum : list f32) (count : nat) : list f32 :=
  zip_with (fun _ s => f32_div s (Value.f32_of_int (Z.of_nat count))) centroid sum
    ++ drop (length sum) centroid.

Fixpoint recentre_loop {E} (cs : list (list f32)) (sums : list (list f32)) (counts : list nat)
    (is_ : list nat) : outcome E (list (list f32)) :=
  match is_ with
  | [] => Ok cs
  | c :: is' =>
      obind (at_ counts c) (fun n =>
      if 0 <? n then
        obind (at_ sums c) (fun s =>
        obind (update (fun cen => normalize (mean_into cen s n)) c cs) (fun cs =>
        recentre_loop cs sums counts is'))
      else recentre_loop cs sums counts is')
  end.

Fixpoint kmeans {E} (iters : nat) (dim nlist : nat) (unit_vectors cs : list (list f32))
    : outcome E (list (list f32)) :=
  match iters with
  | O => Ok cs
  | S iters' =>
      obind (assign_loop cs unit_vectors (replicate nlist (replicate dim F_ZERO)) (replicate nlist 0)) (fun sc =>
      obind (recentre_loop cs sc.1 sc.2 (seq 0 nlist)) (fun cs => kmeans iters' dim nlist unit_vectors cs))
  end.

(** The loop that fills the lists. *)
Fixpoint fill_loop {E} (cs : list (list f32)) (vectors : list ((Z * list f32) * list f32))
    (ls : list (list (Z * list f32))) (ids : gmap Z nat)
    : outcome E (list (list (Z * list f32)) * gmap Z nat) :=
  match vectors with
  | [] => Ok (ls, ids)
  | ((id, v), uv) :: rest =>
      let c := nearest_cluster cs uv in
      obind (update (fun l => l ++ [(id, v)]) c ls) (fun ls =>
      fill_loop cs rest ls (<[id := c]> ids))
  end.

Definition build {E} (vectors : list (Z * list f32)) : outcome E IvfFlatIndex :=
  match vectors with
  | [] => Panic
  | (_, v0) :: _ =>
      let dim := length v0 in
      let nlist := nlist_for (length vectors) in
      let unit_vectors := map (fun iv => normalize iv.2) vectors in
      obind (seed_centroids unit_vectors nlist) (fun cs =>
      obind (kmeans KMEANS_ITERS dim nlist unit_vectors cs) (fun cs =>
      obind (fill_loop cs (zip vectors unit_vectors) (replicate nlist []) ∅) (fun li =>
      Ok (mkIndex dim cs li.1 li.2))))
  end.

Definition dim (x : IvfFlatIndex) : nat := dim_ x.
Definition len (x : IvfFlatIndex) : nat := size (id_to_list x).
Definition is_empty (x : IvfFlatIndex) : bool := bool_decide (id_to_list x = ∅).

Definition remove {E} (id : Z) (x : IvfFlatIndex) : outcome E IvfFlatIndex :=
  match id_to_list x !! id with
  | Some c =>
      obind (update (List.filter (fun r => negb (r.1 =? id)%Z)) c (lists x)) (fun ls =>
      Ok (mkIndex (dim_ x) (centroids x) ls (delete id (id_to_list x))))
  | None => Ok x
  end.

Definition insert {E} (id : Z) (v : list f32) (x : IvfFlatIndex) : outcome E IvfFlatIndex :=
  obind (remove id x) (fun x =>
  let c := nearest_cluster (centroids x) (normalize v) in
  obind (update (fun l => l ++ [(id, v)]) c (lists x)) (fun ls =>
  Ok (mkIndex (dim_ x) (centroids x) ls (<[id := c]> (id_to_list x))))).

(** The entries of the probed clusters with their scores. *)
Fixpoint probe {E} (ls : list (list (Z * list f32))) (query : list f32) (cs : list nat)
    : outcome E (list (Z * f32)) :=
  match cs with
  | [] => Ok []
  | c :: cs' =>
      obind (at_ ls c) (fun l =>
      obind (probe ls query cs') (fun r => Ok (map (fun e => (e.1, dot e.2 query)) l ++ r)))
  end.

Definition search {E} (query : list f32) (k nprobe : nat) (x : IvfFlatIndex) : outcome E (list Z) :=
  if decide (centroids x = []) then Ok []
  else
    let nprobe := Nat.min (length (centroids x)) (Nat.max 1 nprobe) in
    let unit_query := normalize query in
    let ranked := sort_by by_score (map (fun ic => (ic.1, dot ic.2 unit_query)) (enumerate (centroids x))) in
    obind (probe (lists x) query (take nprobe (map fst ranked))) (fun scored =>
    Ok (take k (map fst (sort_by by_score scored)))).

(** ** The index holds a map from ids to vectors *)

Definition entries (x : IvfFlatIndex) : list (Z * list f32) := concat (lists x).

Record wf (x : IvfFlatIndex) : Prop := {
  wf_lists : length (lists x) = length (centroids x);
  wf_pos : 0 < length (centroids x);
  wf_ids : forall id c, id_to_list x !! id = Some c <->
             exists l v, lists x !! c = Some l /\ (id, v) ∈ l;
  wf_nodup : NoDup (map fst (entries x));
}.

Definition contents (x : IvfFlatIndex) : gmap Z (list f32) := list_to_map (entries x).

Lemma sort_insert_perm {A} (c : A -> A -> comparison) x l : insert_by c x l ≡ₚ x :: l.
Proof.
  induction l as [|y l IH]; [done|]. simpl. destruct (c y x); [| |done].
  all: rewrite IH; apply Permutation_swap.
Qed.

Lemma sort_by_perm {A} (c : A -> A -> comparison) l : sort_by c l ≡ₚ l.
Proof.
  unfold sort_by. assert (H : forall s, foldl (fun s x => insert_by c x s) s l ≡ₚ l ++ s).
  { induction l as [|x l IH]; intros s; [done|]. simpl. rewrite IH, sort_insert_perm.
    symmetry. apply Permutation_middle. }
  rewrite H. by rewrite app_nil_r.
Qed.

(** ** The scores are ordered *)

(** The parts a comparison of floats looks at, in order. *)
Definition spec_key (x : spec_float) : Z * Z * Z :=
  match x with
  | S754_infinity true => (-2, 0, 0)
  | S754_finite true m e => (-1, - e, Zneg m)
  | S754_zero _ | S754_nan => (0, 0, 0)
  | S754_finite false m e => (1, e, Zpos m)
  | S754_infinity false => (2, 0, 0)
  end%Z.

Definition key_cmp (a b : Z * Z * Z) : comparison :=
  match (a.1.1 ?= b.1.1)%Z with
  | Eq => match (a.1.2 ?= b.1.2)%Z with Eq => (a.2 ?= b.2)%Z | o => o end
  | o => o
  end.

Definition is_number (f : f32) : Prop := Value.f32_spec f <> S754_nan.

Lemma f32_cmp_key a b : is_number a -> is_number b ->
  f32_cmp a b = key_cmp (spec_key (Value.f32_spec a)) (spec_key (Value.f32_spec b)).
Proof.
  unfold is_number, f32_cmp. generalize (Value.f32_spec a) (Value.f32_spec b). clear.
  intros [[]|[]| |[] m e] [[]|[]| |[] m' e'] Ha Hb; try done; unfold key_cmp; cbn -[Z.compare].
  - replace (- e ?= - e')%Z with (CompOpp (e ?= e'))%Z.
    + by destruct (e ?= e')%Z.
    + rewrite Z.compare_opp. apply Z.compare_antisym || (symmetry; apply Z.compare_antisym).
Qed.

Lemma key_cmp_opp a b : key_cmp b a = CompOpp (key_cmp a b).
Proof.
  unfold key_cmp. rewrite (Z.compare_antisym a.1.1), (Z.compare_antisym a.1.2), (Z.compare_antisym a.2).
  by destruct (a.1.1 ?= b.1.1)%Z, (a.1.2 ?= b.1.2)%Z.
Qed.

Lemma key_cmp_trans a b d : key_cmp a b <> Gt -> key_cmp b d <> Gt -> key_cmp a d <> Gt.
Proof.
  unfold key_cmp.
  destruct (Z.compare_spec a.1.1 b.1.1), (Z.compare_spec b.1.1 d.1.1), (Z.compare_spec a.1.1 d.1.1);
    try lia; try done;
  destruct (Z.compare_spec a.1.2 b.1.2), (Z.compare_spec b.1.2 d.1.2), (Z.compare_spec a.1.2 d.1.2);
    try lia; try done.
  rewrite !Z.compare_gt_iff. lia.
Qed.

(** A stable sort sorts when the comparison orders the elements in question. *)
Section Sorted.
Context {A : Type} (c : A -> A -> comparison) (P : A -> Prop).
Hypothesis c_opp : forall a b, P a -> P b -> c b a = CompOpp (c a b).
Hypothesis c_trans : forall a b d, P a -> P b -> P d -> c a b <> Gt -> c b d <> Gt -> c a d <> Gt.
Abbreviation le := (fun a b => c a b <> Gt).

Lemma insert_sorted x l : P x -> Forall P l -> StronglySorted le l -> StronglySorted le (insert_by c x l).
Proof.
  intros Hx Hl Hs. induction Hs as [|y l Hs IH Hy]; simpl; [repeat constructor|].
  apply Forall_cons in Hl as [Py Hl].
  destruct (c y x) eqn:E.
  3: { constructor; [by constructor|]. assert (Hxy : c x y <> Gt) by (rewrite (c_opp y x), E; done).
       constructor; [done|]. rewrite Forall_forall in Hy, Hl |- *. intros z Hz.
       apply (c_trans x y z); auto. }
  all: constructor; [by apply IH|]; rewrite (sort_insert_perm c x l); constructor; [congruence|done].
Qed.

Lemma sort_by_sorted l : Forall P l -> StronglySorted le (sort_by c l).
Proof.
  intros Hl. unfold sort_by.
  assert (H : forall s, Forall P s -> StronglySorted le s ->
    StronglySorted le (foldl (fun s x => insert_by c x s) s l)).
  { induction Hl as [|x l Hx Hl IH]; intros s Hs Hss; [done|]. simpl. apply IH.
    - rewrite sort_insert_perm. by constructor.
    - by apply insert_sorted. }
  apply H; constructor.
Qed.
End Sorted.

Definition scored {A} (a : A * f32) : Prop := is_number a.2.

Lemma by_score_sorted {A} (l : list (A * f32)) :
  Forall scored l -> StronglySorted (fun a b => by_score a b <> Gt) (sort_by by_score l).
Proof.
  apply sort_by_sorted; unfold by_score, scored.
  - intros a b Ha Hb. rewrite !f32_cmp_key by done. apply key_cmp_opp.
  - intros a b d Ha Hb Hd. rewrite !f32_cmp_key by done. intros H1 H2. by eapply key_cmp_trans.
Qed.

(** ** No operation indexes out of bounds *)

Lemma enumerate_lookup {A} (l : list A) i : enumerate l !! i = (fun x => (i, x)) <$> l !! i.
Proof.
  unfold enumerate. rewrite lookup_zip_with. destruct (decide (i < length l)) as [Hi|Hi].
  - rewrite lookup_seq_lt by done. simpl. by destruct (l !! i).
  - rewrite (lookup_ge_None_2 l) by lia. by destruct (_ !! i).
Qed.

(** A fold that picks one of its arguments. *)
Lemma foldl_pick {A} (f : A -> A -> A) (l : list A) : (forall a b, f a b = a \/ f a b = b) ->
  forall x, foldl f x l ∈ x :: l.
Proof.
  intros Hf. induction l as [|y l IH]; intros x; simpl; [left|].
  destruct (Hf x y) as [-> | ->].
  - specialize (IH x). apply elem_of_cons in IH as [-> | IH]; [left|by right; right].
  - right. apply IH.
Qed.

Lemma max_by_score_in l i : max_by_score l = Some i -> exists s, (i, s) ∈ l.
Proof.
  destruct l as [|x l]; [done|]. unfold max_by_score. intros Hi%(inj Some). subst i.
  set (f := fun a b : nat * f32 => match f32_cmp a.2 b.2 with Gt => a | _ => b end).
  exists (foldl f x l).2. rewrite <- surjective_pairing. apply foldl_pick.
  intros a b. unfold f. destruct (f32_cmp a.2 b.2); auto.
Qed.

Lemma nearest_cluster_lt cs v : 0 < length cs -> nearest_cluster cs v < length cs.
Proof.
  intros Hc. unfold nearest_cluster. destruct (max_by_score _) as [i|] eqn:E; [|done]. simpl.
  apply max_by_score_in in E as [s Hs]. apply list_elem_of_fmap in Hs as ([j c] & [= -> _] & Hj).
  apply list_elem_of_lookup in Hj as [k Hk]. rewrite enumerate_lookup in Hk.
  destruct (cs !! k) as [c'|] eqn:E; [|done]. injection Hk as -> ->. by apply lookup_lt_Some in E.
Qed.

Lemma update_ok {E A} (f : A -> A) i (l : list A) :
  i < length l -> exists x, l !! i = Some x /\ update (E := E) f i l = Ok (<[i := f x]> l).
Proof. intros [x Hx]%lookup_lt_is_Some_2. exists x. unfold update. by rewrite Hx. Qed.

Lemma at_ok {E A} (l : list A) i : i < length l -> exists x, l !! i = Some x /\ at_ (E := E) l i = Ok x.
Proof. intros [x Hx]%lookup_lt_is_Some_2. exists x. unfold at_. by rewrite Hx. Qed.

Lemma nlist_pos n : 0 < nlist_for n.
Proof. unfold nlist_for. lia. Qed.

Lemma seed_ok {E} uvs nlist : 0 < length uvs -> 0 < nlist ->
  exists cs, seed_centroids (E := E) uvs nlist = Ok cs /\ length cs = nlist.
Proof.
  intros Hu Hn. unfold seed_centroids.
  assert (H : forall is_, Forall (fun i => i < nlist) is_ ->
    exists cs, seed_loop (E := E) uvs nlist is_ = Ok cs /\ length cs = length is_).
  { induction is_ as [|i is_ IH]; intros Hi; [by exists []|]. apply Forall_cons in Hi as [Hi His].
    simpl. destruct (at_ok (E := E) uvs (i * length uvs / nlist)) as (v & _ & ->).
    { apply Nat.Div0.div_lt_upper_bound. nia. }
    simpl. destruct (IH His) as (cs & -> & Hl). simpl. exists (v :: cs). simpl. by rewrite Hl. }
  destruct (H (seq 0 nlist)) as (cs & E1 & Hl).
  - apply Forall_forall. intros i Hi%elem_of_seq. lia.
  - exists cs. by rewrite Hl, length_seq.
Qed.

Lemma assign_ok {E} cs uvs : 0 < length cs -> forall sums counts,
  length sums = length cs -> length counts = length cs ->
  exists sums' counts', assign_loop (E := E) cs uvs sums counts = Ok (sums', counts') /\
    length sums' = length cs /\ length counts' = length cs.
Proof.
  intros Hc. induction uvs as [|uv uvs IH]; intros sums counts Hs Hn; [by exists sums, counts|]. simpl.
  assert (Hlt := nearest_cluster_lt cs uv Hc).
  destruct (update_ok (E := E) (fun s => add_into s uv) (nearest_cluster cs uv) sums) as (s & _ & ->); [lia|].
  simpl. destruct (update_ok (E := E) S (nearest_cluster cs uv) counts) as (n & _ & ->); [lia|].
  simpl. apply IH; by rewrite length_insert.
Qed.

Lemma recentre_ok {E} sums counts is_ : forall cs,
  length sums = length cs -> length counts = length cs -> Forall (fun i => i < length cs) is_ ->
  exists cs', recentre_loop (E := E) cs sums counts is_ = Ok cs' /\ length cs' = length cs.
Proof.
  induction is_ as [|c is_ IH]; intros cs Hs Hn Hi; [by exists cs|].
  apply Forall_cons in Hi as [Hc Hi]. simpl.
  destruct (at_ok (E := E) counts c) as (n & _ & ->); [lia|]. simpl.
  destruct n as [|n]; [by apply IH|]. simpl.
  destruct (at_ok (E := E) sums c) as (s & _ & ->); [lia|]. simpl.
  destruct (update_ok (E := E) (fun cen => normalize (mean_into cen s (S n))) c cs) as (x & _ & ->); [lia|]. simpl.
  edestruct IH as (cs' & -> & Hl).
  4: { exists cs'. split; [done|]. rewrite Hl. apply length_insert. }
  all: by rewrite length_insert.
Qed.

Lemma kmeans_ok {E} dim uvs iters : forall cs, 0 < length cs ->
  exists cs', kmeans (E := E) iters dim (length cs) uvs cs = Ok cs' /\ length cs' = length cs.
Proof.
  induction iters as [|iters IH]; intros cs Hc; [by exists cs|]. cbn [kmeans].
  destruct (assign_ok (E := E) cs uvs Hc (replicate (length cs) (replicate dim F_ZERO))
    (replicate (length cs) 0)) as (sums & counts & -> & Hs & Hn); [by rewrite length_replicate..|].
  simpl. destruct (recentre_ok (E := E) sums counts (seq 0 (length cs)) cs Hs Hn) as (cs1 & -> & Hl).
  { apply Forall_forall. intros i Hi%elem_of_seq. lia. }
  simpl. destruct (IH cs1) as (cs2 & Ek & Hl2); [lia|]. rewrite Hl in Ek, Hl2. by exists cs2.
Qed.

(** ** The operations on the map *)

(** Adding an entry to a cluster. *)
Lemma concat_push (ls : list (list (Z * list f32))) c l e :
  ls !! c = Some l -> concat (<[c := l ++ [e]]> ls) ≡ₚ e :: concat ls.
Proof.
  revert c. induction ls as [|l' ls IH]; intros [|c] Hc; [done|done| |]; simpl in *.
  - injection Hc as ->. rewrite <- app_assoc. simpl. symmetry. apply Permutation_middle.
  - rewrite (IH c Hc). symmetry. apply Permutation_middle.
Qed.

(** Removing an id from its cluster, when it is in no other. *)
Lemma concat_retain (ls : list (list (Z * list f32))) c l id :
  ls !! c = Some l -> (forall c' l', ls !! c' = Some l' -> c' <> c -> id ∉ map fst l') ->
  concat (<[c := List.filter (fun r => negb (r.1 =? id)%Z) l]> ls) =
    List.filter (fun r => negb (r.1 =? id)%Z) (concat ls).
Proof.
  assert (Hk : forall l' : list (Z * list f32), id ∉ map fst l' ->
    List.filter (fun r => negb (r.1 =? id)%Z) l' = l').
  { induction l' as [|[i v] l' IH]; [done|]. simpl. intros Hi. destruct (Z.eqb_spec i id) as [->|Hn].
    - destruct Hi. left.
    - simpl. f_equal. apply IH. intros Hi'. apply Hi. by right. }
  revert c. induction ls as [|l' ls IH]; intros [|c] Hc Ho; [done|done| |]; simpl in *; rewrite List.filter_app.
  - injection Hc as ->. f_equal. symmetry. apply Hk. rewrite concat_map. intros Hi.
    apply list_elem_of_In, in_concat in Hi as (x & Hx & Hi). apply list_elem_of_In in Hx, Hi.
    apply list_elem_of_fmap in Hx as (l' & -> & Hl'). apply list_elem_of_lookup in Hl' as [k Hl'].
    by apply (Ho (S k) l' Hl').
  - rewrite (IH c Hc).
    + f_equal. symmetry. apply Hk. by apply (Ho 0).
    + intros c' l'' Hl'' Hne. apply (Ho (S c')); [done|congruence].
Qed.

Lemma entries_lookup x c l e : lists x !! c = Some l -> e ∈ l -> e ∈ entries x.
Proof.
  intros Hl He. unfold entries. apply list_elem_of_In, in_concat. exists l.
  split; apply list_elem_of_In; [by eapply list_elem_of_lookup_2|done].
Qed.

Lemma entries_inv x e : e ∈ entries x -> exists c l, lists x !! c = Some l /\ e ∈ l.
Proof.
  unfold entries. intros (l & Hl & He)%list_elem_of_In%in_concat. apply list_elem_of_In in Hl, He.
  apply list_elem_of_lookup in Hl as [c Hl]. eauto.
Qed.

Lemma wf_ids_entries x id : wf x -> is_Some (id_to_list x !! id) <-> id ∈ map fst (entries x).
Proof.
  intros Hx. rewrite list_elem_of_fmap. split.
  - intros [c Hc]. apply (wf_ids _ Hx) in Hc as (l & v & Hl & Hv). exists (id, v).
    split; [done|]. by eapply entries_lookup.
  - intros ([i v] & -> & He). apply entries_inv in He as (c & l & Hl & He). exists c.
    apply (wf_ids _ Hx). eauto.
Qed.

(** An id is in one cluster only. *)
Lemma wf_one x id c c' l l' v v' : wf x -> lists x !! c = Some l -> lists x !! c' = Some l' ->
  (id, v) ∈ l -> (id, v') ∈ l' -> c' = c.
Proof.
  intros Hx Hl Hl' Hv Hv'.
  assert (H1 : id_to_list x !! id = Some c) by (apply (wf_ids _ Hx); eauto).
  assert (H2 : id_to_list x !! id = Some c') by (apply (wf_ids _ Hx); eauto). congruence.
Qed.

Lemma filter_keys (l : list (Z * list f32)) id :
  map fst (List.filter (fun r => negb (r.1 =? id)%Z) l) = List.filter (fun i => negb (i =? id)%Z) (map fst l).
Proof. induction l as [|[i v] l IH]; [done|]. simpl. destruct (i =? id)%Z; simpl; [done|by rewrite IH]. Qed.

Lemma filter_map_delete (l : list (Z * list f32)) id :
  (list_to_map (List.filter (fun r => negb (r.1 =? id)%Z) l) : gmap Z (list f32)) = delete id (list_to_map l).
Proof.
  induction l as [|[i v] l IH]; simpl; [by rewrite delete_empty|].
  destruct (Z.eqb_spec i id) as [->|Hn]; simpl; rewrite IH.
  - by rewrite delete_insert_eq.
  - by rewrite delete_insert_ne.
Qed.

Lemma remove_ok {E} id x : wf x ->
  exists x', remove (E := E) id x = Ok x' /\ wf x' /\ contents x' = delete id (contents x) /\
    length (centroids x') = length (centroids x) /\ id_to_list x' !! id = None.
Proof.
  intros Hx. unfold remove. destruct (id_to_list x !! id) as [c|] eqn:Hc.
  2: { exists x. split_and!; try done. unfold contents. rewrite delete_id; [done|].
       apply not_elem_of_list_to_map_1. intros Hi. apply (wf_ids_entries _ _ Hx) in Hi as [? ?]. congruence. }
  assert (Hc' := Hc). apply (wf_ids _ Hx) in Hc' as (l & v & Hl & Hv). unfold update. rewrite Hl. simpl.
  assert (He : concat (<[c := List.filter (fun r => negb (r.1 =? id)%Z) l]> (lists x)) =
    List.filter (fun r => negb (r.1 =? id)%Z) (entries x)).
  { apply concat_retain; [done|]. intros c' l' Hl' Hne Hi. apply list_elem_of_fmap in Hi as ([i v'] & -> & Hi).
    apply Hne. by eapply wf_one. }
  eexists. split; [reflexivity|]. split_and!.
  - constructor; cbn [lists centroids id_to_list].
    + rewrite length_insert. apply Hx.
    + apply Hx.
    + intros i d. destruct (decide (i = id)) as [->|Hne].
      * rewrite lookup_delete_eq. split; [done|]. intros (l' & v' & Hl' & Hv').
        destruct (decide (d = c)) as [->|Hd].
        -- rewrite list_lookup_insert_eq in Hl' by (by eapply lookup_lt_Some). injection Hl' as <-.
           apply list_elem_of_In, filter_In in Hv' as [_ Hf]. simpl in Hf. by rewrite Z.eqb_refl in Hf.
        -- rewrite list_lookup_insert_ne in Hl' by done. destruct Hd. by eapply wf_one.
      * rewrite lookup_delete_ne by done. rewrite (wf_ids _ Hx). destruct (decide (d = c)) as [->|Hd].
        -- rewrite list_lookup_insert_eq by (by eapply lookup_lt_Some). split.
           ++ intros (l' & v' & Hl' & Hv'). simplify_eq. eexists _, v'. split; [done|].
              apply list_elem_of_In, filter_In. split; [by apply list_elem_of_In|]. simpl.
              by destruct (Z.eqb_spec i id).
           ++ intros (l' & v' & [= <-] & Hv'). exists l, v'. split; [done|].
              apply list_elem_of_In, filter_In in Hv' as [Hv' _]. by apply list_elem_of_In.
        -- by rewrite list_lookup_insert_ne.
    + unfold entries. cbn [lists]. rewrite He, filter_keys. apply NoDup_ListNoDup, List.NoDup_filter, NoDup_ListNoDup, Hx.
  - unfold contents, entries at 1. cbn [lists]. rewrite He. apply filter_map_delete.
  - done.
  - apply lookup_delete_eq.
Qed.

(** Pushing a new id on a cluster. *)
Lemma push_ok {E} x id v c : wf x -> id_to_list x !! id = None -> c < length (centroids x) ->
  exists ls, update (E := E) (fun l => l ++ [(id, v)]) c (lists x) = Ok ls /\
    let x' := mkIndex (dim_ x) (centroids x) ls (<[id := c]> (id_to_list x)) in
    wf x' /\ contents x' = <[id := v]> (contents x).
Proof.
  intros Hx Hid Hc.
  destruct (update_ok (E := E) (fun l => l ++ [(id, v)]) c (lists x)) as (l & Hl & ->).
  { by rewrite (wf_lists _ Hx). }
  assert (Hp := concat_push (lists x) c l (id, v) Hl).
  assert (Hn : id ∉ map fst (entries x)).
  { intros Hi. apply (wf_ids_entries _ _ Hx) in Hi as [? ?]. congruence. }
  assert (Hnd : NoDup (map fst ((id, v) :: entries x))) by (simpl; apply NoDup_cons; split; [done|apply Hx]).
  eexists. split; [reflexivity|]. split.
  - constructor; cbn [lists centroids id_to_list].
    + rewrite length_insert. apply Hx.
    + apply Hx.
    + intros i d. destruct (decide (i = id)) as [->|Hne].
      * rewrite lookup_insert_eq. split.
        -- intros [= <-]. eexists _, v. rewrite list_lookup_insert_eq by (by eapply lookup_lt_Some).
           split; [done|]. apply elem_of_app. right. left.
        -- intros (l' & v' & Hl' & Hv'). destruct (decide (d = c)) as [->|Hd]; [done|].
           rewrite list_lookup_insert_ne in Hl' by done. destruct Hn.
           apply (list_elem_of_fmap_2 fst _ (id, v')). by eapply entries_lookup.
      * rewrite lookup_insert_ne by done. rewrite (wf_ids _ Hx). destruct (decide (d = c)) as [->|Hd].
        -- rewrite list_lookup_insert_eq by (by eapply lookup_lt_Some). split.
           ++ intros (l' & v' & Hl' & Hv'). simplify_eq. eexists _, v'. split; [done|].
              apply elem_of_app. by left.
           ++ intros (l' & v' & [= <-] & Hv'). exists l, v'. split; [done|].
              apply elem_of_app in Hv' as [?|Hv']; [done|]. apply list_elem_of_singleton in Hv'. congruence.
        -- by rewrite list_lookup_insert_ne.
    + unfold entries. cbn [lists]. by rewrite Hp.
  - unfold contents, entries at 1. cbn [lists].
    rewrite (list_to_map_proper _ ((id, v) :: entries x)); [done|by rewrite Hp|done].
Qed.

Lemma insert_ok {E} id v x : wf x ->
  exists x', insert (E := E) id v x = Ok x' /\ wf x' /\ contents x' = <[id := v]> (contents x) /\
    length (centroids x') = length (centroids x).
Proof.
  intros Hx. unfold insert. destruct (remove_ok (E := E) id x Hx) as (x1 & -> & Hx1 & Hc & Hl & Hid). simpl.
  destruct (push_ok (E := E) x1 id v (nearest_cluster (centroids x1) (normalize v)) Hx1 Hid) as (ls & -> & Hw & Hm).
  { apply nearest_cluster_lt, Hx1. }
  simpl. eexists. split; [reflexivity|]. split_and!; [done| |done]. rewrite Hm, Hc. apply insert_delete_eq.
Qed.

Lemma fill_ok {E} cs vs : 0 < length cs -> forall d ls ids,
  let x := mkIndex d cs ls ids in
  wf x -> NoDup (map (fun e => e.1.1) vs) -> (forall id, id ∈ map (fun e => e.1.1) vs -> ids !! id = None) ->
  exists ls' ids', fill_loop (E := E) cs vs ls ids = Ok (ls', ids') /\
    wf (mkIndex d cs ls' ids') /\
    contents (mkIndex d cs ls' ids') = foldl (fun m e => <[e.1.1 := e.1.2]> m) (contents x) vs.
Proof.
  intros Hc d. induction vs as [|[[id v] uv] vs IH]; intros ls ids x Hx Hnd Hid; [by exists ls, ids|].
  simpl in Hnd. apply NoDup_cons in Hnd as [Hn Hnd]. simpl.
  destruct (push_ok (E := E) x id v (nearest_cluster cs uv) Hx) as (ls1 & E1 & Hw & Hm).
  { apply (Hid id). left. }
  { by apply nearest_cluster_lt. }
  cbn [lists x] in E1. rewrite E1. simpl. destruct (IH ls1 (<[id := nearest_cluster cs uv]> ids) Hw Hnd) as (ls2 & ids2 & -> & Hw2 & Hm2).
  { intros i Hi. rewrite lookup_insert_ne by (intros ->; done). apply Hid. by right. }
  exists ls2, ids2. split_and!; [done|done|]. rewrite Hm2. simpl. by rewrite <- Hm.
Qed.

(** The later of two bindings of an id wins, but the ids are distinct. *)
Lemma foldl_insert_map (vs : list (Z * list f32)) : forall m : gmap Z (list f32),
  NoDup (map fst vs) -> (forall id, id ∈ map fst vs -> m !! id = None) ->
  foldl (fun m e => <[e.1 := e.2]> m) m vs = list_to_map vs ∪ m.
Proof.
  induction vs as [|[id v] vs IH]; intros m Hnd Hm; simpl; [by rewrite (left_id_L ∅ (∪))|].
  simpl in Hnd. apply NoDup_cons in Hnd as [Hn Hnd]. rewrite IH; [|done|].
  - rewrite <- insert_union_r.
    + apply insert_union_l.
    + by apply not_elem_of_list_to_map_1.
  - intros i Hi. rewrite lookup_insert_ne by (intros ->; done). apply Hm. by right.
Qed.

Lemma concat_nils {A} n : concat (replicate n []) = ([] : list A).
Proof. by induction n. Qed.

Lemma empty_wf d cs : 0 < length cs -> wf (mkIndex d cs (replicate (length cs) []) ∅).
Proof.
  intros Hc. assert (He : entries (mkIndex d cs (replicate (length cs) []) ∅) = []).
  { apply concat_nils. }
  constructor; cbn [lists centroids id_to_list]; [by rewrite length_replicate|done| |rewrite He; constructor].
  intros id c. rewrite lookup_empty. split; [done|]. intros (l & v & Hl & Hv).
  apply lookup_replicate in Hl as [-> _]. by apply not_elem_of_nil in Hv.
Qed.

Lemma build_ok {E} vectors : vectors <> [] -> NoDup (map fst vectors) ->
  exists x, build (E := E) vectors = Ok x /\ wf x /\ contents x = list_to_map vectors /\
    length (centroids x) = nlist_for (length vectors).
Proof.
  intros Hv Hnd. unfold build. destruct vectors as [|[id0 v0] vectors]; [done|].
  set (vs := (id0, v0) :: vectors) in *. set (uvs := map (fun iv => normalize iv.2) vs).
  assert (Hu : length uvs = length vs) by apply length_map.
  destruct (seed_ok (E := E) uvs (nlist_for (length vs))) as (cs & -> & Hl); [rewrite Hu; simpl; lia|apply nlist_pos|].
  cbn [obind]. rewrite <- Hl. assert (Hp := nlist_pos (length vs)).
  destruct (kmeans_ok (E := E) (length v0) uvs KMEANS_ITERS cs) as (cs1 & E1 & Hl1); [lia|].
  rewrite E1. cbn [obind]. rewrite <- Hl1.
  assert (Hz : map (fun e => e.1.1) (zip vs uvs) = map fst vs).
  { rewrite <- (map_map fst fst). f_equal. apply fst_zip. by rewrite Hu. }
  destruct (fill_ok (E := E) cs1 (zip vs uvs) ltac:(lia) (length v0) (replicate (length cs1) []) ∅)
    as (ls & ids & -> & Hw & Hm); [apply empty_wf; lia|by rewrite Hz|intros; apply lookup_empty|].
  simpl. eexists. split; [reflexivity|]. split_and!; [done| |simpl; lia].
  rewrite Hm. assert (He : contents (mkIndex (length v0) cs1 (replicate (length cs1) []) ∅) = ∅).
  { unfold contents, entries. cbn [lists]. by rewrite concat_nils. }
  rewrite He. transitivity (foldl (fun m e => <[e.1 := e.2]> m) (∅ : gmap Z (list f32)) (map fst (zip vs uvs))).
  - generalize (∅ : gmap Z (list f32)). generalize (zip vs uvs). clear.
    intros l. induction l as [|e l IH]; intros m; [done|]. apply IH.
  - rewrite fst_zip by (by rewrite Hu). rewrite foldl_insert_map by (done || intros; apply lookup_empty).
    apply (right_id_L ∅ (∪)).
Qed.

(** ** Searching *)

Definition score_of (query : list f32) (e : Z * list f32) : Z * f32 := (e.1, dot e.2 query).

Lemma probe_ok {E} ls query cs : Forall (fun c => c < length ls) cs ->
  probe (E := E) ls query cs = Ok (map (score_of query) (concat (map (fun c => default [] (ls !! c)) cs))).
Proof.
  induction 1 as [|c cs Hc Hcs IH]; [done|]. simpl.
  destruct (at_ok (E := E) ls c Hc) as (l & Hl & ->). rewrite Hl. simpl. rewrite IH. simpl. by rewrite map_app.
Qed.

Lemma clusters_all {A} (ls : list (list A)) : map (fun c => default [] (ls !! c)) (seq 0 (length ls)) = ls.
Proof.
  apply list_eq. intros i. rewrite list_lookup_fmap. destruct (decide (i < length ls)) as [Hi|Hi].
  - rewrite lookup_seq_lt by done. simpl. by destruct (lookup_lt_is_Some_2 ls i Hi) as [l ->].
  - rewrite lookup_seq_ge, (lookup_ge_None_2 ls) by lia. done.
Qed.

Lemma enumerate_fst {A} (l : list A) : map fst (enumerate l) = seq 0 (length l).
Proof. unfold enumerate. apply fst_zip. by rewrite length_seq. Qed.

(** The probed clusters are distinct clusters of the index, all of them when
    [nprobe] is at least their number. *)
Lemma ranked_perm (cs : list (list f32)) (f : nat * list f32 -> f32) :
  map fst (sort_by by_score (map (fun ic => (ic.1, f ic)) (enumerate cs))) ≡ₚ seq 0 (length cs).
Proof.
  rewrite (sort_by_perm by_score). rewrite map_map. simpl. by rewrite <- enumerate_fst.
Qed.

Lemma search_spec {E} query k nprobe x : wf x ->
  exists part, search (E := E) query k nprobe x =
      Ok (take k (map fst (sort_by by_score (map (score_of query) part)))) /\
    (exists rest, part ++ rest ≡ₚ entries x) /\
    (length (centroids x) <= nprobe -> part ≡ₚ entries x).
Proof.
  intros Hx. unfold search. assert (Hp := wf_pos _ Hx).
  rewrite decide_False by (intros H; rewrite H in Hp; simpl in Hp; lia).
  set (uq := normalize query). set (rk := sort_by by_score _).
  assert (Hr : map fst rk ≡ₚ seq 0 (length (lists x))).
  { rewrite (wf_lists _ Hx). exact (ranked_perm (centroids x) (fun ic => dot ic.2 uq)). }
  set (n := Nat.min (length (centroids x)) (Nat.max 1 nprobe)).
  assert (Hall : concat (map (fun c => default [] (lists x !! c)) (map fst rk)) ≡ₚ entries x).
  { unfold entries. rewrite Hr, clusters_all. done. }
  rewrite probe_ok.
  2: { apply Forall_take. apply Forall_forall. intros c Hc. rewrite Hr in Hc. apply elem_of_seq in Hc. lia. }
  simpl. eexists. split; [reflexivity|]. split.
  - exists (concat (map (fun c => default [] (lists x !! c)) (drop n (map fst rk)))).
    rewrite <- concat_app, <- map_app, take_drop. exact Hall.
  - intros Hn. rewrite take_ge; [exact Hall|]. rewrite Hr, length_seq, (wf_lists _ Hx). lia.
Qed.

(** ** The index is an exact map, and exhaustive search is exact *)

Inductive op : Type := OInsert (id : Z) (v : list f32) | ORemove (id : Z).

Definition apply_op {E} (o : op) (x : IvfFlatIndex) : outcome E IvfFlatIndex :=
  match o with OInsert id v => insert id v x | ORemove id => remove id x end.

Fixpoint apply_ops {E} (ops : list op) (x : IvfFlatIndex) : outcome E IvfFlatIndex :=
  match ops with [] => Ok x | o :: ops' => obind (apply_op o x) (apply_ops ops') end.

Definition op_map (m : gmap Z (list f32)) (o : op) : gmap Z (list f32) :=
  match o with OInsert id v => <[id := v]> m | ORemove id => delete id m end.

Lemma apply_ops_ok {E} ops : forall x, wf x ->
  exists x', apply_ops (E := E) ops x = Ok x' /\ wf x' /\ contents x' = foldl op_map (contents x) ops /\
    length (centroids x') = length (centroids x).
Proof.
  induction ops as [|o ops IH]; intros x Hx; [by exists x|].
  assert (H : exists x1, apply_op (E := E) o x = Ok x1 /\ wf x1 /\ contents x1 = op_map (contents x) o /\
    length (centroids x1) = length (centroids x)).
  { destruct o as [id v|id]; simpl.
    - by apply insert_ok.
    - destruct (remove_ok (E := E) id x Hx) as (x1 & ? & ? & ? & ? & _). by exists x1. }
  destruct H as (x1 & E1 & Hx1 & Hm1 & Hl1). simpl. rewrite E1. simpl.
  destruct (IH x1 Hx1) as (x2 & E2 & Hx2 & Hm2 & Hl2). exists x2. rewrite Hm2, Hm1. split_and!; congruence.
Qed.

Lemma entries_contents x : wf x -> entries x ≡ₚ map_to_list (contents x).
Proof. intros Hx. unfold contents. symmetry. apply map_to_list_to_map, Hx. Qed.

Lemma score_fst query l : map fst (map (score_of query) l) = map fst l.
Proof. rewrite map_map. done. Qed.

Lemma search_nodup {E} query k nprobe x : wf x ->
  exists ids, search (E := E) query k nprobe x = Ok ids /\ NoDup ids /\ (forall id, id ∈ ids -> id ∈ dom (contents x)).
Proof.
  intros Hx. destruct (search_spec (E := E) query k nprobe x Hx) as (part & -> & (rest & Hp) & _).
  eexists. split; [reflexivity|].
  assert (Hs : map fst (sort_by by_score (map (score_of query) part)) ≡ₚ map fst part).
  { rewrite (sort_by_perm by_score). by rewrite score_fst. }
  assert (Hnd : NoDup (map fst part)).
  { assert (H := wf_nodup _ Hx). rewrite <- Hp, map_app in H. by apply NoDup_app in H as [? _]. }
  split.
  - eapply sublist_NoDup; [|apply sublist_take]. by rewrite Hs.
  - intros id Hid. assert (Hid' : id ∈ map fst part).
    { rewrite <- Hs, <- (take_drop k (map fst _)). apply elem_of_app. by left. } unfold contents. rewrite dom_list_to_map_L. apply elem_of_list_to_set.
    rewrite <- Hp, map_app. apply elem_of_app. by left.
Qed.

(** The best [k] of a list sorted by score: what is left out scores no better. *)
Lemma take_best (l : list (Z * f32)) k : StronglySorted (fun a b => by_score a b <> Gt) l ->
  forall a b, a ∈ take k l -> b ∈ drop k l -> by_score a b <> Gt.
Proof.
  revert k. induction l as [|e l IH]; intros [|k] Hs a b Ha Hb; simpl in *; try (by apply not_elem_of_nil in Ha).
  apply StronglySorted_inv in Hs as [Hs He]. apply elem_of_cons in Ha as [->|Ha].
  - rewrite Forall_forall in He. apply He. rewrite <- (take_drop k l). apply elem_of_app. by right.
  - by eapply IH.
Qed.

Lemma len_contents x : wf x -> len x = size (contents x).
Proof.
  intros Hx. unfold len. rewrite <- !size_dom. f_equal. apply set_eq. intros id.
  rewrite elem_of_dom, (wf_ids_entries _ _ Hx). unfold contents.
  by rewrite dom_list_to_map_L, elem_of_list_to_set.
Qed.

Lemma score_entry x query id s : wf x -> (id, s) ∈ map (score_of query) (entries x) ->
  exists v, contents x !! id = Some v /\ s = dot v query.
Proof.
  intros Hx ([i v] & [= -> ->] & He)%list_elem_of_fmap. exists v. split; [|done].
  apply elem_of_map_to_list. by rewrite <- entries_contents.
Qed.

(** An exhaustive search returns the best [k] of all entries. *)
Lemma search_best {E} query k nprobe x ids : wf x -> length (centroids x) <= nprobe ->
  search (E := E) query k nprobe x = Ok ids ->
  length ids = Nat.min k (size (contents x)) /\
  ((forall id v, contents x !! id = Some v -> is_number (dot v query)) ->
   forall id id' v v', id ∈ ids -> contents x !! id = Some v -> id' ∉ ids -> contents x !! id' = Some v' ->
   f32_cmp (dot v query) (dot v' query) <> Lt).
Proof.
  intros Hx Hn. destruct (search_spec (E := E) query k nprobe x Hx) as (part & -> & _ & Hp).
  specialize (Hp Hn). intros [= <-]. set (l := sort_by by_score _).
  assert (Hl : l ≡ₚ map (score_of query) (entries x)).
  { unfold l. rewrite (sort_by_perm by_score). by rewrite Hp. }
  assert (Hv : forall id v s, (id, s) ∈ l -> contents x !! id = Some v -> s = dot v query).
  { intros id v s Hi Hc. rewrite Hl in Hi. apply (score_entry _ _ _ _ Hx) in Hi as (v' & Hc' & ->). congruence. }
  split.
  - rewrite length_take, length_map, Hl, length_map, (entries_contents x Hx). by rewrite length_map_to_list.
  - intros Hnum id id' v v' Hid Hc Hid' Hc'. rewrite firstn_map in Hid, Hid'.
    apply list_elem_of_fmap in Hid as ([i s] & -> & Hi). simpl in Hc.
    assert (Hs : s = dot v query) by (eapply Hv; [|done]; rewrite <- (take_drop k l); apply elem_of_app; by left).
    assert (Hd : (id', dot v' query) ∈ drop k l).
    { assert (Hin : (id', dot v' query) ∈ l).
      { rewrite Hl. apply list_elem_of_fmap. exists (id', v'). split; [done|].
        rewrite (entries_contents x Hx). by apply elem_of_map_to_list. }
      rewrite <- (take_drop k l) in Hin. apply elem_of_app in Hin as [Hin|?]; [|done].
      destruct Hid'. apply (list_elem_of_fmap_2 fst _ _ Hin). }
    assert (Hss : StronglySorted (fun a b => by_score a b <> Gt) l).
    { apply by_score_sorted. rewrite <- (sort_by_perm by_score). fold l. rewrite Hl.
      apply Forall_forall. intros [j t] Hj.
      apply (score_entry _ _ _ _ Hx) in Hj as (w & Hw & ->). exact (Hnum _ _ Hw). }
    assert (Hg := take_best l k Hss _ _ Hi Hd). unfold by_score in Hg. cbn [snd] in Hg.
    rewrite Hs in Hg. rewrite f32_cmp_key in Hg |- * by eauto. intros HL. apply Hg.
    by rewrite key_cmp_opp, HL.
Qed.

(** The scores that a search compares, of the centroids and of the rows, are
    numbers and not NaN. *)
Definition scores_are_numbers (query : list f32) (x : IvfFlatIndex) : Prop :=
  (forall c, c ∈ centroids x -> is_number (dot c (normalize query))) /\
  (forall id v, contents x !! id = Some v -> is_number (dot v query)).

(** C33: Building an index over at least one vector, all row ids
    distinct, and then inserting and removing rows in any order never fails,
    whatever the vectors' dimensions, and the index holds exactly the map
    of ids to vectors it should.  A search whose scores are numbers (not NaN,
    for which Rust's sort may panic) succeeds and returns distinct
    ids of that map whatever it probes; one that probes every cluster returns
    the best [k] rows by inner product: no row left out scores higher than one
    returned. *)
Theorem vector_index_exact vectors ops :
  vectors <> [] -> NoDup (map fst vectors) ->
  let m := foldl op_map (list_to_map vectors) ops in
  exists x, obind (build (E := Empty_set) vectors) (apply_ops ops) = Ok x /\
    contents x = m /\ len x = size m /\
    forall query k nprobe, scores_are_numbers query x ->
      exists ids, search (E := Empty_set) query k nprobe x = Ok ids /\
      NoDup ids /\ (forall id, id ∈ ids -> id ∈ dom m) /\
      (length (centroids x) <= nprobe ->
       length ids = Nat.min k (size m) /\
       forall id id' v v', id ∈ ids -> m !! id = Some v -> id' ∉ ids -> m !! id' = Some v' ->
       f32_cmp (dot v query) (dot v' query) <> Lt).
Proof.
  intros Hv Hnd m. destruct (build_ok (E := Empty_set) vectors Hv Hnd) as (x0 & E0 & Hx0 & Hm0 & _).
  destruct (apply_ops_ok (E := Empty_set) ops x0 Hx0) as (x & E1 & Hx & Hm & _).
  rewrite Hm0 in Hm. exists x. rewrite E0. simpl. split; [done|]. split; [done|].
  rewrite (len_contents x Hx), Hm. split; [done|]. intros query k nprobe [_ Hnum].
  destruct (search_nodup (E := Empty_set) query k nprobe x Hx) as (ids & E2 & Hid & Hdom).
  exists ids. rewrite Hm in Hdom, Hnum. split_and!; [done|done|done|]. intros Hn.
  destruct (search_best query k nprobe x ids Hx Hn E2) as [Hk Hb]. rewrite Hm in Hk, Hb.
  split; [done|]. exact (Hb Hnum).
Qed.

(** Three points, one of them replaced and one removed: bit patterns of 0.0 and
    1.0. *)
Definition demo_vectors : list (Z * list f32) :=
  [(7, [1065353216; 0]); (8, [0; 1065353216]); (9, [1065353216; 1065353216])]%Z.

Definition demo_ops : list op := [ORemove 7; OInsert 8 [1065353216; 0]]%Z.
Definition demo_query : list f32 := [1065353216; 1056964608]%Z.

Lemma all_numbers query (vs : list (list f32)) :
  forallb (fun v => match Value.f32_spec (dot v query) with S754_nan => false | _ => true end) vs = true ->
  forall v, v ∈ vs -> is_number (dot v query).
Proof.
  intros H v Hv E. rewrite forallb_forall in H. apply list_elem_of_In in Hv. specialize (H v Hv).
  by rewrite E in H.
Qed.

Lemma all_numbers_map query (m : gmap Z (list f32)) :
  forallb (fun v => match Value.f32_spec (dot v query) with S754_nan => false | _ => true end)
    (map snd (map_to_list m)) = true ->
  forall id v, m !! id = Some v -> is_number (dot v query).
Proof.
  intros H id v Hv. apply (all_numbers _ _ H). apply elem_of_map_to_list in Hv.
  exact (list_elem_of_fmap_2 snd _ _ Hv).
Qed.

Lemma vector_index_exact_witness :
  demo_vectors <> [] /\ NoDup (map fst demo_vectors) /\
  exists x ids, obind (build (E := Empty_set) demo_vectors) (apply_ops demo_ops) = Ok x /\ len x = 2 /\
    search (E := Empty_set) demo_query 1 8 x = Ok ids /\ length ids = 1.
Proof.
  assert (H : NoDup (map fst demo_vectors)) by (vm_compute; repeat constructor; set_solver).
  split; [done|]. split; [done|].
  destruct (vector_index_exact demo_vectors demo_ops ltac:(done) H) as (x & E1 & Em & E2 & Hs).
  assert (Ex : Ok x = obind (build (E := Empty_set) demo_vectors) (apply_ops demo_ops)) by (symmetry; exact E1).
  vm_compute in Ex. injection Ex as ->.
  destruct (Hs demo_query 1 8) as (ids & E3 & _ & _ & Hk).
  - split; [apply all_numbers; vm_compute; reflexivity|].
    rewrite Em. apply all_numbers_map. vm_compute. reflexivity.
  - do 2 eexists. split; [exact E1|]. split; [rewrite E2; vm_compute; reflexivity|]. split; [exact E3|].
    rewrite (proj1 (Hk ltac:(vm_compute; lia))). vm_compute. reflexivity.
Defined.

(** Vectors of different dimensions are accepted. *)
Example build_accepts_mismatched_dimensions :
  exists x, build (E := Empty_set) [(1, [1065353216]); (2, [1065353216; 0])]%Z = Ok x /\ dim x = 1 /\ len x = 2.
Proof. eexists. vm_compute. split_and!; reflexivity. Qed.

Example search_demo :
  obind (build (E := Empty_set) demo_vectors) (search [1065353216; 1056964608]%Z 2 8) = Ok [9; 7]%Z.
Proof. vm_compute. reflexivity. Qed.

End VectorIndex.
