(* ===== verification/Parser.v ===== *)
(** * Parser: the recursive-descent parser
    ([crates/tpt-archon-relational/src/parser/]: [expr.rs], [select.rs],
    [ddl.rs], [dml.rs], [mod.rs])

    Each function is a computation over the token stream.  The recursive calls
    go through [enter_depth], so the functions are stratified: [at_depth n] are
    the parsers with [n] levels left, each using those with one level fewer.
    [parse_statement] starts with one level more than [enter_depth] admits, so
    the empty level is never entered (ParserProof). *)
From Stdlib Require Import ZArith Lia Strings.Byte Strings.String.
From stdpp Require Import base numbers option list.
From S2P Require Import Prelude Ast Value Lexer Datetime Expr.

Module Parser.
Import Ast Lexer.
Local Open Scope string_scope.
Local Open Scope list_scope.

Definition MAX_LIMIT : Z := 1000000.

(** [if let Tok::Ident(kw) = ts.peek() { if eq_ignore_case(&kw, word) { ts.next(); .. } }] *)
Definition try_kw (word : string) : P bool :=
  t ← peek;
  if is_word t word then next;; mret true else mret false.

(** [if let tok = ts.peek() { ts.next(); .. }] *)
Definition try_tok (tok : Tok) : P bool :=
  t ← peek;
  if decide (t = tok) then next;; mret true else mret false.

(** [loop { item; if let Tok::Comma = ts.peek() { ts.next(); continue } break }] *)
Definition comma_list {A} (item : P A) : P (list A) :=
  ts_loop (fun acc =>
    x ← item;
    c ← try_tok Comma;
    mret (if (c : bool) then inl (acc ++ [x]) else inr (acc ++ [x]))) [].

(** [loop { item; match ts.next() { Comma => continue, RParen => break, _ => Err } }] *)
Definition paren_list {A} (item : P A) (msg : string) : P (list A) :=
  ts_loop (fun acc =>
    x ← item;
    t ← next;
    match t with
    | Comma => mret (inl (acc ++ [x]))
    | RParen => mret (inr (acc ++ [x]))
    | _ => p_err msg
    end) [].

(** [if !matches!(ts.next(), Tok::Eof) { return Err }] *)
Definition expect_eof (msg : string) : P unit :=
  t ← next;
  if decide (t = Eof) then mret tt else p_err msg.

(** A value, then the same with the depth left on both exits. *)
Definition leaving {A} (m : P A) : P A := fun ts =>
  match m ts with
  | (Ok a, ts') => (Ok a, set_depth (depth ts' - 1) ts')
  | (Err e, ts') => (Err e, set_depth (depth ts' - 1) ts')
  | (Panic, ts') => (Panic, ts')
  end.

(** ** Literals *)

Definition parse_vector_literal : P Literal :=
  vals ← ts_loop (fun vals =>
    t ← peek;
    match t with
    | Float v => next;; try_tok Comma;; mret (inl (vals ++ [v]))
    | Int v => next;; try_tok Comma;; mret (inl (vals ++ [Value.f32_of_int v]))
    | RBracket => next;; mret (inr vals)
    | _ => p_err "expected number or ']' in vector literal"
    end) [];
  mret (LVector vals).

Definition parse_literal : P Literal :=
  t ← next;
  match t with
  | Int v => mret (LInt v)
  | Float v => mret (LFloat v)
  | Text s => mret (LText s)
  | LBracket => parse_vector_literal
  | Ident _ =>
      if is_word t "null" then mret LNull
      else if is_word t "true" then mret (LBool true)
      else if is_word t "false" then mret (LBool false)
      else p_err "expected a value"
  | _ => p_err "expected a value"
  end.

Definition aggregate_of (lower : str) : option AggregateFunc :=
  if decide (lower = lit "count") then Some Count
  else if decide (lower = lit "sum") then Some Sum
  else if decide (lower = lit "avg") then Some Avg
  else if decide (lower = lit "min") then Some Min
  else if decide (lower = lit "max") then Some Max
  else None.

(** The argument of an aggregate, its [(] already read. *)
Definition parse_aggregate_arg : P str :=
  s ← try_tok Star;
  if (s : bool) then expect_tok RParen "')'";; mret (lit "*")
  else
    c ← expect_ident "column in aggregate";
    expect_tok RParen "')'";;
    mret c.

(** ** Expressions ([expr.rs])

    The two calls that recurse: [parse_not] and [parse_select_inner], one level
    deeper. *)
Record parsers : Type := mkParsers { p_not : P Expr; p_select : P SelectStatement }.

Section Fmt.
Context `{Fmt}.

Section Expr.
Context (p : parsers).

Definition parse_and : P Expr :=
  l ← p_not p;
  ts_loop (fun left =>
    b ← try_kw "and";
    if (b : bool) then right ← p_not p; mret (inl (And left right)) else mret (inr left)) l.

Definition parse_or : P Expr :=
  l ← parse_and;
  ts_loop (fun left =>
    b ← try_kw "or";
    if (b : bool) then right ← parse_and; mret (inl (Or left right)) else mret (inr left)) l.

Definition parse_expr : P Expr := parse_or.

(** The arms of [parse_primary_expr] end in a result, so that [exit_depth]
    runs; an early return skips it. *)
Definition tail {A} (x : A) : P (ParseError + A) := mret (inr x).
Definition tail_err {A} (msg : string) : P (ParseError + A) := mret (inl (mkParseError (lit msg))).

Definition parse_exists : P (ParseError + Expr) :=
  next;;
  expect_tok LParen "'(' after EXISTS";;
  expect_kw "select";;
  query ← p_select p;
  expect_tok RParen "')' after EXISTS subquery";;
  tail (Exists_ query).

Definition parse_agg_expr (func : AggregateFunc) : P (ParseError + Expr) :=
  next;;
  expect_tok LParen "'(' after aggregate function";;
  col ← parse_aggregate_arg;
  t ← peek;
  match t with
  | Op op => next;; value ← parse_literal; tail (AggCmp func col op value)
  | _ => tail (Agg func col)
  end.

Definition date_time_field (t : Tok) : option DateTimeField :=
  if is_word t "year" then Some Year
  else if is_word t "month" then Some Month
  else if is_word t "day" then Some Day
  else if is_word t "hour" then Some Hour
  else if is_word t "minute" then Some Minute
  else if is_word t "second" then Some Second
  else None.

(** What follows [IS]. *)
Definition parse_is_null : P bool :=
  t ← next;
  if is_word t "not" then expect_kw "null";; mret true
  else if is_word t "null" then mret false
  else p_err "expected NULL or NOT NULL after IS".

Definition parse_extract : P (ParseError + Expr) :=
  next;;
  expect_tok LParen "'(' after EXTRACT";;
  t ← next;
  match date_time_field t with
  | None =>
      m_err (mkParseError
        (lit "expected date/time field (YEAR/MONTH/DAY/HOUR/MINUTE/SECOND) in EXTRACT, got '"
         ++ tok_debug t ++ lit "'"))
  | Some field =>
      expect_kw "from";;
      source ← expect_ident "column name in EXTRACT";
      expect_tok RParen "')' after EXTRACT";;
      t ← peek;
      match t with
      | Ident _ =>
          if is_word t "is" then next;; negated ← parse_is_null; tail (IsNull source negated)
          else tail_err "expected comparison operator or IS NULL after EXTRACT(...)"
      | Op op => next;; value ← parse_literal; tail (ExtractCmp field source op value)
      | _ => tail_err "expected comparison operator or IS NULL after EXTRACT(...)"
      end
  end.

(** The rest of [a.b], its first name already read. *)
Definition parse_qualified (name : str) : P str :=
  d ← try_tok Dot;
  if (d : bool) then field ← expect_ident "field name after '.'"; mret (name ++ [DOT] ++ field)
  else mret name.

Definition parse_in (col_name : str) : P (ParseError + Expr) :=
  next;;
  expect_tok LParen "'(' after IN";;
  is_subquery ← try_kw "select";
  if (is_subquery : bool) then
    query ← p_select p;
    expect_tok RParen "')' after IN subquery";;
    tail (InSubquery col_name query)
  else
    values ← paren_list (expect_int "value in IN list") "expected ',' or ')' in IN list";
    tail (InInt col_name values).

(** The right-hand side of [column <op>]. *)
Definition parse_rhs (col_name : str) (op : CmpOp) : P (ParseError + Expr) :=
  next;;
  t ← peek;
  match t with
  | Ident name =>
      if is_word t "null" then
        next;;
        match op with
        | Eq => tail (IsNull col_name false)
        | Ne => tail (IsNull col_name true)
        | _ => tail_err "comparison with NULL requires IS / IS NOT"
        end
      else if is_word t "true" then next;; tail (Cmp col_name op (LBool true))
      else if is_word t "false" then next;; tail (Cmp col_name op (LBool false))
      else next;; right ← parse_qualified name; tail (CmpColumn col_name op right)
  | Int v => next;; tail (Cmp col_name op (LInt v))
  | Float v => next;; tail (Cmp col_name op (LFloat v))
  | Text s => next;; tail (Cmp col_name op (LText s))
  | LParen =>
      next;;
      expect_kw "select";;
      query ← p_select p;
      expect_tok RParen "')' after scalar subquery";;
      tail (ScalarCmp col_name op query)
  | _ => tail_err "expected value after operator"
  end.

(** What follows a column. *)
Definition parse_operator (col_name : str) : P (ParseError + Expr) :=
  t ← peek;
  match t with
  | Ident _ =>
      if is_word t "is" then next;; negated ← parse_is_null; tail (IsNull col_name negated)
      else if is_word t "like" then
        next;;
        t ← next;
        match t with
        | Text s => tail (Like col_name s)
        | _ => p_err "expected pattern string after LIKE"
        end
      else if is_word t "between" then
        next;;
        low ← expect_int "BETWEEN low";
        expect_kw "and";;
        high ← expect_int "BETWEEN high";
        tail (BetweenInt col_name low high)
      else if is_word t "in" then parse_in col_name
      else tail_err "expected operator or IS after column name"
  | Op op => parse_rhs col_name op
  | _ => tail_err "expected operator or IS after column name"
  end.

Definition parse_column_expr (col : str) : P (ParseError + Expr) :=
  next;;
  if is_kw col then
    m_err (mkParseError (lit "unexpected keyword '" ++ col ++ lit "' in expression"))
  else
    col_name ← parse_qualified col;
    parse_operator col_name.

Definition parse_primary_expr : P Expr :=
  enter_depth;;
  result ← (
    t ← peek;
    match t with
    | Ident kw =>
        if is_word t "exists" then parse_exists
        else
          match aggregate_of (to_ascii_lowercase kw) with
          | Some func => parse_agg_expr func
          | None => if is_word t "extract" then parse_extract else parse_column_expr kw
          end
    | LParen =>
        next;;
        inner ← parse_expr;
        expect_tok RParen "')'";;
        tail inner
    | _ => tail_err "expected column name or '(' in expression"
    end);
  exit_depth;;
  match result with inl e => m_err e | inr e => mret e end.

Definition parse_not : P Expr :=
  b ← try_kw "not";
  if (b : bool) then
    enter_depth;;
    inner ← leaving (p_not p);
    mret (Not inner)
  else parse_primary_expr.

End Expr.

(** ** [SELECT] ([select.rs]) *)

Definition parse_optional_alias : P (option str) :=
  b ← try_kw "as";
  if (b : bool) then a ← expect_ident "alias"; mret (Some a) else mret None.

Definition parse_window_only_func (lower : str) : P WindowFunc :=
  if decide (lower = lit "row_number") then mret RowNumber
  else if decide (lower = lit "rank") then mret Rank
  else if decide (lower = lit "dense_rank") then mret DenseRank
  else if decide (lower = lit "lag" \/ lower = lit "lead") then
    column ← expect_ident "column in LAG/LEAD";
    c ← try_tok Comma;
    '(offset, default) ←
      (if (c : bool) then
         offset ← expect_int "offset in LAG/LEAD";
         c2 ← try_tok Comma;
         if (c2 : bool) then d ← parse_literal; mret (offset, Some d) else mret (offset, None)
       else mret (1%Z, None));
    mret (if decide (lower = lit "lag") then Lag column offset default else Lead column offset default)
  else m_panic.

Definition window_default_alias (lower : str) : str := lower.

(** [ASC] or [DESC], after a column. *)
Definition parse_direction : P bool :=
  d ← try_kw "desc";
  if (d : bool) then mret true else try_kw "asc";; mret false.

Definition parse_frame_bound : P FrameBound :=
  t ← peek;
  match t with
  | Ident _ =>
      if is_word t "unbounded" then
        next;;
        k ← next;
        if is_word k "preceding" then mret UnboundedPreceding
        else if is_word k "following" then mret UnboundedFollowing
        else p_err "expected PRECEDING or FOLLOWING after UNBOUNDED"
      else if is_word t "current" then next;; expect_kw "row";; mret CurrentRow
      else p_err "expected UNBOUNDED, CURRENT ROW, or a non-negative integer frame bound"
  | Int n =>
      if (0 <=? n)%Z then
        next;;
        k ← next;
        if is_word k "preceding" then mret (Preceding n)
        else if is_word k "following" then mret (Following n)
        else p_err "expected PRECEDING or FOLLOWING after a numeric frame offset"
      else p_err "expected UNBOUNDED, CURRENT ROW, or a non-negative integer frame bound"
  | _ => p_err "expected UNBOUNDED, CURRENT ROW, or a non-negative integer frame bound"
  end.

Definition parse_window_frame (kind : FrameKind) : P WindowFrame :=
  b ← try_kw "between";
  if (b : bool) then
    start ← parse_frame_bound;
    expect_kw "and";;
    end_ ← parse_frame_bound;
    mret (mkFrame kind start end_)
  else
    start ← parse_frame_bound;
    mret (mkFrame kind start CurrentRow).

Definition parse_window_order : P OrderBy :=
  column ← expect_ident "column in window ORDER BY";
  d ← parse_direction;
  mret (mkOrderBy column d).

Definition parse_window_spec : P WindowSpec :=
  expect_tok LParen "'(' after OVER";;
  b ← try_kw "partition";
  partition_by ← (if (b : bool) then expect_kw "by";; comma_list (expect_ident "column in PARTITION BY")
                  else mret []);
  b ← try_kw "order";
  order_by ← (if (b : bool) then expect_kw "by";; comma_list parse_window_order else mret []);
  t ← peek;
  frame ← (if is_word t "rows" then next;; f ← parse_window_frame Rows; mret (Some f)
           else if is_word t "range" then next;; f ← parse_window_frame Range; mret (Some f)
           else if is_word t "groups" then
             p_err "GROUPS window frames are not supported (RANGE/ROWS only)"
           else mret None);
  expect_tok RParen "')' to close OVER (...)";;
  mret (mkWindowSpec partition_by order_by frame).

(** The tail: [ORDER BY] and [LIMIT] clauses in any order. *)
Definition limit_error (k : Z) : ParseError :=
  mkParseError (lit "LIMIT " ++ int_to_string k ++ lit " exceeds maximum of 1000000").

(** [ORDER BY cosine(col, ?) LIMIT k], [cosine] already read. *)
Definition parse_cosine : P OrderByCosine :=
  expect_tok LParen "'(' after cosine";;
  column ← expect_ident "embedding column";
  expect_tok Comma "',' in cosine(...)";;
  t ← next;
  if decide (t = Param) then
    expect_tok RParen "')' after cosine(...)";;
    expect_kw "limit";;
    k ← expect_int "LIMIT k";
    if (MAX_LIMIT <? wrap64 k)%Z then m_err (limit_error k) else mret (mkCosine column 1 (wrap64 k))
  else p_err "expected '?' query vector".

(** The columns after the first: a comma must be followed by a name. *)
Definition parse_more_order (order_by : list OrderBy) : P (list OrderBy) :=
  ts_loop (fun acc =>
    sp ← save;
    t ← next;
    if decide (t = Comma) then
      n ← next;
      match n with
      | Ident name => d ← parse_direction; mret (inl (acc ++ [mkOrderBy name d]))
      | _ => p_err "expected column name in ORDER BY"
      end
    else restore sp;; mret (inr acc)) order_by.

Abbreviation tail_state := (list OrderBy * option Z * option OrderByCosine)%type.

Definition parse_select_tail (s : tail_state) : P tail_state :=
  ts_loop (fun '(order_by, limit, obc) =>
    t ← peek;
    if is_word t "order" then
      next;;
      expect_kw "by";;
      n ← next;
      match n with
      | Ident name =>
          if is_word n "cosine" then
            c ← parse_cosine;
            mret (inl (order_by, limit, Some c))
          else
            d ← parse_direction;
            order_by' ← parse_more_order (order_by ++ [mkOrderBy name d]);
            mret (inl (order_by', limit, obc))
      | _ => p_err "expected column name in ORDER BY"
      end
    else if is_word t "limit" then
      next;;
      match limit with
      | Some _ => p_err "duplicate LIMIT"
      | None =>
          n ← next;
          match n with
          | Int v =>
              if (0 <=? v)%Z then
                if (MAX_LIMIT <? v)%Z then m_err (limit_error v)
                else mret (inl (order_by, Some v, obc))
              else p_err "expected non-negative LIMIT"
          | _ => p_err "expected non-negative LIMIT"
          end
      end
    else mret (inr (order_by, limit, obc))) s.

(** [resolve_having_aliases]. *)
Definition resolve_alias (func : AggregateFunc) (column : str)
    (aggregates : list (str * AggregateFunc * str)) : str :=
  match find (fun a => bool_decide (a.1.2 = func) && bool_decide (a.2 = column)) aggregates with
  | Some a => a.1.1
  | None => Expr.agg_default_alias func column
  end.

Fixpoint resolve_having_aliases (aggregates : list (str * AggregateFunc * str)) (e : Expr) : Expr :=
  match e with
  | And l r => And (resolve_having_aliases aggregates l) (resolve_having_aliases aggregates r)
  | Or l r => Or (resolve_having_aliases aggregates l) (resolve_having_aliases aggregates r)
  | Not inner => Not (resolve_having_aliases aggregates inner)
  | AggCmp func column op value => Cmp (resolve_alias func column aggregates) op value
  | Agg func column => IsNull (resolve_alias func column aggregates) true
  | _ => e
  end.

(** The projection: its columns, its aggregates and its window calls. *)
Record projection : Type := mkProjection {
  pr_columns : list str;
  pr_aggregates : list (str * AggregateFunc * str);
  pr_window_funcs : list (str * WindowCall);
}.

Definition push_column (c : str) (pr : projection) : projection :=
  mkProjection (pr_columns pr ++ [c]) (pr_aggregates pr) (pr_window_funcs pr).
Definition push_window (c : str) (w : WindowCall) (pr : projection) : projection :=
  mkProjection (pr_columns pr ++ [c]) (pr_aggregates pr) (pr_window_funcs pr ++ [(c, w)]).
Definition push_aggregate (c : str) (f : AggregateFunc) (col : str) (pr : projection) : projection :=
  mkProjection (pr_columns pr ++ [c]) (pr_aggregates pr ++ [(c, f, col)]) (pr_window_funcs pr).

Definition window_only (lower : str) : bool :=
  existsb (fun w => bool_decide (lower = lit w)) ["row_number"; "rank"; "dense_rank"; "lag"; "lead"].

Definition parse_window_item (lower : str) (pr : projection) : P projection :=
  next;;
  func ← parse_window_only_func lower;
  expect_tok RParen "')'";;
  expect_kw "over";;
  spec ← parse_window_spec;
  alias ← parse_optional_alias;
  mret (push_window (default (window_default_alias lower) alias) (mkWindowCall func spec) pr).

Definition parse_aggregate_item (agg : AggregateFunc) (pr : projection) : P projection :=
  next;;
  inner ← parse_aggregate_arg;
  is_window ← try_kw "over";
  if (is_window : bool) then
    spec ← parse_window_spec;
    alias ← parse_optional_alias;
    mret (push_window (default (Expr.agg_default_alias agg inner) alias)
            (mkWindowCall (WAgg agg inner) spec) pr)
  else
    alias ← parse_optional_alias;
    mret (push_aggregate (default (Expr.agg_default_alias agg inner) alias) agg inner pr).

Definition parse_column_item (name : str) (pr : projection) : P projection :=
  col_name ← parse_qualified name;
  alias ← parse_optional_alias;
  mret (push_column (default col_name alias) pr).

Definition parse_select_item (pr : projection) : P projection :=
  t ← next;
  match t with
  | Ident name =>
      let lower := to_ascii_lowercase name in
      p ← peek;
      if window_only lower && bool_decide (p = LParen) then parse_window_item lower pr
      else
        match aggregate_of lower with
        | Some agg =>
            if bool_decide (p = LParen) then parse_aggregate_item agg pr
            else parse_column_item name pr
        | None => parse_column_item name pr
        end
  | _ => p_err "expected column name"
  end.

Definition parse_projection : P (projection * bool) :=
  s ← try_tok Star;
  if (s : bool) then mret (mkProjection [] [] [], true)
  else
    pr ← ts_loop (fun pr =>
      pr' ← parse_select_item pr;
      c ← try_tok Comma;
      mret (if (c : bool) then inl pr' else inr pr')) (mkProjection [] [] []);
    mret (pr, false).

Section Select.
Context (p : parsers).

(** [schema.table]: what follows the dot is taken only if it is a name. *)
Definition parse_schema_suffix (name : str) : P str :=
  d ← try_tok Dot;
  if (d : bool) then
    s ← next;
    match s with
    | Ident schema_suffix => mret (name ++ [DOT] ++ schema_suffix)
    | _ => mret name
    end
  else mret name.

Definition parse_table_ref : P TableRef :=
  t ← next;
  match t with
  | LParen =>
      k ← next;
      if is_word k "select" then
        query ← p_select p;
        expect_tok RParen "')' after subquery";;
        a ← next;
        if is_word a "as" then
          alias ← expect_ident "subquery alias";
          mret (Subquery query alias)
        else p_err "subquery must have an AS alias"
      else p_err "expected SELECT in subquery"
  | Ident name =>
      full ← parse_schema_suffix name;
      b ← try_kw "as";
      if (b : bool) then
        alias ← expect_ident "table alias";
        mret (Named full (Some alias))
      else mret (Named full None)
  | _ => p_err "expected table name or '('"
  end.

(** The keywords of a join: its type and whether it has an [ON]. *)
Definition parse_join_type (sp : nat) : P (option (JoinType * bool)) :=
  let outer (j : JoinType) : P (option (JoinType * bool)) :=
    next;; try_kw "outer";; expect_kw "join";; mret (Some (j, true)) in
  t ← peek;
  if is_word t "left" then outer Left
  else if is_word t "right" then outer Right
  else if is_word t "full" then outer Full
  else if is_word t "cross" then next;; expect_kw "join";; mret (Some (Cross, false))
  else if is_word t "join" || is_word t "inner" then
    (if is_word t "inner" then next;; mret tt else mret tt);;
    expect_kw "join";;
    mret (Some (Inner, true))
  else restore sp;; mret None.

Definition parse_joins : P (list Join) :=
  ts_loop (fun acc =>
    sp ← save;
    j ← parse_join_type sp;
    match j with
    | None => mret (inr acc)
    | Some (jtype, has_on) =>
        join_table ← parse_table_ref;
        on_expr ← (if (has_on : bool) then expect_kw "on";; e ← parse_expr p; mret (Some e) else mret None);
        mret (inl (acc ++ [mkJoin jtype join_table on_expr]))
    end) [].

(** [WHERE], [GROUP BY] and [HAVING], in any order. *)
Abbreviation clauses := (option Expr * list str * option Expr)%type.

Definition parse_clauses : P clauses :=
  ts_loop (fun '(filter, group_by, having) =>
    t ← peek;
    if is_word t "where" then
      next;;
      match filter with
      | Some _ => p_err "duplicate WHERE"
      | None => e ← parse_expr p; mret (inl (Some e, group_by, having))
      end
    else if is_word t "group" then
      next;;
      expect_kw "by";;
      cols ← comma_list (expect_ident "column in GROUP BY");
      mret (inl (filter, group_by ++ cols, having))
    else if is_word t "having" then
      next;;
      match having with
      | Some _ => p_err "duplicate HAVING"
      | None => e ← parse_expr p; mret (inl (filter, group_by, Some e))
      end
    else mret (inr (filter, group_by, having))) (None, [], None).

Definition parse_select_core : P SelectStatement :=
  '(pr, star) ← parse_projection;
  t ← next;
  if is_word t "from" then
    table ← parse_table_ref;
    joins ← parse_joins;
    '(filter, group_by, having) ← parse_clauses;
    mret (mkSelect (pr_columns pr) star table filter joins group_by (pr_aggregates pr)
            (pr_window_funcs pr) [] None None
            (resolve_having_aliases (pr_aggregates pr) <$> having) [])
  else p_err "expected FROM".

Definition parse_select_full : P SelectStatement :=
  stmt ← parse_select_core;
  '(o, l, c) ← parse_select_tail (order_by stmt, limit stmt, order_by_cosine stmt);
  mret (set_tail o c l stmt).

Definition parse_select_inner : P SelectStatement :=
  enter_depth;; leaving parse_select_full.

End Select.

Fixpoint at_depth (n : nat) : parsers :=
  match n with
  | O => mkParsers m_panic m_panic
  | S n' => let p := at_depth n' in mkParsers (parse_not p) (parse_select_inner p)
  end.

(** The parsers [parse_statement] starts with. *)
Definition top : parsers := at_depth (S MAX_PARSE_DEPTH).

Definition try_parse_select_literal : P (option (list SelectLiteralItem)) := fun ts =>
  let item : P SelectLiteralItem :=
    value ← parse_literal; alias ← parse_optional_alias; mret (mkLiteralItem value alias) in
  match comma_list item ts with
  | (Ok items, ts') =>
      (t ← peek;
       if decide (t = Eof) then mret (Some items) else restore (pos ts);; mret None) ts'
  | (Err _, ts') => (restore (pos ts);; mret None) ts'
  | (Panic, ts') => (Panic, ts')
  end.

(** [UNION [ALL]], [INTERSECT] or [EXCEPT]. *)
Definition parse_set_op (sp : nat) : P (option SetOperation) :=
  t ← peek;
  if is_word t "union" then next;; all ← try_kw "all"; mret (Some (Union all))
  else if is_word t "intersect" then next;; mret (Some Intersect)
  else if is_word t "except" then next;; mret (Some Except)
  else restore sp;; mret None.

Definition parse_operations : P (list (SetOperation * SelectStatement)) :=
  ts_loop (fun acc =>
    sp ← save;
    o ← parse_set_op sp;
    match o with
    | None => mret (inr acc)
    | Some op =>
        t ← next;
        if is_word t "select" then
          right ← parse_select_core top;
          mret (inl (acc ++ [(op, right)]))
        else p_err "expected SELECT after set operation"
    end) [].

Definition parse_select_or_compound (ctes : list CTE) : P Statement :=
  first ← parse_select_core top;
  operations ← parse_operations;
  match operations with
  | [] =>
      let stmt := set_with_ctes ctes first in
      '(o, l, c) ← parse_select_tail (order_by stmt, limit stmt, order_by_cosine stmt);
      mret (Select (set_tail o c l stmt))
  | _ =>
      '(o, l, _) ← parse_select_tail ([], None, None);
      mret (Compound (mkCompound first operations o l))
  end.

(** The body of a CTE of [WITH RECURSIVE].  [exit_depth] runs on every exit
    but the [?] of the token stream. *)
Definition parse_recursive_cte_body (name : str) : P CTE :=
  enter_depth;;
  leaving (
    first ← parse_select_core top;
    t ← peek;
    if is_word t "union" then
      next;;
      all ← try_kw "all";
      t ← next;
      if is_word t "select" then
        recursive_term ← parse_select_core top;
        t ← peek;
        if is_word t "union" || is_word t "intersect" || is_word t "except" then
          p_err "recursive CTE supports exactly one UNION between the anchor and the recursive term"
        else mret (mkCTE name first (Some (Union all, recursive_term)))
      else p_err "expected SELECT after UNION in recursive CTE"
    else if is_word t "intersect" || is_word t "except" then
      p_err "recursive CTE must use UNION or UNION ALL between the anchor and the recursive term"
    else
      '(o, l, c) ← parse_select_tail (order_by first, limit first, order_by_cosine first);
      mret (mkCTE name (set_tail o c l first) None)).

Definition parse_with_clause (is_recursive : bool) : P (list CTE) :=
  ts_loop (fun ctes =>
    name ← expect_ident "CTE name";
    expect_kw "as";;
    expect_tok LParen "'(' after AS in CTE";;
    t ← next;
    if is_word t "select" then
      cte ← (if is_recursive then parse_recursive_cte_body name
             else q ← parse_select_inner top; mret (mkCTE name q None));
      expect_tok RParen "')'";;
      t ← peek;
      match t with
      | Comma => next;; mret (inl (ctes ++ [cte]))
      | _ =>
          if is_word t "select" then mret (inr (ctes ++ [cte]))
          else p_err "expected ',' or SELECT after CTE"
      end
    else p_err "expected SELECT in CTE") [].

(** ** [CREATE] and [ALTER] ([ddl.rs]) *)

Definition parse_create_view : P CreateViewStatement :=
  name ← expect_ident "view name";
  expect_kw "as";;
  t ← next;
  if is_word t "select" then
    query ← parse_select_inner top;
    expect_eof "trailing tokens after statement";;
    mret (mkCreateView name query)
  else p_err "expected SELECT after CREATE VIEW ... AS".

(** [VARCHAR], with an optional length. *)
Definition parse_varchar : P ColumnType :=
  b ← try_tok LParen;
  if (b : bool) then
    n ← expect_int "VARCHAR length";
    expect_tok RParen "')' after VARCHAR length";;
    mret (TVarchar (wrap64 n))
  else mret (TVarchar 255).

(** [VECTOR], with anything numeric in brackets after it. *)
Definition parse_vector_type : P ColumnType :=
  b ← try_tok LBracket;
  (if (b : bool) then
     ts_loop (fun _ =>
       t ← peek;
       match t with
       | RBracket => next;; mret (inr tt)
       | Int _ | Float _ | Comma => next;; mret (inl tt)
       | _ => p_err "expected ']' after VECTOR dimension"
       end) tt
   else mret tt);;
  mret TVector.

Definition parse_column_type : P ColumnType :=
  t ← next;
  if is_word t "int" || is_word t "integer" then mret TInt
  else if is_word t "boolean" then mret TBoolean
  else if is_word t "float" then mret TFloat
  else if is_word t "double" then mret TDouble
  else if is_word t "numeric" then mret TNumeric
  else if is_word t "text" then mret TText
  else if is_word t "varchar" then parse_varchar
  else if is_word t "date" then mret TDate
  else if is_word t "timestamp" then mret TTimestamp
  else if is_word t "vector" then parse_vector_type
  else p_err "expected column type (INT, TEXT, VECTOR, ...)".

Definition parse_column_constraints : P (list ColumnConstraint) :=
  ts_loop (fun out =>
    t ← peek;
    if is_word t "not" then next;; expect_kw "null";; mret (inl (out ++ [NotNull]))
    else if is_word t "primary" then next;; expect_kw "key";; mret (inl (out ++ [PrimaryKey]))
    else if is_word t "unique" then next;; mret (inl (out ++ [Unique]))
    else mret (inr out)) [].

Definition is_table_constraint (t : Tok) : bool :=
  is_word t "primary" || is_word t "unique" || is_word t "foreign" || is_word t "check"
  || is_word t "constraint".

Definition parse_paren_column_list : P (list str) :=
  expect_tok LParen "'('";;
  paren_list (expect_ident "column name") "expected ',' or ')'".

Definition parse_table_constraint : P TableConstraint :=
  c ← try_kw "constraint";
  (if (c : bool) then expect_ident "constraint name";; mret tt else mret tt);;
  t ← peek;
  if is_word t "primary" then
    next;; expect_kw "key";; cols ← parse_paren_column_list; mret (TPrimaryKey cols)
  else if is_word t "unique" then
    next;; cols ← parse_paren_column_list; mret (TUnique cols)
  else if is_word t "foreign" then
    next;; expect_kw "key";;
    columns ← parse_paren_column_list;
    expect_kw "references";;
    ref_table ← expect_ident "referenced table";
    ref_columns ← parse_paren_column_list;
    mret (TForeignKey columns ref_table ref_columns)
  else if is_word t "check" then
    next;;
    expect_tok LParen "'(' after CHECK";;
    e ← parse_expr top;
    expect_tok RParen "')' after CHECK expression";;
    mret (TCheck e)
  else p_err "expected PRIMARY KEY, UNIQUE, FOREIGN KEY, or CHECK".

Abbreviation table_items := (list ColumnDef * list TableConstraint)%type.

(** A column definition, with an optional [REFERENCES]. *)
Definition parse_column_def (items : table_items) : P table_items :=
  let '(columns, constraints) := items in
  name ← expect_ident "column name";
  ctype ← parse_column_type;
  col_constraints ← parse_column_constraints;
  let columns' := columns ++ [mkColumnDef name ctype col_constraints] in
  r ← try_kw "references";
  if (r : bool) then
    ref_table ← expect_ident "referenced table";
    ref_columns ← parse_paren_column_list;
    mret (columns', constraints ++ [TForeignKey [name] ref_table ref_columns])
  else mret (columns', constraints).

Definition parse_create_table : P CreateTableStatement :=
  expect_kw "table";;
  table ← expect_ident "table name";
  expect_tok LParen "'('";;
  '(columns, constraints) ← ts_loop (fun '(columns, constraints) =>
    t ← peek;
    items ← (if is_table_constraint t then
               c ← parse_table_constraint; mret (columns, constraints ++ [c])
             else parse_column_def (columns, constraints));
    t ← peek;
    match t with
    | Comma => next;; mret (inl items)
    | RParen => next;; mret (inr items)
    | _ => if is_table_constraint t then mret (inl items) else p_err "expected ',' or ')'"
    end) ([], []);
  mret (mkCreateTable table columns constraints).

Definition parse_alter_table : P AlterTableStatement :=
  table ← expect_ident "table name";
  t ← next;
  op ← (if is_word t "add" then
          expect_kw "column";;
          name ← expect_ident "column name";
          ctype ← parse_column_type;
          mret (AddColumn (mkColumnDef name ctype []))
        else if is_word t "drop" then
          expect_kw "column";;
          name ← expect_ident "column name";
          mret (DropColumn name)
        else if is_word t "rename" then
          expect_kw "column";;
          old_name ← expect_ident "old column name";
          expect_kw "to";;
          new_name ← expect_ident "new column name";
          mret (RenameColumn old_name new_name)
        else p_err "expected ADD, DROP, or RENAME after ALTER TABLE");
  mret (mkAlterTable table op).

(** ** [INSERT], [UPDATE], [DELETE] ([dml.rs]) *)

Definition parse_row : P (list Literal) :=
  expect_tok LParen "'(' before values";;
  paren_list parse_literal "expected ',' or ')'".

Definition parse_insert : P InsertStatement :=
  expect_kw "into";;
  table ← expect_ident "table name";
  b ← try_tok LParen;
  columns ← (if (b : bool) then paren_list (expect_ident "column name") "expected ',' or ')'"
             else mret []);
  expect_kw "values";;
  values ← comma_list parse_row;
  expect_eof "trailing tokens after statement";;
  mret (mkInsert table columns values).

Definition parse_assignment : P Assignment :=
  column ← expect_ident "column name";
  expect_tok (Op Eq) "'=' in assignment";;
  value ← parse_literal;
  mret (mkAssignment column value).

Definition parse_where : P (option Expr) :=
  w ← try_kw "where";
  if (w : bool) then e ← parse_expr top; mret (Some e) else mret None.

Definition parse_update : P UpdateStatement :=
  table ← expect_ident "table name";
  expect_kw "set";;
  assignments ← comma_list parse_assignment;
  filter ← parse_where;
  expect_eof "trailing tokens";;
  mret (mkUpdate table assignments filter).

Definition parse_delete : P DeleteStatement :=
  expect_kw "from";;
  table ← expect_ident "table name";
  filter ← parse_where;
  expect_eof "trailing tokens after statement";;
  mret (mkDelete table filter).

(** ** Statements ([mod.rs]) *)

Definition parse_set : P SetParameterStatement :=
  name ← expect_ident "parameter name";
  expect_kw "=";;
  t ← next;
  value ← match t with
          | Ident s => mret s
          | Text s => mret s
          | Int i => mret (int_to_string i)
          | Float f => mret (f32_display f)
          | _ => p_err "expected parameter value after ="
          end;
  expect_eof "trailing tokens after SET statement";;
  mret (mkSetParameter name value).

Definition parse_show : P ShowParameterStatement :=
  name ← expect_ident "parameter name";
  expect_eof "trailing tokens after SHOW statement";;
  mret (mkShowParameter name).

Definition parse_reset : P Statement :=
  a ← try_kw "all";
  if (a : bool) then expect_eof "trailing tokens after RESET ALL";; mret ResetAll
  else
    name ← expect_ident "parameter name";
    expect_eof "trailing tokens after RESET statement";;
    mret (ResetParameter (mkResetParameter name)).

(** The [WITH] clause, its keyword read, and the [SELECT] after it. *)
Definition parse_with : P (list CTE) :=
  is_recursive ← try_kw "recursive";
  parse_with_clause is_recursive.

Definition parse_create : P Statement :=
  t ← peek;
  if is_word t "table" then c ← parse_create_table; mret (CreateTable c)
  else if is_word t "view" then next;; c ← parse_create_view; mret (CreateView c)
  else p_err "expected TABLE or VIEW after CREATE".

Definition parse_drop : P Statement :=
  t ← next;
  if is_word t "view" then
    name ← expect_ident "view name";
    expect_eof "trailing tokens after statement";;
    mret (DropView name)
  else p_err "expected VIEW after DROP".

Definition parse_statement_ts : P Statement :=
  t ← next;
  if is_word t "with" then
    ctes ← parse_with;
    t ← next;
    if is_word t "select" then
      stmt ← parse_select_or_compound ctes;
      expect_eof "trailing tokens after statement";;
      mret stmt
    else p_err "expected SELECT after WITH"
  else if is_word t "select" then
    items ← try_parse_select_literal;
    match items with
    | Some items => next;; mret (SelectLiteral items)
    | None =>
        stmt ← parse_select_or_compound [];
        expect_eof "trailing tokens after statement";;
        mret stmt
    end
  else if is_word t "insert" then i ← parse_insert; mret (Insert i)
  else if is_word t "update" then u ← parse_update; mret (Update u)
  else if is_word t "delete" then d ← parse_delete; mret (Delete d)
  else if is_word t "create" then parse_create
  else if is_word t "drop" then parse_drop
  else if is_word t "alter" then
    expect_kw "table";;
    stmt ← parse_alter_table;
    expect_eof "trailing tokens after statement";;
    mret (AlterTable stmt)
  else if is_word t "begin" then mret Begin
  else if is_word t "commit" then mret Commit
  else if is_word t "rollback" then mret Rollback
  else if is_word t "set" then s ← parse_set; mret (SetParameter s)
  else if is_word t "show" then s ← parse_show; mret (ShowParameter s)
  else if is_word t "reset" then parse_reset
  else p_err "expected SELECT, INSERT, UPDATE, DELETE, CREATE TABLE, CREATE VIEW, DROP VIEW, ALTER TABLE, BEGIN, COMMIT, ROLLBACK, SET, SHOW, or RESET".

Definition parse_statement (input : list byte) : outcome ParseError Statement :=
  match new input with
  | Ok ts => fst (parse_statement_ts ts)
  | Err e => Err e
  | Panic => Panic
  end.

Definition parse_select_ts : P SelectStatement :=
  w ← try_kw "with";
  ctes ← (if (w : bool) then parse_with else mret []);
  t ← next;
  if is_word t "select" then
    stmt ← parse_select_inner top;
    expect_eof "trailing tokens after statement";;
    mret (set_with_ctes ctes stmt)
  else p_err "expected SELECT".

Definition parse_select (input : list byte) : outcome ParseError SelectStatement :=
  match new input with
  | Ok ts => fst (parse_select_ts ts)
  | Err e => Err e
  | Panic => Panic
  end.

End Fmt.

End Parser.
