(* ===== verification/ParserProof.v ===== *)
(** * ParserProof: the lexer and the parser never loop, and when they panic

    [saf lo C Q m]: from a stream positioned on a token, at a depth of at least
    [lo], the computation [m] does not panic, and if it succeeds it is still on
    a token, at the same depth, and [Q] of the result tokens further.  A loop
    whose every round consumes a token ends within its fuel; a recursion that
    enters a level each time ends within [MAX_PARSE_DEPTH]. *)
From Stdlib Require Import ZArith Lia Strings.Byte Strings.String.
From stdpp Require Import base numbers option list.
From S2P Require Import Prelude Ast Value Lexer Datetime Expr Parser.
Import Ast Lexer Parser.
Local Open Scope string_scope.
Local Open Scope list_scope.

(** ** The lexer consumes its input *)

Lemma span_le p l : span p l <= length l.
Proof. induction l as [|c l IH]; simpl; [lia|]. destruct (p c); lia. Qed.

Lemma skip_while_ge p b n : n <= skip_while p b n.
Proof. unfold skip_while. lia. Qed.

Lemma skip_while_le p b n : n <= length b -> skip_while p b n <= length b.
Proof. intros Hn. unfold skip_while. assert (H := span_le p (drop n b)). rewrite length_drop in H. lia. Qed.

(** The first byte of a run is in it. *)
Lemma skip_while_gt p b n c : b !! n = Some c -> p c = true -> n < skip_while p b n.
Proof.
  intros Hc Hp. unfold skip_while. rewrite (drop_S _ _ _ Hc). simpl. rewrite Hp. lia.
Qed.

Lemma text_loop_pos rest : forall text chunk p t p',
  text_loop rest text chunk p = Ok (t, p') -> p < p' <= p + length rest.
Proof.
  assert (Hn : forall n rest text chunk p t p', length rest <= n ->
    text_loop rest text chunk p = Ok (t, p') -> p < p' <= p + length rest).
  2: { intros. by eapply Hn. }
  clear rest. induction n as [|n IH]; intros [|c rest] text chunk p t p' Hl H; simpl in *; try done; [lia|].
  destruct (Byte.eqb c QUOTE).
  - destruct rest as [|c2 rest]; [injection H as <- <-; lia|].
    destruct (Byte.eqb c2 QUOTE); [|injection H as <- <-; simpl; lia].
    apply IH in H; simpl in *; lia.
  - apply IH in H; lia.
Qed.

Lemma text_loop_no_panic n : forall rest text chunk p,
  length rest <= n -> text_loop rest text chunk p <> Panic.
Proof.
  induction n as [|n IH]; intros [|c rest] text chunk p Hl; simpl in *; try done; [lia|].
  destruct (Byte.eqb c QUOTE); [|apply IH; lia].
  destruct rest as [|c2 rest]; [done|]. destruct (Byte.eqb c2 QUOTE); [|done].
  apply IH. simpl in Hl. lia.
Qed.

(** A number ends after its first byte, inside the input. *)
Lemma number_end_pos b n c p' fl :
  b !! n = Some c -> is_ascii_digit c || Byte.eqb c "-"%byte = true ->
  number_end b n c = (p', fl) -> n < p' <= length b.
Proof.
  intros Hc Hd H. assert (Hlt := lookup_lt_Some _ _ _ Hc). unfold number_end in H.
  set (p1 := if Byte.eqb c "-"%byte then n + 1 else n) in H.
  assert (Hp2 : n < skip_while is_ascii_digit b p1 <= length b).
  { split; [|apply skip_while_le; unfold p1; destruct (Byte.eqb c "-"%byte); lia].
    unfold p1. destruct (Byte.eqb c "-"%byte) eqn:E.
    - assert (Hg := skip_while_ge is_ascii_digit b (n + 1)). lia.
    - rewrite orb_false_r in Hd. by apply (skip_while_gt _ _ _ c). }
  set (p2 := skip_while is_ascii_digit b p1) in *.
  destruct (byte_is (b !! p2) DOT); [|injection H as <- <-; lia].
  destruct (byte_sat is_ascii_digit (b !! (p2 + 1))) eqn:E; [|injection H as <- <-; lia].
  destruct (b !! (p2 + 1)) as [c2|] eqn:E2; [|done]. apply lookup_lt_Some in E2.
  assert (Hg := skip_while_ge is_ascii_digit b (p2 + 1)).
  assert (Hs := skip_while_le is_ascii_digit b (p2 + 1) ltac:(lia)).
  destruct (byte_sat is_ascii_alphabetic _); injection H as <- <-; lia.
Qed.

(** What [next_tok] does to the position: only the end of the input leaves it
    where it was. *)
Lemma next_tok_spec b p0 :
  p0 <= length b ->
  match next_tok b p0 with
  | Ok (t, p') => p' <= length b /\ (t <> Eof -> p0 < p')
  | Err _ => True
  | Panic => False
  end.
Proof.
  intros Hp0. unfold next_tok. set (n := skip_while is_ascii_whitespace b p0).
  assert (Hn : p0 <= n <= length b)
    by (split; [apply skip_while_ge|by apply skip_while_le]).
  destruct (b !! n) as [c|] eqn:Hc; [|by split; [lia|]]. assert (Hlt := lookup_lt_Some _ _ _ Hc).
  assert (Htwo : forall x, byte_is (b !! (n + 1)) x = true -> n + 1 < length b).
  { intros x Hx. destruct (b !! (n + 1)) eqn:E; [|done]. by apply lookup_lt_Some in E. }
  assert (Hone : n + 1 <= length b /\ p0 < n + 1) by lia.
  repeat match goal with
  | |- context [if Byte.eqb c ?k then _ else _] => destruct (Byte.eqb c k) eqn:?
  | |- context [if byte_is (b !! (n + 1)) ?k then _ else _] =>
      let Hk := fresh in destruct (byte_is (b !! (n + 1)) k) eqn:Hk; [apply Htwo in Hk|]
  end; try (split; [lia|intros _; lia]); try done.
  - destruct (text_loop _ _ _ _) as [[t p']|e|] eqn:E; [|done|].
    + apply text_loop_pos in E. rewrite length_drop in E. split; [lia|intros _; lia].
    + by apply (text_loop_no_panic (length (drop (n + 1) b))) in E.
  - destruct (is_ascii_digit c || Byte.eqb c "-"%byte) eqn:Ed.
    + destruct (number_end b n c) as [p' fl] eqn:E.
      apply number_end_pos in E; [|done|done].
      destruct fl; [destruct (parse_f32 _)|destruct (parse_i64 _)]; try done; (split; [lia|intros _; lia]).
    + destruct (ident_start c) eqn:Ei; [|done].
      assert (Hi : ident_char c = true).
      { unfold ident_start, ident_char, is_ascii_alphanumeric in *.
        by destruct (is_ascii_alphabetic c), (is_ascii_digit c). }
      assert (Hg := skip_while_gt ident_char b n c Hc Hi).
      assert (Hs := skip_while_le ident_char b n ltac:(lia)).
      split; [lia|intros _; lia].
Qed.

(** The tokens of an input: its one [Eof] is at the end. *)
Definition eof_ended (toks : list Tok) : Prop := exists pre, toks = pre ++ [Eof] /\ Eof ∉ pre.

Lemma tokenize_from_spec fuel : forall b p acc,
  p <= length b -> length b - p < fuel -> Eof ∉ acc ->
  match tokenize_from fuel b p acc with
  | Ok toks => eof_ended toks
  | Err _ => True
  | Panic => False
  end.
Proof.
  induction fuel as [|fuel IH]; intros b p acc Hp Hf Hacc; [lia|]. simpl.
  assert (Hn := next_tok_spec b p Hp). destruct (next_tok b p) as [[t p']|e|]; [|done|done].
  destruct Hn as [Hp' Hlt]. case_decide as Ht.
  - subst t. by exists acc.
  - apply IH; [done|specialize (Hlt Ht); lia|].
    intros [Hx|Hx%list_elem_of_singleton]%elem_of_app; [done|congruence].
Qed.

Lemma tokenize_spec input :
  match tokenize input with
  | Ok toks => eof_ended toks
  | Err _ => True
  | Panic => False
  end.
Proof. apply tokenize_from_spec; [lia|lia|]. by apply not_elem_of_nil. Qed.

(** ** The judgement *)

(** The input does not end in a dot. *)
Definition no_final_dot (toks : list Tok) : Prop := forall pre, toks <> pre ++ [Dot; Eof].

Record ready (lo : nat) (ts : TokenStream) : Prop := {
  rd_eof : eof_ended (tokens ts);
  rd_dot : no_final_dot (tokens ts);
  rd_pos : pos ts < length (tokens ts);
  rd_lo : lo <= depth ts <= MAX_PARSE_DEPTH;
}.

Definition advanced (lo k : nat) (ts ts' : TokenStream) : Prop :=
  ready lo ts' /\ tokens ts' = tokens ts /\ depth ts' = depth ts /\ pos ts + k <= pos ts'.

(** Preconditions on the stream: anything, or the current token. *)
Abbreviation cond := (TokenStream -> Prop).
Definition anywhere : cond := fun _ => True.
Definition at_tok (C : cond) (t : Tok) : cond := fun ts => C ts /\ tokens ts !! pos ts = Some t.
Definition at_pos (C : cond) (n : nat) : cond := fun ts => C ts /\ pos ts = n.

Definition saf {A} (lo : nat) (C : cond) (Q : A -> nat) (m : P A) : Prop :=
  forall ts, ready lo ts -> C ts ->
  match m ts with
  | (Ok a, ts') => advanced lo (Q a) ts ts'
  | (Err _, _) => True
  | (Panic, _) => False
  end.

(** A round of a loop: continuing costs a token more than leaving. *)
Definition round {A B} (j : nat) (r : A + B) : nat := match r with inl _ => S j | inr _ => j end.

(** A computation that fails whatever the stream. *)
Definition errs {A} (m : P A) : Prop := forall ts, exists e, (m ts).1 = Err e.

Lemma errs_err {A} e : errs (A := A) (m_err e).
Proof. intros ts. by exists e. Qed.

Lemma errs_bind {A B} (m : P A) (f : A -> P B) : errs m -> errs (m ≫= f).
Proof.
  intros H ts. destruct (H ts) as [e He]. unfold mbind, M_bind.
  destruct (m ts) as [[?|?|] ?]; simplify_eq/=. eauto.
Qed.

Section Rules.
Context (lo : nat).

Lemma saf_ret {A} C (Q : A -> nat) a : Q a = 0 -> saf lo C Q (mret a).
Proof. intros HQ ts Hr _. simpl. rewrite HQ. split_and!; [done..|lia]. Qed.

Lemma saf_err {A} C (Q : A -> nat) e : saf lo C Q (m_err e).
Proof. intros ts Hr _. done. Qed.

Lemma saf_weaken {A} C (Q Q' : A -> nat) (m : P A) :
  saf lo C Q m -> (forall a, Q' a <= Q a) -> saf lo C Q' m.
Proof.
  intros H HQ ts Hr Hc. specialize (H ts Hr Hc). destruct (m ts) as [[a|e|] ts']; [|done|done].
  destruct H as (H1 & H2 & H3 & H4). split_and!; [done..|]. specialize (HQ a). lia.
Qed.

Lemma saf_bind {A B} C (R : A -> nat) (Q : B -> nat) (m : P A) (f : A -> P B) :
  saf lo C R m -> (forall a, saf lo anywhere (fun b => Q b - R a) (f a)) -> saf lo C Q (m ≫= f).
Proof.
  intros Hm Hf ts Hr Ho. specialize (Hm ts Hr Ho). unfold mbind, M_bind.
  destruct (m ts) as [[a|e|] ts']; [|done|done]. destruct Hm as (H1 & H2 & H3 & H4).
  specialize (Hf a ts' H1 I). destruct (f a ts') as [[b|e|] ts'']; [|done|done].
  destruct Hf as (G1 & G2 & G3 & G4). split_and!; [done|congruence|congruence|lia].
Qed.

Lemma ready_lookup ts : ready lo ts -> exists t, tokens ts !! pos ts = Some t.
Proof. intros [_ _ Hp _]. by apply lookup_lt_is_Some_2. Qed.

(** Only [Eof] is at the end. *)
Lemma ready_next ts t :
  ready lo ts -> tokens ts !! pos ts = Some t -> t <> Eof ->
  advanced lo 1 ts (set_pos (pos ts + 1) ts).
Proof.
  intros [He Hd Hp Hl] Ht Hne. split_and!; try done. split; try done. simpl.
  destruct He as (pre & Hpre & _). rewrite Hpre in *. rewrite length_app in *. simpl in *.
  destruct (decide (pos ts = length pre)) as [Heq|]; [|lia].
  rewrite Heq, list_lookup_middle in Ht by done. congruence.
Qed.

Lemma saf_peek {A} C (Q : A -> nat) (f : Tok -> P A) :
  (forall t, saf lo (at_tok C t) Q (f t)) -> saf lo C Q (peek ≫= f).
Proof.
  intros Hf ts Hr Hc. destruct (ready_lookup ts Hr) as [t Ht].
  unfold mbind, M_bind, peek. rewrite Ht. exact (Hf t ts Hr (conj Hc Ht)).
Qed.

Lemma saf_next_at {A} C t (Q : A -> nat) (f : Tok -> P A) :
  t <> Eof -> saf lo anywhere (fun a => Q a - 1) (f t) -> saf lo (at_tok C t) Q (next ≫= f).
Proof.
  intros Hne Hf ts Hr [_ Ht]. unfold mbind, M_bind, next. rewrite Ht.
  destruct (ready_next ts t Hr Ht Hne) as (H1 & H2 & H3 & H4).
  specialize (Hf _ H1 I). destruct (f t _) as [[a|e|] ts']; [|done|done].
  destruct Hf as (G1 & G2 & G3 & G4). split_and!; [done|congruence|congruence|simpl in *; lia].
Qed.

Lemma saf_next {A} C (Q : A -> nat) (f : Tok -> P A) :
  errs (f Eof) -> (forall t, t <> Eof -> saf lo anywhere (fun a => Q a - 1) (f t)) ->
  saf lo C Q (next ≫= f).
Proof.
  intros He Hf ts Hr _. destruct (ready_lookup ts Hr) as [t Ht].
  destruct (decide (t = Eof)) as [->|Hne].
  - unfold mbind, M_bind, next. rewrite Ht. destruct (He (set_pos (pos ts + 1) ts)) as [e E].
    destruct (f Eof _) as [[?|?|] ?]; done.
  - exact (saf_next_at anywhere t Q f Hne (Hf t Hne) ts Hr (conj I Ht)).
Qed.

Lemma saf_save {A} C (Q : A -> nat) (f : nat -> P A) :
  (forall n, saf lo (at_pos C n) Q (f n)) -> saf lo C Q (save ≫= f).
Proof. intros Hf ts Hr Ho. exact (Hf (pos ts) ts Hr (conj Ho eq_refl)). Qed.

(** Restoring the position the stream is at. *)
Lemma saf_restore {A} C n (Q : A -> nat) (f : unit -> P A) :
  (forall ts, C ts -> pos ts = n) -> saf lo C Q (f tt) -> saf lo C Q (restore n ≫= f).
Proof.
  intros Hn Hf ts Hr Hc. specialize (Hf ts Hr Hc). unfold mbind, M_bind, restore.
  rewrite <- (Hn ts Hc). by destruct ts.
Qed.

Lemma saf_ts_loop {A B} C j (body : A -> P (A + B)) a :
  (forall a, saf lo anywhere (round j) (body a)) -> saf lo C (fun _ => j) (ts_loop body a).
Proof.
  intros Hb ts Hr _. unfold ts_loop.
  assert (Hf : length (tokens ts) - pos ts < S (length (tokens ts))) by lia.
  revert Hf. generalize (S (length (tokens ts))) as fuel. intros fuel. revert a ts Hr.
  induction fuel as [|fuel IH]; intros a ts Hr Hf; [lia|].
  simpl. unfold mbind, M_bind. specialize (Hb a ts Hr I) as Hba.
  destruct (body a ts) as [[[a'|b]|e|] ts']; [| |done|done]; [|exact Hba].
  destruct Hba as (H1 & H2 & H3 & H4). simpl in H4. assert (Hp := rd_pos _ _ Hr).
  specialize (IH a' ts' H1). rewrite H2 in IH. specialize (IH ltac:(lia)).
  destruct (m_loop fuel body a' ts') as [[b|e|] ts'']; [|done|done].
  destruct IH as (G1 & G2 & G3 & G4). split_and!; [done|congruence|congruence|lia].
Qed.

End Rules.

(** Entering a level: beyond the last one there is only an error. *)
Lemma ready_deeper lo ts :
  ready lo ts -> depth ts < MAX_PARSE_DEPTH -> ready (S lo) (set_depth (depth ts + 1) ts).
Proof. intros [H1 H2 H3 H4] Hd. split; try done. simpl. lia. Qed.

Lemma advanced_shallower lo k ts ts' :
  ready lo ts -> advanced (S lo) k (set_depth (depth ts + 1) ts) ts' ->
  advanced lo k ts (set_depth (depth ts' - 1) ts').
Proof.
  intros Hr ([G1 G2 G3 G4] & H2 & H3 & H4). assert (Hl := rd_lo _ _ Hr). simpl in *.
  split_and!; simpl; [|done|lia|done]. split; simpl; try done. lia.
Qed.

Lemma saf_enter {A B} lo C (R : A -> nat) (Q : B -> nat) (m : P A) (f : A -> P B) :
  (S lo <= MAX_PARSE_DEPTH -> saf (S lo) anywhere R m) ->
  (forall a, saf lo anywhere (fun b => Q b - R a) (f a)) ->
  saf lo C Q (enter_depth;; a ← m; exit_depth;; f a).
Proof.
  intros Hm Hf ts Hr _. unfold mbind, M_bind, enter_depth. simpl. case_decide as Hd; [done|].
  assert (Hl := rd_lo _ _ Hr).
  specialize (Hm ltac:(lia) (set_depth (depth ts + 1) ts) (ready_deeper _ _ Hr ltac:(lia)) I).
  destruct (m _) as [[a|e|] ts1]; [|done|done].
  apply (advanced_shallower lo _ _ _ Hr) in Hm as (H1 & H2 & H3 & H4). simpl.
  specialize (Hf a _ H1 I). destruct (f a _) as [[b|e|] ts2]; [|done|done].
  destruct Hf as (G1 & G2 & G3 & G4). split_and!; [done|congruence|congruence|lia].
Qed.

Lemma saf_leaving {A B} lo C (R : A -> nat) (Q : B -> nat) (m : P A) (f : A -> P B) :
  (S lo <= MAX_PARSE_DEPTH -> saf (S lo) anywhere R m) ->
  (forall a, saf lo anywhere (fun b => Q b - R a) (f a)) ->
  saf lo C Q (enter_depth;; a ← leaving m; f a).
Proof.
  intros Hm Hf ts Hr Ho. assert (H := saf_enter lo C R Q m f Hm Hf ts Hr Ho). revert H.
  unfold mbind, M_bind, enter_depth, leaving, exit_depth. simpl. case_decide; [done|].
  by destruct (m _) as [[a|e|] ts1].
Qed.

Lemma eof_last toks i : eof_ended toks -> toks !! i = Some Eof -> drop i toks = [Eof].
Proof.
  intros (pre & -> & Hni) Hi. apply lookup_app_Some in Hi as [Hi|[Hl Hi]].
  - by apply list_elem_of_lookup_2 in Hi.
  - apply list_lookup_singleton_Some in Hi as [Hi _].
    replace i with (length pre) by lia. apply drop_app_length.
Qed.

(** ** Automation *)

Lemma word_not_eof t w : is_word t w = true -> t <> Eof.
Proof. by intros H ->. Qed.

Lemma word2_not_eof t w1 w2 : is_word t w1 || is_word t w2 = true -> t <> Eof.
Proof. by intros H ->. Qed.

Lemma constraint_not_eof t : is_table_constraint t = true -> t <> Eof.
Proof. by intros H ->. Qed.

Create HintDb saf.

Ltac not_eof :=
  first [ done | assumption | by (intros ->) | by eapply word_not_eof | by eapply word2_not_eof
        | by eapply constraint_not_eof | congruence ].

Ltac solve_errs := cbn; repeat first [ apply errs_err | apply errs_bind; cbn ].

Ltac saf_arith := intros; cbn; repeat case_match; simplify_eq/=; try done; cbn in *; try lia.

Ltac saf_step :=
  lazymatch goal with
  | |- saf _ _ _ (mret _) => apply saf_ret; saf_arith
  | |- saf _ _ _ (m_err _) => apply saf_err
  | |- saf _ _ _ (p_err _) => apply saf_err
  | |- saf _ _ _ (expected _) => apply saf_err
  | |- saf _ _ _ (peek ≫= _) => apply saf_peek; intros ?; cbn beta
  | |- saf _ (at_tok _ ?t) _ (next ≫= _) => apply saf_next_at; [not_eof|cbn beta]
  | |- saf _ _ _ (next ≫= _) => apply saf_next; [solve_errs|intros ? ?; cbn beta]
  | |- saf _ _ _ (save ≫= _) => apply saf_save; intros ?; cbn beta
  | |- saf _ _ _ (restore _ ≫= _) => apply saf_restore; [unfold at_tok, at_pos; naive_solver|cbn beta]
  | |- saf _ _ _ (ts_loop _ _) => first
      [ apply saf_ts_loop; intros ?; cbn beta
      | eapply saf_weaken; [apply (saf_ts_loop _ _ 0); intros ?; cbn beta|saf_arith] ]
  | |- saf _ _ _ (_ ≫= _) => first
      [ eapply saf_bind; [solve [eauto 3 with saf nocore]|intros ?; cbn beta]
      | eapply (saf_bind _ _ (fun _ => 0)); [|intros ?; cbn beta] ]
  | |- saf _ _ _ (match ?x with _ => _ end) => destruct x eqn:?; try subst
  | |- saf _ _ _ _ => solve [eapply saf_weaken; [eauto 3 with saf nocore|saf_arith]]
  end.

Ltac saf_solve := repeat saf_step.

(** ** Helpers of the lexer *)

Lemma saf_expect_kw lo C w : saf lo C (fun _ => 1) (expect_kw w).
Proof. unfold expect_kw. saf_solve. Qed.

Lemma saf_expect_int lo C w : saf lo C (fun _ => 1) (expect_int w).
Proof. unfold expect_int. saf_solve. Qed.

Lemma saf_expect_tok lo C t w : t <> Eof -> saf lo C (fun _ => 1) (expect_tok t w).
Proof.
  intros Ht. unfold expect_tok. apply saf_next.
  - cbn. rewrite decide_False by congruence. apply errs_err.
  - intros t' Ht'. saf_solve.
Qed.

Lemma saf_try_kw lo C w : saf lo C (fun b : bool => if b then 1 else 0) (try_kw w).
Proof. unfold try_kw. saf_solve. Qed.

Lemma saf_try_tok lo C t : t <> Eof -> saf lo C (fun b : bool => if b then 1 else 0) (try_tok t).
Proof. intros Ht. unfold try_tok. saf_solve. Qed.

#[export] Hint Resolve saf_expect_kw saf_expect_int saf_try_kw : saf.
#[export] Hint Extern 1 (saf _ _ _ (expect_tok _ _)) => apply saf_expect_tok; discriminate : saf.
#[export] Hint Extern 1 (saf _ _ _ (try_tok _)) => apply saf_try_tok; discriminate : saf.

(** A qualified name: each part and its dot are tokens. *)
Lemma saf_expect_ident lo C w : saf lo C (fun _ => 1) (expect_ident w).
Proof.
  intros ts Hr _. unfold expect_ident.
  assert (Hf : length (tokens ts) - pos ts < S (length (tokens ts))) by lia.
  revert Hf. generalize (S (length (tokens ts))) as fuel. intros fuel. revert w ts Hr.
  induction fuel as [|fuel IH]; intros w ts Hr Hf; [lia|]. simpl.
  destruct (ready_lookup _ _ Hr) as [t Ht]. unfold mbind, M_bind, next at 1. rewrite Ht.
  destruct (decide (t = Eof)) as [->|Hne]; [done|].
  assert (H1 := ready_next lo ts t Hr Ht Hne). destruct t; try done.
  destruct H1 as (H1 & H2 & H3 & H4). set (ts1 := set_pos (pos ts + 1) ts) in *.
  destruct (ready_lookup _ _ H1) as [d Hd]. unfold peek. rewrite Hd.
  case_decide as Hdot; [|by split_and!].
  unfold next. rewrite Hd. subst d.
  destruct (ready_next lo ts1 Dot H1 Hd ltac:(done)) as (G1 & G2 & G3 & G4).
  set (ts2 := set_pos (pos ts1 + 1) ts1) in *. assert (Hp := rd_pos _ _ Hr).
  specialize (IH "field name after '.'" ts2 G1). rewrite G2, H2 in IH.
  specialize (IH ltac:(lia)). destruct (expect_ident_fuel _ _ ts2) as [[f|e|] ts3]; [|done|done].
  destruct IH as (K1 & K2 & K3 & K4). split_and!; [done|congruence|congruence|lia].
Qed.
#[export] Hint Resolve saf_expect_ident : saf.

(** ** Lists *)

Lemma saf_comma_list {A} lo C (item : P A) :
  saf lo anywhere (fun _ => 1) item -> saf lo C (fun _ => 1) (comma_list item).
Proof.
  intros Hi. unfold comma_list. apply saf_ts_loop. intros acc.
  eapply saf_bind; [exact Hi|]. intros x. cbn beta. saf_solve.
Qed.

Lemma saf_paren_list {A} lo C (item : P A) msg :
  saf lo anywhere (fun _ => 1) item -> saf lo C (fun _ => 1) (paren_list item msg).
Proof.
  intros Hi. unfold paren_list. apply saf_ts_loop. intros acc.
  eapply saf_bind; [exact Hi|]. intros x. cbn beta. saf_solve.
Qed.
#[export] Hint Resolve saf_comma_list saf_paren_list : saf.

(** ** Literals and expressions *)

Lemma saf_parse_vector_literal lo C : saf lo C (fun _ => 0) parse_vector_literal.
Proof. unfold parse_vector_literal. saf_solve. Qed.
#[export] Hint Resolve saf_parse_vector_literal : saf.

Lemma saf_parse_literal lo C : saf lo C (fun _ => 1) parse_literal.
Proof. unfold parse_literal. saf_solve. Qed.
#[export] Hint Resolve saf_parse_literal : saf.

Lemma saf_parse_aggregate_arg lo C : saf lo C (fun _ => 1) parse_aggregate_arg.
Proof. unfold parse_aggregate_arg. saf_solve. Qed.
#[export] Hint Resolve saf_parse_aggregate_arg : saf.

Section WithFmt.
Context `{Fmt}.

Definition parsers_ok (lo : nat) (p : parsers) : Prop :=
  (forall C, saf lo C (fun _ => 1) (p_not p)) /\ (forall C, saf lo C (fun _ => 1) (p_select p)).

Section Level.
Context (lo : nat) (p : parsers) (Hp : parsers_ok lo p).

Lemma saf_p_not C : saf lo C (fun _ => 1) (p_not p).
Proof. apply Hp. Qed.
Lemma saf_p_select C : saf lo C (fun _ => 1) (p_select p).
Proof. apply Hp. Qed.
Hint Resolve saf_p_not saf_p_select : saf.

Lemma saf_parse_and C : saf lo C (fun _ => 1) (parse_and p).
Proof. unfold parse_and. saf_solve. Qed.
Hint Resolve saf_parse_and : saf.

Lemma saf_parse_expr C : saf lo C (fun _ => 1) (parse_expr p).
Proof. unfold parse_expr, parse_or. saf_solve. Qed.
Hint Resolve saf_parse_expr : saf.

Lemma saf_tail {A} C (Q : ParseError + A -> nat) x : Q (inr x) = 0 -> saf lo C Q (tail x).
Proof. intros HQ. by apply saf_ret. Qed.

Lemma saf_parse_is_null C : saf lo C (fun _ => 1) parse_is_null.
Proof. unfold parse_is_null. saf_solve. Qed.
Hint Resolve saf_parse_is_null : saf.

Lemma saf_parse_qualified C n : saf lo C (fun _ => 0) (parse_qualified n).
Proof. unfold parse_qualified. saf_solve. Qed.
Hint Resolve saf_parse_qualified : saf.

(** The arms of [parse_primary_expr] start on the token they were chosen by. *)
Lemma saf_parse_exists C t : t <> Eof -> saf lo (at_tok C t) (fun _ => 1) (parse_exists p).
Proof. intros Ht. unfold parse_exists, tail. saf_solve. Qed.

Lemma saf_parse_agg_expr C t f : t <> Eof -> saf lo (at_tok C t) (fun _ => 1) (parse_agg_expr f).
Proof. intros Ht. unfold parse_agg_expr, tail. saf_solve. Qed.

Lemma saf_parse_extract C t : t <> Eof -> saf lo (at_tok C t) (fun _ => 1) parse_extract.
Proof. intros Ht. unfold parse_extract, tail, tail_err. saf_solve. Qed.

Lemma saf_parse_in C t c : t <> Eof -> saf lo (at_tok C t) (fun _ => 1) (parse_in p c).
Proof. intros Ht. unfold parse_in, tail. saf_solve. Qed.

Lemma saf_parse_rhs C t c op : t <> Eof -> saf lo (at_tok C t) (fun _ => 1) (parse_rhs p c op).
Proof. intros Ht. unfold parse_rhs, tail, tail_err. saf_solve. Qed.

Hint Extern 1 (saf _ (at_tok _ _) _ (parse_in _ _)) => apply saf_parse_in; not_eof : saf.
Hint Extern 1 (saf _ (at_tok _ _) _ (parse_rhs _ _ _)) => apply saf_parse_rhs; not_eof : saf.

Lemma saf_parse_column_expr C t c :
  t <> Eof -> saf lo (at_tok C t) (fun _ => 1) (parse_column_expr p c).
Proof. intros Ht. unfold parse_column_expr, parse_operator, tail, tail_err. saf_solve. Qed.

Lemma saf_schema_suffix C n : saf lo C (fun _ => 0) (parse_schema_suffix n).
Proof.
  intros ts Hr _. destruct (ready_lookup _ _ Hr) as [t Ht].
  assert (E : parse_schema_suffix n ts =
    (if decide (t = Dot) then
       (s ← next; match s with Ident x => mret (n ++ [DOT] ++ x) | _ => mret n end)
         (set_pos (pos ts + 1) ts)
     else (Ok n, ts))).
  { unfold parse_schema_suffix, try_tok, peek, next, mbind, M_bind. rewrite !Ht.
    case_decide; cbn; by rewrite ?Ht. }
  rewrite E. case_decide as Hd; [|by split_and!; [| | |lia]]. subst t. clear E.
  unfold next, mbind, M_bind.
  destruct (ready_next _ _ _ Hr Ht ltac:(done)) as (H1 & H2 & H3 & H4).
  set (ts1 := set_pos (pos ts + 1) ts) in *.
  destruct (ready_lookup _ _ H1) as [s Hs]. rewrite Hs. simpl in Hs.
  assert (Hne : s <> Eof).
  { intros ->. apply (rd_dot _ _ Hr (take (pos ts) (tokens ts))).
    rewrite <- (take_drop (pos ts) (tokens ts)) at 1. f_equal.
    rewrite (drop_S _ _ _ Ht). f_equal. rewrite <- Nat.add_1_r.
    by apply (eof_last _ _ (rd_eof _ _ Hr)). }
  destruct (ready_next _ _ _ H1 Hs Hne) as (G1 & G2 & G3 & G4). simpl in *.
  destruct s; (split_and!; [done|done|done|simpl; lia]).
Qed.
Hint Resolve saf_schema_suffix : saf.

Lemma saf_parse_table_ref C : saf lo C (fun _ => 1) (parse_table_ref p).
Proof. unfold parse_table_ref. saf_solve. Qed.
Hint Resolve saf_parse_table_ref : saf.

Lemma saf_parse_join_type C n :
  saf lo (at_pos C n) (fun r => match r with Some _ => 1 | None => 0 end) (parse_join_type n).
Proof. unfold parse_join_type. saf_solve. Qed.
Hint Resolve saf_parse_join_type : saf.

Lemma saf_parse_joins C : saf lo C (fun _ => 0) (parse_joins p).
Proof. unfold parse_joins. saf_solve. Qed.
Hint Resolve saf_parse_joins : saf.

Lemma saf_parse_clauses C : saf lo C (fun _ => 0) (parse_clauses p).
Proof. unfold parse_clauses. saf_solve. Qed.
Hint Resolve saf_parse_clauses : saf.

End Level.

Hint Resolve saf_parse_and saf_parse_expr saf_parse_is_null saf_parse_qualified
  saf_schema_suffix saf_parse_table_ref saf_parse_joins saf_parse_clauses : saf.

(** ** Windows and the projection *)

Lemma saf_parse_optional_alias lo C : saf lo C (fun _ => 0) parse_optional_alias.
Proof. unfold parse_optional_alias. saf_solve. Qed.
Hint Resolve saf_parse_optional_alias : saf.

Lemma window_only_known lower :
  window_only lower = true ->
  lower = lit "row_number" \/ lower = lit "rank" \/ lower = lit "dense_rank" \/
  lower = lit "lag" \/ lower = lit "lead".
Proof.
  unfold window_only. intros (w & Hw & ->%bool_decide_eq_true)%existsb_exists.
  destruct Hw as [<-|[<-|[<-|[<-|[<-|[]]]]]]; auto 6.
Qed.

Lemma saf_parse_window_only_func lo C lower :
  window_only lower = true -> saf lo C (fun _ => 0) (parse_window_only_func lower).
Proof.
  intros Hw. unfold parse_window_only_func.
  repeat case_decide; [saf_solve..|]. apply window_only_known in Hw. tauto.
Qed.
Hint Resolve saf_parse_window_only_func : saf.

Lemma saf_parse_direction lo C : saf lo C (fun _ => 0) parse_direction.
Proof. unfold parse_direction. saf_solve. Qed.
Hint Resolve saf_parse_direction : saf.

Lemma saf_parse_frame_bound lo C : saf lo C (fun _ => 1) parse_frame_bound.
Proof. unfold parse_frame_bound. saf_solve. Qed.
Hint Resolve saf_parse_frame_bound : saf.

Lemma saf_parse_window_frame lo C k : saf lo C (fun _ => 1) (parse_window_frame k).
Proof. unfold parse_window_frame. saf_solve. Qed.
Hint Resolve saf_parse_window_frame : saf.

Lemma saf_parse_window_order lo C : saf lo C (fun _ => 1) parse_window_order.
Proof. unfold parse_window_order. saf_solve. Qed.
Hint Resolve saf_parse_window_order : saf.

Lemma saf_parse_window_spec lo C : saf lo C (fun _ => 1) parse_window_spec.
Proof. unfold parse_window_spec. saf_solve. Qed.
Hint Resolve saf_parse_window_spec : saf.

Lemma saf_parse_cosine lo C : saf lo C (fun _ => 1) parse_cosine.
Proof. unfold parse_cosine. saf_solve. Qed.
Hint Resolve saf_parse_cosine : saf.

(** The look-ahead of one token is undone unless it is a comma. *)
Lemma saf_parse_more_order lo C l : saf lo C (fun _ => 0) (parse_more_order l).
Proof.
  unfold parse_more_order. apply saf_ts_loop. intros acc ts Hr _.
  destruct (ready_lookup _ _ Hr) as [t Ht]. destruct (decide (t = Comma)) as [->|Hne].
  - assert (E : forall f : nat -> P (list OrderBy + list OrderBy),
      (forall n, saf lo (at_tok anywhere Comma) (round 0) (f n)) ->
      match (save ≫= f) ts with
      | (Ok a, ts') => advanced lo (round 0 a) ts ts'
      | (Err _, _) => True
      | (Panic, _) => False
      end) by (intros f Hf; exact (Hf _ ts Hr (conj I Ht))).
    apply E. intros n. saf_solve.
  - unfold mbind, M_bind, save, next, restore. rewrite Ht. cbn. rewrite decide_False by done.
    split_and!; simpl; [by destruct ts|done|done|lia].
Qed.
Hint Resolve saf_parse_more_order : saf.

Lemma saf_parse_select_tail lo C s : saf lo C (fun _ => 0) (parse_select_tail s).
Proof. unfold parse_select_tail. saf_solve. Qed.
Hint Resolve saf_parse_select_tail : saf.

Lemma saf_parse_window_item lo C t lower pr :
  t <> Eof -> window_only lower = true ->
  saf lo (at_tok C t) (fun _ => 1) (parse_window_item lower pr).
Proof. intros Ht Hw. unfold parse_window_item. saf_solve. Qed.

Lemma saf_parse_aggregate_item lo C t f pr :
  t <> Eof -> saf lo (at_tok C t) (fun _ => 1) (parse_aggregate_item f pr).
Proof. intros Ht. unfold parse_aggregate_item. saf_solve. Qed.

Lemma saf_parse_column_item lo C n pr : saf lo C (fun _ => 0) (parse_column_item n pr).
Proof. unfold parse_column_item. saf_solve. Qed.
Hint Resolve saf_parse_column_item : saf.

Lemma saf_parse_select_item lo C pr : saf lo C (fun _ => 1) (parse_select_item pr).
Proof.
  unfold parse_select_item. apply saf_next; [solve_errs|]. intros t Ht. cbn beta.
  destruct t as [name| | | | | | | | | | | | |]; try apply saf_err.
  apply saf_peek. intros q. cbn beta.
  destruct (decide (q = LParen)) as [->|Hq].
  - rewrite bool_decide_true, andb_true_r by done.
    destruct (window_only _) eqn:Hw.
    + eapply saf_weaken; [by apply saf_parse_window_item|saf_arith].
    + destruct (aggregate_of _); [|saf_solve].
      eapply saf_weaken; [by apply saf_parse_aggregate_item|saf_arith].
  - rewrite bool_decide_false, andb_false_r by done. destruct (aggregate_of _); saf_solve.
Qed.
Hint Resolve saf_parse_select_item : saf.

Lemma saf_parse_projection lo C : saf lo C (fun _ => 1) parse_projection.
Proof.
  unfold parse_projection. saf_step. destruct a; [saf_solve|].
  eapply saf_bind; [apply (saf_ts_loop _ _ 1); intros pr; saf_solve|]. intros pr. saf_solve.
Qed.
Hint Resolve saf_parse_projection : saf.

(** ** The levels *)

Lemma saf_parse_select_core lo C p :
  parsers_ok lo p -> saf lo C (fun _ => 1) (parse_select_core p).
Proof. intros Hp. unfold parse_select_core. saf_solve. Qed.
Hint Resolve saf_parse_select_core : saf.

Lemma saf_parse_select_full lo C p :
  parsers_ok lo p -> saf lo C (fun _ => 1) (parse_select_full p).
Proof. intros Hp. unfold parse_select_full. saf_solve. Qed.

(** The last step of a computation at a deeper level. *)
Lemma saf_leaving_tail {A} lo C (Q : A -> nat) (m : P A) :
  (S lo <= MAX_PARSE_DEPTH -> saf (S lo) anywhere Q m) -> saf lo C Q (enter_depth;; leaving m).
Proof.
  intros Hm ts Hr Hc.
  assert (Hl := saf_leaving lo C Q Q m mret Hm (fun a => saf_ret _ _ _ _ (Nat.sub_diag _)) ts Hr Hc).
  revert Hl. unfold mbind, M_bind, enter_depth. cbn. case_decide; [done|].
  by destruct (leaving m _) as [[a|e|] ts'].
Qed.

Lemma saf_parse_select_inner lo C p :
  (S lo <= MAX_PARSE_DEPTH -> parsers_ok (S lo) p) ->
  saf lo C (fun _ => 1) (parse_select_inner p).
Proof. intros Hp. apply saf_leaving_tail. intros Hl. apply saf_parse_select_full. auto. Qed.

Lemma saf_parse_primary_expr lo C p :
  (S lo <= MAX_PARSE_DEPTH -> parsers_ok (S lo) p) ->
  saf lo C (fun _ => 1) (parse_primary_expr p).
Proof.
  intros Hp. unfold parse_primary_expr.
  apply (saf_enter _ _ (fun r => match r with inr _ => 1 | inl _ => 0 end)).
  - intros Hl. specialize (Hp Hl). apply saf_peek. intros t. cbn beta.
    assert (Harm : forall m, saf (S lo) (at_tok anywhere t) (fun _ : ParseError + Expr => 1) m ->
      saf (S lo) (at_tok anywhere t) (fun r => match r with inr _ => 1 | inl _ => 0 end) m).
    { intros m Hm. eapply saf_weaken; [exact Hm|]. by intros [?|?]; cbn; lia. }
    destruct t as [kw| | | | | | | | | | | | |]; try (unfold tail, tail_err; saf_solve; fail).
    destruct (is_word _ _); [by apply Harm, saf_parse_exists|].
    destruct (aggregate_of _); [by apply Harm, saf_parse_agg_expr|].
    destruct (is_word _ _); [by apply Harm, saf_parse_extract|].
    by apply Harm, saf_parse_column_expr.
  - intros [e|e]; saf_solve.
Qed.

Lemma saf_parse_not lo C p :
  (S lo <= MAX_PARSE_DEPTH -> parsers_ok (S lo) p) -> saf lo C (fun _ => 1) (parse_not p).
Proof.
  intros Hp. unfold parse_not. saf_step. destruct a.
  - apply (saf_leaving _ _ (fun _ => 1)); [|intros e; saf_solve].
    intros Hl. apply Hp. done.
  - eapply saf_weaken; [by apply saf_parse_primary_expr|saf_arith].
Qed.

(** Enough levels for the depth the stream is at. *)
Lemma at_depth_ok n : forall lo, MAX_PARSE_DEPTH < lo + n -> lo <= MAX_PARSE_DEPTH ->
  parsers_ok lo (at_depth n).
Proof.
  induction n as [|n IH]; intros lo Hn Hlo; [lia|].
  split; intros C; [apply saf_parse_not|apply saf_parse_select_inner]; intros Hl; apply IH; lia.
Qed.

Lemma top_ok lo : lo <= MAX_PARSE_DEPTH -> parsers_ok lo top.
Proof. intros Hl. apply at_depth_ok; [lia|done]. Qed.

Definition p_ok := top_ok 0 (Nat.le_0_l _).
Definition p_ok1 := top_ok 1 ltac:(unfold MAX_PARSE_DEPTH; lia).
Hint Resolve p_ok p_ok1 : saf.

(** ** Statements *)

Lemma saf_select_inner_top C : saf 0 C (fun _ => 1) (parse_select_inner top).
Proof. apply saf_parse_select_inner. intros _. apply p_ok1. Qed.
Hint Resolve saf_select_inner_top : saf.

Lemma saf_parse_set_op C n :
  saf 0 (at_pos C n) (fun r => match r with Some _ => 1 | None => 0 end) (parse_set_op n).
Proof. unfold parse_set_op. saf_solve. Qed.
Hint Resolve saf_parse_set_op : saf.

Lemma saf_parse_operations C : saf 0 C (fun _ => 0) parse_operations.
Proof. unfold parse_operations. saf_solve. Qed.
Hint Resolve saf_parse_operations : saf.

Lemma saf_parse_select_or_compound C ctes :
  saf 0 C (fun _ => 1) (parse_select_or_compound ctes).
Proof. unfold parse_select_or_compound. saf_solve. Qed.
Hint Resolve saf_parse_select_or_compound : saf.

Lemma saf_parse_recursive_cte_body C name :
  saf 0 C (fun _ => 1) (parse_recursive_cte_body name).
Proof.
  unfold parse_recursive_cte_body. apply saf_leaving_tail. intros _. saf_solve.
Qed.
Hint Resolve saf_parse_recursive_cte_body : saf.

Lemma saf_parse_with_clause C r : saf 0 C (fun _ => 1) (parse_with_clause r).
Proof.
  unfold parse_with_clause. apply saf_ts_loop. intros ctes.
  do 4 saf_step. destruct (is_word _ _) eqn:?; [|saf_solve].
  apply (saf_bind _ _ (fun _ => 1)).
  - destruct r; [eauto with saf|]. saf_solve.
  - intros cte. saf_solve.
Qed.
Hint Resolve saf_parse_with_clause : saf.

Lemma saf_parse_column_type C : saf 0 C (fun _ => 1) parse_column_type.
Proof. unfold parse_column_type, parse_varchar, parse_vector_type. saf_solve. Qed.
Hint Resolve saf_parse_column_type : saf.

Lemma saf_parse_column_constraints C : saf 0 C (fun _ => 0) parse_column_constraints.
Proof. unfold parse_column_constraints. saf_solve. Qed.
Hint Resolve saf_parse_column_constraints : saf.

Lemma saf_parse_paren_column_list C : saf 0 C (fun _ => 1) parse_paren_column_list.
Proof. unfold parse_paren_column_list. saf_solve. Qed.
Hint Resolve saf_parse_paren_column_list : saf.

Lemma saf_parse_table_constraint C : saf 0 C (fun _ => 1) parse_table_constraint.
Proof. unfold parse_table_constraint. saf_solve. Qed.
Hint Resolve saf_parse_table_constraint : saf.

Lemma saf_parse_column_def C items : saf 0 C (fun _ => 1) (parse_column_def items).
Proof. unfold parse_column_def. saf_solve. Qed.
Hint Resolve saf_parse_column_def : saf.

Lemma saf_parse_create_table C : saf 0 C (fun _ => 1) parse_create_table.
Proof.
  unfold parse_create_table. do 3 saf_step.
  apply (saf_bind _ _ (fun _ => 0)); [|intros [? ?]; saf_solve].
  apply saf_ts_loop. intros [columns constraints]. apply saf_peek. intros t. cbn beta.
  apply (saf_bind _ _ (fun _ => 1)); [|intros items; saf_solve].
  destruct (is_table_constraint t); saf_solve.
Qed.

Lemma saf_parse_alter_table C : saf 0 C (fun _ => 1) parse_alter_table.
Proof. unfold parse_alter_table. saf_solve. Qed.

Lemma saf_parse_row C : saf 0 C (fun _ => 1) parse_row.
Proof. unfold parse_row. saf_solve. Qed.

Lemma saf_parse_assignment C : saf 0 C (fun _ => 1) parse_assignment.
Proof. unfold parse_assignment. saf_solve. Qed.

Lemma saf_parse_where C : saf 0 C (fun _ => 0) parse_where.
Proof. unfold parse_where. saf_solve. Qed.

Lemma saf_parse_with C : saf 0 C (fun _ => 1) parse_with.
Proof. unfold parse_with. saf_solve. Qed.

Hint Resolve saf_parse_create_table saf_parse_alter_table saf_parse_row saf_parse_assignment
  saf_parse_where saf_parse_with : saf.

(** A whole statement may end past the last token. *)
Definition total {A} (C : cond) (m : P A) : Prop :=
  forall ts, ready 0 ts -> C ts -> (m ts).1 <> Panic.

Lemma saf_total {A} C (Q : A -> nat) (m : P A) : saf 0 C Q m -> total C m.
Proof. intros Hm ts Hr Hc. specialize (Hm ts Hr Hc). by destruct (m ts) as [[a|e|] ts']. Qed.

Lemma total_bind {A B} C (Q : A -> nat) (m : P A) (f : A -> P B) :
  saf 0 C Q m -> (forall a, total anywhere (f a)) -> total C (m ≫= f).
Proof.
  intros Hm Hf ts Hr Hc. specialize (Hm ts Hr Hc). unfold mbind, M_bind.
  destruct (m ts) as [[a|e|] ts']; [|done|done]. apply Hf; [apply Hm|done].
Qed.

Lemma total_eof {A} C msg (a : A) : total C (expect_eof msg;; mret a).
Proof.
  intros ts Hr _. destruct (ready_lookup _ _ Hr) as [t Ht].
  unfold expect_eof, mbind, M_bind, next. rewrite Ht. by case_decide.
Qed.

Lemma total_next {A} C (f : Tok -> P A) :
  errs (f Eof) -> (forall t, t <> Eof -> total anywhere (f t)) -> total C (next ≫= f).
Proof.
  intros He Hf ts Hr _. destruct (ready_lookup _ _ Hr) as [t Ht].
  unfold mbind, M_bind, next. rewrite Ht. destruct (decide (t = Eof)) as [->|Hne].
  - destruct (He (set_pos (pos ts + 1) ts)) as [e ->]. done.
  - apply Hf; [done| |done]. by apply (ready_next 0 ts t).
Qed.

Lemma total_map {A B} C (g : A -> B) (m : P A) : total C m -> total C (a ← m; mret (g a)).
Proof.
  intros Hm ts Hr Hc. specialize (Hm ts Hr Hc). unfold mbind, M_bind.
  by destruct (m ts) as [[a|e|] ts'].
Qed.

Ltac total_step :=
  lazymatch goal with
  | |- total _ (expect_eof _;; mret _) => apply total_eof
  | |- total _ (next ≫= _) => apply total_next; [solve_errs|intros ? ?; cbn beta]
  | |- total _ (match ?x with _ => _ end) => destruct x eqn:?
  | |- total _ (_ ≫= _) => eapply total_bind; [solve [eauto 3 with saf nocore]|intros ?; cbn beta]
  | |- total _ _ => apply (saf_total _ (fun _ => 0)); saf_solve
  end.

Lemma total_create_view C : total C parse_create_view.
Proof. unfold parse_create_view. repeat total_step. Qed.

Lemma total_insert C : total C parse_insert.
Proof.
  unfold parse_insert. do 3 total_step.
  apply (total_bind _ (fun _ => 0)); [destruct a1; saf_solve|intros ?; cbn beta].
  do 2 total_step. apply total_eof.
Qed.

Lemma total_update C : total C parse_update.
Proof. unfold parse_update. repeat total_step. Qed.

Lemma total_delete C : total C parse_delete.
Proof. unfold parse_delete. repeat total_step. Qed.

(** ** Trying a list of literals

    The attempt may fail anywhere; it leaves the tokens and the depth alone, so
    that restoring the position restores the stream. *)
Definition quiet {A} (m : P A) : Prop :=
  forall ts, tokens (m ts).2 = tokens ts /\ depth (m ts).2 = depth ts.

Lemma quiet_ret {A} (a : A) : quiet (mret a).
Proof. done. Qed.

Lemma quiet_err {A} e : quiet (A := A) (m_err e).
Proof. done. Qed.

Lemma quiet_next : quiet next.
Proof. intros ts. unfold next. by destruct (_ !! _). Qed.

Lemma quiet_peek : quiet peek.
Proof. intros ts. unfold peek. by destruct (_ !! _). Qed.

Lemma quiet_bind {A B} (m : P A) (f : A -> P B) :
  quiet m -> (forall a, quiet (f a)) -> quiet (m ≫= f).
Proof.
  intros Hm Hf ts. specialize (Hm ts). unfold mbind, M_bind.
  destruct (m ts) as [[a|e|] ts']; [|done|done]. destruct (Hf a ts'), Hm. cbn in *. split; congruence.
Qed.

Lemma quiet_m_loop {A B} (body : A -> P (A + B)) fuel :
  (forall a, quiet (body a)) -> forall a, quiet (m_loop fuel body a).
Proof.
  intros Hb. induction fuel as [|fuel IH]; intros a; [done|].
  apply quiet_bind; [done|]. intros [?|?]; [apply IH|apply quiet_ret].
Qed.

Lemma quiet_ts_loop {A B} (body : A -> P (A + B)) a :
  (forall a, quiet (body a)) -> quiet (ts_loop body a).
Proof. intros Hb ts. by apply quiet_m_loop. Qed.

Lemma quiet_expect_ident w : quiet (expect_ident w).
Proof.
  intros ts. unfold expect_ident. generalize (S (length (tokens ts))) as fuel. intros fuel.
  assert (Hq : forall w, quiet (expect_ident_fuel fuel w)); [|apply Hq].
  induction fuel as [|fuel IH]; intros w'; [done|]. simpl.
  apply quiet_bind; [apply quiet_next|]. intros [| | | | | | | | | | | | |]; try apply quiet_err.
  apply quiet_bind; [apply quiet_peek|]. intros d. case_decide; [|apply quiet_ret].
  apply quiet_bind; [apply quiet_next|]. intros _. apply quiet_bind; [done|]. done.
Qed.

Ltac quiet_solve :=
  repeat first
    [ apply quiet_ret | apply quiet_err | apply quiet_next | apply quiet_peek
    | apply quiet_expect_ident | apply quiet_ts_loop; intros ? | apply quiet_bind; [|intros ?]
    | match goal with |- quiet (match ?x with _ => _ end) => destruct x end ].

Lemma quiet_parse_literal : quiet parse_literal.
Proof. unfold parse_literal, parse_vector_literal, try_tok, p_err. quiet_solve. Qed.

Lemma quiet_literal_item :
  quiet (value ← parse_literal; alias ← parse_optional_alias; mret (mkLiteralItem value alias)).
Proof.
  apply quiet_bind; [apply quiet_parse_literal|]. intros v.
  unfold parse_optional_alias, try_kw. quiet_solve.
Qed.

(** A list of literals is all there is, or nothing happened. *)
Lemma try_parse_select_literal_spec ts :
  ready 0 ts ->
  exists r ts', try_parse_select_literal ts = (Ok r, ts') /\
    match r with
    | Some _ => tokens ts' !! pos ts' = Some Eof
    | None => ts' = ts
    end.
Proof.
  intros Hr. unfold try_parse_select_literal.
  set (item := value ← parse_literal; alias ← parse_optional_alias; mret (mkLiteralItem value alias)).
  assert (Hs : saf 0 anywhere (fun _ => 1) (comma_list item))
    by (apply saf_comma_list; unfold item; saf_solve).
  assert (Hq : quiet (comma_list item)).
  { unfold comma_list. apply quiet_ts_loop. intros acc.
    apply quiet_bind; [apply quiet_literal_item|]. intros x. unfold try_tok. quiet_solve. }
  specialize (Hs ts Hr I). specialize (Hq ts). destruct Hq as [Hqt Hqd].
  assert (Hback : forall ts', tokens ts' = tokens ts -> depth ts' = depth ts ->
    set_pos (pos ts) ts' = ts) by (intros [] ? ?; destruct ts; simpl in *; by subst).
  destruct (comma_list item ts) as [[items|e|] ts']; [| |done]; cbn in Hqt, Hqd.
  - destruct Hs as (H1 & _). destruct (ready_lookup _ _ H1) as [t Ht].
    unfold mbind, M_bind, peek. rewrite Ht. case_decide as He; [subst t; eauto|].
    eexists None, _. split; [reflexivity|]. by apply Hback.
  - eexists None, _. split; [reflexivity|]. by apply Hback.
Qed.

Lemma total_peek {A} C (f : Tok -> P A) :
  (forall t, total (at_tok C t) (f t)) -> total C (peek ≫= f).
Proof.
  intros Hf ts Hr Hc. destruct (ready_lookup _ _ Hr) as [t Ht].
  unfold mbind, M_bind, peek. rewrite Ht. by apply Hf.
Qed.

Lemma total_next_at {A} C t (f : Tok -> P A) :
  t <> Eof -> total anywhere (f t) -> total (at_tok C t) (next ≫= f).
Proof.
  intros Hne Hf ts Hr [_ Ht]. unfold mbind, M_bind, next. rewrite Ht.
  apply Hf; [|done]. by apply (ready_next 0 ts t).
Qed.

Lemma total_set C : total C parse_set.
Proof.
  unfold parse_set. do 2 total_step. total_step. apply (total_bind _ (fun _ => 0)).
  - destruct t; saf_solve.
  - intros v. apply total_eof.
Qed.

Lemma total_reset C : total C parse_reset.
Proof. unfold parse_reset. repeat total_step. Qed.

Lemma total_create C : total C parse_create.
Proof.
  unfold parse_create. apply total_peek. intros t. cbn beta.
  destruct (is_word t "table"); [apply total_map; eapply saf_total, saf_parse_create_table|].
  destruct (is_word t "view") eqn:Hv; [|done].
  apply total_next_at; [not_eof|]. apply total_map, total_create_view.
Qed.

(** A query, after its attempt at literals. *)
Lemma total_select C :
  total C (items ← try_parse_select_literal;
           match items with
           | Some items => next;; mret (SelectLiteral items)
           | None =>
               stmt ← parse_select_or_compound [];
               expect_eof "trailing tokens after statement";;
               mret stmt
           end).
Proof.
  intros ts Hr _. destruct (try_parse_select_literal_spec ts Hr) as (r & ts' & E & Hts).
  unfold mbind at 1, M_bind at 1. rewrite E. destruct r as [items|].
  - unfold mbind, M_bind, next. by rewrite Hts.
  - subst ts'. assert (Hs : total anywhere
      (stmt ← parse_select_or_compound []; expect_eof "trailing tokens after statement";; mret stmt))
      by repeat total_step.
    by apply Hs.
Qed.

Lemma total_statement C : total C parse_statement_ts.
Proof.
  unfold parse_statement_ts. apply total_next; [solve_errs|]. intros t Ht. cbn beta.
  destruct (is_word t "with"); [repeat total_step|].
  destruct (is_word t "select"); [apply total_select|].
  destruct (is_word t "insert"); [apply total_map, total_insert|].
  destruct (is_word t "update"); [apply total_map, total_update|].
  destruct (is_word t "delete"); [apply total_map, total_delete|].
  destruct (is_word t "create"); [apply total_create|].
  destruct (is_word t "drop"); [unfold parse_drop; repeat total_step|].
  destruct (is_word t "alter"); [repeat total_step|].
  do 3 (destruct (is_word t _); [done|]).
  destruct (is_word t "set"); [apply total_map, total_set|].
  destruct (is_word t "show"); [unfold parse_show; apply total_map; repeat total_step|].
  destruct (is_word t "reset"); [apply total_reset|done].
Qed.

Lemma ready_start toks :
  eof_ended toks -> no_final_dot toks -> ready 0 (mkTokenStream toks 0 0).
Proof.
  intros He Hd. split; try done; simpl; [|lia].
  destruct He as (pre & -> & _). rewrite length_app. simpl. lia.
Qed.

Lemma final_dot_dec toks : (exists pre, toks = pre ++ [Dot; Eof]) \/ no_final_dot toks.
Proof.
  destruct (decide (drop (length toks - 2) toks = [Dot; Eof])) as [Hd|Hd].
  - left. exists (take (length toks - 2) toks). by rewrite <- Hd, take_drop.
  - right. intros pre ->. apply Hd. rewrite length_app. simpl.
    rewrite Nat.add_sub. apply drop_app_length.
Qed.

(** C26: parsing always ends, within its bound on nesting and one
    round of a loop per token, and it never looks past the end of its tokens
    unless the last of them is a dot: every other input is answered with a
    statement or a [ParseError]. *)
Theorem parser_total (input : list byte) :
  tokenize input <> Panic /\
  (parse_statement input = Panic -> exists pre, tokenize input = Ok (pre ++ [Dot; Eof])).
Proof.
  assert (Ht := tokenize_spec input). split; [by destruct (tokenize input)|].
  unfold parse_statement, new. destruct (tokenize input) as [toks|e|]; [|done|done].
  intros Hp. destruct (final_dot_dec toks) as [(pre & ->)|Hn]; [by exists pre|].
  destruct (total_statement anywhere _ (ready_start _ Ht Hn) I). exact Hp.
Qed.

(** ** Statements that never work *)

(** A name from the lexer starts like one. *)
Definition name_like (t : Tok) : Prop :=
  match t with Ident s => exists c l, s = c :: l /\ ident_start c = true | _ => True end.

Lemma next_tok_name b p t p' : next_tok b p = Ok (t, p') -> name_like t.
Proof.
  unfold next_tok. set (n := skip_while _ b p). destruct (b !! n) as [c|] eqn:Hc.
  2: { by intros [= <- <-]. }
  repeat match goal with
  | |- (if ?x then _ else _) = _ -> _ => destruct x eqn:?; try (by intros [= <- <-]); try done
  end.
  - destruct (text_loop _ _ _ _) as [[? ?]|?|]; [|done|done]. by intros [= <- <-].
  - destruct (number_end _ _ _) as [q [|]]; case_match; try done; by intros [= <- <-].
  - intros [= <- <-]. simpl.
    assert (Hi : ident_char c = true).
    { unfold ident_start, ident_char, is_ascii_alphanumeric in *.
      by destruct (is_ascii_alphabetic c), (is_ascii_digit c). }
    assert (Hg := skip_while_gt ident_char b n c Hc Hi). unfold slice.
    rewrite (drop_S _ _ _ Hc). destruct (skip_while _ b n - n) as [|k] eqn:E; [lia|].
    exists c, (take k (drop (S n) b)). done.
Qed.

Lemma tokenize_from_names fuel : forall b p acc toks,
  Forall name_like acc -> tokenize_from fuel b p acc = Ok toks -> Forall name_like toks.
Proof.
  induction fuel as [|fuel IH]; intros b p acc toks Ha H0; [done|]. simpl in H0.
  destruct (next_tok b p) as [[t p']|e|] eqn:E; [|done|done].
  assert (Ha' : Forall name_like (acc ++ [t])).
  { apply Forall_app. split; [done|]. constructor; [|done]. by eapply next_tok_name. }
  case_decide; [by injection H0 as <-|]. by eapply IH.
Qed.

(** The lexer makes an operator of [=], so it is never a keyword. *)
Lemma equals_not_word t : name_like t -> is_word t "=" = false.
Proof.
  destruct t as [s| | | | | | | | | | | | |]; try done. intros (c & l & -> & Hc). simpl.
  unfold eq_ignore_case. destruct l as [|c2 l]; [|by rewrite bool_decide_false by done].
  destruct c; vm_compute in Hc |- *; congruence.
Qed.

Lemma eq_ignore_case_lower a b : eq_ignore_case a b = true -> to_ascii_lowercase a = to_ascii_lowercase b.
Proof.
  unfold eq_ignore_case. intros [Hl%bool_decide_eq_true Hf]%andb_true_iff.
  revert b Hl Hf. induction a as [|x a IH]; intros [|y b] Hl Hf; simpl in *; try done.
  apply andb_true_iff in Hf as [Hx%Byte.byte_dec_bl Hf]. rewrite Hx. f_equal. apply IH; [lia|done].
Qed.

(** A token is one keyword only. *)
Lemma word_other t w1 w2 :
  is_word t w1 = true -> to_ascii_lowercase (lit w1) <> to_ascii_lowercase (lit w2) ->
  is_word t w2 = false.
Proof.
  intros H1 Hne. destruct (is_word t w2) eqn:H2; [|done].
  destruct t; try done. simpl in *. apply eq_ignore_case_lower in H1, H2. congruence.
Qed.

(** no [SET parameter = value] is ever accepted, whatever the
    parameter and the value.  The parser asks for a keyword spelled [=], which
    the lexer never produces. *)
Theorem set_never_parses (input : list byte) t toks :
  tokenize input = Ok (t :: toks) -> is_word t "set" = true ->
  forall s, parse_statement input <> Ok s.
Proof.
  intros Ht Hw s. assert (Hn : Forall name_like (t :: toks)) by (eapply tokenize_from_names; [|exact Ht]; done).
  assert (Hset : forall ts, Forall name_like (tokens ts) -> forall x ts', parse_set ts <> (Ok x, ts')).
  { intros ts Hts x ts' E. unfold parse_set in E.
    apply bind_inv in E as (n & ts1 & E1 & E). apply bind_inv in E as (u & ts2 & E2 & _).
    assert (Hq := quiet_expect_ident "parameter name" ts). rewrite E1 in Hq. simpl in Hq.
    unfold expect_kw in E2. apply bind_inv in E2 as (k & ts3 & E3 & E4). unfold next in E3.
    destruct (tokens ts1 !! pos ts1) as [k'|] eqn:Ek; [|done]. injection E3 as -> <-.
    destruct Hq as [Hq _]. rewrite Hq in Ek.
    rewrite equals_not_word in E4; [done|]. by eapply Forall_lookup_1. }
  unfold parse_statement, new. rewrite Ht. unfold parse_statement_ts.
  unfold mbind at 1, M_bind at 1, next at 1. simpl tokens. simpl pos. cbn [lookup list_lookup].
  rewrite !(word_other t "set") by done. rewrite Hw.
  match goal with |- (?m ?ts).1 <> _ => destruct (m ts) as [o ts'] eqn:E end. simpl.
  intros ->. apply bind_inv in E as (x & ts1 & E & _). by apply Hset in E.
Qed.

(** the common table expressions of a [WITH] clause are
    lost when the query they belong to is a [UNION], [INTERSECT] or [EXCEPT]:
    the tree is the one the query has without them. *)
Theorem compound_ignores_with ctes ts c ts' :
  parse_select_or_compound ctes ts = (Ok (Compound c), ts') ->
  parse_select_or_compound [] ts = (Ok (Compound c), ts').
Proof.
  unfold parse_select_or_compound. intros E.
  apply bind_inv in E as (q & ts1 & E1 & E). apply bind_inv in E as (ops & ts2 & E2 & E).
  rewrite (bind_ok _ _ _ _ _ E1), (bind_ok _ _ _ _ _ E2). destruct ops; [|done].
  apply bind_inv in E as ([[o l] ob] & ts3 & E3 & E). done.
Qed.

End WithFmt.

(** ** Inputs on which the parser is wrong *)

#[local] Instance plain_fmt : Fmt := {| tok_debug _ := []; f32_display _ := [] |}.

(** A table name with a dot and nothing after it. *)
Example dangling_dot_panics : parse_statement (lit "SELECT a FROM t.") = Panic.
Proof. vm_compute. reflexivity. Qed.

Lemma set_never_parses_witness :
  forall s, parse_statement (lit "SET work_mem = 64") <> Ok s.
Proof.
  apply (set_never_parses (lit "SET work_mem = 64") (Ident (lit "SET"))
    [Ident (lit "work_mem"); Op Eq; Int 64; Eof]); vm_compute; reflexivity.
Defined.

Lemma compound_ignores_with_witness :
  let ts := mkTokenStream
    (match tokenize (lit "a FROM r UNION SELECT b FROM s") with Ok toks => toks | _ => [] end) 0 0 in
  let cte := mkCTE (lit "r") (mkSelect [lit "x"] false (Named (lit "t") None) None [] [] [] [] [] None None None []) None in
  exists c ts', parse_select_or_compound [cte] ts = (Ok (Compound c), ts') /\
    parse_select_or_compound [] ts = (Ok (Compound c), ts').
Proof.
  intros ts cte. eexists _, _. split; [vm_compute; reflexivity|].
  apply (compound_ignores_with [cte]). vm_compute. reflexivity.
Defined.

(** An alias replaces the column it renames. *)
Example column_alias_replaces :
  parse_statement (lit "SELECT a AS b FROM t") = parse_statement (lit "SELECT b FROM t").
Proof. vm_compute. reflexivity. Qed.

Lemma parser_total_witness :
  exists pre, tokenize (lit "SELECT a FROM t.") = Ok (pre ++ [Dot; Eof]).
Proof. apply (parser_total (lit "SELECT a FROM t.")). vm_compute. reflexivity. Defined.
