(* ===== verification/ParserPrint.v ===== *)
(** * ParserPrint: what is printed is parsed back

    A printer for the expressions and the data-changing statements of the
    dialect, with as few parentheses as the grammar's precedences allow, and
    the proof that lexing and parsing its text gives the tree it came from. *)
From Stdlib Require Import ZArith Lia Strings.Byte Strings.String.
From stdpp Require Import base numbers option list.
From S2P Require Import Prelude Ast Value Lexer Datetime Expr Parser.
Import Ast Lexer Parser.
Local Open Scope string_scope.
Local Open Scope list_scope.

(** ** The text of tokens *)

Definition op_text (op : CmpOp) : str :=
  match op with
  | Eq => lit "=" | Ne => lit "<>" | Lt => lit "<" | Le => lit "<=" | Gt => lit ">" | Ge => lit ">="
  end.

(** A quote inside a literal is doubled. *)
Definition escape (s : str) : str := concat (map (fun c => if Byte.eqb c QUOTE then [QUOTE; QUOTE] else [c]) s).

Definition tok_text (t : Tok) : str :=
  match t with
  | Ident s => s
  | Int i => int_to_string i
  | Float _ => []
  | Text s => [QUOTE] ++ escape s ++ [QUOTE]
  | Star => lit "*" | Comma => lit "," | Dot => lit "." | Op op => op_text op | Param => lit "?"
  | LParen => lit "(" | RParen => lit ")" | LBracket => lit "[" | RBracket => lit "]"
  | Eof => []
  end.

Definition render (toks : list Tok) : str := concat (map (fun t => tok_text t ++ [x20]) toks).

Definition is_ident (s : str) : bool :=
  match s with c :: s' => ident_start c && forallb ident_char s' | [] => false end.

(** The tokens with a text that reads back: no floats, no [Eof]. *)
Definition tok_ok (t : Tok) : bool :=
  match t with
  | Ident s => is_ident s
  | Int i => (- 2 ^ 63 <=? i)%Z && (i <? 2 ^ 63)%Z
  | Float _ | Eof => false
  | _ => true
  end.

(** *** Numbers *)

Lemma int_digit_val d : (0 <= d < 10)%Z -> digit_val (int_digit d) = d.
Proof. intros H. unfold digit_val, int_digit. rewrite b2z_z2b, Z.mod_small; lia. Qed.

Lemma int_digit_is_digit d : (0 <= d < 10)%Z -> is_ascii_digit (int_digit d) = true.
Proof.
  intros H. unfold is_ascii_digit, in_range, int_digit. rewrite b2z_z2b, Z.mod_small by lia.
  change (b2z "0"%byte) with 48%Z. change (b2z "9"%byte) with 57%Z.
  apply andb_true_iff. split; apply Z.leb_le; lia.
Qed.

Lemma digits_val_app a l1 l2 : digits_val a (l1 ++ l2) = digits_val (digits_val a l1) l2.
Proof. apply fold_left_app. Qed.

(** The digits of a number have its value, and are digits. *)
Lemma nat_digits_spec fuel : forall z acc,
  (0 <= z < 10 ^ Z.of_nat fuel)%Z ->
  exists ds, nat_digits fuel z acc = ds ++ acc /\ digits_val 0 ds = z /\
    forallb is_ascii_digit ds = true /\ (0 < fuel -> ds <> []).
Proof.
  induction fuel as [|fuel IH]; intros z acc Hz.
  { exists []. simpl in *. split; [done|]. split; [change (0%Z = z); lia|]. split; [done|lia]. }
  assert (Hm : (0 <= z mod 10 < 10)%Z) by (apply Z.mod_pos_bound; lia).
  simpl. destruct (Z.ltb_spec z 10) as [Hlt|Hge].
  - exists [int_digit z]. rewrite (Z.mod_small z) by lia. split_and!; [done| |simpl|done].
    + unfold digits_val. simpl. rewrite int_digit_val; lia.
    + by rewrite int_digit_is_digit by lia.
  - rewrite Nat2Z.inj_succ, Z.pow_succ_r in Hz by lia.
    destruct (IH (z / 10)%Z (int_digit (z mod 10) :: acc)) as (ds & E & Hv & Hd & _).
    { split; [apply Z.div_pos; lia|]. apply Z.div_lt_upper_bound; lia. }
    exists (ds ++ [int_digit (z mod 10)]). rewrite <- app_assoc. split_and!; [done| | |].
    + rewrite digits_val_app, Hv. unfold digits_val. simpl. rewrite int_digit_val by done.
      assert (He := Z.div_mod z 10 ltac:(lia)). lia.
    + rewrite forallb_app, Hd. simpl. by rewrite int_digit_is_digit.
    + intros _. by destruct ds.
Qed.

(** The text of an [i64]: an optional minus, then digits. *)
Lemma int_to_string_spec i :
  (- 2 ^ 63 <= i < 2 ^ 63)%Z ->
  exists (neg : bool) ds,
    int_to_string i = (if neg then ["-"%byte] else []) ++ ds /\ ds <> [] /\
    forallb is_ascii_digit ds = true /\ parse_i64 (int_to_string i) = Some i.
Proof.
  intros Hi. unfold int_to_string.
  assert (Hp : (0 <= Z.abs i < 10 ^ Z.of_nat 20)%Z) by (change (10 ^ Z.of_nat 20)%Z with 100000000000000000000%Z; lia).
  destruct (nat_digits_spec 20 (Z.abs i) [] Hp) as (ds & E & Hv & Hd & Hne).
  rewrite app_nil_r in E. specialize (Hne ltac:(lia)).
  assert (Hrange : ((- 2 ^ 63 <=? i) && (i <? 2 ^ 63))%Z = true)
    by (apply andb_true_iff; split; [apply Z.leb_le|apply Z.ltb_lt]; lia).
  destruct (Z.ltb_spec i 0) as [Hn|Hn].
  - exists true, ds. replace (- i)%Z with (Z.abs i) by lia. rewrite E. split_and!; [done..|].
    unfold parse_i64. simpl. rewrite decide_False by done. rewrite Hd, Hv. simpl.
    replace (- Z.abs i)%Z with i by lia. by rewrite Hrange.
  - exists false, ds. replace i with (Z.abs i) at 1 2 by lia. rewrite E. split_and!; [done..|].
    destruct ds as [|c ds]; [done|]. unfold parse_i64.
    assert (Hc : Byte.eqb c "-"%byte = false).
    { simpl in Hd. apply andb_true_iff in Hd as [Hd _]. by destruct c. }
    rewrite Hc, decide_False by done. rewrite Hd, Hv. simpl negb. cbv beta iota.
    replace (Z.abs i) with i by lia. by rewrite Hrange.
Qed.

(** *** Runs of bytes *)

Lemma span_run p run x rest : forallb p run = true -> p x = false -> span p (run ++ x :: rest) = length run.
Proof.
  intros Hr Hx. induction run as [|c run IH]; simpl in *; [by rewrite Hx|].
  apply andb_true_iff in Hr as [-> Hr]. by rewrite IH.
Qed.

Lemma skip_run p pre run x rest n :
  n = length pre -> forallb p run = true -> p x = false ->
  skip_while p (pre ++ run ++ x :: rest) n = n + length run.
Proof. intros -> Hr Hx. unfold skip_while. rewrite drop_app_length. by rewrite span_run. Qed.

Lemma lookup_pre {A} (pre : list A) x l n : n = length pre -> (pre ++ x :: l) !! n = Some x.
Proof. intros ->. by apply list_lookup_middle. Qed.

Lemma lookup_pre1 {A} (pre : list A) x y l : (pre ++ x :: y :: l) !! (length pre + 1) = Some y.
Proof. rewrite Nat.add_1_r, cons_middle, app_assoc. apply lookup_pre. rewrite length_app. simpl. lia. Qed.

Lemma slice_pre {A} (pre run rest : list A) a b :
  a = length pre -> b = a + length run -> slice a b (pre ++ run ++ rest) = run.
Proof. intros. by apply slice_app_mid. Qed.

(** *** Text literals *)

Lemma text_loop_escape s : forall text chunk p rest,
  text_loop (escape s ++ QUOTE :: x20 :: rest) text chunk p =
  Ok (text ++ chunk ++ s, p + length (escape s) + 1).
Proof.
  induction s as [|c s IH]; intros text chunk p rest; simpl.
  - rewrite app_nil_r. f_equal. f_equal. lia.
  - unfold escape. simpl. fold (escape s). destruct (Byte.eqb c QUOTE) eqn:E.
    + apply Byte.byte_dec_bl in E as ->. simpl. rewrite IH. simpl. f_equal. f_equal.
      * by rewrite <- !app_assoc.
      * lia.
    + simpl. rewrite E. rewrite IH. f_equal. f_equal.
      * by rewrite <- app_assoc.
      * lia.
Qed.

(** ** Lexing printed tokens *)

(** The first byte of an identifier starts nothing else. *)
Lemma ident_start_cases c :
  ident_start c = true ->
  is_ascii_whitespace c = false /\ is_ascii_digit c = false /\
  forallb (fun k => negb (Byte.eqb c k))
    ["*"; ","; "("; ")"; "."; "["; "]"; "="; "<"; ">"; "!"; "?"; QUOTE; "-"]%byte = true.
Proof. destruct c; vm_compute; intros H; try discriminate; done. Qed.

Lemma digit_cases c :
  is_ascii_digit c || Byte.eqb c "-"%byte = true ->
  is_ascii_whitespace c = false /\
  forallb (fun k => negb (Byte.eqb c k))
    ["*"; ","; "("; ")"; "."; "["; "]"; "="; "<"; ">"; "!"; "?"; QUOTE]%byte = true.
Proof. destruct c; vm_compute; intros H; try discriminate; done. Qed.

Lemma number_end_run pre (neg : bool) ds rest n c tl :
  n = length pre -> ds <> [] -> forallb is_ascii_digit ds = true ->
  (if neg then ["-"%byte] else []) ++ ds = c :: tl ->
  number_end (pre ++ (c :: tl) ++ x20 :: rest) n c = (n + length (c :: tl), false).
Proof.
  intros Hn Hne Hd E. unfold number_end.
  assert (Hp : skip_while is_ascii_digit (pre ++ (c :: tl) ++ x20 :: rest)
                 (if Byte.eqb c "-"%byte then n + 1 else n) = n + length (c :: tl)).
  { destruct neg.
    - injection E as <- <-. simpl.
      replace (pre ++ "-"%byte :: ds ++ x20 :: rest)
        with ((pre ++ ["-"%byte]) ++ ds ++ x20 :: rest) by by rewrite <- app_assoc.
      rewrite skip_run; [lia| |done|done]. rewrite length_app. simpl. lia.
    - simpl in E. subst ds. assert (Hc : Byte.eqb c "-"%byte = false).
      { simpl in Hd. apply andb_true_iff in Hd as [Hd _]. by destruct c. }
      rewrite Hc. by rewrite skip_run. }
  rewrite Hp. rewrite app_assoc. rewrite lookup_pre; [done|]. rewrite length_app. lia.
Qed.

(** Write string constants as bytes. *)
Ltac lits :=
  repeat match goal with
  | |- context [lit ?w] => let v := eval vm_compute in (lit w) in change (lit w) with v
  end; cbn [app].

(** One token: lexing starts anywhere in the blanks before it. *)
Lemma next_tok_text t pre rest p0 :
  tok_ok t = true ->
  skip_while is_ascii_whitespace (pre ++ tok_text t ++ x20 :: rest) p0 = length pre ->
  next_tok (pre ++ tok_text t ++ x20 :: rest) p0 = Ok (t, length pre + length (tok_text t)).
Proof.
  intros Ht Hp. unfold next_tok. rewrite Hp. clear Hp p0.
  assert (H1 : forall c, (pre ++ [c] ++ x20 :: rest) !! length pre = Some c)
    by (intros c; by apply lookup_pre).
  destruct t as [s|i|f|s| | | |op| | | | | |]; try done; simpl tok_text.
  - (* identifier *)
    destruct s as [|c s]; [done|]. simpl in Ht. apply andb_true_iff in Ht as [Hc Hs].
    rewrite <- app_comm_cons, lookup_pre by done.
    destruct (ident_start_cases c Hc) as (_ & Hd & Hk). simpl in Hk.
    repeat (apply andb_true_iff in Hk as [Hk0 Hk]; apply negb_true_iff in Hk0; rewrite Hk0; clear Hk0).
    rewrite Hd, Hc. simpl orb. cbv iota.
    assert (Hi : ident_char c = true).
    { unfold ident_start, ident_char, is_ascii_alphanumeric in *.
      by destruct (is_ascii_alphabetic c), (is_ascii_digit c). }
    assert (Hr : forallb ident_char (c :: s) = true) by (simpl; by rewrite Hi).
    change (pre ++ c :: s ++ x20 :: rest) with (pre ++ (c :: s) ++ x20 :: rest).
    rewrite skip_run by done. by rewrite slice_pre.
  - (* integer *)
    simpl in Ht. apply andb_true_iff in Ht as [Ha%Z.leb_le Hb%Z.ltb_lt].
    destruct (int_to_string_spec i ltac:(lia)) as (neg & ds & E & Hne & Hd & Hparse).
    rewrite E in *. destruct ((if neg then ["-"%byte] else []) ++ ds) as [|c tl] eqn:Ec.
    { by destruct neg; simpl in Ec. }
    rewrite <- app_comm_cons, lookup_pre by done.
    assert (Hc : is_ascii_digit c || Byte.eqb c "-"%byte = true).
    { destruct neg; simpl in Ec; [by injection Ec as <- <-|]. subst ds. simpl in Hd.
      apply andb_true_iff in Hd as [-> _]. done. }
    destruct (digit_cases c Hc) as (_ & Hk). simpl in Hk.
    repeat (apply andb_true_iff in Hk as [Hk0 Hk]; apply negb_true_iff in Hk0; rewrite Hk0; clear Hk0).
    rewrite Hc. change (pre ++ c :: tl ++ x20 :: rest) with (pre ++ (c :: tl) ++ x20 :: rest).
    rewrite (number_end_run pre neg ds) by done.
    rewrite slice_pre by done. by rewrite Hparse.
  - (* text *)
    assert (Eb : pre ++ ([QUOTE] ++ escape s ++ [QUOTE]) ++ x20 :: rest =
                 pre ++ QUOTE :: escape s ++ QUOTE :: x20 :: rest).
    { simpl. by rewrite <- app_assoc. }
    simpl in Eb |- *. rewrite Eb. clear Eb. rewrite lookup_pre by done. cbn -[text_loop].
    assert (Ed : drop (length pre + 1) (pre ++ QUOTE :: escape s ++ QUOTE :: x20 :: rest) =
                 escape s ++ QUOTE :: x20 :: rest).
    { rewrite <- drop_drop, drop_app_length. done. }
    rewrite Ed, text_loop_escape. simpl. f_equal. f_equal. rewrite length_app. simpl. lia.
  - lits. by rewrite lookup_pre.
  - lits. by rewrite lookup_pre.
  - lits. by rewrite lookup_pre.
  - destruct op; cbn [op_text]; lits; rewrite lookup_pre, ?lookup_pre1 by done; reflexivity.
  - lits. by rewrite lookup_pre.
  - lits. by rewrite lookup_pre.
  - lits. by rewrite lookup_pre.
  - lits. by rewrite lookup_pre.
  - lits. by rewrite lookup_pre.
Qed.

(** No printed token starts with a blank. *)
Lemma tok_text_start t : tok_ok t = true -> exists c l, tok_text t = c :: l /\ is_ascii_whitespace c = false.
Proof.
  intros Ht. destruct t as [s|i|f|s| | | |op| | | | | |]; try done; simpl in *;
    try (eexists _, _; split; [reflexivity|done]).
  - destruct s as [|c s]; [done|]. apply andb_true_iff in Ht as [Hc _].
    exists c, s. split; [done|]. by apply ident_start_cases.
  - apply andb_true_iff in Ht as [Ha%Z.leb_le Hb%Z.ltb_lt].
    destruct (int_to_string_spec i ltac:(lia)) as (neg & ds & E & Hne & Hd & _). rewrite E.
    destruct neg; [by exists "-"%byte, ds|]. destruct ds as [|c ds]; [done|].
    exists c, ds. split; [done|]. simpl in Hd. apply andb_true_iff in Hd as [Hd _].
    apply digit_cases. by rewrite Hd.
  - destruct op; eexists _, _; (split; [reflexivity|done]).
Qed.

Lemma render_cons t toks : render (t :: toks) = tok_text t ++ x20 :: render toks.
Proof. unfold render. simpl. by rewrite <- app_assoc. Qed.

(** From the blank after a token to the next token. *)
Lemma tokenize_from_render toks : forall fuel pre p acc,
  Forall (fun t => tok_ok t = true) toks -> length toks < fuel ->
  (forall x l, is_ascii_whitespace x = false ->
     skip_while is_ascii_whitespace (pre ++ x :: l) p = length pre) ->
  (skip_while is_ascii_whitespace pre p = length pre) ->
  tokenize_from fuel (pre ++ render toks) p acc = Ok (acc ++ toks ++ [Eof]).
Proof.
  induction toks as [|t toks IH]; intros [|fuel] pre p acc Ht Hf Hs He; simpl in Hf; try lia.
  - unfold render. simpl. rewrite app_nil_r. unfold next_tok. rewrite He.
    by rewrite lookup_ge_None_2 by lia.
  - apply Forall_cons in Ht as [Ht Hts]. rewrite render_cons. simpl.
    destruct (tok_text_start t Ht) as (c & l & Ec & Hc).
    rewrite next_tok_text; [|done|].
    2: { rewrite Ec. by apply (Hs c (l ++ x20 :: render toks)). }
    rewrite decide_False by (intros ->; done).
    replace (pre ++ tok_text t ++ x20 :: render toks)
      with ((pre ++ tok_text t ++ [x20]) ++ render toks) by (by rewrite <- !app_assoc).
    rewrite IH.
    + by rewrite <- app_assoc.
    + done.
    + lia.
    + intros x r Hx.
      replace ((pre ++ tok_text t ++ [x20]) ++ x :: r) with ((pre ++ tok_text t) ++ [x20] ++ x :: r)
        by by rewrite <- !app_assoc.
      rewrite skip_run; [rewrite !length_app; simpl; lia|by rewrite length_app|done|done].
    + unfold skip_while. rewrite app_assoc, drop_app_length' by (rewrite length_app; lia).
      rewrite !length_app. simpl. lia.
Qed.

Lemma render_length toks : length toks <= length (render toks).
Proof.
  induction toks as [|t toks IH]; [done|]. rewrite render_cons, length_app. simpl. lia.
Qed.

(** Lexing the text of tokens gives them back. *)
Lemma tokenize_render toks :
  Forall (fun t => tok_ok t = true) toks -> tokenize (render toks) = Ok (toks ++ [Eof]).
Proof.
  intros Ht. apply (tokenize_from_render toks (S (length (render toks))) [] 0 []); [done| | |done].
  - assert (H := render_length toks). lia.
  - intros x l Hx. unfold skip_while. simpl. by rewrite Hx.
Qed.

(** ** Printing trees *)

(** The parts of a name, between its dots. *)
Fixpoint split_dots (s : str) : str * list str :=
  match s with
  | [] => ([], [])
  | c :: s' =>
      let '(p, ps) := split_dots s' in
      if Byte.eqb c DOT then ([], p :: ps) else (c :: p, ps)
  end.

Fixpoint join_dots (p : str) (ps : list str) : str :=
  match ps with [] => p | q :: qs => p ++ [DOT] ++ join_dots q qs end.

Fixpoint name_tail (ps : list str) : list Tok :=
  match ps with [] => [] | q :: qs => Dot :: Ident q :: name_tail qs end.

Definition print_name (s : str) : list Tok :=
  let '(p, ps) := split_dots s in Ident p :: name_tail ps.

Definition name_ok (s : str) : bool :=
  let '(p, ps) := split_dots s in is_ident p && forallb is_ident ps.

Definition kw (w : string) : Tok := Ident (lit w).

(** What may start an operand of a condition. *)
Definition col_ok (s : str) : bool :=
  let p := (split_dots s).1 in
  name_ok s && negb (is_kw p) && negb (is_word (Ident p) "not") && negb (is_word (Ident p) "exists")
  && negb (is_word (Ident p) "extract") && bool_decide (aggregate_of (to_ascii_lowercase p) = None).

Definition rhs_ok (s : str) : bool :=
  let p := (split_dots s).1 in
  name_ok s && negb (is_word (Ident p) "null") && negb (is_word (Ident p) "true")
  && negb (is_word (Ident p) "false").

Definition int_ok (i : Z) : bool := tok_ok (Int i).

Definition print_literal (l : Literal) : list Tok :=
  match l with
  | LInt i => [Int i]
  | LText s => [Text s]
  | LBool b => [kw (if b then "TRUE" else "FALSE")]
  | LNull => [kw "NULL"]
  | LFloat _ | LVector _ => []
  end.

Definition literal_ok (l : Literal) : bool :=
  match l with LInt i => int_ok i | LFloat _ | LVector _ => false | _ => true end.

Definition agg_word (f : AggregateFunc) : string :=
  match f with Count => "COUNT" | Sum => "SUM" | Avg => "AVG" | Min => "MIN" | Max => "MAX" end.

Definition field_word (f : DateTimeField) : string :=
  match f with
  | Year => "YEAR" | Month => "MONTH" | Day => "DAY" | Hour => "HOUR" | Minute => "MINUTE"
  | Second => "SECOND"
  end.

Definition print_agg (f : AggregateFunc) (column : str) : list Tok :=
  kw (agg_word f) :: LParen :: (if decide (column = lit "*") then [Star] else print_name column) ++ [RParen].

Definition agg_ok (column : str) : bool := bool_decide (column = lit "*") || name_ok column.

(** [, x] for each of the rest. *)
Definition comma_tail {A} (pr : A -> list Tok) (l : list A) : list Tok :=
  concat (map (fun x => Comma :: pr x) l).

Definition comma_sep {A} (pr : A -> list Tok) (l : list A) : list Tok :=
  match l with [] => [] | x :: l' => pr x ++ comma_tail pr l' end.

Definition paren (b : bool) (toks : list Tok) : list Tok :=
  if b then LParen :: toks ++ [RParen] else toks.

(** Precedence 0 is that of [OR], 1 of [AND], 2 of operands. *)
Fixpoint print_expr (lv : nat) (e : Expr) : list Tok :=
  match e with
  | Or l r => paren (Nat.ltb 0 lv) (print_expr 0 l ++ kw "OR" :: print_expr 1 r)
  | And l r => paren (Nat.ltb 1 lv) (print_expr 1 l ++ kw "AND" :: print_expr 2 r)
  | Not e => kw "NOT" :: print_expr 2 e
  | Cmp c op v => print_name c ++ Op op :: print_literal v
  | CmpColumn l op r => print_name l ++ Op op :: print_name r
  | IsNull c negated => print_name c ++ kw "IS" :: (if negated then [kw "NOT"] else []) ++ [kw "NULL"]
  | Like c p => print_name c ++ [kw "LIKE"; Text p]
  | InInt c vs => print_name c ++ kw "IN" :: LParen :: comma_sep (fun i => [Int i]) vs ++ [RParen]
  | BetweenInt c low high => print_name c ++ [kw "BETWEEN"; Int low; kw "AND"; Int high]
  | Agg f c => print_agg f c
  | AggCmp f c op v => print_agg f c ++ Op op :: print_literal v
  | ExtractCmp f s op v =>
      kw "EXTRACT" :: LParen :: kw (field_word f) :: kw "FROM" :: print_name s ++
      RParen :: Op op :: print_literal v
  | Exists_ _ | InSubquery _ _ | ScalarCmp _ _ _ => []
  end.

(** The trees with a text: no subqueries, floats or vectors; a comparison with
    [NULL] is written [IS NULL]. *)
Fixpoint expr_ok (e : Expr) : bool :=
  match e with
  | Or l r | And l r => expr_ok l && expr_ok r
  | Not e => expr_ok e
  | Cmp c _ v => col_ok c && literal_ok v && negb (bool_decide (v = LNull))
  | CmpColumn l _ r => col_ok l && rhs_ok r
  | IsNull c _ => col_ok c
  | Like c _ => col_ok c
  | InInt c vs => col_ok c && forallb int_ok vs && negb (bool_decide (vs = []))
  | BetweenInt c low high => col_ok c && int_ok low && int_ok high
  | Agg _ c => agg_ok c
  | AggCmp _ c _ v => agg_ok c && literal_ok v
  | ExtractCmp _ s _ v => name_ok s && literal_ok v
  | Exists_ _ | InSubquery _ _ | ScalarCmp _ _ _ => false
  end.

(** The levels of nesting an expression takes. *)
Fixpoint height (e : Expr) : nat :=
  match e with
  | Or l r | And l r => S (Nat.max (height l) (height r))
  | Not e => S (height e)
  | _ => 1
  end.

Lemma join_split s : join_dots (split_dots s).1 (split_dots s).2 = s.
Proof.
  induction s as [|c s IH]; [done|]. simpl. destruct (split_dots s) as [p ps]. simpl in IH.
  destruct (Byte.eqb c DOT) eqn:E; simpl.
  - apply Byte.byte_dec_bl in E as ->. by rewrite IH.
  - destruct ps; simpl in *; by rewrite IH.
Qed.

(** ** Running the parser on printed tokens *)

(** The stream that has read [pre] and is about to read [l]. *)
Definition mk (pre l : list Tok) (d : nat) : TokenStream := mkTokenStream (pre ++ l) (length pre) d.

(** [m] reads [toks], and nothing of [rest], and returns [a]. *)
Definition eats {A} (d : nat) (m : P A) (toks rest : list Tok) (a : A) : Prop :=
  forall pre, m (mk pre (toks ++ rest) d) = (Ok a, mk (pre ++ toks) rest d).

Lemma run_next {A} (f : Tok -> P A) pre t l d :
  (next ≫= f) (mk pre (t :: l) d) = f t (mk (pre ++ [t]) l d).
Proof.
  unfold mbind, M_bind, next, mk. simpl. rewrite list_lookup_middle by done.
  f_equal. unfold set_pos. simpl. f_equal; [by rewrite <- app_assoc|]. rewrite length_app. done.
Qed.

Lemma run_peek {A} (f : Tok -> P A) pre t l d :
  (peek ≫= f) (mk pre (t :: l) d) = f t (mk pre (t :: l) d).
Proof. unfold mbind, M_bind, peek, mk. simpl. by rewrite list_lookup_middle. Qed.

Lemma eats_run {A B} d (m : P A) (f : A -> P B) toks rest a pre :
  eats d m toks rest a -> (m ≫= f) (mk pre (toks ++ rest) d) = f a (mk (pre ++ toks) rest d).
Proof. intros H. apply bind_ok, H. Qed.

Lemma eats_bind {A B} d (m : P A) (f : A -> P B) t1 t2 rest a b :
  eats d m t1 (t2 ++ rest) a -> eats d (f a) t2 rest b -> eats d (m ≫= f) (t1 ++ t2) rest b.
Proof.
  intros H1 H2 pre. rewrite <- app_assoc, (eats_run _ _ _ _ _ _ _ H1). rewrite H2.
  by rewrite <- app_assoc.
Qed.

Lemma eats_ret {A} d (a : A) rest : eats d (mret a) [] rest a.
Proof. intros pre. simpl. by rewrite app_nil_r. Qed.

Lemma eats_next {A} d (f : Tok -> P A) t toks rest a :
  eats d (f t) toks rest a -> eats d (next ≫= f) (t :: toks) rest a.
Proof. intros H pre. simpl. rewrite run_next, H. by rewrite <- app_assoc. Qed.

Lemma eats_peek {A} d (f : Tok -> P A) t toks rest a :
  eats d (f t) (t :: toks) rest a -> eats d (peek ≫= f) (t :: toks) rest a.
Proof. intros H pre. simpl. rewrite run_peek. apply H. Qed.

(** Looking at what follows. *)
Lemma eats_peek_rest {A} d (f : Tok -> P A) t rest a :
  eats d (f t) [] (t :: rest) a -> eats d (peek ≫= f) [] (t :: rest) a.
Proof. intros H pre. simpl. rewrite run_peek. apply (H pre). Qed.

Lemma eats_try_kw {A} d (f : bool -> P A) w t toks rest a :
  is_word t w = true -> eats d (f true) toks rest a -> eats d (try_kw w ≫= f) (t :: toks) rest a.
Proof.
  intros Hw H. apply (eats_bind _ _ _ [t] toks _ true); [|done].
  unfold try_kw. apply eats_peek. rewrite Hw. apply eats_next, eats_ret.
Qed.

Lemma eats_no_kw {A} d (f : bool -> P A) w t toks rest a :
  is_word t w = false -> eats d (f false) (t :: toks) rest a ->
  eats d (try_kw w ≫= f) (t :: toks) rest a.
Proof.
  intros Hw H pre. specialize (H pre). rewrite <- H. unfold try_kw. simpl.
  erewrite bind_ok; [reflexivity|]. rewrite run_peek, Hw. done.
Qed.

Lemma eats_no_kw_rest {A} d (f : bool -> P A) w t rest a :
  is_word t w = false -> eats d (f false) [] (t :: rest) a -> eats d (try_kw w ≫= f) [] (t :: rest) a.
Proof.
  intros Hw H pre. specialize (H pre). rewrite <- H. unfold try_kw. simpl.
  erewrite bind_ok; [reflexivity|]. rewrite run_peek, Hw. done.
Qed.

Lemma eats_try_tok {A} d (f : bool -> P A) t toks rest a :
  eats d (f true) toks rest a -> eats d (try_tok t ≫= f) (t :: toks) rest a.
Proof.
  intros H. apply (eats_bind _ _ _ [t] toks _ true); [|done].
  unfold try_tok. apply eats_peek. rewrite decide_True by done. apply eats_next, eats_ret.
Qed.

Lemma eats_no_tok {A} d (f : bool -> P A) t0 t toks rest a :
  t <> t0 -> eats d (f false) (t :: toks) rest a -> eats d (try_tok t0 ≫= f) (t :: toks) rest a.
Proof.
  intros Hw H pre. specialize (H pre). rewrite <- H. unfold try_tok. simpl.
  erewrite bind_ok; [reflexivity|]. by rewrite run_peek, decide_False.
Qed.

Lemma eats_no_tok_rest {A} d (f : bool -> P A) t0 t rest a :
  t <> t0 -> eats d (f false) [] (t :: rest) a -> eats d (try_tok t0 ≫= f) [] (t :: rest) a.
Proof.
  intros Hw H pre. specialize (H pre). rewrite <- H. unfold try_tok. simpl.
  erewrite bind_ok; [reflexivity|]. by rewrite run_peek, decide_False.
Qed.

Lemma eats_expect_tok {A} d (f : unit -> P A) t w toks rest a :
  eats d (f tt) toks rest a -> eats d (expect_tok t w ≫= f) (t :: toks) rest a.
Proof.
  intros H. apply (eats_bind _ _ _ [t] toks _ tt); [|done].
  unfold expect_tok. apply eats_next. rewrite decide_True by done. apply eats_ret.
Qed.

Lemma eats_expect_kw {A} d (f : unit -> P A) w t toks rest a :
  is_word t w = true -> eats d (f tt) toks rest a -> eats d (expect_kw w ≫= f) (t :: toks) rest a.
Proof.
  intros Hw H. apply (eats_bind _ _ _ [t] toks _ tt); [|done].
  unfold expect_kw. apply eats_next. rewrite Hw. apply eats_ret.
Qed.

Lemma eats_expect_int {A} d (f : Z -> P A) w i toks rest a :
  eats d (f i) toks rest a -> eats d (expect_int w ≫= f) (Int i :: toks) rest a.
Proof.
  intros H. apply (eats_bind _ _ _ [Int i] toks _ i); [|done].
  unfold expect_int. apply eats_next, eats_ret.
Qed.

(** *** Names, literals, lists *)

Lemma eats_ident_fuel ps : forall fuel p w d t rest,
  length ps < fuel -> t <> Dot ->
  eats d (expect_ident_fuel fuel w) (Ident p :: name_tail ps) (t :: rest) (join_dots p ps).
Proof.
  induction ps as [|q qs IH]; intros [|fuel] p w d t rest Hf Ht; simpl in Hf; try lia; simpl.
  - apply eats_next, eats_peek_rest. rewrite decide_False by done. apply eats_ret.
  - apply eats_next, eats_peek. rewrite decide_True by done. apply eats_next.
    rewrite <- (app_nil_r (Ident q :: name_tail qs)).
    eapply eats_bind; [apply IH; [lia|done]|]. apply eats_ret.
Qed.

Lemma name_tail_length ps : length (name_tail ps) = 2 * length ps.
Proof. induction ps as [|q qs IH]; [done|]. cbn [name_tail length]. rewrite IH. lia. Qed.

Lemma eats_ident p ps w d t rest :
  t <> Dot -> eats d (expect_ident w) (Ident p :: name_tail ps) (t :: rest) (join_dots p ps).
Proof.
  intros Ht pre. unfold expect_ident. apply eats_ident_fuel; [|done].
  simpl. rewrite !length_app. simpl. rewrite length_app, name_tail_length. lia.
Qed.

(** A name, then the rest. *)
Lemma eats_name {A} d (f : str -> P A) w s t toks rest a :
  (exists l, toks ++ rest = t :: l) -> t <> Dot -> eats d (f s) toks rest a ->
  eats d (expect_ident w ≫= f) (print_name s ++ toks) rest a.
Proof.
  intros [l Hl] Ht H. unfold print_name. destruct (split_dots s) as [p ps] eqn:E.
  assert (Hj := join_split s). rewrite E in Hj. simpl in Hj.
  apply (eats_bind _ _ _ (Ident p :: name_tail ps) toks _ s); [|done].
  rewrite Hl, <- Hj. by apply eats_ident.
Qed.

Lemma eats_qualified {A} d (f : str -> P A) p ps t toks rest a :
  (exists l, toks ++ rest = t :: l) -> t <> Dot -> eats d (f (join_dots p ps)) toks rest a ->
  eats d (parse_qualified p ≫= f) (name_tail ps ++ toks) rest a.
Proof.
  intros [l Hl] Ht H. eapply eats_bind; [|exact H]. rewrite Hl. unfold parse_qualified.
  destruct ps as [|q qs]; simpl.
  - apply eats_no_tok_rest; [done|]. apply eats_ret.
  - apply eats_try_tok. rewrite <- (app_nil_r (Ident q :: name_tail qs)).
    eapply eats_bind; [by apply eats_ident|]. apply eats_ret.
Qed.

Lemma eats_literal l d rest : literal_ok l = true -> eats d parse_literal (print_literal l) rest l.
Proof.
  intros Hl. unfold parse_literal.
  destruct l as [i| |s| |b|]; try done; simpl; try (apply eats_next, eats_ret).
  destruct b; apply eats_next, eats_ret.
Qed.

(** A loop whose rounds add an element and a comma. *)
Lemma eats_comma_loop {A} d (item : P A) (pr : A -> list Tok) l : forall fuel x acc t rest,
  (forall y l', y ∈ x :: l -> (exists t' l'', l' = t' :: l'' /\ (t' = Comma \/ t' = t)) ->
     eats d item (pr y) l' y) ->
  length l < fuel -> t <> Comma ->
  eats d (m_loop fuel (fun acc => x ← item; c ← try_tok Comma;
            mret (if (c : bool) then inl (acc ++ [x]) else inr (acc ++ [x]))) acc)
    (pr x ++ comma_tail pr l) (t :: rest) (acc ++ x :: l).
Proof.
  induction l as [|y l IH]; intros [|fuel] x acc t rest Hi Hf Ht; simpl in Hf; try lia.
  - rewrite <- (app_nil_r (pr x ++ _)). cbn [m_loop].
    eapply eats_bind.
    + unfold comma_tail. simpl. eapply eats_bind.
      * apply Hi; [left|]. simpl. eauto 6.
      * apply eats_no_tok_rest; [done|]. apply eats_ret.
    + simpl. apply eats_ret.
  - unfold comma_tail. simpl. fold (comma_tail pr l).
    replace (pr x ++ Comma :: pr y ++ comma_tail pr l)
      with ((pr x ++ [Comma]) ++ (pr y ++ comma_tail pr l)) by by rewrite <- app_assoc.
    eapply eats_bind.
    + eapply eats_bind; [apply Hi; [left|]; simpl; eauto 6|].
      apply eats_try_tok. apply eats_ret.
    + simpl. replace (acc ++ x :: y :: l) with ((acc ++ [x]) ++ y :: l) by by rewrite <- app_assoc.
      apply IH; [|lia|done]. intros z l' Hz. apply Hi. by right.
Qed.

Lemma comma_tail_length {A} (pr : A -> list Tok) l : length l <= length (comma_tail pr l).
Proof.
  induction l as [|x l IH]; [done|]. unfold comma_tail. simpl. rewrite length_app.
  fold (comma_tail pr l). lia.
Qed.

Lemma eats_comma_list {A} d (item : P A) (pr : A -> list Tok) l t rest :
  l <> [] -> t <> Comma ->
  (forall y l', y ∈ l -> (exists t' l'', l' = t' :: l'' /\ (t' = Comma \/ t' = t)) ->
     eats d item (pr y) l' y) ->
  eats d (comma_list item) (comma_sep pr l) (t :: rest) l.
Proof.
  intros Hne Ht Hi pre. destruct l as [|x l]; [done|]. unfold comma_list, ts_loop.
  apply (eats_comma_loop d item pr l _ x []); [done| |done].
  assert (H := comma_tail_length pr l). simpl. rewrite !length_app. lia.
Qed.

Lemma eats_paren_loop {A} d (item : P A) (pr : A -> list Tok) msg l : forall fuel x acc rest,
  (forall y l', y ∈ x :: l -> (exists t' l'', l' = t' :: l'' /\ (t' = Comma \/ t' = RParen)) ->
     eats d item (pr y) l' y) ->
  length l < fuel ->
  eats d (m_loop fuel (fun acc => x ← item; t ← next;
            match t with
            | Comma => mret (inl (acc ++ [x]))
            | RParen => mret (inr (acc ++ [x]))
            | _ => p_err msg
            end) acc)
    ((pr x ++ comma_tail pr l) ++ [RParen]) rest (acc ++ x :: l).
Proof.
  induction l as [|y l IH]; intros [|fuel] x acc rest Hi Hf; simpl in Hf; try lia.
  - unfold comma_tail. simpl. rewrite app_nil_r. rewrite <- (app_nil_r (pr x ++ _)). cbn [m_loop].
    eapply eats_bind.
    + eapply eats_bind; [apply Hi; [left|]; simpl; eauto 6|].
      apply eats_next, eats_ret.
    + simpl. apply eats_ret.
  - unfold comma_tail. simpl. fold (comma_tail pr l).
    replace ((pr x ++ Comma :: pr y ++ comma_tail pr l) ++ [RParen])
      with ((pr x ++ [Comma]) ++ ((pr y ++ comma_tail pr l) ++ [RParen]))
      by (rewrite <- !app_assoc; simpl; by rewrite <- app_assoc).
    eapply eats_bind.
    + eapply eats_bind; [apply Hi; [left|]; simpl; eauto 6|].
      apply eats_next, eats_ret.
    + simpl. replace (acc ++ x :: y :: l) with ((acc ++ [x]) ++ y :: l) by by rewrite <- app_assoc.
      apply IH; [|lia]. intros z l' Hz. apply Hi. by right.
Qed.

Lemma eats_paren_list {A} d (item : P A) (pr : A -> list Tok) msg l rest :
  l <> [] ->
  (forall y l', y ∈ l -> (exists t' l'', l' = t' :: l'' /\ (t' = Comma \/ t' = RParen)) ->
     eats d item (pr y) l' y) ->
  eats d (paren_list item msg) (comma_sep pr l ++ [RParen]) rest l.
Proof.
  intros Hne Hi pre. destruct l as [|x l]; [done|]. unfold paren_list, ts_loop.
  apply (eats_paren_loop d item pr msg l _ x []); [done|].
  assert (H := comma_tail_length pr l). simpl. rewrite !length_app. lia.
Qed.

(** *** Expressions *)

Section WithFmt.
Context `{Fmt}.

(** What may follow an operand: neither a dot nor an operator. *)
Definition follows (t : Tok) : Prop := t <> Dot /\ forall op, t <> Op op.

Lemma eats_enter {A B} d (m : P A) (f : A -> P B) toks rest a b :
  d < MAX_PARSE_DEPTH -> eats (S d) m toks rest a -> eats d (f a) [] rest b ->
  eats d (enter_depth;; x ← m; exit_depth;; f x) toks rest b.
Proof.
  intros Hd Hm Hf pre. unfold mbind at 1, M_bind at 1, enter_depth. simpl.
  rewrite decide_False by lia. rewrite Nat.add_1_r.
  change (set_depth (S d) (mk pre (toks ++ rest) d)) with (mk pre (toks ++ rest) (S d)).
  unfold mbind at 1, M_bind at 1. rewrite Hm. unfold mbind, M_bind, exit_depth. simpl.
  rewrite Nat.sub_0_r. specialize (Hf (pre ++ toks)). rewrite app_nil_r in Hf. apply Hf.
Qed.

Lemma eats_leaving {A B} d (m : P A) (f : A -> P B) toks rest a b :
  d < MAX_PARSE_DEPTH -> eats (S d) m toks rest a -> eats d (f a) [] rest b ->
  eats d (enter_depth;; x ← leaving m; f x) toks rest b.
Proof.
  intros Hd Hm Hf pre. rewrite <- (eats_enter d m f toks rest a b Hd Hm Hf pre).
  unfold mbind at 1 3, M_bind at 1 3, enter_depth. simpl. rewrite decide_False by lia.
  rewrite Nat.add_1_r.
  change (set_depth (S d) (mk pre (toks ++ rest) d)) with (mk pre (toks ++ rest) (S d)).
  unfold mbind, M_bind, leaving, exit_depth. by rewrite Hm.
Qed.

Lemma eats_tail d (e : Expr) rest : eats d (tail e) [] rest (inr e).
Proof. apply eats_ret. Qed.

Ltac eats_step :=
  first
    [ apply eats_next | apply eats_peek | apply eats_tail | apply eats_ret
    | apply eats_expect_tok | apply eats_expect_int | apply eats_expect_kw; [reflexivity|]
    | apply eats_try_kw; [reflexivity|] | apply eats_try_tok ].

(** What follows a column, for each form of condition on it. *)
Definition print_operator (e : Expr) : list Tok :=
  match e with
  | Cmp _ op v => Op op :: print_literal v
  | CmpColumn _ op r => Op op :: print_name r
  | IsNull _ negated => kw "IS" :: (if negated then [kw "NOT"] else []) ++ [kw "NULL"]
  | Like _ p => [kw "LIKE"; Text p]
  | InInt _ vs => kw "IN" :: LParen :: comma_sep (fun i => [Int i]) vs ++ [RParen]
  | BetweenInt _ low high => [kw "BETWEEN"; Int low; kw "AND"; Int high]
  | _ => []
  end.

Definition operand (e : Expr) : option str :=
  match e with
  | Cmp c _ _ | CmpColumn c _ _ | IsNull c _ | Like c _ | InInt c _ | BetweenInt c _ _ => Some c
  | _ => None
  end.

Lemma eats_rhs_column p c op r t rest d :
  rhs_ok r = true -> t <> Dot ->
  eats d (parse_rhs p c op) (Op op :: print_name r) (t :: rest) (inr (CmpColumn c op r)).
Proof.
  intros Hr Ht. unfold parse_rhs. apply eats_next. unfold rhs_ok, print_name in *.
  assert (Hj := join_split r). destruct (split_dots r) as [q qs]. cbn [fst snd] in Hr, Hj.
  apply andb_true_iff in Hr as [Hr H3%negb_true_iff].
  apply andb_true_iff in Hr as [Hr H2%negb_true_iff].
  apply andb_true_iff in Hr as [_ H1%negb_true_iff].
  apply eats_peek. cbn beta iota. rewrite H1, H2, H3. apply eats_next.
  rewrite <- (app_nil_r (name_tail qs)).
  apply (eats_qualified _ _ _ _ t); [by exists rest|done|]. rewrite Hj. apply eats_tail.
Qed.

Lemma eats_is_null d (negated : bool) rest :
  eats d parse_is_null ((if negated then [kw "NOT"] else []) ++ [kw "NULL"]) rest negated.
Proof. unfold parse_is_null. destruct negated; repeat eats_step. Qed.

Lemma eats_operator p e c t rest d :
  operand e = Some c -> expr_ok e = true -> follows t ->
  eats d (parse_operator p c) (print_operator e) (t :: rest) (inr e).
Proof.
  intros He Hok [Hd _]. unfold parse_operator.
  destruct e as [c' op v|c' op r|c' negated|c' pat|c' vs|c' low high| | | | | | | | |];
    simplify_eq/=; try (apply andb_true_iff in Hok as [Hok Hv]).
  - apply andb_true_iff in Hok as [_ Hl]. apply eats_peek. unfold parse_rhs. apply eats_next.
    destruct v as [i| |s| |b|]; try done; try (apply eats_peek, eats_next, eats_tail).
    destruct b; apply eats_peek, eats_next, eats_tail.
  - apply eats_peek. by apply eats_rhs_column.
  - do 2 eats_step. rewrite <- (app_nil_r (_ ++ [kw "NULL"])).
    eapply eats_bind; [apply eats_is_null|apply eats_tail].
  - repeat eats_step.
  - apply andb_true_iff in Hok as [_ Hi]. apply negb_true_iff, bool_decide_eq_false in Hv.
    apply eats_peek. unfold parse_in. do 2 eats_step.
    destruct vs as [|v vs]; [done|]. simpl. apply eats_no_kw; [done|].
    change (Int v :: comma_tail (fun i => [Int i]) vs ++ [RParen])
      with (comma_sep (fun i => [Int i]) (v :: vs) ++ [RParen]).
    rewrite <- (app_nil_r (comma_sep _ _ ++ _)).
    eapply eats_bind; [|apply eats_tail]. apply eats_paren_list; [done|].
    intros y l' _ _. unfold expect_int. repeat eats_step.
  - repeat eats_step.
Qed.

Lemma print_expr_operand lv e c :
  operand e = Some c -> print_expr lv e = print_name c ++ print_operator e.
Proof. by destruct e; intros [= ->]. Qed.

(** The first token after a column. *)
Lemma print_operator_head e c :
  operand e = Some c -> exists t l, print_operator e = t :: l /\ t <> Dot.
Proof. destruct e; intros [= ->]; eexists _, _; (split; [reflexivity|done]). Qed.

Lemma eats_column p e c t rest d :
  operand e = Some c -> expr_ok e = true -> col_ok c = true -> follows t -> d < MAX_PARSE_DEPTH ->
  eats d (parse_primary_expr p) (print_name c ++ print_operator e) (t :: rest) e.
Proof.
  intros He Hok Hc Ht Hd. destruct (print_operator_head e c He) as (t0 & l0 & E0 & H0).
  unfold parse_primary_expr. apply (eats_enter _ _ _ _ _ (inr e)); [done| |apply eats_ret].
  unfold col_ok, print_name in *. assert (Hj := join_split c).
  destruct (split_dots c) as [q qs]. cbn [fst snd] in Hc, Hj.
  apply andb_true_iff in Hc as [Hc H5%bool_decide_eq_true].
  apply andb_true_iff in Hc as [Hc H4%negb_true_iff].
  apply andb_true_iff in Hc as [Hc H3%negb_true_iff].
  apply andb_true_iff in Hc as [Hc H2%negb_true_iff].
  apply andb_true_iff in Hc as [_ H1%negb_true_iff].
  simpl. apply eats_peek. cbn beta iota. rewrite H3, H5, H4.
  unfold parse_column_expr. apply eats_next. rewrite H1.
  apply (eats_qualified _ _ _ _ t0); [rewrite E0; simpl; eauto|done|]. rewrite Hj.
  by apply eats_operator.
Qed.

Lemma print_name_head s : exists p l, print_name s = Ident p :: l.
Proof. unfold print_name. destruct (split_dots s) as [p ps]. eauto. Qed.

Lemma eats_aggregate_arg d c rest :
  eats d parse_aggregate_arg ((if decide (c = lit "*") then [Star] else print_name c) ++ [RParen]) rest c.
Proof.
  unfold parse_aggregate_arg. case_decide as Hc.
  - subst c. simpl. repeat eats_step.
  - destruct (print_name_head c) as (p & l & E). rewrite E. simpl.
    apply eats_no_tok; [done|]. change (Ident p :: l ++ [RParen]) with ((Ident p :: l) ++ [RParen]).
    rewrite <- E. apply (eats_name _ _ _ _ RParen); [by exists rest|done|]. repeat eats_step.
Qed.

Lemma eats_agg p f c toks e t rest d :
  (forall rest', eats (S d) (t ← peek;
      match t with
      | Op op => next;; value ← parse_literal; tail (AggCmp f c op value)
      | _ => tail (Agg f c)
      end) toks (t :: rest') (inr e)) ->
  d < MAX_PARSE_DEPTH ->
  eats d (parse_primary_expr p) (print_agg f c ++ toks) (t :: rest) e.
Proof.
  intros Hk Hd. unfold parse_primary_expr, print_agg.
  apply (eats_enter _ _ _ _ _ (inr e)); [done| |apply eats_ret].
  assert (Hgo : eats (S d) (parse_agg_expr f)
    (kw (agg_word f) :: (LParen :: (if decide (c = lit "*") then [Star] else print_name c) ++ [RParen]) ++ toks)
    (t :: rest) (inr e)).
  { unfold parse_agg_expr. apply eats_next. simpl. apply eats_expect_tok.
    eapply eats_bind; [apply eats_aggregate_arg|apply Hk]. }
  simpl in Hgo |- *. destruct f; apply eats_peek; exact Hgo.
Qed.

Lemma eats_extract p f s op v t rest d :
  name_ok s = true -> literal_ok v = true -> d < MAX_PARSE_DEPTH ->
  eats d (parse_primary_expr p) (print_expr 2 (ExtractCmp f s op v)) (t :: rest) (ExtractCmp f s op v).
Proof.
  intros Hs Hv Hd. unfold parse_primary_expr.
  apply (eats_enter _ _ _ _ _ (inr (ExtractCmp f s op v))); [done| |apply eats_ret]. simpl. apply eats_peek.
  assert (Hgo : eats (S d) parse_extract
    (kw "EXTRACT" :: LParen :: kw (field_word f) :: kw "FROM" :: print_name s ++
      RParen :: Op op :: print_literal v) (t :: rest) (inr (ExtractCmp f s op v))).
  { unfold parse_extract. do 2 eats_step. apply eats_next.
    assert (Hf : date_time_field (kw (field_word f)) = Some f) by by destruct f.
    rewrite Hf. eats_step. apply (eats_name _ _ _ _ RParen); [simpl; eauto|done|].
    eats_step. eats_step. eats_step.
    rewrite <- (app_nil_r (print_literal v)).
    eapply eats_bind; [by apply eats_literal|apply eats_tail]. }
  exact Hgo.
Qed.

Lemma operand_col_ok e c : operand e = Some c -> expr_ok e = true -> col_ok c = true.
Proof.
  destruct e; intros [= ->]; cbn [expr_ok]; rewrite ?andb_true_iff; tauto.
Qed.

(** The operands of conditions. *)
Definition is_leaf (e : Expr) : bool := match e with And _ _ | Or _ _ | Not _ => false | _ => true end.

Lemma eats_leaf p lv e t rest d :
  is_leaf e = true -> expr_ok e = true -> follows t -> d < MAX_PARSE_DEPTH ->
  eats d (parse_primary_expr p) (print_expr lv e) (t :: rest) e.
Proof.
  intros Hl Hok Ht Hd. destruct (operand e) as [c|] eqn:He.
  - rewrite (print_expr_operand _ _ _ He). apply eats_column; try done.
    by eapply operand_col_ok.
  - destruct e as [| | | | | | | | | | | |f c|f c op v|f s op v]; try done; simpl in Hok.
    + simpl. rewrite <- (app_nil_r (print_agg f c)). apply eats_agg; [|done].
      intros rest'. apply eats_peek_rest. destruct Ht as [_ Ht].
      destruct t; try apply eats_tail. by destruct (Ht op).
    + apply andb_true_iff in Hok as [_ Hv]. simpl. apply eats_agg; [|done].
      intros rest'. apply eats_peek, eats_next.
      rewrite <- (app_nil_r (print_literal v)).
      eapply eats_bind; [by apply eats_literal|apply eats_tail].
    + apply andb_true_iff in Hok as [Hs Hv]. by apply eats_extract.
Qed.

(** *** Chains of [AND] and [OR] *)

Section Chain.
Context (opd : P Expr) (w : string) (W : Tok) (con : Expr -> Expr -> Expr) (d : nat).
Context (ok : Tok -> Prop) (HW : ok W) (Hw : is_word W w = true).

Definition reads (toks : list Tok) (e : Expr) : Prop :=
  forall t rest, ok t -> eats d opd toks (t :: rest) e.

Definition chain_body (left : Expr) : P (Expr + Expr) :=
  b ← try_kw w;
  if (b : bool) then right ← opd; mret (inl (con left right)) else mret (inr left).

(** An expression built by [con] to the left, with its number of [con]s. *)
Inductive chain : Expr -> list Tok -> nat -> Prop :=
| chain_one e toks : reads toks e -> chain e toks 0
| chain_more l r tl tr n :
    chain l tl n -> reads tr r -> chain (con l r) (tl ++ W :: tr) (S n).

Lemma chain_length e toks n : chain e toks n -> n <= length toks.
Proof. induction 1; [lia|]. rewrite length_app. simpl. lia. Qed.

(** The loop rebuilds the chain, one round per [con]. *)
Lemma chain_run e toks n :
  chain e toks n -> forall pre t rest, ok t ->
  exists e0 pre1 rest1,
    opd (mk pre (toks ++ t :: rest) d) = (Ok e0, mk pre1 rest1 d) /\
    pre1 ++ rest1 = pre ++ toks ++ t :: rest /\
    forall fuel, m_loop (n + fuel) chain_body e0 (mk pre1 rest1 d) =
                 m_loop fuel chain_body e (mk (pre ++ toks) (t :: rest) d).
Proof.
  induction 1 as [e toks Hr|l r tl tr n Hl IH Hr]; intros pre t rest Ht.
  - exists e, (pre ++ toks), (t :: rest). split; [by apply Hr|].
    split; [by rewrite <- app_assoc|]. done.
  - destruct (IH pre W (tr ++ t :: rest) HW) as (e0 & pre1 & rest1 & E & Ep & Hloop).
    exists e0, pre1, rest1. rewrite <- app_assoc. cbn [app]. split; [exact E|]. split; [exact Ep|].
    intros fuel. replace (S n + fuel) with (n + S fuel) by lia. rewrite Hloop. cbn [m_loop].
    assert (Hb : eats d (chain_body l) (W :: tr) (t :: rest) (inl (con l r))).
    { unfold chain_body. apply eats_try_kw; [done|]. rewrite <- (app_nil_r tr).
      eapply eats_bind; [by apply Hr|]. apply eats_ret. }
    specialize (Hb (pre ++ tl)). simpl in Hb. erewrite bind_ok by exact Hb.
    by rewrite <- app_assoc.
Qed.

Lemma chain_reads e toks n t rest :
  chain e toks n -> ok t -> is_word t w = false ->
  eats d (l ← opd; ts_loop chain_body l) toks (t :: rest) e.
Proof.
  intros Hc Ht Hn pre. destruct (chain_run e toks n Hc pre t rest Ht) as (e0 & pre1 & rest1 & E & Ep & Hloop).
  rewrite (bind_ok _ _ _ _ _ E). unfold ts_loop. assert (Hl := chain_length _ _ _ Hc).
  change (tokens (mk pre1 rest1 d)) with (pre1 ++ rest1). rewrite Ep.
  replace (S (length (pre ++ toks ++ t :: rest)))
    with (n + S (length (pre ++ toks ++ t :: rest) - n))
    by (rewrite !length_app; simpl; lia).
  rewrite Hloop. cbn [m_loop].
  assert (Hb : eats d (chain_body e) [] (t :: rest) (inr e)).
  { unfold chain_body. apply eats_no_kw_rest; [done|]. apply eats_ret. }
  specialize (Hb (pre ++ toks)). simpl in Hb. rewrite app_nil_r in Hb.
  by erewrite bind_ok by exact Hb.
Qed.

End Chain.

Definition follows1 (t : Tok) : Prop := follows t /\ is_word t "and" = false.
Definition follows0 (t : Tok) : Prop := follows1 t /\ is_word t "or" = false.

(** The three levels of the grammar. *)
Definition operand_chain n d e := reads (p_not (at_depth n)) d follows (print_expr 2 e) e.
Definition and_chain n d e := exists k,
  chain (p_not (at_depth n)) (kw "AND") And d follows e (print_expr 1 e) k.
Definition or_chain n d e := exists k,
  chain (parse_and (at_depth n)) (kw "OR") Or d follows1 e (print_expr 0 e) k.

Lemma and_reads n d e : and_chain n d e -> reads (parse_and (at_depth n)) d follows1 (print_expr 1 e) e.
Proof.
  intros [k Hc] t rest [H1 H2].
  by apply (chain_reads _ "and" (kw "AND") And d follows) with (n := k).
Qed.

Lemma or_reads n d e : or_chain n d e -> reads (parse_expr (at_depth n)) d follows0 (print_expr 0 e) e.
Proof.
  intros [k Hc] t rest [H1 H2].
  by apply (chain_reads _ "or" (kw "OR") Or d follows1) with (n := k).
Qed.

Lemma eats_parens n d toks e rest :
  d < MAX_PARSE_DEPTH -> reads (parse_expr (at_depth n)) (S d) follows0 toks e ->
  eats d (p_not (at_depth (S n))) (LParen :: toks ++ [RParen]) rest e.
Proof.
  intros Hd Hr. cbn [at_depth p_not]. unfold parse_not. apply eats_no_kw; [done|].
  unfold parse_primary_expr. apply (eats_enter _ _ _ _ _ (inr e)); [done| |apply eats_ret].
  apply eats_peek, eats_next. eapply eats_bind; [by apply Hr|].
  apply eats_expect_tok, eats_tail.
Qed.

Lemma leaf_head e lv : is_leaf e = true -> expr_ok e = true ->
  exists t l, print_expr lv e = t :: l /\ is_word t "not" = false.
Proof.
  intros Hl Hok. destruct (operand e) as [c|] eqn:He.
  - assert (Hc := operand_col_ok _ _ He Hok). rewrite (print_expr_operand _ _ _ He).
    unfold col_ok in Hc. rewrite !andb_true_iff in Hc.
    destruct Hc as (((([_ _] & Hc%negb_true_iff) & _) & _) & _).
    unfold print_name. destruct (split_dots c). simpl in Hc |- *. eauto.
  - destruct e as [| | | | | | | | | | | |f c|f c op v|f s op v]; try done; simpl; eauto;
      destruct f; eauto.
Qed.

Lemma eats_operand n d e : is_leaf e = true -> expr_ok e = true -> d < MAX_PARSE_DEPTH ->
  operand_chain (S n) d e.
Proof.
  intros Hl Hok Hd t rest Ht. cbn [at_depth p_not]. unfold parse_not.
  destruct (leaf_head e 2 Hl Hok) as (t0 & l & E & Hn).
  assert (H0 := eats_leaf (at_depth n) 2 e t rest d Hl Hok Ht Hd). rewrite E in *.
  by apply eats_no_kw.
Qed.

(** Every printable expression is read back, at each precedence. *)
Lemma eats_expr e : expr_ok e = true -> forall n d,
  height e + d <= MAX_PARSE_DEPTH -> MAX_PARSE_DEPTH < n + d ->
  operand_chain n d e /\ and_chain n d e /\ or_chain n d e.
Proof.
  assert (Hup : forall e n d, operand_chain n d e -> print_expr 1 e = print_expr 2 e -> and_chain n d e)
    by (intros e0 n d H2 Ep; exists 0; rewrite Ep; by constructor).
  assert (Hup0 : forall e n d, and_chain n d e -> print_expr 0 e = print_expr 1 e -> or_chain n d e)
    by (intros e0 n d H2 Ep; exists 0; rewrite Ep; constructor; by apply and_reads).
  assert (Hleaf : forall e, is_leaf e = true -> expr_ok e = true -> forall n d,
    height e + d <= MAX_PARSE_DEPTH -> MAX_PARSE_DEPTH < n + d ->
    operand_chain n d e /\ and_chain n d e /\ or_chain n d e).
  { intros e0 Hl Hok [|n] d Hh Hn; [lia|].
    assert (Hlt : d < MAX_PARSE_DEPTH) by (destruct e0; simpl in *; try done; lia).
    assert (H2 := eats_operand n d e0 Hl Hok Hlt).
    assert (H1 : and_chain (S n) d e0) by (apply Hup; [done|by destruct e0]).
    split; [done|]. split; [done|]. apply Hup0; [done|by destruct e0]. }
  induction e as [| | | | | |l IHl r IHr|l IHl r IHr|e IH| | | | | |]; intros Hok;
    try (by apply Hleaf); intros n d Hh Hn; simpl in Hok, Hh.
  - apply andb_true_iff in Hok as [Hokl Hokr].
    assert (H1 : forall n d, S (Nat.max (height l) (height r)) + d <= S MAX_PARSE_DEPTH ->
      MAX_PARSE_DEPTH < n + d -> and_chain n d (And l r)).
    { intros n' d' Hh' Hn'. destruct (IHl Hokl n' d') as (_ & (k & Hc) & _); [lia|lia|].
      destruct (IHr Hokr n' d') as (H2 & _ & _); [lia|lia|]. exists (S k). by constructor. }
    assert (H0 : forall n d, S (Nat.max (height l) (height r)) + d <= S MAX_PARSE_DEPTH ->
      MAX_PARSE_DEPTH < n + d -> or_chain n d (And l r))
      by (intros n' d' Hh' Hn'; apply Hup0; [by apply H1|done]).
    split; [|split; [apply H1; lia|apply H0; lia]].
    intros t rest Ht. destruct n as [|n]; [lia|]. apply (eats_parens n d (print_expr 0 (And l r))); [lia|].
    apply or_reads, H0; lia.
  - apply andb_true_iff in Hok as [Hokl Hokr].
    assert (H0 : forall n d, S (Nat.max (height l) (height r)) + d <= S MAX_PARSE_DEPTH ->
      MAX_PARSE_DEPTH < n + d -> or_chain n d (Or l r)).
    { intros n' d' Hh' Hn'. destruct (IHl Hokl n' d') as (_ & _ & (k & Hc)); [lia|lia|].
      destruct (IHr Hokr n' d') as (_ & H1 & _); [lia|lia|]. exists (S k).
      constructor; [done|]. by apply and_reads. }
    assert (H2 : operand_chain n d (Or l r)).
    { intros t rest Ht. destruct n as [|n]; [lia|]. apply (eats_parens n d (print_expr 0 (Or l r))); [lia|].
      apply or_reads, H0; lia. }
    split; [done|]. split; [by apply Hup|apply H0; lia].
  - assert (H2 : operand_chain n d (Not e)).
    { intros t rest Ht. destruct n as [|n]; [lia|]. cbn [at_depth p_not print_expr]. unfold parse_not.
      apply eats_try_kw; [done|]. destruct (IH Hok n (S d)) as (H2 & _ & _); [lia|lia|].
      apply (eats_leaving _ _ _ _ _ e); [lia|by apply H2|apply eats_ret]. }
    assert (H1 : and_chain n d (Not e)) by by apply Hup.
    split; [done|]. split; [done|]. by apply Hup0.
Qed.

(** ** Statements *)

Definition print_where (f : option Expr) : list Tok :=
  match f with Some e => kw "WHERE" :: print_expr 0 e | None => [] end.

Definition where_ok (f : option Expr) : bool :=
  match f with Some e => expr_ok e && bool_decide (height e <= MAX_PARSE_DEPTH) | None => true end.

Definition print_row (r : list Literal) : list Tok := LParen :: comma_sep print_literal r ++ [RParen].
Definition row_ok (r : list Literal) : bool := forallb literal_ok r && negb (bool_decide (r = [])).

Definition print_assignment (a : Assignment) : list Tok :=
  print_name (a_column a) ++ Op Eq :: print_literal (a_value a).

(** The statements that change data, and those that bound transactions. *)
Definition print_statement (s : Statement) : list Tok :=
  match s with
  | Insert i =>
      kw "INSERT" :: kw "INTO" :: print_name (i_table i) ++
      (if decide (i_columns i = []) then [] else LParen :: comma_sep print_name (i_columns i) ++ [RParen]) ++
      kw "VALUES" :: comma_sep print_row (i_values i)
  | Update u =>
      kw "UPDATE" :: print_name (u_table u) ++ kw "SET" ::
      comma_sep print_assignment (u_assignments u) ++ print_where (u_filter u)
  | Delete d => kw "DELETE" :: kw "FROM" :: print_name (d_table d) ++ print_where (d_filter d)
  | Begin => [kw "BEGIN"]
  | Commit => [kw "COMMIT"]
  | Rollback => [kw "ROLLBACK"]
  | _ => []
  end.

Definition statement_ok (s : Statement) : bool :=
  match s with
  | Insert i =>
      name_ok (i_table i) && forallb name_ok (i_columns i) &&
      forallb row_ok (i_values i) && negb (bool_decide (i_values i = []))
  | Update u =>
      name_ok (u_table u) && forallb (fun a => name_ok (a_column a) && literal_ok (a_value a)) (u_assignments u)
      && negb (bool_decide (u_assignments u = [])) && where_ok (u_filter u)
  | Delete d => name_ok (d_table d) && where_ok (d_filter d)
  | Begin | Commit | Rollback => true
  | _ => false
  end.

Lemma eats_eof {A} d msg (a : A) : eats d (expect_eof msg;; mret a) [Eof] [] a.
Proof.
  apply (eats_bind _ _ _ [Eof] [] _ tt); [|apply eats_ret].
  unfold expect_eof. apply eats_next, eats_ret.
Qed.

Lemma eats_where {A} (k : option Expr -> P A) f a :
  where_ok f = true -> eats 0 (k f) [Eof] [] a ->
  eats 0 (parse_where ≫= k) (print_where f ++ [Eof]) [] a.
Proof.
  intros Hf Hk. eapply eats_bind; [|exact Hk]. unfold parse_where.
  destruct f as [e|]; simpl in *.
  - apply andb_true_iff in Hf as [Hok Hh%bool_decide_eq_true].
    apply eats_try_kw; [done|]. rewrite <- (app_nil_r (print_expr 0 e)).
    eapply eats_bind; [|apply eats_ret].
    apply (or_reads (S MAX_PARSE_DEPTH)); [|done].
    destruct (eats_expr e Hok (S MAX_PARSE_DEPTH) 0) as (_ & _ & Ho); [lia|lia|done].
  - apply eats_no_kw_rest; [done|apply eats_ret].
Qed.

Lemma eats_delete d : statement_ok (Delete d) = true ->
  eats 0 parse_delete (kw "FROM" :: (print_name (d_table d) ++ print_where (d_filter d)) ++ [Eof]) [] d.
Proof.
  intros Hok. simpl in Hok. apply andb_true_iff in Hok as [_ Hf]. unfold parse_delete.
  apply eats_expect_kw; [done|]. rewrite <- app_assoc.
  apply (eats_name _ _ _ _ (hd Eof (print_where (d_filter d)))).
  - destruct (d_filter d); simpl; eauto.
  - by destruct (d_filter d).
  - apply eats_where; [done|]. destruct d. apply eats_eof.
Qed.

Lemma eats_assignment a t rest :
  literal_ok (a_value a) = true ->
  eats 0 parse_assignment (print_assignment a) (t :: rest) a.
Proof.
  intros Hv. unfold parse_assignment, print_assignment.
  apply (eats_name _ _ _ _ (Op Eq)); [simpl; eauto|done|]. apply eats_expect_tok.
  rewrite <- (app_nil_r (print_literal _)).
  eapply eats_bind; [by apply eats_literal|]. destruct a. apply eats_ret.
Qed.

Lemma eats_update u : statement_ok (Update u) = true ->
  eats 0 parse_update
    ((print_name (u_table u) ++ kw "SET" ::
      comma_sep print_assignment (u_assignments u) ++ print_where (u_filter u)) ++ [Eof]) [] u.
Proof.
  intros Hok. simpl in Hok. rewrite !andb_true_iff in Hok.
  destruct Hok as (((_ & Has) & Hne%negb_true_iff%bool_decide_eq_false) & Hf).
  unfold parse_update. rewrite <- app_assoc. simpl. rewrite <- app_assoc.
  apply (eats_name _ _ _ _ (kw "SET")); [simpl; eauto|done|]. apply eats_expect_kw; [done|].
  assert (Hhd : exists t l, print_where (u_filter u) ++ [Eof] = t :: l /\ t <> Comma)
    by (destruct (u_filter u); simpl; eauto).
  destruct Hhd as (t & l & Et & Ht).
  apply (eats_bind _ _ _ _ _ _ (u_assignments u)); [|apply eats_where; [done|destruct u; apply eats_eof]].
  rewrite app_nil_r, Et. apply eats_comma_list; [done|done|].
  intros a l' Ha (t' & l'' & -> & _). apply eats_assignment.
  rewrite forallb_forall in Has. apply list_elem_of_In in Ha. apply Has in Ha.
  by apply andb_true_iff in Ha as [_ ?].
Qed.

Lemma eats_row r rest : row_ok r = true -> eats 0 parse_row (print_row r) rest r.
Proof.
  intros [Hr Hne%negb_true_iff%bool_decide_eq_false]%andb_true_iff. unfold parse_row, print_row.
  apply eats_expect_tok. apply eats_paren_list; [done|]. intros l l' Hl _. apply eats_literal.
  rewrite forallb_forall in Hr. by apply Hr, list_elem_of_In.
Qed.

Lemma eats_insert i : statement_ok (Insert i) = true ->
  eats 0 parse_insert
    (kw "INTO" :: (print_name (i_table i) ++
      (if decide (i_columns i = []) then [] else LParen :: comma_sep print_name (i_columns i) ++ [RParen]) ++
      kw "VALUES" :: comma_sep print_row (i_values i)) ++ [Eof]) [] i.
Proof.
  intros Hok. simpl in Hok. rewrite !andb_true_iff in Hok.
  destruct Hok as (((_ & Hc) & Hv) & Hne%negb_true_iff%bool_decide_eq_false).
  unfold parse_insert. apply eats_expect_kw; [done|]. rewrite <- !app_assoc.
  set (vals := (kw "VALUES" :: comma_sep print_row (i_values i)) ++ [Eof]).
  assert (Hvals : forall cols, eats 0
    (expect_kw "values";; values ← comma_list parse_row;
     expect_eof "trailing tokens after statement";; mret (mkInsert (i_table i) cols values))
    vals [] (mkInsert (i_table i) cols (i_values i))).
  { intros cols. apply eats_expect_kw; [done|]. apply (eats_bind _ _ _ _ _ _ (i_values i)); [|apply eats_eof].
    simpl. apply eats_comma_list; [done|done|]. intros r l' Hr _. apply eats_row.
    rewrite forallb_forall in Hv. by apply Hv, list_elem_of_In. }
  case_decide as Hcols.
  - apply (eats_name _ _ _ _ (kw "VALUES")); [simpl; eauto|done|]. simpl. unfold vals. simpl.
    apply eats_no_tok; [done|]. apply (eats_bind _ _ _ [] _ _ []); [apply eats_ret|].
    specialize (Hvals []). destruct i as [tb cs vs]. simpl in Hcols. subst cs. exact Hvals.
  - apply (eats_name _ _ _ _ LParen); [simpl; eauto|done|]. simpl. apply eats_try_tok.
    rewrite <- app_assoc.
    replace (comma_sep print_name (i_columns i) ++ [RParen] ++ vals)
      with ((comma_sep print_name (i_columns i) ++ [RParen]) ++ vals) by by rewrite <- app_assoc.
    eapply eats_bind.
    + apply eats_paren_list; [done|]. intros c l' _ (t & l'' & -> & Ht).
      rewrite <- (app_nil_r (print_name c)).
      unfold print_name. assert (Hj := join_split c). destruct (split_dots c) as [p ps].
      simpl in Hj. rewrite app_nil_r, <- Hj. apply eats_ident. by destruct Ht as [->| ->].
    + specialize (Hvals (i_columns i)). by destruct i.
Qed.

(** *** The printed tokens have texts *)

Abbreviation toks_ok := (forallb tok_ok).

Lemma name_toks_ok s : name_ok s = true -> toks_ok (print_name s) = true.
Proof.
  unfold name_ok, print_name. destruct (split_dots s) as [p ps].
  intros [Hp Hps]%andb_true_iff. simpl. rewrite Hp. clear Hp. simpl.
  induction ps as [|q qs IH]; [done|]. simpl in *. apply andb_true_iff in Hps as [-> Hqs]. auto.
Qed.

Lemma literal_toks_ok l : literal_ok l = true -> toks_ok (print_literal l) = true.
Proof. destruct l as [i| | | |[]|]; simpl; try done. unfold int_ok. simpl. by intros ->. Qed.

Lemma agg_toks_ok f c : agg_ok c = true -> toks_ok (print_agg f c) = true.
Proof.
  intros Hc. unfold print_agg. simpl.
  assert (Hw : tok_ok (kw (agg_word f)) = true) by by destruct f.
  simpl in Hw. rewrite Hw. simpl. rewrite forallb_app. case_decide as Hs; [done|].
  unfold agg_ok in Hc. rewrite bool_decide_false in Hc by done. by rewrite name_toks_ok.
Qed.

Lemma comma_sep_ok {A} (pr : A -> list Tok) (l : list A) :
  (forall x, x ∈ l -> toks_ok (pr x) = true) -> toks_ok (comma_sep pr l) = true.
Proof.
  intros Hl. destruct l as [|x l]; [done|]. simpl. rewrite forallb_app.
  rewrite (Hl x) by left. simpl. assert (Hl' : forall y, y ∈ l -> toks_ok (pr y) = true)
    by (intros y Hy; apply Hl; by right). clear Hl.
  induction l as [|y l IH]; [done|]. unfold comma_tail. simpl. rewrite forallb_app.
  rewrite (Hl' y) by left. apply IH. intros z Hz. apply Hl'. by right.
Qed.

Lemma col_name_ok c : col_ok c = true -> name_ok c = true.
Proof. unfold col_ok. rewrite !andb_true_iff. tauto. Qed.

Lemma rhs_name_ok c : rhs_ok c = true -> name_ok c = true.
Proof. unfold rhs_ok. rewrite !andb_true_iff. tauto. Qed.

Lemma paren_toks_ok b l : toks_ok l = true -> toks_ok (paren b l) = true.
Proof. intros Hl. destruct b; [|done]. simpl. by rewrite forallb_app, Hl. Qed.

Lemma operator_toks_ok e c :
  operand e = Some c -> expr_ok e = true -> toks_ok (print_operator e) = true.
Proof.
  destruct e as [c' op v|c' op r|c' negated|c' pat|c' vs|c' low high| | | | | | | | |];
    intros [= ->]; cbn [expr_ok]; rewrite ?andb_true_iff; intros Hok; simpl.
  - apply literal_toks_ok. tauto.
  - apply name_toks_ok, rhs_name_ok. tauto.
  - by destruct negated.
  - done.
  - rewrite forallb_app. simpl. rewrite andb_true_r. apply comma_sep_ok.
    intros i Hi. destruct Hok as [[_ Hok] _]. rewrite forallb_forall in Hok.
    apply list_elem_of_In, Hok in Hi. unfold int_ok in Hi. simpl in *. by rewrite Hi.
  - destruct Hok as [[_ H1] H2]. unfold int_ok in *. simpl in *. by rewrite H1, H2.
Qed.

Lemma expr_toks_ok e : forall lv, expr_ok e = true -> toks_ok (print_expr lv e) = true.
Proof.
  assert (Hop : forall e c lv, operand e = Some c -> expr_ok e = true -> toks_ok (print_expr lv e) = true).
  { intros e0 c lv He Hok. rewrite (print_expr_operand _ _ _ He), forallb_app.
    rewrite name_toks_ok by (eapply col_name_ok, operand_col_ok; done).
    by eapply operator_toks_ok. }
  induction e as [| | | | | |l IHl r IHr|l IHl r IHr|e IH| | | |f c|f c op v|f s op v];
    intros lv Hok; try done; try (by eapply Hop); cbn [expr_ok print_expr] in Hok |- *.
  - apply andb_true_iff in Hok as [H1 H2]. apply paren_toks_ok.
    rewrite forallb_app, IHl by done. simpl. by apply IHr.
  - apply andb_true_iff in Hok as [H1 H2]. apply paren_toks_ok.
    rewrite forallb_app, IHl by done. simpl. by apply IHr.
  - by apply IH.
  - by apply agg_toks_ok.
  - apply andb_true_iff in Hok as [H1 H2]. rewrite forallb_app, agg_toks_ok by done.
    by apply literal_toks_ok.
  - apply andb_true_iff in Hok as [H1 H2].
    assert (Hw : tok_ok (kw (field_word f)) = true) by by destruct f.
    simpl in Hw |- *. rewrite Hw, forallb_app, name_toks_ok by done. simpl.
    by apply literal_toks_ok.
Qed.

Lemma where_toks_ok f : where_ok f = true -> toks_ok (print_where f) = true.
Proof.
  destruct f as [e|]; [|done]. simpl. intros [He _]%andb_true_iff. by apply expr_toks_ok.
Qed.

Lemma statement_toks_ok s : statement_ok s = true -> toks_ok (print_statement s) = true.
Proof.
  destruct s as [| | |i|u|d| | | | | | | | | | |]; try done; simpl; rewrite ?andb_true_iff.
  - intros [[[Ht Hc] Hv] _]. rewrite !forallb_app, name_toks_ok by done. simpl.
    assert (Hvals : toks_ok (comma_sep print_row (i_values i)) = true).
    { apply comma_sep_ok. intros r Hr. rewrite forallb_forall in Hv.
      apply list_elem_of_In, Hv in Hr. apply andb_true_iff in Hr as [Hr _].
      simpl. rewrite forallb_app. simpl. rewrite andb_true_r. apply comma_sep_ok.
      intros l Hl. rewrite forallb_forall in Hr. by apply literal_toks_ok, Hr, list_elem_of_In. }
    rewrite Hvals, andb_true_r. case_decide; [done|]. simpl. rewrite forallb_app. simpl.
    rewrite andb_true_r. apply comma_sep_ok. intros c Hin. rewrite forallb_forall in Hc.
    by apply name_toks_ok, Hc, list_elem_of_In.
  - intros [[[Ht Ha] _] Hf]. rewrite forallb_app, name_toks_ok by done. simpl.
    rewrite forallb_app, where_toks_ok, andb_true_r by done. apply comma_sep_ok.
    intros a Hin. rewrite forallb_forall in Ha. apply list_elem_of_In, Ha in Hin.
    apply andb_true_iff in Hin as [H1 H2]. unfold print_assignment.
    rewrite forallb_app, name_toks_ok by done. simpl. by apply literal_toks_ok.
  - intros [Ht Hf]. rewrite forallb_app, name_toks_ok by done. by apply where_toks_ok.
Qed.

Lemma eats_map {A B} d (m : P A) (g : A -> B) toks a rest :
  eats d m toks rest a -> eats d (x ← m; mret (g x)) toks rest (g a).
Proof.
  intros Hm. rewrite <- (app_nil_r toks). eapply eats_bind; [exact Hm|]. apply eats_ret.
Qed.

(** C19: the text of an [INSERT], [UPDATE], [DELETE] or transaction
    statement is parsed back to exactly the statement it was printed from.
    Conditions are printed with only the parentheses that [NOT] over [AND] over
    [OR], each to the left, requires, and any bytes at all may stand in a text
    literal, its quotes doubled.  Covered are the statements of
    [statement_ok]: no float or vector literals, no subqueries, no names that
    read as keywords, rows that are not empty, and conditions no deeper than
    the parser's bound. *)
Theorem dml_roundtrip (s : Statement) :
  statement_ok s = true -> parse_statement (render (print_statement s)) = Ok s.
Proof.
  intros Hok. unfold parse_statement, new. rewrite tokenize_render.
  2: { apply Forall_forall. intros t Ht. assert (Hs := statement_toks_ok s Hok).
       rewrite forallb_forall in Hs. by apply Hs, list_elem_of_In. }
  assert (Heat : forall toks, eats 0 parse_statement_ts toks [] s ->
    (parse_statement_ts (mkTokenStream toks 0 0)).1 = Ok s).
  { intros toks He. specialize (He []). rewrite app_nil_r in He. unfold mk in He. simpl in He. by rewrite He. }
  destruct s as [| | |i|u|d| | | | | | | | | | |]; try done;
    apply Heat, eats_next, eats_map; [by apply eats_insert|by apply eats_update|by apply eats_delete].
Qed.

End WithFmt.

(** ** A statement with quotes, nesting and every precedence *)

#[local] Instance plain_fmt : Fmt := {| tok_debug _ := []; f32_display _ := [] |}.

Definition demo_delete : Statement :=
  Delete (mkDelete (lit "app.users")
    (Some (And (Or (Cmp (lit "u.name") Eq (LText (lit "O'Brien"))) (Not (IsNull (lit "age") true)))
               (Or (InInt (lit "id") [1; -2; 3]%Z) (And (BetweenInt (lit "age") 1 9) (Not (Like (lit "x") (lit "%")))))))).

Example demo_delete_text :
  string_of_list_byte (render (print_statement demo_delete)) =
  "DELETE FROM app . users WHERE ( u . name = 'O''Brien' OR NOT age IS NOT NULL ) AND ( id IN ( 1 , -2 , 3 ) OR age BETWEEN 1 AND 9 AND NOT x LIKE '%' ) ".
Proof. vm_compute. reflexivity. Qed.

Lemma dml_roundtrip_witness :
  statement_ok demo_delete = true /\
  parse_statement (render (print_statement demo_delete)) = Ok demo_delete.
Proof. split; [reflexivity|apply (dml_roundtrip demo_delete); reflexivity]. Defined.
