(* ===== verification/SelectPrint.v ===== *)
(** * SelectPrint: a printed query is parsed back

    A printer for SELECT statements over tables and their joins, with aggregates,
    conditions, grouping, ordering and limits, and the proof that the lexer and the
    parser give back the statement.  Window functions, subqueries and WITH have no
    text here. *)
From Stdlib Require Import ZArith Lia Strings.Byte Strings.String.
From stdpp Require Import base numbers option list.
From S2P Require Import Prelude Ast Value Lexer Datetime Expr Parser ParserPrint.
Import Ast Lexer Parser.
Local Open Scope string_scope.
Local Open Scope list_scope.

(** ** Printing *)

(** An entry of the projection; the columns of a statement and its aggregates
    are the two lists that its entries leave. *)
Inductive item : Type := Col (c : str) | AggItem (alias : str) (f : AggregateFunc) (column : str).

Definition push_item (pr : projection) (i : item) : projection :=
  match i with Col c => push_column c pr | AggItem a f c => push_aggregate a f c pr end.

Fixpoint entries (columns : list str) (aggregates : list (str * AggregateFunc * str)) : list item :=
  match columns with
  | [] => []
  | c :: cs =>
      match aggregates with
      | (a, f, col) :: aggs => if decide (a = c) then AggItem a f col :: entries cs aggs else Col c :: entries cs aggregates
      | [] => Col c :: entries cs []
      end
  end.

Definition print_alias (a : option str) : list Tok :=
  match a with Some a => kw "AS" :: print_name a | None => [] end.

Definition print_item (i : item) : list Tok :=
  match i with
  | Col c => print_name c
  | AggItem a f c => print_agg f c ++ print_alias (if decide (a = Expr.agg_default_alias f c) then None else Some a)
  end.

Definition item_ok (i : item) : bool :=
  match i with
  | Col c => rhs_ok c
  | AggItem a f c => agg_ok c && (bool_decide (a = Expr.agg_default_alias f c) || name_ok a)
  end.

Definition print_table_ref (t : TableRef) : list Tok :=
  match t with Named n a => print_name n ++ print_alias a | Subquery _ _ => [] end.

(** A table's name has at most one dot. *)
Definition table_ok (t : TableRef) : bool :=
  match t with
  | Named n a => name_ok n && bool_decide (length (split_dots n).2 <= 1) && match a with Some a => name_ok a | None => true end
  | Subquery _ _ => false
  end.

Definition join_words (j : JoinType) : list Tok :=
  match j with
  | Inner => [kw "INNER"] | Left => [kw "LEFT"] | Right => [kw "RIGHT"] | Full => [kw "FULL"] | Cross => [kw "CROSS"]
  end ++ [kw "JOIN"].

Definition print_on (e : option Expr) : list Tok :=
  match e with Some e => kw "ON" :: print_expr 0 e | None => [] end.

Definition print_join (j : Join) : list Tok :=
  let '(mkJoin jtype t e) := j in join_words jtype ++ print_table_ref t ++ print_on e.

Definition condition_ok (e : Expr) : bool := expr_ok e && bool_decide (height e <= MAX_PARSE_DEPTH).

Definition join_ok (j : Join) : bool :=
  let '(mkJoin jtype t e) := j in
  table_ok t && match jtype, e with Cross, None => true | Cross, Some _ | _, None => false | _, Some e => condition_ok e end.

Definition print_group (l : list str) : list Tok :=
  match l with [] => [] | _ => kw "GROUP" :: kw "BY" :: comma_sep print_name l end.

Definition print_having (e : option Expr) : list Tok :=
  match e with Some e => kw "HAVING" :: print_expr 0 e | None => [] end.

(** A condition whose aggregates are resolved to columns. *)
Fixpoint resolved (e : Expr) : bool :=
  match e with
  | And l r | Or l r => resolved l && resolved r
  | Not e => resolved e
  | AggCmp _ _ _ _ | Agg _ _ => false
  | _ => true
  end.

Definition print_order (o : OrderBy) : list Tok :=
  Ident (ob_column o) :: if descending o then [kw "DESC"] else [].

Definition print_orders (l : list OrderBy) : list Tok :=
  match l with [] => [] | _ => kw "ORDER" :: kw "BY" :: comma_sep print_order l end.

Definition print_limit (l : option Z) : list Tok :=
  match l with Some v => [kw "LIMIT"; Int v] | None => [] end.

Definition print_cosine (c : option OrderByCosine) : list Tok :=
  match c with
  | Some c => kw "ORDER" :: kw "BY" :: kw "COSINE" :: LParen :: print_name (obc_column c) ++
              [Comma; Param; RParen; kw "LIMIT"; Int (k c)]
  | None => []
  end.

Definition limit_ok (v : Z) : bool := (0 <=? v)%Z && (v <=? MAX_LIMIT)%Z.

(** The first column of ORDER BY is not taken for a call of [cosine]. *)
Definition orders_ok (l : list OrderBy) : bool :=
  forallb (fun o => is_ident (ob_column o)) l &&
  match l with o :: _ => negb (is_word (Ident (ob_column o)) "cosine") | [] => true end.

Definition print_projection (star : bool) (columns : list str) (aggregates : list (str * AggregateFunc * str)) : list Tok :=
  if star then [Star] else comma_sep print_item (entries columns aggregates).

Definition print_select (s : SelectStatement) : list Tok :=
  let '(mkSelect columns star table filter joins group_by aggregates _ order_by cosine limit having _) := s in
  kw "SELECT" :: print_projection star columns aggregates ++ kw "FROM" :: print_table_ref table ++
  concat (map print_join joins) ++ print_where filter ++ print_group group_by ++ print_having having ++
  print_orders order_by ++ print_cosine cosine ++ print_limit limit.

(** The statements that have a text. *)
Definition select_ok (s : SelectStatement) : bool :=
  let '(mkSelect columns star table filter joins group_by aggregates windows order_by cosine limit having ctes) := s in
  bool_decide (length windows = 0) && bool_decide (length ctes = 0) &&
  (if star then bool_decide (columns = []) && bool_decide (aggregates = [])
   else negb (bool_decide (columns = [])) && forallb item_ok (entries columns aggregates) &&
        bool_decide (pr_aggregates (foldl push_item (mkProjection [] [] []) (entries columns aggregates)) = aggregates)) &&
  table_ok table && forallb join_ok joins && where_ok filter && forallb name_ok group_by &&
  match having with Some e => condition_ok e && resolved e | None => true end &&
  orders_ok order_by && match limit with Some v => limit_ok v | None => true end &&
  match cosine with Some c => name_ok (obc_column c) && limit_ok (k c) && Nat.eqb (param c) 1 | None => true end.

(** ** Loops *)

(** [n] rounds of the loop are enough to read [toks]. *)
Definition loops {S B} (d n : nat) (body : S -> P (S + B)) (s : S) (toks rest : list Tok) (b : B) : Prop :=
  forall fuel, n <= fuel -> eats d (m_loop fuel body s) toks rest b.

Lemma loops_done {S B} d (body : S -> P (S + B)) s toks rest b :
  eats d (body s) toks rest (inr b) -> loops d 1 body s toks rest b.
Proof.
  intros Hb [|fuel] Hf; [lia|]. cbn [m_loop]. rewrite <- (app_nil_r toks).
  eapply eats_bind; [exact Hb|apply eats_ret].
Qed.

Lemma loops_step {S B} d n (body : S -> P (S + B)) s s' t1 t2 rest b :
  eats d (body s) t1 (t2 ++ rest) (inl s') -> loops d n body s' t2 rest b -> loops d (1 + n) body s (t1 ++ t2) rest b.
Proof.
  intros Hb Hl [|fuel] Hf; [lia|]. cbn [m_loop]. eapply eats_bind; [exact Hb|]. apply Hl. lia.
Qed.

Lemma eats_loop {S B} d n (body : S -> P (S + B)) s toks rest b :
  loops d n body s toks rest b -> n <= length (toks ++ rest) -> eats d (ts_loop body s) toks rest b.
Proof. intros Hl Hn pre. unfold ts_loop. apply Hl. cbn [tokens mk]. rewrite length_app. lia. Qed.

Lemma eats_restore {A} d (f : unit -> P A) toks rest a :
  eats d (f tt) toks rest a -> eats d (sp ← save; restore sp;; f tt) toks rest a.
Proof. intros H pre. exact (H pre). Qed.

(** ** What follows a phrase *)

(** A token that ends an expression, a name or an alias. *)
Definition ends (t : Tok) : bool :=
  match t with
  | Eof => true
  | Ident _ => forallb (fun w => negb (is_word t w)) ["as"; "and"; "or"; "asc"; "desc"; "over"; "outer"]
  | _ => false
  end.

Lemma ends_follows0 t : ends t = true -> follows0 t.
Proof.
  destruct t as [s| | | | | | | | | | | | |]; cbn [ends]; try done.
  cbn [forallb]. rewrite !andb_true_iff, !negb_true_iff. intros (_ & H1 & H2 & _). by repeat split.
Qed.

Lemma ends_word t w : ends t = true -> w ∈ ["as"; "and"; "or"; "asc"; "desc"; "over"; "outer"] -> is_word t w = false.
Proof.
  destruct t; cbn [ends]; try done. intros H Hw. rewrite forallb_forall in H.
  by apply negb_true_iff, H, list_elem_of_In.
Qed.

Lemma ends_tok t u : ends t = true -> ends u = false -> t <> u.
Proof. intros H1 H2 ->. congruence. Qed.

(** The tokens begin with one of the words, or are at the end. *)
Definition begins (ws : list string) (l : list Tok) : Prop :=
  exists t l', l = t :: l' /\ (t = Eof \/ exists w, w ∈ ws /\ t = kw w).

Lemma begins_ends ws l : begins ws l -> forallb (fun w => ends (kw w)) ws = true ->
  exists t l', l = t :: l' /\ ends t = true.
Proof.
  intros (t & l' & -> & Ht) Hws. exists t, l'. split; [done|]. destruct Ht as [->|(w & Hw & ->)]; [done|].
  rewrite forallb_forall in Hws. by apply Hws, list_elem_of_In.
Qed.

Lemma begins_not ws l t l' w : begins ws l -> l = t :: l' -> forallb (fun v => negb (is_word (kw v) w)) ws = true ->
  is_word t w = false.
Proof.
  intros (t0 & l0 & -> & Ht) [= <- _] Hws. destruct Ht as [->|(v & Hv & ->)]; [done|].
  rewrite forallb_forall in Hws. by apply negb_true_iff, Hws, list_elem_of_In.
Qed.

Lemma begins_mono ws vs l : begins ws l -> ws ⊆ vs -> begins vs l.
Proof. intros (t & l' & -> & Ht) Hs. exists t, l'. split; [done|]. destruct Ht as [->|(w & Hw & ->)]; [by left|]. right. exists w. auto. Qed.

Lemma begins_kw ws w l : w ∈ ws -> begins ws (kw w :: l).
Proof. intros Hw. exists (kw w), l. split; [done|]. right. by exists w. Qed.

Lemma begins_eof ws l : begins ws (Eof :: l).
Proof. exists Eof, l. split; [done|]. by left. Qed.

(** ** The projection *)

Section WithFmt.
Context `{Fmt}.

(** A comma, or what ends a phrase. *)
Definition stops (t : Tok) : Prop := t = Comma \/ ends t = true.

Lemma stops_tok t u : stops t -> u <> Comma -> ends u = false -> t <> u.
Proof. intros [->|Ht] Hu He; [congruence|]. by eapply ends_tok. Qed.

Lemma stops_word t w : stops t -> w ∈ ["as"; "and"; "or"; "asc"; "desc"; "over"; "outer"] -> is_word t w = false.
Proof. intros [->|Ht] Hw; [done|]. by apply ends_word. Qed.

(** A name and nothing more. *)
Lemma eats_name_end d w s t rest : t <> Dot -> eats d (expect_ident w) (print_name s) (t :: rest) s.
Proof.
  intros Ht. unfold print_name. assert (Hj := join_split s). destruct (split_dots s) as [p ps]. simpl in Hj.
  rewrite <- Hj. by apply eats_ident.
Qed.

Lemma eats_alias d a t rest : stops t -> eats d parse_optional_alias (print_alias a) (t :: rest) a.
Proof.
  intros Ht. unfold parse_optional_alias. destruct a as [a|]; cbn [print_alias].
  - apply eats_try_kw; [done|]. rewrite <- (app_nil_r (print_name a)). eapply eats_bind; [|apply eats_ret].
    apply eats_name_end. by apply (stops_tok _ Dot Ht).
  - apply eats_no_kw_rest; [by apply stops_word; [|left]|apply eats_ret].
Qed.

Lemma eats_column_item d p ps pr t rest : stops t ->
  eats d (parse_column_item p pr) (name_tail ps) (t :: rest) (push_column (join_dots p ps) pr).
Proof.
  intros Ht. unfold parse_column_item. rewrite <- (app_nil_r (name_tail ps)).
  apply (eats_qualified _ _ _ _ t); [by exists rest|by apply (stops_tok _ Dot Ht)|].
  rewrite <- (app_nil_r []). eapply (eats_bind _ _ _ [] [] _ None); [by apply (eats_alias d None)|apply eats_ret].
Qed.

Lemma name_tail_head ps t rest : stops t -> exists t' l, name_tail ps ++ t :: rest = t' :: l /\ t' <> LParen.
Proof.
  intros Ht. destruct ps as [|q qs]; cbn; eexists _, _; (split; [reflexivity|]); [by apply (stops_tok _ LParen Ht)|done].
Qed.

Lemma eats_item d i pr t rest : item_ok i = true -> stops t ->
  eats d (parse_select_item pr) (print_item i) (t :: rest) (push_item pr i).
Proof.
  intros Hi Ht. destruct i as [c|a f c]; cbn [print_item push_item].
  - unfold print_name. assert (Hj := join_split c). destruct (split_dots c) as [p ps]. cbn [fst snd] in Hj.
    unfold parse_select_item. apply eats_next. cbn beta iota zeta.
    destruct (name_tail_head ps t rest Ht) as (t' & l & El & Hne).
    intros pre. rewrite El, run_peek. rewrite (bool_decide_false (t' = LParen)), andb_false_r by done.
    assert (Hc := eats_column_item d p ps pr t rest Ht pre). rewrite Hj, El in Hc. by destruct (aggregate_of _).
  - unfold parse_select_item, print_agg. cbn [app]. apply eats_next. cbn beta iota zeta. apply eats_peek.
    rewrite bool_decide_true by done.
    assert (Hagg : aggregate_of (to_ascii_lowercase (lit (agg_word f))) = Some f) by by destruct f.
    assert (Hwin : window_only (to_ascii_lowercase (lit (agg_word f))) = false) by by destruct f.
    rewrite Hwin, Hagg. cbn [andb]. unfold parse_aggregate_item. apply eats_next.
    eapply eats_bind; [apply eats_aggregate_arg|].
    set (al := if decide (a = _) then None else Some a).
    assert (Hal : default (Expr.agg_default_alias f c) al = a) by (unfold al; by case_decide).
    assert (Hend : eats d (alias ← parse_optional_alias; mret (push_aggregate (default (Expr.agg_default_alias f c) alias) f c pr))
              (print_alias al) (t :: rest) (push_aggregate a f c pr)).
    { rewrite <- (app_nil_r (print_alias al)), <- Hal. eapply eats_bind; [by apply eats_alias|apply eats_ret]. }
    destruct al as [al|]; cbn [print_alias] in Hend |- *.
    + by apply eats_no_kw.
    + apply eats_no_kw_rest; [apply stops_word; [done|repeat constructor]|exact Hend].
Qed.

(** The entries one after the other. *)
Lemma loops_items d l : forall i pr t rest, forallb item_ok (i :: l) = true -> ends t = true ->
  loops d (1 + length l)
    (fun pr => pr' ← parse_select_item pr; c ← try_tok Comma; mret (if (c : bool) then inl pr' else inr pr'))
    pr (print_item i ++ comma_tail print_item l) (t :: rest) (foldl push_item pr (i :: l)).
Proof.
  induction l as [|j l IH]; intros i pr t rest Hok Ht; cbn [forallb] in Hok; apply andb_true_iff in Hok as [Hi Hl].
  - unfold comma_tail. cbn [map concat length Nat.add]. apply loops_done.
    eapply eats_bind; [apply eats_item; [done|by right]|]. apply eats_no_tok_rest; [by apply (ends_tok _ Comma Ht)|apply eats_ret].
  - unfold comma_tail. cbn [map concat]. fold (comma_tail print_item l).
    replace (print_item i ++ (Comma :: print_item j) ++ comma_tail print_item l)
      with ((print_item i ++ [Comma]) ++ (print_item j ++ comma_tail print_item l)) by by rewrite <- app_assoc.
    eapply loops_step; [|by apply IH].
    eapply eats_bind; [apply eats_item; [done|by left]|]. apply eats_try_tok, eats_ret.
Qed.

Lemma eats_projection d (star : bool) columns aggregates t rest :
  (if star then columns = [] /\ aggregates = [] else columns <> [] /\ forallb item_ok (entries columns aggregates) = true) ->
  ends t = true ->
  eats d parse_projection (print_projection star columns aggregates) (t :: rest)
    (foldl push_item (mkProjection [] [] []) (entries columns aggregates), star).
Proof.
  intros Hok Ht. unfold parse_projection, print_projection. destruct star.
  - destruct Hok as [-> ->]. apply eats_try_tok, eats_ret.
  - destruct Hok as [Hne Hok]. destruct (entries columns aggregates) as [|i l] eqn:E.
    { destruct columns as [|c cs]; [done|]. cbn in E. destruct aggregates as [|[[a f] col] aggs]; [done|]. by case_decide. }
    cbn [comma_sep]. assert (Hhd : exists t0 l0, print_item i ++ comma_tail print_item l = t0 :: l0 /\ t0 <> Star).
    { destruct i as [c|a f c]; cbn [print_item]; [|unfold print_agg; cbn; eauto].
      destruct (print_name_head c) as (p & q & ->). cbn. eauto. }
    destruct Hhd as (t0 & l0 & E0 & Hs). rewrite E0. apply eats_no_tok; [done|]. rewrite <- E0.
    rewrite <- (app_nil_r (print_item i ++ _)). eapply eats_bind; [|apply eats_ret].
    eapply eats_loop; [by apply loops_items|]. rewrite !length_app. cbn [length].
    assert (Hl := comma_tail_length print_item l). lia.
Qed.

(** ** Tables and joins *)

Lemma eats_table_ref p d tb t rest : table_ok tb = true -> ends t = true ->
  eats d (parse_table_ref p) (print_table_ref tb) (t :: rest) tb.
Proof.
  intros Hok Ht. destruct tb as [n a|]; [|done]. cbn [table_ok print_table_ref] in *.
  rewrite !andb_true_iff in Hok. destruct Hok as ((_ & Hlen%bool_decide_eq_true) & _).
  unfold print_name. assert (Hj := join_split n). destruct (split_dots n) as [q qs]. cbn [fst snd] in *.
  unfold parse_table_ref. apply eats_next. cbn beta iota.
  assert (Hal : eats d (b ← try_kw "as"; if (b : bool) then a ← expect_ident "table alias"; mret (Named n (Some a)) else mret (Named n None))
            (print_alias a) (t :: rest) (Named n a)).
  { destruct a as [a|]; cbn [print_alias].
    - apply eats_try_kw; [done|]. rewrite <- (app_nil_r (print_name a)). eapply eats_bind; [|apply eats_ret].
      apply eats_name_end. by apply (ends_tok _ Dot Ht).
    - apply eats_no_kw_rest; [by apply ends_word; [|left]|apply eats_ret]. }
  eapply eats_bind; [|exact Hal]. rewrite <- Hj. unfold parse_schema_suffix.
  destruct qs as [|s [|]]; cbn in Hlen; try lia; cbn [name_tail join_dots].
  - destruct a as [a|]; cbn [print_alias app].
    + by apply eats_no_tok_rest; [|apply eats_ret].
    + apply eats_no_tok_rest; [by apply (ends_tok _ Dot Ht)|apply eats_ret].
  - apply eats_try_tok, eats_next, eats_ret.
Qed.

(** Conditions at the top level of a statement. *)
Lemma eats_condition e t rest : condition_ok e = true -> ends t = true ->
  eats 0 (parse_expr top) (print_expr 0 e) (t :: rest) e.
Proof.
  intros [Hok Hh%bool_decide_eq_true]%andb_true_iff Ht. apply ends_follows0 in Ht. revert t rest Ht.
  change (reads (parse_expr (at_depth (S MAX_PARSE_DEPTH))) 0 follows0 (print_expr 0 e) e). apply or_reads.
  destruct (eats_expr e Hok (S MAX_PARSE_DEPTH) 0) as (_ & _ & Ho); [lia|lia|done].
Qed.

Lemma eats_save {A} d (f : nat -> P A) toks rest a :
  (forall sp, eats d (f sp) toks rest a) -> eats d (save ≫= f) toks rest a.
Proof. intros Hf pre. exact (Hf _ pre). Qed.

(** One round of the loop. *)
Definition join_round (acc : list Join) : P (list Join + list Join) :=
  sp ← save;
  j ← parse_join_type sp;
  match j with
  | None => mret (inr acc)
  | Some (jtype, has_on) =>
      join_table ← parse_table_ref top;
      on_expr ← (if (has_on : bool) then expect_kw "on";; e ← parse_expr top; mret (Some e) else mret None);
      mret (inl (acc ++ [mkJoin jtype join_table on_expr]))
  end.

Lemma eats_join jtype tb e (acc : list Join) t rest : join_ok (mkJoin jtype tb e) = true -> ends t = true ->
  eats 0 (join_round acc) (print_join (mkJoin jtype tb e)) (t :: rest) (inl (acc ++ [mkJoin jtype tb e]) : list Join + list Join).
Proof.
  intros Hok Ht. cbn [join_ok] in Hok. apply andb_true_iff in Hok as [Htb Hon].
  assert (Htable : forall has_on : bool, has_on = (match jtype with Cross => false | _ => true end) ->
    eats 0 (join_table ← parse_table_ref top;
        on_expr ← (if (has_on : bool) then expect_kw "on";; e ← parse_expr top; mret (Some e) else mret None);
        mret (inl (acc ++ [mkJoin jtype join_table on_expr])))
      (print_table_ref tb ++ print_on e) (t :: rest) (inl (acc ++ [mkJoin jtype tb e]) : list Join + list Join)).
  { intros has_on ->. destruct e as [e|]; cbn [print_on] in *.
    - assert (Hj : (match jtype with Cross => false | _ => true end) = true) by by destruct jtype. rewrite Hj.
      assert (He : condition_ok e = true) by by destruct jtype.
      eapply eats_bind; [by apply (eats_table_ref top 0 tb (kw "ON"))|].
      rewrite <- (app_nil_r (kw "ON" :: _)). eapply eats_bind; [|apply eats_ret].
      apply eats_expect_kw; [done|]. rewrite <- (app_nil_r (print_expr 0 e)).
      eapply eats_bind; [by apply eats_condition|apply eats_ret].
    - assert (Hj : jtype = Cross) by by destruct jtype. subst jtype. rewrite app_nil_r.
      rewrite <- (app_nil_r (print_table_ref tb)). eapply eats_bind; [by apply eats_table_ref|].
      rewrite <- (app_nil_r []). eapply (eats_bind _ _ _ [] []); apply eats_ret. }
  unfold join_round. apply eats_save. intros sp. cbn [print_join].
  apply (eats_bind _ _ _ (join_words jtype) _ _ (Some (jtype, match jtype with Cross => false | _ => true end))).
  - unfold parse_join_type. destruct jtype; cbn [join_words app]; apply eats_peek; cbn beta iota zeta.
    all: repeat first [apply eats_next|apply eats_expect_kw; [done|]|apply eats_no_kw; [done|]].
    1: eapply (eats_bind _ _ _ [kw "INNER"] [kw "JOIN"] _ tt); [apply eats_next, eats_ret|apply eats_expect_kw; [done|]].
    all: apply eats_ret.
  - apply Htable. by destruct jtype.
Qed.

(** The end of the joins. *)
Lemma eats_no_join (acc : list Join) t rest : forallb (fun w => negb (is_word t w)) ("join" :: "inner" :: "left" :: "right" :: "full" :: "cross" :: nil) = true ->
  eats 0 (join_round acc) [] (t :: rest) (inr acc : list Join + list Join).
Proof.
  cbn [forallb]. rewrite !andb_true_iff, !negb_true_iff. intros (H1 & H2 & H3 & H4 & H5 & H6 & _) pre.
  cbn [app]. rewrite app_nil_r. unfold join_round, mbind at 1, M_bind at 1, save. cbn beta iota.
  rewrite (bind_ok _ _ _ None (mk pre (t :: rest) 0)); [reflexivity|].
  unfold parse_join_type. cbn beta zeta. rewrite run_peek, H1, H2, H3, H4, H5, H6. reflexivity.
Qed.

Lemma loops_joins l : forall acc t rest, forallb join_ok l = true -> begins ["WHERE"; "GROUP"; "HAVING"; "ORDER"; "LIMIT"] (t :: rest) ->
  loops 0 (1 + length l) join_round acc (concat (map print_join l)) (t :: rest) (acc ++ l).
Proof.
  induction l as [|[jtype tb e] l IH]; intros acc t rest Hok Hb; cbn [forallb map concat length] in *.
  - rewrite app_nil_r. apply loops_done, eats_no_join. cbn [forallb].
    rewrite !(begins_not _ _ _ _ _ Hb eq_refl) by reflexivity. reflexivity.
  - apply andb_true_iff in Hok as [Hj Hl].
    replace (acc ++ mkJoin jtype tb e :: l) with ((acc ++ [mkJoin jtype tb e]) ++ l) by by rewrite <- app_assoc.
    eapply loops_step; [|by apply IH].
    assert (Hhd : exists t0 l0, concat (map print_join l) ++ t :: rest = t0 :: l0 /\ ends t0 = true).
    { destruct l as [|[jt tb' e'] l]; cbn.
      - by apply (begins_ends _ _ Hb).
      - by destruct jt; cbn; eexists _, _. }
    destruct Hhd as (t0 & l0 & -> & H0). by apply eats_join.
Qed.

Lemma eats_joins l t rest : forallb join_ok l = true -> begins ["WHERE"; "GROUP"; "HAVING"; "ORDER"; "LIMIT"] (t :: rest) ->
  eats 0 (parse_joins top) (concat (map print_join l)) (t :: rest) l.
Proof.
  intros Hok Hb. unfold parse_joins. eapply eats_loop; [by apply (loops_joins l [])|].
  rewrite length_app. cbn [length]. clear Hok Hb. induction l as [|[jt tb e] l IH]; cbn [map concat length]; [lia|].
  rewrite length_app. destruct jt; cbn [print_join join_words app length] in *; lia.
Qed.

(** ** WHERE, GROUP BY and HAVING *)

(** A clause, where there is one, is a round of the loop; it has a token at least. *)
Lemma loops_clause {S B} d n (body : S -> P (S + B)) s s' (t1 t2 : list Tok) t rest b :
  (t1 = [] -> s' = s) -> (t1 <> [] -> eats d (body s) t1 (t2 ++ t :: rest) (inl s')) ->
  loops d n body s' t2 (t :: rest) b -> loops d (length t1 + n) body s (t1 ++ t2) (t :: rest) b.
Proof.
  intros H0 H1 Hl. destruct t1 as [|u t1]; [by rewrite (H0 eq_refl) in Hl|].
  intros fuel Hf. cbn [length Nat.add] in Hf. eapply loops_step; [by apply H1|exact Hl|lia].
Qed.

Abbreviation clauses := (option Expr * list str * option Expr)%type.

Definition clauses_round (s : clauses) : P (clauses + clauses) :=
  let '(filter, group_by, having) := s in
  t ← peek;
  if is_word t "where" then
    next;;
    match filter with
    | Some _ => p_err "duplicate WHERE"
    | None => e ← parse_expr top; mret (inl (Some e, group_by, having))
    end
  else if is_word t "group" then
    next;;
    expect_kw "by";;
    cols ← comma_list (expect_ident "column in GROUP BY");
    mret (inl (filter, group_by ++ cols, having))
  else if is_word t "having" then
    next;;
    match having with
    | Some _ => p_err "duplicate HAVING"
    | None => e ← parse_expr top; mret (inl (filter, group_by, Some e))
    end
  else mret (inr (filter, group_by, having)).

Lemma eats_names l t rest : l <> [] -> ends t = true ->
  eats 0 (comma_list (expect_ident "column in GROUP BY")) (comma_sep print_name l) (t :: rest) l.
Proof.
  intros Hl Ht. apply eats_comma_list; [done|by apply (ends_tok _ Comma Ht)|].
  intros y l' _ (t' & l'' & -> & [->| ->]); apply eats_name_end; [done|by apply (ends_tok _ Dot Ht)].
Qed.

Definition having_ok (h : option Expr) : bool := match h with Some e => condition_ok e | None => true end.

Lemma eats_clauses f g h t rest : where_ok f = true -> having_ok h = true -> begins ["ORDER"; "LIMIT"] (t :: rest) ->
  eats 0 (parse_clauses top) (print_where f ++ print_group g ++ print_having h) (t :: rest) (f, g, h).
Proof.
  intros Hf Hh Hb. destruct (begins_ends _ _ Hb eq_refl) as (t0 & l0 & [= <- <-] & Ht).
  assert (Hend : loops 0 1 clauses_round (f, g, h) [] (t :: rest) (f, g, h)).
  { apply loops_done. unfold clauses_round. apply eats_peek_rest.
    rewrite !(begins_not _ _ _ _ _ Hb eq_refl) by reflexivity. apply eats_ret. }
  assert (Hhav : loops 0 (length (print_having h) + 1) clauses_round (f, g, None) (print_having h) (t :: rest) (f, g, h)).
  { rewrite <- (app_nil_r (print_having h)) at 2. eapply loops_clause; [| |exact Hend]; destruct h as [e|]; cbn [print_having]; try done.
    intros _. apply eats_peek. cbn beta iota. apply eats_next. rewrite <- (app_nil_r (print_expr 0 e)).
    eapply eats_bind; [by apply eats_condition|apply eats_ret]. }
  assert (Hhd : exists t1 l1, print_having h ++ t :: rest = t1 :: l1 /\ ends t1 = true) by (destruct h; cbn; eauto).
  destruct Hhd as (t1 & l1 & E1 & Ht1).
  assert (Hgrp : loops 0 (length (print_group g) + (length (print_having h) + 1)) clauses_round (f, [], None) (print_group g ++ print_having h) (t :: rest) (f, g, h)).
  { eapply loops_clause; [| |exact Hhav]; destruct g as [|c cs]; try done. intros _. unfold print_group.
    apply eats_peek. cbn beta iota. apply eats_next. apply eats_expect_kw; [done|].
    rewrite <- (app_nil_r (comma_sep print_name (c :: cs))), E1.
    eapply eats_bind; [by apply eats_names|apply eats_ret]. }
  assert (Hhd : exists t2 l2, (print_group g ++ print_having h) ++ t :: rest = t2 :: l2 /\ ends t2 = true).
  { destruct g; [|cbn; eauto]. cbn [print_group app]. rewrite E1. eauto. }
  destruct Hhd as (t2 & l2 & E2 & Ht2).
  assert (Hwh : loops 0 (length (print_where f) + (length (print_group g) + (length (print_having h) + 1))) clauses_round (None, [], None) (print_where f ++ print_group g ++ print_having h) (t :: rest) (f, g, h)).
  { eapply loops_clause; [| |exact Hgrp]; destruct f as [e|]; cbn [print_where]; try done.
    intros _. apply eats_peek. cbn beta iota. apply eats_next. rewrite <- (app_nil_r (print_expr 0 e)), E2.
    eapply eats_bind; [by apply eats_condition|apply eats_ret]. }
  eapply eats_loop; [exact Hwh|]. rewrite !length_app. cbn [length]. lia.
Qed.

(** ** ORDER BY and LIMIT *)

Lemma eats_direction d (desc : bool) t rest : stops t ->
  eats d parse_direction (if desc then [kw "DESC"] else []) (t :: rest) desc.
Proof.
  intros Ht. unfold parse_direction. destruct desc; [by apply eats_try_kw; [|apply eats_ret]|].
  apply eats_no_kw_rest; [apply stops_word; [done|repeat constructor]|].
  apply eats_no_kw_rest; [apply stops_word; [done|repeat constructor]|apply eats_ret].
Qed.

Definition more_order_round (acc : list OrderBy) : P (list OrderBy + list OrderBy) :=
  sp ← save;
  t ← next;
  if decide (t = Comma) then
    n ← next;
    match n with
    | Ident name => d ← parse_direction; mret (inl (acc ++ [mkOrderBy name d]))
    | _ => p_err "expected column name in ORDER BY"
    end
  else restore sp;; mret (inr acc).

Lemma loops_orders d l : forall acc t rest, ends t = true ->
  loops d (1 + length l) more_order_round acc (comma_tail print_order l) (t :: rest) (acc ++ l).
Proof.
  induction l as [|[name desc] l IH]; intros acc t rest Ht.
  - rewrite app_nil_r. apply loops_done. intros pre. unfold more_order_round, mbind at 1, M_bind at 1, save. cbn beta iota.
    cbn [comma_tail map concat app]. rewrite run_next, decide_False by by apply (ends_tok _ Comma Ht).
    unfold mbind, M_bind, restore, mret, M_ret, set_pos, mk. cbn [tokens pos depth]. rewrite <- !app_assoc, app_nil_r. reflexivity.
  - unfold comma_tail. cbn [map concat]. fold (comma_tail print_order l).
    replace (acc ++ mkOrderBy name desc :: l) with ((acc ++ [mkOrderBy name desc]) ++ l) by by rewrite <- app_assoc.
    eapply loops_step; [|by apply IH].
    assert (Hhd : exists t0 l0, comma_tail print_order l ++ t :: rest = t0 :: l0 /\ stops t0).
    { destruct l as [|o l]; cbn; eexists _, _; (split; [reflexivity|]); [by right|by left]. }
    destruct Hhd as (t0 & l0 & -> & H0). unfold more_order_round. apply eats_save. intros sp. apply eats_next.
    rewrite decide_True by done. unfold print_order. cbn [ob_column descending]. apply eats_next. cbn beta iota.
    rewrite <- (app_nil_r (if desc then _ else _)). eapply eats_bind; [by apply eats_direction|apply eats_ret].
Qed.

Abbreviation tail_state := (list OrderBy * option Z * option OrderByCosine)%type.

Definition tail_round (s : tail_state) : P (tail_state + tail_state) :=
  let '(order_by, limit, obc) := s in
  t ← peek;
  if is_word t "order" then
    next;;
    expect_kw "by";;
    n ← next;
    match n with
    | Ident name =>
        if is_word n "cosine" then
          c ← parse_cosine;
          mret (inl (order_by, limit, Some c))
        else
          d ← parse_direction;
          order_by' ← parse_more_order (order_by ++ [mkOrderBy name d]);
          mret (inl (order_by', limit, obc))
    | _ => p_err "expected column name in ORDER BY"
    end
  else if is_word t "limit" then
    next;;
    match limit with
    | Some _ => p_err "duplicate LIMIT"
    | None =>
        n ← next;
        match n with
        | Int v =>
            if (0 <=? v)%Z then
              if (MAX_LIMIT <? v)%Z then m_err (limit_error v)
              else mret (inl (order_by, Some v, obc))
            else p_err "expected non-negative LIMIT"
        | _ => p_err "expected non-negative LIMIT"
        end
    end
  else mret (inr (order_by, limit, obc)).

(** The first clause: the columns of ORDER BY. *)
Lemma eats_orders l t rest : l <> [] -> orders_ok l = true -> ends t = true ->
  eats 0 (tail_round ([], None, None)) (print_orders l) (t :: rest) (inl (l, None, None)).
Proof.
  intros Hne Hok Ht. destruct l as [|[name desc] l]; [done|]. cbn [orders_ok] in Hok.
  apply andb_true_iff in Hok as [_ Hcos%negb_true_iff]. unfold tail_round, print_orders. cbn [comma_sep].
  apply eats_peek. cbn beta iota. apply eats_next. apply eats_expect_kw; [done|].
  unfold print_order at 1. cbn [ob_column descending app] in *. apply eats_next. cbn beta iota. rewrite Hcos.
  assert (Hhd : exists t0 l0, comma_tail print_order l ++ t :: rest = t0 :: l0 /\ stops t0).
  { destruct l as [|o l]; cbn; eexists _, _; (split; [reflexivity|]); [by right|by left]. }
  destruct Hhd as (t0 & l0 & E0 & H0).
  eapply eats_bind; [rewrite E0; by apply eats_direction|].
  rewrite <- (app_nil_r (comma_tail print_order l)). eapply eats_bind; [|apply eats_ret].
  unfold parse_more_order. eapply eats_loop; [by apply (loops_orders 0 l [mkOrderBy name desc])|].
  rewrite !length_app. assert (Hl := comma_tail_length print_order l). cbn [length]. lia.
Qed.

Lemma eats_cosine d c t rest : limit_ok (k c) = true -> param c = 1 ->
  eats d parse_cosine (LParen :: print_name (obc_column c) ++ [Comma; Param; RParen; kw "LIMIT"; Int (k c)]) (t :: rest) c.
Proof.
  intros [H1%Z.leb_le H2%Z.leb_le]%andb_true_iff Hp. unfold parse_cosine. apply eats_expect_tok.
  apply (eats_name _ _ _ _ Comma); [cbn; eauto|done|]. apply eats_expect_tok, eats_next.
  rewrite decide_True by done. apply eats_expect_tok. apply eats_expect_kw; [done|]. apply eats_expect_int.
  assert (Hw : wrap64 (k c) = k c) by (unfold wrap64; apply Z.mod_small; unfold MAX_LIMIT in H2; lia).
  rewrite Hw. rewrite (proj2 (Z.ltb_ge _ _)) by done. destruct c as [col p kk]. cbn in *. subst p. apply eats_ret.
Qed.

Lemma eats_select_tail o c l t rest : t = Eof ->
  orders_ok o = true -> (match l with Some v => limit_ok v | None => true end) = true ->
  (match c with Some c => name_ok (obc_column c) && limit_ok (k c) && Nat.eqb (param c) 1 | None => true end) = true ->
  eats 0 (parse_select_tail ([], None, None)) (print_orders o ++ print_cosine c ++ print_limit l) (t :: rest) (o, l, c).
Proof.
  intros -> Ho Hl Hc.
  assert (Hend : loops 0 1 tail_round (o, l, c) [] (Eof :: rest) (o, l, c)).
  { apply loops_done. unfold tail_round. apply eats_peek_rest, eats_ret. }
  assert (Hlim : loops 0 (length (print_limit l) + 1) tail_round (o, None, c) (print_limit l) (Eof :: rest) (o, l, c)).
  { rewrite <- (app_nil_r (print_limit l)) at 2. eapply loops_clause; [| |exact Hend]; destruct l as [v|]; try done.
    intros _. apply andb_true_iff in Hl as [H1 H2%Z.leb_le]. apply eats_peek. cbn beta iota. apply eats_next, eats_next. cbn beta iota.
    rewrite H1, (proj2 (Z.ltb_ge _ _)) by done. apply eats_ret. }
  assert (Hhd : exists t1 l1, print_limit l ++ Eof :: rest = t1 :: l1 /\ ends t1 = true) by (destruct l; cbn; eauto).
  destruct Hhd as (t1 & l1 & E1 & Ht1).
  assert (Hcos : loops 0 (length (print_cosine c) + (length (print_limit l) + 1)) tail_round (o, None, None)
    (print_cosine c ++ print_limit l) (Eof :: rest) (o, l, c)).
  { eapply loops_clause; [| |exact Hlim]; destruct c as [c|]; try done. intros _. rewrite !andb_true_iff in Hc.
    destruct Hc as ((_ & Hk) & Hp%Nat.eqb_eq). unfold print_cosine. apply eats_peek. cbn beta iota. apply eats_next.
    apply eats_expect_kw; [done|]. apply eats_next. cbn beta iota.
    assert (Hw : is_word (kw "COSINE") "cosine" = true) by done. rewrite Hw.
    rewrite <- (app_nil_r (LParen :: _)), E1. eapply eats_bind; [by apply eats_cosine|apply eats_ret]. }
  assert (Hhd : exists t2 l2, (print_cosine c ++ print_limit l) ++ Eof :: rest = t2 :: l2 /\ ends t2 = true).
  { destruct c; [cbn; eauto|]. cbn [print_cosine app]. rewrite E1. eauto. }
  destruct Hhd as (t2 & l2 & E2 & Ht2).
  assert (Hord : loops 0 (length (print_orders o) + (length (print_cosine c) + (length (print_limit l) + 1))) tail_round ([], None, None)
    (print_orders o ++ print_cosine c ++ print_limit l) (Eof :: rest) (o, l, c)).
  { eapply loops_clause; [| |exact Hcos]; destruct o as [|o1 o]; try done. intros _. rewrite E2. by apply eats_orders. }
  unfold parse_select_tail. eapply eats_loop; [exact Hord|]. rewrite !length_app. cbn [length]. lia.
Qed.

(** ** The statement *)

Lemma resolve_resolved aggregates e : resolved e = true -> resolve_having_aliases aggregates e = e.
Proof.
  induction e as [| | | | | |l IHl r IHr|l IHl r IHr|e IH| | | | | |]; cbn; try done; rewrite ?andb_true_iff.
  - intros [H1 H2]. by rewrite IHl, IHr.
  - intros [H1 H2]. by rewrite IHl, IHr.
  - intros H1. by rewrite IH.
Qed.

Lemma entries_push columns : forall aggregates pr,
  pr_columns (foldl push_item pr (entries columns aggregates)) = pr_columns pr ++ columns /\
  pr_window_funcs (foldl push_item pr (entries columns aggregates)) = pr_window_funcs pr.
Proof.
  induction columns as [|c cs IH]; intros aggregates pr; [by rewrite app_nil_r|]. cbn [entries].
  assert (Hcol : forall aggs, pr_columns (foldl push_item pr (Col c :: entries cs aggs)) = pr_columns pr ++ c :: cs /\
    pr_window_funcs (foldl push_item pr (Col c :: entries cs aggs)) = pr_window_funcs pr).
  { intros aggs. cbn [foldl]. destruct (IH aggs (push_item pr (Col c))) as [-> ->]. cbn. by rewrite <- app_assoc. }
  destruct aggregates as [|[[a f] col] aggs]; [apply Hcol|]. case_decide as Hac; [|apply Hcol]. subst a.
  cbn [foldl]. destruct (IH aggs (push_item pr (AggItem c f col))) as [-> ->]. cbn. by rewrite <- app_assoc.
Qed.

(** The fields of a statement that its core sets. *)
Definition core_ok (s : SelectStatement) : bool :=
  let '(mkSelect columns star table filter joins group_by aggregates _ _ _ _ having _) := s in
  (if star then bool_decide (columns = []) && bool_decide (aggregates = [])
   else negb (bool_decide (columns = [])) && forallb item_ok (entries columns aggregates) &&
        bool_decide (pr_aggregates (foldl push_item (mkProjection [] [] []) (entries columns aggregates)) = aggregates)) &&
  table_ok table && forallb join_ok joins && where_ok filter &&
  match having with Some e => condition_ok e && resolved e | None => true end.

Definition print_core (s : SelectStatement) : list Tok :=
  let '(mkSelect columns star table filter joins group_by aggregates _ _ _ _ having _) := s in
  print_projection star columns aggregates ++ kw "FROM" :: print_table_ref table ++
  concat (map print_join joins) ++ print_where filter ++ print_group group_by ++ print_having having.

Definition core_of (s : SelectStatement) : SelectStatement :=
  let '(mkSelect columns star table filter joins group_by aggregates _ _ _ _ having _) := s in
  mkSelect columns star table filter joins group_by aggregates [] [] None None having [].

Lemma begins_clauses f g h t rest : begins ["ORDER"; "LIMIT"] (t :: rest) ->
  begins ["WHERE"; "GROUP"; "HAVING"; "ORDER"; "LIMIT"] ((print_where f ++ print_group g ++ print_having h) ++ t :: rest).
Proof.
  intros Hb. destruct f as [e|]; [cbn; apply begins_kw; repeat constructor|].
  destruct g as [|c cs]; [|cbn; apply begins_kw; repeat constructor].
  destruct h as [e|]; [cbn; apply begins_kw; repeat constructor|]. cbn [app print_where print_group print_having].
  eapply begins_mono; [exact Hb|]. intros w Hw. do 3 right. exact Hw.
Qed.

Lemma eats_core s t rest : core_ok s = true -> begins ["ORDER"; "LIMIT"] (t :: rest) ->
  eats 0 (parse_select_core top) (print_core s) (t :: rest) (core_of s).
Proof.
  intros Hok Hb. destruct s as [columns star table filter joins group_by aggregates wins obs cos lim having ctes].
  cbn [core_ok print_core core_of] in *. rewrite !andb_true_iff in Hok. destruct Hok as ((((Hpr & Htb) & Hjs) & Hwh) & Hhv).
  destruct (begins_clauses filter group_by having t rest Hb) as (t1 & l1 & E1 & Ht1).
  assert (Hb1 : begins ["WHERE"; "GROUP"; "HAVING"; "ORDER"; "LIMIT"] (t1 :: l1)) by (rewrite <- E1; by apply begins_clauses).
  assert (Hj : exists t2 l2, concat (map print_join joins) ++ t1 :: l1 = t2 :: l2 /\ ends t2 = true).
  { destruct joins as [|[jt tb e] js]; [by apply (begins_ends _ _ Hb1)|]. destruct jt; cbn; eauto. }
  destruct Hj as (t2 & l2 & E2 & Ht2).
  assert (Hfold : foldl push_item (mkProjection [] [] []) (entries columns aggregates) = mkProjection columns aggregates []).
  { destruct (entries_push columns aggregates (mkProjection [] [] [])) as [Hc Hw].
    assert (Ha : pr_aggregates (foldl push_item (mkProjection [] [] []) (entries columns aggregates)) = aggregates).
    { destruct star; [|by rewrite !andb_true_iff, !bool_decide_eq_true in Hpr; destruct Hpr as [_ ?]].
      apply andb_true_iff in Hpr as [->%bool_decide_eq_true ->%bool_decide_eq_true]. done. }
    destruct (foldl _ _ _) as [pc pa pw]. cbn in *. by subst. }
  unfold parse_select_core. eapply eats_bind.
  { apply (eats_projection 0 star columns aggregates (kw "FROM")); [|done]. destruct star.
    - apply andb_true_iff in Hpr as [->%bool_decide_eq_true ->%bool_decide_eq_true]. done.
    - rewrite !andb_true_iff in Hpr. destruct Hpr as [[Hne%negb_true_iff%bool_decide_eq_false Hit] _]. done. }
  rewrite Hfold. cbn beta iota. apply eats_next.
  assert (Hfrom : is_word (kw "FROM") "from" = true) by done. rewrite Hfrom.
  eapply eats_bind; [rewrite <- app_assoc, E1, E2; by apply eats_table_ref|].
  eapply eats_bind; [rewrite E1; by apply eats_joins|].
  rewrite <- (app_nil_r (print_where filter ++ _)). eapply eats_bind.
  { apply eats_clauses; [done| |done]. destruct having; [by apply andb_true_iff in Hhv as [? _]|done]. }
  cbn beta iota. cbn [pr_columns pr_aggregates pr_window_funcs].
  replace (resolve_having_aliases aggregates <$> having) with having; [apply eats_ret|].
  destruct having as [e|]; [|done]. cbn. apply andb_true_iff in Hhv as [_ Hr]. by rewrite resolve_resolved.
Qed.

Lemma eats_no_operations t rest : begins ["ORDER"; "LIMIT"] (t :: rest) -> eats 0 parse_operations [] (t :: rest) [].
Proof.
  intros Hb. unfold parse_operations. eapply eats_loop; [apply loops_done|cbn; lia].
  intros pre. cbn [app]. rewrite app_nil_r. unfold mbind at 1, M_bind at 1, save. cbn beta iota.
  rewrite (bind_ok _ _ _ None (mk pre (t :: rest) 0)); [reflexivity|]. unfold parse_set_op. rewrite run_peek.
  rewrite !(begins_not _ _ _ _ _ Hb eq_refl) by reflexivity. reflexivity.
Qed.

(** What follows SELECT is not a list of literals. *)
Lemma no_literals pre t l d : is_word t "null" = false -> is_word t "true" = false -> is_word t "false" = false ->
  (t = Star \/ exists s, t = Ident s) ->
  try_parse_select_literal (mk pre (t :: l) d) = (Ok None, mk pre (t :: l) d).
Proof.
  intros H1 H2 H3 Ht.
  assert (Hlit : exists e, parse_literal (mk pre (t :: l) d) = (Err e, mk (pre ++ [t]) l d)).
  { eexists. unfold parse_literal. rewrite run_next. destruct Ht as [->|[s ->]]; [reflexivity|].
    rewrite H1, H2, H3. reflexivity. }
  destruct Hlit as [e Hlit]. unfold try_parse_select_literal, comma_list.
  assert (Hloop : forall (body : list SelectLiteralItem -> P (list SelectLiteralItem + list SelectLiteralItem)),
    body [] (mk pre (t :: l) d) = (Err e, mk (pre ++ [t]) l d) ->
    ts_loop body [] (mk pre (t :: l) d) = (Err e, mk (pre ++ [t]) l d)).
  { intros body Hb. unfold ts_loop. cbn [m_loop]. by apply bind_err. }
  rewrite Hloop by (apply bind_err, bind_err, Hlit).
  unfold mbind, M_bind, restore, mret, M_ret, set_pos, mk. cbn. rewrite <- app_assoc. reflexivity.
Qed.

Definition print_tail (s : SelectStatement) : list Tok :=
  print_orders (order_by s) ++ print_cosine (order_by_cosine s) ++ print_limit (limit s).

Lemma select_parts s : select_ok s = true ->
  core_ok s = true /\ orders_ok (order_by s) = true /\
  (match limit s with Some v => limit_ok v | None => true end) = true /\
  (match order_by_cosine s with Some c => name_ok (obc_column c) && limit_ok (k c) && Nat.eqb (param c) 1 | None => true end) = true /\
  forallb name_ok (group_by s) = true /\
  set_tail (order_by s) (order_by_cosine s) (limit s) (set_with_ctes [] (core_of s)) = s.
Proof.
  destruct s as [columns star table filter joins group aggregates windows obs cos lim having ctes].
  cbn [select_ok core_ok Ast.group_by Ast.order_by Ast.limit Ast.order_by_cosine core_of]. rewrite !andb_true_iff, !bool_decide_eq_true.
  intros ((((((((((Hw & Hc) & Hpr) & Htb) & Hjs) & Hwh) & Hgr) & Hhv) & Ho) & Hl) & Hcos).
  destruct windows; [|done]. destruct ctes; [|done]. repeat split; auto.
Qed.

Lemma print_select_parts s : print_select s = kw "SELECT" :: print_core s ++ print_tail s.
Proof. destruct s. cbn [print_select print_core print_tail Ast.order_by Ast.limit Ast.order_by_cosine]. unfold print_tail. cbn [Ast.order_by Ast.limit Ast.order_by_cosine]. f_equal. rewrite <- !app_assoc. f_equal. cbn [app]. rewrite <- !app_assoc. reflexivity. Qed.

Lemma begins_tail s rest : begins ["ORDER"; "LIMIT"] (print_tail s ++ Eof :: rest).
Proof.
  unfold print_tail. destruct (order_by s) as [|o os]; [|cbn; apply begins_kw; left].
  destruct (order_by_cosine s) as [c|]; [cbn; apply begins_kw; left|].
  destruct (limit s) as [v|]; [cbn; apply begins_kw; right; left|apply begins_eof].
Qed.

Lemma eats_select s : select_ok s = true ->
  eats 0 (parse_select_or_compound []) (print_core s ++ print_tail s) [Eof] (Select s).
Proof.
  intros Hs. destruct (select_parts s Hs) as (Hcore & Ho & Hl & Hc & _ & Hset).
  destruct (begins_tail s []) as (t & l & Et & Ht).
  assert (Hb : begins ["ORDER"; "LIMIT"] (t :: l)) by (rewrite <- Et; apply begins_tail).
  unfold parse_select_or_compound. eapply eats_bind; [rewrite Et; by apply eats_core|].
  eapply (eats_bind _ _ _ [] (print_tail s) _ []); [rewrite Et; by apply eats_no_operations|].
  rewrite <- (app_nil_r (print_tail s)). eapply eats_bind.
  - replace (order_by (set_with_ctes [] (core_of s)), limit _, order_by_cosine _) with (([], None, None) : tail_state) by by destruct s.
    by apply eats_select_tail.
  - cbn beta iota. rewrite Hset. apply eats_ret.
Qed.

(** The first token after SELECT. *)
Lemma item_head i : item_ok i = true -> exists s l, print_item i = Ident s :: l /\
  is_word (Ident s) "null" = false /\ is_word (Ident s) "true" = false /\ is_word (Ident s) "false" = false.
Proof.
  destruct i as [c|a f c]; cbn [item_ok print_item].
  - unfold rhs_ok, print_name. destruct (split_dots c) as [p ps]. cbn [fst].
    rewrite !andb_true_iff, !negb_true_iff. intros (((_ & H1) & H2) & H3). eauto 10.
  - intros _. unfold print_agg. cbn [app]. eexists _, _. split; [reflexivity|]. by destruct f.
Qed.

Lemma entries_head c cs aggregates : exists i l, entries (c :: cs) aggregates = i :: l.
Proof. cbn [entries]. destruct aggregates as [|[[a f] col] aggs]; [eauto|]. case_decide; eauto. Qed.

Lemma core_head s rest : core_ok s = true -> exists t l, print_core s ++ rest = t :: l /\
  is_word t "null" = false /\ is_word t "true" = false /\ is_word t "false" = false /\ (t = Star \/ exists n, t = Ident n).
Proof.
  destruct s as [columns star table filter joins group aggregates windows obs cos lim having ctes].
  cbn [core_ok print_core]. rewrite !andb_true_iff. intros ((((Hpr & _) & _) & _) & _).
  unfold print_projection. destruct star; [cbn [app]; eexists _, _; (split; [reflexivity|]); auto|].
  rewrite !andb_true_iff in Hpr. destruct Hpr as [[Hne%negb_true_iff%bool_decide_eq_false Hit] _].
  destruct columns as [|c cs]; [done|]. destruct (entries_head c cs aggregates) as (i & l & E). rewrite E in *.
  cbn [forallb] in Hit. apply andb_true_iff in Hit as [Hi _]. destruct (item_head i Hi) as (n & l' & Ei & H1 & H2 & H3).
  cbn [comma_sep]. rewrite Ei. cbn [app]. eexists _, _. split; [reflexivity|]. eauto 10.
Qed.

(** A computation that leaves the tokens as they are. *)
Lemma eats_looking {A B} d (m : P A) (f : A -> P B) toks rest a b :
  (forall pre, m (mk pre (toks ++ rest) d) = (Ok a, mk pre (toks ++ rest) d)) ->
  eats d (f a) toks rest b -> eats d (m ≫= f) toks rest b.
Proof. intros Hm Hf pre. rewrite (bind_ok _ _ _ _ _ (Hm pre)). apply Hf. Qed.

Lemma eats_statement s : select_ok s = true -> eats 0 parse_statement_ts (print_select s ++ [Eof]) [] (Select s).
Proof.
  intros Hs. destruct (select_parts s Hs) as (Hcore & _). rewrite print_select_parts. cbn [app].
  unfold parse_statement_ts. apply eats_next. cbn beta iota.
  assert (Hw : is_word (kw "SELECT") "with" = false /\ is_word (kw "SELECT") "select" = true) by done.
  destruct Hw as [-> ->].
  apply (eats_looking 0 try_parse_select_literal _ _ _ None).
  - intros pre. rewrite <- !app_assoc.
    destruct (core_head s (print_tail s ++ [Eof] ++ []) Hcore) as (t & l & E & H1 & H2 & H3 & Ht).
    rewrite E. by apply no_literals.
  - eapply eats_bind; [by apply eats_select|apply eats_eof].
Qed.

(** *** The printed tokens have texts *)

Abbreviation toks_ok := (forallb tok_ok).

Lemma forallb_map {A} (f : A -> bool) (pr : A -> list Tok) l :
  (forall x, f x = true -> toks_ok (pr x) = true) -> forallb f l = true -> toks_ok (concat (map pr l)) = true.
Proof.
  intros Hf. induction l as [|x l IH]; [done|]. cbn [forallb map concat]. rewrite forallb_app, !andb_true_iff.
  intros [Hx Hl]. split; [by apply Hf|by apply IH].
Qed.

Lemma comma_toks_ok {A} (f : A -> bool) (pr : A -> list Tok) l :
  (forall x, f x = true -> toks_ok (pr x) = true) -> forallb f l = true -> toks_ok (comma_sep pr l) = true.
Proof. intros Hf Hl. apply comma_sep_ok. intros x Hx. rewrite forallb_forall in Hl. by apply Hf, Hl, list_elem_of_In. Qed.

Lemma alias_toks_ok a : match a with Some a => name_ok a | None => true end = true -> toks_ok (print_alias a) = true.
Proof. destruct a as [a|]; [|done]. intros Ha. cbn. by rewrite name_toks_ok. Qed.

Lemma item_toks_ok i : item_ok i = true -> toks_ok (print_item i) = true.
Proof.
  destruct i as [c|a f c]; cbn [item_ok print_item]; [intros Hc; by apply name_toks_ok, rhs_name_ok|].
  intros [Hc Ha]%andb_true_iff. rewrite forallb_app, agg_toks_ok by done. apply alias_toks_ok.
  case_decide as Hd; [done|]. by rewrite bool_decide_false in Ha.
Qed.

Lemma table_toks_ok tb : table_ok tb = true -> toks_ok (print_table_ref tb) = true.
Proof.
  destruct tb as [n a|]; [|done]. cbn [table_ok print_table_ref]. rewrite !andb_true_iff. intros [[Hn _] Ha].
  rewrite forallb_app, name_toks_ok by done. by apply alias_toks_ok.
Qed.

Lemma condition_toks_ok e : condition_ok e = true -> toks_ok (print_expr 0 e) = true.
Proof. intros [He _]%andb_true_iff. by apply expr_toks_ok. Qed.

Lemma join_toks_ok j : join_ok j = true -> toks_ok (print_join j) = true.
Proof.
  destruct j as [jtype tb e]. cbn [join_ok print_join]. intros [Htb He]%andb_true_iff.
  rewrite !forallb_app, table_toks_ok by done. assert (Hw : toks_ok (join_words jtype) = true) by by destruct jtype.
  rewrite Hw. destruct e as [e|]; [|done]. cbn [print_on]. apply condition_toks_ok. by destruct jtype.
Qed.

Lemma limit_toks_ok v : limit_ok v = true -> tok_ok (Int v) = true.
Proof.
  unfold limit_ok, MAX_LIMIT. rewrite andb_true_iff, !Z.leb_le. intros Hv. cbn [tok_ok].
  rewrite andb_true_iff, Z.leb_le, Z.ltb_lt. lia.
Qed.

Lemma orders_toks_ok l : orders_ok l = true -> toks_ok (print_orders l) = true.
Proof.
  destruct l as [|o os]; [done|]. unfold orders_ok, print_orders. intros [Ho _]%andb_true_iff.
  cbn [forallb]. apply (comma_toks_ok (fun o => is_ident (ob_column o))); [|exact Ho].
  intros [c []]; cbn; rewrite andb_true_r; auto.
Qed.

Lemma select_toks_ok s : select_ok s = true -> toks_ok (print_select s) = true.
Proof.
  intros Hs. destruct (select_parts s Hs) as (_ & Ho & Hl & Hcos & Hgr & _). rewrite print_select_parts. cbn [forallb].
  rewrite forallb_app. apply andb_true_iff. split; [done|]. apply andb_true_iff. split.
  - destruct s as [columns star table filter joins group aggregates windows obs cos lim having ctes].
    cbn [select_ok print_core Ast.group_by] in *. rewrite !andb_true_iff in Hs.
    destruct Hs as ((((((((((_ & _) & Hpr) & Htb) & Hjs) & Hwh) & _) & Hhv) & _) & _) & _).
    rewrite forallb_app. cbn [forallb]. rewrite !forallb_app, table_toks_ok, where_toks_ok by done.
    rewrite (forallb_map join_ok print_join) by (try done; apply join_toks_ok). apply andb_true_iff. split; [|cbn; apply andb_true_iff; split].
    + unfold print_projection. destruct star; [done|]. rewrite !andb_true_iff in Hpr.
      apply (comma_toks_ok item_ok); [apply item_toks_ok|tauto].
    + destruct group as [|c cs]; [done|]. apply (comma_toks_ok name_ok); [apply name_toks_ok|done].
    + destruct having as [e|]; [|done]. cbn. apply andb_true_iff in Hhv as [He _]. by apply condition_toks_ok.
  - unfold print_tail. rewrite !forallb_app, orders_toks_ok by done. apply andb_true_iff. split; [done|apply andb_true_iff; split].
    + destruct (order_by_cosine s) as [c|]; [|done]. rewrite !andb_true_iff in Hcos. destruct Hcos as ((Hn & Hk) & _).
      unfold print_cosine. cbn [forallb]. rewrite forallb_app, name_toks_ok by done. cbn [forallb]. by rewrite limit_toks_ok.
    + destruct (limit s) as [v|]; [|done]. cbn [print_limit forallb]. by rewrite limit_toks_ok.
Qed.

(** C20: the text of a query over tables (its columns and
    aggregates with their aliases, its joins of every kind with their conditions,
    its WHERE, GROUP BY and HAVING, its ordering or cosine ordering, and its
    limit) is parsed back to exactly the query it was printed from.  Covered
    are the queries of [select_ok]: no float or vector literals in conditions,
    no subqueries, window calls or common table expressions, and no names that
    read as keywords. *)
Theorem select_roundtrip (s : SelectStatement) :
  select_ok s = true -> parse_statement (render (print_select s)) = Ok (Select s).
Proof.
  intros Hs. unfold parse_statement, new. rewrite tokenize_render.
  2: { apply Forall_forall. intros t Ht. assert (Ha := select_toks_ok s Hs).
       rewrite forallb_forall in Ha. by apply Ha, list_elem_of_In. }
  assert (He := eats_statement s Hs []). rewrite app_nil_r in He. unfold mk in He. cbn [app length] in He. by rewrite He.
Qed.

End WithFmt.

(** ** A query with joins, aggregates and both orders of clauses *)

#[local] Instance demo_fmt : Fmt := {| tok_debug _ := []; f32_display _ := [] |}.

Definition demo_query : SelectStatement :=
  mkSelect [lit "u.name"; lit "n"; Expr.agg_default_alias Sum (lit "o.total")] false
    (Named (lit "app.users") (Some (lit "u")))
    (Some (Or (Cmp (lit "u.name") Ne (LText (lit "O'Brien"))) (IsNull (lit "u.age") false)))
    [mkJoin Left (Named (lit "orders") (Some (lit "o"))) (Some (CmpColumn (lit "u.id") Eq (lit "o.uid")));
     mkJoin Cross (Named (lit "tags") None) None]
    [lit "u.name"] [(lit "n", Count, lit "*"); (Expr.agg_default_alias Sum (lit "o.total"), Sum, lit "o.total")] []
    [mkOrderBy (lit "n") true; mkOrderBy (lit "name") false] None (Some 10%Z)
    (Some (Cmp (lit "n") Gt (LInt 1))) [].

Example demo_query_text :
  string_of_list_byte (render (print_select demo_query)) =
  "SELECT u . name , COUNT ( * ) AS n , SUM ( o . total ) FROM app . users AS u LEFT JOIN orders AS o ON u . id = o . uid CROSS JOIN tags WHERE u . name <> 'O''Brien' OR u . age IS NULL GROUP BY u . name HAVING n > 1 ORDER BY n DESC , name LIMIT 10 ".
Proof. vm_compute. reflexivity. Qed.

Lemma select_roundtrip_witness :
  select_ok demo_query = true /\ parse_statement (render (print_select demo_query)) = Ok (Select demo_query).
Proof. split; [vm_compute; reflexivity|apply (select_roundtrip demo_query); vm_compute; reflexivity]. Defined.
