(* ===== verification/Aggregate.v ===== *)
(** * Aggregate: [GROUP BY] and the aggregate functions
    ([crates/tpt-archon-relational/src/executor/aggregate.rs])

    The [BTreeMap] of groups is its sorted list of entries.  Sums of floats are
    taken in binary64 and rounded to binary32 at the end, as in the code; the
    integer sum is an [i64] that wraps. *)
From Stdlib Require Import ZArith Lia Strings.Byte Strings.String Floats.SpecFloat.
From stdpp Require Import base numbers option list sets sorting.
From S2P Require Import Prelude Ast Value Expr.

Module Aggregate.
Import Ast(str, lit, f32, AggregateFunc).
Import Value(Value, Int, Float, Text, Vector, Bool, Null, ExecError, cmp).
Import Expr(obind).

(** ** Double-precision sums *)

Abbreviation f64 := spec_float.

Definition f64_add : f64 -> f64 -> f64 := SFadd 53 1024.
Definition f64_div : f64 -> f64 -> f64 := SFdiv 53 1024.
(** [v as f64] of an [i64] or [u64]. *)
Definition f64_of_int (v : Z) : f64 := binary_normalize 53 1024 v 0 false.

(** Conversions between the two widths round to nearest. *)
Definition convert (prec emax : Z) (x : spec_float) : spec_float :=
  match x with
  | S754_finite s m e => binary_normalize prec emax (cond_Zopp s (Zpos m)) e s
  | _ => x
  end.
Definition f64_of_f32 (f : f32) : f64 := convert 53 1024 (Value.f32_spec f).
Definition f32_of_f64 (x : f64) : f32 := Value.f32_bits (convert 24 128 x).

(** ** Aggregate functions *)

(** [r[idx]] for every row, in order. *)
Fixpoint cells {E} (idx : nat) (rows : list (list Value)) : outcome E (list Value) :=
  match rows with
  | [] => Ok []
  | r :: rows' =>
      match r !! idx with
      | Some v => obind (cells idx rows') (fun vs => Ok (v :: vs))
      | None => Panic
      end
  end.

(** The state of the [Sum] loop. *)
Record sums : Type := mkSums { int_sum : Z; float_sum : f64; saw_float : bool; any : bool }.

Definition sum_step (s : sums) (v : Value) : sums :=
  match v with
  | Int v => mkSums (wrap_i64 (int_sum s + v)) (f64_add (float_sum s) (f64_of_int v)) (saw_float s) true
  | Float v => mkSums (int_sum s) (f64_add (float_sum s) (f64_of_f32 v)) true true
  | _ => s
  end.

Definition sum_values (vs : list Value) : Value :=
  let s := foldl sum_step (mkSums 0 (S754_zero false) false false) vs in
  if negb (any s) then Null
  else if saw_float s then Float (f32_of_f64 (float_sum s))
  else Int (int_sum s).

Definition avg_step (s : f64 * Z) (v : Value) : f64 * Z :=
  match v with
  | Int v => (f64_add s.1 (f64_of_int v), (s.2 + 1)%Z)
  | Float v => (f64_add s.1 (f64_of_f32 v), (s.2 + 1)%Z)
  | _ => s
  end.

Definition avg_values (vs : list Value) : Value :=
  let '(sum, count) := foldl avg_step (S754_zero false, 0%Z) vs in
  if (count =? 0)%Z then Null else Float (f32_of_f64 (f64_div sum (f64_of_int count))).

Definition numeric (v : Value) : bool := match v with Int _ | Float _ => true | _ => false end.

(** [Iterator::min] keeps the first of equals, [Iterator::max] the last. *)
Definition min_of (vs : list Value) : option Value :=
  match vs with
  | [] => None
  | v :: vs' => Some (foldl (fun a b => match cmp a b with Gt => b | _ => a end) v vs')
  end.
Definition max_of (vs : list Value) : option Value :=
  match vs with
  | [] => None
  | v :: vs' => Some (foldl (fun a b => match cmp a b with Gt => a | _ => b end) v vs')
  end.

Definition index_of (name : str) (columns : list str) : option nat :=
  position (fun c => bool_decide (c = name)) columns.

Definition eval_aggregate (func : AggregateFunc) (column : str) (columns : list str)
    (rows : list (list Value)) : outcome ExecError Value :=
  match func with
  | Ast.Count => Ok (Int (Z.of_nat (length rows)))
  | _ =>
      match index_of column columns with
      | None => Err (Value.UnknownColumn column)
      | Some idx =>
          obind (cells idx rows) (fun vs =>
          match func with
          | Ast.Count => Panic
          | Ast.Sum => Ok (sum_values vs)
          | Ast.Avg => Ok (avg_values vs)
          | Ast.Min => Ok (default Null (min_of (List.filter numeric vs)))
          | Ast.Max => Ok (default Null (max_of (List.filter numeric vs)))
          end)
      end
  end.

(** One value per aggregate, in order; the first error ends it. *)
Fixpoint eval_aggregates (aggregates : list (str * AggregateFunc * str)) (columns : list str)
    (rows : list (list Value)) : outcome ExecError (list Value) :=
  match aggregates with
  | [] => Ok []
  | (_, func, col) :: rest =>
      obind (eval_aggregate func col columns rows) (fun v =>
      obind (eval_aggregates rest columns rows) (fun vs => Ok (v :: vs)))
  end.

(** ** Grouping *)

(** [Vec<Value>]'s [Ord]: lexicographic. *)
Definition key_cmp : list Value -> list Value -> comparison := Value.lex_cmp cmp.

(** [groups.entry(key).or_default().push(row)]. *)
Fixpoint push_group {A} (key : list Value) (row : A)
    (groups : list (list Value * list A)) : list (list Value * list A) :=
  match groups with
  | [] => [(key, [row])]
  | (k, rs) :: groups' =>
      match key_cmp key k with
      | Lt => (key, [row]) :: groups
      | Eq => (k, rs ++ [row]) :: groups'
      | Gt => (k, rs) :: push_group key row groups'
      end
  end.

(** [gb_indices.iter().map(|&i| row[i].clone()).collect()]. *)
Fixpoint key_of {E} (indices : list nat) (row : list Value) : outcome E (list Value) :=
  match indices with
  | [] => Ok []
  | i :: indices' =>
      match row !! i with
      | Some v => obind (key_of indices' row) (fun vs => Ok (v :: vs))
      | None => Panic
      end
  end.

Fixpoint group_rows (indices : list nat) (rows : list (list Value))
    (groups : list (list Value * list (list Value)))
    : outcome ExecError (list (list Value * list (list Value))) :=
  match rows with
  | [] => Ok groups
  | row :: rows' =>
      obind (key_of indices row) (fun key => group_rows indices rows' (push_group key row groups))
  end.

(** The index of every [GROUP BY] column, or the first that is missing. *)
Fixpoint group_indices (group_by columns : list str) : outcome ExecError (list nat) :=
  match group_by with
  | [] => Ok []
  | c :: rest =>
      match index_of c columns with
      | Some i => obind (group_indices rest columns) (fun is_ => Ok (i :: is_))
      | None => Err (Value.GroupByColumnNotFound c)
      end
  end.

(** The loop over [groups.values()]: the grouping columns of the first row, then
    the aggregates of the group. *)
Fixpoint group_outputs (indices : list nat) (aggregates : list (str * AggregateFunc * str))
    (columns : list str) (groups : list (list Value * list (list Value)))
    : outcome ExecError (list (list Value)) :=
  match groups with
  | [] => Ok []
  | (_, rs) :: groups' =>
      match rs with
      | [] => Panic
      | first :: _ =>
          obind (key_of indices first) (fun k =>
          obind (eval_aggregates aggregates columns rs) (fun vs =>
          obind (group_outputs indices aggregates columns groups') (fun out => Ok ((k ++ vs) :: out))))
      end
  end.

Definition aggregate_table (columns : list str) (rows : list (list Value)) (group_by : list str)
    (aggregates : list (str * AggregateFunc * str)) : outcome ExecError Value.ResultSet :=
  let aliases := map (fun a => fst (fst a)) aggregates in
  match group_by with
  | [] =>
      obind (eval_aggregates aggregates columns rows) (fun out_row =>
      Ok (Value.mkResult aliases [out_row] None))
  | _ =>
      obind (group_indices group_by columns) (fun gb_indices =>
      obind (group_rows gb_indices rows []) (fun groups =>
      obind (group_outputs gb_indices aggregates columns groups) (fun out_rows =>
      Ok (Value.mkResult (group_by ++ aliases) out_rows None))))
  end.

(** ** The groups are exact *)

Abbreviation group A := (list Value * list A)%type.

Definition key_wf (k : list Value) : Prop := Forall Value.value_wf k.
Definition key_lt (a b : list Value) : Prop := key_cmp a b = Lt.

Lemma key_laws : Value.order_laws key_wf key_cmp.
Proof. apply Value.lex_laws, Value.cmp_laws. Qed.

Definition sorted_groups {A} (gs : list (group A)) : Prop :=
  StronglySorted key_lt gs.*1 /\ Forall key_wf gs.*1.

(** Keys that are sorted strictly do not repeat the head. *)
Lemma head_not_later (k : list Value) (ks : list (list Value)) :
  key_wf k -> Forall key_wf ks -> Forall (key_lt k) ks -> k ∉ ks.
Proof.
  intros Hk Hw Hlt Hin. rewrite Forall_forall in Hlt. specialize (Hlt k Hin).
  unfold key_lt in Hlt. destruct key_laws as [H1 _ _].
  assert (key_cmp k k = Eq) by by apply H1. congruence.
Qed.

(** The keys stay strictly sorted. *)
Lemma push_group_sorted {A} key (row : A) gs :
  key_wf key -> sorted_groups gs -> sorted_groups (push_group key row gs) /\
  forall k, k ∈ (push_group key row gs).*1 <-> k = key \/ k ∈ gs.*1.
Proof.
  destruct key_laws as [L1 L2 L3]. intros Hkey. induction gs as [|[k0 rs0] gs IH]; intros [Hs Hw].
  { split; [split; repeat constructor; done|]. simpl. set_solver. }
  simpl in *. apply StronglySorted_inv in Hs as [Hs Hlt]. apply Forall_cons_1 in Hw as [Hk0 Hw].
  destruct (IH (conj Hs Hw)) as [[IHs IHw] IHk].
  destruct (key_cmp key k0) eqn:E; simpl.
  - apply L1 in E as ->; [|done..]. split; [by split; constructor|set_solver].
  - split; [|set_solver]. split; [|by repeat constructor].
    constructor; [by constructor|]. constructor; [done|].
    rewrite Forall_forall in Hlt, Hw |- *. intros k Hk. unfold key_lt in *. eapply (L3 key k0); auto.
  - split; [|intros k; rewrite elem_of_cons, IHk, elem_of_cons; tauto]. split; [|by constructor]. constructor; [done|].
    rewrite Forall_forall in Hlt |- *. intros k Hk. apply IHk in Hk as [->|Hk]; [|auto].
    unfold key_lt. specialize (L2 key k0). by rewrite E in L2.
Qed.

(** What the groups hold after a push. *)
Lemma push_group_elem {A} key (row : A) gs k rs :
  key_wf key -> sorted_groups gs ->
  (k, rs) ∈ push_group key row gs ->
  (k <> key /\ (k, rs) ∈ gs) \/
  (k = key /\ ((exists rs0, (k, rs0) ∈ gs /\ rs = rs0 ++ [row]) \/ (k ∉ gs.*1 /\ rs = [row]))).
Proof.
  destruct key_laws as [L1 L2 L3]. intros Hkey. induction gs as [|[k0 rs0] gs IH]; intros [Hs Hw] Hin.
  { simpl in Hin. apply list_elem_of_singleton in Hin as [= -> ->]. right. split; [done|].
    right. split; [|done]. apply not_elem_of_nil. }
  simpl in Hs, Hw, Hin. apply StronglySorted_inv in Hs as [Hs Hlt]. apply Forall_cons_1 in Hw as [Hk0 Hw].
  destruct (key_cmp key k0) eqn:E.
  - apply L1 in E as ->; [|done..]. apply elem_of_cons in Hin as [[= -> ->]|Hin].
    + right. split; [done|]. left. exists rs0. split; [left|done].
    + left. split; [|by right]. intros ->. eapply head_not_later; [done|exact Hw|exact Hlt|].
      apply list_elem_of_fmap. by exists (k0, rs).
  - apply elem_of_cons in Hin as [[= -> ->]|Hin].
    + right. split; [done|]. right. split; [|done]. simpl. intros [->|Hk]%elem_of_cons.
      * assert (key_cmp k0 k0 = Eq) by by apply L1. congruence.
      * rewrite Forall_forall in Hlt, Hw.
        assert (key_cmp key key = Lt) by (apply (L3 key k0 key); auto; by apply Hlt).
        assert (key_cmp key key = Eq) by by apply L1. congruence.
    + left. split; [|done]. intros ->.
      assert (Hk : key ∈ k0 :: gs.*1).
      { apply elem_of_cons in Hin as [[= -> _]|Hin]; [left|right].
        apply list_elem_of_fmap. by exists (key, rs). }
      apply elem_of_cons in Hk as [->|Hk].
      * assert (key_cmp k0 k0 = Eq) by by apply L1. congruence.
      * rewrite Forall_forall in Hlt, Hw.
        assert (key_cmp key key = Lt) by (apply (L3 key k0 key); auto; by apply Hlt).
        assert (key_cmp key key = Eq) by by apply L1. congruence.
  - apply elem_of_cons in Hin as [[= -> ->]|Hin].
    + left. split; [|left]. intros ->. assert (key_cmp key key = Eq) by by apply L1. congruence.
    + destruct (IH (conj Hs Hw) Hin) as [[H1 H2]|[-> [(rs1 & H1 & H2)|[H1 H2]]]].
      * left. split; [done|]. by right.
      * right. split; [done|]. left. exists rs1. split; [by right|done].
      * right. split; [done|]. right. split; [|done]. simpl. intros [->|Hk]%elem_of_cons; [|done].
        assert (key_cmp k0 k0 = Eq) by by apply L1. congruence.
Qed.

(** The groups of a list of rows, or of their indices, under a key function. *)
Record groups_exact {A} (key : A -> list Value) (rows : list A) (gs : list (group A))
    : Prop := {
  ge_sorted : sorted_groups gs;
  ge_group : forall k rs, (k, rs) ∈ gs -> rs = filter (fun r => key r = k) rows;
  ge_keys : forall k, k ∈ gs.*1 <-> exists r, r ∈ rows /\ key r = k;
}.

Lemma push_group_exact {A} (key : A -> list Value) rows gs row :
  key_wf (key row) -> groups_exact key rows gs ->
  groups_exact key (rows ++ [row]) (push_group (key row) row gs).
Proof.
  intros Hk [Hs Hg Hks]. destruct (push_group_sorted (key row) row gs Hk Hs) as [Hs' Hk'].
  split; [done| |].
  - intros k rs Hin. rewrite filter_app.
    destruct (push_group_elem _ _ _ _ _ Hk Hs Hin) as [[Hne H1]|[-> [(rs0 & H1 & ->)|[H1 ->]]]].
    + rewrite (Hg _ _ H1), filter_cons_False by (by intros <-). rewrite filter_nil. by rewrite app_nil_r.
    + rewrite (Hg _ _ H1), filter_cons_True by done. by rewrite filter_nil.
    + rewrite filter_cons_True, filter_nil by done.
      assert (Hnil : filter (fun r => key r = key row) rows = []); [|by rewrite Hnil].
      destruct (filter (fun r => key r = key row) rows) as [|r l] eqn:Ef; [done|].
      exfalso. apply H1, Hks. assert (Hr : r ∈ r :: l) by left. rewrite <- Ef in Hr.
      apply list_elem_of_filter in Hr as [Hr1 Hr2]. by exists r.
  - intros k. rewrite Hk', Hks. split.
    + intros [->|(r & Hr & Hkr)]; [exists row|exists r]; set_solver.
    + intros (r & [Hr|Hr]%elem_of_app & Hkr); [right; by exists r|].
      apply list_elem_of_singleton in Hr as ->. by left.
Qed.

(** The key function of the [GROUP BY] columns. *)
Definition row_key (indices : list nat) (r : list Value) : list Value :=
  map (fun i => default Null (r !! i)) indices.

Definition row_ok (width : nat) (r : list Value) : Prop := width <= length r /\ Forall Value.value_wf r.

Lemma key_of_ok {E} indices width r :
  row_ok width r -> Forall (fun i => i < width) indices ->
  key_of (E := E) indices r = Ok (row_key indices r) /\ key_wf (row_key indices r).
Proof.
  intros [Hl Hw] Hi. induction Hi as [|i indices Hi _ [IH1 IH2]]; [split; [done|constructor]|].
  simpl. destruct (lookup_lt_is_Some_2 r i) as [v Hv]; [lia|]. rewrite Hv, IH1. simpl.
  split; [done|]. constructor; [|done]. by eapply Forall_lookup in Hv.
Qed.

Lemma group_rows_exact indices width rows done_ gs :
  Forall (row_ok width) rows -> Forall (fun i => i < width) indices ->
  groups_exact (row_key indices) done_ gs ->
  exists gs', group_rows indices rows gs = Ok gs' /\
    groups_exact (row_key indices) (done_ ++ rows) gs'.
Proof.
  intros Hr Hi. revert done_ gs. induction Hr as [|row rows Hrow _ IH]; intros done_ gs Hg; simpl.
  - exists gs. by rewrite app_nil_r.
  - destruct (key_of_ok (E := ExecError) _ _ _ Hrow Hi) as [-> Hk]. simpl.
    destruct (IH (done_ ++ [row]) _ (push_group_exact _ _ _ _ Hk Hg)) as (gs' & E & Hg').
    exists gs'. split; [exact E|]. by rewrite <- app_assoc in Hg'.
Qed.

Lemma cells_ok {E} width idx rows :
  Forall (row_ok width) rows -> idx < width -> exists vs, cells (E := E) idx rows = Ok vs.
Proof.
  intros Hr Hi. induction Hr as [|r rows [Hl _] _ [vs IH]]; simpl; [eauto|].
  destruct (lookup_lt_is_Some_2 r idx) as [v ->]; [lia|]. rewrite IH. simpl. eauto.
Qed.

(** Every aggregate other than [COUNT] names a column of the table. *)
Definition aggregates_ok (columns : list str) (aggregates : list (str * AggregateFunc * str)) : Prop :=
  Forall (fun a => a.1.2 = Ast.Count \/ a.2 ∈ columns) aggregates.

Lemma index_of_Some name columns : name ∈ columns -> exists i, index_of name columns = Some i /\ i < length columns.
Proof.
  intros Hin. unfold index_of. destruct (position _ columns) as [i|] eqn:E.
  - exists i. split; [done|]. by eapply position_lt.
  - rewrite position_None in E. specialize (E name Hin). by apply bool_decide_eq_false in E.
Qed.

Lemma eval_aggregates_ok aggregates columns rows :
  aggregates_ok columns aggregates -> Forall (row_ok (length columns)) rows ->
  exists vs, eval_aggregates aggregates columns rows = Ok vs.
Proof.
  intros Ha Hr. induction Ha as [|[[alias func] col] aggregates Hc _ [vs IH]]; simpl in *; [eauto|].
  assert (Hv : exists v, eval_aggregate func col columns rows = Ok v).
  { unfold eval_aggregate. destruct (decide (func = Ast.Count)) as [->|Hne]; [eauto|].
    destruct Hc as [Hc|Hc]; [done|]. destruct (index_of_Some _ _ Hc) as (i & -> & Hi).
    destruct (cells_ok (E := ExecError) _ _ _ Hr Hi) as [cs ->]. simpl. destruct func; eauto. }
  destruct Hv as [v ->]. simpl. rewrite IH. simpl. eauto.
Qed.

Lemma group_indices_ok group_by columns :
  Forall (fun c => c ∈ columns) group_by ->
  exists is_, group_indices group_by columns = Ok is_ /\ Forall (fun i => i < length columns) is_ /\
    Forall2 (fun c i => columns !! i = Some c) group_by is_.
Proof.
  induction 1 as [|c group_by Hc _ (is_ & IH1 & IH2 & IH3)]; simpl; [exists []; by repeat constructor|].
  destruct (index_of_Some _ _ Hc) as (i & Hi & Hlt). rewrite Hi, IH1. simpl.
  exists (i :: is_). split_and!; [done|by constructor|]. constructor; [|done].
  unfold index_of in Hi. apply position_Some in Hi as (x & Hx & Hp & _).
  by apply bool_decide_eq_true in Hp as ->.
Qed.

Lemma group_outputs_ok indices aggregates columns rows gs gs' :
  aggregates_ok columns aggregates -> Forall (row_ok (length columns)) rows ->
  Forall (fun i => i < length columns) indices ->
  groups_exact (row_key indices) rows gs -> (forall g, g ∈ gs' -> g ∈ gs) ->
  exists out, group_outputs indices aggregates columns gs' = Ok out /\
    Forall2 (fun k o => exists vs, o = k ++ vs /\
      eval_aggregates aggregates columns (filter (fun r => row_key indices r = k) rows) = Ok vs) gs'.*1 out.
Proof.
  intros Ha Hr Hi [Hs Hg Hk] Hsub. induction gs' as [|[k rs] gs' IH]; simpl; [exists []; by repeat constructor|].
  assert (Hin : (k, rs) ∈ gs) by (apply Hsub; left). assert (Ers := Hg _ _ Hin).
  assert (Hrs : Forall (row_ok (length columns)) rs) by (rewrite Ers; apply Forall_forall; intros r [_ Hin']%list_elem_of_filter; by rewrite Forall_forall in Hr; auto).
  destruct rs as [|first rest] eqn:Efr.
  { exfalso. assert (Hkk : k ∈ gs.*1) by (apply list_elem_of_fmap; by exists (k, [])).
    apply Hk in Hkk as (r & Hrr & Hkr).
    assert (Hf : r ∈ filter (fun r => row_key indices r = k) rows) by by apply list_elem_of_filter.
    rewrite <- Ers in Hf. by apply not_elem_of_nil in Hf. }
  assert (Hfk : row_key indices first = k).
  { assert (Hf : first ∈ filter (fun r => row_key indices r = k) rows) by (rewrite <- Ers; left).
    by apply list_elem_of_filter in Hf as [? _]. }
  apply Forall_cons_1 in Hrs as Hrs'. destruct Hrs' as [Hfirst _].
  destruct (key_of_ok (E := ExecError) _ _ _ Hfirst Hi) as [-> _]. simpl. rewrite Hfk.
  destruct (eval_aggregates_ok aggregates columns (first :: rest) Ha Hrs) as [vs Evs].
  rewrite Evs. simpl. destruct IH as (out & -> & IH2); [intros g Hgg; apply Hsub; by right|].
  simpl. exists ((k ++ vs) :: out). split; [done|]. constructor; [|done].
  exists vs. split; [done|]. by rewrite <- Ers.
Qed.

(** ** Properties *)

(** C35: [GROUP BY] over existing columns never fails: the output has one row for each
    distinct combination of grouping values, in ascending order, holding those
    values and then the aggregates of exactly the rows that have them, in input
    order. *)
Theorem group_by_exact columns rows group_by aggregates :
  group_by <> [] -> Forall (fun c => c ∈ columns) group_by -> aggregates_ok columns aggregates ->
  Forall (row_ok (length columns)) rows ->
  exists indices ks out,
    Forall2 (fun c i => columns !! i = Some c) group_by indices /\
    aggregate_table columns rows group_by aggregates =
      Ok (Value.mkResult (group_by ++ map (fun a => a.1.1) aggregates) out None) /\
    StronglySorted key_lt ks /\
    (forall k, k ∈ ks <-> exists r, r ∈ rows /\ row_key indices r = k) /\
    Forall2 (fun k o => exists vs, o = k ++ vs /\
      eval_aggregates aggregates columns (filter (fun r => row_key indices r = k) rows) = Ok vs) ks out.
Proof.
  intros Hne Hgb Ha Hr. destruct (group_indices_ok _ _ Hgb) as (indices & Ei & Hi & Hcol).
  assert (H0 : groups_exact (row_key indices) [] []).
  { split; [split; constructor| |]; [by intros k rs ?%not_elem_of_nil|].
    intros k. split; [by intros ?%not_elem_of_nil|]. by intros (r & ?%not_elem_of_nil & _). }
  destruct (group_rows_exact indices (length columns) rows [] [] Hr Hi H0) as (gs & Eg & Hg).
  simpl in Hg.
  destruct (group_outputs_ok indices aggregates columns rows gs gs Ha Hr Hi Hg) as (out & Eo & Ho); [done|].
  exists indices, gs.*1, out. split; [done|]. split; [|split_and!; [apply Hg|apply Hg|done]].
  unfold aggregate_table. destruct group_by as [|c group_by]; [done|]. rewrite Ei. simpl.
  rewrite Eg. simpl. by rewrite Eo.
Qed.

Lemma group_by_exact_witness :
  exists out, aggregate_table [lit "d"; lit "n"] [[Text (lit "x"); Int 1]; [Null; Int 5]; [Text (lit "x"); Int 3]]
    [lit "d"] [(lit "s", Ast.Sum, lit "n")] = Ok (Value.mkResult [lit "d"; lit "s"] out None) /\
    length out = 2.
Proof.
  destruct (group_by_exact [lit "d"; lit "n"] [[Text (lit "x"); Int 1]; [Null; Int 5]; [Text (lit "x"); Int 3]]
    [lit "d"] [(lit "s", Ast.Sum, lit "n")]) as (is_ & ks & out & _ & E & _).
  - discriminate.
  - apply Forall_singleton. left.
  - apply Forall_singleton. right. right. left.
  - repeat constructor.
  - exists out. split; [exact E|]. vm_compute in E. injection E as <-. reflexivity.
Defined.

End Aggregate.
