(* ===== verification/Planner.v ===== *)
(** * Planner: from a [SELECT] to a plan
    ([crates/tpt-archon-relational/src/planner.rs])

    Costs are [u64] and wrap around (the release profile); [div_ceil] by zero
    panics. *)
From Stdlib Require Import ZArith Lia Strings.Byte Strings.String.
From stdpp Require Import base numbers option list.
From S2P Require Import Prelude Ast.

Module Planner.
Import Ast(str, lit, Expr, SelectStatement, OrderBy, AggregateFunc).

Record TableStats : Type := mkStats { row_count : Z }.

Inductive Dispatch : Type := Cpu | Gpu.

Inductive PlanNode : Type :=
| Scan (table : str) (vectorized : bool)
| Filter (expr : Expr) (input : PlanNode)
| Project (columns : list str) (star : bool) (input : PlanNode)
| Limit (n : Z) (input : PlanNode)
| Sort (columns : list OrderBy) (input : PlanNode)
| Aggregate (group_by : list str) (aggregates : list (str * AggregateFunc * str))
    (having : option Expr) (input : PlanNode)
| SubqueryScan (plan : Plan) (alias : str)

with Plan : Type :=
| mkPlan (root : PlanNode) (estimated_rows : Z) (dispatch : Dispatch).

Definition root (p : Plan) : PlanNode := let '(mkPlan r _ _) := p in r.
Definition estimated_rows (p : Plan) : Z := let '(mkPlan _ e _) := p in e.
Definition dispatch (p : Plan) : Dispatch := let '(mkPlan _ _ d) := p in d.

Definition VECTORIZE_ROW_THRESHOLD : Z := 1024.
Definition GPU_ROW_THRESHOLD : Z := 1000000.

Fixpoint selectivity (e : Expr) : Z * Z :=
  match e with
  | Ast.Cmp _ Ast.Eq _ => (1, 10)
  | Ast.Cmp _ Ast.Ne _ => (9, 10)
  | Ast.Cmp _ _ _ => (1, 3)
  | Ast.IsNull _ false => (1, 20)
  | Ast.IsNull _ true => (19, 20)
  | Ast.Like _ _ => (1, 5)
  | Ast.InInt _ values => (Z.of_nat (length values `max` 1), 100)
  | Ast.BetweenInt _ _ _ => (1, 3)
  | Ast.CmpColumn _ Ast.Eq _ => (1, 10)
  | Ast.CmpColumn _ _ _ => (1, 3)
  | Ast.And l r =>
      let '(a, b) := selectivity l in
      let '(c, d) := selectivity r in
      (Z.max (wrap64 (a * c)) 1, wrap64 (b * d))
  | Ast.Or l r =>
      let '(a, b) := selectivity l in
      let '(c, d) := selectivity r in
      let num := wrap64 (wrap64 (a * d) + wrap64 (c * b) - wrap64 (a * c)) in
      let den := wrap64 (b * d) in
      if (den <=? num)%Z then (1, 1) else (Z.max num 1, den)
  | Ast.Not inner =>
      let '(a, b) := selectivity inner in
      (Z.max (Z.max (b - a) 0) 1, b)
  | Ast.Exists_ _ | Ast.InSubquery _ _ | Ast.ScalarCmp _ _ _ => (1, 3)
  | Ast.Agg _ _ | Ast.AggCmp _ _ _ _ => (1, 3)
  | Ast.ExtractCmp _ _ _ _ => (1, 3)
  end%Z.

(** [u64::div_ceil]. *)
Definition div_ceil (a b : Z) : outcome Empty_set Z :=
  if (b =? 0)%Z then Panic else Ok ((a + b - 1) / b)%Z.

(** [gpu] is the crate's feature of that name. *)
Definition plan_select (gpu : bool) (stmt : SelectStatement) (stats : TableStats)
    : outcome Empty_set Plan :=
  let vectorized := (VECTORIZE_ROW_THRESHOLD <=? row_count stats)%Z in
  let node := Scan (Ast.name (Ast.table stmt)) vectorized in
  let filtered :=
    match Ast.filter stmt with
    | Some expr =>
        let '(num, den) := selectivity expr in
        match div_ceil (wrap64 (row_count stats * num)) den with
        | Ok e => Ok (e, Filter expr node)
        | Err e => Err e
        | Panic => Panic
        end
    | None => Ok (row_count stats, node)
    end in
  match filtered with
  | Err e => Err e
  | Panic => Panic
  | Ok (estimated, node) =>
      let '(estimated, node) :=
        if bool_decide (Ast.group_by stmt = []) && bool_decide (length (Ast.aggregates stmt) = 0)
        then (estimated, node)
        else
          (if bool_decide (Ast.group_by stmt = []) then estimated
           else Z.max ((estimated + 9) / 10) 1,
           Aggregate (Ast.group_by stmt) (Ast.aggregates stmt) (Ast.having stmt) node) in
      let node := Project (Ast.columns stmt) (Ast.star stmt) node in
      let node := match Ast.order_by stmt with [] => node | cols => Sort cols node end in
      let '(estimated, node) :=
        match Ast.limit stmt with
        | Some n => (Z.min estimated n, Limit n node)
        | None => (estimated, node)
        end in
      let d := if gpu && (GPU_ROW_THRESHOLD <=? row_count stats)%Z then Gpu else Cpu in
      Ok (mkPlan node estimated d)
  end.

(** ** The cost arithmetic overflows *)

(** A conjunction of [n + 1] equality tests. *)
Fixpoint eq_chain (n : nat) : Expr :=
  match n with
  | O => Ast.Cmp (lit "a") Ast.Eq (Ast.LInt 1)
  | S n' => Ast.And (Ast.Cmp (lit "a") Ast.Eq (Ast.LInt 1)) (eq_chain n')
  end.

Definition select_where (e : Expr) : SelectStatement :=
  Ast.mkSelect [] true (Ast.Named (lit "t") None) (Some e) [] [] [] [] [] None None None [].

(** Planning a query whose filter conjoins 64 equality tests panics, whatever the
    statistics: the denominator of its selectivity is 10^64, a multiple of 2^64,
    which wraps to zero. *)
Theorem planner_divides_by_zero stats gpu :
  plan_select gpu (select_where (eq_chain 63)) stats = Panic.
Proof.
  unfold plan_select. change (Ast.filter (select_where (eq_chain 63))) with (Some (eq_chain 63)).
  assert (E : selectivity (eq_chain 63) = (1, 0)%Z) by (vm_compute; reflexivity).
  cbv iota beta zeta. rewrite E. reflexivity.
Qed.

End Planner.
