(* ===== verification/Exec.v ===== *)
(** * Exec: walking a plan over a table
    ([crates/tpt-archon-relational/src/executor/exec.rs])

    [slice::sort_by] is a stable sort; the model inserts the rows one by one
    after their equals.  A row shorter than the column it is asked for panics. *)
From Stdlib Require Import ZArith Lia Strings.Byte Strings.String.
From stdpp Require Import base numbers option list sets sorting.
From S2P Require Import Prelude Ast Value Expr Aggregate Planner.

Module Exec.
Import Ast(str, lit, SelectStatement).
Import Value(Value, Int, Null, ExecError, cmp, ResultSet, mkResult).
Import Expr(obind, eval_expr).
Import Planner(PlanNode, Plan).

Definition BATCH_SIZE : nat := 1024.

(** [slice::chunks(n)]. *)
Fixpoint chunks_loop {A} (fuel n : nat) (l : list A) : list (list A) :=
  match fuel with
  | O => []
  | S fuel' => match l with [] => [] | _ => take n l :: chunks_loop fuel' n (drop n l) end
  end.
Definition chunks {A} (n : nat) (l : list A) : list (list A) := chunks_loop (length l) n l.

(** The inner loop of [Filter] over one chunk. *)
Fixpoint filter_chunk (expr : Ast.Expr) (columns : list str) (chunk acc : list (list Value))
    : outcome ExecError (list (list Value)) :=
  match chunk with
  | [] => Ok acc
  | row :: chunk' =>
      obind (eval_expr expr columns row []) (fun b =>
      filter_chunk expr columns chunk' (if b then acc ++ [row] else acc))
  end.

Fixpoint filter_chunks (expr : Ast.Expr) (columns : list str) (cs : list (list (list Value)))
    (acc : list (list Value)) : outcome ExecError (list (list Value)) :=
  match cs with
  | [] => Ok acc
  | c :: cs' => obind (filter_chunk expr columns c acc) (fun acc' => filter_chunks expr columns cs' acc')
  end.

(** The index of every named column, or the first that is missing. *)
Fixpoint column_indices (names columns : list str) : outcome ExecError (list nat) :=
  match names with
  | [] => Ok []
  | c :: rest =>
      match Aggregate.index_of c columns with
      | Some i => obind (column_indices rest columns) (fun is_ => Ok (i :: is_))
      | None => Err (Value.UnknownColumn c)
      end
  end.

Fixpoint project_rows (indices : list nat) (rows : list (list Value))
    : outcome ExecError (list (list Value)) :=
  match rows with
  | [] => Ok []
  | row :: rows' =>
      obind (Aggregate.key_of indices row) (fun r =>
      obind (project_rows indices rows') (fun rs => Ok (r :: rs)))
  end.

Fixpoint sort_indices (cols : list Ast.OrderBy) (columns : list str)
    : outcome ExecError (list (nat * bool)) :=
  match cols with
  | [] => Ok []
  | ob :: rest =>
      match Aggregate.index_of (Ast.ob_column ob) columns with
      | Some i => obind (sort_indices rest columns) (fun is_ => Ok ((i, Ast.descending ob) :: is_))
      | None => Err (Value.UnknownColumn (Ast.ob_column ob))
      end
  end.

(** The comparator of [Sort]. *)
Fixpoint row_cmp (indices : list (nat * bool)) (a b : list Value) : outcome ExecError comparison :=
  match indices with
  | [] => Ok Eq
  | (i, desc) :: indices' =>
      match a !! i, b !! i with
      | Some x, Some y =>
          let ord := cmp x y in
          match (if desc then CompOpp ord else ord) with
          | Eq => row_cmp indices' a b
          | o => Ok o
          end
      | _, _ => Panic
      end
  end.

(** Insert after the elements that are not greater. *)
Fixpoint insert_row (indices : list (nat * bool)) (x : list Value) (l : list (list Value))
    : outcome ExecError (list (list Value)) :=
  match l with
  | [] => Ok [x]
  | y :: l' =>
      obind (row_cmp indices y x) (fun o =>
      match o with
      | Gt => Ok (x :: l)
      | _ => obind (insert_row indices x l') (fun r => Ok (y :: r))
      end)
  end.

Fixpoint sort_loop (indices : list (nat * bool)) (rows sorted : list (list Value))
    : outcome ExecError (list (list Value)) :=
  match rows with
  | [] => Ok sorted
  | x :: rows' => obind (insert_row indices x sorted) (fun s => sort_loop indices rows' s)
  end.

Definition sort_by (indices : list (nat * bool)) (rows : list (list Value))
    : outcome ExecError (list (list Value)) := sort_loop indices rows [].

(** [retain(|row| eval_expr(..).unwrap_or(false))]: an error drops the row. *)
Fixpoint retain_having (hv : Ast.Expr) (columns : list str) (rows : list (list Value))
    : outcome ExecError (list (list Value)) :=
  match rows with
  | [] => Ok []
  | row :: rows' =>
      match eval_expr hv columns row [] with
      | Ok true => obind (retain_having hv columns rows') (fun rs => Ok (row :: rs))
      | Ok false | Err _ => retain_having hv columns rows'
      | Panic => Panic
      end
  end.

Fixpoint execute_node (table : Value.Table) (node : PlanNode) : outcome ExecError ResultSet :=
  match node with
  | Planner.Scan _ _ => Ok (mkResult (Value.t_columns table) (Value.t_rows table) None)
  | Planner.Filter expr input =>
      obind (execute_node table input) (fun inner =>
      obind (filter_chunks expr (Value.columns inner) (chunks BATCH_SIZE (Value.rows inner)) []) (fun rows =>
      Ok (mkResult (Value.columns inner) rows None)))
  | Planner.Project columns star input =>
      obind (execute_node table input) (fun inner =>
      if star || bool_decide (columns = []) then Ok inner
      else
        obind (column_indices columns (Value.columns inner)) (fun indices =>
        obind (project_rows indices (Value.rows inner)) (fun rows =>
        Ok (mkResult columns rows None))))
  | Planner.Limit n input =>
      obind (execute_node table input) (fun inner =>
      Ok (mkResult (Value.columns inner) (take (Z.to_nat n) (Value.rows inner)) (Value.affected inner)))
  | Planner.Sort cols input =>
      obind (execute_node table input) (fun inner =>
      obind (sort_indices cols (Value.columns inner)) (fun indices =>
      obind (sort_by indices (Value.rows inner)) (fun rows =>
      Ok (mkResult (Value.columns inner) rows (Value.affected inner)))))
  | Planner.Aggregate group_by aggregates having input =>
      obind (execute_node table input) (fun inner =>
      obind (Aggregate.aggregate_table (Value.columns inner) (Value.rows inner) group_by aggregates) (fun result =>
      match having with
      | Some hv =>
          obind (retain_having hv (Value.columns result) (Value.rows result)) (fun rows =>
          Ok (mkResult (Value.columns result) rows (Value.affected result)))
      | None => Ok result
      end))
  | Planner.SubqueryScan (Planner.mkPlan root _ _) alias =>
      obind (execute_node table root) (fun inner =>
      Ok (mkResult (map (fun c => alias ++ lit "." ++ c) (Value.columns inner)) (Value.rows inner) None))
  end.

(** Execute a plan against a table. *)
Definition execute (table : Value.Table) (plan : Plan) : outcome ExecError ResultSet :=
  execute_node table (Planner.root plan).

(** ** Filtering *)

(** The rows a predicate keeps: those on which it is true. *)
Definition keep (expr : option Ast.Expr) (columns : list str) (row : list Value) : bool :=
  match expr with
  | Some e => match eval_expr e columns row [] with Ok b => b | _ => false end
  | None => true
  end.

Lemma chunks_loop_concat {A} fuel n (l : list A) :
  0 < n -> length l <= fuel -> concat (chunks_loop fuel n l) = l.
Proof.
  intros Hn. revert l. induction fuel as [|fuel IH]; intros l Hl; simpl.
  - destruct l; [done|simpl in Hl; lia].
  - destruct l as [|x l]; [done|]. cbn [concat]. rewrite IH.
    + apply take_drop.
    + rewrite length_drop. simpl in *. lia.
Qed.

Lemma filter_chunks_spec e columns cs acc :
  Forall (fun r => exists b, eval_expr e columns r [] = Ok b) (concat cs) ->
  filter_chunks e columns cs acc = Ok (acc ++ List.filter (keep (Some e) columns) (concat cs)).
Proof.
  assert (Hc : forall c acc, Forall (fun r => exists b, eval_expr e columns r [] = Ok b) c ->
    filter_chunk e columns c acc = Ok (acc ++ List.filter (keep (Some e) columns) c)).
  { induction c as [|row c IH]; intros ac Hr; simpl; [by rewrite app_nil_r|].
    apply Forall_cons_1 in Hr as [[b Hb] Hr]. rewrite Hb. simpl. rewrite IH by done.
    destruct b; [by rewrite <- app_assoc|done]. }
  revert acc. induction cs as [|c cs IH]; intros acc Hr; simpl; [by rewrite app_nil_r|].
  simpl in Hr. apply Forall_app in Hr as [H1 H2]. rewrite Hc by done. simpl. rewrite IH by done.
  by rewrite List.filter_app, <- app_assoc.
Qed.

(** ** Sorting *)

(** The comparator on rows that are wide enough. *)
Fixpoint rcmp (indices : list (nat * bool)) (a b : list Value) : comparison :=
  match indices with
  | [] => Eq
  | (i, desc) :: indices' =>
      let ord := cmp (default Null (a !! i)) (default Null (b !! i)) in
      match (if desc then CompOpp ord else ord) with
      | Eq => rcmp indices' a b
      | Lt => Lt
      | Gt => Gt
      end
  end.

Definition wide (w : nat) (r : list Value) : Prop := w <= length r /\ Forall Value.value_wf r.

Lemma row_cmp_rcmp w indices a b :
  Forall (fun i => i.1 < w) indices -> wide w a -> wide w b -> row_cmp indices a b = Ok (rcmp indices a b).
Proof.
  intros Hi [Ha _] [Hb _]. induction Hi as [|[i desc] indices Hi _ IH]; [done|]. simpl in *.
  destruct (lookup_lt_is_Some_2 a i) as [x ->]; [lia|].
  destruct (lookup_lt_is_Some_2 b i) as [y ->]; [lia|]. simpl.
  by destruct desc, (cmp x y).
Qed.

Lemma wide_cell w r i : wide w r -> Value.value_wf (default Null (r !! i)).
Proof.
  intros [_ Hw]. destruct (r !! i) as [v|] eqn:E; [|done]. simpl. by eapply Forall_lookup in E.
Qed.

Lemma rcmp_opp indices a b : rcmp indices b a = CompOpp (rcmp indices a b).
Proof.
  induction indices as [|[i desc] indices IH]; [done|]. simpl.
  destruct Value.cmp_laws as [_ H2 _].
  rewrite (H2 (default Null (a !! i)) (default Null (b !! i))).
  destruct desc, (cmp (default Null (a !! i)) (default Null (b !! i))); simpl; auto.
Qed.

Lemma cmp_eq_l a b d : Value.value_wf a -> Value.value_wf b -> cmp a b = Eq -> cmp a d = cmp b d.
Proof. intros Ha Hb E. apply (Value.ord_eq _ _ Value.cmp_laws) in E as ->; done. Qed.

Lemma cmp_eq_r a b d : Value.value_wf b -> Value.value_wf d -> cmp b d = Eq -> cmp a d = cmp a b.
Proof. intros Ha Hb E. apply (Value.ord_eq _ _ Value.cmp_laws) in E as ->; done. Qed.

Lemma rcmp_trans w indices a b d :
  wide w a -> wide w b -> wide w d ->
  rcmp indices a b <> Gt -> rcmp indices b d <> Gt -> rcmp indices a d <> Gt.
Proof.
  intros Wa Wb Wd. induction indices as [|[i desc] indices IH]; [done|]. simpl.
  assert (Va := wide_cell w a i Wa). assert (Vb := wide_cell w b i Wb). assert (Vd := wide_cell w d i Wd).
  set (x := default Null (a !! i)) in *. set (y := default Null (b !! i)) in *.
  set (z := default Null (d !! i)) in *.
  assert (Hlt := Value.ord_trans _ _ Value.cmp_laws x y z Va Vb Vd).
  assert (Hgt := Value.ord_trans _ _ Value.cmp_laws z y x Vd Vb Va).
  assert (O1 := Value.ord_opp _ _ Value.cmp_laws x y). assert (O2 := Value.ord_opp _ _ Value.cmp_laws y z).
  assert (O3 := Value.ord_opp _ _ Value.cmp_laws x z).
  assert (E1 := cmp_eq_l x y z Va Vb). assert (E2 := cmp_eq_r x y z Vb Vd).
  destruct (cmp x y) eqn:C1, (cmp y z) eqn:C2, desc; simpl in *;
    try rewrite E1 by done; try rewrite E2 by done; try done; try (by rewrite Hlt);
    rewrite O1, O2 in Hgt; rewrite Hgt in O3 by done; destruct (cmp x z); done.
Qed.

Definition le_rows (indices : list (nat * bool)) (a b : list Value) : Prop := rcmp indices a b <> Gt.

Section Sort.
Context (w : nat) (indices : list (nat * bool)) (Hi : Forall (fun i => i.1 < w) indices).

(** Rows that tie with a given row. *)
Definition ties (r x : list Value) : bool := match rcmp indices x r with Eq => true | _ => false end.

Lemma insert_row_spec x l :
  wide w x -> Forall (wide w) l -> StronglySorted (le_rows indices) l ->
  exists l', insert_row indices x l = Ok l' /\ l' ≡ₚ x :: l /\ StronglySorted (le_rows indices) l' /\
    forall r, wide w r -> List.filter (ties r) l' = List.filter (ties r) (l ++ [x]).
Proof.
  intros Hx. induction l as [|y l IH]; intros Hl Hs.
  { exists [x]. split_and!; [done|done|repeat constructor|done]. }
  apply Forall_cons_1 in Hl as [Hy Hl]. apply StronglySorted_inv in Hs as [Hs Hle].
  cbn [insert_row]. rewrite (row_cmp_rcmp w) by done. cbn [obind].
  assert (Hrest : rcmp indices y x <> Gt -> exists l', insert_row indices x l = Ok l' /\
    y :: l' ≡ₚ x :: y :: l /\ StronglySorted (le_rows indices) (y :: l') /\
    forall r, wide w r -> List.filter (ties r) (y :: l') = List.filter (ties r) ((y :: l) ++ [x])).
  { intros Hyx. destruct (IH Hl Hs) as (l' & El & Hp & Hs' & Hf). exists l'. split_and!; [done| | |].
    - rewrite Hp. apply Permutation_swap.
    - constructor; [done|]. rewrite Hp. by constructor.
    - intros r Hr. simpl. rewrite (Hf r Hr). done. }
  destruct (rcmp indices y x) eqn:E.
  - destruct Hrest as (l' & El & H1 & H2 & H3); [done|]. rewrite El. simpl. exists (y :: l'). done.
  - destruct Hrest as (l' & El & H1 & H2 & H3); [done|]. rewrite El. simpl. exists (y :: l'). done.
  - exists (x :: y :: l). split; [done|]. split; [done|].
    assert (Hxy : le_rows indices x y) by (unfold le_rows; by rewrite rcmp_opp, E).
    assert (Hx_all : Forall (fun z => rcmp indices x z = Lt) (y :: l)).
    { constructor; [by rewrite rcmp_opp, E|]. rewrite Forall_forall in Hle, Hl |- *. intros z Hz.
      assert (Hyz := Hle z Hz). assert (Hxz : rcmp indices x z <> Gt) by (apply (rcmp_trans w _ x y z); auto).
      destruct (rcmp indices x z) eqn:Exz; [|done|done]. exfalso.
      assert (Hzx : rcmp indices z x <> Gt) by (by rewrite rcmp_opp, Exz).
      assert (Hyx : rcmp indices y x <> Gt) by (apply (rcmp_trans w _ y z x); auto). congruence. }
    split.
    + constructor; [by constructor|]. eapply Forall_impl; [exact Hx_all|].
      intros z Hz. unfold le_rows. by rewrite Hz.
    + intros r Hr. rewrite List.filter_app. cbn [List.filter].
      destruct (ties r x) eqn:Et; [|by rewrite app_nil_r].
      assert (Hnone : forall l0, Forall (fun z => rcmp indices x z = Lt) l0 -> Forall (wide w) l0 ->
        List.filter (ties r) l0 = []).
      { induction l0 as [|z l0 IH0]; intros H1 H2; [done|]. apply Forall_cons_1 in H1 as [H1 H1'].
        apply Forall_cons_1 in H2 as [H2 H2']. simpl. rewrite IH0 by done.
        destruct (ties r z) eqn:Ez; [|done]. exfalso. unfold ties in *.
        destruct (rcmp indices x r) eqn:Exr; try done. destruct (rcmp indices z r) eqn:Ezr; try done.
        assert (Hzx : rcmp indices z x <> Gt).
        { apply (rcmp_trans w _ z r x); try done; [by rewrite Ezr|]. by rewrite rcmp_opp, Exr. }
        rewrite rcmp_opp, H1 in Hzx. done. }
      change (if ties r y then y :: List.filter (ties r) l else List.filter (ties r) l)
        with (List.filter (ties r) (y :: l)).
      rewrite Hnone; [done|done|by constructor].
Qed.

Lemma sort_by_spec rows :
  Forall (wide w) rows ->
  exists s, sort_by indices rows = Ok s /\ s ≡ₚ rows /\ StronglySorted (le_rows indices) s /\
    forall r, wide w r -> List.filter (ties r) s = List.filter (ties r) rows.
Proof.
  intros Hr. unfold sort_by.
  cut (forall done_ sorted, Forall (wide w) done_ -> sorted ≡ₚ done_ -> StronglySorted (le_rows indices) sorted ->
    (forall r, wide w r -> List.filter (ties r) sorted = List.filter (ties r) done_) ->
    exists s, sort_loop indices rows sorted = Ok s /\ s ≡ₚ done_ ++ rows /\
      StronglySorted (le_rows indices) s /\
      forall r, wide w r -> List.filter (ties r) s = List.filter (ties r) (done_ ++ rows)).
  { intros H. apply (H [] []); try done. constructor. }
  induction rows as [|x rows IH]; intros done_ sorted Hd Hp Hs Hf; simpl.
  { exists sorted. rewrite !app_nil_r. done. }
  apply Forall_cons_1 in Hr as [Hx Hr].
  destruct (insert_row_spec x sorted Hx) as (s1 & E1 & P1 & S1 & F1); [by rewrite Hp|done|].
  rewrite E1. simpl. destruct (IH Hr (done_ ++ [x]) s1) as (s & E & P & S & F).
  - apply Forall_app. split; [done|by apply Forall_singleton].
  - rewrite P1, Hp. by rewrite Permutation_app_comm.
  - done.
  - intros r Hw. rewrite F1 by done. rewrite !List.filter_app. by rewrite Hf.
  - exists s. rewrite <- app_assoc in P, F. done.
Qed.

End Sort.

Lemma sort_by_nil rows : sort_by [] rows = Ok rows.
Proof.
  assert (Hins : forall x l, insert_row [] x l = Ok (l ++ [x])).
  { intros x. induction l as [|y l IH]; [done|]. simpl. by rewrite IH. }
  unfold sort_by. cut (forall acc, sort_loop [] rows acc = Ok (acc ++ rows)); [intros H; apply H|].
  induction rows as [|x rows IH]; intros acc; simpl; [by rewrite app_nil_r|].
  rewrite Hins. simpl. rewrite IH. by rewrite <- app_assoc.
Qed.

(** ** The whole pipeline *)

(** The cell of a row under a column name. *)
Definition cell (cols : list str) (r : list Value) (c : str) : Value :=
  match Aggregate.index_of c cols with Some i => default Null (r !! i) | None => Null end.

Lemma column_indices_ok names columns :
  Forall (fun c => c ∈ columns) names ->
  exists is_, column_indices names columns = Ok is_ /\ length is_ = length names /\
    Forall (fun i => i < length columns) is_ /\
    forall r, Aggregate.row_key is_ r = map (cell columns r) names.
Proof.
  induction 1 as [|c names Hc _ (is_ & IH1 & IH2 & IH3 & IH4)]; simpl; [exists []; by repeat constructor|].
  destruct (Aggregate.index_of_Some _ _ Hc) as (i & Hi & Hlt). rewrite Hi, IH1. simpl.
  exists (i :: is_). split_and!; [done|simpl; lia|by constructor|]. intros r. simpl.
  unfold cell at 1. rewrite Hi. f_equal. apply IH4.
Qed.

Lemma sort_indices_ok cols columns :
  Forall (fun ob => Ast.ob_column ob ∈ columns) cols ->
  exists is_, sort_indices cols columns = Ok is_ /\ Forall (fun i => i.1 < length columns) is_ /\
    Forall2 (fun ob i => columns !! i.1 = Some (Ast.ob_column ob) /\ i.2 = Ast.descending ob) cols is_.
Proof.
  induction 1 as [|ob cols Hc _ (is_ & IH1 & IH2 & IH3)]; simpl; [exists []; by repeat constructor|].
  destruct (Aggregate.index_of_Some _ _ Hc) as (i & Hi & Hlt). rewrite Hi, IH1. simpl.
  exists ((i, Ast.descending ob) :: is_). split_and!; [done|by constructor|]. constructor; [|done].
  unfold Aggregate.index_of in Hi. apply position_Some in Hi as (x & Hx & Hp & _).
  by apply bool_decide_eq_true in Hp as ->.
Qed.

Lemma project_rows_ok w indices rows :
  Forall (wide w) rows -> Forall (fun i => i < w) indices ->
  project_rows indices rows = Ok (map (Aggregate.row_key indices) rows) /\
  Forall (wide (length indices)) (map (Aggregate.row_key indices) rows).
Proof.
  intros Hr Hi. induction Hr as [|r rows Hw _ [IH1 IH2]]; simpl; [split; [done|constructor]|].
  destruct (Aggregate.key_of_ok (E := ExecError) _ _ _ Hw Hi) as [-> Hk]. simpl. rewrite IH1. simpl.
  split; [done|]. constructor; [|done]. split; [|done]. unfold Aggregate.row_key. by rewrite length_map.
Qed.

(** The output columns of a statement over a table, and the projection of a row
    to them. *)
Definition all_columns (stmt : SelectStatement) : bool :=
  Ast.star stmt || bool_decide (Ast.columns stmt = []).
Definition out_columns (stmt : SelectStatement) (cols : list str) : list str :=
  if all_columns stmt then cols else Ast.columns stmt.
Definition project (stmt : SelectStatement) (cols : list str) (r : list Value) : list Value :=
  if all_columns stmt then r else map (cell cols r) (Ast.columns stmt).

(** The rows of the answer before sorting and limiting. *)
Definition answer (stmt : SelectStatement) (table : Value.Table) : list (list Value) :=
  let cols := Value.t_columns table in
  map (project stmt cols) (List.filter (keep (Ast.filter stmt) cols) (Value.t_rows table)).

(** The plan's filter stage. *)
Lemma filter_stage e cols rows :
  Forall (fun r => exists b, eval_expr e cols r [] = Ok b) rows ->
  filter_chunks e cols (chunks BATCH_SIZE rows) [] = Ok (List.filter (keep (Some e) cols) rows).
Proof.
  intros H. unfold chunks. rewrite filter_chunks_spec; rewrite chunks_loop_concat; try done;
    unfold BATCH_SIZE; lia.
Qed.

Lemma wide_filter w f rows : Forall (wide w) rows -> Forall (wide w) (List.filter f rows).
Proof.
  rewrite !Forall_forall. intros H r Hr. apply H. rewrite list_elem_of_In in *.
  by apply filter_In in Hr as [Hr _].
Qed.

(** Filter and projection, as a tree. *)
Definition base_node (stmt : SelectStatement) (name : str) (v : bool) : PlanNode :=
  let scan := Planner.Scan name v in
  Planner.Project (Ast.columns stmt) (Ast.star stmt)
    (match Ast.filter stmt with Some e => Planner.Filter e scan | None => scan end).

Lemma base_node_ok stmt name v table :
  Forall (wide (length (Value.t_columns table))) (Value.t_rows table) ->
  (forall e, Ast.filter stmt = Some e ->
     Forall (fun r => exists b, eval_expr e (Value.t_columns table) r [] = Ok b) (Value.t_rows table)) ->
  (Ast.star stmt = false -> Forall (fun c => c ∈ Value.t_columns table) (Ast.columns stmt)) ->
  execute_node table (base_node stmt name v) =
    Ok (mkResult (out_columns stmt (Value.t_columns table)) (answer stmt table) None) /\
  Forall (wide (length (out_columns stmt (Value.t_columns table)))) (answer stmt table).
Proof.
  intros Hw Hf Hc. unfold answer. set (cols := Value.t_columns table) in *. unfold base_node. cbv zeta.
  assert (Hin : execute_node table
      (match Ast.filter stmt with
       | Some e => Planner.Filter e (Planner.Scan name v) | None => Planner.Scan name v end) =
    Ok (mkResult cols (List.filter (keep (Ast.filter stmt) cols) (Value.t_rows table)) None)).
  { destruct (Ast.filter stmt) as [e|] eqn:Ef; simpl.
    - by rewrite filter_stage by by apply Hf.
    - do 2 f_equal. clear. induction (Value.t_rows table) as [|r l IH]; [done|]. simpl. by rewrite <- IH. }
  cbn [execute_node]. rewrite Hin. cbn [obind Value.columns Value.rows].
  assert (Hk := wide_filter _ (keep (Ast.filter stmt) cols) _ Hw). unfold out_columns, project, all_columns.
  destruct (Ast.star stmt || bool_decide (Ast.columns stmt = [])) eqn:Es.
  - rewrite map_id. done.
  - apply orb_false_iff in Es as [Hstar Hne].
    destruct (column_indices_ok _ _ (Hc Hstar)) as (is_ & Ei & Hl & Hlt & Hcells).
    rewrite Ei. cbn [obind]. destruct (project_rows_ok _ is_ _ Hk Hlt) as [Ep Hwp].
    rewrite Ep. cbn [obind]. rewrite (map_ext _ _ Hcells) in *. rewrite Hl in Hwp. done.
Qed.

(** Planning and executing a statement. *)
Lemma select_pipeline_ok stmt table :
  Ast.group_by stmt = [] -> Ast.aggregates stmt = [] ->
  Forall (wide (length (Value.t_columns table))) (Value.t_rows table) ->
  (forall e, Ast.filter stmt = Some e -> snd (Planner.selectivity e) <> 0%Z /\
     Forall (fun r => exists b, eval_expr e (Value.t_columns table) r [] = Ok b) (Value.t_rows table)) ->
  (Ast.star stmt = false -> Forall (fun c => c ∈ Value.t_columns table) (Ast.columns stmt)) ->
  Forall (fun ob => Ast.ob_column ob ∈ out_columns stmt (Value.t_columns table)) (Ast.order_by stmt) ->
  exists keys full,
    Forall2 (fun ob i => out_columns stmt (Value.t_columns table) !! i.1 = Some (Ast.ob_column ob) /\
                         i.2 = Ast.descending ob) (Ast.order_by stmt) keys /\
    full ≡ₚ answer stmt table /\ StronglySorted (le_rows keys) full /\
    (forall r, wide (length (out_columns stmt (Value.t_columns table))) r ->
       List.filter (ties keys r) full = List.filter (ties keys r) (answer stmt table)) /\
    forall gpu stats, exists plan, Planner.plan_select gpu stmt stats = Ok plan /\
      execute table plan =
      Ok (mkResult (out_columns stmt (Value.t_columns table))
            (match Ast.limit stmt with Some n => take (Z.to_nat n) full | None => full end) None).
Proof.
  intros Hg Ha Hw Hf Hc Ho. set (cols := Value.t_columns table) in *.
  set (name := Ast.name (Ast.table stmt)).
  assert (Hf' : forall e, Ast.filter stmt = Some e ->
    Forall (fun r => exists b, eval_expr e cols r [] = Ok b) (Value.t_rows table)) by (intros; by apply Hf).
  destruct (sort_indices_ok _ _ Ho) as (keys & Ek & Hkl & Hkn).
  destruct (base_node_ok stmt name true table Hw Hf' Hc) as [E1 Hwp]. fold cols in E1, Hwp.
  destruct (sort_by_spec _ keys Hkl _ Hwp) as (full & Es & Hp & Hs & Ht).
  exists keys, full. split_and!; [done|done|done|done|].
  intros gpu stats. set (v := (Planner.VECTORIZE_ROW_THRESHOLD <=? Planner.row_count stats)%Z).
  assert (Hbase : execute_node table (base_node stmt name v) = execute_node table (base_node stmt name true)).
  { unfold base_node. cbn [execute_node]. by destruct (Ast.filter stmt). }
  assert (Hsorted : execute_node table
      (match Ast.order_by stmt with [] => base_node stmt name v | l => Planner.Sort l (base_node stmt name v) end)
    = Ok (mkResult (out_columns stmt cols) full None)).
  { destruct (Ast.order_by stmt) as [|ob obs].
    - rewrite Hbase, E1. inversion Hkn; subst keys. do 2 f_equal.
      rewrite sort_by_nil in Es. by injection Es.
    - cbn [execute_node]. rewrite Hbase, E1. cbn [obind Value.columns Value.rows Value.affected].
      rewrite Ek. cbn [obind]. by rewrite Es. }
  assert (Hplan : exists est d, Planner.plan_select gpu stmt stats = Ok (Planner.mkPlan
    (let n := match Ast.order_by stmt with [] => base_node stmt name v | l => Planner.Sort l (base_node stmt name v) end in
     match Ast.limit stmt with Some k => Planner.Limit k n | None => n end) est d)).
  { unfold Planner.plan_select, base_node, name, v. cbv zeta. rewrite Hg, Ha.
    destruct (Ast.filter stmt) as [e|] eqn:Ef.
    - destruct (Planner.selectivity e) as [num den] eqn:Esel. destruct (Hf e eq_refl) as [Hden _].
      rewrite Esel in Hden. simpl in Hden. unfold Planner.div_ceil.
      rewrite (proj2 (Z.eqb_neq den 0) Hden). simpl.
      destruct (Ast.order_by stmt), (Ast.limit stmt); eexists _, _; reflexivity.
    - simpl. destruct (Ast.order_by stmt), (Ast.limit stmt); eexists _, _; reflexivity. }
  destruct Hplan as (est & d & Hplan). eexists. split; [exact Hplan|]. unfold execute. cbn [Planner.root]. cbv zeta.
  destruct (Ast.limit stmt) as [k|]; [|exact Hsorted].
  cbn [execute_node]. rewrite Hsorted. reflexivity.
Qed.

(** C15: a [SELECT] without grouping and aggregates, whose named
    columns exist, whose [ORDER BY] columns are among the output columns, and
    whose predicate evaluates on every row of the table and has a selectivity
    with a denominator that is not zero in 64-bit arithmetic (without this
    planning divides by zero, see [planner_divides_by_zero]).  Then
    planning succeeds and executing the plan returns the rows on which the
    predicate is true, projected to the output columns, stably sorted by the
    [ORDER BY] keys, cut to the [LIMIT].  (Every row has a value for each
    column of the table.)  The result is the same for every table statistics
    and execution target. *)
Theorem select_pipeline stmt table :
  Ast.group_by stmt = [] -> Ast.aggregates stmt = [] ->
  Forall (wide (length (Value.t_columns table))) (Value.t_rows table) ->
  (forall e, Ast.filter stmt = Some e -> snd (Planner.selectivity e) <> 0%Z /\
     Forall (fun r => exists b, eval_expr e (Value.t_columns table) r [] = Ok b) (Value.t_rows table)) ->
  (Ast.star stmt = false -> Forall (fun c => c ∈ Value.t_columns table) (Ast.columns stmt)) ->
  Forall (fun ob => Ast.ob_column ob ∈ out_columns stmt (Value.t_columns table)) (Ast.order_by stmt) ->
  exists keys full,
    Forall2 (fun ob i => out_columns stmt (Value.t_columns table) !! i.1 = Some (Ast.ob_column ob) /\
                         i.2 = Ast.descending ob) (Ast.order_by stmt) keys /\
    full ≡ₚ answer stmt table /\ StronglySorted (le_rows keys) full /\
    (forall r, wide (length (out_columns stmt (Value.t_columns table))) r ->
       List.filter (ties keys r) full = List.filter (ties keys r) (answer stmt table)) /\
    forall gpu stats, exists plan, Planner.plan_select gpu stmt stats = Ok plan /\
      execute table plan =
      Ok (mkResult (out_columns stmt (Value.t_columns table))
            (match Ast.limit stmt with Some n => take (Z.to_nat n) full | None => full end) None).
Proof. apply select_pipeline_ok. Qed.

Lemma select_pipeline_witness :
  let stmt := Ast.mkSelect [lit "n"] false (Ast.Named (lit "t") None)
    (Some (Ast.Cmp (lit "n") Ast.Gt (Ast.LInt 1))) [] [] [] [] [Ast.mkOrderBy (lit "n") true] None
    (Some 2%Z) None [] in
  let table := Value.mkTable [lit "d"; lit "n"] [[Null; Int 5]; [Int 0; Int 1]; [Int 1; Int 7]; [Int 2; Int 3]] in
  exists plan, Planner.plan_select false stmt (Planner.mkStats 4) = Ok plan /\
    exists rows, execute table plan = Ok (mkResult [lit "n"] rows None) /\ length rows <= 2.
Proof.
  intros stmt table.
  destruct (select_pipeline stmt table) as (keys & full & _ & _ & _ & _ & H).
  - reflexivity.
  - reflexivity.
  - repeat constructor.
  - intros e [= <-]. split; [discriminate|]. repeat constructor; eexists; vm_compute; reflexivity.
  - intros _. apply Forall_singleton. right. left.
  - apply Forall_singleton. left.
  - destruct (H false (Planner.mkStats 4)) as (plan & Hp & He). exists plan. split; [exact Hp|].
    eexists. split; [exact He|]. rewrite length_take. lia.
Defined.

End Exec.
