(* ===== verification/Window.v ===== *)
(** * Window: window functions
    ([crates/tpt-archon-relational/src/executor/window.rs])

    A partition is the list of the indices of its rows, sorted; a result is one
    value per row.  An index out of bounds panics.  [sort_by] is the stable
    insertion of Exec, on indices instead of rows. *)
From Stdlib Require Import ZArith Lia Strings.Byte Strings.String.
From stdpp Require Import base numbers option list sorting.
From S2P Require Import Prelude Ast Value VectorIndex Expr Aggregate Planner Exec.

Module Window.
Import Ast(str, lit, WindowCall, WindowFrame, FrameBound).
Import Value(Value, Int, Float, Null, ExecError, cmp).
Import Expr(obind).

(** [v[i]]. *)
Definition at_ {A} (l : list A) (i : nat) : outcome ExecError A :=
  match l !! i with Some x => Ok x | None => Panic end.

Definition column_index (columns : list str) (name : str) : outcome ExecError nat :=
  match Aggregate.index_of name columns with
  | Some i => Ok i
  | None => Err (Value.UnknownColumn name)
  end.

Fixpoint column_indices (columns names : list str) : outcome ExecError (list nat) :=
  match names with
  | [] => Ok []
  | c :: names' =>
      obind (column_index columns c) (fun i => obind (column_indices columns names') (fun is_ => Ok (i :: is_)))
  end.

Fixpoint order_indices (columns : list str) (obs : list Ast.OrderBy) : outcome ExecError (list (nat * bool)) :=
  match obs with
  | [] => Ok []
  | ob :: obs' =>
      obind (column_index columns (Ast.ob_column ob)) (fun i =>
      obind (order_indices columns obs') (fun is_ => Ok ((i, Ast.descending ob) :: is_)))
  end.

(** [partitions.entry(key).or_default().push(i)], as the groups of Aggregate. *)
Fixpoint partition_rows (indices : list nat) (i : nat) (rows : list (list Value))
    (ps : list (list Value * list nat)) : outcome ExecError (list (list Value * list nat)) :=
  match rows with
  | [] => Ok ps
  | row :: rows' =>
      obind (Aggregate.key_of indices row) (fun key =>
      partition_rows indices (S i) rows' (Aggregate.push_group key i ps))
  end.

Section Call.
Context (columns : list str) (rows : list (list Value)) (order : list (nat * bool)).

Definition index_cmp (a b : nat) : outcome ExecError comparison :=
  obind (at_ rows a) (fun ra => obind (at_ rows b) (fun rb => Exec.row_cmp order ra rb)).

Fixpoint insert_index (x : nat) (l : list nat) : outcome ExecError (list nat) :=
  match l with
  | [] => Ok [x]
  | y :: l' =>
      obind (index_cmp y x) (fun o =>
      match o with
      | Gt => Ok (x :: l)
      | _ => obind (insert_index x l') (fun r => Ok (y :: r))
      end)
  end.

Fixpoint sort_part (l sorted : list nat) : outcome ExecError (list nat) :=
  match l with
  | [] => Ok sorted
  | x :: l' => obind (insert_index x sorted) (fun s => sort_part l' s)
  end.

(** The row at a position of the sorted partition, and its cell. *)
Definition row_at (part : list nat) (p : nat) : outcome ExecError (list Value) :=
  obind (at_ part p) (at_ rows).
Definition cell_at (part : list nat) (p idx : nat) : outcome ExecError Value :=
  obind (row_at part p) (fun r => at_ r idx).

(** [order_indices.iter().all(|..| ra[idx] == rb[idx])]. *)
Fixpoint tied (indices : list (nat * bool)) (ra rb : list Value) : outcome ExecError bool :=
  match indices with
  | [] => Ok true
  | (idx, _) :: indices' =>
      obind (at_ ra idx) (fun x => obind (at_ rb idx) (fun y =>
      if Value.eqb x y then tied indices' ra rb else Ok false))
  end.

Definition peers_equal (part : list nat) (a b : nat) : outcome ExecError bool :=
  obind (row_at part a) (fun ra => obind (row_at part b) (fun rb => tied order ra rb)).

(** ** Frames *)

(** [usize] arithmetic saturates; a [u64] offset that does not fit the partition
    is clipped. *)
Definition resolve_bound (bound : FrameBound) (pos m : nat) : nat :=
  let last := m - 1 in
  match bound with
  | Ast.UnboundedPreceding => 0
  | Ast.UnboundedFollowing => last
  | Ast.CurrentRow => pos
  | Ast.Preceding k => pos - Z.to_nat k
  | Ast.Following k => Nat.min (pos + Z.to_nat k) last
  end.

Definition apply_offset (v : Value) (k : Z) (following : bool) : option Value :=
  match v with
  | Int n =>
      let r := if following then (n + wrap_i64 k)%Z else (n - wrap_i64 k)%Z in
      if (- 2 ^ 63 <=? r)%Z && (r <? 2 ^ 63)%Z then Some (Int r) else None
  | Float f =>
      let kf := Value.f32_of_int k in
      Some (Float (if following then VectorIndex.f32_add f kf else VectorIndex.f32_sub f kf))
  | _ => None
  end.

Definition combine_low (a b : option Value) : option Value :=
  match a, b with
  | Some x, Some y => Some (match cmp x y with Gt => x | _ => y end)
  | Some x, None | None, Some x => Some x
  | None, None => None
  end.

Definition combine_high (a b : option Value) : option Value :=
  match a, b with
  | Some x, Some y => Some (match cmp x y with Lt => x | _ => y end)
  | Some x, None | None, Some x => Some x
  | None, None => None
  end.

(** The first and the last index whose value is in the range; [(1, 0)] when
    there is none. *)
Definition in_range (low high : option Value) (v : Value) : bool :=
  match low with None => true | Some l => match cmp v l with Lt => false | _ => true end end &&
  match high with None => true | Some h => match cmp v h with Gt => false | _ => true end end.

Fixpoint range_loop (low high : option Value) (i : nat) (vals : list Value) (acc : option (nat * nat))
    : option (nat * nat) :=
  match vals with
  | [] => acc
  | v :: vals' =>
      range_loop low high (S i) vals'
        (if in_range low high v then
           Some (match acc with Some (s, e) => (Nat.min s i, Nat.max e i) | None => (i, i) end)
         else acc)
  end.

Definition resolve_range_by_value (order_vals : list Value) (pos : nat) (start end_ : FrameBound)
    : outcome ExecError (nat * nat) :=
  obind (at_ order_vals pos) (fun cur =>
  let low := match start with
             | Ast.UnboundedPreceding | Ast.UnboundedFollowing => None
             | Ast.CurrentRow => combine_low None (Some cur)
             | Ast.Preceding k => apply_offset cur k false
             | Ast.Following k => apply_offset cur k true
             end in
  let high := match end_ with
              | Ast.UnboundedPreceding | Ast.UnboundedFollowing => None
              | Ast.CurrentRow => combine_high None (Some cur)
              | Ast.Preceding k => combine_high None (apply_offset cur k false)
              | Ast.Following k => combine_high None (apply_offset cur k true)
              end in
  Ok (default (1, 0) (range_loop low high 0 order_vals None))).

(** The two walks over the peers of a row: down while [p > 0], up while
    [p + 1 < m]. *)
Fixpoint peer_start (part : list nat) (p pos : nat) : outcome ExecError nat :=
  match p with
  | O => Ok 0
  | S p' => obind (peers_equal part p' pos) (fun b => if b then peer_start part p' pos else Ok p)
  end.

Fixpoint peer_end (fuel : nat) (part : list nat) (p pos : nat) : outcome ExecError nat :=
  match fuel with
  | O => Ok p
  | S fuel' => obind (peers_equal part (S p) pos) (fun b => if b then peer_end fuel' part (S p) pos else Ok p)
  end.

Definition resolve_frame (frame : WindowFrame) (pos : nat) (order_vals : list Value) (part : list nat)
    : outcome ExecError (nat * nat) :=
  let m := length part in
  match Ast.wf_kind frame with
  | Ast.Rows => Ok (resolve_bound (Ast.wf_start frame) pos m, resolve_bound (Ast.wf_end frame) pos m)
  | Ast.Range =>
      if 1 <? length order then
        obind (peer_start part pos pos) (fun ps =>
        obind (peer_end (m - 1 - pos) part pos pos) (fun pe =>
        Ok (match Ast.wf_start frame with Ast.CurrentRow => ps | _ => 0 end,
            match Ast.wf_end frame with Ast.CurrentRow => pe | _ => m - 1 end)))
      else resolve_range_by_value order_vals pos (Ast.wf_start frame) (Ast.wf_end frame)
  end.

(** ** The functions on one sorted partition *)

(** [rank] and [dense_rank] at position [pos], and the values so far. *)
Fixpoint rank_loop (dense : bool) (part : list nat) (n pos : nat) (rank dense_rank : Z)
    : outcome ExecError (list Value) :=
  match n with
  | O => Ok []
  | S n' =>
      obind (if 0 <? pos then
               obind (peers_equal part (pos - 1) pos) (fun t =>
               Ok (if t then (rank, dense_rank) else (Z.of_nat pos + 1, dense_rank + 1)%Z))
             else Ok (rank, dense_rank)) (fun rd =>
      obind (rank_loop dense part n' (S pos) rd.1 rd.2) (fun vs =>
      Ok (Int (if dense then rd.2 else rd.1) :: vs)))
  end.

(** [pos as i64 - offset] wraps in a release build. *)
Definition shift_value (part : list nat) (is_lag : bool) (offset : Z) (col_idx : nat) (default_val : Value)
    (pos : nat) : outcome ExecError Value :=
  let target := if is_lag then wrap_i64 (Z.of_nat pos - offset) else wrap_i64 (Z.of_nat pos + offset) in
  if (0 <=? target)%Z && (target <? Z.of_nat (length part))%Z
  then cell_at part (Z.to_nat target) col_idx
  else Ok default_val.

(** Run a fallible function over a list. *)
Fixpoint collect {A B} (f : A -> outcome ExecError B) (l : list A) : outcome ExecError (list B) :=
  match l with
  | [] => Ok []
  | x :: l' => obind (f x) (fun y => obind (collect f l') (fun ys => Ok (y :: ys)))
  end.

Definition shift_part (part : list nat) (is_lag : bool) (column : str) (offset : Z)
    (default : option Ast.Literal) : outcome ExecError (list Value) :=
  obind (column_index columns column) (fun col_idx =>
  let default_val := match default with Some l => Value.literal_to_value l | None => Null end in
  collect (shift_value part is_lag offset col_idx default_val) (seq 0 (length part))).

Definition numeric_bound (b : FrameBound) : bool :=
  match b with Ast.Preceding _ | Ast.Following _ => true | _ => false end.

Definition default_frame (no_order : bool) : WindowFrame :=
  if no_order then Ast.mkFrame Ast.Rows Ast.UnboundedPreceding Ast.UnboundedFollowing
  else Ast.mkFrame Ast.Range Ast.UnboundedPreceding Ast.CurrentRow.

Definition frame_value (part : list nat) (func : Ast.AggregateFunc) (column : str) (frame : WindowFrame)
    (order_vals : list Value) (pos : nat) : outcome ExecError Value :=
  obind (resolve_frame frame pos order_vals part) (fun '(start, end_) =>
  if end_ <? start then Ok (match func with Ast.Count => Int 0 | _ => Null end)
  else
    obind (collect (row_at part) (seq start (end_ - start + 1))) (fun frame_rows =>
    Aggregate.eval_aggregate func column columns frame_rows)).

Definition agg_part (part : list nat) (spec : Ast.WindowSpec) (func : Ast.AggregateFunc) (column : str)
    : outcome ExecError (list Value) :=
  let frame := default (default_frame (bool_decide (length (Ast.ws_order_by spec) = 0))) (Ast.frame spec) in
  let is_range := match Ast.wf_kind frame with Ast.Range => true | Ast.Rows => false end in
  if is_range && (numeric_bound (Ast.wf_start frame) || numeric_bound (Ast.wf_end frame))
     && negb (length order =? 1)
  then Err (Value.Unsupported (lit "RANGE frame with a numeric offset requires exactly one ORDER BY column"))
  else
    obind (match is_range, order with
           | true, [(oi, _)] => collect (fun i => obind (at_ rows i) (fun r => at_ r oi)) part
           | _, _ => Ok []
           end) (fun order_vals =>
    collect (frame_value part func column frame order_vals) (seq 0 (length part))).

(** One value per position of the sorted partition. *)
Definition eval_part (call : WindowCall) (part : list nat) : outcome ExecError (list Value) :=
  match Ast.wc_func call with
  | Ast.RowNumber => Ok (map (fun pos => Int (Z.of_nat pos + 1)) (seq 0 (length part)))
  | Ast.Rank => rank_loop false part (length part) 0 1 1
  | Ast.DenseRank => rank_loop true part (length part) 0 1 1
  | Ast.Lag column offset d => shift_part part true column offset d
  | Ast.Lead column offset d => shift_part part false column offset d
  | Ast.WAgg func column => agg_part part (Ast.wc_spec call) func column
  end.

(** [result[part_rows[pos]] = ..]. *)
Definition store (part : list nat) (vals result : list Value) : list Value :=
  foldl (fun r iv => <[iv.1 := iv.2]> r) result (zip part vals).

Fixpoint eval_parts (call : WindowCall) (ps : list (list Value * list nat)) (result : list Value)
    : outcome ExecError (list Value) :=
  match ps with
  | [] => Ok result
  | (_, is_) :: ps' =>
      obind (sort_part is_ []) (fun part =>
      obind (eval_part call part) (fun vals => eval_parts call ps' (store part vals result)))
  end.
End Call.

Definition eval_window_call (call : WindowCall) (columns : list str) (rows : list (list Value))
    : outcome ExecError (list Value) :=
  obind (column_indices columns (Ast.partition_by (Ast.wc_spec call))) (fun partition_indices =>
  obind (order_indices columns (Ast.ws_order_by (Ast.wc_spec call))) (fun order =>
  obind (partition_rows partition_indices 0 rows []) (fun ps =>
  eval_parts columns rows order call ps (replicate (length rows) Null)))).

Fixpoint eval_calls (calls : list (str * WindowCall)) (columns : list str) (rows : list (list Value))
    : outcome ExecError (list (list Value)) :=
  match calls with
  | [] => Ok []
  | (_, call) :: calls' =>
      obind (eval_window_call call columns rows) (fun out =>
      obind (eval_calls calls' columns rows) (fun outs => Ok (out :: outs)))
  end.

(** [output[row_idx]] of every output, in order. *)
Definition push_outputs (outputs : list (list Value)) (i : nat) (row : list Value)
    : outcome ExecError (list Value) :=
  obind (collect (fun out => at_ out i) outputs) (fun vs => Ok (row ++ vs)).

Definition apply_window_funcs (table : Value.Table) (window_funcs : list (str * WindowCall))
    : outcome ExecError Value.Table :=
  obind (eval_calls window_funcs (Value.t_columns table) (Value.t_rows table)) (fun outputs =>
  obind (collect (fun ir => push_outputs outputs ir.1 ir.2) (VectorIndex.enumerate (Value.t_rows table))) (fun rows =>
  Ok (Value.mkTable (Value.t_columns table ++ map fst window_funcs) rows))).

(** ** Windows by their definition

    The rows of a partition are ranked by the [ORDER BY] columns and, among
    ties, by their place in the input. *)

Section Spec.
Context (columns : list str) (rows : list (list Value)) (order : list (nat * bool)) (keys : list nat).
Abbreviation n := (length rows).
Abbreviation w := (length columns).
Hypothesis rows_wide : Forall (Exec.wide w) rows.
Hypothesis order_lt : Forall (fun i => i.1 < w) order.
Hypothesis keys_lt : Forall (fun i => i < w) keys.

Definition row (i : nat) : list Value := default [] (rows !! i).
Definition key (i : nat) : list Value := Aggregate.row_key keys (row i).
Definition icmp (a b : nat) : comparison := Exec.rcmp order (row a) (row b).

(** [j] comes before [i] in its partition. *)
Definition before (j i : nat) : Prop := icmp j i = Lt \/ (icmp j i = Eq /\ j < i).

#[local] Instance before_dec j i : Decision (before j i).
Proof. unfold before. apply _. Defined.

Lemma at_row i : i < n -> at_ rows i = Ok (row i) /\ Exec.wide w (row i) /\ rows !! i = Some (row i).
Proof.
  intros [r Hr]%lookup_lt_is_Some_2. unfold at_, row. rewrite Hr. split_and!; [done| |done].
  by eapply Forall_lookup_1 in Hr.
Qed.

Lemma index_cmp_ok a b : a < n -> b < n -> index_cmp rows order a b = Ok (icmp a b).
Proof.
  intros Ha Hb. unfold index_cmp. destruct (at_row a Ha) as (-> & Wa & _), (at_row b Hb) as (-> & Wb & _).
  simpl. by apply (Exec.row_cmp_rcmp w).
Qed.

Abbreviation valid := (fun i => i < n).

Lemma insert_index_ok x l : x < n -> Forall valid l ->
  insert_index rows order x l = Ok (VectorIndex.insert_by icmp x l).
Proof.
  intros Hx. induction 1 as [|y l Hy Hl IH]; [done|]. simpl. rewrite index_cmp_ok by done. simpl.
  destruct (icmp y x); [|..|done]; by rewrite IH.
Qed.

Lemma sort_part_ok l : Forall valid l -> forall s, Forall valid s ->
  sort_part rows order l s = Ok (foldl (fun s x => VectorIndex.insert_by icmp x s) s l).
Proof.
  induction 1 as [|x l Hx Hl IH]; intros s Hs; [done|]. simpl. rewrite insert_index_ok by done. simpl.
  apply IH. rewrite VectorIndex.sort_insert_perm. by constructor.
Qed.

Lemma icmp_opp a b : icmp b a = CompOpp (icmp a b).
Proof. apply Exec.rcmp_opp. Qed.

Lemma icmp_trans a b d : a < n -> b < n -> d < n -> icmp a b <> Gt -> icmp b d <> Gt -> icmp a d <> Gt.
Proof.
  intros Ha Hb Hd. destruct (at_row a Ha) as (_ & Wa & _), (at_row b Hb) as (_ & Wb & _), (at_row d Hd) as (_ & Wd & _).
  by apply (Exec.rcmp_trans w).
Qed.

Lemma insert_before x l : x < n -> Forall valid l -> Forall (fun y => y < x) l ->
  StronglySorted before l -> StronglySorted before (VectorIndex.insert_by icmp x l).
Proof.
  intros Hx Hl Hlt Hs. induction Hs as [|y l Hs IH Hy]; simpl; [repeat constructor|].
  apply Forall_cons in Hl as [Vy Hl]. apply Forall_cons in Hlt as [Ly Hlt].
  assert (Hgo : icmp y x <> Gt -> StronglySorted before (y :: VectorIndex.insert_by icmp x l)).
  { intros Hne. constructor; [by apply IH|]. rewrite VectorIndex.sort_insert_perm. constructor; [|done].
    unfold before. destruct (icmp y x); [by right|by left|done]. }
  destruct (icmp y x) eqn:E; [by apply Hgo|by apply Hgo|].
  assert (Exy : icmp x y = Lt) by (by rewrite icmp_opp, E).
  constructor; [by constructor|]. constructor; [by left|].
  rewrite Forall_forall in Hy, Hl |- *. intros z Hz.
  assert (Hyz : icmp y z <> Gt) by (destruct (Hy z Hz) as [-> | [-> _]]; done).
  assert (Hxz : icmp x z <> Gt) by (apply (icmp_trans x y z); auto; by rewrite Exy).
  left. destruct (icmp x z) eqn:Exz; [|done|done].
  destruct (icmp_trans y z x); auto. by rewrite icmp_opp, Exz.
Qed.

(** The sorted partition. *)
Definition sorted_part (l : list nat) : list nat := VectorIndex.sort_by icmp l.

Lemma sorted_part_before l : StronglySorted lt l -> Forall valid l -> StronglySorted before (sorted_part l).
Proof.
  unfold sorted_part, VectorIndex.sort_by.
  cut (forall s, StronglySorted before s -> Forall valid s -> Forall (fun y => Forall (lt y) l) s ->
    StronglySorted lt l -> Forall valid l ->
    StronglySorted before (foldl (fun s x => VectorIndex.insert_by icmp x s) s l)).
  { intros H. apply H; constructor. }
  induction l as [|x l IH]; intros s Hs Vs Hlt Hl Vl; [done|]. simpl.
  apply StronglySorted_inv in Hl as [Hl Hxl]. apply Forall_cons in Vl as [Vx Vl]. apply IH; try done.
  - apply insert_before; try done. eapply Forall_impl; [exact Hlt|]. intros y Hy. by apply Forall_cons in Hy as [? _].
  - rewrite VectorIndex.sort_insert_perm. by constructor.
  - rewrite VectorIndex.sort_insert_perm. constructor; [done|]. eapply Forall_impl; [exact Hlt|].
    intros y Hy. by apply Forall_cons in Hy as [_ ?].
Qed.

Lemma before_irrefl i : ~ before i i.
Proof using Type.
  intros [H|[_ H]]; [|lia]. assert (Ho := icmp_opp i i). by rewrite H in Ho.
Qed.

Lemma before_asym i j : before i j -> ~ before j i.
Proof using Type.
  unfold before. rewrite (icmp_opp i j). destruct (icmp i j); simpl.
  - intros [?|[_ ?]]; [done|]. intros [?|[_ ?]]; [done|lia].
  - intros _. intros [?|[? _]]; done.
  - intros [?|[? _]]; done.
Qed.

(** The position of an element is the number of those before it. *)
Lemma position_count l p i : StronglySorted before l -> l !! p = Some i ->
  length (filter (fun j => before j i) l) = p.
Proof using Type.
  intros Hs. revert p. induction Hs as [|x l Hs IH Hx]; intros [|p] Hp; simpl in Hp; try done.
  - injection Hp as ->. rewrite filter_cons_False by apply before_irrefl.
    assert (Hnil : filter (fun j => before j i) l = []); [|by rewrite Hnil].
    destruct (filter (fun j => before j i) l) as [|j l'] eqn:E; [done|].
    assert (Hj : j ∈ filter (fun j => before j i) l) by (rewrite E; left).
    apply list_elem_of_filter in Hj as [Hb Hj]. rewrite Forall_forall in Hx.
    by destruct (before_asym _ _ (Hx j Hj)).
  - assert (Hi := list_elem_of_lookup_2 _ _ _ Hp). rewrite Forall_forall in Hx.
    rewrite filter_cons_True by auto. simpl. f_equal. by apply IH.
Qed.

(** The rows of the partition of [i], in input order. *)
Definition partition (i : nat) : list nat := filter (fun j => key j = key i) (seq 0 n).

Lemma seq_sorted a m : StronglySorted lt (seq a m).
Proof using Type.
  revert a. induction m as [|m IH]; intros a; simpl; constructor; [done|].
  apply Forall_forall. intros x Hx%elem_of_seq. lia.
Qed.

Lemma filter_sorted {A} (R : A -> A -> Prop) (P : A -> Prop) `{forall x, Decision (P x)} l :
  StronglySorted R l -> StronglySorted R (filter P l).
Proof.
  induction 1 as [|x l Hs IH Hx]; [constructor|]. destruct (decide (P x)).
  - rewrite filter_cons_True by done. constructor; [done|]. rewrite Forall_forall in Hx |- *.
    intros y [_ Hy]%list_elem_of_filter. auto.
  - by rewrite filter_cons_False.
Qed.

Lemma partition_valid i : Forall valid (partition i).
Proof using Type. apply Forall_forall. intros j [_ Hj%elem_of_seq]%list_elem_of_filter. lia. Qed.

Lemma partition_self i : i < n -> i ∈ partition i.
Proof using Type. intros Hi. apply list_elem_of_filter. split; [done|]. apply elem_of_seq. lia. Qed.

Lemma partition_rows_ok : exists ps, partition_rows keys 0 rows [] = Ok ps /\
  Aggregate.groups_exact key (seq 0 n) ps.
Proof.
  assert (H : forall l i ps, rows = take i rows ++ l -> i + length l = n -> Aggregate.groups_exact key (seq 0 i) ps ->
    exists ps', partition_rows keys i l ps = Ok ps' /\ Aggregate.groups_exact key (seq 0 n) ps').
  { induction l as [|r l IH]; intros i ps Hl Hn Hg; simpl in *.
    - exists ps. split; [done|]. by replace n with i by lia.
    - assert (Hr : rows !! i = Some r).
      { rewrite Hl. rewrite lookup_app_r; rewrite length_take; [|lia]. by replace (i - i `min` length rows) with 0 by lia. }
      assert (Wr : Exec.wide w r) by (eapply (Forall_lookup_1 _ _ _ _ rows_wide Hr)).
      destruct (Aggregate.key_of_ok (E := ExecError) keys w r) as [-> Hk]; [exact Wr|exact keys_lt|]. simpl.
      assert (Hki : Aggregate.row_key keys r = key i) by (unfold key, row; by rewrite Hr).
      rewrite Hki in Hk |- *. apply IH; [|lia|].
      + by rewrite (take_S_r _ _ _ Hr), <- app_assoc.
      + rewrite seq_S. by apply Aggregate.push_group_exact. }
  apply (H rows 0 []); [done|done|]. split; [split; constructor| |]; [by intros k rs ?%not_elem_of_nil|].
  intros k. split; [by intros ?%not_elem_of_nil|]. by intros (r & ?%not_elem_of_nil & _).
Qed.

(** [store] writes the value of each position to its row. *)
Lemma store_ok (Q : nat -> Value -> Prop) part vals result :
  Forall2 Q part vals -> Forall (fun i => i < length result) part ->
  length (store part vals result) = length result /\
  (forall i, i ∈ part -> exists v, store part vals result !! i = Some v /\ Q i v) /\
  (forall i, i ∉ part -> store part vals result !! i = result !! i).
Proof.
  unfold store. intros H. revert result. induction H as [|i v part vals Hq Hqs IH]; intros result Hl; simpl.
  { split; [done|]. split; [by intros i ?%not_elem_of_nil|done]. }
  apply Forall_cons in Hl as [Hi Hl]. destruct (IH (<[i := v]> result)) as (H1 & H2 & H3).
  { by rewrite length_insert. }
  rewrite length_insert in H1. split_and!; [done| |].
  - intros j Hj. destruct (decide (j ∈ part)) as [Hin|Hnin]; [by apply H2|].
    apply elem_of_cons in Hj as [->|?]; [|done]. exists v. rewrite (H3 i Hnin).
    split; [by apply list_lookup_insert_eq|done].
  - intros j Hj. apply not_elem_of_cons in Hj as [Hne Hj]. rewrite H3 by done. by apply list_lookup_insert_ne.
Qed.

(** Whatever holds of every value computed for a partition holds of the result. *)
Lemma eval_parts_ok call (Q : nat -> Value -> Prop) ps :
  (forall k is_, (k, is_) ∈ ps -> exists i, i < n /\ is_ = partition i) ->
  (forall i, i < n -> exists vals,
     eval_part columns rows order call (sorted_part (partition i)) = Ok vals /\
     Forall2 Q (sorted_part (partition i)) vals) ->
  forall result, length result = n ->
  exists result', eval_parts columns rows order call ps result = Ok result' /\ length result' = n /\
    forall i, i < n ->
      ((exists k is_, (k, is_) ∈ ps /\ i ∈ is_) \/ exists v, result !! i = Some v /\ Q i v) ->
      exists v, result' !! i = Some v /\ Q i v.
Proof.
  intros Hps Hev. induction ps as [|[k is_] ps IH]; intros result Hn.
  { exists result. split_and!; [done|done|]. intros i Hi [(k & is_ & ?%not_elem_of_nil & _)|H]; done. }
  destruct (Hps k is_) as (i0 & Hi0 & ->); [left|]. simpl.
  rewrite sort_part_ok; [|apply partition_valid|constructor]. simpl. fold (VectorIndex.sort_by icmp (partition i0)).
  fold (sorted_part (partition i0)). destruct (Hev i0 Hi0) as (vals & -> & HQ). simpl.
  assert (Hperm : sorted_part (partition i0) ≡ₚ partition i0) by apply VectorIndex.sort_by_perm.
  destruct (store_ok Q _ _ result HQ) as (S1 & S2 & S3).
  { rewrite Hperm, Hn. apply partition_valid. }
  destruct (IH) with (result := store (sorted_part (partition i0)) vals result) as (result' & E & Hl & Hr).
  { intros k' is' Hin. apply (Hps k'). by right. }
  { by rewrite S1. }
  exists result'. split_and!; [done|done|]. intros i Hi Hor. apply Hr; [done|].
  destruct (decide (i ∈ sorted_part (partition i0))) as [Hin|Hnin]; [right; by apply S2|].
  destruct Hor as [(k' & is' & [[= -> ->]|Hin]%elem_of_cons & Hi')|H].
  - by rewrite Hperm in Hnin.
  - left. eauto.
  - right. by rewrite S3.
Qed.

(** The groups of the partitioning are the partitions. *)
Lemma windows_ok call (Q : nat -> Value -> Prop) :
  (forall i, i < n -> exists vals,
     eval_part columns rows order call (sorted_part (partition i)) = Ok vals /\
     Forall2 Q (sorted_part (partition i)) vals) ->
  exists ps result, partition_rows keys 0 rows [] = Ok ps /\
    eval_parts columns rows order call ps (replicate n Null) = Ok result /\ length result = n /\
    forall i, i < n -> exists v, result !! i = Some v /\ Q i v.
Proof.
  intros Hev. destruct partition_rows_ok as (ps & Eps & Hg).
  assert (Hin : forall k is_, (k, is_) ∈ ps -> exists i, i < n /\ is_ = partition i).
  { intros k is_ Hk. assert (Hkk : k ∈ ps.*1) by (apply list_elem_of_fmap; by exists (k, is_)).
    apply (Aggregate.ge_keys _ _ _ Hg) in Hkk as (i & Hi%elem_of_seq & <-). exists i. split; [lia|].
    by apply (Aggregate.ge_group _ _ _ Hg) in Hk. }
  destruct (eval_parts_ok call Q ps Hin Hev (replicate n Null)) as (result & E & Hl & Hr).
  { apply length_replicate. }
  exists ps, result. split_and!; [done..|]. intros i Hi. apply Hr; [done|]. left.
  assert (Hk : key i ∈ ps.*1).
  { apply (Aggregate.ge_keys _ _ _ Hg). exists i. split; [apply elem_of_seq; lia|done]. }
  apply list_elem_of_fmap in Hk as ([k is_] & Hk & Hps). simpl in Hk. exists k, is_. split; [done|].
  rewrite (Aggregate.ge_group _ _ _ Hg _ _ Hps), <- Hk. by apply partition_self.
Qed.
End Spec.

(** ** Columns *)

Lemma column_index_ok columns c : c ∈ columns ->
  exists i, column_index columns c = Ok i /\ i < length columns /\ columns !! i = Some c.
Proof.
  intros (i & Hi & Hlt)%Aggregate.index_of_Some. exists i. unfold column_index. rewrite Hi.
  split_and!; [done|done|]. unfold Aggregate.index_of in Hi. apply position_Some in Hi as (x & Hx & Hp & _).
  by apply bool_decide_eq_true in Hp as ->.
Qed.

Lemma partition_columns_ok columns cs : Forall (fun c => c ∈ columns) cs ->
  exists is_, column_indices columns cs = Ok is_ /\ Forall (fun i => i < length columns) is_ /\
    Forall2 (fun c i => columns !! i = Some c) cs is_.
Proof.
  induction 1 as [|c cs Hc _ (is_ & E & H1 & H2)]; [exists []; by repeat constructor|]. simpl.
  destruct (column_index_ok columns c Hc) as (i & -> & Hi & Hl). simpl. rewrite E. simpl.
  exists (i :: is_). by repeat constructor.
Qed.

(** The columns an [ORDER BY] names, with their directions. *)
Definition ordered_by (columns : list str) (obs : list Ast.OrderBy) (order : list (nat * bool)) : Prop :=
  Forall2 (fun ob io => columns !! io.1 = Some (Ast.ob_column ob) /\ io.2 = Ast.descending ob) obs order.

Lemma order_indices_ok columns obs : Forall (fun ob => Ast.ob_column ob ∈ columns) obs ->
  exists order, order_indices columns obs = Ok order /\ Forall (fun io => io.1 < length columns) order /\
    ordered_by columns obs order.
Proof.
  induction 1 as [|ob obs Hc _ (is_ & E & H1 & H2)]; [exists []; by repeat constructor|]. simpl.
  destruct (column_index_ok columns _ Hc) as (i & -> & Hi & Hl). simpl. rewrite E. simpl.
  exists ((i, Ast.descending ob) :: is_). by repeat constructor.
Qed.

Lemma collect_ok {A B} (f : A -> outcome ExecError B) (g : A -> B) l :
  (forall x, x ∈ l -> f x = Ok (g x)) -> collect f l = Ok (map g l).
Proof.
  induction l as [|x l IH]; intros H; [done|]. simpl. rewrite H by left. simpl.
  rewrite IH; [done|]. intros y Hy. apply H. by right.
Qed.

Lemma map_filter_rows (P : list Value -> Prop) `{forall r, Decision (P r)} (rows : list (list Value)) :
  map (row rows) (filter (fun i => P (row rows i)) (seq 0 (length rows))) = filter P rows.
Proof.
  assert (Hr : map (row rows) (seq 0 (length rows)) = rows).
  { apply list_eq. intros i. rewrite list_lookup_fmap. destruct (decide (i < length rows)) as [Hi|Hi].
    - rewrite lookup_seq_lt by done. simpl. unfold row. by destruct (lookup_lt_is_Some_2 rows i Hi) as [r ->].
    - rewrite lookup_seq_ge, (lookup_ge_None_2 rows) by lia. done. }
  rewrite <- Hr at 3. generalize (seq 0 (length rows)) as l. induction l as [|i l IH]; [done|]. simpl.
  destruct (decide (P (row rows i))).
  - rewrite !filter_cons_True by done. simpl. by rewrite IH.
  - rewrite !filter_cons_False by done. exact IH.
Qed.

Lemma partition_same rows keys i j : j ∈ partition rows keys i -> partition rows keys j = partition rows keys i.
Proof. intros [Hk _]%list_elem_of_filter. unfold partition. by rewrite Hk. Qed.

(** Without [ORDER BY] a partition keeps the input order. *)
Lemma sorted_part_unordered rows l : sorted_part rows [] l = l.
Proof.
  unfold sorted_part, VectorIndex.sort_by.
  assert (Hi : forall x s, VectorIndex.insert_by (icmp rows []) x s = s ++ [x]).
  { intros x s. induction s as [|y s IH]; [done|]. simpl. by rewrite IH. }
  assert (H : forall s, foldl (fun s x => VectorIndex.insert_by (icmp rows []) x s) s l = s ++ l).
  { induction l as [|x l IH]; intros s; simpl; [by rewrite app_nil_r|]. rewrite IH, Hi. by rewrite <- app_assoc. }
  apply H.
Qed.

Lemma eval_aggregate_ok func column columns rows :
  func = Ast.Count \/ column ∈ columns -> Forall (Exec.wide (length columns)) rows ->
  exists v, Aggregate.eval_aggregate func column columns rows = Ok v.
Proof.
  intros Hc Hr. destruct (Aggregate.eval_aggregates_ok [([], func, column)] columns rows) as [vs E].
  - by apply Forall_singleton.
  - exact Hr.
  - simpl in E. destruct (Aggregate.eval_aggregate func column columns rows); [eauto|done|done].
Qed.

(** The place of row [i] in its partition. *)
Definition rank_in (rows : list (list Value)) (keys : list nat) (order : list (nat * bool)) (i : nat) : nat :=
  length (filter (fun j => before rows order j i /\ key rows keys j = key rows keys i) (seq 0 (length rows))).

Lemma row_number_part (columns : list str) rows order keys i :
  Forall (Exec.wide (length columns)) rows -> Forall (fun i => i.1 < length columns) order ->
  Forall2 (fun i v => v = Int (Z.of_nat (rank_in rows keys order i) + 1))
    (sorted_part rows order (partition rows keys i))
    (map (fun pos => Int (Z.of_nat pos + 1)) (seq 0 (length (sorted_part rows order (partition rows keys i))))).
Proof.
  intros Hr Ho. set (sp := sorted_part rows order (partition rows keys i)).
  assert (Hs : StronglySorted (before rows order) sp).
  { apply (sorted_part_before columns rows order Hr); [|apply partition_valid].
    apply filter_sorted, seq_sorted. }
  assert (Hp : sp ≡ₚ partition rows keys i) by apply VectorIndex.sort_by_perm.
  apply Forall2_same_length_lookup_2; [by rewrite length_map, length_seq|].
  intros p j v Hj Hv. assert (Hlt := lookup_lt_Some _ _ _ Hj).
  apply list_lookup_fmap_Some in Hv as (q & -> & Hq). rewrite lookup_seq_lt in Hq by done. injection Hq as <-.
  f_equal. f_equal. f_equal. rewrite <- (position_count rows order sp p j Hs Hj) at 1. unfold rank_in.
  rewrite Hp. apply list_elem_of_lookup_2 in Hj. rewrite Hp in Hj.
  rewrite <- (partition_same _ _ _ _ Hj). unfold partition. by rewrite list_filter_filter.
Qed.

Lemma whole_part (columns : list str) rows keys i spec func column :
  Forall (Exec.wide (length columns)) rows -> func = Ast.Count \/ column ∈ columns -> i < length rows ->
  Ast.frame spec = None -> Ast.ws_order_by spec = [] ->
  exists v, Aggregate.eval_aggregate func column columns
      (filter (fun r => Aggregate.row_key keys r = key rows keys i) rows) = Ok v /\
    agg_part columns rows [] (partition rows keys i) spec func column =
      Ok (map (fun _ => v) (seq 0 (length (partition rows keys i)))).
Proof.
  intros Hr Hc Hi Hf Ho. set (part := partition rows keys i).
  assert (Hrows : map (row rows) part = filter (fun r => Aggregate.row_key keys r = key rows keys i) rows)
    by exact (map_filter_rows (fun r => Aggregate.row_key keys r = key rows keys i) rows).
  destruct (eval_aggregate_ok func column columns (map (row rows) part) Hc) as [v Ev].
  { rewrite Hrows. apply Forall_forall. intros r [_ Hin]%list_elem_of_filter. by rewrite Forall_forall in Hr; auto. }
  exists v. rewrite <- Hrows. split; [done|]. unfold agg_part. rewrite Hf, Ho. simpl.
  assert (Hpos : 0 < length part).
  { assert (Hin := partition_self rows keys i Hi). fold part in Hin. destruct part; [by apply not_elem_of_nil in Hin|simpl; lia]. }
  apply collect_ok. intros pos Hpos'. unfold frame_value, resolve_frame. simpl.
  replace (length part - 1 <? 0) with false by (symmetry; apply Nat.ltb_ge; lia).
  rewrite (collect_ok _ (fun p => row rows (default 0 (part !! p)))).
  - simpl. replace (length part - 1 - 0 + 1) with (length part) by lia. rewrite <- Ev. f_equal.
    apply list_eq. intros p. rewrite !list_lookup_fmap. destruct (decide (p < length part)) as [Hp|Hp].
    + rewrite lookup_seq_lt by done. simpl. by destruct (lookup_lt_is_Some_2 part p Hp) as [j ->].
    + rewrite lookup_seq_ge, (lookup_ge_None_2 part) by lia. done.
  - intros p Hp%elem_of_seq. destruct (lookup_lt_is_Some_2 part p) as [j Hj]; [lia|].
    assert (Ea : at_ part p = Ok j) by (unfold at_; by rewrite Hj).
    assert (Hv := partition_valid rows keys i). assert (Hjn := Forall_lookup_1 _ _ _ _ Hv Hj).
    destruct (at_row columns rows Hr j Hjn) as (Er & _ & _). unfold row_at. rewrite Ea. cbn [obind].
    by rewrite Er, Hj.
Qed.

(** C32: Over existing columns, in rows that have a value
    for each, [ROW_NUMBER] succeeds and gives each row its place, counted from 1, among the rows with the same
    [PARTITION BY] values, in the order of the [ORDER BY] columns and for ties
    in input order.  An aggregate over a window without [ORDER BY] and without
    frame succeeds and gives each row the aggregate of all rows of its
    partition, one value per row.  (The other functions and frames are not
    covered; one of them panics, see [range_without_order_panics].) *)
Theorem window_functions_exact (columns : list str) rows spec :
  Forall (Exec.wide (length columns)) rows ->
  Forall (fun c => c ∈ columns) (Ast.partition_by spec) ->
  Forall (fun ob => Ast.ob_column ob ∈ columns) (Ast.ws_order_by spec) ->
  exists keys order,
    Forall2 (fun c i => columns !! i = Some c) (Ast.partition_by spec) keys /\
    ordered_by columns (Ast.ws_order_by spec) order /\
    eval_window_call (Ast.mkWindowCall Ast.RowNumber spec) columns rows =
      Ok (map (fun i => Int (Z.of_nat (rank_in rows keys order i) + 1)) (seq 0 (length rows))) /\
    (Ast.frame spec = None -> Ast.ws_order_by spec = [] ->
     forall func column, func = Ast.Count \/ column ∈ columns ->
     exists result, eval_window_call (Ast.mkWindowCall (Ast.WAgg func column) spec) columns rows = Ok result /\
       length result = length rows /\
       forall i r, rows !! i = Some r -> exists v, result !! i = Some v /\
         Aggregate.eval_aggregate func column columns
           (filter (fun r' => Aggregate.row_key keys r' = Aggregate.row_key keys r) rows) = Ok v).
Proof.
  intros Hr Hp Ho. destruct (partition_columns_ok columns _ Hp) as (keys & Ek & Hk & Hk2).
  destruct (order_indices_ok columns _ Ho) as (order & Eo & Hord & Ho2).
  exists keys, order. split; [done|]. split; [done|]. unfold eval_window_call.
  cbn [Ast.wc_spec]. rewrite Ek, Eo. simpl. split.
  - destruct (windows_ok columns rows order keys Hr Hord Hk (Ast.mkWindowCall Ast.RowNumber spec)
      (fun i v => v = Int (Z.of_nat (rank_in rows keys order i) + 1))) as (ps & result & -> & E & Hl & Hres).
    { intros i Hi. eexists. split; [reflexivity|]. by apply (row_number_part columns). }
    simpl. rewrite E. f_equal. apply list_eq. intros i. rewrite list_lookup_fmap.
    destruct (decide (i < length rows)) as [Hi|Hi].
    + rewrite lookup_seq_lt by done. simpl. by destruct (Hres i Hi) as (v & -> & ->).
    + rewrite lookup_seq_ge, lookup_ge_None_2 by lia. done.
  - intros Hf Hnone func column Hc. rewrite Hnone in Eo. simpl in Eo. injection Eo as <-.
    destruct (windows_ok columns rows [] keys Hr Hord Hk (Ast.mkWindowCall (Ast.WAgg func column) spec)
      (fun i v => Aggregate.eval_aggregate func column columns
        (filter (fun r' => Aggregate.row_key keys r' = key rows keys i) rows) = Ok v)) as (ps & result & -> & E & Hl & Hres).
    { intros i Hi. rewrite sorted_part_unordered. unfold eval_part. cbn [Ast.wc_func Ast.wc_spec].
      destruct (whole_part columns rows keys i spec func column Hr Hc Hi Hf Hnone) as (v & Ev & ->).
      eexists. split; [reflexivity|]. apply Forall2_same_length_lookup_2; [by rewrite length_map, length_seq|].
      intros p j v' Hj Hv'. apply list_lookup_fmap_Some in Hv' as (q & -> & _).
      apply list_elem_of_lookup_2, list_elem_of_filter in Hj as [-> _]. exact Ev. }
    simpl. exists result. split_and!; [done|done|]. intros i r Hi.
    destruct (Hres i) as (v & Hv & Ev); [by eapply lookup_lt_Some|]. exists v. split; [done|].
    unfold key, row in Ev. by rewrite Hi in Ev.
Qed.

(** ** Frames that are wrong *)

Definition demo_columns : list str := [lit "dept"; lit "salary"].
Definition demo_rows : list (list Value) :=
  [[Value.Text (lit "eng"); Int 100]; [Value.Text (lit "ops"); Int 50];
   [Value.Text (lit "eng"); Int 300]; [Value.Text (lit "eng"); Int 200]].

Lemma window_functions_exact_witness :
  exists keys order,
    eval_window_call (Ast.mkWindowCall Ast.RowNumber
      (Ast.mkWindowSpec [lit "dept"] [Ast.mkOrderBy (lit "salary") true] None)) demo_columns demo_rows =
      Ok (map (fun i => Int (Z.of_nat (rank_in demo_rows keys order i) + 1)) (seq 0 4)) /\
    map (fun i => rank_in demo_rows keys order i) (seq 0 4) = [2; 0; 0; 1].
Proof.
  destruct (window_functions_exact demo_columns demo_rows
    (Ast.mkWindowSpec [lit "dept"] [Ast.mkOrderBy (lit "salary") true] None)) as (keys & order & Hk & Ho & E & _).
  - repeat constructor.
  - apply Forall_singleton. left.
  - apply Forall_singleton. right. left.
  - exists keys, order. split; [exact E|].
    assert (E' : eval_window_call (Ast.mkWindowCall Ast.RowNumber
      (Ast.mkWindowSpec [lit "dept"] [Ast.mkOrderBy (lit "salary") true] None)) demo_columns demo_rows =
      Ok [Int 3; Int 1; Int 1; Int 2]) by (vm_compute; reflexivity).
    rewrite E' in E. injection E as E0 E1 E2 E3. simpl. repeat f_equal; lia.
Defined.

Definition sum_over (spec : Ast.WindowSpec) : outcome ExecError (list Value) :=
  eval_window_call (Ast.mkWindowCall (Ast.WAgg Ast.Sum (lit "salary")) spec) demo_columns demo_rows.

(** A running total in descending order is the total of the rows that follow. *)
Example descending_running_total :
  sum_over (Ast.mkWindowSpec [lit "dept"] [Ast.mkOrderBy (lit "salary") true] None) =
    Ok [Int 100; Int 50; Int 600; Int 300] /\
  sum_over (Ast.mkWindowSpec [lit "dept"] [Ast.mkOrderBy (lit "salary") false] None) =
    Ok [Int 100; Int 50; Int 600; Int 300].
Proof. split; vm_compute; reflexivity. Qed.

(** [OVER (RANGE UNBOUNDED PRECEDING)] without [ORDER BY]. *)
Example range_without_order_panics :
  sum_over (Ast.mkWindowSpec [] [] (Some (Ast.mkFrame Ast.Range Ast.UnboundedPreceding Ast.CurrentRow))) = Panic.
Proof. vm_compute. reflexivity. Qed.

(** [ROWS BETWEEN 1 FOLLOWING AND 2 FOLLOWING] on the last row of a partition. *)
Example empty_frame_is_clipped :
  sum_over (Ast.mkWindowSpec [lit "dept"] [Ast.mkOrderBy (lit "salary") false]
    (Some (Ast.mkFrame Ast.Rows (Ast.Following 1) (Ast.Following 2)))) =
    Ok [Int 500; Int 50; Int 300; Int 300].
Proof. vm_compute. reflexivity. Qed.

End Window.
