(* ===== verification/Codec.v ===== *)
(** * Codec: schemas and the row codec
    ([crates/tpt-archon-relational/src/database/schema.rs] and [codec.rs])

    The decoder's position is kept as the bytes that are left: [pos + n > len]
    is "fewer than [n] bytes are left". *)
From Stdlib Require Import ZArith Lia Strings.Byte Strings.String Floats.SpecFloat.
From stdpp Require Import base numbers option list.
From S2P Require Import Prelude Ast Value.

Module Codec.
Import Ast(str, lit, f32, ColumnType, Expr).
Import Value(Value, Int, Float, Text, Vector, Bool, Null, ExecError).

(** ** Schemas and errors *)

Record ForeignKey : Type := mkForeignKey {
  fk_columns : list str;
  ref_table : str;
  ref_columns : list str;
}.

Record Schema : Type := mkSchema {
  columns : list str;
  types : list ColumnType;
  not_null : list str;
  primary_key : option (list str);
  unique : list (list str);
  foreign_keys : list ForeignKey;
  checks : list Expr;
}.

Definition index_of (s : Schema) (name : str) : option nat :=
  position (fun c => bool_decide (c = name)) (columns s).

Inductive DbError : Type :=
| UnknownColumn (c : str)
| TypeMismatch
| ColumnTypeMismatch (c : str)
| ArityMismatch
| NotAVectorColumn (c : str)
| MissingParam
| RowNotFound (id : Z)
| CorruptRow (id : Z)
| UnknownTable (t : str)
| TransactionError (msg : str)
| TableAlreadyExists (t : str)
| ViewAlreadyExists (v : str)
| UnknownView (v : str)
| RecursiveView (v : str)
| Unsupported (msg : str)
| ColumnCountMismatch
| SubqueryCardinality (msg : str)
| NotNullViolation (c : str)
| UniqueViolation (c : str)
| CheckViolation (c : str)
| ForeignKeyViolation (c : str)
| Exec (e : ExecError).

(** [From<ExecError> for DbError]. *)
Definition of_exec (e : ExecError) : DbError :=
  match e with
  | Value.UnknownColumn c => UnknownColumn c
  | Value.TypeMismatch => TypeMismatch
  | Value.GroupByColumnNotFound c => UnknownColumn c
  | Value.UnresolvedSubquery =>
      Unsupported (lit "internal: subquery reached the pure evaluator unresolved")
  | Value.Unsupported msg => Unsupported msg
  end.

(** ** UTF-8

    [String::from_utf8_lossy]: the bytes of the next well-formed character, or of
    the next maximal ill-formed part, which becomes U+FFFD. *)
Definition in_range (lo hi : Z) (b : option byte) : bool :=
  match b with Some b => (lo <=? b2z b)%Z && (b2z b <=? hi)%Z | None => false end.
Definition is_cont : option byte -> bool := in_range 128 191.

(** Whether the next character is well formed, and how many bytes it takes. *)
Definition utf8_next (s : list byte) : bool * nat :=
  let at_ i := s !! i in
  if in_range 0 127 (at_ 0) then (true, 1)
  else if in_range 194 223 (at_ 0) then (if is_cont (at_ 1) then (true, 2) else (false, 1))
  else if in_range 224 239 (at_ 0) then
    let ok := if in_range 224 224 (at_ 0) then in_range 160 191 (at_ 1)
              else if in_range 237 237 (at_ 0) then in_range 128 159 (at_ 1)
              else is_cont (at_ 1) in
    if ok then (if is_cont (at_ 2) then (true, 3) else (false, 2)) else (false, 1)
  else if in_range 240 244 (at_ 0) then
    let ok := if in_range 240 240 (at_ 0) then in_range 144 191 (at_ 1)
              else if in_range 244 244 (at_ 0) then in_range 128 143 (at_ 1)
              else is_cont (at_ 1) in
    if ok then
      (if is_cont (at_ 2) then (if is_cont (at_ 3) then (true, 4) else (false, 3)) else (false, 2))
    else (false, 1)
  else (false, 1).

Fixpoint utf8_lossy_loop (fuel : nat) (s : list byte) : str :=
  match fuel with
  | O => []
  | S fuel' =>
      match s with
      | [] => []
      | _ => let '(ok, n) := utf8_next s in
             (if ok then take n s else [xef; xbf; xbd]) ++ utf8_lossy_loop fuel' (drop n s)
      end
  end.
Definition from_utf8_lossy (s : list byte) : str := utf8_lossy_loop (length s) s.

(** The invariant of a Rust [String]. *)
Fixpoint utf8_valid_loop (fuel : nat) (s : list byte) : bool :=
  match fuel with
  | O => true
  | S fuel' =>
      match s with
      | [] => true
      | _ => let '(ok, n) := utf8_next s in ok && utf8_valid_loop fuel' (drop n s)
      end
  end.
Definition utf8_valid (s : list byte) : bool := utf8_valid_loop (length s) s.

(** ** The codec *)

Definition MVCC_LIVE : byte := x00.
Definition MVCC_TOMBSTONE : byte := x01.

Definition encode_value (v : Value) : list byte :=
  match v with
  | Int i => x00 :: le_bytes 8 i
  | Text t => x01 :: le_bytes 4 (Z.of_nat (length t)) ++ t
  | Vector vec => x02 :: le_bytes 4 (Z.of_nat (length vec)) ++ concat (map (le_bytes 4) vec)
  | Float f => x04 :: le_bytes 4 f
  | Bool b => [x06; if b then x01 else x00]
  | Null => [x03]
  end.

(** [values.len() as u16] keeps the low 16 bits. *)
Definition encode_row (values : list Value) : list byte :=
  le_bytes 2 (Z.of_nat (length values)) ++ concat (map encode_value values).

Definition mvcc_wrap_row (values : list Value) : list byte := MVCC_LIVE :: encode_row values.
Definition mvcc_wrap_tombstone : list byte := [MVCC_TOMBSTONE].

Abbreviation D := (outcome DbError).

(** [n] floats of the bytes that are left. *)
Fixpoint take_floats (n : nat) (rest : list byte) : list f32 :=
  match n with
  | O => []
  | S n' => le_val (take 4 rest) :: take_floats n' (drop 4 rest)
  end.

(** One iteration of the loop of [try_decode_row]: the value and the bytes left. *)
Definition decode_value (rest : list byte) : D (Value * list byte) :=
  match rest with
  | [] => Err (CorruptRow 0)
  | tag :: rest =>
      match b2z tag with
      | 0%Z => if decide (length rest < 8) then Err (CorruptRow 0)
               else Ok (Int (wrap_i64 (le_val (take 8 rest))), drop 8 rest)
      | 1%Z => if decide (length rest < 4) then Err (CorruptRow 0)
               else
                 let len := Z.to_nat (le_val (take 4 rest)) in
                 let rest := drop 4 rest in
                 if decide (length rest < len) then Err (CorruptRow 0)
                 else Ok (Text (from_utf8_lossy (take len rest)), drop len rest)
      | 2%Z => if decide (length rest < 4) then Err (CorruptRow 0)
               else
                 let len := Z.to_nat (le_val (take 4 rest)) in
                 let rest := drop 4 rest in
                 if decide (length rest < len * 4) then Err (CorruptRow 0)
                 else Ok (Vector (take_floats len rest), drop (len * 4) rest)
      | 3%Z => Ok (Null, rest)
      | 4%Z => if decide (length rest < 4) then Err (CorruptRow 0)
               else Ok (Float (le_val (take 4 rest)), drop 4 rest)
      | 5%Z => Ok (Null, rest)
      | 6%Z => match rest with
               | [] => Err (CorruptRow 0)
               | b :: rest => Ok (Bool (negb (Byte.eqb b x00)), rest)
               end
      | _ => Ok (Int 0, rest)
      end
  end.

Fixpoint decode_values (n : nat) (rest : list byte) : D (list Value) :=
  match n with
  | O => Ok []
  | S n' =>
      match decode_value rest with
      | Ok (v, rest') =>
          match decode_values n' rest' with
          | Ok vs => Ok (v :: vs)
          | Err e => Err e
          | Panic => Panic
          end
      | Err e => Err e
      | Panic => Panic
      end
  end.

Definition try_decode_row (bytes : list byte) : D (list Value) :=
  if decide (length bytes < 2) then Err (CorruptRow 0)
  else decode_values (Z.to_nat (le_val (take 2 bytes))) (drop 2 bytes).

Definition decode_row_validated (id : Z) (bytes : list byte) (col_count : nat) : D (list Value) :=
  match try_decode_row bytes with
  | Ok row => if decide (length row ≠ col_count) then Err (CorruptRow id) else Ok row
  | Err e => Err e
  | Panic => Panic
  end.


(** Indexing the schema out of bounds panics. *)
Definition literal_to_value (s : Schema) (slot : nat) (l : Ast.Literal) : D Value :=
  match types s !! slot with
  | None => Panic
  | Some expected =>
      match expected, l with
      | _, Ast.LNull => Ok Null
      | Ast.TInt, Ast.LInt i => Ok (Int i)
      | Ast.TFloat, Ast.LFloat f => Ok (Float f)
      | Ast.TFloat, Ast.LInt i => Ok (Float (Value.f32_of_int i))
      | Ast.TDouble, Ast.LFloat f => Ok (Float f)
      | Ast.TDouble, Ast.LInt i => Ok (Float (Value.f32_of_int i))
      | Ast.TText, Ast.LText t => Ok (Text t)
      | Ast.TVarchar _, Ast.LText t => Ok (Text t)
      | Ast.TVector, Ast.LVector v => Ok (Vector v)
      | Ast.TBoolean, Ast.LBool b => Ok (Bool b)
      | Ast.TBoolean, Ast.LInt 0 => Ok (Bool false)
      | Ast.TBoolean, Ast.LInt 1 => Ok (Bool true)
      | Ast.TNumeric, Ast.LInt i => Ok (Int i)
      | Ast.TDate, Ast.LInt i => Ok (Int i)
      | Ast.TTimestamp, Ast.LInt i => Ok (Int i)
      | _, _ => match columns s !! slot with
                | Some c => Err (ColumnTypeMismatch c)
                | None => Panic
                end
      end
  end.

(** ** Round trip *)

(** The values Rust's types allow: an [i64], 32-bit floats, valid UTF-8, lengths
    that fit their 32-bit fields. *)
Definition storable (v : Value) : Prop :=
  match v with
  | Int i => (- 2 ^ 63 <= i < 2 ^ 63)%Z
  | Float f => is_u32 f
  | Text t => utf8_valid t = true /\ (Z.of_nat (length t) < 2 ^ 32)%Z
  | Vector v => Forall is_u32 v /\ (Z.of_nat (length v) < 2 ^ 32)%Z
  | _ => True
  end.

Lemma utf8_lossy_valid fuel s :
  length s <= fuel -> utf8_valid_loop fuel s = true -> utf8_lossy_loop fuel s = s.
Proof.
  revert s. induction fuel as [|fuel IH]; intros s Hl H; simpl in *.
  - destruct s; [done|simpl in Hl; lia].
  - destruct s as [|b s]; [done|]. destruct (utf8_next (b :: s)) as [ok n] eqn:E.
    apply andb_true_iff in H as [-> H].
    assert (Hn : 0 < n).
    { unfold utf8_next in E. repeat (case_match; simplify_eq; try lia). }
    rewrite IH; [apply take_drop| |done]. rewrite length_drop. simpl in *. lia.
Qed.

Lemma wrap_i64_le_bytes i :
  (- 2 ^ 63 <= i < 2 ^ 63)%Z -> wrap_i64 (le_val (le_bytes 8 i)) = i.
Proof.
  intros H. rewrite le_val_bytes. unfold wrap_i64.
  change (256 ^ Z.of_nat 8)%Z with (2 ^ 64)%Z.
  rewrite Zplus_mod_idemp_l. rewrite Z.mod_small by lia. lia.
Qed.

Lemma take_floats_encode vec rest :
  Forall is_u32 vec -> take_floats (length vec) (concat (map (le_bytes 4) vec) ++ rest) = vec.
Proof.
  induction 1 as [|f vec Hf _ IH]; [done|]. simpl. rewrite <- app_assoc.
  rewrite (take_app_length' (le_bytes 4 f)) by by rewrite le_bytes_length.
  rewrite (drop_app_length' (le_bytes 4 f)) by by rewrite le_bytes_length.
  by rewrite le_val_bytes_u32, IH.
Qed.

Lemma floats_length vec : length (concat (map (le_bytes 4) vec)) = length vec * 4.
Proof. induction vec as [|f vec IH]; [done|]. simpl. rewrite length_app, le_bytes_length, IH. lia. Qed.

(** A fixed-width field in front of the rest. *)
Lemma field_split n z (rest : list byte) :
  take n (le_bytes n z ++ rest) = le_bytes n z /\ drop n (le_bytes n z ++ rest) = rest /\
  (length (le_bytes n z ++ rest) < n -> False).
Proof.
  assert (Hl := le_bytes_length n z). split_and!.
  - by rewrite (take_app_length' (le_bytes n z)).
  - by rewrite (drop_app_length' (le_bytes n z)).
  - rewrite length_app. lia.
Qed.

Lemma decode_encode_value v rest :
  storable v -> decode_value (encode_value v ++ rest) = Ok (v, rest).
Proof.
  intros Hv. destruct v as [i|f|t|vec|b|]; cbn [encode_value app decode_value].
  - change (b2z x00) with 0%Z. cbv iota. destruct (field_split 8 i rest) as (H1 & H2 & H3).
    rewrite decide_False by done. by rewrite H1, H2, wrap_i64_le_bytes.
  - change (b2z x04) with 4%Z. cbv iota. destruct (field_split 4 f rest) as (H1 & H2 & H3).
    rewrite decide_False by done. by rewrite H1, H2, le_val_bytes_u32.
  - change (b2z x01) with 1%Z. cbv iota zeta. rewrite <- app_assoc. destruct Hv as [Hu Hl].
    destruct (field_split 4 (Z.of_nat (length t)) (t ++ rest)) as (H1 & H2 & H3).
    rewrite decide_False by done. rewrite H1, H2, le_val_bytes_u32, Nat2Z.id by (unfold is_u32; lia).
    rewrite decide_False by (rewrite length_app; lia). rewrite take_app_length, drop_app_length.
    unfold from_utf8_lossy. by rewrite utf8_lossy_valid.
  - change (b2z x02) with 2%Z. cbv iota zeta. rewrite <- app_assoc. destruct Hv as [Hu Hl].
    destruct (field_split 4 (Z.of_nat (length vec)) (concat (map (le_bytes 4) vec) ++ rest)) as (H1 & H2 & H3).
    rewrite decide_False by done. rewrite H1, H2, le_val_bytes_u32, Nat2Z.id by (unfold is_u32; lia).
    assert (Hfl := floats_length vec). rewrite decide_False by (rewrite length_app; lia).
    rewrite take_floats_encode by done. by rewrite <- Hfl, drop_app_length.
  - change (b2z x06) with 6%Z. cbv iota. by destruct b.
  - reflexivity.
Qed.

Lemma decode_encode_values vs rest :
  Forall storable vs -> decode_values (length vs) (concat (map encode_value vs) ++ rest) = Ok vs.
Proof.
  induction 1 as [|v vs Hv _ IH]; [done|]. cbn [length map concat decode_values].
  rewrite <- app_assoc, decode_encode_value by done. by rewrite IH.
Qed.

Lemma decode_value_no_panic rest : decode_value rest <> Panic.
Proof. unfold decode_value. repeat case_match; done. Qed.

Lemma decode_values_total n rest :
  (exists vs, decode_values n rest = Ok vs /\ length vs = n) \/
  decode_values n rest = Err (CorruptRow 0).
Proof.
  revert rest. induction n as [|n IH]; intros rest; cbn [decode_values]; [left; by exists []|].
  destruct (decode_value rest) as [[v rest']|e|] eqn:E.
  - destruct (IH rest') as [(vs & -> & Hl)| ->]; [left|by right].
    exists (v :: vs). split; [done|]. simpl. by rewrite Hl.
  - right. unfold decode_value in E. repeat case_match; by simplify_eq.
  - by apply decode_value_no_panic in E.
Qed.

(** A row of storable values is read back from its encoding, whatever follows it. *)
Lemma decode_row_ok id values trailing :
  Forall storable values -> (Z.of_nat (length values) < 2 ^ 16)%Z ->
  try_decode_row (encode_row values ++ trailing) = Ok values /\
  decode_row_validated id (encode_row values ++ trailing) (length values) = Ok values.
Proof.
  intros Hv Hl. assert (H : try_decode_row (encode_row values ++ trailing) = Ok values).
  { unfold try_decode_row, encode_row. rewrite <- app_assoc.
    destruct (field_split 2 (Z.of_nat (length values)) (concat (map encode_value values) ++ trailing))
      as (H1 & H2 & H3).
    rewrite decide_False by done. rewrite H1, H2, le_val_bytes.
    change (256 ^ Z.of_nat 2)%Z with (2 ^ 16)%Z. rewrite Z.mod_small, Nat2Z.id by lia.
    by apply decode_encode_values. }
  split; [exact H|]. unfold decode_row_validated. rewrite H. by rewrite decide_False by auto.
Qed.

(** ** Properties *)

(** A row of up to 65535 storable values is decoded to itself from its encoding,
    also when other bytes follow it and through the check of its column count. *)
Theorem row_roundtrip id values trailing :
  Forall storable values -> (Z.of_nat (length values) < 2 ^ 16)%Z ->
  try_decode_row (encode_row values ++ trailing) = Ok values /\
  decode_row_validated id (encode_row values ++ trailing) (length values) = Ok values.
Proof. apply decode_row_ok. Qed.

Lemma row_roundtrip_witness :
  try_decode_row (encode_row [Int (-5); Text (lit "hi"); Vector [1065353216%Z]; Bool true; Null] ++ [x2a]) =
  Ok [Int (-5); Text (lit "hi"); Vector [1065353216%Z]; Bool true; Null].
Proof.
  refine (proj1 (row_roundtrip 0 [Int (-5); Text (lit "hi"); Vector [1065353216%Z]; Bool true; Null] [x2a] _ _)).
  - repeat constructor; unfold storable, is_u32; try lia; vm_compute; done.
  - vm_compute. reflexivity.
Defined.

(** Decoding any bytes whatever returns a row with the announced number of values
    or the error [CorruptRow], never an out-of-bounds access; and a validated
    row has the schema's number of columns. *)
Theorem decode_never_panics id bytes n :
  (try_decode_row bytes = Err (CorruptRow 0) \/
   exists row, try_decode_row bytes = Ok row /\ length row = Z.to_nat (le_val (take 2 bytes))) /\
  (decode_row_validated id bytes n = Err (CorruptRow 0) \/ decode_row_validated id bytes n = Err (CorruptRow id) \/
   exists row, decode_row_validated id bytes n = Ok row /\ length row = n).
Proof.
  unfold decode_row_validated, try_decode_row. case_decide; [by split; left|].
  destruct (decode_values_total (Z.to_nat (le_val (take 2 bytes))) (drop 2 bytes)) as [(vs & E & Hl)|E];
    rewrite E; [|by split; left].
  split; [right; by exists vs|]. case_decide as Hd; [by right; left|]. right; right. exists vs.
  split; [done|]. destruct (decide (length vs = n)); [done|contradiction].
Qed.

(** A value with an unknown tag is read as the integer zero, not refused. *)
Example unknown_tag_is_zero : try_decode_row [x01; x00; x63] = Ok [Int 0].
Proof. reflexivity. Qed.

End Codec.
