(* ===== verification/Db.v ===== *)
(** * Db: tables, their indexes, and the state of a database
    ([crates/tpt-archon-relational/src/database/mod.rs] and [storage.rs])

    The records of the engine, looking tables up, reading rows through the
    writes of an open transaction, the upkeep of the vector indexes, and the
    session parameters.  A failure is a [DbError] or the exhaustion of the call
    stack, which only the recursion of queries can cause (Select). *)
From Stdlib Require Import ZArith Lia Strings.Byte Strings.String.
From stdpp Require Import base numbers option list gmap.
From S2P Require Import Prelude Ast Value BTree Mvcc VectorIndex Codec.

Module Db.
Import Ast(str, lit, f32).
Import Value(Value, Int, Text, Vector, Null, ResultSet).
Import Codec(Schema, DbError).

Inductive Failure : Type := Db (e : DbError) | StackOverflow.

Abbreviation R := (outcome Failure).

Definition db_err {A} (e : DbError) : R A := Err (Db e).

Definition obind {A B} (o : R A) (f : A -> R B) : R B :=
  match o with Ok a => f a | Err e => Err e | Panic => Panic end.

(** Code that cannot fail but may panic. *)
Definition of_tree {A} (o : outcome Empty_set A) : R A :=
  match o with Ok a => Ok a | Err e => match e with end | Panic => Panic end.
Definition of_db {A} (o : outcome DbError A) : R A := map_err Db o.

(** [v[i]]. *)
Definition at_ {A} (l : list A) (i : nat) : R A := match l !! i with Some x => Ok x | None => Panic end.

(** [.expect(..)], [.unwrap()]. *)
Definition expect {A} (o : option A) : R A := match o with Some x => Ok x | None => Panic end.

Definition ok_or {A} (o : option A) (e : DbError) : R A :=
  match o with Some x => Ok x | None => db_err e end.

(** [.map(f).collect::<Result<_, _>>()] and loops that stop at an error. *)
Fixpoint collect {A B} (f : A -> R B) (l : list A) : R (list B) :=
  match l with
  | [] => Ok []
  | x :: l' => obind (f x) (fun y => obind (collect f l') (fun ys => Ok (y :: ys)))
  end.

Fixpoint fold {A S} (f : S -> A -> R S) (s : S) (l : list A) : R S :=
  match l with [] => Ok s | x :: l' => obind (f s x) (fun s => fold f s l') end.

(** ** State *)

Record TableStorage : Type := mkTable {
  schema : Schema;
  tree : BTree.btree;
  next_row_id : Z;
  mvcc : Mvcc.MvccStore;
  vector_indexes : list (str * VectorIndex.IvfFlatIndex);
}.

Definition new_table (s : Schema) : TableStorage := mkTable s BTree.new 0 Mvcc.new [].

Abbreviation Txns := (list (str * Mvcc.Transaction)).

Record SessionTxn : Type := mkSession { s_in_transaction : bool; s_active_txns : Txns }.

Abbreviation SessionParameters := (gmap str str).

Record Database : Type := mkDb {
  tables : list (str * TableStorage);
  views : list (str * Ast.SelectStatement);
  in_transaction : bool;
  active_txns : Txns;
  session_parameters : SessionParameters;
  session_txns : gmap Z SessionTxn;
}.

Definition set_tables (t : list (str * TableStorage)) (db : Database) : Database :=
  mkDb t (views db) (in_transaction db) (active_txns db) (session_parameters db) (session_txns db).
Definition set_views (v : list (str * Ast.SelectStatement)) (db : Database) : Database :=
  mkDb (tables db) v (in_transaction db) (active_txns db) (session_parameters db) (session_txns db).
Definition set_txn (b : bool) (x : Txns) (db : Database) : Database :=
  mkDb (tables db) (views db) b x (session_parameters db) (session_txns db).
Definition set_parameters (p : SessionParameters) (db : Database) : Database :=
  mkDb (tables db) (views db) (in_transaction db) (active_txns db) p (session_txns db).
Definition set_sessions (s : gmap Z SessionTxn) (db : Database) : Database :=
  mkDb (tables db) (views db) (in_transaction db) (active_txns db) (session_parameters db) s.

(** ** Named entries of a vector: [iter().find(|(n, _)| n == name)] *)

Fixpoint find_named {A} (name : str) (l : list (str * A)) : option A :=
  match l with
  | [] => None
  | (n, x) :: l' => if decide (n = name) then Some x else find_named name l'
  end.

(** Replace the first entry of that name. *)
Fixpoint set_named {A} (name : str) (x : A) (l : list (str * A)) : list (str * A) :=
  match l with
  | [] => []
  | (n, y) :: l' => if decide (n = name) then (n, x) :: l' else (n, y) :: set_named name x l'
  end.

Definition table (name : str) (db : Database) : option TableStorage := find_named name (tables db).

(** Run a computation on the named table; [e] is what a missing table gives. *)
Definition on_table {A} (name : str) (e : R A) (f : M TableStorage Failure A) : M Database Failure A := fun db =>
  match table name db with
  | Some ts => let '(o, ts') := f ts in (o, set_tables (set_named name ts' (tables db)) db)
  | None => (e, db)
  end.

(** [SessionParameters::new]. *)
Definition default_parameters : SessionParameters := list_to_map
  [(lit "server_version", lit "16.0"); (lit "server_encoding", lit "UTF8");
   (lit "client_encoding", lit "UTF8"); (lit "application_name", lit "");
   (lit "DateStyle", lit "ISO, MDY"); (lit "TimeZone", lit "UTC");
   (lit "standard_conforming_strings", lit "on");
   (lit "search_path", [x22] ++ lit "$user" ++ [x22] ++ lit ", public");
   (lit "default_transaction_isolation", lit "read committed");
   (lit "transaction_isolation", lit "read committed")].

Definition empty : Database := mkDb [] [] false [] default_parameters ∅.

(** The legacy constructor: one table named [t]. *)
Definition new (s : Schema) : Database := set_tables [(lit "t", new_table s)] empty.

Fixpoint total_len (l : list (str * TableStorage)) : R nat :=
  match l with
  | [] => Ok 0
  | (_, t) :: l' => obind (of_tree (BTree.len (tree t))) (fun n => obind (total_len l') (fun m => Ok (n + m)))
  end.
Definition len (db : Database) : R nat := total_len (tables db).

Fixpoint all_empty (l : list (str * TableStorage)) : R bool :=
  match l with
  | [] => Ok true
  | (_, t) :: l' => obind (of_tree (BTree.is_empty (tree t))) (fun b => if b then all_empty l' else Ok false)
  end.
Definition is_empty (db : Database) : R bool := all_empty (tables db).

Definition table_names (db : Database) : list str := map fst (tables db).
Definition table_schema (name : str) (db : Database) : option Schema := schema <$> table name db.

(** ** Rows *)

(** [0..next_row_id]. *)
Definition ids (ts : TableStorage) : list Z := map Z.of_nat (seq 0 (Z.to_nat (next_row_id ts))).

Definition width (ts : TableStorage) : nat := length (Codec.columns (schema ts)).

(** A row as a transaction sees it: its own buffered write if there is one, else
    the tree's. *)
Definition fetch_row (ts : TableStorage) (txn : option Mvcc.Transaction) (id : Z) : R (option (list Value)) :=
  match t ← txn; Mvcc.get_write t id with
  | Some buffered =>
      match buffered with
      | [] => Panic
      | b :: bytes =>
          if Byte.eqb b Codec.MVCC_TOMBSTONE then Ok None
          else obind (of_db (Codec.decode_row_validated id bytes (width ts))) (fun r => Ok (Some r))
      end
  | None =>
      obind (of_tree (BTree.get (tree ts) id)) (fun o =>
      match o with
      | Some bytes => obind (of_db (Codec.decode_row_validated id bytes (width ts))) (fun r => Ok (Some r))
      | None => Ok None
      end)
  end.

(** The loop over the ids of a table. *)
Fixpoint fetch_rows (ts : TableStorage) (txn : option Mvcc.Transaction) (l : list Z) : R (list (Z * list Value)) :=
  match l with
  | [] => Ok []
  | id :: l' =>
      obind (fetch_row ts txn id) (fun o =>
      obind (fetch_rows ts txn l') (fun rs =>
      Ok (match o with Some r => (id, r) :: rs | None => rs end)))
  end.

Definition active_txn (name : str) (db : Database) : option Mvcc.Transaction := find_named name (active_txns db).

(** ** Operations on a table's tree *)

Definition tree_insert (id : Z) (bytes : list byte) : M TableStorage Failure unit := fun ts =>
  let '(o, t) := BTree.insert (tree ts) id bytes in
  (of_tree o, mkTable (schema ts) t (next_row_id ts) (mvcc ts) (vector_indexes ts)).

Definition tree_delete (id : Z) : M TableStorage Failure unit := fun ts =>
  let '(o, t) := BTree.delete (tree ts) id in
  (obind (of_tree o) (fun _ => Ok tt), mkTable (schema ts) t (next_row_id ts) (mvcc ts) (vector_indexes ts)).

Definition set_indexes (v : list (str * VectorIndex.IvfFlatIndex)) (ts : TableStorage) : TableStorage :=
  mkTable (schema ts) (tree ts) (next_row_id ts) (mvcc ts) v.
Definition set_schema (s : Schema) (ts : TableStorage) : TableStorage :=
  mkTable s (tree ts) (next_row_id ts) (mvcc ts) (vector_indexes ts).
Definition set_mvcc (m : Mvcc.MvccStore) (ts : TableStorage) : TableStorage :=
  mkTable (schema ts) (tree ts) (next_row_id ts) m (vector_indexes ts).

(** Lift a read. *)
Definition read {S A} (f : S -> R A) : M S Failure A := fun s => (f s, s).

(** ** Vector indexes *)

(** Run an operation on every index, in order; it can only panic.  The closure
    gets the column's name. *)
Definition each_index (f : str -> VectorIndex.IvfFlatIndex -> R VectorIndex.IvfFlatIndex)
    : M TableStorage Failure unit := fun ts =>
  match collect (fun ci => obind (f ci.1 ci.2) (fun x => Ok (ci.1, x))) (vector_indexes ts) with
  | Ok v => (Ok tt, set_indexes v ts)
  | Err e => (Err e, ts)
  | Panic => (Panic, ts)
  end.

Definition maintain_vector_indexes_for_row (id : Z) (row : list Value) : M TableStorage Failure unit := fun ts =>
  each_index (fun col idx =>
    match Codec.index_of (schema ts) col with
    | Some slot =>
        obind (at_ row slot) (fun v =>
        match v with
        | Vector vec => VectorIndex.insert id vec idx
        | _ => VectorIndex.remove id idx
        end)
    | None => VectorIndex.remove id idx
    end) ts.

Definition maintain_vector_indexes_on_delete (id : Z) : M TableStorage Failure unit :=
  each_index (fun _ idx => VectorIndex.remove id idx).

(** The vector columns without an index, with their slots. *)
Definition pending_cols (ts : TableStorage) : list (nat * str) :=
  List.filter (fun p => negb (existsb (fun ci => bool_decide (ci.1 = p.2)) (vector_indexes ts)))
    (map (fun p => (p.1, p.2.1))
      (List.filter (fun p => bool_decide (p.2.2 = Ast.TVector))
        (VectorIndex.enumerate (zip (Codec.columns (schema ts)) (Codec.types (schema ts)))))).

(** The vectors of one column among the rows. *)
Definition bucket (slot : nat) (rows : list (Z * list Value)) : R (list (Z * list f32)) :=
  fold (fun acc ir =>
    obind (at_ ir.2 slot) (fun v => Ok (match v with Vector vec => acc ++ [(ir.1, vec)] | _ => acc end))) [] rows.

Fixpoint build_indexes (cols : list (nat * str)) (rows : list (Z * list Value))
    : R (list (str * VectorIndex.IvfFlatIndex)) :=
  match cols with
  | [] => Ok []
  | (slot, name) :: cols' =>
      obind (bucket slot rows) (fun vectors =>
      obind (build_indexes cols' rows) (fun rest =>
      match vectors with
      | [] => Ok rest
      | _ => obind (VectorIndex.build vectors) (fun idx => Ok ((name, idx) :: rest))
      end))
  end.

Definition maybe_build_vector_indexes : M TableStorage Failure unit := fun ts =>
  if (next_row_id ts <? Z.of_nat VectorIndex.MIN_ROWS_FOR_INDEX)%Z then (Ok tt, ts)
  else
    match pending_cols ts with
    | [] => (Ok tt, ts)
    | cols =>
        match obind (fetch_rows ts None (ids ts)) (build_indexes cols) with
        | Ok new => (Ok tt, set_indexes (vector_indexes ts ++ new) ts)
        | Err e => (Err e, ts)
        | Panic => (Panic, ts)
        end
    end.

(** ** Session parameters *)

Definition reset (name : str) (p : SessionParameters) : SessionParameters :=
  match default_parameters !! name with
  | Some d => <[name := d]> p
  | None => delete name p
  end.

Definition run_set_parameter (s : Ast.SetParameterStatement) : M Database Failure unit :=
  m_modify (fun db => set_parameters (<[Ast.sp_name s := Ast.sp_value s]> (session_parameters db)) db).

Definition run_show_parameter (s : Ast.ShowParameterStatement) : M Database Failure ResultSet :=
  read (fun db =>
    Ok (Value.mkResult [lit "name"; lit "setting"]
      (match session_parameters db !! Ast.sh_name s with
       | Some v => [[Text (Ast.sh_name s); Text v]]
       | None => []
       end) None)).

Definition run_reset_parameter (s : Ast.ResetParameterStatement) : M Database Failure unit :=
  m_modify (fun db => set_parameters (reset (Ast.rp_name s) (session_parameters db)) db).

Definition run_reset_all : M Database Failure unit :=
  m_modify (fun db => set_parameters default_parameters db).

(** ** References to a table *)

Section References.
Context (name : str).

Fixpoint expr_references_table (e : Ast.Expr) : bool :=
  match e with
  | Ast.And l r | Ast.Or l r => expr_references_table l || expr_references_table r
  | Ast.Not e => expr_references_table e
  | Ast.Exists_ q | Ast.InSubquery _ q | Ast.ScalarCmp _ _ q => select_references_table q
  | _ => false
  end

with table_ref_references_table (r : Ast.TableRef) : bool :=
  match r with
  | Ast.Named n _ => bool_decide (n = name)
  | Ast.Subquery q _ => select_references_table q
  end

with select_references_table (s : Ast.SelectStatement) : bool :=
  match s with
  | Ast.mkSelect _ _ table filter joins _ _ _ _ _ _ having _ =>
      table_ref_references_table table ||
      existsb (fun j => let '(Ast.mkJoin _ t _) := j in table_ref_references_table t) joins ||
      match filter with Some f => expr_references_table f | None => false end ||
      match having with Some h => expr_references_table h | None => false end
  end.
End References.

End Db.
