(* ===== verification/Select.v ===== *)
(** * Select: queries over a database
    ([crates/tpt-archon-relational/src/database/select.rs] and [subquery.rs])

    [run_select_scoped] calls itself through subqueries, views and common table
    expressions.  The functions between two such calls take the callee as an
    argument ([run]); the knot is tied over the depth of the call stack, whose
    exhaustion is the failure [StackOverflow]. *)
From Stdlib Require Import ZArith Lia Strings.Byte Strings.String.
From stdpp Require Import base numbers option list gmap.
From S2P Require Import Prelude Ast Value Lexer Expr BTree Mvcc Aggregate Planner Exec VectorIndex Window Codec Db.

Module Select.
Import Ast(str, lit, f32, SelectStatement, CTE).
Import Value(Value, Vector, Null, ResultSet, mkResult).
Import Db(Failure, Database, TableStorage, db_err, obind, of_db, at_, expect, ok_or, collect, fold).
Abbreviation R := (outcome Failure).

Definition of_exec {A} (o : outcome Value.ExecError A) : R A := map_err (fun e => Db.Db (Codec.of_exec e)) o.

Definition DOT : byte := "."%byte.
Definition has_dot (s : str) : bool := existsb (fun c => Byte.eqb c DOT) s.
Definition qualify (q c : str) : str := q ++ [DOT] ++ c.
(** Prefix the names that have no qualifier. *)
Definition qualify_all (q : str) (columns : list str) : list str :=
  map (fun c => if has_dot c then c else qualify q c) columns.

(** [find('.')]. *)
Definition find_dot (s : str) : option nat := position (fun c => Byte.eqb c DOT) s.

(** A name bound to columns and rows. *)
Abbreviation RecursiveBinding := (str * list str * list (list Value))%type.
(** The rows of the enclosing queries. *)
Abbreviation Outer := (list (list str * list Value)).

Definition Run : Type :=
  SelectStatement -> list (list f32) -> Outer -> list CTE -> option RecursiveBinding -> R ResultSet.

(** ** Correlation *)

Definition column_resolves_locally (name : str) (own_columns : list str) : bool :=
  if existsb (fun c => bool_decide (c = name)) own_columns then true
  else if has_dot name then false
  else existsb (fun c => bool_decide (Expr.unqualified c = name)) own_columns.

(** The columns of the parent that belong to one table of the query. *)
Definition own_of_table (n : str) (alias : option str) (parent_columns : list str) : list str :=
  let qualifier := default n alias in
  map (fun c =>
    match find_dot c with
    | Some dot => qualify qualifier (drop (dot + 1) c)
    | None => qualify qualifier c
    end)
    (List.filter (fun c =>
       match find_dot c with
       | Some dot => bool_decide (take dot c = n) || bool_decide (alias = Some (take dot c))
       | None => true
       end) parent_columns).

Definition own_of_join (t : Ast.TableRef) (parent_columns : list str) : list str :=
  let jt_name := Ast.table_name t in
  let jt_qualifier := match t with
                      | Ast.Named _ alias => default jt_name alias
                      | Ast.Subquery _ alias => alias
                      end in
  flat_map (fun c =>
    match find_dot c with
    | Some dot =>
        if bool_decide (take dot c = jt_name) || bool_decide (take dot c = jt_qualifier)
        then [qualify jt_qualifier (drop (dot + 1) c)] else []
    | None => []
    end) parent_columns.

Definition own_columns_of (table : Ast.TableRef) (joins : list Ast.Join) (parent_columns : list str) : list str :=
  let cols := match table with
              | Ast.Named n alias => own_of_table n alias parent_columns
              | Ast.Subquery _ _ => parent_columns
              end
              ++ flat_map (fun j => let '(Ast.mkJoin _ t _) := j in own_of_join t parent_columns) joins in
  match cols with [] => parent_columns | _ => cols end.

Definition resolve_query_own_columns (query : SelectStatement) (parent_columns : list str) : list str :=
  own_columns_of (Ast.table query) (Ast.joins query) parent_columns.

Fixpoint expr_references_outer (e : Ast.Expr) (own_columns : list str) : bool :=
  let away c := negb (column_resolves_locally c own_columns) in
  match e with
  | Ast.Cmp c _ _ | Ast.IsNull c _ | Ast.Like c _ | Ast.InInt c _ | Ast.BetweenInt c _ _
  | Ast.ExtractCmp _ c _ _ => away c
  | Ast.CmpColumn l _ r => away l || away r
  | Ast.And l r | Ast.Or l r => expr_references_outer l own_columns || expr_references_outer r own_columns
  | Ast.Not e => expr_references_outer e own_columns
  | Ast.Agg _ _ | Ast.AggCmp _ _ _ _ => false
  | Ast.Exists_ q | Ast.InSubquery _ q | Ast.ScalarCmp _ _ q =>
      match q with
      | Ast.mkSelect _ _ t (Some w) js _ _ _ _ _ _ _ _ =>
          expr_references_outer w (own_columns_of t js own_columns)
      | Ast.mkSelect _ _ _ None _ _ _ _ _ _ _ _ _ => false
      end
  end.

(** ** The cache of uncorrelated subqueries *)

Inductive CacheEntry : Type :=
| Uncached
| CExists (b : bool)
| CIn (vals : list Value)
| CScalar (v : Value).

(** The subqueries of an expression in the order they are evaluated. *)
Fixpoint walk_subqueries (e : Ast.Expr) : list Ast.Expr :=
  match e with
  | Ast.And l r | Ast.Or l r => walk_subqueries l ++ walk_subqueries r
  | Ast.Not e => walk_subqueries e
  | Ast.Exists_ _ | Ast.InSubquery _ _ | Ast.ScalarCmp _ _ _ => [e]
  | _ => []
  end.

(** [if let Ok(rs) = ..]: a database error is swallowed, a crash is not. *)
Definition if_ok {A} (o : R A) : R (option A) :=
  match o with
  | Ok a => Ok (Some a)
  | Err (Db.Db _) => Ok None
  | Err Db.StackOverflow => Err Db.StackOverflow
  | Panic => Panic
  end.

Section Query.
Context (gpu : bool) (db : Database) (run : Run).

Definition cache_entry (own_columns : list str) (params : list (list f32)) (outer_ctes : list CTE)
    (node : Ast.Expr) : R CacheEntry :=
  if expr_references_outer node own_columns then Ok Uncached
  else
    match node with
    | Ast.Exists_ query =>
        obind (if_ok (run query params [] outer_ctes None)) (fun o =>
        Ok (match o with Some rs => CExists (negb (bool_decide (length (Value.rows rs) = 0))) | None => Uncached end))
    | Ast.InSubquery _ query =>
        obind (if_ok (run query params [] outer_ctes None)) (fun o =>
        match o with
        | Some rs => obind (collect (fun r => at_ r 0) (Value.rows rs)) (fun vals => Ok (CIn vals))
        | None => Ok Uncached
        end)
    | Ast.ScalarCmp _ _ query =>
        obind (if_ok (run query params [] outer_ctes None)) (fun o =>
        match o with
        | Some rs =>
            match Value.rows rs with
            | [r] => if length (Value.columns rs) =? 1 then obind (at_ r 0) (fun v => Ok (CScalar v)) else Ok Uncached
            | _ => Ok Uncached
            end
        | None => Ok Uncached
        end)
    | _ => Ok Uncached
    end.

Definition build_subquery_cache (where_expr : Ast.Expr) (own_columns : list str) (params : list (list f32))
    (outer_ctes : list CTE) : R (list CacheEntry) :=
  collect (cache_entry own_columns params outer_ctes) (walk_subqueries where_expr).

(** ** [WHERE] and [HAVING] *)

Section EvalWhere.
Context (columns : list str) (row : list Value) (params : list (list f32)) (outer : Outer)
  (outer_ctes : list CTE) (scope_columns : list str) (cache : list CacheEntry)
  (valid_qualifiers : list str).

(** The counter of subqueries is the state. *)
Abbreviation W := (M nat Failure).
Definition of_r {A} (o : R A) : W A := fun s => (o, s).

Definition next_index : W nat := fun n => (Ok n, S n).

Definition lookup (column : str) : R Value :=
  obind (Expr.find_value column columns row outer valid_qualifiers) (fun o =>
  ok_or o (Codec.UnknownColumn column)).

(** Run a subquery with this row in front of the outer ones; the stack has eight
    slots. *)
Definition run_inner (query : SelectStatement) : R ResultSet :=
  if decide (1 + length outer <= 8) then run query params ((scope_columns, row) :: outer) outer_ctes None
  else Panic.

Definition cmp_scalar (op : Ast.CmpOp) (lhs rhs : Value) : option bool :=
  if Value.is_null lhs || Value.is_null rhs then Some false
  else Some (Expr.eval_cmp op (Value.cmp lhs rhs)).

Definition number (n : nat) : str := Lexer.int_to_string (Z.of_nat n).

Definition in_cardinality (n : nat) : Codec.DbError :=
  Codec.SubqueryCardinality (lit "IN subquery must return exactly one column, got " ++ number n).
Definition scalar_cardinality (rows columns : nat) : Codec.DbError :=
  Codec.SubqueryCardinality
    (lit "scalar subquery must return exactly one row and one column, got " ++ number rows
     ++ lit " row(s) and " ++ number columns ++ lit " column(s)").

(** [rs.rows.iter().any(|r| &r[0] == lhs)] stops at the first match. *)
Fixpoint any_first (lhs : Value) (rows : list (list Value)) : R bool :=
  match rows with
  | [] => Ok false
  | r :: rows' => obind (at_ r 0) (fun v => if Value.eqb v lhs then Ok true else any_first lhs rows')
  end.

Definition eval_in (column : str) (query : SelectStatement) : W (option bool) :=
  lhs ← of_r (lookup column);
  idx ← next_index;
  match cache !! idx with
  | Some (CIn vals) => mret (Some (existsb (fun v => Value.eqb v lhs) vals))
  | _ =>
      rs ← of_r (run_inner query);
      if length (Value.columns rs) =? 1 then b ← of_r (any_first lhs (Value.rows rs)); mret (Some b)
      else of_r (db_err (in_cardinality (length (Value.columns rs))))
  end.

Definition eval_scalar_cmp (column : str) (op : Ast.CmpOp) (query : SelectStatement) : W (option bool) :=
  lhs ← of_r (lookup column);
  idx ← next_index;
  match cache !! idx with
  | Some (CScalar rhs) => mret (cmp_scalar op lhs rhs)
  | _ =>
      rs ← of_r (run_inner query);
      match Value.rows rs with
      | [r] =>
          if length (Value.columns rs) =? 1 then rhs ← of_r (at_ r 0); mret (cmp_scalar op lhs rhs)
          else of_r (db_err (scalar_cardinality 1 (length (Value.columns rs))))
      | rows => of_r (db_err (scalar_cardinality (length rows) (length (Value.columns rs))))
      end
  end.

Definition eval_exists (query : SelectStatement) : W (option bool) :=
  idx ← next_index;
  match cache !! idx with
  | Some (CExists b) => mret (Some b)
  | _ => rs ← of_r (run_inner query); mret (Some (negb (bool_decide (length (Value.rows rs) = 0))))
  end.

Fixpoint eval_where (e : Ast.Expr) : W (option bool) :=
  match e with
  | Ast.And l r => a ← eval_where l; b ← eval_where r; mret (Expr.kleene_and a b)
  | Ast.Or l r => a ← eval_where l; b ← eval_where r; mret (Expr.kleene_or a b)
  | Ast.Not e => a ← eval_where e; mret (Expr.kleene_not a)
  | Ast.Exists_ query => eval_exists query
  | Ast.InSubquery column query => eval_in column query
  | Ast.ScalarCmp column op query => eval_scalar_cmp column op query
  | _ => of_r (of_exec (Expr.eval_expr_scoped columns row outer valid_qualifiers e))
  end.

(** [eval_where(.., &mut 0)?.unwrap_or(false)]. *)
Definition where_true (e : Ast.Expr) : R bool :=
  match (eval_where e 0).1 with
  | Ok b => Ok (default false b)
  | Err e => Err e
  | Panic => Panic
  end.
End EvalWhere.

(** The rows on which a fallible test is true. *)
Fixpoint keep {A} (test : A -> R bool) (l : list A) : R (list A) :=
  match l with
  | [] => Ok []
  | x :: l' => obind (test x) (fun b => obind (keep test l') (fun r => Ok (if b then x :: r else r)))
  end.

(** Filter rows by an optional predicate, with its cache. *)
Definition filter_rows (e : option Ast.Expr) (columns : list str) (params : list (list f32)) (outer : Outer)
    (ctes : list CTE) (scope_columns valid_qualifiers : list str) (rows : list (list Value))
    : R (list (list Value)) :=
  match e with
  | Some e =>
      obind (build_subquery_cache e columns params ctes) (fun cache =>
      keep (fun row => where_true columns row params outer ctes scope_columns cache valid_qualifiers e) rows)
  | None => Ok rows
  end.

(** ** Tables *)

Definition scan_table (table_name : str) : R (list str * list (list Value)) :=
  obind (ok_or (Db.table table_name db) (Codec.UnknownTable table_name)) (fun ts =>
  obind (Db.fetch_rows ts (Db.active_txn table_name db) (Db.ids ts)) (fun rows =>
  Ok (Codec.columns (Db.schema ts), map snd rows))).

(** [sort] by [Ord], then [dedup] by [PartialEq]: an element equal to the one
    kept before it is dropped. *)
Fixpoint dedup_from (prev : list Value) (l : list (list Value)) : list (list Value) :=
  match l with
  | [] => []
  | x :: l' => if Value.row_eqb x prev then dedup_from prev l' else x :: dedup_from x l'
  end.
Definition dedup (l : list (list Value)) : list (list Value) :=
  match l with [] => [] | x :: l' => x :: dedup_from x l' end.
Definition sort_dedup (l : list (list Value)) : list (list Value) :=
  dedup (VectorIndex.sort_by Aggregate.key_cmp l).
Definition contains (l : list (list Value)) (r : list Value) : bool := existsb (fun x => Value.row_eqb x r) l.

Definition MAX_RECURSIVE_ITERATIONS : Z := 10000.

Definition too_many_iterations (name : str) : Codec.DbError :=
  Codec.Unsupported
    (lit "recursive CTE '" ++ name ++ lit "' exceeded " ++ Lexer.int_to_string MAX_RECURSIVE_ITERATIONS
     ++ lit " iterations without reaching a fixed point (likely a non-terminating recursive term)").

(** The loop of [run_recursive_cte]; the fuel is one more than the iterations it
    allows. *)
Fixpoint recursive_loop (fuel : nat) (iterations : Z) (name : str) (query : SelectStatement) (dedup_ : bool)
    (ctes : list CTE) (columns : list str) (all_rows working : list (list Value)) : R (list (list Value)) :=
  match fuel with
  | O => Panic
  | S fuel' =>
      match working with
      | [] => Ok all_rows
      | _ =>
          if (MAX_RECURSIVE_ITERATIONS <? iterations + 1)%Z then db_err (too_many_iterations name)
          else
            obind (run query [] [] ctes (Some (name, columns, working))) (fun step_rs =>
            if negb (length (Value.columns step_rs) =? length columns) then db_err Codec.ColumnCountMismatch
            else
              let next_working :=
                if dedup_ then sort_dedup (List.filter (fun r => negb (contains all_rows r)) (Value.rows step_rs))
                else Value.rows step_rs in
              match next_working with
              | [] => Ok all_rows
              | _ => recursive_loop fuel' (iterations + 1) name query dedup_ ctes columns
                       (all_rows ++ next_working) next_working
              end)
      end
  end.

Definition run_recursive_cte (name : str) (query : SelectStatement) (term : option (Ast.SetOperation * SelectStatement))
    (ctes : list CTE) : R (list str * list (list Value)) :=
  obind (expect term) (fun '(set_op, recursive_query) =>
  let dedup_ := match set_op with Ast.Union false => true | _ => false end in
  obind (run query [] [] ctes None) (fun anchor_rs =>
  let columns := Value.columns anchor_rs in
  let rows := if dedup_ then sort_dedup (Value.rows anchor_rs) else Value.rows anchor_rs in
  obind (recursive_loop (Z.to_nat MAX_RECURSIVE_ITERATIONS + 1) 0 name recursive_query dedup_ ctes columns rows rows) (fun all =>
  Ok (columns, all)))).

Definition cte_name (c : CTE) : str := let '(Ast.mkCTE n _ _) := c in n.

Definition resolve_table_ref_with_ctes (r : Ast.TableRef) (ctes : list CTE)
    (recursive_binding : option RecursiveBinding) : R (list str * list (list Value)) :=
  match r with
  | Ast.Named name _ =>
      let lookup :=
        match List.find (fun c => bool_decide (cte_name c = name)) ctes with
        | Some (Ast.mkCTE n q (Some t)) => run_recursive_cte n q (Some t) ctes
        | Some (Ast.mkCTE n q None) =>
            obind (run q [] [] ctes None) (fun rs => Ok (Value.columns rs, Value.rows rs))
        | None =>
            match Db.find_named name (Db.views db) with
            | Some query => obind (run query [] [] [] None) (fun rs => Ok (Value.columns rs, Value.rows rs))
            | None => scan_table name
            end
        end in
      match recursive_binding with
      | Some (bound_name, bound_cols, bound_rows) =>
          if decide (bound_name = name) then Ok (bound_cols, bound_rows) else lookup
      | None => lookup
      end
  | Ast.Subquery query alias =>
      obind (run query [] [] ctes None) (fun rs => Ok (map (qualify alias) (Value.columns rs), Value.rows rs))
  end.

Definition resolve_table_ref (r : Ast.TableRef) : R (list str * list (list Value)) :=
  resolve_table_ref_with_ctes r [] None.
End Query.

(** ** Joins *)

Section Join.
Context (on_cols : list str) (qualifiers : list str) (on : Ast.Expr).

Definition matches (combined : list Value) : R bool := of_exec (Expr.eval_expr on on_cols combined qualifiers).

(** The combined rows that match, one fixed side against the list of the other. *)
Definition matching (f : list Value -> list Value) (others : list (list Value)) : R (list (list Value)) :=
  keep matches (map f others).

Definition inner_join (rows join_rows : list (list Value)) : R (list (list Value)) :=
  obind (collect (fun lrow => matching (fun jrow => lrow ++ jrow) join_rows) rows) (fun ls => Ok (concat ls)).

(** An unmatched row is padded. *)
Definition outer_row (pad : list Value) (found : list (list Value)) : list (list Value) :=
  match found with [] => [pad] | _ => found end.

Definition left_join (null_right : list Value) (rows join_rows : list (list Value)) : R (list (list Value)) :=
  obind (collect (fun lrow =>
    obind (matching (fun jrow => lrow ++ jrow) join_rows) (fun found =>
    Ok (outer_row (lrow ++ null_right) found))) rows) (fun ls => Ok (concat ls)).

Definition right_join (null_left : list Value) (rows join_rows : list (list Value)) : R (list (list Value)) :=
  obind (collect (fun jrow =>
    obind (matching (fun lrow => lrow ++ jrow) rows) (fun found =>
    Ok (outer_row (null_left ++ jrow) found))) join_rows) (fun ls => Ok (concat ls)).

(** Whether some left row matches; the loop breaks at the first. *)
Fixpoint any_match (jrow : list Value) (rows : list (list Value)) : R bool :=
  match rows with
  | [] => Ok false
  | lrow :: rows' => obind (matches (lrow ++ jrow)) (fun b => if b then Ok true else any_match jrow rows')
  end.

Definition full_join (null_left null_right : list Value) (rows join_rows : list (list Value))
    : R (list (list Value)) :=
  obind (collect (fun lrow => matching (fun jrow => lrow ++ jrow) join_rows) rows) (fun ls =>
  let unmatched := map (fun p => p.1 ++ null_right)
    (List.filter (fun p => bool_decide (length p.2 = 0)) (zip rows ls)) in
  obind (keep (fun jrow => obind (any_match jrow rows) (fun b => Ok (negb b))) join_rows) (fun rest =>
  Ok (concat ls ++ unmatched ++ map (fun jrow => null_left ++ jrow) rest))).
End Join.

Definition cross_join (rows join_rows : list (list Value)) : list (list Value) :=
  flat_map (fun lrow => map (fun jrow => lrow ++ jrow) join_rows) rows.

(** One join of the table so far with the next one. *)
Definition join_rows (jtype : Ast.JoinType) (on_expr : option Ast.Expr) (on_cols qualifiers : list str)
    (left_width right_width : nat) (rows joined : list (list Value)) : R (list (list Value)) :=
  let null_left := replicate left_width Null in
  let null_right := replicate right_width Null in
  match jtype with
  | Ast.Cross => Ok (cross_join rows joined)
  | Ast.Inner => obind (expect on_expr) (fun on => inner_join on_cols qualifiers on rows joined)
  | Ast.Left => obind (expect on_expr) (fun on => left_join on_cols qualifiers on null_right rows joined)
  | Ast.Right => obind (expect on_expr) (fun on => right_join on_cols qualifiers on null_left rows joined)
  | Ast.Full => obind (expect on_expr) (fun on => full_join on_cols qualifiers on null_left null_right rows joined)
  end.

Definition new_columns (columns : list str) (t : Ast.TableRef) (join_cols : list str) : list str :=
  columns ++ map (qualify (Ast.name t)) join_cols.

Section Body.
Context (gpu : bool) (db : Database) (run : Run).

(** The loop over the joins: the columns and rows so far. *)
Fixpoint run_joins (base : str) (qualifiers : list str) (joins : list Ast.Join) (ctes : list CTE)
    (binding : option RecursiveBinding) (columns : list str) (rows : list (list Value))
    : R (list str * list (list Value)) :=
  match joins with
  | [] => Ok (columns, rows)
  | Ast.mkJoin jtype t on_expr :: joins' =>
      obind (resolve_table_ref_with_ctes db run t ctes binding) (fun '(join_cols, joined) =>
      let new_cols := new_columns columns t join_cols in
      obind (join_rows jtype on_expr (qualify_all base new_cols) qualifiers (length columns) (length join_cols)
               rows joined) (fun new_rows =>
      run_joins base qualifiers joins' ctes binding new_cols new_rows))
  end.

(** Inner definitions replace outer ones of the same name. *)
Definition merge_ctes (outer_ctes own : list CTE) : list CTE :=
  foldl (fun merged c => List.filter (fun m => negb (bool_decide (cte_name m = cte_name c))) merged ++ [c])
    outer_ctes own.

Fixpoint validate_ctes (ctes : list CTE) : R unit :=
  match ctes with
  | [] => Ok tt
  | Ast.mkCTE name query _ :: ctes' =>
      if existsb (fun v => bool_decide (v.1 = name)) (Db.views db) then db_err (Codec.ViewAlreadyExists name)
      else if existsb (fun t => bool_decide (t.1 = name)) (Db.tables db) then db_err (Codec.ViewAlreadyExists name)
      else if Db.select_references_table name query then db_err (Codec.RecursiveView name)
      else validate_ctes ctes'
  end.

(** ** [ORDER BY cosine(..)] *)

Definition checked_topk (embeddings : list (list f32)) (rows : list (list Value)) (query : list f32) (k : Z)
    : R (list (list Value)) :=
  collect (at_ rows) (VectorIndex.vector_topk embeddings query (Z.to_nat k)).

(** The rows that pass the filter and hold a vector, with it; each row is fetched
    just before it is tested. *)
Fixpoint candidates {X} (fetch : X -> R (option (list Value))) (stmt : SelectStatement) (columns : list str)
    (params : list (list f32)) (slot : nat) (l : list X) : R (list (list f32 * list Value)) :=
  match l with
  | [] => Ok []
  | x :: l' =>
      obind (fetch x) (fun o =>
      match o with
      | None => candidates fetch stmt columns params slot l'
      | Some row =>
          obind (match Ast.filter stmt with
                 | Some e => where_true run columns row params [] [] columns [] [] e
                 | None => Ok true
                 end) (fun b =>
          if b : bool then
            obind (at_ row slot) (fun v =>
            obind (candidates fetch stmt columns params slot l') (fun rest =>
            Ok (match v with Vector vec => (vec, row) :: rest | _ => rest end)))
          else candidates fetch stmt columns params slot l')
      end)
  end.

Definition topk_result (stmt : SelectStatement) (columns : list str) (query : list f32) (k : Z)
    (cands : list (list f32 * list Value)) : R ResultSet :=
  obind (checked_topk (map fst cands) (map snd cands) query k) (fun out_rows =>
  let out_columns := if Ast.star stmt || bool_decide (length (Ast.columns stmt) = 0) then columns else Ast.columns stmt in
  Ok (mkResult out_columns out_rows None)).

Definition run_vector_topk (stmt : SelectStatement) (ob : Ast.OrderByCosine) (params : list (list f32))
    : R ResultSet :=
  obind (ok_or (match Ast.param ob with O => None | S i => params !! i end) Codec.MissingParam) (fun query =>
  match Ast.table stmt with
  | Ast.Subquery _ _ =>
      obind (resolve_table_ref db run (Ast.table stmt)) (fun '(columns, rows) =>
      obind (ok_or (Aggregate.index_of (Ast.obc_column ob) columns) (Codec.UnknownColumn (Ast.obc_column ob))) (fun slot =>
      obind (candidates (fun r => Ok (Some r)) stmt columns params slot rows) (topk_result stmt columns query (Ast.k ob))))
  | Ast.Named table_name _ =>
      obind (ok_or (Db.table table_name db) (Codec.UnknownTable table_name)) (fun ts =>
      obind (ok_or (Codec.index_of (Db.schema ts) (Ast.obc_column ob)) (Codec.UnknownColumn (Ast.obc_column ob))) (fun slot =>
      obind (at_ (Codec.types (Db.schema ts)) slot) (fun ty =>
      if negb (bool_decide (ty = Ast.TVector)) then db_err (Codec.NotAVectorColumn (Ast.obc_column ob))
      else
        obind (match Db.find_named (Ast.obc_column ob) (Db.vector_indexes ts) with
               | Some idx =>
                   VectorIndex.search query (Nat.max (Z.to_nat (Ast.k ob) * 4) (Z.to_nat (Ast.k ob)))
                     VectorIndex.DEFAULT_NPROBE idx
               | None => Ok (Db.ids ts)
               end) (fun ids =>
        obind (candidates (Db.fetch_row ts None) stmt (Codec.columns (Db.schema ts)) params slot ids)
          (topk_result stmt (Codec.columns (Db.schema ts)) query (Ast.k ob))))))
  end).

(** ** [SELECT] *)

(** The statement the planner sees: grouping and filters are already applied. *)
Definition plan_stmt (s : SelectStatement) : SelectStatement :=
  Ast.mkSelect (Ast.columns s) (Ast.star s) (Ast.table s) None (Ast.joins s) [] [] (Ast.window_funcs s)
    (Ast.order_by s) (Ast.order_by_cosine s) (Ast.limit s) None (Ast.with_ctes s).

Definition of_plan {A} (o : outcome Empty_set A) : R A := Db.of_tree o.

(** The stages after the [FROM] clause. *)
Definition run_stages (stmt : SelectStatement) (params : list (list f32)) (outer : Outer) (ctes : list CTE)
    (qualifiers : list str) (columns : list str) (rows : list (list Value)) : R ResultSet :=
  let scope_columns := qualify_all (Ast.name (Ast.table stmt)) columns in
  obind (filter_rows run (Ast.filter stmt) columns params outer ctes scope_columns qualifiers rows) (fun rows =>
  obind (match Ast.window_funcs stmt with
         | [] => Ok (Value.mkTable columns rows)
         | wf => of_exec (Window.apply_window_funcs (Value.mkTable columns rows) wf)
         end) (fun table =>
  obind (match Ast.group_by stmt, Ast.aggregates stmt with
         | [], [] => Ok table
         | gb, aggs =>
             obind (of_exec (Aggregate.aggregate_table (Value.t_columns table) (Value.t_rows table) gb aggs)) (fun rs =>
             Ok (Value.mkTable (Value.columns rs) (Value.rows rs)))
         end) (fun table =>
  obind (filter_rows run (Ast.having stmt) (Value.t_columns table) params outer ctes (Value.t_columns table)
           qualifiers (Value.t_rows table)) (fun rows =>
  obind (of_plan (Planner.plan_select gpu (plan_stmt stmt) (Planner.mkStats (Z.of_nat (length rows))))) (fun plan =>
  of_exec (Exec.execute (Value.mkTable (Value.t_columns table) rows) plan)))))).

Definition select_body (stmt : SelectStatement) (params : list (list f32)) (outer : Outer) (outer_ctes : list CTE)
    (recursive_binding : option RecursiveBinding) : R ResultSet :=
  match Ast.order_by_cosine stmt with
  | Some ob => run_vector_topk stmt ob params
  | None =>
      let merged_ctes := merge_ctes outer_ctes (Ast.with_ctes stmt) in
      obind (validate_ctes (Ast.with_ctes stmt)) (fun _ =>
      obind (resolve_table_ref_with_ctes db run (Ast.table stmt) merged_ctes recursive_binding) (fun '(columns, rows) =>
      let qualifiers := Ast.name (Ast.table stmt) :: map (fun j => let '(Ast.mkJoin _ t _) := j in Ast.name t) (Ast.joins stmt) in
      obind (run_joins (Ast.name (Ast.table stmt)) qualifiers (Ast.joins stmt) merged_ctes recursive_binding columns rows)
        (fun '(columns, rows) =>
      run_stages stmt params outer merged_ctes qualifiers columns rows)))
  end.

(** ** Set operations *)

Definition set_operation (op : Ast.SetOperation) (rows right_rows : list (list Value)) : list (list Value) :=
  match op with
  | Ast.Union all => if all then rows ++ right_rows else sort_dedup (rows ++ right_rows)
  | Ast.Intersect => sort_dedup (List.filter (contains right_rows) rows)
  | Ast.Except => List.filter (fun r => negb (contains right_rows r)) rows
  end.

Fixpoint run_operations (ops : list (Ast.SetOperation * SelectStatement)) (params : list (list f32))
    (columns : list str) (rows : list (list Value)) : R (list (list Value)) :=
  match ops with
  | [] => Ok rows
  | (op, rhs) :: ops' =>
      obind (run rhs params [] [] None) (fun right_rs =>
      if negb (length columns =? length (Value.columns right_rs)) then db_err Codec.ColumnCountMismatch
      else run_operations ops' params columns (set_operation op rows (Value.rows right_rs)))
  end.

Definition sort_keys (order_by : list Ast.OrderBy) (columns : list str) : R (list (nat * bool)) :=
  collect (fun ob =>
    obind (ok_or (Aggregate.index_of (Ast.ob_column ob) columns) (Codec.UnknownColumn (Ast.ob_column ob))) (fun i =>
    Ok (i, Ast.descending ob))) order_by.

Definition run_compound (stmt : Ast.CompoundStatement) (params : list (list f32)) : R ResultSet :=
  obind (run (Ast.first stmt) params [] [] None) (fun first =>
  let columns := Value.columns first in
  obind (run_operations (Ast.operations stmt) params columns (Value.rows first)) (fun rows =>
  obind (match Ast.co_order_by stmt with
         | [] => Ok rows
         | obs => obind (sort_keys obs columns) (fun keys => of_exec (Exec.sort_by keys rows))
         end) (fun rows =>
  let rows := match Ast.co_limit stmt with Some limit => take (Z.to_nat limit) rows | None => rows end in
  Ok (mkResult columns rows None)))).
End Body.

(** ** The knot *)

Fixpoint run_select_scoped (fuel : nat) (gpu : bool) (db : Database) : Run :=
  match fuel with
  | O => fun _ _ _ _ _ => Err Db.StackOverflow
  | S fuel' => select_body gpu db (run_select_scoped fuel' gpu db)
  end.

Definition run_select (fuel : nat) (gpu : bool) (db : Database) (stmt : SelectStatement)
    (params : list (list f32)) : R ResultSet :=
  run_select_scoped fuel gpu db stmt params [] [] None.

End Select.
