(* ===== verification/Dml.v ===== *)
(** * Dml: INSERT, UPDATE and DELETE with their constraints
    ([crates/tpt-archon-relational/src/database/dml.rs])

    The statements change the database as they go: an error keeps the rows
    already written.  Inside a transaction writes go to the buffer of the table's
    transaction, outside to the tree. *)
From Stdlib Require Import ZArith Lia Strings.Byte Strings.String.
From stdpp Require Import base numbers option list gmap.
From S2P Require Import Prelude Ast Value BTree Mvcc Codec Db Select.

(** The [Debug] text of a value, in one error message. *)
Class DebugValue : Type := value_debug : Value.Value -> Ast.str.

Module Dml.
Import Ast(str, lit).
Import Value(Value, Int, Null).
Import Codec(Schema).
Import Db(Failure, Database, TableStorage, db_err, obind, of_db, at_, expect, ok_or, collect, fold, read,
  on_table, table, ids, fetch_row, fetch_rows, active_txn).
Abbreviation R := (outcome Failure).
Abbreviation D := (M Database Failure).

Definition of_r {S A} (o : R A) : M S Failure A := fun s => (o, s).

(** [join(",")]. *)
Fixpoint join (l : list str) : str :=
  match l with
  | [] => []
  | [x] => x
  | x :: l' => x ++ lit "," ++ join l'
  end.

(** [row[slot] = v]. *)
Definition set_at {A} (i : nat) (x : A) (l : list A) : R (list A) :=
  if decide (i < length l) then Ok (<[i := x]> l) else Panic.

(** The column groups that must hold distinct values. *)
Definition unique_groups (s : Schema) : list (list str) :=
  match Codec.primary_key s with Some pk => [pk] | None => [] end ++ Codec.unique s.

(** The values of a row under some columns, which must exist. *)
Definition key_of (s : Schema) (cols : list str) (row : list Value) : R (list Value) :=
  collect (fun c => obind (expect (Codec.index_of s c)) (at_ row)) cols.

Definition has_null (key : list Value) : bool := existsb Value.is_null key.

(** ** Transactions per table *)

Definition ensure_txn (name : str) : D unit := fun db =>
  match active_txn name db with
  | Some _ => (Ok tt, db)
  | None =>
      match table name db with
      | Some ts => (Ok tt, Db.set_txn (Db.in_transaction db) (Db.active_txns db ++ [(name, Mvcc.begin_ (Db.mvcc ts))]) db)
      | None => (Ok tt, db)
      end
  end.

(** Buffer a write in the table's transaction. *)
Definition txn_write (name : str) (id : Z) (bytes : list byte) : D unit := fun db =>
  match active_txn name db with
  | Some t => (Ok tt, Db.set_txn (Db.in_transaction db) (Db.set_named name (Mvcc.write t id bytes) (Db.active_txns db)) db)
  | None => (Panic, db)
  end.

Definition m_when {S} (b : bool) (m : M S Failure unit) : M S Failure unit := if b then m else mret tt.

Section Dml.
Context `{DebugValue} (fuel : nat) (gpu : bool).

Definition select_in (db : Database) : Select.Run := Select.run_select_scoped fuel gpu db.

(** ** Reading rows *)

(** Every live row but the excluded one. *)
Definition all_rows (db : Database) (table_name : str) (ts : TableStorage) (exclude_id : option Z)
    : R (list (Z * list Value)) :=
  fetch_rows ts (active_txn table_name db)
    (List.filter (fun id => negb (bool_decide (Some id = exclude_id))) (ids ts)).

Definition current_row (db : Database) (table_name : str) (id : Z) : R (option (list Value)) :=
  obind (ok_or (table table_name db) (Codec.UnknownTable table_name)) (fun ts =>
  fetch_row ts (active_txn table_name db) id).

Fixpoint matching_loop (db : Database) (ts : TableStorage) (txn : option Mvcc.Transaction)
    (filter : option Ast.Expr) (cache : list Select.CacheEntry) (l : list Z) : R (list Z) :=
  match l with
  | [] => Ok []
  | id :: l' =>
      obind (fetch_row ts txn id) (fun o =>
      match o with
      | None => matching_loop db ts txn filter cache l'
      | Some row =>
          let columns := Codec.columns (Db.schema ts) in
          obind (match filter with
                 | None => Ok true
                 | Some e => Select.where_true (select_in db) columns row [] [] [] columns cache [] e
                 end) (fun keep =>
          obind (matching_loop db ts txn filter cache l') (fun rest =>
          Ok (if keep : bool then id :: rest else rest)))
      end)
  end.

Definition matching_row_ids (db : Database) (table_name : str) (filter : option Ast.Expr) : R (list Z) :=
  obind (ok_or (table table_name db) (Codec.UnknownTable table_name)) (fun ts =>
  obind (match filter with
         | Some e => Select.build_subquery_cache (select_in db) e (Codec.columns (Db.schema ts)) [] []
         | None => Ok []
         end) (fun cache =>
  matching_loop db ts (active_txn table_name db) filter cache (ids ts))).

(** ** Constraints *)

Fixpoint check_not_null (s : Schema) (row : list Value) (cols : list str) : R unit :=
  match cols with
  | [] => Ok tt
  | col :: cols' =>
      obind (expect (Codec.index_of s col)) (fun idx =>
      obind (at_ row idx) (fun v =>
      if Value.is_null v then db_err (Codec.NotNullViolation col) else check_not_null s row cols'))
  end.

(** The rows of the table must not have the key. *)
Fixpoint check_fresh (s : Schema) (group : list str) (key : list Value) (rows : list (Z * list Value)) : R unit :=
  match rows with
  | [] => Ok tt
  | (_, vals) :: rows' =>
      obind (key_of s group vals) (fun other =>
      if Value.row_eqb other key then db_err (Codec.UniqueViolation (join group)) else check_fresh s group key rows')
  end.

Fixpoint check_unique (db : Database) (table_name : str) (ts : TableStorage) (row : list Value)
    (exclude_id : option Z) (groups : list (list str)) : R unit :=
  match groups with
  | [] => Ok tt
  | group :: groups' =>
      obind (key_of (Db.schema ts) group row) (fun key =>
      if has_null key then check_unique db table_name ts row exclude_id groups'
      else
        obind (all_rows db table_name ts exclude_id) (fun rows =>
        obind (check_fresh (Db.schema ts) group key rows) (fun _ =>
        check_unique db table_name ts row exclude_id groups')))
  end.

Fixpoint check_checks (db : Database) (columns : list str) (row : list Value) (checks : list Ast.Expr) : R unit :=
  match checks with
  | [] => Ok tt
  | e :: checks' =>
      obind (Select.build_subquery_cache (select_in db) e columns [] []) (fun cache =>
      obind (Select.where_true (select_in db) columns row [] [] [] columns cache [] e) (fun ok =>
      if ok : bool then check_checks db columns row checks'
      else db_err (Codec.CheckViolation (lit "CHECK constraint evaluated to false or NULL"))))
  end.

(** Whether some row of the referenced table has the key. *)
Fixpoint has_key (s : Schema) (cols : list str) (key : list Value) (rows : list (Z * list Value)) : R bool :=
  match rows with
  | [] => Ok false
  | (_, vals) :: rows' =>
      obind (key_of s cols vals) (fun other => if Value.row_eqb other key then Ok true else has_key s cols key rows')
  end.

Fixpoint check_foreign (db : Database) (ts : TableStorage) (row : list Value) (fks : list Codec.ForeignKey)
    : R unit :=
  match fks with
  | [] => Ok tt
  | fk :: fks' =>
      obind (key_of (Db.schema ts) (Codec.fk_columns fk) row) (fun key =>
      if has_null key then check_foreign db ts row fks'
      else
        obind (ok_or (table (Codec.ref_table fk) db)
          (Codec.ForeignKeyViolation (lit "referenced table '" ++ Codec.ref_table fk ++ lit "' does not exist"))) (fun ref_ts =>
        obind (all_rows db (Codec.ref_table fk) ref_ts None) (fun rows =>
        obind (has_key (Db.schema ref_ts) (Codec.ref_columns fk) key rows) (fun found =>
        if found : bool then check_foreign db ts row fks'
        else db_err (Codec.ForeignKeyViolation
          (lit "no matching key " ++ join (map value_debug key) ++ lit " in referenced table '"
           ++ Codec.ref_table fk ++ lit "'"))))))
  end.

Definition enforce_constraints (db : Database) (table_name : str) (ts : TableStorage) (row : list Value)
    (exclude_id : option Z) : R unit :=
  obind (check_not_null (Db.schema ts) row (Codec.not_null (Db.schema ts))) (fun _ =>
  obind (check_unique db table_name ts row exclude_id (unique_groups (Db.schema ts))) (fun _ =>
  obind (check_checks db (Codec.columns (Db.schema ts)) row (Codec.checks (Db.schema ts))) (fun _ =>
  check_foreign db ts row (Codec.foreign_keys (Db.schema ts))))).

(** The rows of the referencing table must not have the key. *)
Fixpoint check_unreferenced (s : Schema) (other_name : str) (cols : list str) (key : list Value)
    (rows : list (Z * list Value)) : R unit :=
  match rows with
  | [] => Ok tt
  | (_, vals) :: rows' =>
      obind (key_of s cols vals) (fun other =>
      if Value.row_eqb other key
      then db_err (Codec.ForeignKeyViolation (lit "row is still referenced by '" ++ other_name ++ lit "." ++ join cols ++ lit "'"))
      else check_unreferenced s other_name cols key rows')
  end.

Fixpoint check_restrict (db : Database) (table_name : str) (row : list Value) (other_name : str)
    (other_ts : TableStorage) (fks : list Codec.ForeignKey) : R unit :=
  match fks with
  | [] => Ok tt
  | fk :: fks' =>
      if negb (bool_decide (Codec.ref_table fk = table_name))
      then check_restrict db table_name row other_name other_ts fks'
      else
        obind (collect (fun c => obind (expect (table table_name db)) (fun ts =>
                 expect (Codec.index_of (Db.schema ts) c))) (Codec.ref_columns fk)) (fun ref_idx =>
        obind (collect (at_ row) ref_idx) (fun key =>
        if has_null key then check_restrict db table_name row other_name other_ts fks'
        else
          obind (all_rows db other_name other_ts None) (fun rows =>
          obind (check_unreferenced (Db.schema other_ts) other_name (Codec.fk_columns fk) key rows) (fun _ =>
          check_restrict db table_name row other_name other_ts fks'))))
  end.

Fixpoint fk_on_delete (db : Database) (table_name : str) (row : list Value) (tables : list (str * TableStorage))
    : R unit :=
  match tables with
  | [] => Ok tt
  | (other_name, other_ts) :: tables' =>
      obind (check_restrict db table_name row other_name other_ts (Codec.foreign_keys (Db.schema other_ts))) (fun _ =>
      fk_on_delete db table_name row tables')
  end.

Definition enforce_fk_on_delete (db : Database) (table_name : str) (row : list Value) : R unit :=
  fk_on_delete db table_name row (Db.tables db).

(** ** INSERT *)

Definition insert_columns (s : Schema) (columns : list str) : R (list nat) :=
  match columns with
  | [] => Ok (seq 0 (length (Codec.columns s)))
  | _ => collect (fun c => ok_or (Codec.index_of s c) (Codec.UnknownColumn c)) columns
  end.

Definition build_row (s : Schema) (cols : list nat) (row_values : list Ast.Literal) : R (list Value) :=
  fold (fun row sl => obind (of_db (Codec.literal_to_value s sl.1 sl.2)) (fun v => set_at sl.1 v row))
    (replicate (length (Codec.columns s)) Null) (zip cols row_values).

(** The other rows of the batch must not have the key of row [i]. *)
Fixpoint check_batch_rows (s : Schema) (group : list str) (key : list Value) (i j : nat) (rows : list (list Value))
    : R unit :=
  match rows with
  | [] => Ok tt
  | other :: rows' =>
      if j =? i then check_batch_rows s group key i (S j) rows'
      else
        obind (key_of s group other) (fun other_key =>
        if Value.row_eqb other_key key then db_err (Codec.UniqueViolation (join group))
        else check_batch_rows s group key i (S j) rows')
  end.

Fixpoint check_batch (s : Schema) (rows : list (list Value)) (i : nat) (row : list Value) (groups : list (list str))
    : R unit :=
  match groups with
  | [] => Ok tt
  | group :: groups' =>
      obind (key_of s group row) (fun key =>
      if has_null key then check_batch s rows i row groups'
      else obind (check_batch_rows s group key i 0 rows) (fun _ => check_batch s rows i row groups'))
  end.

Fixpoint check_rows (db : Database) (table_name : str) (ts : TableStorage) (rows : list (list Value)) (i : nat)
    (l : list (list Value)) : R unit :=
  match l with
  | [] => Ok tt
  | row :: l' =>
      obind (enforce_constraints db table_name ts row None) (fun _ =>
      obind (check_batch (Db.schema ts) rows i row (unique_groups (Db.schema ts))) (fun _ =>
      check_rows db table_name ts rows (S i) l'))
  end.

(** Take the next row id. *)
Definition take_id : M TableStorage Failure Z := fun ts =>
  (Ok (Db.next_row_id ts),
   Db.mkTable (Db.schema ts) (Db.tree ts) (wrap64 (Db.next_row_id ts + 1)) (Db.mvcc ts) (Db.vector_indexes ts)).

(** Outside a transaction the row goes to the tree and the indexes. *)
Definition store_row (id : Z) (row : list Value) : M TableStorage Failure unit :=
  Db.tree_insert id (Codec.encode_row row);;
  Db.maintain_vector_indexes_for_row id row.

Definition insert_row (name : str) (in_txn explicit_id : bool) (row : list Value) : D unit :=
  id ← on_table name (db_err (Codec.UnknownTable name)) take_id;
  row ← of_r (if explicit_id then Ok row else set_at 0 (Int (wrap_i64 id)) row);
  if in_txn then txn_write name id (Codec.mvcc_wrap_row row)
  else
    on_table name (db_err (Codec.UnknownTable name)) (store_row id row;; Db.maybe_build_vector_indexes).

(** Run an action on every element, in order. *)
Fixpoint m_each {A} (f : A -> D unit) (l : list A) : D unit :=
  match l with [] => mret tt | x :: l' => f x;; m_each f l' end.

Definition run_insert_stmt (stmt : Ast.InsertStatement) : D Z :=
  db ← m_get;
  m_when (Db.in_transaction db) (ensure_txn (Ast.i_table stmt));;
  db ← m_get;
  ts ← of_r (ok_or (table (Ast.i_table stmt) db) (Codec.UnknownTable (Ast.i_table stmt)));
  cols ← of_r (insert_columns (Db.schema ts) (Ast.i_columns stmt));
  if forallb (fun row_values => length row_values =? length cols) (Ast.i_values stmt) then
    rows ← of_r (collect (build_row (Db.schema ts) cols) (Ast.i_values stmt));
    of_r (check_rows db (Ast.i_table stmt) ts rows 0 rows);;
    m_each (insert_row (Ast.i_table stmt) (Db.in_transaction db) (bool_decide (0 ∈ cols))) rows;;
    mret (Z.of_nat (length rows))
  else of_r (db_err Codec.ArityMismatch).

(** ** UPDATE *)

(** Assignments to the row-id column are skipped. *)
Definition assign (s : Schema) (row : list Value) (a : Ast.Assignment) : R (list Value) :=
  obind (ok_or (Codec.index_of s (Ast.a_column a)) (Codec.UnknownColumn (Ast.a_column a))) (fun slot =>
  if slot =? 0 then Ok row
  else obind (of_db (Codec.literal_to_value s slot (Ast.a_value a))) (fun v => set_at slot v row)).

Definition update_row (stmt : Ast.UpdateStatement) (in_txn : bool) (id : Z) : D unit :=
  db ← m_get;
  o ← of_r (current_row db (Ast.u_table stmt) id);
  match o with
  | None => mret tt
  | Some row =>
      ts ← of_r (expect (table (Ast.u_table stmt) db));
      row ← of_r (fold (assign (Db.schema ts)) row (Ast.u_assignments stmt));
      of_r (enforce_constraints db (Ast.u_table stmt) ts row (Some id));;
      if in_txn then txn_write (Ast.u_table stmt) id (Codec.mvcc_wrap_row row)
      else on_table (Ast.u_table stmt) (db_err (Codec.UnknownTable (Ast.u_table stmt))) (store_row id row)
  end.

Definition run_update (stmt : Ast.UpdateStatement) : D Z :=
  db ← m_get;
  matching ← of_r (matching_row_ids db (Ast.u_table stmt) (Ast.u_filter stmt));
  m_when (Db.in_transaction db) (ensure_txn (Ast.u_table stmt));;
  m_each (update_row stmt (Db.in_transaction db)) matching;;
  mret (Z.of_nat (length matching)).

(** ** DELETE *)

Definition delete_row (name : str) (in_txn : bool) (id : Z) : D unit :=
  db ← m_get;
  o ← of_r (current_row db name id);
  match o with
  | None => mret tt
  | Some row =>
      of_r (enforce_fk_on_delete db name row);;
      if in_txn then txn_write name id Codec.mvcc_wrap_tombstone
      else
        on_table name (db_err (Codec.UnknownTable name))
          (Db.tree_delete id;; Db.maintain_vector_indexes_on_delete id)
  end.

Definition run_delete (stmt : Ast.DeleteStatement) : D Z :=
  db ← m_get;
  matching ← of_r (matching_row_ids db (Ast.d_table stmt) (Ast.d_filter stmt));
  m_when (Db.in_transaction db) (ensure_txn (Ast.d_table stmt));;
  m_each (delete_row (Ast.d_table stmt) (Db.in_transaction db)) matching;;
  mret (Z.of_nat (length matching)).

End Dml.
End Dml.
