(* ===== verification/Engine.v ===== *)
(** * Engine: transactions, sessions, DDL and the execution of statements
    ([crates/tpt-archon-relational/src/database/mod.rs], [txn.rs] and [ddl.rs]) *)
From Stdlib Require Import ZArith Lia Strings.Byte Strings.String.
From stdpp Require Import base numbers option list gmap.
From S2P Require Import Prelude Ast Value BTree Mvcc Codec Db Select Dml.

Module Engine.
Import Ast(str, lit, f32).
Import Value(Value, Int, Null, ResultSet, mkResult, CommandTag).
Import Codec(Schema).
Import Db(Failure, Database, TableStorage, db_err, obind, of_db, at_, expect, ok_or, collect, read, on_table, table).
Import Dml(of_r, m_each, D).
Abbreviation R := (outcome Failure).

(** ** BEGIN, COMMIT, ROLLBACK ([txn.rs]) *)

Definition in_progress : Codec.DbError := Codec.TransactionError (lit "transaction already in progress").
Definition no_transaction : Codec.DbError := Codec.TransactionError (lit "no active transaction").
Definition conflict (name : str) : Codec.DbError :=
  Codec.TransactionError (lit "commit conflict on table '" ++ name ++ lit "'").

Definition run_begin : D unit := fun db =>
  if Db.in_transaction db then (db_err in_progress, db) else (Ok tt, Db.set_txn true [] db).

(** [ts.mvcc.commit(txn)]. *)
Definition mvcc_commit (name : str) (txn : Mvcc.Transaction) : M TableStorage Failure unit := fun ts =>
  match Mvcc.commit txn (Db.mvcc ts) with
  | (Ok _, m) => (Ok tt, Db.set_mvcc m ts)
  | (Err Mvcc.Conflict, m) => (db_err (conflict name), Db.set_mvcc m ts)
  | (Panic, m) => (Panic, Db.set_mvcc m ts)
  end.

(** A buffered write goes to the tree and the vector indexes. *)
Definition apply_write (w : Z * list byte) : M TableStorage Failure unit :=
  match w.2 with
  | [] => m_panic
  | b :: bytes =>
      if Byte.eqb b Codec.MVCC_TOMBSTONE then
        Db.tree_delete w.1;; Db.maintain_vector_indexes_on_delete w.1
      else
        Db.tree_insert w.1 bytes;;
        ts ← m_get;
        row ← of_r (of_db (Codec.decode_row_validated w.1 bytes (Db.width ts)));
        Db.maintain_vector_indexes_for_row w.1 row
  end.

Fixpoint t_each {A} (f : A -> M TableStorage Failure unit) (l : list A) : M TableStorage Failure unit :=
  match l with [] => mret tt | x :: l' => f x;; t_each f l' end.

Definition apply_writes (ws : list (Z * list byte)) : M TableStorage Failure unit :=
  t_each apply_write ws;; Db.maybe_build_vector_indexes.

Definition run_commit : D unit := fun db =>
  if negb (Db.in_transaction db) then (db_err no_transaction, db)
  else
    let txns := Db.active_txns db in
    (m_each (fun nt => on_table nt.1 Panic (mvcc_commit nt.1 nt.2)) txns;;
     m_each (fun nt => on_table nt.1 Panic (apply_writes (Mvcc.writes_iter nt.2))) txns)
      (Db.set_txn false [] db).

Definition run_rollback : D unit := fun db =>
  if negb (Db.in_transaction db) then (db_err no_transaction, db) else (Ok tt, Db.set_txn false [] db).

(** ** Sessions ([mod.rs]) *)

Definition session_in_progress : Codec.DbError :=
  Codec.TransactionError (lit "transaction already in progress for this session").
Definition no_session_transaction : Codec.DbError :=
  Codec.TransactionError (lit "no active transaction for this session").

Definition no_session : Db.SessionTxn := Db.mkSession false [].

(** [entry(..).or_default()]: a session that fails to begin is created too. *)
Definition session_begin (session_id : Z) : D unit := fun db =>
  let s := default no_session (Db.session_txns db !! session_id) in
  if Db.s_in_transaction s
  then (db_err session_in_progress, Db.set_sessions (<[session_id := s]> (Db.session_txns db)) db)
  else (Ok tt, Db.set_sessions (<[session_id := Db.mkSession true []]> (Db.session_txns db)) db).

(** Each table is committed and applied in turn. *)
Definition session_commit (session_id : Z) : D unit := fun db =>
  match Db.session_txns db !! session_id with
  | None => (db_err no_session_transaction, db)
  | Some s =>
      if negb (Db.s_in_transaction s) then (db_err no_session_transaction, db)
      else
        m_each (fun nt => on_table nt.1 Panic (mvcc_commit nt.1 nt.2;; apply_writes (Mvcc.writes_iter nt.2)))
          (Db.s_active_txns s)
          (Db.set_sessions (<[session_id := no_session]> (Db.session_txns db)) db)
  end.

Definition session_rollback (session_id : Z) : D unit := fun db =>
  match Db.session_txns db !! session_id with
  | None => (db_err no_session_transaction, db)
  | Some s =>
      if negb (Db.s_in_transaction s) then (db_err no_session_transaction, db)
      else (Ok tt, Db.set_sessions (<[session_id := no_session]> (Db.session_txns db)) db)
  end.

Definition session_in_transaction (session_id : Z) (db : Database) : bool :=
  match Db.session_txns db !! session_id with Some s => Db.s_in_transaction s | None => false end.

(** Not called by any statement. *)
Definition ensure_session_txn (session_id : Z) (table_name : str) (db : Database) : Database :=
  match table table_name db with
  | None => db
  | Some ts =>
      let s := default no_session (Db.session_txns db !! session_id) in
      match Db.find_named table_name (Db.s_active_txns s) with
      | Some _ => db
      | None =>
          Db.set_sessions (<[session_id := Db.mkSession (Db.s_in_transaction s)
            (Db.s_active_txns s ++ [(table_name, Mvcc.begin_ (Db.mvcc ts))])]> (Db.session_txns db)) db
      end
  end.

(** ** DDL ([ddl.rs]) *)

Definition unsupported (msg : str) : Codec.DbError := Codec.Unsupported msg.
Definition multiple_keys : Codec.DbError := unsupported (lit "multiple primary keys are not supported").

(** [if !v.contains(x) { v.push(x) }]. *)
Definition push_new (x : str) (l : list str) : list str := if decide (x ∈ l) then l else l ++ [x].

Definition column_constraint (name : str) (s : Schema) (c : Ast.ColumnConstraint) : R Schema :=
  let '(Codec.mkSchema columns types not_null primary_key unique foreign_keys checks) := s in
  match c with
  | Ast.NotNull => Ok (Codec.mkSchema columns types (push_new name not_null) primary_key unique foreign_keys checks)
  | Ast.PrimaryKey =>
      match primary_key with
      | Some _ => db_err multiple_keys
      | None => Ok (Codec.mkSchema columns types (push_new name not_null) (Some [name]) unique foreign_keys checks)
      end
  | Ast.Unique => Ok (Codec.mkSchema columns types not_null primary_key (unique ++ [[name]]) foreign_keys checks)
  end.

Definition column_def (s : Schema) (c : Ast.ColumnDef) : R Schema :=
  Db.fold (column_constraint (Ast.cd_name c))
    (Codec.mkSchema (Codec.columns s ++ [Ast.cd_name c]) (Codec.types s ++ [Ast.ctype c]) (Codec.not_null s)
       (Codec.primary_key s) (Codec.unique s) (Codec.foreign_keys s) (Codec.checks s))
    (Ast.cd_constraints c).

(** Every named column must exist. *)
Fixpoint known_columns (columns : list str) (cols : list str) : R unit :=
  match cols with
  | [] => Ok tt
  | c :: cols' => if decide (c ∈ columns) then known_columns columns cols' else db_err (Codec.UnknownColumn c)
  end.

Definition table_constraint (s : Schema) (tc : Ast.TableConstraint) : R Schema :=
  let '(Codec.mkSchema columns types not_null primary_key unique foreign_keys checks) := s in
  match tc with
  | Ast.TPrimaryKey cols =>
      match primary_key with
      | Some _ => db_err multiple_keys
      | None =>
          obind (known_columns columns cols) (fun _ =>
          Ok (Codec.mkSchema columns types (foldl (fun l c => push_new c l) not_null cols) (Some cols) unique
                foreign_keys checks))
      end
  | Ast.TUnique cols =>
      obind (known_columns columns cols) (fun _ =>
      Ok (Codec.mkSchema columns types not_null primary_key (unique ++ [cols]) foreign_keys checks))
  | Ast.TForeignKey fk_cols ref_table ref_columns =>
      obind (known_columns columns fk_cols) (fun _ =>
      Ok (Codec.mkSchema columns types not_null primary_key unique
            (foreign_keys ++ [Codec.mkForeignKey fk_cols ref_table ref_columns]) checks))
  | Ast.TCheck e => Ok (Codec.mkSchema columns types not_null primary_key unique foreign_keys (checks ++ [e]))
  end.

(** The implicit row-id column comes first. *)
Definition schema_of (ct : Ast.CreateTableStatement) : R Schema :=
  obind (Db.fold column_def (Codec.mkSchema [lit "id"] [Ast.TInt] [] None [] [] []) (Ast.ct_columns ct)) (fun s =>
  Db.fold table_constraint s (Ast.ct_constraints ct)).

Definition run_create_table (ct : Ast.CreateTableStatement) : D unit := fun db =>
  match table (Ast.ct_table ct) db with
  | Some _ => (db_err (Codec.TableAlreadyExists (Ast.ct_table ct)), db)
  | None =>
      if existsb (fun c => bool_decide (Ast.cd_name c = lit "id")) (Ast.ct_columns ct)
      then (db_err (unsupported (lit "column 'id' is reserved for the implicit row-id column")), db)
      else
        match schema_of ct with
        | Ok s => (Ok tt, Db.set_tables (Db.tables db ++ [(Ast.ct_table ct, Db.new_table s)]) db)
        | Err e => (Err e, db)
        | Panic => (Panic, db)
        end
  end.

Definition run_create_view (cv : Ast.CreateViewStatement) : D unit := fun db =>
  if bool_decide (is_Some (table (Ast.cv_name cv) db)) || existsb (fun v => bool_decide (v.1 = Ast.cv_name cv)) (Db.views db)
  then (db_err (Codec.ViewAlreadyExists (Ast.cv_name cv)), db)
  else if Db.select_references_table (Ast.cv_name cv) (Ast.cv_query cv)
  then (db_err (Codec.RecursiveView (Ast.cv_name cv)), db)
  else (Ok tt, Db.set_views (Db.views db ++ [(Ast.cv_name cv, Ast.cv_query cv)]) db).

Definition run_drop_view (name : str) : D unit := fun db =>
  match position (fun v => bool_decide (v.1 = name)) (Db.views db) with
  | Some pos => (Ok tt, Db.set_views (remove_at pos (Db.views db)) db)
  | None => (db_err (Codec.UnknownView name), db)
  end.

(** Decode every stored row, change it, and encode it again. *)
Fixpoint reencode_rows (f : list Value -> R (list Value)) (ts : TableStorage) (ids : list Z)
    : R (list (Z * list byte)) :=
  match ids with
  | [] => Ok []
  | id :: ids' =>
      obind (Db.of_tree (BTree.get (Db.tree ts) id)) (fun o =>
      match o with
      | None => reencode_rows f ts ids'
      | Some bytes =>
          obind (of_db (Codec.try_decode_row bytes)) (fun values =>
          obind (f values) (fun values =>
          obind (reencode_rows f ts ids') (fun rest => Ok ((id, Codec.encode_row values) :: rest))))
      end)
  end.

Definition reencode (f : list Value -> R (list Value)) : M TableStorage Failure unit :=
  ts ← m_get;
  rows ← of_r (reencode_rows f ts (Db.ids ts));
  t_each (fun ir => Db.tree_insert ir.1 ir.2) rows.

(** [values.remove(idx)]. *)
Definition remove_value (idx : nat) (values : list Value) : R (list Value) :=
  if decide (idx < length values) then Ok (remove_at idx values) else Panic.

Definition set_columns (columns : list str) (types : list Ast.ColumnType) (s : Schema) : Schema :=
  Codec.mkSchema columns types (Codec.not_null s) (Codec.primary_key s) (Codec.unique s) (Codec.foreign_keys s)
    (Codec.checks s).

Definition change_columns (f : list str -> list str) (g : list Ast.ColumnType -> list Ast.ColumnType)
    : M TableStorage Failure unit :=
  m_modify (fun ts => Db.set_schema (set_columns (f (Codec.columns (Db.schema ts))) (g (Codec.types (Db.schema ts))) (Db.schema ts)) ts).

Definition already_exists (name : str) : Codec.DbError :=
  unsupported (lit "column '" ++ name ++ lit "' already exists").

(** The slot of a column other than the implicit one. *)
Definition own_column (name : str) (msg : string) : M TableStorage Failure nat := fun ts =>
  (match Codec.index_of (Db.schema ts) name with
   | Some O => db_err (unsupported (lit msg))
   | Some idx => Ok idx
   | None => db_err (Codec.UnknownColumn name)
   end, ts).

Definition alter_op (op : Ast.AlterTableOp) : M TableStorage Failure unit :=
  match op with
  | Ast.AddColumn col =>
      ts ← m_get;
      if decide (Ast.cd_name col ∈ Codec.columns (Db.schema ts)) then of_r (db_err (already_exists (Ast.cd_name col)))
      else
        reencode (fun values => Ok (values ++ [Null]));;
        change_columns (fun cs => cs ++ [Ast.cd_name col]) (fun tys => tys ++ [Ast.ctype col])
  | Ast.DropColumn name =>
      idx ← own_column name "cannot drop the implicit id column";
      reencode (remove_value idx);;
      change_columns (remove_at idx) (remove_at idx)
  | Ast.RenameColumn old_name new_name =>
      idx ← own_column old_name "cannot rename the implicit id column";
      ts ← m_get;
      if decide (new_name ∈ Codec.columns (Db.schema ts)) then of_r (db_err (already_exists new_name))
      else change_columns (<[idx := new_name]>) id
  end.

Definition run_alter_table (a : Ast.AlterTableStatement) : D unit :=
  on_table (Ast.at_table a) (db_err (Codec.UnknownTable (Ast.at_table a))) (alter_op (Ast.at_op a)).

(** ** Statements ([mod.rs]) *)

Definition empty_result_set : ResultSet := mkResult [] [] None.

Definition affected_rows (n : Z) : ResultSet := mkResult [] [] (Some n).

Definition select_literal (items : list Ast.SelectLiteralItem) : ResultSet :=
  mkResult (map (fun i => default (lit "?column?") (Ast.li_alias i)) items)
    [map (fun i => Value.literal_to_value (Ast.li_value i)) items] None.

Section Execute.
Context `{DebugValue} (fuel : nat) (gpu : bool).

Definition execute (stmt : Ast.Statement) (params : list (list f32)) : D ResultSet :=
  match stmt with
  | Ast.Select s => read (fun db => Select.run_select fuel gpu db s params)
  | Ast.SelectLiteral items => mret (select_literal items)
  | Ast.Insert i => n ← Dml.run_insert_stmt fuel gpu i; mret (affected_rows n)
  | Ast.Update u => n ← Dml.run_update fuel gpu u; mret (affected_rows n)
  | Ast.Delete d => n ← Dml.run_delete fuel gpu d; mret (affected_rows n)
  | Ast.CreateTable ct => run_create_table ct;; mret empty_result_set
  | Ast.CreateView cv => run_create_view cv;; mret empty_result_set
  | Ast.DropView name => run_drop_view name;; mret empty_result_set
  | Ast.AlterTable a => run_alter_table a;; mret empty_result_set
  | Ast.Begin => run_begin;; mret empty_result_set
  | Ast.Commit => run_commit;; mret empty_result_set
  | Ast.Rollback => run_rollback;; mret empty_result_set
  | Ast.SetParameter s => Db.run_set_parameter s;; mret empty_result_set
  | Ast.ShowParameter s => Db.run_show_parameter s
  | Ast.ResetParameter s => Db.run_reset_parameter s;; mret empty_result_set
  | Ast.ResetAll => Db.run_reset_all;; mret empty_result_set
  | Ast.Compound c => read (fun db => Select.run_compound (Select.run_select_scoped fuel gpu db) c params)
  end.

Definition execute_checked (stmt : Ast.Statement) : D ResultSet := execute stmt [].

(** The tag before the statement has run. *)
Definition tag_of (stmt : Ast.Statement) : CommandTag :=
  match stmt with
  | Ast.Select _ | Ast.SelectLiteral _ | Ast.ShowParameter _ | Ast.Compound _ => Value.Select 0
  | Ast.Insert _ => Value.Insert 0
  | Ast.Update _ => Value.Update 0
  | Ast.Delete _ => Value.Delete 0
  | Ast.CreateTable _ => Value.CreateTable
  | Ast.CreateView _ => Value.CreateView
  | Ast.DropView _ => Value.DropView
  | Ast.AlterTable _ => Value.AlterTable
  | Ast.Begin => Value.Begin
  | Ast.Commit => Value.Commit
  | Ast.Rollback => Value.Rollback
  | Ast.SetParameter _ => Value.Set_
  | Ast.ResetParameter _ | Ast.ResetAll => Value.Reset_
  end.

Definition tag_with (tag : CommandTag) (rs : ResultSet) : CommandTag :=
  match tag, Value.affected rs with
  | Value.Select _, Some n => Value.Select n
  | Value.Select _, None => Value.Select (Z.of_nat (length (Value.rows rs)))
  | Value.Insert _, Some n => Value.Insert n
  | Value.Update _, Some n => Value.Update n
  | Value.Delete _, Some n => Value.Delete n
  | t, _ => t
  end.

Definition execute_with_stats (stmt : Ast.Statement) (params : list (list f32)) : D (ResultSet * CommandTag) :=
  rs ← execute stmt params; mret (rs, tag_with (tag_of stmt) rs).

(** A statement of a session with an open transaction runs with the session's
    transactions in place of the database's. *)
Definition execute_swapped (session_id : Z) (stmt : Ast.Statement) (params : list (list f32)) : D ResultSet := fun db =>
  match Db.session_txns db !! session_id with
  | None => (Panic, db)
  | Some s =>
      let taken := Db.set_sessions (<[session_id := Db.mkSession (Db.s_in_transaction s) []]> (Db.session_txns db)) db in
      let '(result, db') := execute stmt params (Db.set_txn true (Db.s_active_txns s) taken) in
      let updated := Db.active_txns db' in
      let sessions := match Db.session_txns db' !! session_id with
                      | Some s' => <[session_id := Db.mkSession (Db.s_in_transaction s') updated]> (Db.session_txns db')
                      | None => Db.session_txns db'
                      end in
      (result, Db.set_sessions sessions (Db.set_txn (Db.in_transaction db) (Db.active_txns db) db'))
  end.

Definition execute_in_session (session_id : Z) (stmt : Ast.Statement) (params : list (list f32)) : D ResultSet :=
  match stmt with
  | Ast.Begin => session_begin session_id;; mret empty_result_set
  | Ast.Commit => session_commit session_id;; mret empty_result_set
  | Ast.Rollback => session_rollback session_id;; mret empty_result_set
  | _ => fun db =>
      if session_in_transaction session_id db then execute_swapped session_id stmt params db
      else execute stmt params db
  end.

Definition session_tag (stmt : Ast.Statement) (rs : ResultSet) : CommandTag :=
  let n := Z.of_nat (length (Value.rows rs)) in
  let affected := default 0%Z (Value.affected rs) in
  match stmt with
  | Ast.Select _ | Ast.SelectLiteral _ | Ast.Compound _ => Value.Select n
  | Ast.Insert _ => Value.Insert affected
  | Ast.Update _ => Value.Update affected
  | Ast.Delete _ => Value.Delete affected
  | _ => tag_of stmt
  end.

Definition execute_in_session_with_stats (session_id : Z) (stmt : Ast.Statement) (params : list (list f32))
    : D (ResultSet * CommandTag) :=
  rs ← execute_in_session session_id stmt params; mret (rs, session_tag stmt rs).

End Execute.
End Engine.
