(* ===== verification/StoreProof.v ===== *)
(** * StoreProof: a table is a finite map from row ids to rows

    [table_rep ts m] says that the tree of [ts] holds the encodings of the rows
    of [m], that the rows fit the schema, and that each vector index holds
    exactly the vectors of its column.  A transaction's buffered writes are an
    overlay: a row or a tombstone per id.  The lemmas here lift the theorems on
    the B-Link tree, the row codec and the vector index to the operations the
    statements use. *)
From Stdlib Require Import ZArith Lia Strings.Byte.
From stdpp Require Import base numbers option list gmap sorting.
From S2P Require Import Prelude Ast Value BTree BTreeProof Mvcc Expr VectorIndex Codec Db Dml.
Import Codec(storable, encode_row, Schema).
Import Value(Value, Int, Vector, Null).
Import Db(TableStorage, Failure, fetch_row, fetch_rows).

Abbreviation row := (list Value).
Abbreviation rowmap := (gmap Z row).

(** ** The tree as a map from keys to bytes *)

Definition tree_map (t : BTree.btree) (m : gmap Z (list byte)) : Prop :=
  exists kvs, tree_rep t kvs /\ to_map kvs = m.

Lemma tree_map_new : tree_map BTree.new ∅.
Proof. exists []. split; [apply new_rep|done]. Qed.

Lemma tree_map_get t m k : tree_map t m -> BTree.get t k = Ok (m !! k).
Proof. intros (kvs & Ht & <-). by rewrite (get_spec _ _ _ Ht), kv_get_map. Qed.

Lemma tree_map_insert t m k v : tree_map t m ->
  exists t', BTree.insert t k v = (Ok tt, t') /\ tree_map t' (<[k := v]> m).
Proof.
  intros (kvs & Ht & <-). destruct (insert_spec t kvs k v Ht) as (t' & E & Ht').
  exists t'. split; [done|]. exists (kv_insert k v kvs). split; [done|]. apply kv_insert_map.
Qed.

Lemma tree_map_delete t m k : tree_map t m ->
  exists t', BTree.delete t k = (Ok (m !! k), t') /\ tree_map t' (delete k m).
Proof.
  intros (kvs & Ht & <-). destruct (delete_spec t kvs k Ht) as (t' & E & Ht').
  exists t'. split; [by rewrite E, kv_get_map|]. exists (kv_delete k kvs). split; [done|].
  apply kv_delete_map. by eapply tree_sorted.
Qed.

Lemma tree_map_len t m : tree_map t m -> BTree.len t = Ok (size m).
Proof.
  intros (kvs & Ht & <-). rewrite (len_spec _ _ Ht). unfold to_map. f_equal.
  assert (Hi := inc_nodup _ _ (tree_sorted _ _ Ht)). clear Ht.
  induction kvs as [|[k v] kvs IH]; [done|]. simpl in *. apply NoDup_cons in Hi as [Hk Hi].
  rewrite map_size_insert_None, <- IH; [done|done|]. by apply not_elem_of_list_to_map_1.
Qed.

(** ** Rows that fit a schema *)

(** A schema whose first column is the integer id and whose columns have distinct
    names and fit the width field of a row. *)
Record schema_ok (s : Schema) : Prop := {
  so_types : length (Codec.types s) = length (Codec.columns s);
  so_width : (Z.of_nat (length (Codec.columns s)) < 2 ^ 16)%Z;
  so_pos : 0 < length (Codec.columns s);
  so_nodup : NoDup (Codec.columns s);
  so_id : Codec.types s !! 0 = Some Ast.TInt;
}.

(** The values of a column. *)
Definition col_type (ty : Ast.ColumnType) : Expr.ty :=
  match ty with
  | Ast.TInt | Ast.TNumeric | Ast.TDate | Ast.TTimestamp => Expr.YInt
  | Ast.TFloat | Ast.TDouble => Expr.YFloat
  | Ast.TText | Ast.TVarchar _ => Expr.YText
  | Ast.TVector => Expr.YVector
  | Ast.TBoolean => Expr.YBool
  end.

Definition col_types (s : Schema) : list Expr.ty := map col_type (Codec.types s).

(** A row has a value of its type, or NULL, in every column. *)
Definition row_ok (s : Schema) (r : row) : Prop :=
  length r = length (Codec.columns s) /\ Forall storable r /\ Forall2 Expr.has_type r (col_types s).

Lemma decode_row_fits s id r : schema_ok s -> row_ok s r ->
  Codec.decode_row_validated id (encode_row r) (length (Codec.columns s)) = Ok r.
Proof.
  intros Hs (Hl & Hr & _). rewrite <- (app_nil_r (encode_row r)), <- Hl.
  apply Codec.decode_row_ok; [done|]. rewrite Hl. apply Hs.
Qed.

(** ** The vectors of a column *)

Definition as_vector (v : Value) : option (list Ast.f32) := match v with Vector vec => Some vec | _ => None end.

Definition column_vector (s : Schema) (col : Ast.str) (r : row) : option (list Ast.f32) :=
  slot ← Codec.index_of s col; v ← r !! slot; as_vector v.

Definition column_vectors (s : Schema) (col : Ast.str) (m : rowmap) : gmap Z (list Ast.f32) :=
  omap (column_vector s col) m.

Definition index_rep (s : Schema) (m : rowmap) (ci : Ast.str * VectorIndex.IvfFlatIndex) : Prop :=
  VectorIndex.wf ci.2 /\ VectorIndex.contents ci.2 = column_vectors s ci.1 m.

(** ** A table *)

Record table_rep (ts : TableStorage) (m : rowmap) : Prop := {
  tr_schema : schema_ok (Db.schema ts);
  tr_tree : tree_map (Db.tree ts) (encode_row <$> m);
  tr_rows : map_Forall (fun id r => (0 <= id < Db.next_row_id ts)%Z /\ row_ok (Db.schema ts) r) m;
  tr_indexes : Forall (index_rep (Db.schema ts) m) (Db.vector_indexes ts);
}.

Lemma new_table_rep s : schema_ok s -> table_rep (Db.new_table s) ∅.
Proof.
  intros Hs. split; [done| |apply map_Forall_empty|constructor]. simpl. rewrite fmap_empty. apply tree_map_new.
Qed.

(** *** The buffered writes of a transaction *)

(** A row, or nothing for a tombstone. *)
Abbreviation writemap := (gmap Z (option row)).

Definition wrap (o : option row) : list byte :=
  match o with Some r => Codec.mvcc_wrap_row r | None => Codec.mvcc_wrap_tombstone end.

Definition writes_of (txn : option Mvcc.Transaction) : gmap Z (list byte) :=
  match txn with Some t => Mvcc.writes t | None => ∅ end.

Definition write_ok (ts : TableStorage) (id : Z) (o : option row) : Prop :=
  (0 <= id < Db.next_row_id ts)%Z /\ forall r, o = Some r -> row_ok (Db.schema ts) r.

Record txn_rep (ts : TableStorage) (txn : option Mvcc.Transaction) (w : writemap) : Prop := {
  xr_writes : writes_of txn = wrap <$> w;
  xr_ok : map_Forall (write_ok ts) w;
}.

(** What the transaction sees. *)
Definition overlay (w : writemap) (m : rowmap) : rowmap :=
  merge (fun (x : option (option row)) (y : option row) => match x with Some o => o | None => y end) w m.

Lemma lookup_overlay w m id :
  overlay w m !! id = match w !! id with Some o => o | None => m !! id end.
Proof. unfold overlay. rewrite lookup_merge. by destruct (w !! id), (m !! id). Qed.

Lemma overlay_empty m : overlay ∅ m = m.
Proof. apply map_eq. intros id. by rewrite lookup_overlay, lookup_empty. Qed.

Lemma overlay_write w m id r : overlay (<[id := Some r]> w) m = <[id := r]> (overlay w m).
Proof.
  apply map_eq. intros x. rewrite lookup_overlay. destruct (decide (x = id)) as [->|Hx].
  - by rewrite !lookup_insert_eq.
  - by rewrite !lookup_insert_ne, lookup_overlay by done.
Qed.

Lemma overlay_delete w m id : overlay (<[id := None]> w) m = delete id (overlay w m).
Proof.
  apply map_eq. intros x. rewrite lookup_overlay. destruct (decide (x = id)) as [->|Hx].
  - by rewrite lookup_insert_eq, lookup_delete_eq.
  - by rewrite lookup_insert_ne, lookup_delete_ne, lookup_overlay by done.
Qed.

Lemma overlay_insert_base w m id r : w !! id = None -> overlay w (<[id := r]> m) = <[id := r]> (overlay w m).
Proof.
  intros Hw. apply map_eq. intros x. rewrite lookup_overlay. destruct (decide (x = id)) as [->|Hx].
  - by rewrite Hw, !lookup_insert_eq.
  - by rewrite !lookup_insert_ne, lookup_overlay by done.
Qed.

(** *** Reading *)

Lemma get_write_lookup (txn : option Mvcc.Transaction) id :
  (t ← txn; Mvcc.get_write t id) = writes_of txn !! id.
Proof. destruct txn as [t|]; [done|]. simpl. by rewrite lookup_empty. Qed.

Lemma fetch_row_view ts txn m w id : table_rep ts m -> txn_rep ts txn w ->
  fetch_row ts txn id = Ok (overlay w m !! id).
Proof.
  intros Ht Hx. unfold fetch_row, Db.width. rewrite get_write_lookup, (xr_writes _ _ _ Hx), lookup_fmap, lookup_overlay.
  assert (Hs := tr_schema _ _ Ht). destruct (w !! id) as [o|] eqn:Hw; cbn [fmap option_fmap option_map].
  - destruct o as [r|]; [|done]. assert (Ho := xr_ok _ _ _ Hx id _ Hw). destruct Ho as [_ Ho].
    cbn [wrap Codec.mvcc_wrap_row]. change (Byte.eqb Codec.MVCC_LIVE Codec.MVCC_TOMBSTONE) with false. cbv iota.
    by rewrite (decode_row_fits (Db.schema ts) id r Hs (Ho r eq_refl)).
  - rewrite (tree_map_get _ _ _ (tr_tree _ _ Ht)), lookup_fmap.
    destruct (m !! id) as [r|] eqn:Hm; [|done]. cbn.
    destruct (tr_rows _ _ Ht id r Hm) as [_ Hr]. by rewrite (decode_row_fits (Db.schema ts) id r Hs Hr).
Qed.

(** The live rows among some ids. *)
Definition live (m : rowmap) (l : list Z) : list (Z * row) := omap (fun id => r ← m !! id; Some (id, r)) l.

Lemma fetch_rows_view ts txn m w l : table_rep ts m -> txn_rep ts txn w ->
  fetch_rows ts txn l = Ok (live (overlay w m) l).
Proof.
  intros Ht Hx. unfold live. induction l as [|id l IH]; [done|]. cbn [fetch_rows omap list_omap].
  rewrite (fetch_row_view _ _ _ _ _ Ht Hx), IH. cbn. by destruct (overlay w m !! id).
Qed.

Lemma elem_of_ids ts id : id ∈ Db.ids ts <-> (0 <= id < Db.next_row_id ts)%Z.
Proof.
  unfold Db.ids. rewrite list_elem_of_fmap. split.
  - intros (n & -> & Hn). apply elem_of_seq in Hn. lia.
  - intros H. exists (Z.to_nat id). rewrite elem_of_seq. lia.
Qed.

Lemma ids_nodup ts : NoDup (Db.ids ts).
Proof. unfold Db.ids. apply NoDup_fmap_2; [intros ?? ?; lia|apply NoDup_seq]. Qed.

Lemma elem_of_live m l id r : (id, r) ∈ live m l <-> id ∈ l /\ m !! id = Some r.
Proof.
  unfold live. rewrite list_elem_of_omap. split.
  - intros (x & Hx & H). destruct (m !! x) eqn:E; simplify_eq/=. done.
  - intros [Hl Hm]. exists id. by rewrite Hm.
Qed.

Lemma live_ids_nodup m l : NoDup l -> NoDup (map fst (live m l)).
Proof.
  intros Hl. induction Hl as [|id l Hid _ IH]; [constructor|]. unfold live. cbn [omap list_omap].
  destruct (m !! id) as [r|] eqn:E; cbn; [|exact IH]. apply NoDup_cons. split; [|exact IH].
  intros Hin. apply list_elem_of_fmap in Hin as ([id' r'] & -> & Hin). apply elem_of_live in Hin as [? _]. done.
Qed.

(** Every row of a map within bounds is scanned. *)
Lemma live_complete ts m id r : (0 <= id < Db.next_row_id ts)%Z -> m !! id = Some r -> (id, r) ∈ live m (Db.ids ts).
Proof. intros Hid Hm. apply elem_of_live. by rewrite elem_of_ids. Qed.

(** *** Vector indexes *)

Lemma collect_each {A B} (f : A -> Db.R B) (P : A -> B -> Prop) l :
  Forall (fun x => exists y, f x = Ok y /\ P x y) l ->
  exists ys, Db.collect f l = Ok ys /\ Forall2 P l ys.
Proof.
  induction 1 as [|x l (y & E & HP) _ (ys & IH & HF)]; [by exists []|].
  exists (y :: ys). cbn. by rewrite E, IH; cbn; split; [|constructor].
Qed.

Lemma each_index_ok f s m (m' : rowmap) ts :
  Forall (index_rep s m) (Db.vector_indexes ts) ->
  (forall col idx, index_rep s m (col, idx) -> exists idx', f col idx = Ok idx' /\ index_rep s m' (col, idx')) ->
  exists v, Db.each_index f ts = (Ok tt, Db.set_indexes v ts) /\ Forall (index_rep s m') v.
Proof.
  intros Hix Hf. unfold Db.each_index.
  destruct (collect_each (fun ci => Db.obind (f ci.1 ci.2) (fun x => Ok (ci.1, x)))
    (fun _ ci' => index_rep s m' ci') (Db.vector_indexes ts)) as (v & -> & Hv).
  { eapply Forall_impl; [exact Hix|]. intros [col idx] Hci. destruct (Hf col idx Hci) as (idx' & E & H').
    exists (col, idx'). simpl. by rewrite E. }
  exists v. split; [done|]. clear -Hv. induction Hv; constructor; auto.
Qed.

Lemma lookup_column_vectors s col m id : column_vectors s col m !! id = r ← m !! id; column_vector s col r.
Proof. unfold column_vectors. by rewrite lookup_omap. Qed.

Lemma column_vectors_insert s col m id r :
  column_vectors s col (<[id := r]> m) =
  match column_vector s col r with
  | Some vec => <[id := vec]> (column_vectors s col m)
  | None => delete id (column_vectors s col m)
  end.
Proof.
  apply map_eq. intros x. rewrite lookup_column_vectors. destruct (decide (x = id)) as [->|Hx].
  - rewrite lookup_insert_eq. cbn. destruct (column_vector s col r).
    + by rewrite lookup_insert_eq.
    + by rewrite lookup_delete_eq.
  - rewrite lookup_insert_ne by done. destruct (column_vector s col r).
    + by rewrite lookup_insert_ne, lookup_column_vectors by done.
    + by rewrite lookup_delete_ne, lookup_column_vectors by done.
Qed.

Lemma column_vectors_delete s col m id :
  column_vectors s col (delete id m) = delete id (column_vectors s col m).
Proof.
  apply map_eq. intros y. rewrite lookup_column_vectors. destruct (decide (y = id)) as [->|Hy].
  - by rewrite !lookup_delete_eq.
  - by rewrite !lookup_delete_ne, lookup_column_vectors by done.
Qed.

Lemma index_of_lt s c slot : Codec.index_of s c = Some slot -> slot < length (Codec.columns s).
Proof. apply position_lt. Qed.

Lemma maintain_row_ok ts m id r : schema_ok (Db.schema ts) -> row_ok (Db.schema ts) r ->
  Forall (index_rep (Db.schema ts) m) (Db.vector_indexes ts) ->
  exists v, Db.maintain_vector_indexes_for_row id r ts = (Ok tt, Db.set_indexes v ts) /\
    Forall (index_rep (Db.schema ts) (<[id := r]> m)) v.
Proof.
  intros Hs Hr Hix. unfold Db.maintain_vector_indexes_for_row.
  apply (each_index_ok _ _ m); [done|]. intros col idx [Hw Hc]. simpl in *.
  assert (Hrem : exists idx', VectorIndex.remove (E := Failure) id idx = Ok idx' /\ VectorIndex.wf idx' /\
    VectorIndex.contents idx' = delete id (column_vectors (Db.schema ts) col m)).
  { destruct (VectorIndex.remove_ok (E := Failure) id idx Hw) as (x & E & Hx & Hcx & _).
    exists x. by rewrite Hcx, Hc. }
  assert (Hins := column_vectors_insert (Db.schema ts) col m id r).
  assert (Hcv : column_vector (Db.schema ts) col r =
    slot ← Codec.index_of (Db.schema ts) col; v ← r !! slot; as_vector v) by done.
  destruct (Codec.index_of (Db.schema ts) col) as [slot|] eqn:Hslot; cbn in Hcv.
  - destruct (lookup_lt_is_Some_2 r slot) as [v Hv].
    { destruct Hr as [-> _]. by eapply index_of_lt. }
    unfold Db.at_. rewrite Hv in *. cbn in *. rewrite Hcv in Hins.
    destruct v as [| | |vec| |]; cbn in *; try (destruct Hrem as (x & -> & Hx & Hcx); exists x; split; [done|]; split; [done|];
      simpl; by rewrite Hins).
    destruct (VectorIndex.insert_ok (E := Failure) id vec idx Hw) as (x & -> & Hx & Hcx & _).
    exists x. split; [done|]. split; [done|]. simpl. by rewrite Hins, Hcx, Hc.
  - rewrite Hcv in Hins. destruct Hrem as (x & -> & Hx & Hcx). exists x. split; [done|]. split; [done|].
    simpl. by rewrite Hins.
Qed.

Lemma maintain_delete_ok ts m id : Forall (index_rep (Db.schema ts) m) (Db.vector_indexes ts) ->
  exists v, Db.maintain_vector_indexes_on_delete id ts = (Ok tt, Db.set_indexes v ts) /\
    Forall (index_rep (Db.schema ts) (delete id m)) v.
Proof.
  intros Hix. apply (each_index_ok _ _ m); [done|]. intros col idx [Hw Hc]. simpl in *.
  destruct (VectorIndex.remove_ok (E := Failure) id idx Hw) as (x & -> & Hx & Hcx & _).
  exists x. split; [done|]. split; [done|]. simpl. by rewrite Hcx, Hc, column_vectors_delete.
Qed.

(** *** Building the indexes that are missing *)

Definition row_vector (slot : nat) (r : row) : option (list Ast.f32) := v ← r !! slot; as_vector v.

Lemma bucket_ok slot (rows : list (Z * row)) : forall acc,
  (forall ir, ir ∈ rows -> slot < length ir.2) ->
  Db.fold (fun acc ir => Db.obind (Db.at_ ir.2 slot)
    (fun v => Ok (match v with Vector vec => acc ++ [(ir.1, vec)] | _ => acc end))) acc rows =
  Ok (acc ++ omap (fun ir => vec ← row_vector slot ir.2; Some (ir.1, vec)) rows).
Proof.
  induction rows as [|[id r] rows IH]; intros acc Hl; [by rewrite app_nil_r|].
  destruct (lookup_lt_is_Some_2 r slot) as [v Hv]; [by apply (Hl (id, r)); left|].
  assert (Hl' : forall ir, ir ∈ rows -> slot < length ir.2) by (intros; apply Hl; by right).
  cbn [Db.fold omap list_omap]. unfold Db.at_, row_vector at 1. cbn [fst snd]. rewrite Hv.
  cbn [Db.obind mbind option_bind]. rewrite IH by done.
  destruct v; cbn; try done. by rewrite <- app_assoc.
Qed.

Lemma bucket_live slot ts m : table_rep ts m -> slot < length (Codec.columns (Db.schema ts)) ->
  Db.bucket slot (live m (Db.ids ts)) =
  Ok (omap (fun ir => vec ← row_vector slot ir.2; Some (ir.1, vec)) (live m (Db.ids ts))).
Proof.
  intros Ht Hs. unfold Db.bucket. rewrite bucket_ok; [done|]. intros [id r] [_ Hm]%elem_of_live.
  destruct (tr_rows _ _ Ht _ _ Hm) as [_ [Hl _]]. simpl. by rewrite Hl.
Qed.

Lemma bucket_nodup slot m l : NoDup l ->
  NoDup (map fst (omap (fun ir : Z * row => vec ← row_vector slot ir.2; Some (ir.1, vec)) (live m l))).
Proof.
  intros Hl. apply (live_ids_nodup m) in Hl. induction (live m l) as [|[id r] rs IH]; [constructor|].
  cbn [map] in Hl. apply NoDup_cons in Hl as [Hid Hl]. cbn [omap list_omap fst snd].
  destruct (row_vector slot r) as [vec|]; cbn; [|by apply IH]. apply NoDup_cons. split; [|by apply IH].
  intros Hin. apply Hid. apply list_elem_of_fmap in Hin as ([id' vec'] & -> & Hin).
  apply list_elem_of_omap in Hin as ([id2 r2] & Hin & Hv). cbn in Hv.
  destruct (row_vector slot r2); simplify_eq/=. apply list_elem_of_fmap. by exists (id', r2).
Qed.

Lemma bucket_contents s ts m name slot : table_rep ts m -> s = Db.schema ts -> Codec.index_of s name = Some slot ->
  list_to_map (omap (fun ir : Z * row => vec ← row_vector slot ir.2; Some (ir.1, vec)) (live m (Db.ids ts)))
  = column_vectors s name m.
Proof.
  intros Ht -> Hs. apply map_eq. intros id. apply option_eq. intros vec.
  rewrite <- (elem_of_list_to_map _ id vec) by apply bucket_nodup, ids_nodup.
  rewrite list_elem_of_omap, lookup_column_vectors. unfold column_vector. rewrite Hs. cbn. split.
  - intros ([id' r] & Hin & Hv). apply elem_of_live in Hin as [_ Hm]. cbn in Hv.
    destruct (row_vector slot r) as [vec'|] eqn:E; simplify_eq/=. rewrite Hm. exact E.
  - destruct (m !! id) as [r|] eqn:Hm; [|done]. cbn. intros Hv. exists (id, r). split.
    + apply live_complete; [|done]. by destruct (tr_rows _ _ Ht _ _ Hm).
    + cbn. unfold row_vector. by rewrite Hv.
Qed.

Lemma index_of_nodup s i c : NoDup (Codec.columns s) -> Codec.columns s !! i = Some c -> Codec.index_of s c = Some i.
Proof.
  intros Hn Hi. unfold Codec.index_of. apply position_Some. exists c. split; [done|].
  split; [by apply bool_decide_eq_true|]. intros j y Hj Hy. apply bool_decide_eq_false. intros ->.
  apply (NoDup_lookup _ i j c Hn Hi) in Hy. lia.
Qed.

Lemma pending_cols_spec ts p : schema_ok (Db.schema ts) -> p ∈ Db.pending_cols ts ->
  Codec.index_of (Db.schema ts) p.2 = Some p.1.
Proof.
  intros Hs Hp. unfold Db.pending_cols in Hp. rewrite !list_elem_of_In, filter_In, in_map_iff in Hp.
  destruct Hp as ((q & <- & Hq) & _). rewrite filter_In, <- list_elem_of_In in Hq. destruct Hq as [Hq _].
  apply list_elem_of_lookup in Hq as [k Hk]. rewrite VectorIndex.enumerate_lookup in Hk.
  destruct (zip (Codec.columns (Db.schema ts)) (Codec.types (Db.schema ts)) !! k) as [[c ty]|] eqn:E; [|done].
  simplify_eq/=. apply lookup_zip_Some in E as [E _]. apply index_of_nodup; [apply Hs|done].
Qed.

Lemma build_indexes_ok ts m cols : table_rep ts m ->
  (forall p, p ∈ cols -> Codec.index_of (Db.schema ts) p.2 = Some p.1) ->
  exists v, Db.build_indexes cols (live m (Db.ids ts)) = Ok v /\ Forall (index_rep (Db.schema ts) m) v.
Proof.
  intros Ht. induction cols as [|[slot name] cols IH]; intros Hc; [by exists []|].
  destruct IH as (v & E & Hv); [intros p Hp; apply Hc; by right|]. cbn [Db.build_indexes].
  assert (Hs : Codec.index_of (Db.schema ts) name = Some slot) by (apply (Hc (slot, name)); by left).
  rewrite (bucket_live slot ts m Ht) by by eapply index_of_lt. cbn [Db.obind]. rewrite E. cbn [Db.obind].
  assert (Hm := bucket_contents _ ts m name slot Ht eq_refl Hs).
  assert (Hn := bucket_nodup slot m (Db.ids ts) (ids_nodup ts)).
  destruct (omap _ (live m (Db.ids ts))) as [|b bs]; [by exists v|].
  destruct (VectorIndex.build_ok (E := Failure) (b :: bs)) as (x & -> & Hx & Hcx & _); [done..|].
  exists ((name, x) :: v). split; [done|]. constructor; [|done]. split; [done|]. simpl. by rewrite Hcx.
Qed.

Lemma empty_txn_rep ts : txn_rep ts None ∅.
Proof. split; [by rewrite fmap_empty|apply map_Forall_empty]. Qed.

Lemma maybe_build_ok ts m : table_rep ts m ->
  exists v, Db.maybe_build_vector_indexes ts = (Ok tt, Db.set_indexes v ts) /\ table_rep (Db.set_indexes v ts) m.
Proof.
  intros Ht. unfold Db.maybe_build_vector_indexes.
  assert (Hsame : table_rep (Db.set_indexes (Db.vector_indexes ts) ts) m) by by destruct Ht.
  case_match; [by exists (Db.vector_indexes ts); destruct ts|].
  destruct (Db.pending_cols ts) as [|p ps] eqn:Hp; [by exists (Db.vector_indexes ts); destruct ts|].
  rewrite (fetch_rows_view _ _ _ _ _ Ht (empty_txn_rep ts)), overlay_empty. cbn [Db.obind].
  destruct (build_indexes_ok ts m (p :: ps) Ht) as (v & -> & Hv).
  { intros q Hq. rewrite <- Hp in Hq. apply pending_cols_spec; [apply Ht|done]. }
  eexists. split; [done|]. destruct Ht. split; try done. simpl. by apply Forall_app.
Qed.

(** *** Writing *)

(** What a write to the tree leaves alone. *)
Definition same_frame (ts ts' : TableStorage) : Prop :=
  Db.schema ts' = Db.schema ts /\ Db.next_row_id ts' = Db.next_row_id ts /\ Db.mvcc ts' = Db.mvcc ts.

Lemma tree_insert_ok ts m id r : table_rep ts m ->
  exists t', Db.tree_insert id (encode_row r) ts =
    (Ok tt, Db.mkTable (Db.schema ts) t' (Db.next_row_id ts) (Db.mvcc ts) (Db.vector_indexes ts)) /\
    tree_map t' (encode_row <$> <[id := r]> m).
Proof.
  intros Ht. destruct (tree_map_insert _ _ id (encode_row r) (tr_tree _ _ Ht)) as (t' & E & Ht').
  exists t'. unfold Db.tree_insert. rewrite E. split; [done|]. by rewrite fmap_insert.
Qed.

Lemma rows_insert ts (m : rowmap) id r :
  map_Forall (fun id r => (0 <= id < Db.next_row_id ts)%Z /\ row_ok (Db.schema ts) r) m ->
  (0 <= id < Db.next_row_id ts)%Z -> row_ok (Db.schema ts) r ->
  map_Forall (fun id r => (0 <= id < Db.next_row_id ts)%Z /\ row_ok (Db.schema ts) r) (<[id := r]> m).
Proof. intros Hm Hid Hr. by apply map_Forall_insert_2. Qed.

Lemma store_row_ok ts m id r : table_rep ts m -> (0 <= id < Db.next_row_id ts)%Z -> row_ok (Db.schema ts) r ->
  exists ts', Dml.store_row id r ts = (Ok tt, ts') /\ table_rep ts' (<[id := r]> m) /\ same_frame ts ts'.
Proof.
  intros Ht Hid Hr. unfold Dml.store_row.
  destruct (tree_insert_ok ts m id r Ht) as (t' & E & Ht'). rewrite (bind_ok _ _ _ _ _ E).
  set (ts1 := Db.mkTable _ _ _ _ _).
  destruct (maintain_row_ok ts1 m id r (tr_schema _ _ Ht) Hr (tr_indexes _ _ Ht)) as (v & E2 & Hv).
  rewrite E2. eexists. split; [done|]. split; [|done]. split; simpl; [apply Ht|done| |done].
  by apply rows_insert; [apply Ht| |].
Qed.

Definition erase_row (id : Z) : M TableStorage Failure unit :=
  Db.tree_delete id;; Db.maintain_vector_indexes_on_delete id.

Lemma erase_row_ok ts m id : table_rep ts m ->
  exists ts', erase_row id ts = (Ok tt, ts') /\ table_rep ts' (delete id m) /\ same_frame ts ts'.
Proof.
  intros Ht. unfold erase_row.
  destruct (tree_map_delete _ _ id (tr_tree _ _ Ht)) as (t' & E & Ht').
  set (ts1 := Db.mkTable (Db.schema ts) t' (Db.next_row_id ts) (Db.mvcc ts) (Db.vector_indexes ts)).
  rewrite (bind_ok _ _ _ tt ts1) by (unfold Db.tree_delete; by rewrite E).
  destruct (maintain_delete_ok ts1 m id (tr_indexes _ _ Ht)) as (v & E2 & Hv).
  rewrite E2. eexists. split; [done|]. split; [|done]. split; simpl; [apply Ht|by rewrite fmap_delete| |done].
  by apply map_Forall_delete, Ht.
Qed.

Lemma take_id_ok ts m : table_rep ts m -> (0 <= Db.next_row_id ts)%Z -> (Db.next_row_id ts + 1 < 2 ^ 64)%Z ->
  exists ts', Dml.take_id ts = (Ok (Db.next_row_id ts), ts') /\ table_rep ts' m /\
    Db.schema ts' = Db.schema ts /\ Db.mvcc ts' = Db.mvcc ts /\ Db.next_row_id ts' = (Db.next_row_id ts + 1)%Z.
Proof.
  intros Ht H0 Hn. unfold Dml.take_id. eexists. split; [done|]. simpl. unfold wrap64.
  rewrite Z.mod_small by lia. split; [|done]. destruct Ht. split; try done. simpl.
  eapply map_Forall_impl; [exact tr_rows0|]. simpl. intros ? ? [? ?]. split; [lia|done].
Qed.

(** The transaction's writes stay well formed when ids are added. *)
Lemma txn_rep_grow ts ts' txn w : txn_rep ts txn w -> Db.schema ts' = Db.schema ts ->
  (Db.next_row_id ts <= Db.next_row_id ts')%Z -> txn_rep ts' txn w.
Proof.
  intros [Hw Hok] Hs Hn. split; [done|]. eapply map_Forall_impl; [exact Hok|].
  intros id o [Hid Ho]. unfold write_ok. rewrite Hs. split; [lia|done].
Qed.

Lemma txn_write_rep ts t w id o : txn_rep ts (Some t) w -> write_ok ts id o ->
  txn_rep ts (Some (Mvcc.write t id (wrap o))) (<[id := o]> w).
Proof.
  intros [Hw Hok] Ho. split; simpl.
  - simpl in Hw. by rewrite Hw, fmap_insert.
  - by apply map_Forall_insert_2.
Qed.

Lemma overlay_rows ts m w : table_rep ts m -> map_Forall (write_ok ts) w ->
  map_Forall (fun id r => (0 <= id < Db.next_row_id ts)%Z /\ row_ok (Db.schema ts) r) (overlay w m).
Proof.
  intros Ht Hw id r. rewrite lookup_overlay. destruct (w !! id) as [o|] eqn:E.
  - intros ->. destruct (Hw id _ E) as [? Ho]. split; [done|]. by apply Ho.
  - apply (tr_rows _ _ Ht).
Qed.
