(* ===== verification/DmlProof.v ===== *)
(** * DmlProof: INSERT, UPDATE and DELETE over finite maps

    [view_rep tabs txns C V] says that the tables [tabs] hold the committed maps
    [C] and that, through the buffered writes [txns], the statements see the maps
    [V].  Each statement is proved against these maps: what it writes, what it
    leaves alone when it fails, and the constraints it keeps. *)
From Stdlib Require Import ZArith Lia Strings.Byte Strings.String.
From stdpp Require Import base numbers option list gmap sorting.
From S2P Require Import Prelude Ast Value Expr BTree Mvcc Codec Db Select Dml Engine StoreProof.
Import Codec(storable, encode_row, Schema).
Import Value(Value, Int, Vector, Null).
Import Db(TableStorage, Database, Failure, find_named, set_named, table, active_txn, on_table).

(** ** Named entries *)

Lemma find_set_named {A} name (x y : A) l other : find_named name l = Some y ->
  find_named other (set_named name x l) = if decide (other = name) then Some x else find_named other l.
Proof.
  induction l as [|[n z] l IH]; [done|]. cbn [find_named set_named]. destruct (decide (n = name)) as [->|Hn].
  - intros _. cbn [find_named]. destruct (decide (name = other)) as [->|Ho].
    + by rewrite decide_True.
    + by rewrite decide_False by congruence.
  - intros H. cbn [find_named]. destruct (decide (n = other)) as [->|Ho].
    + by rewrite decide_False by congruence.
    + by apply IH.
Qed.

Lemma find_named_app {A} name (l l' : list (Ast.str * A)) :
  find_named name (l ++ l') = match find_named name l with Some x => Some x | None => find_named name l' end.
Proof. induction l as [|[n x] l IH]; [done|]. cbn. by case_decide. Qed.

Lemma find_named_elem {A} name (x : A) l : find_named name l = Some x -> (name, x) ∈ l.
Proof.
  induction l as [|[n y] l IH]; [done|]. cbn. case_decide as Hn; [intros [= ->]; subst; left|]. right. auto.
Qed.

Lemma find_named_None {A} name (l : list (Ast.str * A)) : find_named name l = None <-> name ∉ map fst l.
Proof.
  induction l as [|[n y] l IH]; cbn; [split; [intros _; apply not_elem_of_nil|done]|].
  rewrite not_elem_of_cons. case_decide; [subst; naive_solver|]. rewrite IH. naive_solver.
Qed.

Lemma elem_find_named {A} name (x : A) l : NoDup (map fst l) -> (name, x) ∈ l -> find_named name l = Some x.
Proof.
  induction l as [|[n y] l IH]; [by intros _ ?%elem_of_nil|]. cbn. intros [Hn Hl]%NoDup_cons.
  intros [[= -> ->]|H]%elem_of_cons; [by rewrite decide_True|].
  rewrite decide_False; [by apply IH|]. intros ->. apply Hn. apply list_elem_of_fmap. by exists (name, x).
Qed.

Lemma set_named_fst {A} name (x : A) l : map fst (set_named name x l) = map fst l.
Proof. induction l as [|[n y] l IH]; [done|]. cbn. case_decide; [subst; done|]. cbn. by rewrite IH. Qed.

(** ** The maps a database holds *)

Abbreviation mapdb := (gmap Ast.str rowmap).

Definition table_view (txns : Db.Txns) (C V : mapdb) (name : Ast.str) (ts : TableStorage) : Prop :=
  exists m w, C !! name = Some m /\ V !! name = Some (overlay w m) /\ table_rep ts m /\
    txn_rep ts (find_named name txns) w /\ (0 <= Db.next_row_id ts)%Z.

Record view_rep (tabs : list (Ast.str * TableStorage)) (txns : Db.Txns) (C V : mapdb) : Prop := {
  vr_tables : NoDup (map fst tabs);
  vr_txns : NoDup (map fst txns);
  vr_view : forall name ts, find_named name tabs = Some ts -> table_view txns C V name ts;
  vr_none : forall name, find_named name tabs = None ->
    C !! name = None /\ V !! name = None /\ find_named name txns = None;
}.

Definition db_rep (db : Database) : mapdb -> mapdb -> Prop := view_rep (Db.tables db) (Db.active_txns db).

(** Outside a transaction nothing is buffered. *)
Definition flag_ok (db : Database) : Prop := Db.in_transaction db = false -> Db.active_txns db = [].

Lemma view_rep_auto tabs C V : view_rep tabs [] C V -> V = C.
Proof.
  intros H. apply map_eq. intros name. destruct (find_named name tabs) as [ts|] eqn:E.
  - destruct (vr_view _ _ _ _ H name ts E) as (m & w & -> & -> & _ & Hx & _).
    assert (Hw : w = ∅).
    { assert (Hx' := xr_writes _ _ _ Hx). cbn in Hx'. symmetry in Hx'. by apply fmap_empty_inv in Hx'. }
    by rewrite Hw, overlay_empty.
  - destruct (vr_none _ _ _ _ H name E) as (-> & -> & _). done.
Qed.

Lemma empty_rep : db_rep Db.empty ∅ ∅.
Proof.
  split; [constructor|constructor|done|]. intros name _. by rewrite !lookup_empty.
Qed.

(** What a write keeps: the tables' names, schemas and id counters, the open
    transactions, and everything else but the rows. *)
Definition head (ts : TableStorage) : Schema * Z := (Db.schema ts, Db.next_row_id ts).

Record same_shape (db db' : Database) : Prop := {
  ss_heads : forall name, head <$> table name db' = head <$> table name db;
  ss_flag : Db.in_transaction db' = Db.in_transaction db;
  ss_auto : flag_ok db -> flag_ok db';
  ss_txns : forall name, is_Some (active_txn name db) -> is_Some (active_txn name db');
  ss_views : Db.views db' = Db.views db;
  ss_params : Db.session_parameters db' = Db.session_parameters db;
  ss_sessions : Db.session_txns db' = Db.session_txns db;
}.

#[export] Instance same_shape_preorder : PreOrder same_shape.
Proof.
  split; [by intros db|]. intros a b c [] []. split; intros; first [by etransitivity; eauto|auto].
Qed.

Lemma same_shape_table db db' name ts : same_shape db db' -> table name db = Some ts ->
  exists ts', table name db' = Some ts' /\ Db.schema ts' = Db.schema ts /\ Db.next_row_id ts' = Db.next_row_id ts.
Proof.
  intros H E. assert (Hh := ss_heads _ _ H name). rewrite E in Hh. cbn in Hh.
  destruct (table name db') as [ts'|]; [|done]. exists ts'. unfold head in Hh. by simplify_eq/=.
Qed.

Lemma view_table db C V name ts : db_rep db C V -> table name db = Some ts ->
  table_view (Db.active_txns db) C V name ts.
Proof. intros H. apply (vr_view _ _ _ _ H). Qed.

Lemma view_lookup db C V name m : db_rep db C V -> V !! name = Some m ->
  exists ts, table name db = Some ts.
Proof.
  intros H E. unfold table. destruct (find_named name (Db.tables db)) as [ts|] eqn:Et; [by exists ts|].
  destruct (vr_none _ _ _ _ H name Et) as (_ & ? & _). congruence.
Qed.

(** ** Writing through a view *)

Lemma view_rep_table tabs txns C V name ts ts' m' w :
  view_rep tabs txns C V -> find_named name tabs = Some ts -> table_rep ts' m' ->
  txn_rep ts' (find_named name txns) w -> (0 <= Db.next_row_id ts')%Z ->
  view_rep (set_named name ts' tabs) txns (<[name := m']> C) (<[name := overlay w m']> V).
Proof.
  intros Hv Hn Ht Hx H0. split.
  - rewrite set_named_fst. apply Hv.
  - apply Hv.
  - intros other ts2. rewrite (find_set_named _ _ _ _ _ Hn). case_decide as Ho.
    + intros [= <-]. subst other. exists m', w. by rewrite !lookup_insert_eq.
    + intros H. destruct (vr_view _ _ _ _ Hv other ts2 H) as (m & w2 & ?). exists m, w2.
      by rewrite !lookup_insert_ne by done.
  - intros other. rewrite (find_set_named _ _ _ _ _ Hn). case_decide as Ho; [done|]. intros H.
    rewrite !lookup_insert_ne by done. by apply (vr_none _ _ _ _ Hv).
Qed.

Lemma view_rep_txn tabs txns C V name ts m t t' w :
  view_rep tabs txns C V -> find_named name tabs = Some ts -> C !! name = Some m ->
  find_named name txns = Some t -> txn_rep ts (Some t') w ->
  view_rep tabs (set_named name t' txns) C (<[name := overlay w m]> V).
Proof.
  intros Hv Hn Hm Ht Hx. split.
  - apply Hv.
  - rewrite set_named_fst. apply Hv.
  - intros other ts2 H. unfold table_view. rewrite (find_set_named _ _ _ _ _ Ht). case_decide as Ho.
    + subst other. destruct (vr_view _ _ _ _ Hv name ts Hn) as (m0 & w0 & Hm0 & _ & ? & _ & ?).
      simplify_eq. exists m, w. by rewrite lookup_insert_eq.
    + destruct (vr_view _ _ _ _ Hv other ts2 H) as (m2 & w2 & ?). exists m2, w2.
      by rewrite lookup_insert_ne by done.
  - intros other H. destruct (vr_none _ _ _ _ Hv other H) as (? & ? & Hf).
    rewrite (find_set_named _ _ _ _ _ Ht). assert (other <> name) by (intros ->; congruence).
    by rewrite decide_False, lookup_insert_ne by done.
Qed.

Lemma on_table_eq {A} name e (f : M TableStorage Failure A) db ts o ts' :
  table name db = Some ts -> f ts = (o, ts') ->
  on_table name e f db = (o, Db.set_tables (set_named name ts' (Db.tables db)) db).
Proof. intros H E. unfold on_table. by rewrite H, E. Qed.

Lemma set_table_shape db name ts ts' : table name db = Some ts -> head ts' = head ts ->
  same_shape db (Db.set_tables (set_named name ts' (Db.tables db)) db).
Proof.
  intros H Hh. split; try done. intros other. unfold table in *. cbn.
  rewrite (find_set_named _ _ _ _ _ H). case_decide; [subst|done]. rewrite H. cbn. by rewrite Hh.
Qed.

(** A row, or its deletion, at an id. *)
Definition put (id : Z) (o : option row) (m : rowmap) : rowmap := partial_alter (fun _ => o) id m.

Lemma overlay_put w m id o : overlay (<[id := o]> w) m = put id o (overlay w m).
Proof. destruct o; [apply overlay_write|apply overlay_delete]. Qed.

Lemma overlay_put_base m id o : overlay ∅ (put id o m) = put id o m.
Proof. apply overlay_empty. Qed.

Definition write_row (name : Ast.str) (in_txn : bool) (id : Z) (o : option row) : Dml.D unit :=
  match o with
  | Some r => if in_txn then Dml.txn_write name id (Codec.mvcc_wrap_row r)
              else on_table name (Db.db_err (Codec.UnknownTable name)) (Dml.store_row id r)
  | None => if in_txn then Dml.txn_write name id Codec.mvcc_wrap_tombstone
            else on_table name (Db.db_err (Codec.UnknownTable name)) (erase_row id)
  end.

Definition after (in_txn : bool) (C V : mapdb) : mapdb := if in_txn then C else V.

Lemma txn_write_ok db C V name ts m id o : db_rep db C V -> table name db = Some ts -> V !! name = Some m ->
  is_Some (active_txn name db) -> write_ok ts id o ->
  exists db', Dml.txn_write name id (wrap o) db = (Ok tt, db') /\
    db_rep db' C (<[name := put id o m]> V) /\ same_shape db db'.
Proof.
  intros Hr Ht Hm [t Htx] Ho. unfold Dml.txn_write. rewrite Htx. eexists. split; [done|].
  destruct (view_table _ _ _ _ _ Hr Ht) as (m0 & w & Hm0 & Hw & Hrep & Hx & H0).
  unfold active_txn in Htx. rewrite Htx in Hx. rewrite Hw in Hm. injection Hm as <-. split.
  - rewrite <- overlay_put. eapply view_rep_txn; [done|done|done|exact Htx|]. by apply txn_write_rep.
  - split; try done; cbn.
    + unfold flag_ok. cbn. intros Hf Hi. by rewrite Hf in *.
    + intros other. unfold active_txn in *. cbn. rewrite (find_set_named _ _ _ _ _ Htx). by case_decide.
Qed.

Lemma table_write_ok db C V name ts m m' f : db_rep db C V -> Db.active_txns db = [] -> table name db = Some ts ->
  V !! name = Some m ->
  (table_rep ts m -> exists ts', f ts = (Ok tt, ts') /\ table_rep ts' m' /\ head ts' = head ts) ->
  exists db', on_table name (Db.db_err (Codec.UnknownTable name)) f db = (Ok tt, db') /\
    db_rep db' (<[name := m']> V) (<[name := m']> V) /\ same_shape db db'.
Proof.
  intros Hr Ha Ht Hm Hf. unfold db_rep in Hr. rewrite Ha in Hr. assert (HV := view_rep_auto _ _ _ Hr). subst V.
  destruct (vr_view _ _ _ _ Hr name ts Ht) as (m0 & w & Hm0 & _ & Hrep & _ & H0).
  rewrite Hm0 in Hm. injection Hm as <-. destruct (Hf Hrep) as (ts' & E & Hrep' & Hh).
  rewrite (on_table_eq _ _ _ _ _ _ _ Ht E). eexists. split; [done|]. split; [|by eapply set_table_shape].
  unfold db_rep. cbn. rewrite Ha. rewrite <- (overlay_empty m') at 2.
  eapply view_rep_table; [done|exact Ht|done| |]; [apply empty_txn_rep|]. unfold head in Hh. simplify_eq. lia.
Qed.

Lemma write_row_ok db C V name ts m id o : db_rep db C V -> flag_ok db ->
  (Db.in_transaction db = true -> is_Some (active_txn name db)) ->
  table name db = Some ts -> V !! name = Some m -> write_ok ts id o ->
  exists db', write_row name (Db.in_transaction db) id o db = (Ok tt, db') /\
    db_rep db' (after (Db.in_transaction db) C (<[name := put id o m]> V)) (<[name := put id o m]> V) /\
    same_shape db db'.
Proof.
  intros Hr Hf Htx Ht Hm Ho. unfold write_row, flag_ok in *. destruct (Db.in_transaction db).
  - destruct (txn_write_ok db C V name ts m id o) as (db' & E & ?); try done; [by apply Htx|].
    exists db'. by destruct o.
  - destruct o as [r|]; (eapply table_write_ok; [done|by apply Hf|done|done|]); intros Hrep.
    + destruct Ho as [Hid Hro]. destruct (store_row_ok ts m id r Hrep Hid (Hro r eq_refl)) as (ts' & E & ? & Hs & Hn & _).
      exists ts'. unfold head. by rewrite Hs, Hn.
    + destruct (erase_row_ok ts m id Hrep) as (ts' & E & ? & Hs & Hn & _).
      exists ts'. unfold head. by rewrite Hs, Hn.
Qed.

(** ** Reading through a view *)

Section Statements.
Context `{DebugValue} (fuel : nat) (gpu : bool).

Definition scanned (ts : TableStorage) (exclude : option Z) : list Z :=
  List.filter (fun id => negb (bool_decide (Some id = exclude))) (Db.ids ts).

Lemma elem_of_scanned ts exclude id : id ∈ scanned ts exclude <->
  (0 <= id < Db.next_row_id ts)%Z /\ Some id <> exclude.
Proof.
  unfold scanned. rewrite list_elem_of_In, filter_In, <- list_elem_of_In, elem_of_ids.
  rewrite negb_true_iff, bool_decide_eq_false. done.
Qed.

Lemma all_rows_view db C V name ts m exclude : db_rep db C V -> table name db = Some ts -> V !! name = Some m ->
  Dml.all_rows db name ts exclude = Ok (live m (scanned ts exclude)).
Proof.
  intros Hr Ht Hm. destruct (view_table _ _ _ _ _ Hr Ht) as (m0 & w & _ & Hw & Hrep & Hx & _).
  rewrite Hw in Hm. injection Hm as <-. by apply fetch_rows_view.
Qed.

Lemma current_row_view db C V name ts m id : db_rep db C V -> table name db = Some ts -> V !! name = Some m ->
  Dml.current_row db name id = Ok (m !! id).
Proof.
  intros Hr Ht Hm. destruct (view_table _ _ _ _ _ Hr Ht) as (m0 & w & _ & Hw & Hrep & Hx & _).
  rewrite Hw in Hm. injection Hm as <-. unfold Dml.current_row. rewrite Ht. by apply fetch_row_view.
Qed.

Lemma view_rows db C V name ts m : db_rep db C V -> table name db = Some ts -> V !! name = Some m ->
  map_Forall (fun id r => (0 <= id < Db.next_row_id ts)%Z /\ row_ok (Db.schema ts) r) m.
Proof.
  intros Hr Ht Hm. destruct (view_table _ _ _ _ _ Hr Ht) as (m0 & w & _ & Hw & Hrep & Hx & _).
  rewrite Hw in Hm. injection Hm as <-. apply overlay_rows; [done|apply Hx].
Qed.

Lemma view_schema db C V name ts : db_rep db C V -> table name db = Some ts -> schema_ok (Db.schema ts).
Proof. intros Hr Ht. destruct (view_table _ _ _ _ _ Hr Ht) as (? & ? & _ & _ & Hrep & _). apply Hrep. Qed.

(** Every live row that is not excluded is scanned. *)
Lemma scan_complete db C V name ts m exclude id r : db_rep db C V -> table name db = Some ts ->
  V !! name = Some m -> m !! id = Some r -> Some id <> exclude -> (id, r) ∈ live m (scanned ts exclude).
Proof.
  intros Hr Ht Hm Hid Hx. apply elem_of_live. split; [|done]. apply elem_of_scanned. split; [|done].
  by destruct (view_rows _ _ _ _ _ _ Hr Ht Hm id r Hid).
Qed.

(** Opening the table's transaction changes nothing that can be seen. *)
Lemma ensure_txn_ok db C V name : db_rep db C V -> Db.in_transaction db = true ->
  exists db', Dml.ensure_txn name db = (Ok tt, db') /\ db_rep db' C V /\ same_shape db db' /\
    (is_Some (table name db) -> is_Some (active_txn name db')).
Proof.
  intros Hr Hi. unfold Dml.ensure_txn. destruct (active_txn name db) as [t|] eqn:Ea; [by exists db|].
  destruct (table name db) as [ts|] eqn:Et; [|by exists db; split_and!; [..|intros [? ?]]].
  eexists. split; [done|].
  assert (Hfind : forall other, find_named other (Db.active_txns db ++ [(name, Mvcc.begin_ (Db.mvcc ts))]) =
    if decide (other = name) then Some (Mvcc.begin_ (Db.mvcc ts)) else find_named other (Db.active_txns db)).
  { intros other. rewrite find_named_app. cbn. unfold active_txn in Ea. destruct (decide (name = other)) as [->|Hn].
    - rewrite Ea. by rewrite decide_True.
    - rewrite decide_False by congruence. by destruct (find_named other _). }
  split_and!.
  - split; cbn [Db.tables Db.set_txn Db.active_txns].
    + apply Hr.
    + rewrite map_app. cbn. apply NoDup_app. split; [apply Hr|]. split; [|apply NoDup_singleton].
      intros x Hx Hx'%list_elem_of_singleton. subst x. by apply find_named_None in Ea.
    + intros other ts2 H2. destruct (vr_view _ _ _ _ Hr other ts2 H2) as (m & w & Hm & Hw & Ht & Hx & H0).
      exists m, w. split_and!; try done. rewrite Hfind. case_decide; [|done]. subst other.
      unfold active_txn in Ea. rewrite Ea in Hx. destruct Hx as [Hx Hok]. by split.
    + intros other H2. destruct (vr_none _ _ _ _ Hr other H2) as (? & ? & ?). split_and!; try done.
      rewrite Hfind. case_decide; [|done]. subst other. unfold table in Et. congruence.
  - split; try done.
    + unfold flag_ok. cbn. congruence.
    + intros other. unfold active_txn. cbn. rewrite Hfind. by case_decide.
  - intros _. unfold active_txn. cbn. rewrite Hfind. by rewrite decide_True.
Qed.

Lemma begin_table db C V name : db_rep db C V ->
  exists db', Dml.m_when (Db.in_transaction db) (Dml.ensure_txn name) db = (Ok tt, db') /\ db_rep db' C V /\
    same_shape db db' /\ (is_Some (table name db) -> Db.in_transaction db = true -> is_Some (active_txn name db')).
Proof.
  intros Hr. destruct (Db.in_transaction db) eqn:Hi.
  - destruct (ensure_txn_ok db C V name Hr Hi) as (db' & ? & ? & ? & ?). exists db'. split_and!; try done. auto.
  - exists db. by split_and!.
Qed.

(** ** The constraints *)

Definition row_not_null (s : Schema) (r : row) : Prop :=
  forall col, col ∈ Codec.not_null s ->
  exists i v, Codec.index_of s col = Some i /\ r !! i = Some v /\ Value.is_null v = false.

(** A group of columns without the implicit id. *)
Definition own_columns (s : Schema) (group : list Ast.str) : Prop :=
  forall c, c ∈ group -> Codec.index_of s c <> Some 0.

(** No row of [m] other than that at [id] has the key of [r]. *)
Definition fresh_key (s : Schema) (m : rowmap) (id : option Z) (r : row) : Prop :=
  forall group key, group ∈ Dml.unique_groups s -> Dml.key_of s group r = Ok key -> Dml.has_null key = false ->
  forall id' r' key', m !! id' = Some r' -> Some id' <> id -> Dml.key_of s group r' = Ok key' ->
  Value.row_eqb key' key = false.

(** NOT NULL columns hold values, and no two rows agree on a primary key or
    UNIQUE group.  Groups with the implicit id are left out: it is assigned
    after the check. *)
Record keeps (s : Schema) (m : rowmap) : Prop := {
  kp_not_null : forall id r, m !! id = Some r -> row_not_null s r;
  kp_unique : forall group, group ∈ Dml.unique_groups s -> own_columns s group ->
    forall i j ri rj ki kj, i <> j -> m !! i = Some ri -> m !! j = Some rj ->
    Dml.key_of s group ri = Ok ki -> Dml.key_of s group rj = Ok kj -> Dml.has_null ki = false ->
    Value.row_eqb ki kj = false;
}.

Lemma obind_ok {A B} (o : Db.R A) (f : A -> Db.R B) b : Db.obind o f = Ok b -> exists a, o = Ok a /\ f a = Ok b.
Proof. destruct o; cbn; [eauto|done|done]. Qed.

Lemma expect_ok {A} (o : option A) a : Db.expect o = Ok a -> o = Some a.
Proof. by destruct o; cbn; [intros [= ->]|]. Qed.

Lemma db_at_ok {A} (l : list A) i x : Db.at_ l i = Ok x -> l !! i = Some x.
Proof. unfold Db.at_. by destruct (l !! i); [intros [= ->]|]. Qed.

Lemma check_not_null_ok s r cols : Dml.check_not_null s r cols = Ok tt ->
  forall col, col ∈ cols -> exists i v, Codec.index_of s col = Some i /\ r !! i = Some v /\ Value.is_null v = false.
Proof.
  induction cols as [|c cols IH]; [by intros _ ? ?%elem_of_nil|]. cbn [Dml.check_not_null].
  intros (i & Hi%expect_ok & (v & Hv%db_at_ok & Hc)%obind_ok)%obind_ok.
  destruct (Value.is_null v) eqn:Hn; [done|]. intros col [->|Hin]%elem_of_cons; [by exists i, v|by apply IH].
Qed.

Lemma check_fresh_ok s group key rows : Dml.check_fresh s group key rows = Ok tt ->
  forall id r k, (id, r) ∈ rows -> Dml.key_of s group r = Ok k -> Value.row_eqb k key = false.
Proof.
  induction rows as [|[id0 r0] rows IH]; [by intros _ ? ? ? ?%elem_of_nil|]. cbn [Dml.check_fresh].
  intros (k0 & Hk0 & Hc)%obind_ok. destruct (Value.row_eqb k0 key) eqn:He; [done|].
  intros id r k [[= -> ->]|Hin]%elem_of_cons Hk; [congruence|by eapply IH].
Qed.

Lemma check_unique_ok db C V name ts m r exclude groups :
  db_rep db C V -> table name db = Some ts -> V !! name = Some m ->
  Dml.check_unique db name ts r exclude groups = Ok tt ->
  forall group key, group ∈ groups -> Dml.key_of (Db.schema ts) group r = Ok key -> Dml.has_null key = false ->
  forall id' r' key', m !! id' = Some r' -> Some id' <> exclude -> Dml.key_of (Db.schema ts) group r' = Ok key' ->
  Value.row_eqb key' key = false.
Proof.
  intros Hr Ht Hm. induction groups as [|g groups IH]; [by intros _ ? ? ?%elem_of_nil|].
  cbn [Dml.check_unique]. intros (k0 & Hk0 & Hc)%obind_ok.
  assert (Hcase : (Dml.has_null k0 = true \/ Dml.check_fresh (Db.schema ts) g k0 (live m (scanned ts exclude)) = Ok tt)
    /\ Dml.check_unique db name ts r exclude groups = Ok tt).
  { destruct (Dml.has_null k0); [by split; [left|]|]. rewrite (all_rows_view _ _ _ _ _ _ _ Hr Ht Hm) in Hc.
    cbn in Hc. apply obind_ok in Hc as ([] & Hf & Hc). by split; [right|]. }
  destruct Hcase as [Hf Hrest]. intros group key [->|Hin]%elem_of_cons; [|by apply IH].
  intros Hk Hn id' r' key' Hid Hne Hk'. rewrite Hk in Hk0. injection Hk0 as <-. destruct Hf as [Hf|Hf]; [congruence|].
  eapply check_fresh_ok; [exact Hf| |exact Hk']. by eapply scan_complete.
Qed.

Lemma enforce_ok db name ts r exclude : Dml.enforce_constraints fuel gpu db name ts r exclude = Ok tt ->
  Dml.check_not_null (Db.schema ts) r (Codec.not_null (Db.schema ts)) = Ok tt /\
  Dml.check_unique db name ts r exclude (Dml.unique_groups (Db.schema ts)) = Ok tt /\
  Dml.check_checks fuel gpu db (Codec.columns (Db.schema ts)) r (Codec.checks (Db.schema ts)) = Ok tt /\
  Dml.check_foreign db ts r (Codec.foreign_keys (Db.schema ts)) = Ok tt.
Proof.
  unfold Dml.enforce_constraints. intros ([] & ? & ([] & ? & ([] & ? & ?)%obind_ok)%obind_ok)%obind_ok. done.
Qed.

(** A row that passes has no NULL where there must be none, and a fresh key. *)
Lemma enforced db C V name ts m r exclude : db_rep db C V -> table name db = Some ts -> V !! name = Some m ->
  Dml.enforce_constraints fuel gpu db name ts r exclude = Ok tt ->
  row_not_null (Db.schema ts) r /\ fresh_key (Db.schema ts) m exclude r.
Proof.
  intros Hr Ht Hm (Hn & Hu & _)%enforce_ok. split.
  - intros col Hc. by eapply check_not_null_ok.
  - intros group key Hg Hk Hnull. by eapply check_unique_ok.
Qed.

Lemma keeps_put s m id r : keeps s m -> row_not_null s r -> fresh_key s m (Some id) r -> keeps s (put id (Some r) m).
Proof.
  intros Hk Hn Hf. change (put id (Some r) m) with (<[id := r]> m). split.
  - intros i ri. destruct (decide (i = id)) as [->|Hi].
    + rewrite lookup_insert_eq. by intros [= <-].
    + rewrite lookup_insert_ne by done. apply (kp_not_null _ _ Hk).
  - intros group Hg Ho i j ri rj ki kj Hij Hi Hj Hki Hkj Hnull.
    destruct (decide (i = id)) as [->|Hi'], (decide (j = id)) as [->|Hj']; try done.
    + rewrite lookup_insert_eq in Hi. injection Hi as <-. rewrite lookup_insert_ne in Hj by done.
      rewrite Value.row_eqb_sym. eapply Hf; try done. congruence.
    + rewrite lookup_insert_eq in Hj. injection Hj as <-. rewrite lookup_insert_ne in Hi by done.
      destruct (Dml.has_null kj) eqn:Hnj.
      * apply not_true_is_false. intros He. apply Value.row_eqb_null in He. unfold Dml.has_null in *. congruence.
      * eapply Hf; try done. congruence.
    + rewrite lookup_insert_ne in Hi by done. rewrite lookup_insert_ne in Hj by done.
      exact (kp_unique _ _ Hk group Hg Ho i j ri rj ki kj Hij Hi Hj Hki Hkj Hnull).
Qed.

Lemma keeps_delete s m id : keeps s m -> keeps s (put id None m).
Proof.
  intros Hk. change (put id None m) with (delete id m). split.
  - intros i ri [_ Hi]%lookup_delete_Some. by eapply kp_not_null.
  - intros group Hg Ho i j ri rj ki kj Hij [_ Hi]%lookup_delete_Some [_ Hj]%lookup_delete_Some Hki Hkj Hnull.
    exact (kp_unique _ _ Hk group Hg Ho i j ri rj ki kj Hij Hi Hj Hki Hkj Hnull).
Qed.

(** ** Literals *)

(** What Rust's types allow: an [i64], an [f32], valid UTF-8, lengths below
    [2^32]. *)
Definition literal_ok (l : Ast.Literal) : Prop :=
  match l with
  | Ast.LInt i => (- 2 ^ 63 <= i < 2 ^ 63)%Z
  | Ast.LFloat f => is_u32 f
  | Ast.LText t => Codec.utf8_valid t = true /\ (Z.of_nat (length t) < 2 ^ 32)%Z
  | Ast.LVector v => Forall is_u32 v /\ (Z.of_nat (length v) < 2 ^ 32)%Z
  | _ => True
  end.

Lemma literal_storable s slot l v : literal_ok l -> Codec.literal_to_value s slot l = Ok v -> storable v.
Proof.
  intros Hl. unfold Codec.literal_to_value. destruct (Codec.types s !! slot) as [ty|]; [|done].
  destruct (Codec.columns s !! slot); destruct ty, l; cbn; intros Hv; try discriminate Hv;
    try (injection Hv as <-; first [exact Hl|exact I|apply Value.f32_of_int_u32]).
  all: repeat (case_match; try discriminate Hv); injection Hv as <-; exact I.
Qed.

Lemma literal_typed s slot l v ty : Codec.literal_to_value s slot l = Ok v -> Codec.types s !! slot = Some ty ->
  Expr.has_type v (col_type ty).
Proof.
  unfold Codec.literal_to_value. intros Hv Ht. rewrite Ht in Hv.
  destruct (Codec.columns s !! slot); destruct ty, l; cbn in Hv; try discriminate Hv; try (injection Hv as <-; exact I).
  all: repeat (case_match; try discriminate Hv); injection Hv as <-; exact I.
Qed.

Lemma of_db_ok {A} (o : outcome Codec.DbError A) x : Db.of_db o = Ok x -> o = Ok x.
Proof. destruct o; cbn; congruence. Qed.

Lemma set_at_ok {A} i (x : A) l l' : Dml.set_at i x l = Ok l' -> l' = <[i := x]> l /\ i < length l.
Proof. unfold Dml.set_at. case_decide; [|done]. by intros [= <-]. Qed.

Lemma row_ok_insert s r i v : row_ok s r -> storable v ->
  (forall ty, Codec.types s !! i = Some ty -> Expr.has_type v (col_type ty)) -> row_ok s (<[i := v]> r).
Proof.
  intros (Hl & Hr & Ht) Hv Hty. split_and!; [by rewrite length_insert|by apply Forall_insert|].
  assert (Hlen := Forall2_length _ _ _ Ht). apply Forall2_same_length_lookup_2; [by rewrite length_insert|].
  intros j x t Hx Hj. destruct (decide (i = j)) as [->|Hne].
  - apply lookup_lt_Some in Hj as Hlt. rewrite list_lookup_insert_eq in Hx by lia. injection Hx as <-.
    unfold col_types in Hj. apply list_lookup_fmap_Some in Hj as (ty & -> & Hty'). by apply Hty.
  - rewrite list_lookup_insert_ne in Hx by done. by eapply Forall2_lookup_lr.
Qed.

(** A literal that fits its column. *)
Lemma row_ok_literal s r slot l v : row_ok s r -> literal_ok l -> Codec.literal_to_value s slot l = Ok v ->
  row_ok s (<[slot := v]> r).
Proof.
  intros Hr Hl Hv. apply row_ok_insert; [done|by eapply literal_storable|]. intros ty. by eapply literal_typed.
Qed.

(** A loop that stops at an error keeps what each step keeps. *)
Lemma fold_inv {A S} (P : S -> Prop) (f : S -> A -> Db.R S) l : forall s s',
  P s -> (forall s x s', x ∈ l -> P s -> f s x = Ok s' -> P s') -> Db.fold f s l = Ok s' -> P s'.
Proof.
  induction l as [|x l IH]; intros s s' Hs Hf; [by intros [= <-]|].
  cbn [Db.fold]. intros (s1 & E & H1)%obind_ok. eapply IH; [| |exact H1].
  - eapply Hf; [by left|exact Hs|exact E].
  - intros ? y ? Hy. apply Hf. by right.
Qed.

(** ** UPDATE *)

Definition update_ok (stmt : Ast.UpdateStatement) : Prop :=
  Forall (fun a => literal_ok (Ast.a_value a)) (Ast.u_assignments stmt).

Lemma assign_row_ok s r r' (assignments : list Ast.Assignment) :
  Forall (fun a => literal_ok (Ast.a_value a)) assignments -> row_ok s r ->
  Db.fold (Dml.assign s) r assignments = Ok r' -> row_ok s r'.
Proof.
  intros Hl Hr. apply (fold_inv (row_ok s)); [done|]. intros r1 a r2 Ha Hr1. unfold Dml.assign.
  intros (slot & _ & H1)%obind_ok. case_match; [by injection H1 as <-|].
  apply obind_ok in H1 as (v & Hv%of_db_ok & [-> _]%set_at_ok).
  rewrite Forall_forall in Hl. by apply (row_ok_literal s r1 slot (Ast.a_value a)); [|apply Hl|].
Qed.

(** What one statement may do to the rows of [name]. *)
Definition row_step (in_txn : bool) (f : Dml.D unit) (name : Ast.str) (id : Z)
    (R_ : row -> option row -> Database -> Prop) : Prop :=
  forall db C V ts m, db_rep db C V -> flag_ok db -> Db.in_transaction db = in_txn -> table name db = Some ts -> V !! name = Some m ->
  (in_txn = true -> is_Some (active_txn name db)) ->
  let (o, db') := f db in
  (o <> Ok tt /\ db' = db) \/ (o = Ok tt /\ m !! id = None /\ db' = db) \/
  (o = Ok tt /\ exists r r', m !! id = Some r /\ R_ r r' db /\
     db_rep db' (after in_txn C (<[name := put id r' m]> V)) (<[name := put id r' m]> V) /\
     same_shape db db').

Lemma of_r_bind {A B} (o : Db.R A) (k : A -> Dml.D B) db :
  (Dml.of_r o ≫= k) db = match o with Ok a => k a db | Err e => (Err e, db) | Panic => (Panic, db) end.
Proof. unfold mbind, M_bind, Dml.of_r. by destruct o. Qed.

Lemma get_bind {A} (k : Database -> Dml.D A) db : (m_get ≫= k) db = k db db.
Proof. reflexivity. Qed.

Definition updated (stmt : Ast.UpdateStatement) (id : Z) (r : row) (o : option row) (db : Database) : Prop :=
  exists ts r', table (Ast.u_table stmt) db = Some ts /\ o = Some r' /\
    Db.fold (Dml.assign (Db.schema ts)) r (Ast.u_assignments stmt) = Ok r' /\
    Dml.enforce_constraints fuel gpu db (Ast.u_table stmt) ts r' (Some id) = Ok tt.

Lemma update_row_step stmt in_txn id : update_ok stmt ->
  row_step in_txn (Dml.update_row fuel gpu stmt in_txn id) (Ast.u_table stmt) id (updated stmt id).
Proof.
  intros Hl db C V ts m Hr Hf Hi Ht Hm Hx. subst in_txn.
  unfold Dml.update_row. rewrite get_bind, of_r_bind, (current_row_view _ _ _ _ _ _ _ Hr Ht Hm).
  destruct (m !! id) as [r|] eqn:Hid; [|by right; left].
  rewrite of_r_bind, Ht. cbn [Db.expect]. rewrite of_r_bind.
  destruct (Db.fold (Dml.assign (Db.schema ts)) r (Ast.u_assignments stmt)) as [r'|e|] eqn:Ha; [|by left..].
  rewrite of_r_bind.
  destruct (Dml.enforce_constraints fuel gpu db (Ast.u_table stmt) ts r' (Some id)) as [[]|e|] eqn:He; [|by left..].
  destruct (view_rows _ _ _ _ _ _ Hr Ht Hm id r Hid) as [Hb Hro].
  destruct (write_row_ok db C V (Ast.u_table stmt) ts m id (Some r') Hr Hf Hx Ht Hm) as (db' & E & Hr' & Hs).
  { split; [done|]. intros ? [= <-]. by eapply assign_row_ok. }
  unfold write_row in E. rewrite E. right; right. split; [done|]. exists r, (Some r').
  split; [done|]. split; [|done]. by exists ts, r'.
Qed.

(** ** A loop over the rows of a table *)

Lemma after_id in_txn db C V : db_rep db C V -> flag_ok db -> Db.in_transaction db = in_txn ->
  after in_txn C V = C.
Proof.
  intros Hr Hf Hi. destruct in_txn; [done|]. cbn. unfold db_rep in Hr. rewrite (Hf Hi) in Hr.
  by apply view_rep_auto in Hr.
Qed.

(** [Inv rest db V] holds while the ids [rest] are still to be visited. *)
Lemma rows_loop (in_txn : bool) (f : Z -> Dml.D unit) (name : Ast.str) (Rel : Z -> row -> option row -> Database -> Prop)
    (Inv : list Z -> Database -> mapdb -> Prop) (l : list Z) :
  (forall id : Z, row_step in_txn (f id) name id (Rel id)) ->
  (forall (id : Z) rest db C V ts m, Inv (id :: rest) db V -> db_rep db C V -> table name db = Some ts ->
     V !! name = Some m ->
     (m !! id = None -> Inv rest db V) /\
     (forall r r' db', m !! id = Some r -> Rel id r r' db -> same_shape db db' ->
        Inv rest db' (<[name := put id r' m]> V))) ->
  forall db C V ts m, db_rep db C V -> flag_ok db -> Db.in_transaction db = in_txn -> table name db = Some ts ->
  V !! name = Some m -> (in_txn = true -> is_Some (active_txn name db)) -> Inv l db V ->
  let (o, db') := Dml.m_each f l db in
  exists V' rest, db_rep db' (after in_txn C V') V' /\ same_shape db db' /\ Inv rest db' V' /\ (o = Ok tt -> rest = []).
Proof.
  intros Hf Hinv. induction l as [|id l IH]; intros db C V ts m Hr Hfl Hi Ht Hm Hx HI.
  { cbn. exists V, []. rewrite (after_id _ _ _ _ Hr Hfl Hi). done. }
  cbn [Dml.m_each]. assert (Hstep := Hf id db C V ts m Hr Hfl Hi Ht Hm Hx).
  destruct (Hinv id l db C V ts m HI Hr Ht Hm) as [Hskip Hwrite].
  unfold mbind, M_bind. destruct (f id db) as [o db1].
  destruct Hstep as [[Ho ->]|[(-> & Hn & ->)|(-> & r & r' & Hid & HR & Hr1 & Hs)]].
  - assert (Hstop : exists V' rest, db_rep db (after in_txn C V') V' /\ same_shape db db /\ Inv rest db V' /\
      (o = Ok tt -> rest = [])).
    { exists V, (id :: l). rewrite (after_id _ _ _ _ Hr Hfl Hi). done. }
    destruct o as [[]|e|]; [done|..]; destruct Hstop as (V' & rest & ? & ? & ? & _); exists V', rest; done.
  - eapply IH; eauto.
  - destruct (same_shape_table _ _ _ _ Hs Ht) as (ts1 & Ht1 & _).
    assert (HI1 := Hwrite r r' db1 Hid HR Hs).
    assert (HIH := IH db1 (after in_txn C (<[name := put id r' m]> V)) (<[name := put id r' m]> V) ts1 (put id r' m) Hr1
      (ss_auto _ _ Hs Hfl) (eq_trans (ss_flag _ _ Hs) Hi) Ht1 (lookup_insert_eq _ _ _)
      (fun e => ss_txns _ _ Hs _ (Hx e)) HI1).
    destruct (Dml.m_each f l db1) as [o2 db2]. destruct HIH as (V' & rest & Hr2 & Hs2 & HI2 & Ho2).
    exists V', rest. split_and!; [by destruct in_txn|by etransitivity|done|done].
Qed.

(** ** DELETE *)

Definition deleted (name : Ast.str) (r : row) (o : option row) (db : Database) : Prop :=
  o = None /\ Dml.enforce_fk_on_delete db name r = Ok tt.

Lemma delete_row_step name in_txn id : row_step in_txn (Dml.delete_row name in_txn id) name id (deleted name).
Proof.
  intros db C V ts m Hr Hf Hi Ht Hm Hx. subst in_txn. unfold Dml.delete_row.
  rewrite get_bind, of_r_bind, (current_row_view _ _ _ _ _ _ _ Hr Ht Hm).
  destruct (m !! id) as [r|] eqn:Hid; [|by right; left].
  rewrite of_r_bind. destruct (Dml.enforce_fk_on_delete db name r) as [[]|e|] eqn:He; [|by left..].
  destruct (view_rows _ _ _ _ _ _ Hr Ht Hm id r Hid) as [Hb Hro].
  destruct (write_row_ok db C V name ts m id None Hr Hf Hx Ht Hm) as (db' & E & Hr' & Hs); [done|].
  change (write_row name (Db.in_transaction db) id None db = (Ok tt, db')) in E. unfold write_row, erase_row in E.
  rewrite E. right; right. split; [done|]. by exists r, None.
Qed.

(** ** The rows a statement selects *)

Definition selects (db : Database) (ts : TableStorage) (filter : option Ast.Expr) (r : row) : Prop :=
  match filter with
  | None => True
  | Some e => exists cache,
      Select.build_subquery_cache (Dml.select_in fuel gpu db) e (Codec.columns (Db.schema ts)) [] [] = Ok cache /\
      Select.where_true (Dml.select_in fuel gpu db) (Codec.columns (Db.schema ts)) r [] [] []
        (Codec.columns (Db.schema ts)) cache [] e = Ok true
  end.

Lemma matching_rows db C V name ts m filter l : db_rep db C V -> table name db = Some ts -> V !! name = Some m ->
  Dml.matching_row_ids fuel gpu db name filter = Ok l ->
  NoDup l /\ forall id, id ∈ l <-> exists r, m !! id = Some r /\ selects db ts filter r.
Proof.
  intros Hr Ht Hm. unfold Dml.matching_row_ids. rewrite Ht. cbn [Db.ok_or Db.obind].
  intros (cache & Hc & Hl)%obind_ok.
  assert (Hsel : forall r, match filter with None => Ok true | Some e =>
      Select.where_true (Dml.select_in fuel gpu db) (Codec.columns (Db.schema ts)) r [] [] []
        (Codec.columns (Db.schema ts)) cache [] e end = Ok true <-> selects db ts filter r).
  { intros r. unfold selects. destruct filter as [e|]; [|done]. split; [by exists cache|].
    intros (cache' & Hc' & ?). congruence. }
  destruct (view_table _ _ _ _ _ Hr Ht) as (m0 & w & _ & Hw & Hrep & Hx & _).
  rewrite Hw in Hm. injection Hm as <-. assert (Hids := ids_nodup ts).
  assert (Hall : forall id r, overlay w m0 !! id = Some r -> id ∈ Db.ids ts).
  { intros id r Hid. apply elem_of_ids. by destruct (overlay_rows _ _ _ Hrep (xr_ok _ _ _ Hx) id r Hid). }
  cut (NoDup l /\ forall id, id ∈ l <-> id ∈ Db.ids ts /\ exists r, overlay w m0 !! id = Some r /\ selects db ts filter r).
  { intros [? Hiff]. split; [done|]. intros id. rewrite Hiff. naive_solver. }
  clear Hall. revert l Hl. induction Hids as [|id ids Hid Hnd IH]; intros l Hl; cbn [Dml.matching_loop] in Hl.
  { injection Hl as <-. split; [constructor|]. intros ?. rewrite elem_of_nil. naive_solver. }
  unfold active_txn in Hl. rewrite (fetch_row_view _ _ _ _ id Hrep Hx) in Hl. cbn [Db.obind] in Hl.
  destruct (overlay w m0 !! id) as [r|] eqn:Ho; [|].
  - apply obind_ok in Hl as (keep & Hk & (rest & Hrest & Hl)%obind_ok). injection Hl as <-.
    destruct (IH rest Hrest) as [Hn Hiff]. destruct keep.
    + split; [apply NoDup_cons; split; [rewrite Hiff; tauto|done]|]. intros x. rewrite !elem_of_cons, Hiff.
      split; [|naive_solver]. intros [->|?]; [|naive_solver]. split; [by left|]. exists r. by rewrite <- Hsel.
    + split; [done|]. intros x. rewrite elem_of_cons, Hiff. split; [naive_solver|].
      intros ([->|?] & r' & Hr' & Hs); [|naive_solver]. rewrite Ho in Hr'. injection Hr' as <-.
      apply Hsel in Hs. congruence.
  - destruct (IH l Hl) as [Hn Hiff]. split; [done|]. intros x. rewrite elem_of_cons, Hiff.
    split; [naive_solver|]. intros ([->|?] & r' & Hr' & Hs); [congruence|naive_solver].
Qed.

(** The loop over distinct live rows, with what it does to each ([E]) and what it
    keeps ([P]). *)
Lemma rows_statement (in_txn : bool) (f : Z -> Dml.D unit) (name : Ast.str)
    (Rel : Z -> row -> option row -> Database -> Prop) (E : row -> option row -> Prop) (P : rowmap -> Prop)
    (l : list Z) db C V ts m :
  (forall id : Z, row_step in_txn (f id) name id (Rel id)) ->
  db_rep db C V -> flag_ok db -> Db.in_transaction db = in_txn -> table name db = Some ts -> V !! name = Some m ->
  (in_txn = true -> is_Some (active_txn name db)) -> NoDup l -> (forall id, id ∈ l -> is_Some (m !! id)) ->
  (forall id r o db1, same_shape db db1 -> Rel id r o db1 -> E r o) ->
  (forall m1 id r o db1 C1, P m1 -> m1 !! id = Some r -> Rel id r o db1 -> same_shape db db1 ->
     db_rep db1 C1 (<[name := m1]> V) -> P (put id o m1)) ->
  P m ->
  let (o, db') := Dml.m_each f l db in
  exists m' done rest, l = done ++ rest /\
    db_rep db' (after in_txn C (<[name := m']> V)) (<[name := m']> V) /\ same_shape db db' /\ P m' /\
    (forall id, id ∉ done -> m' !! id = m !! id) /\
    (forall id, id ∈ done -> exists r, m !! id = Some r /\ E r (m' !! id)) /\
    (o = Ok tt -> rest = []).
Proof.
  intros Hf Hr Hfl Hi Ht Hm Hx Hnd Hlive HE HP H0.
  set (Inv := fun rest db1 (V1 : mapdb) => exists m1 done, V1 = <[name := m1]> V /\ l = done ++ rest /\
    same_shape db db1 /\ P m1 /\ (forall id, id ∉ done -> m1 !! id = m !! id) /\
    (forall id, id ∈ done -> exists r, m !! id = Some r /\ E r (m1 !! id))).
  assert (Hstep : forall (id : Z) rest db1 C1 V1 ts1 m1, Inv (id :: rest) db1 V1 -> db_rep db1 C1 V1 ->
    table name db1 = Some ts1 -> V1 !! name = Some m1 -> (m1 !! id = None -> Inv rest db1 V1) /\
    (forall r r' db2, m1 !! id = Some r -> Rel id r r' db1 -> same_shape db1 db2 ->
       Inv rest db2 (<[name := put id r' m1]> V1))).
  { intros id rest db1 C1 V1 ts1 m1 (m1' & done & -> & Hl & Hs & HP1 & Hout & Hin) Hr1 Ht1 Hm1.
    rewrite lookup_insert_eq in Hm1. injection Hm1 as ->.
    assert (Hid : id ∉ done).
    { intros Hid. rewrite Hl in Hnd. apply NoDup_app in Hnd as (_ & Hd & _). apply (Hd id Hid). left. }
    assert (Hmid := Hout id Hid). split.
    { intros Hn. destruct (Hlive id); [rewrite Hl; apply elem_of_app; right; left|congruence]. }
    intros r r' db2 Hr' HR Hs2. exists (put id r' m1), (done ++ [id]). split_and!.
    - by rewrite insert_insert_eq.
    - by rewrite <- app_assoc.
    - by etransitivity.
    - by eapply HP.
    - intros x Hx'. rewrite elem_of_app, list_elem_of_singleton in Hx'. unfold put.
      rewrite lookup_partial_alter_ne by naive_solver. apply Hout. naive_solver.
    - intros x Hx'. rewrite elem_of_app, list_elem_of_singleton in Hx'. unfold put.
      destruct (decide (x = id)) as [->|Hxi].
      + exists r. rewrite lookup_partial_alter_eq. split; [congruence|by eapply HE].
      + rewrite lookup_partial_alter_ne by done. apply Hin. naive_solver. }
  assert (HI0 : Inv l db V).
  { exists m, []. split_and!; try done; [by rewrite insert_id|by intros ? ?%elem_of_nil]. }
  assert (Hloop := rows_loop in_txn f name Rel Inv l Hf Hstep db C V ts m Hr Hfl Hi Ht Hm Hx HI0).
  destruct (Dml.m_each f l db) as [o db']. destruct Hloop as (V' & rest & Hr' & Hs & HI & Ho).
  destruct HI as (m1 & done & -> & Hl & _ & HP1 & Hout & Hin). exists m1, done, rest. done.
Qed.

(** ** UPDATE and DELETE as a whole *)

Definition run_rows (name : Ast.str) (filter : option Ast.Expr) (step : bool -> Z -> Dml.D unit) : Dml.D Z :=
  db ← m_get;
  matching ← Dml.of_r (Dml.matching_row_ids fuel gpu db name filter);
  Dml.m_when (Db.in_transaction db) (Dml.ensure_txn name);;
  Dml.m_each (step (Db.in_transaction db)) matching;;
  mret (Z.of_nat (length matching)).

Lemma run_update_rows stmt :
  Dml.run_update fuel gpu stmt = run_rows (Ast.u_table stmt) (Ast.u_filter stmt) (Dml.update_row fuel gpu stmt).
Proof. reflexivity. Qed.

Lemma run_delete_rows stmt :
  Dml.run_delete fuel gpu stmt = run_rows (Ast.d_table stmt) (Ast.d_filter stmt) (Dml.delete_row (Ast.d_table stmt)).
Proof. reflexivity. Qed.

(** The rows at [ids] were selected and changed by [E], the others are as before. *)
Definition rewrote (db : Database) (ts : TableStorage) (filter : option Ast.Expr) (E : row -> option row -> Prop)
    (m m' : rowmap) (ids : list Z) : Prop :=
  (forall id, id ∈ ids -> exists r, m !! id = Some r /\ selects db ts filter r /\ E r (m' !! id)) /\
  (forall id, id ∉ ids -> m' !! id = m !! id).

(** Where a run over the rows [m] of a table ends: the rows are rewritten by [E]
    within [P]; when it succeeds every selected row is. *)
Definition rows_outcome (E : row -> option row -> Prop) (P : rowmap -> Prop) (db : Database) (C V : mapdb)
    (name : Ast.str) (ts : TableStorage) (filter : option Ast.Expr) (m : rowmap) (o : Db.R Z) (db' : Database) : Prop :=
  exists m' ids,
    db_rep db' (after (Db.in_transaction db) C (<[name := m']> V)) (<[name := m']> V) /\ same_shape db db' /\ P m' /\
    rewrote db ts filter E m m' ids /\
    (forall n, o = Ok n -> n = Z.of_nat (length ids) /\ NoDup ids /\
       forall id r, m !! id = Some r -> selects db ts filter r -> id ∈ ids).

Lemma rows_stop E (P : rowmap -> Prop) db C V name ts filter m (o : Db.R Z) : db_rep db C V -> flag_ok db ->
  V !! name = Some m -> P m -> (forall n, o <> Ok n) -> rows_outcome E P db C V name ts filter m o db.
Proof.
  intros Hr Hfl Hm HP Ho. exists m, []. rewrite insert_id by done. rewrite (after_id _ _ _ _ Hr Hfl eq_refl).
  split_and!; try done; [by split; [intros ? ?%elem_of_nil|]|]. intros n Hn. by destruct (Ho n).
Qed.

Lemma run_rows_spec (name : Ast.str) filter (step : bool -> Z -> Dml.D unit)
    (Rel : Z -> row -> option row -> Database -> Prop) (E : row -> option row -> Prop) (P : rowmap -> Prop) db C V ts m :
  (forall in_txn (id : Z), row_step in_txn (step in_txn id) name id (Rel id)) ->
  (forall (id : Z) r o db1, same_shape db db1 -> Rel id r o db1 -> E r o) ->
  (forall m1 id r o db1 C1, P m1 -> m1 !! id = Some r -> Rel id r o db1 -> same_shape db db1 ->
     db_rep db1 C1 (<[name := m1]> V) -> P (put id o m1)) ->
  db_rep db C V -> flag_ok db -> table name db = Some ts -> V !! name = Some m -> P m ->
  let (o, db') := run_rows name filter step db in rows_outcome E P db C V name ts filter m o db'.
Proof.
  intros Hstep HE HP Hr Hfl Ht Hm H0. unfold run_rows. rewrite get_bind, of_r_bind.
  destruct (Dml.matching_row_ids fuel gpu db name filter) as [l|e|] eqn:Hl; [|by apply rows_stop..].
  destruct (matching_rows _ _ _ _ _ _ _ _ Hr Ht Hm Hl) as [Hnd Hsel].
  destruct (begin_table db C V name Hr) as (db1 & E1 & Hr1 & Hs1 & Hx1). rewrite (bind_ok _ _ _ _ _ E1).
  destruct (same_shape_table _ _ _ _ Hs1 Ht) as (ts1 & Ht1 & _).
  assert (Hlive : forall id, id ∈ l -> is_Some (m !! id)) by (intros id (r & -> & _)%Hsel; done).
  assert (Hloop := rows_statement (Db.in_transaction db) (step (Db.in_transaction db)) name Rel E P l db1 C V ts1 m
    (Hstep _) Hr1 (ss_auto _ _ Hs1 Hfl) (ss_flag _ _ Hs1) Ht1 Hm (fun e => Hx1 (mk_is_Some _ _ Ht) e) Hnd Hlive).
  specialize (Hloop (fun id r o db2 Hs2 => HE id r o db2 (transitivity Hs1 Hs2))).
  specialize (Hloop (fun m1 id r o db2 C2 HP1 Hid HR Hs2 => HP m1 id r o db2 C2 HP1 Hid HR (transitivity Hs1 Hs2)) H0).
  unfold mbind, M_bind. destruct (Dml.m_each (step (Db.in_transaction db)) l db1) as [o db'].
  destruct Hloop as (m' & done & rest & Hld & Hr' & Hs' & HPm & Hout & Hin & Ho).
  assert (Hrw : rewrote db ts filter E m m' done).
  { split; [|done]. intros id Hid. destruct (Hin id Hid) as (r & Hmr & HEr). exists r. split_and!; [done| |done].
    destruct (proj1 (Hsel id)) as (r2 & Hr2 & Hs2); [rewrite Hld; apply elem_of_app; by left|].
    rewrite Hmr in Hr2. by injection Hr2 as ->. }
  assert (Hs2 : same_shape db db') by by etransitivity.
  destruct o as [[]|e|]; exists m', done; (split_and!; [done..|]); intros n; [|done..].
  cbn. intros [= <-]. rewrite (Ho eq_refl), app_nil_r in Hld. subst l. split_and!; [done|done|].
  intros id r ? ?. apply Hsel. by exists r.
Qed.

(** ** INSERT *)

(** Id counters may grow by up to [n]; the rest of the shape stays. *)
Record grown (n : nat) (db db' : Database) : Prop := {
  gr_schema : forall name, Db.schema <$> table name db' = Db.schema <$> table name db;
  gr_next : forall name ts ts', table name db = Some ts -> table name db' = Some ts' ->
    (Db.next_row_id ts <= Db.next_row_id ts' <= Db.next_row_id ts + Z.of_nat n)%Z;
  gr_flag : Db.in_transaction db' = Db.in_transaction db;
  gr_auto : flag_ok db -> flag_ok db';
  gr_txns : forall name, is_Some (active_txn name db) -> is_Some (active_txn name db');
  gr_views : Db.views db' = Db.views db;
  gr_params : Db.session_parameters db' = Db.session_parameters db;
  gr_sessions : Db.session_txns db' = Db.session_txns db;
}.

Lemma grown_table n db db' name ts : grown n db db' -> table name db = Some ts ->
  exists ts', table name db' = Some ts' /\ Db.schema ts' = Db.schema ts /\
    (Db.next_row_id ts <= Db.next_row_id ts' <= Db.next_row_id ts + Z.of_nat n)%Z.
Proof.
  intros Hg E. assert (Hh := gr_schema _ _ _ Hg name). rewrite E in Hh.
  destruct (table name db') as [ts'|] eqn:E'; [|done]. exists ts'. cbn in Hh. split_and!; [done|by simplify_eq|..].
  all: by destruct (gr_next _ _ _ Hg name ts ts' E E').
Qed.

Lemma grown_trans n k a b c : grown n a b -> grown k b c -> grown (n + k) a c.
Proof.
  intros Hab Hbc.
  assert (Hn : forall name ts ts', table name a = Some ts -> table name c = Some ts' ->
    (Db.next_row_id ts <= Db.next_row_id ts' <= Db.next_row_id ts + Z.of_nat (n + k))%Z).
  { intros name ts ts' Ha Hc. destruct (grown_table _ _ _ _ _ Hab Ha) as (tb & Hb & _ & ?).
    assert (H2 := gr_next _ _ _ Hbc name _ _ Hb Hc). lia. }
  destruct Hab, Hbc. split; intros; first [by etransitivity; eauto|eauto].
Qed.

Lemma same_shape_grown n db db' : same_shape db db' -> grown n db db'.
Proof.
  intros Hs. split; try apply Hs.
  - intros name. assert (Hh := ss_heads _ _ Hs name). unfold head in Hh.
    destruct (table name db'), (table name db); cbn in *; congruence.
  - intros name ts ts' Ht Ht'. destruct (same_shape_table _ _ _ _ Hs Ht) as (t & Ht2 & _ & Hn).
    rewrite Ht' in Ht2. injection Ht2 as <-. lia.
Qed.

Lemma take_id_view db C V name ts e : db_rep db C V -> table name db = Some ts ->
  (Db.next_row_id ts + 1 < 2 ^ 64)%Z ->
  exists db1 ts1, on_table name e Dml.take_id db = (Ok (Db.next_row_id ts), db1) /\ db_rep db1 C V /\
    grown 1 db db1 /\ table name db1 = Some ts1 /\ Db.schema ts1 = Db.schema ts /\
    Db.next_row_id ts1 = (Db.next_row_id ts + 1)%Z.
Proof.
  intros Hr Ht Hn. destruct (view_table _ _ _ _ _ Hr Ht) as (m & w & Hm & Hw & Hrep & Hx & H0).
  destruct (take_id_ok ts m Hrep H0 Hn) as (ts1 & E & Hrep1 & Hs & _ & Hn1).
  rewrite (on_table_eq _ _ _ _ _ _ _ Ht E). eexists _, ts1. split; [done|].
  assert (Htab : forall other, find_named other (set_named name ts1 (Db.tables db)) =
    if decide (other = name) then Some ts1 else table other db) by (intros; by eapply find_set_named).
  split_and!; [| |by unfold table; cbn; rewrite Htab, decide_True|done|done].
  - unfold db_rep. cbn. rewrite <- (insert_id C name m Hm), <- (insert_id V name _ Hw).
    eapply view_rep_table; [exact Hr|exact Ht|done| |lia]. eapply txn_rep_grow; [done|done|lia].
  - split; try done; unfold table in *; cbn.
    + intros other. rewrite Htab. case_decide; [|done]. subst. rewrite Ht. cbn. by rewrite Hs.
    + intros other t t' Ho. rewrite Htab. case_decide; intros Ho'; subst; simplify_eq; lia.
Qed.

(** The row that is stored: its id unless the statement gave one. *)
Definition stamped (explicit_id : bool) (id : Z) (r : row) : row :=
  if explicit_id then r else <[0 := Int (wrap_i64 id)]> r.

Lemma wrap_i64_storable z : storable (Int (wrap_i64 z)).
Proof. unfold storable, wrap_i64. assert (Hb := Z.mod_pos_bound (z + 2 ^ 63) (2 ^ 64)). lia. Qed.

Lemma stamped_ok s explicit id r : schema_ok s -> row_ok s r -> row_ok s (stamped explicit id r).
Proof.
  intros Hs Hr. destruct explicit; [done|]. apply row_ok_insert; [done|apply wrap_i64_storable|].
  intros ty. rewrite (so_id _ Hs). by intros [= <-].
Qed.

Lemma insert_row_view db C V name ts m explicit r : db_rep db C V -> flag_ok db ->
  (Db.in_transaction db = true -> is_Some (active_txn name db)) ->
  table name db = Some ts -> V !! name = Some m -> (Db.next_row_id ts + 1 < 2 ^ 64)%Z -> row_ok (Db.schema ts) r ->
  exists db' ts', Dml.insert_row name (Db.in_transaction db) explicit r db = (Ok tt, db') /\
    (let V' := <[name := <[Db.next_row_id ts := stamped explicit (Db.next_row_id ts) r]> m]> V in
     db_rep db' (after (Db.in_transaction db) C V') V') /\ grown 1 db db' /\ table name db' = Some ts' /\
    Db.schema ts' = Db.schema ts /\ Db.next_row_id ts' = (Db.next_row_id ts + 1)%Z.
Proof.
  intros Hr Hfl Hx Ht Hm Hn Hro. unfold Dml.insert_row.
  destruct (view_table _ _ _ _ _ Hr Ht) as (m0 & w & _ & _ & Hrep & _ & H0).
  destruct (take_id_view db C V name ts (Db.db_err (Codec.UnknownTable name)) Hr Ht Hn)
    as (db1 & ts1 & E & Hr1 & Hg1 & Ht1 & Hs1 & Hn1).
  rewrite (bind_ok _ _ _ _ _ E). set (id := Db.next_row_id ts) in *. set (r' := stamped explicit id r).
  assert (Hro' : row_ok (Db.schema ts1) r') by (rewrite Hs1; apply stamped_ok; [by apply (tr_schema _ _ Hrep)|done]).
  assert (Hrow : (if explicit then Ok r else Dml.set_at 0 (Int (wrap_i64 id)) r) = Ok r').
  { unfold r', stamped, Dml.set_at. destruct explicit; [done|]. rewrite decide_True; [done|].
    destruct Hro as [-> _]. apply (tr_schema _ _ Hrep). }
  rewrite of_r_bind, Hrow.
  assert (Hw : exists db', (if Db.in_transaction db then Dml.txn_write name id (Codec.mvcc_wrap_row r')
    else on_table name (Db.db_err (Codec.UnknownTable name)) (Dml.store_row id r';; Db.maybe_build_vector_indexes)) db1
    = (Ok tt, db') /\ db_rep db' (after (Db.in_transaction db) C (<[name := <[id := r']> m]> V)) (<[name := <[id := r']> m]> V)
    /\ same_shape db1 db').
  { rewrite <- (gr_flag _ _ _ Hg1) in *. assert (Hfl1 := gr_auto _ _ _ Hg1 Hfl).
    destruct (Db.in_transaction db1) eqn:Hi.
    - apply (txn_write_ok db1 C V name ts1 m id (Some r')); try done; [by apply (gr_txns _ _ _ Hg1), Hx|].
      split; [lia|]. by intros ? [= <-].
    - eapply table_write_ok; [done|by apply Hfl1|done|done|]. intros Hrep1.
      destruct (store_row_ok ts1 m id r' Hrep1 ltac:(lia) Hro') as (ts2 & E2 & Hrep2 & Hs2 & Hn2 & _).
      destruct (maybe_build_ok ts2 _ Hrep2) as (v & E3 & Hrep3).
      rewrite (bind_ok _ _ _ _ _ E2), E3. eexists. split; [done|]. split; [done|]. unfold head. cbn. by rewrite Hs2, Hn2. }
  destruct Hw as (db' & Ew & Hr' & Hs). rewrite Ew. destruct (same_shape_table _ _ _ _ Hs Ht1) as (ts' & Ht' & Hs' & Hn').
  exists db', ts'. split_and!; [done|done| |done|congruence|lia]. exact (grown_trans 1 0 _ _ _ Hg1 (same_shape_grown 0 _ _ Hs)).
Qed.

(** The rows of an INSERT, at consecutive ids. *)
Fixpoint insert_all (explicit : bool) (id : Z) (rows : list row) (m : rowmap) : rowmap :=
  match rows with
  | [] => m
  | r :: rows' => insert_all explicit (id + 1) rows' (<[id := stamped explicit id r]> m)
  end.

Lemma insert_rows_view name explicit rows : forall db C V ts m, db_rep db C V -> flag_ok db ->
  (Db.in_transaction db = true -> is_Some (active_txn name db)) ->
  table name db = Some ts -> V !! name = Some m ->
  (Db.next_row_id ts + Z.of_nat (length rows) < 2 ^ 64)%Z -> Forall (row_ok (Db.schema ts)) rows ->
  exists db', Dml.m_each (Dml.insert_row name (Db.in_transaction db) explicit) rows db = (Ok tt, db') /\
    (let V' := <[name := insert_all explicit (Db.next_row_id ts) rows m]> V in
     db_rep db' (after (Db.in_transaction db) C V') V') /\ grown (length rows) db db'.
Proof.
  induction rows as [|r rows IH]; intros db C V ts m Hr Hfl Hx Ht Hm Hn Hro.
  { exists db. cbn. rewrite insert_id by done. rewrite (after_id _ _ _ _ Hr Hfl eq_refl).
    split_and!; [done|done|by apply same_shape_grown]. }
  apply Forall_cons in Hro as [Hr1 Hro]. cbn [length] in Hn.
  destruct (insert_row_view db C V name ts m explicit r Hr Hfl Hx Ht Hm ltac:(lia) Hr1)
    as (db1 & ts1 & E & Hr' & Hg & Ht1 & Hs1 & Hn1).
  cbn [Dml.m_each]. rewrite (bind_ok _ _ _ _ _ E).
  destruct (IH db1 _ _ ts1 (<[Db.next_row_id ts := stamped explicit (Db.next_row_id ts) r]> m) Hr'
    (gr_auto _ _ _ Hg Hfl)) as (db' & E' & Hr2 & Hg2); try done.
  - rewrite (gr_flag _ _ _ Hg). intros Hi. by apply (gr_txns _ _ _ Hg), Hx.
  - apply lookup_insert_eq.
  - rewrite Hn1. lia.
  - by rewrite Hs1.
  - rewrite (gr_flag _ _ _ Hg) in E', Hr2. exists db'. split_and!; [done| |exact (grown_trans 1 _ _ _ _ Hg Hg2)].
    cbn. rewrite insert_insert_eq, Hn1 in Hr2. by destruct (Db.in_transaction db).
Qed.

(** *** The candidate rows *)

Definition insert_ok (stmt : Ast.InsertStatement) : Prop := Forall (Forall literal_ok) (Ast.i_values stmt).

Lemma build_row_ok s cols lits r : schema_ok s -> Forall literal_ok lits -> Dml.build_row s cols lits = Ok r ->
  row_ok s r.
Proof.
  intros Hs Hl. apply (fold_inv (row_ok s)).
  { split_and!; [apply length_replicate|by apply Forall_replicate|]. apply Forall2_replicate_l.
    - unfold col_types. rewrite length_map. apply Hs.
    - apply Forall_forall. intros t _. by destruct t. }
  intros r1 [slot l] r2 Hin Hr1 (v & Hv%of_db_ok & [-> _]%set_at_ok)%obind_ok.
  apply (row_ok_literal s r1 slot l); [done| |done]. rewrite Forall_forall in Hl. apply Hl.
  apply list_elem_of_lookup in Hin as [k Hk]. apply lookup_zip_Some in Hk as [_ Hk]. by eapply list_elem_of_lookup_2.
Qed.

Lemma collect_forall {A B} (f : A -> Db.R B) (P : A -> Prop) (Q : B -> Prop) l l' :
  (forall x y, P x -> f x = Ok y -> Q y) -> Forall P l -> Db.collect f l = Ok l' -> Forall Q l'.
Proof.
  intros Hf Hl. revert l'. induction Hl as [|x l Hx _ IH]; intros l'; [intros [= <-]; constructor|].
  cbn [Db.collect]. intros (y & Hy & (ys & Hys & Hl)%obind_ok)%obind_ok. injection Hl as <-.
  constructor; [by eapply Hf|by apply IH].
Qed.

(** *** What the checks of a batch mean *)

Record admitted (s : Schema) (m : rowmap) (rows : list row) : Prop := {
  ad_not_null : Forall (row_not_null s) rows;
  ad_fresh : Forall (fresh_key s m None) rows;
  ad_batch : forall group i j ri rj ki kj, group ∈ Dml.unique_groups s -> i <> j ->
    rows !! i = Some ri -> rows !! j = Some rj -> Dml.key_of s group ri = Ok ki -> Dml.key_of s group rj = Ok kj ->
    Dml.has_null ki = false -> Value.row_eqb kj ki = false;
}.

Lemma check_batch_rows_ok s group key i rows : forall j0, Dml.check_batch_rows s group key i j0 rows = Ok tt ->
  forall j rj kj, rows !! j = Some rj -> j0 + j <> i -> Dml.key_of s group rj = Ok kj -> Value.row_eqb kj key = false.
Proof.
  induction rows as [|r rows IH]; [done|]. intros j0. cbn [Dml.check_batch_rows]. intros Hc j rj kj Hj Hne Hk.
  destruct j as [|j]; cbn in Hj.
  - injection Hj as ->. destruct (Nat.eqb_spec j0 i); [lia|].
    apply obind_ok in Hc as (k & Hk' & Hc). rewrite Hk in Hk'. injection Hk' as <-. by destruct (Value.row_eqb kj key).
  - assert (Hrest : Dml.check_batch_rows s group key i (S j0) rows = Ok tt).
    { destruct (j0 =? i); [done|]. apply obind_ok in Hc as (k & _ & Hc). by destruct (Value.row_eqb k key). }
    eapply (IH (S j0) Hrest j); [done|lia|done].
Qed.

Lemma check_batch_ok s rows i r groups : Dml.check_batch s rows i r groups = Ok tt ->
  forall group key, group ∈ groups -> Dml.key_of s group r = Ok key -> Dml.has_null key = false ->
  forall j rj kj, rows !! j = Some rj -> j <> i -> Dml.key_of s group rj = Ok kj -> Value.row_eqb kj key = false.
Proof.
  induction groups as [|g groups IH]; [by intros _ ? ? ?%elem_of_nil|]. cbn [Dml.check_batch].
  intros (k0 & Hk0 & Hc)%obind_ok group key [->|Hin]%elem_of_cons Hk Hn j rj kj Hj Hne Hkj.
  - rewrite Hk in Hk0. injection Hk0 as <-. rewrite Hn in Hc. apply obind_ok in Hc as ([] & Hc & _).
    by eapply (check_batch_rows_ok s g key i rows 0 Hc j).
  - eapply IH; try done. destruct (Dml.has_null k0); [done|]. by apply obind_ok in Hc as ([] & _ & Hc).
Qed.

Lemma check_rows_ok db name ts rows l : forall i0, Dml.check_rows fuel gpu db name ts rows i0 l = Ok tt ->
  forall i r, l !! i = Some r -> Dml.enforce_constraints fuel gpu db name ts r None = Ok tt /\
  Dml.check_batch (Db.schema ts) rows (i0 + i) r (Dml.unique_groups (Db.schema ts)) = Ok tt.
Proof.
  induction l as [|r0 l IH]; [done|]. intros i0. cbn [Dml.check_rows].
  intros ([] & He & ([] & Hb & Hc)%obind_ok)%obind_ok i r Hi. destruct i as [|i]; cbn in Hi.
  - injection Hi as ->. by rewrite Nat.add_0_r.
  - rewrite Nat.add_succ_r. by apply (IH (S i0) Hc i r).
Qed.

Lemma check_rows_admitted db C V name ts m rows : db_rep db C V -> table name db = Some ts -> V !! name = Some m ->
  Dml.check_rows fuel gpu db name ts rows 0 rows = Ok tt -> admitted (Db.schema ts) m rows.
Proof.
  intros Hr Ht Hm Hc. assert (Hall := check_rows_ok _ _ _ _ _ _ Hc).
  assert (Hone : Forall (fun r => row_not_null (Db.schema ts) r /\ fresh_key (Db.schema ts) m None r) rows).
  { apply Forall_lookup. intros i r Hi. destruct (Hall i r Hi) as [He _]. by eapply enforced. }
  split; [by eapply Forall_impl; [exact Hone|]; intros ? []..|].
  intros group i j ri rj ki kj Hg Hij Hi Hj Hki Hkj Hn. destruct (Hall i ri Hi) as [_ Hb].
  eapply check_batch_ok; [exact Hb|done|done|done|exact Hj|lia|done].
Qed.

(** ** Referential integrity *)

(** The keys of a row's foreign keys occur in the referenced tables. *)
Definition refers (db : Database) (V : mapdb) (s : Schema) (r : row) : Prop :=
  forall fk key, fk ∈ Codec.foreign_keys s -> own_columns s (Codec.fk_columns fk) ->
  Dml.key_of s (Codec.fk_columns fk) r = Ok key -> Dml.has_null key = false ->
  exists s' m' id' r' key', Db.table_schema (Codec.ref_table fk) db = Some s' /\ V !! Codec.ref_table fk = Some m' /\
    m' !! id' = Some r' /\ Dml.key_of s' (Codec.ref_columns fk) r' = Ok key' /\ Value.row_eqb key' key = true.

Definition references (db : Database) (V : mapdb) : Prop :=
  forall name s m id r, Db.table_schema name db = Some s -> V !! name = Some m -> m !! id = Some r -> refers db V s r.

Lemma has_key_ok s cols key rows : Dml.has_key s cols key rows = Ok true ->
  exists id r k, (id, r) ∈ rows /\ Dml.key_of s cols r = Ok k /\ Value.row_eqb k key = true.
Proof.
  induction rows as [|[id r] rows IH]; [done|]. cbn [Dml.has_key]. intros (k & Hk & Hc)%obind_ok.
  destruct (Value.row_eqb k key) eqn:He.
  - exists id, r, k. split; [by left|done].
  - destruct (IH Hc) as (id' & r' & k' & ? & ?). exists id', r', k'. split; [by right|done].
Qed.

Lemma table_view_lookup db C V name ts : db_rep db C V -> table name db = Some ts -> exists m, V !! name = Some m.
Proof. intros Hr Ht. destruct (view_table _ _ _ _ _ Hr Ht) as (m & w & _ & Hw & _). by exists (overlay w m). Qed.

Lemma check_foreign_ok db C V ts r fks : db_rep db C V -> Dml.check_foreign db ts r fks = Ok tt ->
  forall fk key, fk ∈ fks -> Dml.key_of (Db.schema ts) (Codec.fk_columns fk) r = Ok key -> Dml.has_null key = false ->
  exists s' m' id' r' key', Db.table_schema (Codec.ref_table fk) db = Some s' /\ V !! Codec.ref_table fk = Some m' /\
    m' !! id' = Some r' /\ Dml.key_of s' (Codec.ref_columns fk) r' = Ok key' /\ Value.row_eqb key' key = true.
Proof.
  intros Hr. induction fks as [|f fks IH]; [by intros _ ? ? ?%elem_of_nil|]. cbn [Dml.check_foreign].
  intros (k0 & Hk0 & Hc)%obind_ok fk key [->|Hin]%elem_of_cons Hk Hn.
  - rewrite Hk in Hk0. injection Hk0 as <-. rewrite Hn in Hc.
    destruct (table (Codec.ref_table f) db) as [ref_ts|] eqn:Ht; [|done]. cbn [Db.ok_or Db.obind] in Hc.
    destruct (table_view_lookup _ _ _ _ _ Hr Ht) as [m Hm]. rewrite (all_rows_view _ _ _ _ _ _ _ Hr Ht Hm) in Hc.
    cbn [Db.obind] in Hc. apply obind_ok in Hc as (found & Hf & Hc). destruct found; [|done].
    apply has_key_ok in Hf as (id & r' & k & [_ Hl]%elem_of_live & Hk' & He).
    exists (Db.schema ref_ts), m, id, r', k. split_and!; try done. unfold Db.table_schema. by rewrite Ht.
  - apply IH; [|done..]. destruct (Dml.has_null k0); [done|].
    apply obind_ok in Hc as (ref_ts & _ & (rows & _ & (found & _ & Hc)%obind_ok)%obind_ok). by destruct found.
Qed.

Lemma enforced_refers db C V name ts r exclude : db_rep db C V ->
  Dml.enforce_constraints fuel gpu db name ts r exclude = Ok tt -> refers db V (Db.schema ts) r.
Proof. intros Hr (_ & _ & _ & Hf)%enforce_ok fk key Hfk _. by eapply check_foreign_ok. Qed.

Lemma refers_schemas db db' V s r : (forall name, Db.table_schema name db' = Db.table_schema name db) ->
  refers db V s r -> refers db' V s r.
Proof.
  intros Hs HR fk key Hfk Ho Hk Hn. destruct (HR fk key Hfk Ho Hk Hn) as (s' & ? & ? & ? & ? & ? & ?).
  exists s'. rewrite Hs. eauto 10.
Qed.

Lemma refers_grow (db : Database) (V V' : mapdb) (s : Schema) (r : row) :
  (forall (name : Ast.str) (m : rowmap), V !! name = Some m -> exists m', V' !! name = Some m' /\ m ⊆ m') -> refers db V s r -> refers db V' s r.
Proof.
  intros HV HR fk key Hfk Ho Hk Hn. destruct (HR fk key Hfk Ho Hk Hn) as (s' & m & id & r' & key' & Hs & Hm & Hid & ?).
  destruct (HV _ _ Hm) as (m' & Hm' & Hsub). exists s', m', id, r', key'. split; [done|]. split; [done|].
  split; [by eapply lookup_weaken|done].
Qed.

(** ** Keys without the implicit id do not depend on it *)

Lemma collect_ext {A B} (f g : A -> Db.R B) l : (forall x, x ∈ l -> f x = g x) -> Db.collect f l = Db.collect g l.
Proof.
  induction l as [|x l IH]; intros Hf; [done|]. cbn [Db.collect]. rewrite (Hf x) by by left.
  rewrite IH; [done|]. intros y Hy. apply Hf. by right.
Qed.

Lemma key_of_stamped s group explicit id r : own_columns s group ->
  Dml.key_of s group (stamped explicit id r) = Dml.key_of s group r.
Proof.
  intros Ho. unfold stamped. destruct explicit; [done|]. apply collect_ext. intros c Hc.
  assert (Hc0 := Ho c Hc). destruct (Codec.index_of s c) as [[|i]|]; [done| |done]. cbn. unfold Db.at_.
  by rewrite list_lookup_insert_ne.
Qed.

Lemma stamped_not_null s explicit id r : row_not_null s r -> row_not_null s (stamped explicit id r).
Proof.
  intros Hn col Hc. destruct (Hn col Hc) as (i & v & Hi & Hv & Hnull). unfold stamped. destruct explicit; [by exists i, v|].
  destruct i as [|i].
  - exists 0, (Int (wrap_i64 id)). split_and!; [done| |done]. apply list_lookup_insert_eq.
    by apply lookup_lt_Some in Hv.
  - exists (S i), v. split_and!; [done| |done]. by rewrite list_lookup_insert_ne.
Qed.

(** ** The rows of an INSERT in the table *)

Lemma insert_all_lookup explicit rows : forall next m id,
  insert_all explicit next rows m !! id =
  if decide (next <= id < next + Z.of_nat (length rows))%Z
  then stamped explicit id <$> rows !! Z.to_nat (id - next) else m !! id.
Proof.
  induction rows as [|r rows IH]; intros next m id; cbn [insert_all length].
  { rewrite decide_False by lia. done. }
  rewrite IH. destruct (decide (id = next)) as [->|Hne].
  - rewrite decide_False, decide_True by lia. by rewrite lookup_insert_eq, Z.sub_diag.
  - rewrite lookup_insert_ne by done. destruct (decide (next <= id < next + Z.of_nat (S (length rows)))%Z).
    + rewrite decide_True by lia. by replace (Z.to_nat (id - next)) with (S (Z.to_nat (id - (next + 1)))) by lia.
    + by rewrite decide_False by lia.
Qed.

(** Each row of the result is an old one or one of the batch. *)
Lemma insert_all_cases explicit rows next (m : rowmap) id r :
  insert_all explicit next rows m !! id = Some r ->
  m !! id = Some r /\ ~ (next <= id < next + Z.of_nat (length rows))%Z \/
  exists i r0, rows !! i = Some r0 /\ r = stamped explicit id r0 /\ id = (next + Z.of_nat i)%Z.
Proof.
  rewrite insert_all_lookup. case_decide as Hd; [|by left]. rewrite fmap_Some. intros (r0 & Hr0 & ->). right.
  exists (Z.to_nat (id - next)), r0. split_and!; [done|done|lia].
Qed.

Lemma keeps_insert_all s m rows explicit next : keeps s m -> admitted s m rows ->
  keeps s (insert_all explicit next rows m).
Proof.
  intros Hk Ha. split.
  - intros id r [[Hid _]|(i & r0 & Hi & -> & _)]%insert_all_cases; [by eapply kp_not_null|].
    apply stamped_not_null. by apply (Forall_lookup_1 _ _ _ _ (ad_not_null _ _ _ Ha) Hi).
  - intros group Hg Ho i j ri rj ki kj Hij Hi Hj Hki Hkj Hn.
    apply insert_all_cases in Hi as [[Hi _]|(a & ra & Ha' & -> & Hia)];
      apply insert_all_cases in Hj as [[Hj _]|(b & rb & Hb & -> & Hjb)];
      rewrite ?key_of_stamped in Hki by done; rewrite ?key_of_stamped in Hkj by done.
    + exact (kp_unique _ _ Hk group Hg Ho i j ri rj ki kj Hij Hi Hj Hki Hkj Hn).
    + destruct (Dml.has_null kj) eqn:Hnj.
      { apply not_true_is_false. intros He. apply Value.row_eqb_null in He. unfold Dml.has_null in *. congruence. }
      by apply (Forall_lookup_1 _ _ _ _ (ad_fresh _ _ _ Ha) Hb group kj Hg Hkj Hnj i ri ki Hi).
    + rewrite Value.row_eqb_sym.
      by apply (Forall_lookup_1 _ _ _ _ (ad_fresh _ _ _ Ha) Ha' group ki Hg Hki Hn j rj kj Hj).
    + rewrite Value.row_eqb_sym. eapply (ad_batch _ _ _ Ha group a b ra rb); try done. intros ->. lia.
Qed.

(** ** INSERT as a whole *)

(** What the rows of a successful INSERT are. *)
Record inserted (db : Database) (V : mapdb) (ts : TableStorage) (m : rowmap) (stmt : Ast.InsertStatement)
    (cols : list nat) (rows : list row) : Prop := {
  in_cols : Dml.insert_columns (Db.schema ts) (Ast.i_columns stmt) = Ok cols;
  in_arity : Forall (fun values => length values = length cols) (Ast.i_values stmt);
  in_rows : Db.collect (Dml.build_row (Db.schema ts) cols) (Ast.i_values stmt) = Ok rows;
  in_admitted : admitted (Db.schema ts) m rows;
  in_refers : Forall (refers db V (Db.schema ts)) rows;
}.

Definition insert_outcome (db : Database) (C V : mapdb) (ts : TableStorage) (m : rowmap)
    (stmt : Ast.InsertStatement) (o : Db.R Z) (db' : Database) : Prop :=
  exists m', (let V' := <[Ast.i_table stmt := m']> V in db_rep db' (after (Db.in_transaction db) C V') V') /\
  grown (length (Ast.i_values stmt)) db db' /\
  match o with
  | Ok n => exists cols rows, inserted db V ts m stmt cols rows /\ n = Z.of_nat (length rows) /\
      m' = insert_all (bool_decide (0 ∈ cols)) (Db.next_row_id ts) rows m
  | _ => m' = m
  end.

Lemma insert_stop db C V ts m stmt (o : Db.R Z) db1 : db_rep db C V -> flag_ok db ->
  V !! Ast.i_table stmt = Some m -> db_rep db1 C V -> same_shape db db1 -> (forall n, o <> Ok n) ->
  insert_outcome db C V ts m stmt o db1.
Proof.
  intros Hr Hfl Hm Hr1 Hs Ho. exists m. cbv zeta. rewrite insert_id by done.
  rewrite (after_id _ _ _ _ Hr Hfl eq_refl). split_and!; [done|by apply same_shape_grown|].
  destruct o as [n| |]; [by destruct (Ho n)|done..].
Qed.

Lemma run_insert_spec stmt db C V ts m : insert_ok stmt -> db_rep db C V -> flag_ok db ->
  table (Ast.i_table stmt) db = Some ts -> V !! Ast.i_table stmt = Some m ->
  (Db.next_row_id ts + Z.of_nat (length (Ast.i_values stmt)) < 2 ^ 64)%Z ->
  let (o, db') := Dml.run_insert_stmt fuel gpu stmt db in insert_outcome db C V ts m stmt o db'.
Proof.
  intros Hok Hr Hfl Ht Hm Hn. unfold Dml.run_insert_stmt. rewrite get_bind.
  destruct (begin_table db C V (Ast.i_table stmt) Hr) as (db1 & E1 & Hr1 & Hs1 & Hx1). rewrite (bind_ok _ _ _ _ _ E1).
  rewrite get_bind, of_r_bind. destruct (same_shape_table _ _ _ _ Hs1 Ht) as (ts1 & Ht1 & Hsch & Hnx). rewrite Ht1.
  cbn [Db.ok_or]. rewrite of_r_bind, Hsch.
  destruct (Dml.insert_columns (Db.schema ts) (Ast.i_columns stmt)) as [cols|e|] eqn:Hcols; [|by eapply insert_stop..].
  destruct (forallb _ (Ast.i_values stmt)) eqn:Har; [|by eapply insert_stop].
  rewrite of_r_bind. destruct (Db.collect _ (Ast.i_values stmt)) as [rows|e|] eqn:Hrows; [|by eapply insert_stop..].
  rewrite of_r_bind.
  destruct (Dml.check_rows fuel gpu db1 (Ast.i_table stmt) ts1 rows 0 rows) as [[]|e|] eqn:Hc; [|by eapply insert_stop..].
  assert (Hro : Forall (row_ok (Db.schema ts)) rows).
  { eapply collect_forall; [|exact Hok|exact Hrows]. intros x y Hx Hy. eapply build_row_ok; [|done|done].
    by apply (view_schema _ _ _ _ _ Hr Ht). }
  assert (Hlen : length rows = length (Ast.i_values stmt)).
  { clear -Hrows. revert rows Hrows. induction (Ast.i_values stmt) as [|v vs IH]; intros rows; [by intros [= <-]|].
    cbn [Db.collect]. intros (y & _ & (ys & Hys & Hl)%obind_ok)%obind_ok. injection Hl as <-. cbn. by rewrite (IH ys). }
  assert (Hadm := check_rows_admitted _ _ _ _ _ _ _ Hr1 Ht1 Hm Hc). rewrite Hsch in Hadm.
  assert (Href : Forall (refers db V (Db.schema ts)) rows).
  { apply Forall_lookup. intros i r Hi. destruct (check_rows_ok _ _ _ _ _ _ Hc i r Hi) as [He _].
    rewrite <- Hsch. eapply refers_schemas; [|by eapply enforced_refers].
    intros name. symmetry. apply (gr_schema _ _ _ (same_shape_grown 0 _ _ Hs1)). }
  destruct (insert_rows_view (Ast.i_table stmt) (bool_decide (0 ∈ cols)) rows db1 C V ts1 m Hr1 (ss_auto _ _ Hs1 Hfl))
    as (db' & E & Hr' & Hg); [|done|done|by rewrite Hnx, Hlen|by rewrite Hsch|].
  { rewrite (ss_flag _ _ Hs1). intros Hi. by apply Hx1. }
  rewrite (bind_ok _ _ _ _ _ E). cbn. rewrite (ss_flag _ _ Hs1), Hnx in Hr'. eexists. split; [exact Hr'|].
  split; [rewrite Hlen in Hg; exact (grown_trans 0 _ _ _ _ (same_shape_grown 0 _ _ Hs1) Hg)|]. exists cols, rows. split; [|done]. split; try done.
  apply Forall_forall. intros v Hv. rewrite forallb_forall in Har. apply Nat.eqb_eq, Har. by apply list_elem_of_In.
Qed.

(** ** A deleted row is not referenced *)

Lemma check_unreferenced_ok s other cols key rows : Dml.check_unreferenced s other cols key rows = Ok tt ->
  forall id r k, (id, r) ∈ rows -> Dml.key_of s cols r = Ok k -> Value.row_eqb k key = false.
Proof.
  induction rows as [|[id0 r0] rows IH]; [by intros _ ? ? ? ?%elem_of_nil|]. cbn [Dml.check_unreferenced].
  intros (k0 & Hk0 & Hc)%obind_ok id r k [[= -> ->]|Hin]%elem_of_cons Hk.
  - rewrite Hk in Hk0. injection Hk0 as <-. by destruct (Value.row_eqb k key).
  - destruct (Value.row_eqb k0 key); [done|]. by eapply IH.
Qed.

(** The key is looked up in two passes. *)
Lemma key_of_two_passes (db : Database) name ts cols (r : row) : table name db = Some ts ->
  forall idx key, Db.collect (fun c => Db.obind (Db.expect (table name db))
    (fun ts => Db.expect (Codec.index_of (Db.schema ts) c))) cols = Ok idx ->
  Db.collect (Db.at_ r) idx = Ok key -> Dml.key_of (Db.schema ts) cols r = Ok key.
Proof.
  intros Ht. unfold Dml.key_of. rewrite Ht. cbn [Db.expect Db.obind].
  induction cols as [|c cols IH]; intros idx key; [by intros [= <-] [= <-]|]. cbn [Db.collect].
  intros (i & Hi & (is_ & His & Hidx)%obind_ok)%obind_ok. injection Hidx as <-. cbn [Db.collect].
  intros (v & Hv & (vs & Hvs & Hkey)%obind_ok)%obind_ok. injection Hkey as <-.
  rewrite Hi. cbn [Db.obind]. rewrite Hv. cbn [Db.obind]. by rewrite (IH is_ vs His Hvs).
Qed.

Lemma check_restrict_ok db C V name ts r other other_ts m fks : db_rep db C V -> table name db = Some ts ->
  table other db = Some other_ts -> V !! other = Some m ->
  Dml.check_restrict db name r other other_ts fks = Ok tt ->
  forall fk key, fk ∈ fks -> Codec.ref_table fk = name ->
  Dml.key_of (Db.schema ts) (Codec.ref_columns fk) r = Ok key -> Dml.has_null key = false ->
  forall id r' k, m !! id = Some r' -> Dml.key_of (Db.schema other_ts) (Codec.fk_columns fk) r' = Ok k ->
  Value.row_eqb k key = false.
Proof.
  intros Hr Ht Hto Hm. induction fks as [|f fks IH]; [by intros _ ? ? ?%elem_of_nil|]. cbn [Dml.check_restrict].
  intros Hc fk key Hin Hname Hk Hn id r' k Hid Hk'.
  assert (Hrest : f = fk \/ (fk ∈ fks /\ Dml.check_restrict db name r other other_ts fks = Ok tt)).
  { apply elem_of_cons in Hin as [->|Hin]; [by left|]. right. split; [done|]. destruct (negb _); [done|].
    apply obind_ok in Hc as (idx & _ & (key0 & _ & Hc)%obind_ok). destruct (Dml.has_null key0); [done|].
    by apply obind_ok in Hc as (rows & _ & ([] & _ & Hc)%obind_ok). }
  destruct Hrest as [->|[Hin' Hc']]; [|by eapply IH]. rewrite bool_decide_true in Hc by done. cbn [negb] in Hc.
  apply obind_ok in Hc as (idx & Hidx & (key0 & Hkey & Hc)%obind_ok).
  assert (Htwo := key_of_two_passes db name ts _ r Ht idx key0 Hidx Hkey). rewrite Hk in Htwo. injection Htwo as <-.
  rewrite Hn in Hc.
  rewrite (all_rows_view _ _ _ _ _ _ _ Hr Hto Hm) in Hc. cbn [Db.obind] in Hc. apply obind_ok in Hc as ([] & Hc & _).
  eapply check_unreferenced_ok; [exact Hc| |exact Hk']. by eapply scan_complete.
Qed.

Lemma fk_on_delete_ok db name r tabs : Dml.fk_on_delete db name r tabs = Ok tt ->
  forall other other_ts, (other, other_ts) ∈ tabs ->
  Dml.check_restrict db name r other other_ts (Codec.foreign_keys (Db.schema other_ts)) = Ok tt.
Proof.
  induction tabs as [|[o ots] tabs IH]; [by intros _ ? ? ?%elem_of_nil|]. cbn [Dml.fk_on_delete].
  intros ([] & Hc & Hrest)%obind_ok other other_ts [[= -> ->]|Hin]%elem_of_cons; [done|by apply IH].
Qed.

Lemma schema_table name db s : Db.table_schema name db = Some s -> exists ts, table name db = Some ts /\ s = Db.schema ts.
Proof. unfold Db.table_schema. rewrite fmap_Some. intros (ts & ? & ->). by exists ts. Qed.

Lemma delete_references db C V name m id r : db_rep db C V -> references db V -> V !! name = Some m ->
  m !! id = Some r -> Dml.enforce_fk_on_delete db name r = Ok tt -> references db (<[name := put id None m]> V).
Proof.
  change (put id None m) with (delete id m). intros Hr HR Hm Hid He name2 s2 m2 id2 r2 Hs2 Hm2 Hid2.
  assert (Hold : exists m2o, V !! name2 = Some m2o /\ m2o !! id2 = Some r2).
  { destruct (decide (name2 = name)) as [->|Hne].
    - rewrite lookup_insert_eq in Hm2. injection Hm2 as <-. apply lookup_delete_Some in Hid2 as [_ ?]. by exists m.
    - rewrite lookup_insert_ne in Hm2 by done. by exists m2. }
  destruct Hold as (m2o & Hm2o & Hid2o). intros fk key Hfk Ho Hk Hn.
  destruct (HR name2 s2 m2o id2 r2 Hs2 Hm2o Hid2o fk key Hfk Ho Hk Hn) as (s' & m' & id' & r' & key' & Hs' & Hm' & Hid' & Hk' & Heq).
  assert (Hkeep : ~ (Codec.ref_table fk = name /\ id' = id)).
  { intros [Hname ->]. rewrite Hname in *. assert (m' = m) as -> by congruence. assert (r' = r) as -> by congruence.
    apply schema_table in Hs' as (ts & Ht & ->). apply schema_table in Hs2 as (ts2 & Ht2 & ->).
    assert (Hc := fk_on_delete_ok _ _ _ _ He name2 ts2 (find_named_elem _ _ _ Ht2)).
    assert (Hn' : Dml.has_null key' = false).
    { apply Value.row_eqb_null in Heq. unfold Dml.has_null in *. congruence. }
    assert (Hno := check_restrict_ok db C V name ts r name2 ts2 m2o _ Hr Ht Ht2 Hm2o Hc fk key' Hfk Hname Hk' Hn'
      id2 r2 key Hid2o Hk). rewrite Value.row_eqb_sym in Heq. congruence. }
  destruct (decide (Codec.ref_table fk = name)) as [Hname|Hname].
  - exists s', (delete id m), id', r', key'. rewrite Hname, lookup_insert_eq in *. assert (m' = m) as -> by congruence.
    split_and!; try done. apply lookup_delete_Some. split; [|done]. intros ->. tauto.
  - exists s', m', id', r', key'. rewrite lookup_insert_ne by done. done.
Qed.

(** ** The statements together *)

Definition target (stmt : Ast.Statement) : Ast.str :=
  match stmt with
  | Ast.Insert i => Ast.i_table i
  | Ast.Update u => Ast.u_table u
  | Ast.Delete d => Ast.d_table d
  | _ => []
  end.

(** The literals of a DML statement are values of their Rust types. *)
Definition dml_ok (stmt : Ast.Statement) : Prop :=
  match stmt with
  | Ast.Insert i => insert_ok i
  | Ast.Update u => update_ok u
  | Ast.Delete _ => True
  | _ => False
  end.

(** The id counters leave room for [n] rows. *)
Definition new_rows (stmt : Ast.Statement) : nat :=
  match stmt with Ast.Insert i => length (Ast.i_values i) | _ => 0 end.

Definition ids_fit (n : nat) (db : Database) : Prop :=
  forall name ts, table name db = Some ts -> (Db.next_row_id ts + Z.of_nat n < 2 ^ 64)%Z.

Lemma ids_fit_grown n k db db' : grown n db db' -> ids_fit (n + k) db -> ids_fit k db'.
Proof.
  intros Hg Hf name ts' Ht'. assert (Hs := gr_schema _ _ _ Hg name). rewrite Ht' in Hs.
  destruct (table name db) as [ts|] eqn:Ht; [|done]. assert (Hn := gr_next _ _ _ Hg name ts ts' Ht Ht').
  assert (Hfit := Hf name ts Ht). lia.
Qed.

Lemma ids_fit_weaken n k db : k <= n -> ids_fit n db -> ids_fit k db.
Proof. intros Hk Hf name ts Ht. assert (H1 := Hf name ts Ht). lia. Qed.

Definition assigned (s : Schema) (u : Ast.UpdateStatement) (r : row) (o : option row) : Prop :=
  exists r', o = Some r' /\ Db.fold (Dml.assign s) r (Ast.u_assignments u) = Ok r'.

(** When a run over rows succeeds, it reports how many rows it selected and
    covers all of them. *)
Definition covers (db : Database) (ts : TableStorage) (filter : option Ast.Expr) (m : rowmap) (ids : list Z)
    (o : Db.R Value.ResultSet) : Prop :=
  forall rs, o = Ok rs -> rs = Engine.affected_rows (Z.of_nat (length ids)) /\ NoDup ids /\
    forall id r, m !! id = Some r -> selects db ts filter r -> id ∈ ids.

(** What a statement does to the rows of its table. *)
Definition dml_effect (db : Database) (V : mapdb) (ts : TableStorage) (m m' : rowmap) (stmt : Ast.Statement)
    (o : Db.R Value.ResultSet) : Prop :=
  match stmt with
  | Ast.Insert i =>
      match o with
      | Ok rs => exists cols rows, inserted db V ts m i cols rows /\
          rs = Engine.affected_rows (Z.of_nat (length rows)) /\
          m' = insert_all (bool_decide (0 ∈ cols)) (Db.next_row_id ts) rows m
      | _ => m' = m
      end
  | Ast.Update u => exists ids,
      rewrote db ts (Ast.u_filter u) (assigned (Db.schema ts) u) m m' ids /\ covers db ts (Ast.u_filter u) m ids o
  | Ast.Delete d => exists ids,
      rewrote db ts (Ast.d_filter d) (fun _ o => o = None) m m' ids /\ covers db ts (Ast.d_filter d) m ids o
  | _ => False
  end.

Lemma execute_bind {A B} (m : Dml.D A) (f : A -> B) db o db' : m db = (o, db') ->
  (x ← m; mret (f x)) db = (match o with Ok x => Ok (f x) | Err e => Err e | Panic => Panic end, db').
Proof. intros E. unfold mbind, M_bind. rewrite E. by destruct o. Qed.

Lemma update_effect u db C V ts m : update_ok u -> db_rep db C V -> flag_ok db ->
  table (Ast.u_table u) db = Some ts -> V !! Ast.u_table u = Some m ->
  let (o, db') := Dml.run_update fuel gpu u db in
  rows_outcome (assigned (Db.schema ts) u) (fun m1 => keeps (Db.schema ts) m -> keeps (Db.schema ts) m1)
    db C V (Ast.u_table u) ts (Ast.u_filter u) m o db'.
Proof.
  intros Hu Hr Hfl Ht Hm. rewrite run_update_rows. eapply (run_rows_spec _ _ _ (updated u)); try done.
  - intros in_txn id. by apply update_row_step.
  - intros id r o db1 Hs (ts1 & r' & Ht1 & -> & Ha & _). exists r'. split; [done|].
    destruct (same_shape_table _ _ _ _ Hs Ht) as (ts2 & Ht2 & Hs2 & _). rewrite Ht1 in Ht2. injection Ht2 as ->.
    by rewrite <- Hs2.
  - intros m1 id r o db1 C1 HP Hid (ts1 & r' & Ht1 & -> & _ & He) Hs Hr1 Hk.
    destruct (same_shape_table _ _ _ _ Hs Ht) as (ts2 & Ht2 & Hs2 & _). rewrite Ht1 in Ht2. injection Ht2 as ->.
    destruct (enforced db1 C1 _ _ ts2 m1 r' _ Hr1 Ht1 (lookup_insert_eq _ _ _) He) as [Hn Hf]. rewrite Hs2 in *.
    apply keeps_put; [by apply HP|done|done].
Qed.

Lemma delete_effect d db C V ts m : db_rep db C V -> flag_ok db ->
  table (Ast.d_table d) db = Some ts -> V !! Ast.d_table d = Some m ->
  let (o, db') := Dml.run_delete fuel gpu d db in
  rows_outcome (fun _ o => o = None) (fun m1 => (keeps (Db.schema ts) m -> keeps (Db.schema ts) m1) /\
      (references db V -> references db (<[Ast.d_table d := m1]> V)))
    db C V (Ast.d_table d) ts (Ast.d_filter d) m o db'.
Proof.
  intros Hr Hfl Ht Hm. rewrite run_delete_rows. eapply (run_rows_spec _ _ _ (fun _ => deleted (Ast.d_table d))); try done.
  - intros in_txn id. apply delete_row_step.
  - by intros id r o db1 _ [-> _].
  - intros m1 id r o db1 C1 [HP1 HP2] Hid [-> He] Hs Hr1. split; [by intros Hk; apply keeps_delete, HP1|].
    intros HR. assert (Hsch : forall n, Db.table_schema n db = Db.table_schema n db1).
    { intros n. symmetry. apply (gr_schema _ _ _ (same_shape_grown 0 _ _ Hs)). }
    assert (HR1 : references db1 (<[Ast.d_table d := m1]> V)).
    { intros n s m2 i2 r2 Hs2 ? ?. eapply refers_schemas; [by intros; symmetry; apply Hsch|].
      rewrite <- Hsch in Hs2. by eapply (HP2 HR). }
    assert (HR2 := delete_references _ _ _ _ _ _ _ Hr1 HR1 (lookup_insert_eq _ _ _) Hid He).
    rewrite insert_insert_eq in HR2. intros n s m2 i2 r2 Hs2 ? ?. eapply refers_schemas; [exact Hsch|].
    rewrite Hsch in Hs2. by eapply HR2.
  - split; [done|]. by rewrite insert_id.
Qed.

Lemma insert_references db C V name m rows ts explicit : db_rep db C V -> table name db = Some ts ->
  V !! name = Some m -> references db V -> Forall (refers db V (Db.schema ts)) rows ->
  references db (<[name := insert_all explicit (Db.next_row_id ts) rows m]> V).
Proof.
  intros Hr Ht Hm HR Hrows. set (m' := insert_all _ _ _ _).
  assert (Hgrow : forall (n : Ast.str) (m1 : rowmap), V !! n = Some m1 ->
    exists m2, <[name := m']> V !! n = Some m2 /\ m1 ⊆ m2).
  { intros n m1 Hn. destruct (decide (n = name)) as [->|Hne].
    - exists m'. split; [apply lookup_insert_eq|]. rewrite Hm in Hn. injection Hn as <-.
      apply map_subseteq_spec. intros id r Hid. unfold m'. rewrite insert_all_lookup, decide_False; [done|].
      destruct (view_rows _ _ _ _ _ _ Hr Ht Hm id r Hid) as [? _]. lia.
    - exists m1. by rewrite lookup_insert_ne. }
  intros name2 s2 m2 id2 r2 Hs2 Hm2 Hid2. apply (refers_grow db V _ s2 r2 Hgrow).
  destruct (decide (name2 = name)) as [->|Hne].
  - rewrite lookup_insert_eq in Hm2. injection Hm2 as <-. unfold m' in Hid2.
    apply insert_all_cases in Hid2 as [[Hid2 _]|(i & r0 & Hi & -> & _)]; [by eapply HR|].
    apply schema_table in Hs2 as (ts2 & Ht2 & ->). rewrite Ht in Ht2. injection Ht2 as <-.
    intros fk key Hfk Ho Hk Hn. rewrite key_of_stamped in Hk by done.
    by apply (Forall_lookup_1 _ _ _ _ Hrows Hi fk key).
  - rewrite lookup_insert_ne in Hm2 by done. by eapply HR.
Qed.

(** A statement on an existing table: where it ends, what it does, and what it
    keeps. *)
Lemma execute_dml stmt params db C V ts m : dml_ok stmt -> ids_fit (new_rows stmt) db -> db_rep db C V -> flag_ok db ->
  table (target stmt) db = Some ts -> V !! target stmt = Some m ->
  let (o, db') := Engine.execute fuel gpu stmt params db in
  exists m', db_rep db' (after (Db.in_transaction db) C (<[target stmt := m']> V)) (<[target stmt := m']> V) /\
    grown (new_rows stmt) db db' /\ dml_effect db V ts m m' stmt o /\
    (keeps (Db.schema ts) m -> keeps (Db.schema ts) m') /\
    ((forall u, stmt <> Ast.Update u) -> references db V -> references db (<[target stmt := m']> V)).
Proof.
  intros Hok Hfit Hr Hfl Ht Hm. destruct stmt as [| | |i|u|d| | | | | | | | | | |]; try done; cbn [target] in *.
  - assert (Hspec := run_insert_spec i db C V ts m Hok Hr Hfl Ht Hm (Hfit _ ts Ht)). cbn [Engine.execute].
    destruct (Dml.run_insert_stmt fuel gpu i db) as [o db'] eqn:E. rewrite (execute_bind _ _ _ _ _ E).
    destruct Hspec as (m' & Hr' & Hg & Ho). exists m'. split; [exact Hr'|]. split; [done|].
    destruct o as [n|e|]; [|subst m'; rewrite insert_id by done; done..].
    destruct Ho as (cols & rows & Hi & -> & ->). split_and!; [by exists cols, rows| |].
    + intros Hk. apply keeps_insert_all; [done|apply Hi].
    + intros _ HR. eapply insert_references; try done. apply Hi.
  - assert (Hspec := update_effect u db C V ts m Hok Hr Hfl Ht Hm). cbn [Engine.execute].
    destruct (Dml.run_update fuel gpu u db) as [o db'] eqn:E. rewrite (execute_bind _ _ _ _ _ E).
    destruct Hspec as (m' & ids & Hr' & Hs & HP & Hrw & Ho). exists m'. split_and!; [done|by apply same_shape_grown| |done|].
    + exists ids. split; [done|]. intros rs Hrs. destruct o as [n|e|]; [|done..]. injection Hrs as <-.
      destruct (Ho n eq_refl) as (-> & ?). done.
    + intros Hu. by destruct (Hu u).
  - assert (Hspec := delete_effect d db C V ts m Hr Hfl Ht Hm). cbn [Engine.execute].
    destruct (Dml.run_delete fuel gpu d db) as [o db'] eqn:E. rewrite (execute_bind _ _ _ _ _ E).
    destruct Hspec as (m' & ids & Hr' & Hs & [HP1 HP2] & Hrw & Ho). exists m'.
    split_and!; [done|by apply same_shape_grown| |done|done].
    exists ids. split; [done|]. intros rs Hrs. destruct o as [n|e|]; [|done..]. injection Hrs as <-.
    destruct (Ho n eq_refl) as (-> & ?). done.
Qed.

(** On a table that does not exist nothing happens. *)
Lemma execute_dml_unknown stmt params db C V : dml_ok stmt -> db_rep db C V -> flag_ok db ->
  table (target stmt) db = None ->
  Engine.execute fuel gpu stmt params db = (Db.db_err (Codec.UnknownTable (target stmt)), db).
Proof.
  intros Hok Hr Hfl Ht. assert (Hx : active_txn (target stmt) db = None) by by apply (vr_none _ _ _ _ Hr (target stmt)).
  destruct stmt as [| | |i|u|d| | | | | | | | | | |]; try done; cbn [target Engine.execute] in *.
  - unfold Dml.run_insert_stmt.
    assert (E : Dml.m_when (Db.in_transaction db) (Dml.ensure_txn (Ast.i_table i)) db = (Ok tt, db)).
    { destruct (Db.in_transaction db); [|done]. cbn. unfold Dml.ensure_txn. by rewrite Hx, Ht. }
    erewrite execute_bind; [|rewrite get_bind, (bind_ok _ _ _ _ _ E), get_bind, of_r_bind, Ht; reflexivity]. done.
  - erewrite execute_bind; [|rewrite run_update_rows; unfold run_rows, Dml.matching_row_ids;
      rewrite get_bind, of_r_bind, Ht; reflexivity]. done.
  - erewrite execute_bind; [|rewrite run_delete_rows; unfold run_rows, Dml.matching_row_ids;
      rewrite get_bind, of_r_bind, Ht; reflexivity]. done.
Qed.

(** A statement on any table. *)
Lemma dml_step stmt params db C V : dml_ok stmt -> ids_fit (new_rows stmt) db -> db_rep db C V -> flag_ok db ->
  let (_, db') := Engine.execute fuel gpu stmt params db in
  exists V', db_rep db' (after (Db.in_transaction db) C V') V' /\ grown (new_rows stmt) db db'.
Proof.
  intros Hok Hfit Hr Hfl. destruct (table (target stmt) db) as [ts|] eqn:Ht.
  - destruct (table_view_lookup _ _ _ _ _ Hr Ht) as [m Hm].
    assert (Hspec := execute_dml stmt params db C V ts m Hok Hfit Hr Hfl Ht Hm).
    destruct (Engine.execute fuel gpu stmt params db) as [o db']. destruct Hspec as (m' & Hr' & Hg & _).
    eexists. by split.
  - rewrite (execute_dml_unknown stmt params db C V Hok Hr Hfl Ht). exists V.
    rewrite (after_id _ _ _ _ Hr Hfl eq_refl). split; [done|by apply same_shape_grown].
Qed.

(** C5: A table is a finite map from row ids to rows, and INSERT, UPDATE and DELETE are
    operations on that map.  INSERT adds exactly its rows, at the next ids, or leaves the map alone when it
    reports an error; UPDATE rewrites, and DELETE removes, rows that satisfy the WHERE clause and no others,
    all of them and as many as reported when the statement succeeds.  Inside a transaction the committed map
    does not change: only what the transaction sees does. *)
Theorem dml_refines_maps stmt params db C V ts m : dml_ok stmt -> ids_fit (new_rows stmt) db -> db_rep db C V -> flag_ok db ->
  table (target stmt) db = Some ts -> V !! target stmt = Some m ->
  let (o, db') := Engine.execute fuel gpu stmt params db in
  exists m', let V' := <[target stmt := m']> V in
    db_rep db' (after (Db.in_transaction db) C V') V' /\ grown (new_rows stmt) db db' /\ dml_effect db V ts m m' stmt o.
Proof.
  intros Hok Hfit Hr Hfl Ht Hm. assert (Hspec := execute_dml stmt params db C V ts m Hok Hfit Hr Hfl Ht Hm).
  destruct (Engine.execute fuel gpu stmt params db) as [o db'].
  destruct Hspec as (m' & Hr' & Hg & He & _). by exists m'.
Qed.

(** Every table's rows keep its constraints. *)
Definition constraints (db : Database) (V : mapdb) : Prop :=
  forall name s m, Db.table_schema name db = Some s -> V !! name = Some m -> keeps s m.

Lemma grown_schemas n db db' : grown n db db' -> forall name, Db.table_schema name db' = Db.table_schema name db.
Proof. intros Hg. apply (gr_schema _ _ _ Hg). Qed.

(** C7: Whatever INSERT, UPDATE or DELETE does and however it ends, if the visible rows of every
    table satisfied its NOT NULL constraints and those of its PRIMARY KEY and UNIQUE constraints that are over declared
    columns, then the rows it leaves visible do.  A key that mentions the implicit id column is not
    among them: INSERT assigns the id after its checks, which breaks such a key ([assigned_id_breaks_unique]).  The
    statement's literals fit their types, and ids stay below 2^64. *)
Theorem dml_keeps_constraints stmt params db C V : dml_ok stmt -> ids_fit (new_rows stmt) db -> db_rep db C V -> flag_ok db ->
  constraints db V ->
  let (_, db') := Engine.execute fuel gpu stmt params db in
  exists V', db_rep db' (after (Db.in_transaction db) C V') V' /\ constraints db' V'.
Proof.
  intros Hok Hfit Hr Hfl Hc. destruct (table (target stmt) db) as [ts|] eqn:Ht.
  - destruct (table_view_lookup _ _ _ _ _ Hr Ht) as [m Hm].
    assert (Hspec := execute_dml stmt params db C V ts m Hok Hfit Hr Hfl Ht Hm).
    destruct (Engine.execute fuel gpu stmt params db) as [o db']. destruct Hspec as (m' & Hr' & Hg & _ & Hk & _).
    eexists. split; [exact Hr'|]. intros name s m2. rewrite (grown_schemas _ _ _ Hg). intros Hs.
    destruct (decide (name = target stmt)) as [->|Hne].
    + rewrite lookup_insert_eq. intros [= <-]. apply schema_table in Hs as (ts2 & Ht2 & ->).
      rewrite Ht in Ht2. injection Ht2 as <-. apply Hk. eapply Hc; [|done]. unfold Db.table_schema. by rewrite Ht.
    + rewrite lookup_insert_ne by done. by apply Hc.
  - rewrite (execute_dml_unknown stmt params db C V Hok Hr Hfl Ht). exists V.
    by rewrite (after_id _ _ _ _ Hr Hfl eq_refl).
Qed.

(** C28: After INSERT or DELETE, however it ends, every foreign key over declared
    columns that referred to a row of the referenced table still does.  A foreign key on the implicit id column, which
    INSERT assigns after its checks, is not covered.  The statement's literals fit their types, and ids stay
    below 2^64. *)
Theorem insert_delete_keep_references stmt params db C V : dml_ok stmt -> (forall u, stmt <> Ast.Update u) ->
  ids_fit (new_rows stmt) db -> db_rep db C V -> flag_ok db -> references db V ->
  let (_, db') := Engine.execute fuel gpu stmt params db in
  exists V', db_rep db' (after (Db.in_transaction db) C V') V' /\ references db' V'.
Proof.
  intros Hok Hu Hfit Hr Hfl HR. destruct (table (target stmt) db) as [ts|] eqn:Ht.
  - destruct (table_view_lookup _ _ _ _ _ Hr Ht) as [m Hm].
    assert (Hspec := execute_dml stmt params db C V ts m Hok Hfit Hr Hfl Ht Hm).
    destruct (Engine.execute fuel gpu stmt params db) as [o db']. destruct Hspec as (m' & Hr' & Hg & _ & _ & HR').
    eexists. split; [exact Hr'|]. intros name s m2 id r. rewrite (grown_schemas _ _ _ Hg). intros Hs Hm2 Hid.
    eapply refers_schemas; [exact (grown_schemas _ _ _ Hg)|]. by eapply (HR' Hu HR).
  - rewrite (execute_dml_unknown stmt params db C V Hok Hr Hfl Ht). exists V.
    by rewrite (after_id _ _ _ _ Hr Hfl eq_refl).
Qed.

End Statements.

(** ** Examples *)

Lemma new_db_rep s : schema_ok s ->
  db_rep (Db.new s) {[Ast.lit "t" := ∅]} {[Ast.lit "t" := ∅]} /\ flag_ok (Db.new s).
Proof.
  intros Hs. split; [|done]. unfold Db.new. generalize (Ast.lit "t"). intros t. split.
  - apply NoDup_singleton.
  - constructor.
  - intros name ts. cbn. case_decide as Hn; [|done]. subst name. intros [= <-]. exists ∅, ∅.
    rewrite lookup_singleton_eq, overlay_empty. split_and!; try done; first [by apply new_table_rep|apply empty_txn_rep].
  - intros name. cbn. case_decide as Hn; [done|]. intros _. by rewrite lookup_singleton_ne.
Qed.

(** [CREATE TABLE t (x INT NOT NULL UNIQUE, parent INT REFERENCES t (id))]. *)
Definition demo_schema : Schema :=
  Codec.mkSchema [Ast.lit "id"; Ast.lit "x"; Ast.lit "parent"] [Ast.TInt; Ast.TInt; Ast.TInt] [Ast.lit "x"] None
    [[Ast.lit "x"]] [Codec.mkForeignKey [Ast.lit "parent"] (Ast.lit "t") [Ast.lit "id"]] [].

Lemma demo_schema_ok : schema_ok demo_schema.
Proof. split; cbn; try lia; [|done]. vm_compute. repeat (constructor; [set_solver|]). constructor. Qed.

Definition insert_two (a b : Z) : Ast.Statement :=
  Ast.Insert (Ast.mkInsert (Ast.lit "t") [Ast.lit "x"] [[Ast.LInt a]; [Ast.LInt b]]).

#[local] Instance demo_debug : DebugValue := fun _ => [].

Definition demo_run (stmt : Ast.Statement) : Db.R Value.ResultSet * Database :=
  Engine.execute 3 false stmt [] (Db.new demo_schema).

Lemma dml_refines_maps_witness :
  fst (demo_run (insert_two 5 6)) = Ok (Engine.affected_rows 2) /\
  fst (demo_run (insert_two 5 5)) = Db.db_err (Codec.UniqueViolation (Ast.lit "x")) /\
  let (o, db') := demo_run (insert_two 5 6) in
  exists m', let V' := <[Ast.lit "t" := m']> {[Ast.lit "t" := ∅]} in
    db_rep db' V' V' /\ grown 2 (Db.new demo_schema) db' /\
    dml_effect 3 false (Db.new demo_schema) {[Ast.lit "t" := ∅]} (Db.new_table demo_schema) ∅ m' (insert_two 5 6) o.
Proof.
  split; [vm_compute; reflexivity|]. split; [vm_compute; reflexivity|].
  refine (dml_refines_maps 3 false (insert_two 5 6) [] (Db.new demo_schema) {[Ast.lit "t" := ∅]} {[Ast.lit "t" := ∅]}
    (Db.new_table demo_schema) ∅ _ _ _ _ _ _).
  - repeat constructor; cbn; lia.
  - intros name ts Hts. cbn in Hts. case_decide; [|done]. injection Hts as <-. vm_compute. reflexivity.
  - apply (new_db_rep _ demo_schema_ok).
  - done.
  - reflexivity.
  - apply lookup_singleton_eq.
Defined.

Lemma demo_empty_rows (m : rowmap) (name : Ast.str) id r : ({[Ast.lit "t" := ∅]} : mapdb) !! name = Some m -> m !! id = Some r -> False.
Proof. intros [_ <-]%lookup_singleton_Some. by rewrite lookup_empty. Qed.

Lemma dml_keeps_constraints_witness :
  let (_, db') := demo_run (insert_two 5 6) in exists V', db_rep db' V' V' /\ constraints db' V'.
Proof.
  refine (dml_keeps_constraints 3 false (insert_two 5 6) [] (Db.new demo_schema) {[Ast.lit "t" := ∅]}
    {[Ast.lit "t" := ∅]} _ _ _ _ _).
  - repeat constructor; cbn; lia.
  - intros name ts Hts. cbn in Hts. case_decide; [|done]. injection Hts as <-. vm_compute. reflexivity.
  - apply (new_db_rep _ demo_schema_ok).
  - done.
  - intros name s m _ Hm. split; [intros id r Hid|intros ? ? ? i j ri rj ki kj _ Hi]; destruct (demo_empty_rows _ _ _ _ Hm ltac:(eassumption)).
Defined.

Lemma insert_delete_keep_references_witness :
  let (_, db') := demo_run (insert_two 5 6) in exists V', db_rep db' V' V' /\ references db' V'.
Proof.
  refine (insert_delete_keep_references 3 false (insert_two 5 6) [] (Db.new demo_schema) {[Ast.lit "t" := ∅]}
    {[Ast.lit "t" := ∅]} _ _ _ _ _ _).
  - repeat constructor; cbn; lia.
  - intros u. discriminate.
  - intros name ts Hts. cbn in Hts. case_decide; [|done]. injection Hts as <-. vm_compute. reflexivity.
  - apply (new_db_rep _ demo_schema_ok).
  - done.
  - intros name s m id r _ Hm Hid. destruct (demo_empty_rows _ _ _ _ Hm Hid).
Defined.
