(* ===== verification/EngineProof.v ===== *)
(** * EngineProof: transactions, sessions and the engine's defects

    A COMMIT moves what a transaction sees to the committed maps, or reports a
    conflict and leaves them alone; a ROLLBACK discards it; sessions do not see
    each other's writes before they commit.  The examples at the end run SQL text
    through the parser and the engine and show where the engine falls short of
    its documentation. *)
From Stdlib Require Import ZArith Lia Strings.Byte Strings.String.
From stdpp Require Import base numbers option list gmap sorting.
From S2P Require Import Prelude Ast Value Lexer Parser BTree Mvcc Codec Db Select Dml Engine StoreProof DmlProof.
Import Codec(storable, encode_row, Schema).
Import Db(TableStorage, Database, Failure, find_named, set_named, table, active_txn, on_table).

(** ** Applying buffered writes to a table *)

Lemma apply_write_ok ts m id o : table_rep ts m -> write_ok ts id o ->
  exists ts', Engine.apply_write (id, wrap o) ts = (Ok tt, ts') /\ table_rep ts' (put id o m) /\ same_frame ts ts'.
Proof.
  intros Ht [Hid Ho]. destruct o as [r|]; [|by apply erase_row_ok].
  unfold Engine.apply_write. cbn [wrap Codec.mvcc_wrap_row fst snd].
  change (Byte.eqb Codec.MVCC_LIVE Codec.MVCC_TOMBSTONE) with false. cbv iota.
  destruct (store_row_ok ts m id r Ht Hid (Ho r eq_refl)) as (ts' & E & Ht' & Hs).
  exists ts'. split; [|by split]. rewrite <- E. unfold Dml.store_row.
  destruct (tree_insert_ok ts m id r Ht) as (t' & Ei & _). rewrite !(bind_ok _ _ _ _ _ Ei).
  unfold mbind, M_bind, m_get, Dml.of_r, Db.width. cbn [Db.schema].
  by rewrite (decode_row_fits _ id r (tr_schema _ _ Ht) (Ho r eq_refl)).
Qed.

Lemma same_frame_write ts ts' id o : same_frame ts ts' -> write_ok ts id o -> write_ok ts' id o.
Proof. intros (Hs & Hn & _) Ho. unfold write_ok. by rewrite Hs, Hn. Qed.

#[local] Instance same_frame_preorder : PreOrder same_frame.
Proof. split; [by intros ts|]. intros a b c (?&?&?) (?&?&?). unfold same_frame. split_and!; congruence. Qed.

Definition put_all (wos : list (Z * option row)) (m : rowmap) : rowmap := foldl (fun m p => put p.1 p.2 m) m wos.

Lemma apply_list_ok wos : forall ts m, table_rep ts m -> Forall (fun p => write_ok ts p.1 p.2) wos ->
  exists ts', Engine.t_each Engine.apply_write (map (fun p => (p.1, wrap p.2)) wos) ts = (Ok tt, ts') /\
    table_rep ts' (put_all wos m) /\ same_frame ts ts'.
Proof.
  induction wos as [|[id o] wos IH]; intros ts m Ht Hw; [by exists ts|]. apply Forall_cons in Hw as [Ho Hw].
  destruct (apply_write_ok ts m id o Ht Ho) as (ts1 & E & Ht1 & Hs1). cbn [map Engine.t_each fst snd].
  rewrite (bind_ok _ _ _ _ _ E). destruct (IH ts1 _ Ht1) as (ts2 & E2 & Ht2 & Hs2).
  { eapply Forall_impl; [exact Hw|]. intros p. by apply same_frame_write. }
  exists ts2. split_and!; [done|done|by etransitivity].
Qed.

Lemma put_all_overlay wos : forall m, NoDup (map fst wos) -> put_all wos m = overlay (list_to_map wos) m.
Proof.
  induction wos as [|[id o] wos IH]; intros m Hnd; [by rewrite overlay_empty|].
  cbn [map fst] in Hnd. apply NoDup_cons in Hnd as [Hid Hnd]. cbn [put_all foldl fst snd list_to_map foldr].
  change (put_all wos (put id o m) = overlay (<[id := o]> (list_to_map wos)) m). rewrite IH by done.
  apply map_eq. intros x. rewrite !lookup_overlay. destruct (decide (x = id)) as [->|Hx].
  - rewrite lookup_insert_eq, not_elem_of_list_to_map_1 by done. unfold put. by rewrite lookup_partial_alter_eq.
  - rewrite lookup_insert_ne by done. unfold put. by rewrite lookup_partial_alter_ne.
Qed.

(** The writes of a transaction, in key order, come from its overlay. *)
Lemma writes_iter_list t (w : writemap) : Mvcc.writes t = wrap <$> w ->
  exists wos, Mvcc.writes_iter t = map (fun p => (p.1, wrap p.2)) wos /\ wos ≡ₚ map_to_list w.
Proof.
  intros Hw. unfold Mvcc.writes_iter. rewrite Hw.
  assert (Hp : merge_sort Mvcc.key_le (map_to_list (wrap <$> w)) ≡ₚ map (prod_map id wrap) (map_to_list w)).
  { rewrite merge_sort_Permutation. by rewrite map_to_list_fmap. }
  apply Permutation_map_inv in Hp as (wos & E & Hp). exists wos. by split.
Qed.

Lemma apply_writes_ok ts m t w : table_rep ts m -> txn_rep ts (Some t) w ->
  exists ts', Engine.apply_writes (Mvcc.writes_iter t) ts = (Ok tt, ts') /\ table_rep ts' (overlay w m) /\ same_frame ts ts'.
Proof.
  intros Ht [Hw Hok]. destruct (writes_iter_list t w Hw) as (wos & -> & Hp).
  assert (Hnd : NoDup (map fst wos)) by (rewrite Hp; apply NoDup_fst_map_to_list).
  assert (Hall : Forall (fun p => write_ok ts p.1 p.2) wos).
  { rewrite Hp. apply map_Forall_to_list in Hok. eapply Forall_impl; [exact Hok|]. by intros []. }
  destruct (apply_list_ok wos ts m Ht Hall) as (ts1 & E & Ht1 & Hs1).
  assert (Hmap : list_to_map wos = w) by (rewrite <- (list_to_map_to_list w); by apply list_to_map_proper).
  rewrite put_all_overlay, Hmap in Ht1 by done. destruct (maybe_build_ok ts1 _ Ht1) as (v & E2 & Ht2).
  unfold Engine.apply_writes. rewrite (bind_ok _ _ _ _ _ E), E2. by eexists.
Qed.

(** ** Views are computed from the buffered writes *)

Definition unwrap (b : list byte) : option row :=
  match b with
  | t :: bytes =>
      if Byte.eqb t Codec.MVCC_TOMBSTONE then None
      else match Codec.try_decode_row bytes with Ok r => Some r | _ => None end
  | [] => None
  end.

Lemma unwrap_wrap ts id o : schema_ok (Db.schema ts) -> write_ok ts id o -> unwrap (wrap o) = o.
Proof.
  intros Hs [_ Ho]. destruct o as [r|]; [|done]. cbn [wrap Codec.mvcc_wrap_row unwrap].
  change (Byte.eqb Codec.MVCC_LIVE Codec.MVCC_TOMBSTONE) with false. cbv iota.
  destruct (Ho r eq_refl) as (Hl & Hr & _). rewrite <- (app_nil_r (encode_row r)).
  destruct (Codec.decode_row_ok id r [] Hr) as [E _]; [rewrite Hl; apply Hs|]. by rewrite E.
Qed.

Lemma txn_rep_unwrap ts txn w : schema_ok (Db.schema ts) -> txn_rep ts txn w -> w = unwrap <$> writes_of txn.
Proof.
  intros Hs [Hw Hok]. rewrite Hw. apply map_eq. intros id. rewrite !lookup_fmap.
  destruct (w !! id) as [o|] eqn:E; [|done]. cbn. by rewrite (unwrap_wrap ts id o Hs (Hok id o E)).
Qed.

Definition view (txns : Db.Txns) (C : mapdb) : mapdb :=
  map_imap (fun name m => Some (overlay (unwrap <$> writes_of (find_named name txns)) m)) C.

Lemma view_rep_view tabs txns C V : view_rep tabs txns C V -> V = view txns C.
Proof.
  intros H. apply map_eq. intros name. unfold view. rewrite map_lookup_imap.
  destruct (find_named name tabs) as [ts|] eqn:E.
  - destruct (vr_view _ _ _ _ H name ts E) as (m & w & -> & -> & Ht & Hx & _). cbn.
    by rewrite <- (txn_rep_unwrap ts _ w (tr_schema _ _ Ht) Hx).
  - by destruct (vr_none _ _ _ _ H name E) as (-> & -> & _).
Qed.

(** The tables behind a view may change under it: same schemas, at least as many
    ids, any committed maps. *)
Definition tables_grow (tabs tabs' : list (Ast.str * TableStorage)) : Prop :=
  forall name, match find_named name tabs, find_named name tabs' with
  | Some ts, Some ts' => Db.schema ts' = Db.schema ts /\ (Db.next_row_id ts <= Db.next_row_id ts')%Z
  | None, None => True
  | _, _ => False
  end.

Lemma view_rebase tabs tabs' txns txns' C C' V V' : view_rep tabs txns C V -> view_rep tabs' txns' C' V' ->
  tables_grow tabs tabs' -> view_rep tabs' txns C' (view txns C').
Proof.
  intros H H' Hg. split.
  - apply H'.
  - apply H.
  - intros name ts' E'. assert (Hn := Hg name). rewrite E' in Hn.
    destruct (find_named name tabs) as [ts|] eqn:E; [|done]. destruct Hn as [Hs Hn].
    destruct (vr_view _ _ _ _ H name ts E) as (m & w & _ & _ & Ht & Hx & H0).
    destruct (vr_view _ _ _ _ H' name ts' E') as (m' & w' & Hm' & _ & Ht' & _).
    exists m', w. split_and!; [done| |done|by eapply txn_rep_grow|lia].
    unfold view. rewrite map_lookup_imap, Hm'. cbn. by rewrite <- (txn_rep_unwrap ts _ w (tr_schema _ _ Ht) Hx).
  - intros name E'. assert (Hn := Hg name). rewrite E' in Hn.
    destruct (find_named name tabs) as [ts|] eqn:E; [done|].
    destruct (vr_none _ _ _ _ H name E) as (_ & _ & Hf). destruct (vr_none _ _ _ _ H' name E') as (HC & _).
    split_and!; [done| |done]. unfold view. by rewrite map_lookup_imap, HC.
Qed.

Lemma tables_grow_refl tabs : tables_grow tabs tabs.
Proof. intros name. destruct (find_named name tabs); [split; [done|lia]|done]. Qed.

Lemma tables_grow_trans a b c : tables_grow a b -> tables_grow b c -> tables_grow a c.
Proof.
  intros H1 H2 name. specialize (H1 name). specialize (H2 name).
  destruct (find_named name a), (find_named name b), (find_named name c); try done.
  destruct H1, H2. split; [congruence|lia].
Qed.

Lemma grown_tables n db db' : grown n db db' -> tables_grow (Db.tables db) (Db.tables db').
Proof.
  intros Hg name. assert (Hs := gr_schema _ _ _ Hg name). unfold table in Hs.
  destruct (find_named name (Db.tables db)) as [ts|] eqn:E, (find_named name (Db.tables db')) as [ts'|] eqn:E'; try done.
  cbn in Hs. injection Hs as Hs. split; [done|]. by destruct (gr_next _ _ _ Hg name ts ts' E E').
Qed.

Lemma set_named_grow name ts ts' tabs : find_named name tabs = Some ts -> Db.schema ts' = Db.schema ts ->
  (Db.next_row_id ts <= Db.next_row_id ts')%Z -> tables_grow tabs (set_named name ts' tabs).
Proof.
  intros H Hs Hn other. rewrite (find_set_named _ _ _ _ _ H). case_decide; [subst; rewrite H; by split|].
  apply tables_grow_refl.
Qed.

(** Without its buffered writes a view is the committed maps. *)
Lemma view_nil C : view [] C = C.
Proof.
  apply map_eq. intros name. unfold view. rewrite map_lookup_imap. destruct (C !! name); [|done]. cbn.
  by rewrite fmap_empty, overlay_empty.
Qed.

Lemma empty_view_rep tabs txns C V : view_rep tabs txns C V -> view_rep tabs [] C C.
Proof.
  intros H. split; [apply H|constructor| |].
  - intros name ts E. destruct (vr_view _ _ _ _ H name ts E) as (m & w & Hm & _ & Ht & _ & H0).
    exists m, ∅. rewrite overlay_empty. by split_and!.
  - intros name E. by destruct (vr_none _ _ _ _ H name E) as (-> & _).
Qed.

(** ** COMMIT *)

(** What a commit leaves alone. *)
Record same_outside (db db' : Database) : Prop := {
  so_flag : Db.in_transaction db' = Db.in_transaction db;
  so_active : Db.active_txns db' = Db.active_txns db;
  so_views : Db.views db' = Db.views db;
  so_params : Db.session_parameters db' = Db.session_parameters db;
  so_sessions : Db.session_txns db' = Db.session_txns db;
  so_grow : tables_grow (Db.tables db) (Db.tables db');
}.

#[local] Instance same_outside_preorder : PreOrder same_outside.
Proof.
  split; [by intros db; split; try done; apply tables_grow_refl|].
  intros a b c [] []. split; try congruence. by eapply tables_grow_trans.
Qed.

Lemma set_table_outside db name ts ts' : table name db = Some ts -> Db.schema ts' = Db.schema ts ->
  (Db.next_row_id ts <= Db.next_row_id ts')%Z ->
  same_outside db (Db.set_tables (set_named name ts' (Db.tables db)) db).
Proof. intros Ht Hs Hn. split; try done. by eapply set_named_grow. Qed.

Lemma set_mvcc_rep ts m v : table_rep ts m -> table_rep (Db.set_mvcc v ts) m.
Proof. by intros []. Qed.

Lemma mvcc_commit_cases name txn ts : exists v,
  Engine.mvcc_commit name txn ts = (Ok tt, Db.set_mvcc v ts) \/
  Engine.mvcc_commit name txn ts = (Db.db_err (Engine.conflict name), Db.set_mvcc v ts).
Proof.
  unfold Engine.mvcc_commit, Mvcc.commit. destruct (Mvcc.validate _ _ _); eexists; [left|right]; reflexivity.
Qed.

(** Validating changes no rows: the tables still hold [C] under every view. *)
Lemma validate_step (txns : Db.Txns) (C V : mapdb) (name : Ast.str) (t : Mvcc.Transaction) (db : Database) ts :
  view_rep (Db.tables db) txns C V -> table name db = Some ts ->
  exists (o : Db.R unit) (db' : Database), on_table name Panic (Engine.mvcc_commit name t) db = (o, db') /\
    (o = Ok tt \/ o = Db.db_err (Engine.conflict name)) /\ view_rep (Db.tables db') txns C V /\ same_outside db db'.
Proof.
  intros Hr Ht. destruct (vr_view _ _ _ _ Hr name ts Ht) as (m & w & Hm & Hw & Hrep & Hx & H0).
  assert (Hv : forall v, view_rep (Db.tables (Db.set_tables (set_named name (Db.set_mvcc v ts) (Db.tables db)) db)) txns C V).
  { intros v. cbn [Db.tables Db.set_tables]. rewrite <- (insert_id C name m Hm), <- (insert_id V name _ Hw).
    eapply view_rep_table; [exact Hr|exact Ht|by apply set_mvcc_rep|by eapply txn_rep_grow|done]. }
  destruct (mvcc_commit_cases name t ts) as [v [E|E]]; rewrite (on_table_eq _ _ _ _ _ _ _ Ht E);
    (do 2 eexists; split_and!; [done|tauto|done|]; by eapply set_table_outside).
Qed.

(** Applying the writes of one table moves its view to the committed map. *)
Lemma apply_step (l : Db.Txns) (C V : mapdb) (name : Ast.str) (t : Mvcc.Transaction) (db : Database) ts :
  view_rep (Db.tables db) ((name, t) :: l) C V -> table name db = Some ts ->
  exists db' m, on_table name Panic (Engine.apply_writes (Mvcc.writes_iter t)) db = (Ok tt, db') /\
    same_outside db db' /\ V !! name = Some m /\ view_rep (Db.tables db') l (<[name := m]> C) V.
Proof.
  intros Hr Ht. destruct (vr_view _ _ _ _ Hr name ts Ht) as (m & w & Hm & Hw & Hrep & Hx & H0).
  assert (Hnd := vr_txns _ _ _ _ Hr). cbn in Hnd. apply NoDup_cons in Hnd as [Hout Hnd].
  apply find_named_None in Hout. cbn [find_named] in Hx. rewrite decide_True in Hx by done.
  destruct (apply_writes_ok ts m t w Hrep Hx) as (ts' & E & Hrep' & Hs & Hn & Hv).
  rewrite (on_table_eq _ _ _ _ _ _ _ Ht E). eexists _, (overlay w m). split; [done|].
  split; [eapply set_table_outside; [done|done|lia]|]. split; [done|]. cbn [Db.tables Db.set_tables]. split.
  - rewrite set_named_fst. apply Hr.
  - done.
  - intros other ts2. rewrite (find_set_named _ _ _ _ _ Ht). case_decide as Ho.
    + intros [= <-]. subst other. exists (overlay w m), ∅. rewrite lookup_insert_eq, overlay_empty, Hout.
      split_and!; [done|done|done|apply empty_txn_rep|lia].
    + intros E2. destruct (vr_view _ _ _ _ Hr other ts2 E2) as (m2 & w2 & ? & ? & ? & Hx2 & ?).
      cbn [find_named] in Hx2. rewrite decide_False in Hx2 by done. exists m2, w2. by rewrite lookup_insert_ne by done.
  - intros other. rewrite (find_set_named _ _ _ _ _ Ht). case_decide as Ho; [done|]. intros E2.
    destruct (vr_none _ _ _ _ Hr other E2) as (? & ? & Hf). cbn [find_named] in Hf.
    rewrite decide_False in Hf by done. by rewrite lookup_insert_ne by done.
Qed.

Lemma txn_has_table tabs txns C V name : view_rep tabs txns C V -> name ∈ map fst txns ->
  exists ts, find_named name tabs = Some ts.
Proof.
  intros Hr Hin. destruct (find_named name tabs) as [ts|] eqn:E; [by exists ts|].
  destruct (vr_none _ _ _ _ Hr name E) as (_ & _ & Hf). by apply find_named_None in Hf.
Qed.

Definition validate_txn (nt : Ast.str * Mvcc.Transaction) : Dml.D unit :=
  on_table nt.1 Panic (Engine.mvcc_commit nt.1 nt.2).
Definition apply_txn (nt : Ast.str * Mvcc.Transaction) : Dml.D unit :=
  on_table nt.1 Panic (Engine.apply_writes (Mvcc.writes_iter nt.2)).

Lemma validate_all (txns : Db.Txns) (C V : mapdb) l : forall db : Database,
  view_rep (Db.tables db) txns C V -> (forall nt, nt ∈ l -> nt.1 ∈ map fst txns) ->
  exists (o : Db.R unit) (db' : Database), Dml.m_each validate_txn l db = (o, db') /\
    (o = Ok tt \/ exists n, n ∈ map fst l /\ o = Db.db_err (Engine.conflict n)) /\
    view_rep (Db.tables db') txns C V /\ same_outside db db'.
Proof.
  induction l as [|[name t] l IH]; intros db Hr Hl; [exists (Ok tt), db; split_and!; [done|tauto|done|done]|].
  destruct (txn_has_table _ _ _ _ name Hr) as [ts Ht]; [apply (Hl (name, t)); by left|].
  destruct (validate_step txns C V name t db ts Hr Ht) as (o & db1 & E & Ho & Hr1 & Hs1). cbn [Dml.m_each].
  destruct Ho as [->| ->].
  - destruct (IH db1 Hr1) as (o2 & db2 & E2 & Ho2 & Hr2 & Hs2); [intros nt Hnt; apply Hl; by right|].
    exists o2, db2. rewrite (bind_ok _ _ _ _ _ E). split_and!; [done| |done|by etransitivity].
    destruct Ho2 as [?|(n & ? & ?)]; [by left|]. right. exists n. split; [by right|done].
  - exists (Db.db_err (Engine.conflict name)), db1. rewrite (bind_err _ _ _ _ _ E). split_and!; [done| |done|done].
    right. exists name. split; [by left|done].
Qed.

Lemma apply_all (V : mapdb) l : forall (C : mapdb) (db : Database), view_rep (Db.tables db) l C V ->
  exists db', Dml.m_each apply_txn l db = (Ok tt, db') /\ view_rep (Db.tables db') [] V V /\ same_outside db db'.
Proof.
  induction l as [|[name t] l IH]; intros C db Hr.
  { exists db. split_and!; [done| |done]. by rewrite <- (view_rep_auto _ _ _ Hr) in Hr. }
  destruct (txn_has_table _ _ _ _ name Hr) as [ts Ht]; [by left|].
  destruct (apply_step l C V name t db ts Hr Ht) as (db1 & m & E & Hs1 & _ & Hr1).
  destruct (IH _ db1 Hr1) as (db2 & E2 & Hr2 & Hs2). exists db2. cbn [Dml.m_each]. rewrite (bind_ok _ _ _ _ _ E).
  split_and!; [done|done|by etransitivity].
Qed.

(** C14: COMMIT ends the transaction.  It either makes exactly what the transaction sees the
    committed rows of every table, or reports a conflict and leaves the committed rows of every table as they
    were. *)
Theorem commit_is_atomic db C V : db_rep db C V -> Db.in_transaction db = true ->
  exists (o : Db.R unit) db', Engine.run_commit db = (o, db') /\
    Db.in_transaction db' = false /\ Db.active_txns db' = [] /\
    (o = Ok tt /\ db_rep db' V V \/ exists n, o = Db.db_err (Engine.conflict n) /\ db_rep db' C C).
Proof.
  intros Hr Hi. unfold Engine.run_commit. rewrite Hi. cbn [negb]. set (db0 := Db.set_txn false [] db).
  destruct (validate_all (Db.active_txns db) C V (Db.active_txns db) db0 Hr) as (o & db1 & E & Ho & Hr1 & Hs1).
  { intros nt Hnt. by apply list_elem_of_fmap_2. }
  assert (Hend : forall db', same_outside db0 db' -> Db.in_transaction db' = false /\ Db.active_txns db' = []).
  { intros db' Hs. by rewrite (so_flag _ _ Hs), (so_active _ _ Hs). }
  destruct Ho as [->|(n & _ & ->)].
  - destruct (apply_all V _ C db1 Hr1) as (db2 & E2 & Hr2 & Hs2). exists (Ok tt), db2. cbv zeta.
    rewrite (bind_ok _ _ _ _ _ E). destruct (Hend db2) as [H1 H2]; [by etransitivity|].
    split_and!; [done|done|done|]. left. split; [done|]. unfold db_rep. by rewrite H2.
  - exists (Db.db_err (Engine.conflict n)), db1. cbv zeta. rewrite (bind_err _ _ _ _ _ E).
    destruct (Hend db1 Hs1) as [H1 H2]. split_and!; [done|done|done|]. right. exists n. split; [done|].
    unfold db_rep. rewrite H2. by eapply empty_view_rep.
Qed.

Section Sessions.
Context `{DebugValue} (fuel : nat) (gpu : bool).

(** ** ROLLBACK *)

(** A client runs statements in order, whatever they return. *)
Definition run_all (stmts : list Ast.Statement) (db : Database) : Database :=
  foldl (fun db stmt => snd (Engine.execute fuel gpu stmt [] db)) db stmts.

Definition total_rows (stmts : list Ast.Statement) : nat := sum_list_with new_rows stmts.

Lemma run_all_in_txn stmts : forall db C V, Forall dml_ok stmts -> ids_fit (total_rows stmts) db ->
  db_rep db C V -> Db.in_transaction db = true ->
  exists V', db_rep (run_all stmts db) C V' /\ grown (total_rows stmts) db (run_all stmts db).
Proof.
  induction stmts as [|stmt stmts IH]; intros db C V Hok Hfit Hr Hi.
  { exists V. split; [done|by apply same_shape_grown]. }
  apply Forall_cons in Hok as [Hok1 Hok]. cbn [run_all foldl total_rows sum_list_with] in *.
  assert (Hstep := dml_step fuel gpu stmt [] db C V Hok1 (ids_fit_weaken _ _ _ (Nat.le_add_r _ _) Hfit) Hr).
  destruct (Engine.execute fuel gpu stmt [] db) as [o db1]. destruct Hstep as (V1 & Hr1 & Hg1).
  { unfold flag_ok. congruence. }
  rewrite Hi in Hr1. cbn [snd]. destruct (IH db1 C V1 Hok) as (V2 & Hr2 & Hg2).
  - by eapply ids_fit_grown.
  - done.
  - by rewrite (gr_flag _ _ _ Hg1).
  - exists V2. split; [done|by eapply grown_trans].
Qed.

(** BEGIN, any INSERT, UPDATE and DELETE statements, and ROLLBACK leave the rows of every
    table as they were before BEGIN, and no transaction open. *)
Theorem rollback_restores stmts db C : Forall dml_ok stmts -> ids_fit (total_rows stmts) db ->
  db_rep db C C -> Db.in_transaction db = false ->
  let db' := run_all (Ast.Begin :: stmts ++ [Ast.Rollback]) db in
  db_rep db' C C /\ Db.in_transaction db' = false /\ Db.active_txns db' = [].
Proof.
  intros Hok Hfit Hr Hi. cbv zeta. unfold run_all. cbn [foldl]. rewrite foldl_app. cbn [foldl].
  assert (E : Engine.execute fuel gpu Ast.Begin [] db = (Ok Engine.empty_result_set, Db.set_txn true [] db)).
  { cbn [Engine.execute]. unfold mbind, M_bind, Engine.run_begin. by rewrite Hi. }
  rewrite E. cbn [snd].
  destruct (run_all_in_txn stmts (Db.set_txn true [] db) C C) as (V & Hr1 & Hg); try done.
  { by eapply empty_view_rep. }
  change (foldl (fun db stmt => snd (Engine.execute fuel gpu stmt [] db)) (Db.set_txn true [] db) stmts)
    with (run_all stmts (Db.set_txn true [] db)). set (db1 := run_all stmts (Db.set_txn true [] db)) in *.
  assert (Hi1 : Db.in_transaction db1 = true) by by rewrite (gr_flag _ _ _ Hg).
  assert (E2 : Engine.execute fuel gpu Ast.Rollback [] db1 = (Ok Engine.empty_result_set, Db.set_txn false [] db1)).
  { cbn [Engine.execute]. unfold mbind, M_bind, Engine.run_rollback. by rewrite Hi1. }
  rewrite E2. split_and!; [|done|done]. by eapply empty_view_rep.
Qed.

(** ** Sessions *)

(** The committed maps [C], with the transactions of the database and of every
    session well formed over them. *)
Record world_ok (db : Database) (C : mapdb) : Prop := {
  wo_db : db_rep db C (view (Db.active_txns db) C);
  wo_flag : flag_ok db;
  wo_sessions : forall sid s, Db.session_txns db !! sid = Some s ->
    view_rep (Db.tables db) (Db.s_active_txns s) C (view (Db.s_active_txns s) C);
}.

(** What a session with an open transaction sees. *)
Definition session_view (db : Database) (sid : Z) (C : mapdb) : mapdb :=
  match Db.session_txns db !! sid with Some s => view (Db.s_active_txns s) C | None => C end.

Lemma in_session db sid : Engine.session_in_transaction sid db = true ->
  exists s, Db.session_txns db !! sid = Some s /\ Db.s_in_transaction s = true.
Proof. unfold Engine.session_in_transaction. destruct (Db.session_txns db !! sid) as [s|]; [by exists s|done]. Qed.

Lemma in_session_dml sid stmt params db : dml_ok stmt -> Engine.session_in_transaction sid db = true ->
  Engine.execute_in_session fuel gpu sid stmt params db = Engine.execute_swapped fuel gpu sid stmt params db.
Proof. intros Hok Hs. by destruct stmt; try done; cbn; rewrite Hs. Qed.

(** C8: A DML statement of a session with an open transaction changes no committed row,
    whatever its outcome; the transactions of the other sessions and of the database are untouched, so they see
    what they saw before. *)
Theorem sessions_are_isolated sid stmt params db C : world_ok db C -> dml_ok stmt -> ids_fit (new_rows stmt) db ->
  Engine.session_in_transaction sid db = true ->
  let (_, db') := Engine.execute_in_session fuel gpu sid stmt params db in
  world_ok db' C /\ Engine.session_in_transaction sid db' = true /\
  Db.in_transaction db' = Db.in_transaction db /\ Db.active_txns db' = Db.active_txns db /\
  forall other, other <> sid -> Db.session_txns db' !! other = Db.session_txns db !! other /\
    session_view db' other C = session_view db other C.
Proof.
  intros Hw Hok Hfit Hin. rewrite in_session_dml by done. unfold Engine.execute_swapped.
  destruct (in_session _ _ Hin) as (s & Hs & Ho). rewrite Hs.
  set (taken := Db.set_sessions _ db). set (db0 := Db.set_txn true (Db.s_active_txns s) taken).
  assert (Hr0 : db_rep db0 C (view (Db.s_active_txns s) C)) by by apply (wo_sessions _ _ Hw sid s Hs).
  assert (Hstep := dml_step fuel gpu stmt params db0 C _ Hok Hfit Hr0 ltac:(done)).
  destruct (Engine.execute fuel gpu stmt params db0) as [o db1]. destruct Hstep as (V1 & Hr1 & Hg).
  cbn [after Db.in_transaction db0 Db.set_txn] in Hr1. rewrite (gr_sessions _ _ _ Hg).
  cbn [db0 taken Db.set_txn Db.set_sessions Db.session_txns]. rewrite lookup_insert_eq, insert_insert_eq.
  assert (Hgrow : tables_grow (Db.tables db) (Db.tables db1)) by apply (grown_tables _ _ _ Hg).
  split_and!.
  - split.
    + unfold db_rep. cbn. by eapply view_rebase; [apply Hw|exact Hr1|].
    + apply Hw.
    + intros other s'. cbn. destruct (decide (other = sid)) as [->|Hne].
      * rewrite lookup_insert_eq. intros [= <-]. cbn. by rewrite <- (view_rep_view _ _ _ _ Hr1).
      * rewrite lookup_insert_ne by done. intros Hs'. by eapply view_rebase; [by eapply wo_sessions|exact Hr1|].
  - unfold Engine.session_in_transaction. cbn. by rewrite lookup_insert_eq.
  - done.
  - done.
  - intros other Hne. unfold session_view. cbn. by rewrite lookup_insert_ne.
Qed.

(** ** A session's COMMIT and ROLLBACK *)

Definition commit_txn (nt : Ast.str * Mvcc.Transaction) : Dml.D unit :=
  on_table nt.1 Panic (Engine.mvcc_commit nt.1 nt.2;; Engine.apply_writes (Mvcc.writes_iter nt.2)).

Lemma on_table_bind {A B} name (f : M TableStorage Failure A) (g : A -> M TableStorage Failure B) db ts a ts1 :
  table name db = Some ts -> f ts = (Ok a, ts1) ->
  on_table name Panic (f ≫= g) db =
  on_table name Panic (g a) (Db.set_tables (set_named name ts1 (Db.tables db)) db).
Proof.
  intros Ht E. unfold on_table, table in *. rewrite Ht. cbn. rewrite (find_set_named _ _ _ _ _ Ht), decide_True by done.
  rewrite (bind_ok _ _ _ _ _ E). destruct (g a ts1) as [o ts2]. f_equal. unfold Db.set_tables. cbn. f_equal.
  clear. induction (Db.tables db) as [|[n y] l IH]; [done|]. cbn. case_decide as Hn; [|cbn].
  - subst. cbn. by rewrite decide_True.
  - rewrite decide_False by done. by f_equal.
Qed.

(** One table: its rows are published, or there is a conflict and none is. *)
Lemma commit_step (l : Db.Txns) (C V : mapdb) (name : Ast.str) (t : Mvcc.Transaction) (db : Database) ts :
  view_rep (Db.tables db) ((name, t) :: l) C V -> table name db = Some ts ->
  exists (o : Db.R unit) db', commit_txn (name, t) db = (o, db') /\ same_outside db db' /\
    ((o = Ok tt /\ exists m, V !! name = Some m /\ view_rep (Db.tables db') l (<[name := m]> C) V) \/
     (o = Db.db_err (Engine.conflict name) /\ view_rep (Db.tables db') ((name, t) :: l) C V)).
Proof.
  intros Hr Ht. destruct (validate_step _ C V name t db ts Hr Ht) as (o & db1 & E & Ho & Hr1 & Hs1).
  unfold commit_txn. cbn [fst snd]. unfold on_table in E. rewrite Ht in E.
  destruct (Engine.mvcc_commit name t ts) as [o1 ts1] eqn:Ec. injection E as -> Edb. destruct Ho as [->| ->].
  - rewrite (on_table_bind _ _ _ _ _ _ _ Ht Ec), Edb.
    assert (Ht1 : table name db1 = Some ts1).
    { subst db1. unfold table in *. cbn. by rewrite (find_set_named _ _ _ _ _ Ht), decide_True. }
    destruct (apply_step l C V name t db1 ts1 Hr1 Ht1) as (db2 & m & E2 & Hs2 & Hm & Hr2).
    exists (Ok tt), db2. split_and!; [done|by etransitivity|]. left. split; [done|]. by exists m.
  - exists (Db.db_err (Engine.conflict name)), db1. split_and!; [|done|by right]. unfold on_table. rewrite Ht.
    by rewrite (bind_err _ _ _ _ _ Ec), Edb.
Qed.

(** The outcome of committing table after table. *)
Definition partly (C V C' : mapdb) : Prop := forall name, C' !! name = C !! name \/ C' !! name = V !! name.

Lemma commit_all (V : mapdb) l : forall (C : mapdb) (db : Database), view_rep (Db.tables db) l C V ->
  exists (o : Db.R unit) db', Dml.m_each commit_txn l db = (o, db') /\ same_outside db db' /\
    ((o = Ok tt /\ view_rep (Db.tables db') [] V V) \/
     (exists n C', o = Db.db_err (Engine.conflict n) /\ n ∈ map fst l /\ view_rep (Db.tables db') [] C' C' /\
        partly C V C' /\ C' !! n = C !! n /\ (length l <= 1 -> C' = C))).
Proof.
  induction l as [|[name t] l IH]; intros C db Hr.
  { exists (Ok tt), db. split_and!; [done|done|]. left. split; [done|]. by rewrite <- (view_rep_auto _ _ _ Hr) in Hr. }
  destruct (txn_has_table _ _ _ _ name Hr) as [ts Ht]; [by left|].
  destruct (commit_step l C V name t db ts Hr Ht) as (o & db1 & E & Hs1 & [[-> (m & Hm & Hr1)]|[-> Hr1]]); cbn [Dml.m_each].
  - destruct (IH _ db1 Hr1) as (o2 & db2 & E2 & Hs2 & Hcase). exists o2, db2. rewrite (bind_ok _ _ _ _ _ E).
    split_and!; [done|by etransitivity|]. destruct Hcase as [?|(n & C' & -> & Hin & Hr2 & Hp & Hn & Hlen)]; [by left|].
    assert (Hnd := vr_txns _ _ _ _ Hr). cbn in Hnd. apply NoDup_cons in Hnd as [Hname _].
    right. exists n, C'. split_and!; [done|by right|done| | |].
    + intros x. destruct (decide (x = name)) as [->|Hx].
      * specialize (Hp name). rewrite lookup_insert_eq in Hp. right. destruct Hp; congruence.
      * specialize (Hp x). by rewrite lookup_insert_ne in Hp.
    + rewrite Hn, lookup_insert_ne; [done|]. intros ->. done.
    + destruct l; [by apply elem_of_nil in Hin|cbn; lia].
  - exists (Db.db_err (Engine.conflict name)), db1. rewrite (bind_err _ _ _ _ _ E). split_and!; [done|done|].
    right. exists name, C. split_and!; [done|by left|by eapply empty_view_rep|by left|done|done].
Qed.

(** Ending a session's transaction over new committed maps. *)
Lemma world_after (C C' : mapdb) (db db' : Database) sid : world_ok db C ->
  same_outside (Db.set_sessions (<[sid := Engine.no_session]> (Db.session_txns db)) db) db' ->
  view_rep (Db.tables db') [] C' C' -> world_ok db' C'.
Proof.
  intros Hw Hs Hr. assert (Hg := so_grow _ _ Hs). cbn [Db.tables Db.set_sessions] in Hg. split.
  - unfold db_rep. rewrite (so_active _ _ Hs). cbn. by eapply view_rebase; [apply Hw|exact Hr|].
  - unfold flag_ok. rewrite (so_flag _ _ Hs), (so_active _ _ Hs). apply Hw.
  - intros other s. rewrite (so_sessions _ _ Hs). cbn. destruct (decide (other = sid)) as [->|Hne].
    + rewrite lookup_insert_eq. intros [= <-]. cbn. by rewrite view_nil.
    + rewrite lookup_insert_ne by done. intros Hs'. by eapply view_rebase; [by eapply wo_sessions|exact Hr|].
Qed.

(** The whole of a session's COMMIT. *)
Lemma session_commit_ok sid db C : world_ok db C -> Engine.session_in_transaction sid db = true ->
  exists (o : Db.R unit) db' C', Engine.session_commit sid db = (o, db') /\ world_ok db' C' /\
    Engine.session_in_transaction sid db' = false /\
    (forall other, other <> sid -> Db.session_txns db' !! other = Db.session_txns db !! other) /\
    ((o = Ok tt /\ C' = session_view db sid C) \/
     (exists n, o = Db.db_err (Engine.conflict n) /\ C' !! n = C !! n /\ partly C (session_view db sid C) C' /\
        forall s, Db.session_txns db !! sid = Some s -> length (Db.s_active_txns s) <= 1 -> C' = C)).
Proof.
  intros Hw Hin. destruct (in_session _ _ Hin) as (s & Hs & Ho). unfold Engine.session_commit, session_view.
  rewrite Hs, Ho. cbn [negb]. set (db0 := Db.set_sessions (<[sid := Engine.no_session]> (Db.session_txns db)) db).
  destruct (commit_all (view (Db.s_active_txns s) C) (Db.s_active_txns s) C db0) as (o & db' & E & Hso & Hcase).
  { by apply (wo_sessions _ _ Hw sid s Hs). }
  assert (Hsess : Db.session_txns db' = <[sid := Engine.no_session]> (Db.session_txns db)) by apply (so_sessions _ _ Hso).
  assert (Hclosed : Engine.session_in_transaction sid db' = false).
  { unfold Engine.session_in_transaction. by rewrite Hsess, lookup_insert_eq. }
  assert (Hothers : forall other, other <> sid -> Db.session_txns db' !! other = Db.session_txns db !! other).
  { intros other Hne. by rewrite Hsess, lookup_insert_ne. }
  destruct Hcase as [[-> Hr]|(n & C' & -> & _ & Hr & Hp & Hn & Hlen)].
  - exists (Ok tt), db', (view (Db.s_active_txns s) C). split_and!; [exact E|by eapply world_after|done|done|by left].
  - exists (Db.db_err (Engine.conflict n)), db', C'. split_and!; [exact E|by eapply world_after|done|done|].
    right. exists n. split_and!; [done|done|done|]. intros s' Hs'. by injection Hs' as <-.
Qed.

(** COMMIT in a session ends its transaction and touches no other.  When it
    succeeds, the rows the session saw are the committed rows of every table.  When it reports a conflict on a
    table, the rows of that table are unchanged and every other table has either its old rows or the
    session's; a transaction on a single table changes nothing. *)
Theorem session_commit_publishes sid db C : world_ok db C -> Engine.session_in_transaction sid db = true ->
  exists (o : Db.R unit) db' C', Engine.session_commit sid db = (o, db') /\ world_ok db' C' /\
    Engine.session_in_transaction sid db' = false /\
    (forall other, other <> sid -> Db.session_txns db' !! other = Db.session_txns db !! other) /\
    ((o = Ok tt /\ C' = session_view db sid C) \/
     (exists n, o = Db.db_err (Engine.conflict n) /\ C' !! n = C !! n /\ partly C (session_view db sid C) C' /\
        forall s, Db.session_txns db !! sid = Some s -> length (Db.s_active_txns s) <= 1 -> C' = C)).
Proof. apply session_commit_ok. Qed.

(** ** No lost updates between sessions *)

Lemma latest_after_commit t s key : is_Some (Mvcc.writes t !! key) ->
  Mvcc.validate s (Mvcc.snapshot t) (Mvcc.reads t ++ map fst (map_to_list (Mvcc.writes t))) = true ->
  Mvcc.latest_commit_ts (snd (Mvcc.commit t s)) key = Some (wrap64 (Mvcc.clock s + 1)).
Proof.
  intros Hk Hv. unfold Mvcc.commit. rewrite Hv. cbn [snd]. unfold Mvcc.latest_commit_ts. cbn [Mvcc.versions].
  set (ts := wrap64 (Mvcc.clock s + 1)).
  assert (Hin : key ∈ map fst (map_to_list (Mvcc.writes t))).
  { destruct Hk as [v Hv']. apply list_elem_of_fmap. exists (key, v). by rewrite elem_of_map_to_list. }
  revert Hin. generalize (map_to_list (Mvcc.writes t)) (Mvcc.versions s). intros l.
  assert (Hfold : forall vs, (key ∈ map fst l \/ (chain ← vs !! key; Mvcc.commit_ts <$> last chain) = Some ts) ->
    (chain ← foldl (Mvcc.push_version ts) vs l !! key; Mvcc.commit_ts <$> last chain) = Some ts).
  { induction l as [|[k v] l IH]; intros vs Hc; cbn [foldl map fst] in *.
    - destruct Hc as [Hc|Hc]; [by apply elem_of_nil in Hc|done].
    - apply IH. destruct (decide (key = k)) as [->|Hne].
      + right. unfold Mvcc.push_version. cbn [fst snd]. rewrite lookup_insert_eq. cbn.
        by rewrite last_snoc.
      + destruct Hc as [Hc|Hc]; [apply elem_of_cons in Hc as [?|?]; [done|by left]|].
        right. unfold Mvcc.push_version. cbn [fst]. by rewrite lookup_insert_ne. }
  intros vs Hin. apply Hfold. by left.
Qed.

Lemma validate_fails s snap keys key latest : key ∈ keys -> Mvcc.latest_commit_ts s key = Some latest ->
  (snap < latest)%Z -> Mvcc.validate s snap keys = false.
Proof.
  intros Hin Hl Hlt. induction keys as [|k keys IH]; [by apply elem_of_nil in Hin|]. cbn [Mvcc.validate].
  apply elem_of_cons in Hin as [<-|Hin].
  - rewrite Hl. by rewrite (proj2 (Z.ltb_lt _ _) Hlt).
  - rewrite (IH Hin). by repeat case_match.
Qed.

(** Committing a transaction touches its own table only. *)
Lemma commit_txn_other name t db o db' other : commit_txn (name, t) db = (o, db') -> other <> name ->
  table other db' = table other db.
Proof.
  unfold commit_txn, on_table. cbn [fst snd]. destruct (table name db) as [ts|] eqn:Ht; [|by intros [= _ <-]].
  destruct ((Engine.mvcc_commit name t;; Engine.apply_writes (Mvcc.writes_iter t)) ts) as [o1 ts1]. intros [= _ <-] Hne. unfold table in *. cbn.
  by rewrite (find_set_named _ _ _ _ _ Ht), decide_False.
Qed.

Lemma commit_txn_mvcc (l : Db.Txns) (C V : mapdb) name t db ts db' : view_rep (Db.tables db) ((name, t) :: l) C V ->
  table name db = Some ts -> commit_txn (name, t) db = (Ok tt, db') ->
  Mvcc.validate (Db.mvcc ts) (Mvcc.snapshot t) (Mvcc.reads t ++ map fst (map_to_list (Mvcc.writes t))) = true /\
  exists ts', table name db' = Some ts' /\ Db.mvcc ts' = snd (Mvcc.commit t (Db.mvcc ts)).
Proof.
  intros Hr Ht. unfold commit_txn. cbn [fst snd]. unfold on_table. rewrite Ht. unfold mbind, M_bind, Engine.mvcc_commit, Mvcc.commit.
  destruct (Mvcc.validate _ _ _) eqn:Hv; cbn [snd]; [|done]. set (m' := Mvcc.mkStore _ _).
  destruct (vr_view _ _ _ _ Hr name ts Ht) as (m & w & _ & _ & Hrep & Hx & _).
  cbn [find_named] in Hx. rewrite decide_True in Hx by done.
  destruct (apply_writes_ok (Db.set_mvcc m' ts) m t w (set_mvcc_rep _ _ _ Hrep)) as (ts' & E & _ & _ & _ & Hm).
  { eapply txn_rep_grow; [exact Hx|done|cbn; lia]. }
  rewrite E. intros [= <-]. split; [done|]. exists ts'. split; [|exact Hm]. unfold table in *. cbn.
  by rewrite (find_set_named _ _ _ _ _ Ht), decide_True.
Qed.

Lemma commit_all_mvcc (V : mapdb) name t l : forall (C : mapdb) db ts db', view_rep (Db.tables db) l C V ->
  (name, t) ∈ l -> table name db = Some ts -> Dml.m_each commit_txn l db = (Ok tt, db') ->
  Mvcc.validate (Db.mvcc ts) (Mvcc.snapshot t) (Mvcc.reads t ++ map fst (map_to_list (Mvcc.writes t))) = true /\
  exists ts', table name db' = Some ts' /\ Db.mvcc ts' = snd (Mvcc.commit t (Db.mvcc ts)).
Proof.
  induction l as [|[n u] l IH]; intros C db ts db' Hr Hin Ht E; [by apply elem_of_nil in Hin|].
  cbn [Dml.m_each] in E. apply bind_inv in E as ([] & db1 & E1 & E2).
  destruct (txn_has_table _ _ _ _ n Hr) as [tsn Htn]; [by left|].
  destruct (commit_step l C V n u db tsn Hr Htn) as (o & db1' & E1' & _ & Hcase). rewrite E1 in E1'. simplify_eq.
  destruct Hcase as [[_ (m & _ & Hr1)]|[? _]]; [|done].
  assert (Hnd := vr_txns _ _ _ _ Hr). cbn in Hnd. apply NoDup_cons in Hnd as [Hout _].
  apply elem_of_cons in Hin as [[= -> ->]|Hin].
  - destruct (commit_txn_mvcc l C V _ _ _ _ _ Hr Ht E1) as (Hv & ts1 & Ht1 & Hm).
    split; [done|]. exists ts1. split; [|done]. rewrite <- Ht1. clear -E2 Hout. revert db1' E2.
    induction l as [|[n' u'] l IH]; intros db1 E2; [by injection E2 as <-|]. cbn [map fst] in Hout.
    apply not_elem_of_cons in Hout as [Hne Hout]. cbn [Dml.m_each] in E2. apply bind_inv in E2 as ([] & db2 & Ea & Eb).
    rewrite (IH Hout db2 Eb). by eapply commit_txn_other.
  - assert (Hne : name <> n) by (intros ->; apply Hout; apply list_elem_of_fmap; by exists (n, t)).
    eapply (IH _ db1'); [exact Hr1|exact Hin| |exact E2]. by rewrite (commit_txn_other _ _ _ _ _ _ E1 Hne).
Qed.

Lemma commit_all_conflict (V : mapdb) name t l : forall (C : mapdb) db ts, view_rep (Db.tables db) l C V ->
  (name, t) ∈ l -> table name db = Some ts ->
  Mvcc.validate (Db.mvcc ts) (Mvcc.snapshot t) (Mvcc.reads t ++ map fst (map_to_list (Mvcc.writes t))) = false ->
  exists n db', Dml.m_each commit_txn l db = (Db.db_err (Engine.conflict n), db').
Proof.
  intros C db ts Hr Hin Ht Hv. destruct (commit_all V l C db Hr) as (o & db' & E & _ & [[-> _]|(n & C' & -> & _)]).
  - destruct (commit_all_mvcc V name t l C db ts db' Hr Hin Ht E) as [Hv' _]. congruence.
  - by exists n, db'.
Qed.

(** First committer wins between sessions.  When two sessions have written the same row,
    and the second one's transaction began before the first one's commit, the second commit reports a
    conflict. *)
Theorem no_lost_updates a b db C name id ts sa sb ta tb : world_ok db C -> a <> b ->
  Db.session_txns db !! a = Some sa -> Db.session_txns db !! b = Some sb ->
  Db.s_in_transaction sb = true -> table name db = Some ts ->
  find_named name (Db.s_active_txns sa) = Some ta -> find_named name (Db.s_active_txns sb) = Some tb ->
  is_Some (Mvcc.writes ta !! id) -> is_Some (Mvcc.writes tb !! id) ->
  (Mvcc.snapshot tb <= Mvcc.clock (Db.mvcc ts) < 2 ^ 64 - 1)%Z -> (0 <= Mvcc.clock (Db.mvcc ts))%Z ->
  forall db1, Engine.session_commit a db = (Ok tt, db1) ->
  exists n db2, Engine.session_commit b db1 = (Db.db_err (Engine.conflict n), db2).
Proof.
  intros Hw Hab Hsa Hsb Hob Ht Hta Htb Hwa Hwb Hsnap H0 db1 E.
  assert (Hina : Engine.session_in_transaction a db = true).
  { unfold Engine.session_commit in E. rewrite Hsa in E. unfold Engine.session_in_transaction. rewrite Hsa.
    by destruct (Db.s_in_transaction sa). }
  destruct (session_commit_ok a db C Hw Hina) as (o & db1' & C1 & E' & Hw1 & _ & Hothers & _).
  rewrite E in E'. injection E' as <- <-.
  unfold Engine.session_commit in E. rewrite Hsa in E. unfold Engine.session_in_transaction in Hina. rewrite Hsa in Hina.
  rewrite Hina in E. cbn [negb] in E.
  destruct (commit_all_mvcc (view (Db.s_active_txns sa) C) name ta (Db.s_active_txns sa) C
    (Db.set_sessions (<[a := Engine.no_session]> (Db.session_txns db)) db) ts db1
    (wo_sessions _ _ Hw a sa Hsa) (find_named_elem _ _ _ Hta) Ht E) as (Hv & ts1 & Ht1 & Hm).
  rewrite <- (Hothers b) in Hsb by done. unfold Engine.session_commit. rewrite Hsb, Hob. cbn [negb].
  eapply (commit_all_conflict (view (Db.s_active_txns sb) C1) name tb _ C1 _ ts1);
    [by apply (wo_sessions _ _ Hw1 b sb)|by apply find_named_elem|exact Ht1|].
  rewrite Hm. eapply (validate_fails _ _ _ id); [|by apply latest_after_commit|].
  - apply elem_of_app. right. destruct Hwb as [v Hv']. apply list_elem_of_fmap. exists (id, v).
    by rewrite elem_of_map_to_list.
  - unfold wrap64. rewrite Z.mod_small; lia.
Qed.

End Sessions.

(** ** Examples

    [run] parses and executes statements one after the other. *)

#[local] Instance plain_fmt : Lexer.Fmt := {| Lexer.tok_debug _ := []; Lexer.f32_display _ := [] |}.
#[local] Instance plain_debug : DebugValue := fun _ => [].

Definition parse (s : string) : Ast.Statement :=
  match Parser.parse_statement (Ast.lit s) with Ok stmt => stmt | _ => Ast.ResetAll end.

(** The outcome of the last statement, and the database it leaves. *)
Definition run (stmts : list string) (db : Database) : Db.R Value.ResultSet * Database :=
  foldl (fun acc s => Engine.execute 20 false (parse s) [] (snd acc)) (Ok Engine.empty_result_set, db) stmts.

(** Each statement belongs to a session. *)
Definition run_sessions (stmts : list (Z * string)) (db : Database) : Db.R Value.ResultSet * Database :=
  foldl (fun acc s => Engine.execute_in_session 20 false s.1 (parse s.2) [] (snd acc)) (Ok Engine.empty_result_set, db) stmts.

Definition ints (o : Db.R Value.ResultSet) : option (list (list Value.Value)) :=
  match o with Ok rs => Some (Value.rows rs) | _ => None end.

(** *** Witnesses *)

(** One row id is taken; two transactions have written it. *)
Definition demo_table : TableStorage := Db.mkTable demo_schema BTree.new 1 Mvcc.new [].
Definition demo_row : row := [Value.Int 0; Value.Int 7; Value.Null].
Definition demo_txn : Mvcc.Transaction := Mvcc.write (Mvcc.begin_ Mvcc.new) 0 (Codec.mvcc_wrap_row demo_row).
Definition demo_session : Db.SessionTxn := Db.mkSession true [(Ast.lit "t", demo_txn)].
Definition demo_world : Database :=
  Db.set_sessions {[1%Z := demo_session; 2%Z := demo_session]}
    (Db.set_txn true [(Ast.lit "t", demo_txn)] (Db.set_tables [(Ast.lit "t", demo_table)] Db.empty)).
Definition demo_maps : mapdb := {[Ast.lit "t" := ∅]}.

Lemma demo_view txns : txns = [] \/ txns = [(Ast.lit "t", demo_txn)] ->
  view_rep [(Ast.lit "t", demo_table)] txns demo_maps (view txns demo_maps).
Proof.
  assert (Ht : table_rep demo_table ∅).
  { split; [apply demo_schema_ok|rewrite fmap_empty; apply tree_map_new|apply map_Forall_empty|constructor]. }
  assert (Hrow : row_ok demo_schema demo_row) by (split_and!; [done| |]; repeat constructor; cbn; lia).
  unfold demo_maps. generalize (Ast.lit "t"). intros t Htxns.
  assert (Hv : exists V, view_rep [(t, demo_table)] txns {[t := ∅]} V).
  { destruct Htxns as [->| ->].
    - exists {[t := ∅]}. split; [apply NoDup_singleton|constructor| |].
      + intros name ts. cbn. case_decide; [subst|done]. intros [= <-]. exists ∅, ∅.
        rewrite lookup_singleton_eq, overlay_empty. split_and!; try done; apply empty_txn_rep.
      + intros name. cbn. case_decide; [done|]. intros _. by rewrite lookup_singleton_ne.
    - exists {[t := overlay {[0%Z := Some demo_row]} ∅]}. split; [apply NoDup_singleton|apply NoDup_singleton| |].
      + intros name ts. cbn. case_decide; [subst|done]. intros [= <-]. exists ∅, {[0%Z := Some demo_row]}.
        rewrite !lookup_singleton_eq. cbn [find_named]. rewrite decide_True by done. split_and!; try done. split.
        * by rewrite map_fmap_singleton.
        * intros id o [<- <-]%lookup_singleton_Some. split; [done|]. by intros r [= <-].
      + intros name. cbn. case_decide; [done|]. intros _. by rewrite !lookup_singleton_ne. }
  destruct Hv as [V Hv]. by rewrite (view_rep_view _ _ _ _ Hv) in Hv.
Qed.

Lemma demo_sessions_ok : world_ok demo_world demo_maps.
Proof.
  split.
  - apply (demo_view [(Ast.lit "t", demo_txn)]). by right.
  - done.
  - intros sid s Hs. assert (s = demo_session) as ->.
    { change (({[1%Z := demo_session; 2%Z := demo_session]} : gmap Z Db.SessionTxn) !! sid = Some s) in Hs.
      apply lookup_insert_Some in Hs as [[_ <-]|[_ Hs]]; [done|]. by apply lookup_singleton_Some in Hs as [_ <-]. }
    apply (demo_view [(Ast.lit "t", demo_txn)]). by right.
Qed.

Lemma commit_is_atomic_witness :
  fst (Engine.run_commit demo_world) = Ok tt /\
  exists (o : Db.R unit) db', Engine.run_commit demo_world = (o, db') /\
    Db.in_transaction db' = false /\ Db.active_txns db' = [] /\
    (o = Ok tt /\ db_rep db' (view (Db.active_txns demo_world) demo_maps) (view (Db.active_txns demo_world) demo_maps) \/
     exists n, o = Db.db_err (Engine.conflict n) /\ db_rep db' demo_maps demo_maps).
Proof.
  split; [vm_compute; reflexivity|]. apply (commit_is_atomic demo_world demo_maps); [apply demo_sessions_ok|reflexivity].
Defined.

Lemma rollback_restores_witness :
  let db' := run_all 3 false (Ast.Begin :: [insert_two 5 6] ++ [Ast.Rollback]) (Db.new demo_schema) in
  db_rep db' demo_maps demo_maps /\ Db.in_transaction db' = false /\ Db.active_txns db' = [].
Proof.
  apply (rollback_restores 3 false [insert_two 5 6] (Db.new demo_schema) demo_maps).
  - repeat constructor; cbn; lia.
  - intros name ts Hts. cbn in Hts. case_decide; [|done]. injection Hts as <-. vm_compute. reflexivity.
  - apply (new_db_rep _ demo_schema_ok).
  - reflexivity.
Defined.

Lemma sessions_are_isolated_witness :
  let (_, db') := Engine.execute_in_session 3 false 1 (insert_two 5 6) [] demo_world in
  world_ok db' demo_maps /\ Engine.session_in_transaction 1 db' = true /\
  Db.in_transaction db' = Db.in_transaction demo_world /\ Db.active_txns db' = Db.active_txns demo_world /\
  forall other, other <> 1%Z -> Db.session_txns db' !! other = Db.session_txns demo_world !! other /\
    session_view db' other demo_maps = session_view demo_world other demo_maps.
Proof.
  apply (sessions_are_isolated 3 false 1 (insert_two 5 6) [] demo_world demo_maps).
  - apply demo_sessions_ok.
  - repeat constructor; cbn; lia.
  - intros name ts Hts. cbn in Hts. case_decide; [|done]. injection Hts as <-. vm_compute. reflexivity.
  - reflexivity.
Defined.

Lemma session_commit_publishes_witness :
  exists (o : Db.R unit) db' C', Engine.session_commit 1 demo_world = (o, db') /\ world_ok db' C' /\
    Engine.session_in_transaction 1 db' = false /\
    (forall other, other <> 1%Z -> Db.session_txns db' !! other = Db.session_txns demo_world !! other) /\
    ((o = Ok tt /\ C' = session_view demo_world 1 demo_maps) \/
     (exists n, o = Db.db_err (Engine.conflict n) /\ C' !! n = demo_maps !! n /\
        partly demo_maps (session_view demo_world 1 demo_maps) C' /\
        forall s, Db.session_txns demo_world !! 1%Z = Some s -> length (Db.s_active_txns s) <= 1 -> C' = demo_maps)).
Proof. apply (session_commit_publishes 1 demo_world demo_maps); [apply demo_sessions_ok|reflexivity]. Defined.

Lemma no_lost_updates_witness :
  exists n db2, Engine.session_commit 2 (snd (Engine.session_commit 1 demo_world)) = (Db.db_err (Engine.conflict n), db2).
Proof.
  apply (no_lost_updates 1 2 demo_world demo_maps (Ast.lit "t") 0 demo_table demo_session demo_session demo_txn demo_txn);
    first [apply demo_sessions_ok|discriminate|reflexivity|eexists; reflexivity|cbn; lia|idtac].
  all: vm_compute; repeat split; intros; discriminate.
Defined.

(** *** Views *)

Definition two_views : Database :=
  snd (run ["CREATE VIEW a AS SELECT x FROM b"; "CREATE VIEW b AS SELECT x FROM a"]%string Db.empty).

(** [SELECT x FROM view]. *)
Definition select_from (view : Ast.str) : Ast.SelectStatement :=
  Ast.mkSelect [Ast.lit "x"] false (Ast.Named view None) None [] [] [] [] [] None None None [].

Lemma view_body gpu run_ name params : name = Ast.lit "a" \/ name = Ast.lit "b" ->
  (forall other, other = Ast.lit "a" \/ other = Ast.lit "b" -> run_ (select_from other) [] [] [] None = Err Db.StackOverflow) ->
  Select.select_body gpu two_views run_ (select_from name) params [] [] None = Err Db.StackOverflow.
Proof.
  intros Hname Hrun. assert (Ha := Hrun _ (or_introl eq_refl)). assert (Hb := Hrun _ (or_intror eq_refl)).
  vm_compute in Ha, Hb. destruct Hname as [->| ->]; vm_compute; [by rewrite Hb|by rewrite Ha].
Qed.

(** The check of CREATE VIEW looks at the view's own name only, so two views
    that select from each other are accepted; selecting from either then recurses without end, whatever the
    depth of the call stack. *)
Theorem mutual_views_exhaust_the_stack fuel gpu params :
  fst (run ["CREATE VIEW a AS SELECT x FROM b"; "CREATE VIEW b AS SELECT x FROM a"]%string Db.empty)
    = Ok Engine.empty_result_set /\
  parse "SELECT x FROM a" = Ast.Select (select_from (Ast.lit "a")) /\
  fst (Engine.execute fuel gpu (parse "SELECT x FROM a") params two_views) = Err Db.StackOverflow.
Proof.
  split; [vm_compute; reflexivity|]. assert (Hp : parse "SELECT x FROM a" = Ast.Select (select_from (Ast.lit "a"))).
  { vm_compute. reflexivity. }
  split; [exact Hp|]. rewrite Hp. cbn [Engine.execute Db.read fst Select.run_select]. unfold Select.run_select.
  assert (Hall : forall f p name, name = Ast.lit "a" \/ name = Ast.lit "b" ->
    Select.run_select_scoped f gpu two_views (select_from name) p [] [] None = Err Db.StackOverflow).
  { induction f as [|f IH]; intros p name Hname; [done|]. cbn [Select.run_select_scoped].
    apply view_body; [done|]. intros other Ho. by apply IH. }
  apply Hall. by left.
Qed.

(** *** ALTER TABLE *)

(** A dropped column stays in the constraints that name it: the next INSERT
    panics. *)
Example drop_column_keeps_constraints :
  fst (run ["CREATE TABLE t (x INT NOT NULL, y INT)"; "ALTER TABLE t DROP COLUMN x"; "INSERT INTO t (y) VALUES (1)"]%string
    Db.empty) = Panic.
Proof. vm_compute. reflexivity. Qed.

(** Rows buffered before an ALTER TABLE have the old width: COMMIT writes them
    and then fails, and the table cannot be read any more. *)
Example alter_corrupts_open_transaction :
  let stmts := ["CREATE TABLE t (x INT)"; "BEGIN"; "INSERT INTO t (x) VALUES (1)"; "ALTER TABLE t ADD COLUMN y INT";
    "COMMIT"]%string in
  fst (run stmts Db.empty) = Db.db_err (Codec.CorruptRow 0) /\
  fst (run (stmts ++ ["SELECT x FROM t"%string]) Db.empty) = Db.db_err (Codec.CorruptRow 0).
Proof. vm_compute. split; reflexivity. Qed.

(** Two columns of one name are accepted; the second cannot be reached. *)
Example duplicate_columns_accepted :
  ints (fst (run ["CREATE TABLE t (x INT, x INT)"; "INSERT INTO t (x) VALUES (1)"; "SELECT * FROM t"]%string Db.empty)) =
  Some [[Value.Int 0; Value.Int 1; Value.Null]].
Proof. vm_compute. reflexivity. Qed.

(** *** Constraints *)

(** UPDATE changes a referenced key, and the reference dangles. *)
Example update_breaks_references :
  let db := snd (run ["CREATE TABLE p (k INT UNIQUE)"; "CREATE TABLE c (k INT, FOREIGN KEY (k) REFERENCES p (k))";
    "INSERT INTO p (k) VALUES (1)"; "INSERT INTO c (k) VALUES (1)"; "UPDATE p SET k = 2"]%string Db.empty) in
  ints (fst (run ["SELECT k FROM p"]%string db)) = Some [[Value.Int 2]] /\
  ints (fst (run ["SELECT k FROM c"]%string db)) = Some [[Value.Int 1]].
Proof. vm_compute. split; reflexivity. Qed.

(** The referenced columns are not checked when the table is created: INSERT
    panics. *)
Example missing_reference_panics :
  fst (run ["CREATE TABLE p (k INT)"; "CREATE TABLE c (k INT, FOREIGN KEY (k) REFERENCES p (j))";
    "INSERT INTO p (k) VALUES (1)"; "INSERT INTO c (k) VALUES (1)"]%string Db.empty) = Panic.
Proof. vm_compute. reflexivity. Qed.

(** The implicit id is assigned after the constraints were checked. *)
Example assigned_id_breaks_unique :
  ints (fst (run ["CREATE TABLE t (x INT, UNIQUE (id))"; "INSERT INTO t (id, x) VALUES (1, 5)";
    "INSERT INTO t (x) VALUES (6)"; "SELECT id FROM t"]%string Db.empty)) = Some [[Value.Int 1]; [Value.Int 1]].
Proof. vm_compute. reflexivity. Qed.

(** An UPDATE that fails keeps the rows it has already changed. *)
Example failed_update_keeps_changes :
  let stmts := ["CREATE TABLE t (x INT UNIQUE)"; "INSERT INTO t (x) VALUES (1), (2)"; "UPDATE t SET x = 3"]%string in
  fst (run stmts Db.empty) = Db.db_err (Codec.UniqueViolation (Ast.lit "x")) /\
  ints (fst (run (stmts ++ ["SELECT x FROM t"%string]) Db.empty)) = Some [[Value.Int 3]; [Value.Int 2]].
Proof. vm_compute. split; reflexivity. Qed.

(** *** Concurrent sessions *)

(** Two sessions insert the same UNIQUE key, and both commits succeed. *)
Example sessions_break_unique :
  ints (fst (run_sessions [(1%Z, "CREATE TABLE t (x INT UNIQUE)"); (1%Z, "BEGIN"); (2%Z, "BEGIN");
    (1%Z, "INSERT INTO t (x) VALUES (1)"); (2%Z, "INSERT INTO t (x) VALUES (1)"); (1%Z, "COMMIT"); (2%Z, "COMMIT");
    (1%Z, "SELECT x FROM t")]%string Db.empty)) = Some [[Value.Int 1]; [Value.Int 1]].
Proof. vm_compute. reflexivity. Qed.

(** A statement outside a transaction leaves no version in the store: the commit
    of a transaction that began before it overwrites it without a conflict. *)
Example autocommit_update_is_lost :
  ints (fst (run_sessions [(1%Z, "CREATE TABLE t (x INT)"); (1%Z, "INSERT INTO t (x) VALUES (1)"); (1%Z, "BEGIN");
    (1%Z, "UPDATE t SET x = 2"); (2%Z, "UPDATE t SET x = 3"); (1%Z, "COMMIT"); (1%Z, "SELECT x FROM t")]%string Db.empty))
  = Some [[Value.Int 2]].
Proof. vm_compute. reflexivity. Qed.

(** A session's COMMIT that meets a conflict on its second table has already
    published the first. *)
Example session_commit_is_not_atomic :
  let stmts := [(1%Z, "CREATE TABLE a (x INT)"); (1%Z, "CREATE TABLE b (x INT)"); (1%Z, "INSERT INTO b (x) VALUES (0)");
    (1%Z, "BEGIN"); (2%Z, "BEGIN"); (1%Z, "INSERT INTO a (x) VALUES (1)"); (1%Z, "UPDATE b SET x = 1");
    (2%Z, "UPDATE b SET x = 2"); (2%Z, "COMMIT"); (1%Z, "COMMIT")]%string in
  fst (run_sessions stmts Db.empty) = Db.db_err (Engine.conflict (Ast.lit "b")) /\
  ints (fst (run_sessions (stmts ++ [(1%Z, "SELECT x FROM a"%string)]) Db.empty)) = Some [[Value.Int 1]].
Proof. vm_compute. split; reflexivity. Qed.

(** *** Set operations *)

(** EXCEPT keeps duplicates. *)
Example except_keeps_duplicates :
  ints (fst (run ["CREATE TABLE t (x INT)"; "INSERT INTO t (x) VALUES (1), (1)";
    "SELECT x FROM t EXCEPT SELECT x FROM t WHERE x = 2"]%string Db.empty)) = Some [[Value.Int 1]; [Value.Int 1]].
Proof. vm_compute. reflexivity. Qed.
