(* ===== verification/DdlProof.v ===== *)
(** * DdlProof: CREATE TABLE and ALTER TABLE over finite maps

    A row of a table is seen as the map from the names of its columns to its
    values.  ALTER TABLE changes this map in every row, and the types of the
    columns with it; CREATE TABLE adds a table that holds the empty map.  Both
    leave the database alone when they report an error. *)
From Stdlib Require Import ZArith Lia Strings.Byte Strings.String.
From stdpp Require Import base numbers option list gmap.
From S2P Require Import Prelude Ast Value Expr VectorIndex BTree Mvcc Codec Db Select Dml Engine StoreProof DmlProof EngineProof.
Import Codec(storable, encode_row, Schema).
Import Value(Value, Null).
Import Db(TableStorage, Database, Failure, find_named, set_named, table, on_table).

(** ** Columns by name *)

(** Names and what stands at their places, as a map. *)
Definition named {A} (names : list Ast.str) (l : list A) : gmap Ast.str A := list_to_map (zip names l).

Lemma named_lookup {A} names (l : list A) n x : NoDup names -> length l = length names ->
  named names l !! n = Some x <-> exists i, names !! i = Some n /\ l !! i = Some x.
Proof.
  intros Hn Hl. unfold named. rewrite <- elem_of_list_to_map by (rewrite fst_zip by lia; done).
  rewrite list_elem_of_lookup. split; intros (i & Hi); exists i; [apply lookup_zip_with_Some in Hi as (a & b & E & Ha & Hb)|].
  - by injection E as -> ->.
  - apply lookup_zip_with_Some. exists n, x. by destruct Hi.
Qed.

Lemma named_snoc {A} names (l : list A) n x : length l = length names -> n ∉ names ->
  named (names ++ [n]) (l ++ [x]) = <[n := x]> (named names l).
Proof.
  intros Hl Hn. unfold named. rewrite zip_with_app by done. apply list_to_map_snoc. by rewrite fst_zip by lia.
Qed.

Lemma zip_remove_at {A B} i (k : list A) (l : list B) : length l = length k ->
  zip (remove_at i k) (remove_at i l) = remove_at i (zip k l).
Proof.
  intros Hl. unfold remove_at. rewrite zip_with_app by (rewrite !length_take; lia).
  by rewrite zip_with_take, zip_with_drop.
Qed.

Lemma named_remove {A} names (l : list A) i n x : NoDup names -> length l = length names ->
  names !! i = Some n -> l !! i = Some x ->
  named names l = <[n := x]> (named (remove_at i names) (remove_at i l)) /\
  named (remove_at i names) (remove_at i l) !! n = None.
Proof.
  intros Hn Hl Hi Hx. unfold named. rewrite zip_remove_at by done.
  assert (Hz : zip names l !! i = Some (n, x)) by (apply lookup_zip_with_Some; by exists n, x).
  assert (Hp := remove_at_perm _ _ _ Hz).
  assert (Hnd : NoDup (map fst (zip names l))) by (rewrite fst_zip by lia; done).
  assert (Hnd' : NoDup (map fst ((n, x) :: remove_at i (zip names l)))) by by rewrite <- Hp.
  split; [by rewrite (list_to_map_proper _ _ Hnd Hp)|].
  apply not_elem_of_list_to_map_1. by inversion Hnd'.
Qed.

Lemma named_drop {A} names (l : list A) i n : NoDup names -> length l = length names -> names !! i = Some n ->
  named (remove_at i names) (remove_at i l) = delete n (named names l).
Proof.
  intros Hn Hl Hi. destruct (lookup_lt_is_Some_2 l i) as [x Hx].
  { rewrite Hl. by eapply lookup_lt_Some. }
  destruct (named_remove names l i n x Hn Hl Hi Hx) as [-> Hnone]. by rewrite delete_insert_id.
Qed.

Lemma insert_remove_at {A} i (x : A) l : i < length l -> remove_at i (<[i := x]> l) = remove_at i l.
Proof.
  intros Hi. unfold remove_at. by rewrite take_insert_ge, drop_insert_lt by lia.
Qed.

Lemma nodup_rename (names : list Ast.str) i new : NoDup names -> new ∉ names -> NoDup (<[i := new]> names).
Proof.
  intros Hn Hnew. destruct (decide (i < length names)) as [Hi|Hi].
  2: { by rewrite list_insert_ge by lia. }
  destruct (lookup_lt_is_Some_2 names i Hi) as [n Hin].
  assert (Hp := remove_at_perm i new (<[i := new]> names)). rewrite list_lookup_insert_eq in Hp by done.
  specialize (Hp eq_refl). rewrite insert_remove_at in Hp by done. rewrite Hp.
  assert (Hq := remove_at_perm _ _ _ Hin). rewrite Hq in Hn, Hnew. apply NoDup_cons in Hn as [_ Hn].
  apply NoDup_cons. split; [|done]. intros H. apply Hnew. by right.
Qed.

Lemma named_rename {A} names (l : list A) i old new x : NoDup names -> length l = length names ->
  names !! i = Some old -> new ∉ names -> l !! i = Some x ->
  named (<[i := new]> names) l = <[new := x]> (delete old (named names l)).
Proof.
  intros Hn Hl Hi Hnew Hx. assert (Hlt := lookup_lt_Some _ _ _ Hi).
  destruct (named_remove (<[i := new]> names) l i new x) as [-> _];
    [by apply nodup_rename|by rewrite length_insert|by rewrite list_lookup_insert_eq|done|].
  by rewrite insert_remove_at, (named_drop names l i old) by done.
Qed.

(** ** Rows and schemas as maps *)

Definition cells (s : Schema) (r : row) : gmap Ast.str Value := named (Codec.columns s) r.
Definition typing (s : Schema) : gmap Ast.str Ast.ColumnType := named (Codec.columns s) (Codec.types s).

(** What ALTER TABLE does to a map over the columns. *)
Definition altered {A} (op : Ast.AlterTableOp) (new : A) (m : gmap Ast.str A) : gmap Ast.str A :=
  match op with
  | Ast.AddColumn col => <[Ast.cd_name col := new]> m
  | Ast.DropColumn name => delete name m
  | Ast.RenameColumn old new_name =>
      match m !! old with Some x => <[new_name := x]> (delete old m) | None => m end
  end.

(** The names an operation is about. *)
Definition touched (op : Ast.AlterTableOp) : list Ast.str :=
  match op with
  | Ast.AddColumn col => [Ast.cd_name col]
  | Ast.DropColumn name => [name]
  | Ast.RenameColumn old new_name => [old; new_name]
  end.

Lemma altered_other {A} op (new : A) m c : c ∉ touched op -> altered op new m !! c = m !! c.
Proof.
  destruct op as [col|name|old nn]; cbn [touched altered]; rewrite ?not_elem_of_cons.
  - intros [Hc _]. by rewrite lookup_insert_ne by auto.
  - intros [Hc _]. by rewrite lookup_delete_ne by auto.
  - intros (Ho & Hn & _). destruct (m !! old); [|done]. by rewrite lookup_insert_ne, lookup_delete_ne by auto.
Qed.

Lemma index_of_inv s c i : Codec.index_of s c = Some i -> Codec.columns s !! i = Some c.
Proof. intros (x & Hx & Hb & _)%position_Some. by apply bool_decide_eq_true in Hb as <-. Qed.

Lemma column_vector_cells s col r : schema_ok s -> length r = length (Codec.columns s) ->
  column_vector s col r = v ← cells s r !! col; as_vector v.
Proof.
  intros Hs Hl. unfold column_vector, cells. destruct (Codec.index_of s col) as [i|] eqn:Ei; cbn.
  - apply index_of_inv in Ei. destruct (lookup_lt_is_Some_2 r i) as [x Hx].
    { rewrite Hl. by eapply lookup_lt_Some. }
    rewrite Hx, (proj2 (named_lookup _ r col x (so_nodup _ Hs) Hl)); [done|]. by exists i.
  - destruct (named (Codec.columns s) r !! col) as [x|] eqn:Ex; [|done].
    apply named_lookup in Ex as (i & Hi & _); [|apply Hs|done].
    by rewrite (index_of_nodup s i col (so_nodup _ Hs) Hi) in Ei.
Qed.

(** ** The rewriting of the rows *)

Lemma decode_stored s r : schema_ok s -> row_ok s r -> Codec.try_decode_row (encode_row r) = Ok r.
Proof.
  intros Hs (Hl & Hr & _). rewrite <- (app_nil_r (encode_row r)). apply (Codec.decode_row_ok 0); [done|].
  rewrite Hl. apply Hs.
Qed.

Section Rewriting.
Context (f : row -> Db.R row) (g : row -> row).

Lemma reencode_rows_ok ts (m : rowmap) l : table_rep ts m -> (forall r, row_ok (Db.schema ts) r -> f r = Ok (g r)) ->
  Engine.reencode_rows f ts l = Ok (map (fun ir => (ir.1, encode_row (g ir.2))) (live m l)).
Proof.
  intros Ht Hf. induction l as [|id l IH]; [done|]. cbn [Engine.reencode_rows].
  rewrite (tree_map_get _ _ _ (tr_tree _ _ Ht)), lookup_fmap. unfold live. cbn [omap list_omap].
  destruct (m !! id) as [r|] eqn:Em; cbn; [|exact IH].
  assert (Hr : row_ok (Db.schema ts) r) by apply (tr_rows _ _ Ht id r Em).
  rewrite (decode_stored _ _ (tr_schema _ _ Ht) Hr). cbn. rewrite (Hf r Hr). cbn. by rewrite IH.
Qed.

(** The rows are inserted again one after the other. *)
Lemma insert_all_rows l : forall ts (M : gmap Z (list byte)), tree_map (Db.tree ts) M ->
  exists t', Engine.t_each (fun ir => Db.tree_insert ir.1 ir.2) l ts =
    (Ok tt, Db.mkTable (Db.schema ts) t' (Db.next_row_id ts) (Db.mvcc ts) (Db.vector_indexes ts)) /\
    tree_map t' (foldl (fun M ir => <[ir.1 := ir.2]> M) M l).
Proof.
  induction l as [|[id b] l IH]; intros ts M Ht; [exists (Db.tree ts); by destruct ts|].
  destruct (tree_map_insert _ _ id b Ht) as (t' & E & Ht'). cbn [Engine.t_each foldl fst snd].
  erewrite bind_ok by (unfold Db.tree_insert; rewrite E; reflexivity).
  apply (IH (Db.mkTable (Db.schema ts) t' (Db.next_row_id ts) (Db.mvcc ts) (Db.vector_indexes ts)) _ Ht').
Qed.

Lemma rewritten_lookup (l : list (Z * row)) : forall (M : gmap Z (list byte)) id, NoDup (map fst l) ->
  foldl (fun M ir => <[ir.1 := ir.2]> M) M (map (fun ir => (ir.1, encode_row (g ir.2))) l) !! id =
  match (list_to_map l : rowmap) !! id with Some r => Some (encode_row (g r)) | None => M !! id end.
Proof.
  induction l as [|[k r] l IH]; intros M id Hn; [done|]. cbn in Hn. apply NoDup_cons in Hn as [Hk Hn].
  cbn [map foldl fst snd]. rewrite IH by done. cbn [list_to_map foldr uncurry fst snd].
  destruct (decide (k = id)) as [<-|Hne].
  - rewrite (not_elem_of_list_to_map_1 l k) by done. by rewrite !lookup_insert_eq.
  - by rewrite !lookup_insert_ne by done.
Qed.

Lemma reencode_ok ts (m : rowmap) : table_rep ts m -> (forall r, row_ok (Db.schema ts) r -> f r = Ok (g r)) ->
  exists t', Engine.reencode f ts =
    (Ok tt, Db.mkTable (Db.schema ts) t' (Db.next_row_id ts) (Db.mvcc ts) (Db.vector_indexes ts)) /\
    tree_map t' (encode_row <$> (g <$> m)).
Proof.
  intros Ht Hf. unfold Engine.reencode. rewrite (bind_ok m_get _ ts ts ts) by done. cbv beta.
  rewrite (bind_ok (Dml.of_r _) _ ts (map (fun ir => (ir.1, encode_row (g ir.2))) (live m (Db.ids ts))) ts)
    by (unfold Dml.of_r; by rewrite (reencode_rows_ok ts m)).
  destruct (insert_all_rows (map (fun ir => (ir.1, encode_row (g ir.2))) (live m (Db.ids ts))) ts _ (tr_tree _ _ Ht))
    as (t' & E & Ht'). exists t'. split; [exact E|].
  replace (encode_row <$> (g <$> m)) with
    (foldl (fun M ir => <[ir.1 := ir.2]> M) (encode_row <$> m) (map (fun ir => (ir.1, encode_row (g ir.2))) (live m (Db.ids ts))));
    [done|].
  apply map_eq. intros id. rewrite rewritten_lookup by apply live_ids_nodup, ids_nodup. rewrite !lookup_fmap.
  assert (Hlm : (list_to_map (live m (Db.ids ts)) : rowmap) !! id = m !! id).
  { destruct (m !! id) as [r|] eqn:Em.
    - apply elem_of_list_to_map_1; [apply live_ids_nodup, ids_nodup|]. apply live_complete; [|done].
      apply (tr_rows _ _ Ht id r Em).
    - apply not_elem_of_list_to_map_1. intros ([i r] & -> & Hin)%list_elem_of_fmap.
      apply elem_of_live in Hin as [_ Hin]. cbn in Em. congruence. }
  rewrite Hlm. by destruct (m !! id).
Qed.

End Rewriting.

(** ** ALTER TABLE *)

(** A table whose rows were rewritten, under its new schema. *)
Lemma rebuilt ts (m : rowmap) (g : row -> row) s t : table_rep ts m -> schema_ok s -> tree_map t (encode_row <$> (g <$> m)) ->
  (forall r, row_ok (Db.schema ts) r -> row_ok s (g r)) ->
  (forall c, c ∈ map fst (Db.vector_indexes ts) -> forall r, row_ok (Db.schema ts) r -> cells s (g r) !! c = cells (Db.schema ts) r !! c) ->
  table_rep (Db.mkTable s t (Db.next_row_id ts) (Db.mvcc ts) (Db.vector_indexes ts)) (g <$> m).
Proof.
  intros Ht Hs Htree Hrow Hix. split; cbn; [done|done| |].
  - intros id r (r0 & <- & Hr0)%lookup_fmap_Some. destruct (tr_rows _ _ Ht id r0 Hr0) as [Hid Hr]. split; [done|]. by apply Hrow.
  - apply Forall_forall. intros [c idx] Hin. assert (Hrep := tr_indexes _ _ Ht). rewrite Forall_forall in Hrep.
    destruct (Hrep _ Hin) as [Hw Hc]. split; [done|]. cbn in *. rewrite Hc. apply map_eq. intros id.
    rewrite !lookup_column_vectors, lookup_fmap. destruct (m !! id) as [r|] eqn:Em; [|done]. cbn.
    destruct (tr_rows _ _ Ht id r Em) as [_ Hr].
    rewrite !column_vector_cells; [|done|by apply Hrow|apply Ht|apply Hr].
    rewrite (Hix c); [done| |done]. apply list_elem_of_fmap. by exists (c, idx).
Qed.

(** No vector index is on a column the operation is about: the indexes keep the
    names of columns that are dropped or renamed. *)
Definition unindexed (op : Ast.AlterTableOp) (ts : TableStorage) : Prop :=
  forall c, c ∈ touched op -> c ∉ map fst (Db.vector_indexes ts).

(** The schemas that the operation accepts. *)
Definition allowed (op : Ast.AlterTableOp) (s : Schema) : Prop :=
  match op with
  | Ast.AddColumn col => Ast.cd_name col ∉ Codec.columns s
  | Ast.DropColumn name => name ∈ tail (Codec.columns s)
  | Ast.RenameColumn old new_name => old ∈ tail (Codec.columns s) /\ new_name ∉ Codec.columns s
  end.

(** A row's width has sixteen bits. *)
Definition fits (op : Ast.AlterTableOp) (s : Schema) : Prop :=
  match op with
  | Ast.AddColumn _ => (Z.of_nat (length (Codec.columns s)) + 1 < 2 ^ 16)%Z
  | _ => True
  end.

(** The type of an added column. *)
Definition added_type (op : Ast.AlterTableOp) : Ast.ColumnType :=
  match op with Ast.AddColumn col => Ast.ctype col | _ => Ast.TInt end.

(** What an accepted operation makes of a table. *)
Definition alters (op : Ast.AlterTableOp) (ts ts' : TableStorage) (m m' : rowmap) : Prop :=
  table_rep ts' m' /\ Db.next_row_id ts' = Db.next_row_id ts /\
  typing (Db.schema ts') = altered op (added_type op) (typing (Db.schema ts)) /\
  (forall id, cells (Db.schema ts') <$> m' !! id = altered op Null ∘ cells (Db.schema ts) <$> m !! id).

Lemma alters_intro op ts (m : rowmap) (g : row -> row) s t : table_rep ts m -> unindexed op ts -> schema_ok s ->
  tree_map t (encode_row <$> (g <$> m)) ->
  (forall r, row_ok (Db.schema ts) r -> row_ok s (g r) /\ cells s (g r) = altered op Null (cells (Db.schema ts) r)) ->
  typing s = altered op (added_type op) (typing (Db.schema ts)) ->
  alters op ts (Db.mkTable s t (Db.next_row_id ts) (Db.mvcc ts) (Db.vector_indexes ts)) m (g <$> m).
Proof.
  intros Ht Hu Hs Htree Hg Hty. split; [|split; [done|split; [done|]]].
  - apply rebuilt; try done; [intros r Hr; by apply Hg|]. intros c Hc r Hr. destruct (Hg r Hr) as [_ ->].
    apply altered_other. intros Hin. by apply (Hu c).
  - intros id. cbn. rewrite lookup_fmap. destruct (m !! id) as [r|] eqn:Em; [|done]. cbn. f_equal.
    apply Hg. apply (tr_rows _ _ Ht id r Em).
Qed.

(** The slot of a column that is not the first. *)
Lemma own_column_cases name msg ts : schema_ok (Db.schema ts) ->
  (exists i, name ∈ tail (Codec.columns (Db.schema ts)) /\ Codec.columns (Db.schema ts) !! i = Some name /\ 0 < i /\
     Engine.own_column name msg ts = (Ok i, ts)) \/
  (name ∉ tail (Codec.columns (Db.schema ts)) /\ exists e, Engine.own_column name msg ts = (Db.db_err e, ts)).
Proof.
  intros Hs. unfold Engine.own_column. destruct (Codec.index_of (Db.schema ts) name) as [[|i]|] eqn:Ei.
  - right. split; [|by eexists]. apply index_of_inv in Ei. assert (Hn := so_nodup _ Hs).
    destruct (Codec.columns (Db.schema ts)) as [|c cs]; [done|]. injection Ei as ->. by apply NoDup_cons in Hn as [Hn _].
  - left. exists (S i). apply index_of_inv in Ei. split; [|split; [done|split; [lia|done]]].
    destruct (Codec.columns (Db.schema ts)) as [|c cs]; [done|]. exact (list_elem_of_lookup_2 cs i name Ei).
  - right. split; [|by eexists]. intros Hin. destruct (Codec.columns (Db.schema ts)) as [|c cs] eqn:Ec; [by apply not_elem_of_nil in Hin|].
    apply list_elem_of_lookup in Hin as [i Hi].
    rewrite (index_of_nodup _ (S i) name (so_nodup _ Hs)) in Ei; [done|by rewrite Ec].
Qed.

Lemma add_schema_ok s col : schema_ok s -> Ast.cd_name col ∉ Codec.columns s -> fits (Ast.AddColumn col) s ->
  schema_ok (Engine.set_columns (Codec.columns s ++ [Ast.cd_name col]) (Codec.types s ++ [Ast.ctype col]) s).
Proof.
  intros [H1 H2 H3 H4 H5] Hn Hf. split; cbn in *; rewrite ?length_app; cbn; try lia.
  - apply NoDup_app. split; [done|split; [|apply NoDup_singleton]]. intros c Hc ->%list_elem_of_singleton. done.
  - by rewrite lookup_app_l by lia.
Qed.

Lemma drop_schema_ok s i : schema_ok s -> 0 < i -> i < length (Codec.columns s) ->
  schema_ok (Engine.set_columns (remove_at i (Codec.columns s)) (remove_at i (Codec.types s)) s).
Proof.
  intros [H1 H2 H3 H4 H5] Hi Hl. split; cbn; rewrite ?remove_at_length by lia; try lia.
  - destruct (lookup_lt_is_Some_2 _ _ Hl) as [c Hc]. rewrite (remove_at_perm _ _ _ Hc) in H4. by apply NoDup_cons in H4 as [_ H4].
  - unfold remove_at. rewrite lookup_app_l by (rewrite length_take; lia). by rewrite lookup_take_lt by lia.
Qed.

Lemma rename_schema_ok s i new_name : schema_ok s -> new_name ∉ Codec.columns s ->
  schema_ok (Engine.set_columns (<[i := new_name]> (Codec.columns s)) (Codec.types s) s).
Proof. intros [H1 H2 H3 H4 H5] Hn. split; cbn; rewrite ?length_insert; try done. by apply nodup_rename. Qed.

(** One operation on a table. *)
Lemma alter_op_ok op ts (m : rowmap) : table_rep ts m -> unindexed op ts -> fits op (Db.schema ts) ->
  (allowed op (Db.schema ts) /\ exists ts' m', Engine.alter_op op ts = (Ok tt, ts') /\ alters op ts ts' m m') \/
  (~ allowed op (Db.schema ts) /\ exists e, Engine.alter_op op ts = (Db.db_err e, ts)).
Proof.
  intros Ht Hu Hf. assert (Hs := tr_schema _ _ Ht). destruct op as [col|name|old new_name]; cbn [Engine.alter_op allowed].
  - rewrite (bind_ok m_get _ ts ts ts) by done. cbv beta. case_decide as Hin.
    { right. split; [intros H; by apply H|]. by eexists. }
    left. split; [done|].
    destruct (reencode_ok (fun values => Ok (values ++ [Null])) (fun r => r ++ [Null]) ts m Ht ltac:(done)) as (t & E & Htree).
    do 2 eexists. split; [rewrite (bind_ok _ _ _ _ _ E); reflexivity|].
    apply (alters_intro _ ts m (fun r => r ++ [Null])
      (Engine.set_columns (Codec.columns (Db.schema ts) ++ [Ast.cd_name col]) (Codec.types (Db.schema ts) ++ [Ast.ctype col]) (Db.schema ts)) t);
      try done; [by apply add_schema_ok| |by apply named_snoc; [apply Hs|]].
    intros r (Hl & Hst & Hty). split; [|by apply named_snoc].
    split; [cbn; rewrite !length_app; cbn; lia|split; [by apply Forall_app; split; [|repeat constructor]|]].
    unfold col_types. cbn. rewrite map_app. by apply Forall2_app; [|repeat constructor].
  - destruct (own_column_cases name "cannot drop the implicit id column" ts Hs) as [(i & Hin & Hi & Hpos & E0)|[Hn [e E0]]].
    2: { right. split; [done|]. exists e. by rewrite (bind_err _ _ _ _ _ E0). }
    left. split; [done|]. assert (Hlt := lookup_lt_Some _ _ _ Hi).
    destruct (reencode_ok (Engine.remove_value i) (remove_at i) ts m Ht) as (t & E & Htree).
    { intros r (Hl & _). unfold Engine.remove_value. by rewrite decide_True by lia. }
    do 2 eexists. split; [rewrite (bind_ok _ _ _ _ _ E0), (bind_ok _ _ _ _ _ E); reflexivity|].
    apply (alters_intro _ ts m (remove_at i)
      (Engine.set_columns (remove_at i (Codec.columns (Db.schema ts))) (remove_at i (Codec.types (Db.schema ts))) (Db.schema ts)) t);
      try done; [by apply drop_schema_ok| |by apply named_drop; [apply Hs..|]].
    intros r (Hl & Hst & Hty). split; [|by apply named_drop; [apply Hs|..]].
    split; [cbn; rewrite !remove_at_length by lia; lia|split].
    + unfold remove_at. apply Forall_app. split; [by apply Forall_take|by apply Forall_drop].
    + unfold col_types, remove_at. cbn. rewrite map_app, <- firstn_map, <- skipn_map.
      apply Forall2_app; [by apply Forall2_take|by apply Forall2_drop].
  - destruct (own_column_cases old "cannot rename the implicit id column" ts Hs) as [(i & Hin & Hi & Hpos & E0)|[Hn [e E0]]].
    2: { right. split; [by intros [? _]|]. exists e. by rewrite (bind_err _ _ _ _ _ E0). }
    rewrite (bind_ok _ _ _ _ _ E0). rewrite (bind_ok m_get _ ts ts ts) by done. cbv beta.
    case_decide as Hnew; [right; split; [intros [_ H]; by apply H|by eexists]|]. left. split; [done|].
    exists (Db.mkTable (Engine.set_columns (<[i:=new_name]> (Codec.columns (Db.schema ts))) (Codec.types (Db.schema ts)) (Db.schema ts))
              (Db.tree ts) (Db.next_row_id ts) (Db.mvcc ts) (Db.vector_indexes ts)), (id <$> m).
    split; [reflexivity|].
    assert (Hren : forall A (l : list A) x, length l = length (Codec.columns (Db.schema ts)) ->
      named (<[i:=new_name]> (Codec.columns (Db.schema ts))) l = altered (Ast.RenameColumn old new_name) x (named (Codec.columns (Db.schema ts)) l)).
    { intros A l x Hl. destruct (lookup_lt_is_Some_2 l i) as [y Hy]; [rewrite Hl; by eapply lookup_lt_Some|].
      cbn [altered]. rewrite (proj2 (named_lookup _ l old y (so_nodup _ Hs) Hl)) by by exists i.
      by apply named_rename; [apply Hs|..]. }
    apply alters_intro; try done; [by apply rename_schema_ok|by rewrite map_fmap_id; apply Ht| |by apply Hren, Hs].
    intros r (Hl & Hst & Hty). split; [|by apply Hren]. split; [cbn; by rewrite length_insert|done].
Qed.

(** ** The statements *)

Lemma set_named_id {A} name (x : A) l : find_named name l = Some x -> set_named name x l = l.
Proof.
  induction l as [|[n y] l IH]; [done|]. cbn. case_decide as Hn; [by intros [= ->]; subst|]. intros H. by rewrite IH.
Qed.

Lemma set_tables_id (db : Database) : Db.set_tables (Db.tables db) db = db.
Proof. by destruct db. Qed.

(** A result, or an error that is reported. *)
Definition reported {A} (o : Db.R A) : Prop := is_ok o = true \/ exists e, o = Db.db_err e.

Lemma fold_reported {A S} (f : S -> A -> Db.R S) l : (forall s x, reported (f s x)) -> forall s, reported (Db.fold f s l).
Proof.
  intros Hf. induction l as [|x l IH]; intros s; cbn; [by left|].
  destruct (Hf s x) as [Ho|[e ->]]; [|right; by eexists]. destruct (f s x); [apply IH|done..].
Qed.

Lemma known_columns_reported cols cs : reported (Engine.known_columns cols cs).
Proof. induction cs as [|c cs IH]; cbn; [by left|]. case_decide; [done|right; by eexists]. Qed.

Lemma schema_of_reported ct : reported (Engine.schema_of ct).
Proof.
  unfold Engine.schema_of. assert (Hcols : forall s, reported (Db.fold Engine.column_def s (Ast.ct_columns ct))).
  { apply fold_reported. intros s c. apply fold_reported. intros [? ? ? pk ? ? ?] [| |]; cbn; [by left| |by left].
    destruct pk; [right; by eexists|by left]. }
  edestruct Hcols as [Ho|[e ->]]; [|right; by eexists]. destruct (Db.fold _ _ (Ast.ct_columns ct)) as [s| |]; [|done..].
  apply fold_reported. intros [cols ? ? pk ? ? ?] [cs|cs|cs ? ?|e]; cbn; [destruct pk; [right; by eexists|]|..|by left];
    (destruct (known_columns_reported cols cs) as [Hk|[e ->]]; [|right; by eexists]);
    destruct (Engine.known_columns cols cs); try done; by left.
Qed.

(** The columns that a chain of steps leaves. *)
Definition heading (s : Schema) : list Ast.str * list Ast.ColumnType := (Codec.columns s, Codec.types s).

Lemma column_constraint_heading name s c s' : Engine.column_constraint name s c = Ok s' -> heading s' = heading s.
Proof. destruct s as [? ? ? pk ? ? ?], c; cbn; [by intros [= <-]|destruct pk; [done|by intros [= <-]]|by intros [= <-]]. Qed.

Lemma table_constraint_heading s tc s' : Engine.table_constraint s tc = Ok s' -> heading s' = heading s.
Proof.
  destruct s as [cols ? ? pk ? ? ?], tc as [cs|cs|cs ? ?|e]; cbn; try (destruct pk; [done|]); try (by intros [= <-]);
    intros (_ & _ & [= <-])%obind_ok; done.
Qed.

Lemma fold_heading {A} (f : Schema -> A -> Db.R Schema) l : (forall s x s', f s x = Ok s' -> heading s' = heading s) ->
  forall s s', Db.fold f s l = Ok s' -> heading s' = heading s.
Proof.
  intros Hf. induction l as [|x l IH]; intros s s'; cbn; [by intros [= <-]|].
  intros (s1 & E1 & E)%obind_ok. rewrite (IH _ _ E). by eapply Hf.
Qed.

Lemma fold_columns l : forall s s', Db.fold Engine.column_def s l = Ok s' ->
  heading s' = (Codec.columns s ++ map Ast.cd_name l, Codec.types s ++ map Ast.ctype l).
Proof.
  induction l as [|c l IH]; intros s s'; cbn; [intros [= <-]; by rewrite !app_nil_r|].
  intros (s1 & E1 & E)%obind_ok. rewrite (IH _ _ E).
  apply (fold_heading _ _ (column_constraint_heading (Ast.cd_name c))) in E1. injection E1 as -> ->. by rewrite <- !app_assoc.
Qed.

(** The implicit column and those of the statement. *)
Definition declared (ct : Ast.CreateTableStatement) : list Ast.str * list Ast.ColumnType :=
  (Ast.lit "id" :: map Ast.cd_name (Ast.ct_columns ct), Ast.TInt :: map Ast.ctype (Ast.ct_columns ct)).

Lemma schema_of_heading ct s : Engine.schema_of ct = Ok s -> heading s = declared ct.
Proof.
  unfold Engine.schema_of. intros (s1 & E1 & E)%obind_ok. rewrite (fold_heading _ _ table_constraint_heading _ _ E).
  by rewrite (fold_columns _ _ _ E1).
Qed.

Lemma create_schema_ok ct s : Engine.schema_of ct = Ok s -> NoDup (declared ct).1 ->
  (Z.of_nat (length (declared ct).1) < 2 ^ 16)%Z -> schema_ok s.
Proof.
  intros E%schema_of_heading Hn Hw. unfold heading, declared in *. cbn [fst] in *. injection E as Ec Et.
  split; rewrite ?Ec, ?Et; try done; cbn; [by rewrite !length_map|lia].
Qed.

(** A fresh table at the end of the list. *)
Lemma view_rep_create tabs txns C V name s : view_rep tabs txns C V -> find_named name tabs = None -> schema_ok s ->
  view_rep (tabs ++ [(name, Db.new_table s)]) txns (<[name := ∅]> C) (<[name := ∅]> V).
Proof.
  intros Hv Hn Hs. destruct (vr_none _ _ _ _ Hv name Hn) as (_ & _ & Hx). split.
  - rewrite map_app. apply NoDup_app. split; [apply Hv|split; [|apply NoDup_singleton]].
    intros c Hc ->%list_elem_of_singleton. by apply find_named_None in Hn.
  - apply Hv.
  - intros other ts. rewrite find_named_app. destruct (find_named other tabs) as [ts0|] eqn:Eo.
    + intros [= <-]. assert (other <> name) by congruence. destruct (vr_view _ _ _ _ Hv other ts0 Eo) as (m & w & ?).
      exists m, w. by rewrite !lookup_insert_ne by done.
    + cbn. case_decide as Ho; [|done]. subst other. intros [= <-]. exists ∅, ∅. rewrite !lookup_insert_eq, Hx, overlay_empty.
      split_and!; try done; first [by apply new_table_rep|apply empty_txn_rep].
  - intros other. rewrite find_named_app. destruct (find_named other tabs) as [ts0|] eqn:Eo; [done|].
    cbn. case_decide as Ho; [done|]. intros _. rewrite !lookup_insert_ne by done. by apply (vr_none _ _ _ _ Hv).
Qed.

Section Statements.
Context `{DebugValue} (fuel : nat) (gpu : bool).

(** C21: Outside a transaction, for a table that will have fewer than 2^16 columns
    and has no vector index on the column that is dropped or renamed, ALTER TABLE is the operation on columns
    that it names, in the table's types and in each of its rows: ADD COLUMN adds the name with NULL, DROP COLUMN
    deletes it, RENAME COLUMN moves its value; ids, other columns and other tables stay as they are.  It is
    refused, and the database left alone, exactly when the table is unknown, when the new name exists, or when the
    old one does not or is the implicit first column's.  (A vector index on the column is left behind by the
    code, and hides rows afterwards: [stale_index_hides_rows].) *)
Theorem alter_table_changes_columns (a : Ast.AlterTableStatement) params db C o db' :
  let name := Ast.at_table a in let op := Ast.at_op a in
  db_rep db C C -> Db.active_txns db = [] ->
  (forall ts, table name db = Some ts -> unindexed op ts /\ fits op (Db.schema ts)) ->
  Engine.execute fuel gpu (Ast.AlterTable a) params db = (o, db') ->
  (exists e, o = Db.db_err e /\ db' = db /\ forall ts, table name db = Some ts -> ~ allowed op (Db.schema ts)) \/
  (o = Ok Engine.empty_result_set /\ (forall other, other <> name -> table other db' = table other db) /\
   exists ts ts' m m', table name db = Some ts /\ table name db' = Some ts' /\ C !! name = Some m /\
     allowed op (Db.schema ts) /\ alters op ts ts' m m' /\ db_rep db' (<[name := m']> C) (<[name := m']> C)).
Proof.
  intros name op Hr Ha Hpre. cbn [Engine.execute]. destruct (table name db) as [ts|] eqn:Ht.
  - destruct (Hpre ts eq_refl) as [Hu Hf]. destruct (vr_view _ _ _ _ Hr name ts Ht) as (m & w & Hm & _ & Hrep & Hx & H0).
    destruct (alter_op_ok op ts m Hrep Hu Hf) as [[Hok (ts' & m' & E & Halt)]|[Hno [e E]]].
    + rewrite (bind_ok _ _ _ _ _ (on_table_eq _ _ _ _ _ _ _ Ht E : Engine.run_alter_table a db = _)). intros [= <- <-].
      right. split; [done|]. split.
      { intros other Ho. unfold table. cbn. rewrite (find_set_named _ _ _ _ _ Ht). by rewrite decide_False by auto. }
      exists ts, ts', m, m'. split_and!; try done.
      { unfold table. cbn. rewrite (find_set_named _ _ _ _ _ Ht). by rewrite decide_True. }
      unfold db_rep in *. cbn. rewrite Ha in *. destruct Halt as (Hrep' & Hn & _).
      rewrite <- (overlay_empty m') at 2. eapply view_rep_table; [done|exact Ht|done|apply empty_txn_rep|by rewrite Hn].
    + rewrite (bind_err _ _ _ _ _ (on_table_eq _ _ _ _ _ _ _ Ht E : Engine.run_alter_table a db = _)). intros [= <- <-].
      left. exists e. split; [done|]. split; [|by intros ? [= <-]]. by rewrite (set_named_id _ _ _ Ht), set_tables_id.
  - assert (E : Engine.run_alter_table a db = (Db.db_err (Codec.UnknownTable name), db))
      by (unfold Engine.run_alter_table, on_table; fold name; by rewrite Ht).
    rewrite (bind_err _ _ _ _ _ E). intros [= <- <-]. left. by eexists.
Qed.

(** CREATE TABLE, inside a transaction or not, adds a table that holds no rows
    and whose columns are the implicit id and those declared, in order; or it reports an error, because the name is taken, a
    column is called id or a constraint is wrong, and the database is as it was. *)
Theorem create_table_adds_an_empty_map (ct : Ast.CreateTableStatement) params db C V o db' :
  let name := Ast.ct_table ct in
  db_rep db C V -> NoDup (map Ast.cd_name (Ast.ct_columns ct)) ->
  (Z.of_nat (length (Ast.ct_columns ct)) + 1 < 2 ^ 16)%Z ->
  Engine.execute fuel gpu (Ast.CreateTable ct) params db = (o, db') ->
  (db' = db /\ (exists e, o = Db.db_err e) /\
   (is_Some (table name db) \/ Ast.lit "id" ∈ map Ast.cd_name (Ast.ct_columns ct) \/ is_ok (Engine.schema_of ct) = false)) \/
  (o = Ok Engine.empty_result_set /\ table name db = None /\ C !! name = None /\
   db_rep db' (<[name := ∅]> C) (<[name := ∅]> V) /\
   (forall other, other <> name -> table other db' = table other db) /\
   exists s, table name db' = Some (Db.new_table s) /\ Engine.schema_of ct = Ok s /\ heading s = declared ct).
Proof.
  intros name Hr Hn Hw. cbn [Engine.execute]. unfold mbind, M_bind, Engine.run_create_table. fold name.
  destruct (table name db) as [ts|] eqn:Ht.
  { intros [= <- <-]. left. split; [done|]. split; [by eexists|]. left. by eexists. }
  destruct (existsb _ _) eqn:Eid.
  { intros [= <- <-]. left. split; [done|]. split; [by eexists|]. right. left.
    apply existsb_exists in Eid as (c & Hc & Hb%bool_decide_eq_true). apply list_elem_of_fmap. exists c.
    by rewrite Hb, list_elem_of_In. }
  destruct (Engine.schema_of ct) as [s|e|] eqn:Es.
  2,3: destruct (schema_of_reported ct) as [Ho|[e' Ho]]; rewrite Es in Ho; try done; intros [= <- <-]; left;
    (split; [done|split; [injection Ho as ->; by eexists|by right; right]]).
  intros [= <- <-]. right. assert (Hid : Ast.lit "id" ∉ map Ast.cd_name (Ast.ct_columns ct)).
  { intros (c & Hb & Hc)%list_elem_of_fmap. apply not_true_iff_false in Eid. apply Eid. apply existsb_exists. exists c.
    rewrite <- list_elem_of_In. split; [done|]. by apply bool_decide_eq_true. }
  assert (Hs : schema_ok s).
  { apply (create_schema_ok ct); [done|by apply NoDup_cons|]. cbn [declared fst length]. rewrite length_map. lia. }
  split; [done|]. split; [done|]. split; [by apply (vr_none _ _ _ _ Hr)|]. split; [by apply view_rep_create|]. split.
  - intros other Ho. unfold table. cbn. rewrite find_named_app. destruct (find_named other (Db.tables db)); [done|]. cbn.
    by rewrite decide_False by auto.
  - exists s. split; [|split; [done|by apply schema_of_heading]]. unfold table in *. cbn. rewrite find_named_app, Ht. cbn.
    by rewrite decide_True.
Qed.

End Statements.

(** ** Witnesses *)

(** A table with one row. *)
Definition stocked : TableStorage := snd (Dml.store_row 0 demo_row demo_table).
Definition stocked_maps : mapdb := {[Ast.lit "t" := {[0%Z := demo_row]}]}.
Definition stocked_db : Database := Db.set_tables [(Ast.lit "t", stocked)] Db.empty.

Lemma stocked_rep : db_rep stocked_db stocked_maps stocked_maps.
Proof.
  assert (Ht : table_rep demo_table ∅).
  { split; [apply demo_schema_ok|rewrite fmap_empty; apply tree_map_new|apply map_Forall_empty|constructor]. }
  assert (Hrow : row_ok (Db.schema demo_table) demo_row) by (split_and!; [done| |]; repeat constructor; cbn; lia).
  destruct (store_row_ok demo_table ∅ 0 demo_row Ht ltac:(cbn; lia) Hrow) as (ts & E & Hts & _).
  assert (ts = stocked) as -> by (unfold stocked; by rewrite E).
  change (<[0%Z := demo_row]> (∅ : rowmap)) with ({[0%Z := demo_row]} : rowmap) in Hts.
  unfold db_rep, stocked_db, stocked_maps. cbn [Db.set_tables Db.tables Db.active_txns Db.empty].
  generalize (Ast.lit "t"). intros t. split.
  - apply NoDup_singleton.
  - constructor.
  - intros name ts. cbn. case_decide as Hn; [|done]. subst name. intros [= <-]. exists {[0%Z := demo_row]}, ∅.
    rewrite lookup_singleton_eq, overlay_empty. split_and!; try done.
  - intros name. cbn. case_decide as Hn; [done|]. intros _. by rewrite lookup_singleton_ne.
Qed.

#[local] Instance ddl_debug : DebugValue := fun _ => [].

Definition add_column_y : Ast.AlterTableStatement :=
  Ast.mkAlterTable (Ast.lit "t") (Ast.AddColumn (Ast.mkColumnDef (Ast.lit "y") Ast.TText [])).

Lemma alter_table_changes_columns_witness :
  exists db' m' ts', Engine.execute 8 false (Ast.AlterTable add_column_y) [] stocked_db = (Ok Engine.empty_result_set, db') /\
    table (Ast.lit "t") db' = Some ts' /\ db_rep db' (<[Ast.lit "t" := m']> stocked_maps) (<[Ast.lit "t" := m']> stocked_maps) /\
    cells (Db.schema ts') <$> m' !! 0%Z = Some (<[Ast.lit "y" := Null]> (cells demo_schema demo_row)).
Proof.
  destruct (Engine.execute 8 false (Ast.AlterTable add_column_y) [] stocked_db) as [o db'] eqn:E.
  assert (Ho : o = Ok Engine.empty_result_set) by (change o with (o, db').1; rewrite <- E; vm_compute; reflexivity).
  destruct (alter_table_changes_columns 8 false add_column_y [] stocked_db stocked_maps o db') as [(e & He & _)|H];
    [exact stocked_rep|reflexivity| |exact E|by rewrite He in Ho|].
  - intros ts. change (table (Ast.lit "t") stocked_db = Some ts -> unindexed (Ast.at_op add_column_y) ts /\
      fits (Ast.at_op add_column_y) (Db.schema ts)). intros [= <-]. split; [|vm_compute; reflexivity].
    intros c _. apply not_elem_of_nil.
  - destruct H as (_ & _ & ts & ts' & m & m' & Ht & Ht' & Hm & _ & (_ & _ & _ & Hc) & Hr). exists db', m', ts'.
    split; [by rewrite Ho|]. split; [exact Ht'|]. split; [exact Hr|]. rewrite Hc.
    change (Some stocked = Some ts) in Ht. injection Ht as <-.
    unfold stocked_maps in Hm. rewrite lookup_singleton_eq in Hm. injection Hm as <-. reflexivity.
Defined.

Definition create_u : Ast.CreateTableStatement :=
  Ast.mkCreateTable (Ast.lit "u") [Ast.mkColumnDef (Ast.lit "a") Ast.TInt [Ast.PrimaryKey]] [].

Lemma create_table_adds_an_empty_map_witness :
  exists db', Engine.execute 8 false (Ast.CreateTable create_u) [] stocked_db = (Ok Engine.empty_result_set, db') /\
    db_rep db' (<[Ast.lit "u" := ∅]> stocked_maps) (<[Ast.lit "u" := ∅]> stocked_maps).
Proof.
  destruct (Engine.execute 8 false (Ast.CreateTable create_u) [] stocked_db) as [o db'] eqn:E.
  assert (Ho : o = Ok Engine.empty_result_set) by (change o with (o, db').1; rewrite <- E; vm_compute; reflexivity).
  destruct (create_table_adds_an_empty_map 8 false create_u [] stocked_db stocked_maps stocked_maps o db')
    as [(_ & (e & He) & _)|(_ & _ & _ & Hr & _)]; [exact stocked_rep|apply NoDup_singleton|reflexivity|exact E|by rewrite He in Ho|].
  exists db'. by rewrite Ho.
Defined.

(** ** What ALTER TABLE leaves behind *)

(** The indexes that a table of MIN_ROWS_FOR_INDEX rows gets after a write. *)
Definition indexed (db : Database) : Database :=
  match table (Ast.lit "t") db with
  | Some ts =>
      match Db.obind (Db.fetch_rows ts None (Db.ids ts)) (Db.build_indexes (Db.pending_cols ts)) with
      | Ok v => Db.set_tables [(Ast.lit "t", Db.set_indexes v ts)] db
      | _ => db
      end
  | None => db
  end.

Definition four_vectors : Database :=
  let insert := "INSERT INTO t (v) VALUES ([1.0, 0.0])"%string in
  snd (run ["CREATE TABLE t (v VECTOR)"%string; insert; insert; insert; insert] Db.empty).

Definition replace_column (db : Database) : Database :=
  snd (run ["ALTER TABLE t DROP COLUMN v"; "ALTER TABLE t ADD COLUMN v VECTOR"; "INSERT INTO t (v) VALUES ([0.0, 1.0])"]%string db).

Definition nearest (db : Database) : option (list (list Value)) :=
  ints (fst (Engine.execute 8 false (parse "SELECT id FROM t ORDER BY cosine(v, ?) LIMIT 1") [[1065353216%Z; 0%Z]] db)).

(** The index of a dropped vector column stays, and a new column of that name gets
    it: a query then looks at the rows that the old vectors were near, finds no
    vectors there and answers with nothing, where the scan without an index finds
    the row. *)
Example stale_index_hides_rows :
  nearest (replace_column four_vectors) = Some [[Value.Int 4; Value.Vector [0%Z; 1065353216%Z]]] /\
  nearest (replace_column (indexed four_vectors)) = Some [].
Proof. vm_compute. split; reflexivity. Qed.
