(* ===== verification/QueryProof.v ===== *)
(** * QueryProof: SELECT over tables

    A table, and what joins make of tables, is a relation: names and types of
    columns, and rows.  The joins are proved against their relational meaning,
    and a well-typed SELECT over tables against its declarative answer. *)
From Stdlib Require Import ZArith Lia Strings.Byte Strings.String.
From stdpp Require Import base numbers option list gmap sorting.
From S2P Require Import Prelude Ast Value Expr Aggregate Planner Exec Mvcc Codec Db Select Dml Engine StoreProof DmlProof EngineProof Lexer Parser.
Import Codec(Schema).
Import Value(Value, Int, Null).
Import Db(TableStorage, Database, Failure, find_named, table).
Import Select(cross_join, matching, outer_row, matches, keep).

(** ** Lists *)

#[export] Instance filter_perm {A} (f : A -> bool) : Proper ((≡ₚ) ==> (≡ₚ)) (List.filter f).
Proof.
  intros l l'. induction 1 as [|x l l' _ IH|x y l|l1 l2 l3 _ IH1 _ IH2]; cbn.
  - done.
  - destruct (f x); [by constructor|done].
  - destruct (f x), (f y); (done || constructor).
  - by etransitivity.
Qed.

Lemma forallb_perm {A} (f : A -> bool) l l' : l ≡ₚ l' -> forallb f l = forallb f l'.
Proof.
  induction 1 as [|x l l' _ IH|x y l|l1 l2 l3 _ IH1 _ IH2]; cbn; [done|by rewrite IH| |congruence].
  by destruct (f x), (f y).
Qed.

Lemma filter_all {A} (f : A -> bool) l : (forall x, x ∈ l -> f x = true) -> List.filter f l = l.
Proof.
  induction l as [|x l IH]; intros H; [done|]. cbn. rewrite (H x) by left. f_equal. apply IH. intros y Hy. apply H. by right.
Qed.

Lemma flat_map_perm_ext {A B} (f g : A -> list B) l : (forall x, x ∈ l -> f x ≡ₚ g x) -> flat_map f l ≡ₚ flat_map g l.
Proof.
  induction l as [|x l IH]; intros H; [done|]. cbn. rewrite (H x) by left. rewrite IH; [done|].
  intros y Hy. apply H. by right.
Qed.

(** A row of lists, each split in two. *)
Lemma flat_map_app_perm {A B} (f g : A -> list B) l : flat_map (fun x => f x ++ g x) l ≡ₚ flat_map f l ++ flat_map g l.
Proof.
  induction l as [|x l IH]; [done|]. cbn. rewrite IH, <- !app_assoc. f_equiv.
  rewrite !app_assoc. f_equiv. apply Permutation_app_comm.
Qed.

Lemma flat_map_nil {A B} (l : list A) : flat_map (fun _ => []) l = ([] : list B).
Proof. by induction l. Qed.

Lemma flat_map_transpose {A B C} (f : A -> B -> C) l l' :
  flat_map (fun x => map (f x) l') l ≡ₚ flat_map (fun y => map (fun x => f x y) l) l'.
Proof.
  induction l as [|x l IH]; cbn; [by rewrite flat_map_nil|]. rewrite IH. clear IH.
  induction l' as [|y l' IH]; [done|]. cbn. rewrite <- IH. f_equiv. rewrite !app_assoc. f_equiv. apply Permutation_app_comm.
Qed.

Lemma filter_flat_map {A B} (p : B -> bool) (f : A -> list B) l :
  List.filter p (flat_map f l) = flat_map (fun x => List.filter p (f x)) l.
Proof. induction l as [|x l IH]; [done|]. cbn. by rewrite List.filter_app, IH. Qed.

Lemma flat_map_filter {A B} (p : A -> bool) (f : A -> B) l :
  flat_map (fun x => if p x then [f x] else []) l = map f (List.filter p l).
Proof. induction l as [|x l IH]; [done|]. cbn. rewrite IH. by destruct (p x). Qed.

(** Loops whose steps succeed. *)
Lemma collect_map {A B} (f : A -> Db.R B) (g : A -> B) l : (forall x, x ∈ l -> f x = Ok (g x)) ->
  Db.collect f l = Ok (map g l).
Proof.
  induction l as [|x l IH]; intros H; [done|]. cbn. rewrite (H x) by left. cbn. rewrite IH; [done|].
  intros y Hy. apply H. by right.
Qed.

Lemma keep_filter {A} (f : A -> Db.R bool) p l : (forall x, x ∈ l -> f x = Ok (p x)) ->
  keep f l = Ok (List.filter p l).
Proof.
  induction l as [|x l IH]; intros H; [done|]. cbn. rewrite (H x) by left. cbn. rewrite IH; [done|].
  intros y Hy. apply H. by right.
Qed.

(** ** Joins *)

Abbreviation rows := (list (list Value)).

(** The relational meaning: the pairs that match, and for outer joins the rows of
    a side that match no row of the other, padded. *)
Section Spec.
Context (p : list Value -> bool).

Definition alone_left (R : rows) (l : list Value) : bool := forallb (fun r => negb (p (l ++ r))) R.
Definition alone_right (L : rows) (r : list Value) : bool := forallb (fun l => negb (p (l ++ r))) L.

Definition join_spec (jtype : Ast.JoinType) (null_left null_right : list Value) (L R : rows) : rows :=
  let matched := List.filter p (cross_join L R) in
  let left_rows := map (fun l => l ++ null_right) (List.filter (alone_left R) L) in
  let right_rows := map (fun r => null_left ++ r) (List.filter (alone_right L) R) in
  match jtype with
  | Ast.Cross => cross_join L R
  | Ast.Inner => matched
  | Ast.Left => matched ++ left_rows
  | Ast.Right => matched ++ right_rows
  | Ast.Full => matched ++ left_rows ++ right_rows
  end.

#[export] Instance cross_join_perm : Proper ((≡ₚ) ==> (≡ₚ) ==> (≡ₚ)) cross_join.
Proof.
  intros L L' HL R R' HR. unfold cross_join. rewrite HL. apply flat_map_perm_ext. intros l _. by rewrite HR.
Qed.

(** The order of the inputs does not matter. *)
#[export] Instance join_spec_perm jtype nl nr : Proper ((≡ₚ) ==> (≡ₚ) ==> (≡ₚ)) (join_spec jtype nl nr).
Proof.
  intros L L' HL R R' HR.
  assert (H1 : List.filter (alone_left R) L ≡ₚ List.filter (alone_left R') L').
  { rewrite <- HL. erewrite List.filter_ext; [done|]. intros l. by apply forallb_perm. }
  assert (H2 : List.filter (alone_right L) R ≡ₚ List.filter (alone_right L') R').
  { rewrite <- HR. erewrite List.filter_ext; [done|]. intros r. by apply forallb_perm. }
  unfold join_spec. destruct jtype; by rewrite ?H1, ?H2, ?HL, ?HR.
Qed.

Lemma filter_alone {A} (f : A -> list Value) l :
  forallb (fun r => negb (p (f r))) l = match List.filter p (map f l) with [] => true | _ => false end.
Proof. induction l as [|r l IH]; [done|]. cbn. by destruct (p (f r)). Qed.

(** One side row by row: its matches, or its padded row. *)
Lemma outer_rows_perm {A B} (f : A -> B -> list Value) (pad : A -> list Value) (l : list A) (l' : list B) :
  concat (map (fun x => outer_row (pad x) (List.filter p (map (f x) l'))) l) ≡ₚ
  List.filter p (flat_map (fun x => map (f x) l') l) ++
  map pad (List.filter (fun x => forallb (fun y => negb (p (f x y))) l') l).
Proof.
  rewrite <- flat_map_concat_map, filter_flat_map, <- flat_map_filter, <- flat_map_app_perm.
  apply flat_map_perm_ext. intros x _. rewrite filter_alone.
  destruct (List.filter p (map (f x) l')) as [|y ys]; cbn; [done|]. by rewrite app_nil_r.
Qed.
End Spec.

Section Join.
Context (on_cols qualifiers : list Ast.str) (on : Ast.Expr) (p : list Value -> bool).

Definition evaluates (L R : rows) : Prop :=
  forall l r, l ∈ L -> r ∈ R -> matches on_cols qualifiers on (l ++ r) = Ok (p (l ++ r)).

Context (L R : rows) (Hon : evaluates L R).

Lemma matching_left l : l ∈ L ->
  matching on_cols qualifiers on (fun r => l ++ r) R = Ok (List.filter p (map (fun r => l ++ r) R)).
Proof. intros Hl. apply keep_filter. intros x (r & -> & Hr)%list_elem_of_fmap. by apply Hon. Qed.

Lemma matching_right r : r ∈ R ->
  matching on_cols qualifiers on (fun l => l ++ r) L = Ok (List.filter p (map (fun l => l ++ r) L)).
Proof. intros Hr. apply keep_filter. intros x (l & -> & Hl)%list_elem_of_fmap. by apply Hon. Qed.

Lemma collect_matching :
  Db.collect (fun l => matching on_cols qualifiers on (fun r => l ++ r) R) L =
  Ok (map (fun l => List.filter p (map (fun r => l ++ r) R)) L).
Proof. apply collect_map. apply matching_left. Qed.

Lemma any_match_ok r : r ∈ R ->
  Select.any_match on_cols qualifiers on r L = Ok (negb (alone_right p L r)).
Proof.
  intros Hr. clear -Hon Hr. unfold evaluates in Hon. induction L as [|l L' IH]; [done|].
  cbn [Select.any_match alone_right forallb]. rewrite Hon by (done || left). cbn [Db.obind].
  destruct (p (l ++ r)); [done|]. cbn. apply IH. intros l' r' Hl'. apply Hon. by right.
Qed.

Lemma inner_join_ok : Select.inner_join on_cols qualifiers on L R = Ok (List.filter p (cross_join L R)).
Proof.
  unfold Select.inner_join. rewrite collect_matching. cbn. unfold cross_join.
  by rewrite filter_flat_map, flat_map_concat_map.
Qed.

Lemma left_join_ok nr : exists out, Select.left_join on_cols qualifiers on nr L R = Ok out /\
  out ≡ₚ join_spec p Ast.Left [] nr L R.
Proof.
  unfold Select.left_join. erewrite (collect_map _ (fun l => outer_row (l ++ nr) (List.filter p (map (fun r => l ++ r) R)))).
  - eexists. split; [reflexivity|]. apply (outer_rows_perm p (fun l r => l ++ r) (fun l => l ++ nr)).
  - intros l Hl. by rewrite matching_left.
Qed.

Lemma right_join_ok nl : exists out, Select.right_join on_cols qualifiers on nl L R = Ok out /\
  out ≡ₚ join_spec p Ast.Right nl [] L R.
Proof.
  unfold Select.right_join. erewrite (collect_map _ (fun r => outer_row (nl ++ r) (List.filter p (map (fun l => l ++ r) L)))).
  - eexists. split; [reflexivity|]. rewrite (outer_rows_perm p (fun r l => l ++ r) (fun r => nl ++ r)).
    unfold join_spec, cross_join. by rewrite (flat_map_transpose (fun l r : list Value => l ++ r) L R).
  - intros r Hr. by rewrite matching_right.
Qed.

(** The left rows without a match, as [zip] finds them. *)
Lemma unmatched_ok nr :
  map (fun q => q.1 ++ nr) (List.filter (fun q => bool_decide (length q.2 = 0))
    (zip L (map (fun l => List.filter p (map (fun r => l ++ r) R)) L))) =
  map (fun l => l ++ nr) (List.filter (alone_left p R) L).
Proof.
  clear Hon. induction L as [|l L' IH]; [done|]. cbn [zip zip_with map List.filter].
  assert (Ha : alone_left p R l = match List.filter p (map (fun r => l ++ r) R) with [] => true | _ => false end)
    by apply filter_alone. rewrite Ha.
  destruct (List.filter p (map (fun r => l ++ r) R)) as [|x xs]; cbn [length Init.Nat.eqb fst snd].
  - rewrite bool_decide_true by done. cbn [map fst]. by f_equal.
  - by rewrite bool_decide_false.
Qed.

Lemma full_join_ok nl nr : exists out, Select.full_join on_cols qualifiers on nl nr L R = Ok out /\
  out ≡ₚ join_spec p Ast.Full nl nr L R.
Proof.
  unfold Select.full_join. rewrite collect_matching. cbn [Db.obind]. rewrite unmatched_ok.
  erewrite (keep_filter _ (alone_right p L)).
  - eexists. split; [reflexivity|]. unfold join_spec, cross_join. by rewrite filter_flat_map, flat_map_concat_map.
  - intros r Hr. rewrite (any_match_ok r Hr). cbn. by rewrite negb_involutive.
Qed.
End Join.

(** Every kind of join computes its relational meaning. *)
Lemma join_rows_ok jtype on on_cols qualifiers p wl wr L R :
  jtype = Ast.Cross \/ (exists e, on = Some e /\ evaluates on_cols qualifiers e p L R) ->
  exists out, Select.join_rows jtype on on_cols qualifiers wl wr L R = Ok out /\
    out ≡ₚ join_spec p jtype (replicate wl Null) (replicate wr Null) L R.
Proof.
  intros H. destruct jtype.
  5: by eexists.
  all: destruct H as [?|(e & -> & He)]; [done|]; cbn [Select.join_rows Db.expect Db.obind].
  - rewrite (inner_join_ok _ _ _ _ _ _ He). by eexists.
  - by apply left_join_ok.
  - by apply right_join_ok.
  - by apply full_join_ok.
Qed.

(** ** Relations *)

Record relation := mkRel {
  rel_columns : list Ast.str;
  rel_types : list Expr.ty;
  rel_rows : rows;
}.

Definition typed_row (types : list Expr.ty) (r : list Value) : Prop :=
  Forall2 Expr.has_type r types /\ Forall Value.value_wf r.

Record rel_ok (rel : relation) : Prop := {
  ro_width : length (rel_types rel) = length (rel_columns rel);
  ro_rows : Forall (typed_row (rel_types rel)) (rel_rows rel);
}.

(** The predicate of [WHERE] or [ON]: unknown is not true. *)
Definition holds (e : Ast.Expr) (columns qualifiers : list Ast.str) (r : list Value) : bool :=
  match Expr.eval_expr e columns r qualifiers with Ok b => b | _ => false end.

(** A table: its rows in the order of their ids. *)
Definition table_rel (ts : TableStorage) (m : rowmap) : relation :=
  mkRel (Codec.columns (Db.schema ts)) (col_types (Db.schema ts)) (map snd (live m (Db.ids ts))).

Section Relations.
Context (db : Database) (V : mapdb).

(** A name in a query that stands for a table. *)
Definition lookup_rel (t : Ast.TableRef) : option relation :=
  match t with
  | Ast.Named n _ =>
      match find_named n (Db.views db), table n db, V !! n with
      | None, Some ts, Some m => Some (table_rel ts m)
      | _, _, _ => None
      end
  | Ast.Subquery _ _ => None
  end.

Section From.
Context (base : Ast.str) (qualifiers : list Ast.str).

Definition join_rel (jtype : Ast.JoinType) (t : Ast.TableRef) (on : option Ast.Expr) (left right : relation) : relation :=
  let cols := Select.new_columns (rel_columns left) t (rel_columns right) in
  let p := match on with
           | Some e => holds e (Select.qualify_all base cols) qualifiers
           | None => fun _ => true
           end in
  mkRel cols (rel_types left ++ rel_types right)
    (join_spec p jtype (replicate (length (rel_columns left)) Null) (replicate (length (rel_columns right)) Null)
       (rel_rows left) (rel_rows right)).

(** The [ON] condition compares values of equal types. *)
Definition join_typed (jtype : Ast.JoinType) (on : option Ast.Expr) (rel : relation) : bool :=
  match jtype, on with
  | Ast.Cross, _ => true
  | _, Some e => Expr.well_typed (Select.qualify_all base (rel_columns rel)) (rel_types rel) qualifiers e
  | _, None => false
  end.

(** The [FROM] clause, when it is well typed. *)
Fixpoint from_rel (joins : list Ast.Join) (left : relation) : option relation :=
  match joins with
  | [] => Some left
  | Ast.mkJoin jtype t on :: joins' =>
      right ← lookup_rel t;
      let rel := join_rel jtype t on left right in
      if join_typed jtype on rel then from_rel joins' rel else None
  end.
End From.
End Relations.

Lemma storable_wf v : Codec.storable v -> Value.value_wf v.
Proof. destruct v; cbn; try done. by intros [? _]. Qed.

Lemma table_rel_ok db C V name ts m : db_rep db C V -> table name db = Some ts -> V !! name = Some m ->
  rel_ok (table_rel ts m) /\
  Select.scan_table db name = Ok (rel_columns (table_rel ts m), rel_rows (table_rel ts m)).
Proof.
  intros Hr Ht Hm. destruct (view_table _ _ _ _ _ Hr Ht) as (m0 & w & _ & Hw & Hrep & Hx & _).
  split; [split|].
  - cbn. unfold col_types. rewrite length_map. apply (tr_schema _ _ Hrep).
  - apply Forall_forall. intros r ([id r'] & -> & [_ Hid]%elem_of_live)%list_elem_of_fmap.
    destruct (view_rows _ _ _ _ _ _ Hr Ht Hm id r' Hid) as (_ & _ & Hst & Hty). split; [done|].
    eapply Forall_impl; [exact Hst|apply storable_wf].
  - unfold Select.scan_table. rewrite Ht. cbn [Db.ok_or Db.obind].
    rewrite Hw in Hm. injection Hm as <-. by rewrite (fetch_rows_view _ _ _ _ _ Hrep Hx).
Qed.

(** Every row of a join is a row of each side, or NULLs. *)
Lemma join_spec_elem p jtype nl nr L R x : x ∈ join_spec p jtype nl nr L R ->
  exists l r, x = l ++ r /\ (l ∈ L \/ l = nl) /\ (r ∈ R \/ r = nr).
Proof.
  assert (Hc : forall x, x ∈ cross_join L R -> exists l r, x = l ++ r /\ (l ∈ L \/ l = nl) /\ (r ∈ R \/ r = nr)).
  { intros y Hy. apply list_elem_of_In, in_flat_map in Hy as (l & Hl & (r & <- & Hr)%in_map_iff).
    rewrite <- list_elem_of_In in Hl, Hr. exists l, r. auto. }
  assert (Hm : forall x, x ∈ List.filter p (cross_join L R) ->
    exists l r, x = l ++ r /\ (l ∈ L \/ l = nl) /\ (r ∈ R \/ r = nr)).
  { intros y Hy. apply Hc. apply list_elem_of_In, filter_In in Hy as [Hy _]. by apply list_elem_of_In. }
  assert (Hl : forall x, x ∈ map (fun l => l ++ nr) (List.filter (alone_left p R) L) ->
    exists l r, x = l ++ r /\ (l ∈ L \/ l = nl) /\ (r ∈ R \/ r = nr)).
  { intros y (l & -> & Hy)%list_elem_of_fmap. apply list_elem_of_In, filter_In in Hy as [Hy _].
    rewrite <- list_elem_of_In in Hy. exists l, nr. auto. }
  assert (Hr : forall x, x ∈ map (fun r => nl ++ r) (List.filter (alone_right p L) R) ->
    exists l r, x = l ++ r /\ (l ∈ L \/ l = nl) /\ (r ∈ R \/ r = nr)).
  { intros y (r & -> & Hy)%list_elem_of_fmap. apply list_elem_of_In, filter_In in Hy as [Hy _].
    rewrite <- list_elem_of_In in Hy. exists nl, r. auto. }
  unfold join_spec. destruct jtype; rewrite ?elem_of_app; naive_solver.
Qed.

Lemma typed_nulls types n : length types = n -> typed_row types (replicate n Null).
Proof.
  intros <-. split; [|by apply Forall_replicate]. apply Forall2_replicate_l; [done|].
  apply Forall_forall. intros t _. by destruct t.
Qed.

Lemma typed_app t1 t2 r1 r2 : typed_row t1 r1 -> typed_row t2 r2 -> typed_row (t1 ++ t2) (r1 ++ r2).
Proof. intros [? ?] [? ?]. split; [by apply Forall2_app|by apply Forall_app]. Qed.

Lemma join_rel_ok base qualifiers jtype t on left right : rel_ok left -> rel_ok right ->
  rel_ok (join_rel base qualifiers jtype t on left right).
Proof.
  intros [Hwl Hrl] [Hwr Hrr]. split; cbn.
  - unfold Select.new_columns. rewrite !length_app, length_map. lia.
  - apply Forall_forall. intros x (l & r & -> & Hl & Hr)%join_spec_elem. rewrite Forall_forall in Hrl, Hrr.
    apply typed_app.
    + destruct Hl as [?| ->]; [by apply Hrl|by apply typed_nulls].
    + destruct Hr as [?| ->]; [by apply Hrr|by apply typed_nulls].
Qed.

(** A well-typed predicate evaluates on the rows of its types. *)
Lemma holds_ok e columns types qualifiers r : Expr.well_typed columns types qualifiers e = true ->
  typed_row types r -> Expr.eval_expr e columns r qualifiers = Ok (holds e columns qualifiers r) /\
  exists b, Expr.eval_expr_scoped columns r [] qualifiers e = Ok b /\ default false b = holds e columns qualifiers r.
Proof.
  intros Hw [Ht _]. destruct (Expr.well_typed_evaluates columns types r qualifiers e Ht Hw) as (b & E1 & E2).
  unfold holds. rewrite E2. split; [done|]. exists b. split; [done|]. by destruct b as [[]|].
Qed.

(** ** FROM *)

Lemma typed_perm (types : list Expr.ty) (l l' : rows) : l ≡ₚ l' -> Forall (typed_row types) l -> Forall (typed_row types) l'.
Proof. intros H. by rewrite H. Qed.

Lemma resolve_ok db C V run t rel : db_rep db C V -> lookup_rel db V t = Some rel ->
  rel_ok rel /\ Select.resolve_table_ref_with_ctes db run t [] None = Ok (rel_columns rel, rel_rows rel).
Proof.
  intros Hr. destruct t as [n alias|]; [|done]. cbn [lookup_rel Select.resolve_table_ref_with_ctes List.find].
  destruct (find_named n (Db.views db)); [done|]. destruct (table n db) as [ts|] eqn:Ht; [|done].
  destruct (V !! n) as [m|] eqn:Hm; [|done]. intros [= <-]. by apply (table_rel_ok db C V n ts m).
Qed.

Lemma join_evaluates base qualifiers jtype t e left right (L : rows) :
  rel_ok left -> rel_ok right -> L ≡ₚ rel_rows left ->
  Expr.well_typed (Select.qualify_all base (Select.new_columns (rel_columns left) t (rel_columns right)))
    (rel_types (join_rel base qualifiers jtype t (Some e) left right)) qualifiers e = true ->
  let on_cols := Select.qualify_all base (Select.new_columns (rel_columns left) t (rel_columns right)) in
  evaluates on_cols qualifiers e (holds e on_cols qualifiers) L (rel_rows right).
Proof.
  intros Hl Hr HL Hw on_cols l r Hin Hin'. unfold Select.matches.
  assert (Ht : typed_row (rel_types left ++ rel_types right) (l ++ r)).
  { apply typed_app.
    - assert (HF := ro_rows _ Hl). rewrite <- HL in HF. rewrite Forall_forall in HF. by apply HF.
    - assert (HF := ro_rows _ Hr). rewrite Forall_forall in HF. by apply HF. }
  destruct (holds_ok e on_cols _ qualifiers _ Hw Ht) as [E _]. by rewrite E.
Qed.

Lemma run_joins_ok db C V run base qualifiers joins : db_rep db C V -> forall left rel (L : rows),
  from_rel db V base qualifiers joins left = Some rel -> rel_ok left -> L ≡ₚ rel_rows left ->
  exists from, Select.run_joins db run base qualifiers joins [] None (rel_columns left) L = Ok (rel_columns rel, from) /\
    from ≡ₚ rel_rows rel /\ (joins = [] -> from = L) /\ rel_ok rel.
Proof.
  intros Hdb. induction joins as [|[jtype t on] joins IH]; intros left rel L Hf Hl HL.
  { cbn in Hf. injection Hf as <-. by exists L. }
  cbn [from_rel] in Hf. destruct (lookup_rel db V t) as [right|] eqn:Ht; [|done]. cbn [mbind option_bind] in Hf.
  destruct (resolve_ok db C V run t right Hdb Ht) as [Hr Eres].
  destruct (join_typed _ _ _ _ _) eqn:Htyped; [|done].
  assert (Hj := join_rel_ok base qualifiers jtype t on left right Hl Hr).
  cbn [Select.run_joins]. rewrite Eres. cbn [Db.obind].
  set (cols := Select.new_columns (rel_columns left) t (rel_columns right)) in *.
  set (p := match on with Some e => holds e (Select.qualify_all base cols) qualifiers | None => fun _ => true end).
  destruct (join_rows_ok jtype on (Select.qualify_all base cols) qualifiers p (length (rel_columns left))
    (length (rel_columns right)) L (rel_rows right)) as (out & Eout & Hout).
  { destruct jtype; [| | | |by left]; right; (destruct on as [e|]; [|done]); exists e; split; try done;
      by apply (join_evaluates base qualifiers Ast.Inner). }
  rewrite Eout. cbn [Db.obind]. destruct (IH _ rel out Hf Hj) as (from & E & Hp & _ & Hok).
  { rewrite Hout, HL. done. }
  exists from. split; [exact E|]. done.
Qed.

(** ** WHERE *)

Lemma where_plain run columns row params outer ctes scope_columns cache qualifiers e types n :
  Expr.well_typed columns types qualifiers e = true ->
  Select.eval_where run columns row params outer ctes scope_columns cache qualifiers e n =
  (Select.of_exec (Expr.eval_expr_scoped columns row outer qualifiers e), n).
Proof.
  induction e; intros Hw; try done; cbn [Expr.well_typed Select.eval_where Expr.eval_expr_scoped] in *.
  - apply andb_true_iff in Hw as [H1 H2]. specialize (IHe1 H1). specialize (IHe2 H2).
    unfold mbind, M_bind. rewrite IHe1. unfold Expr.both.
    destruct (Expr.eval_expr_scoped columns row outer qualifiers e1); try done. cbn. rewrite IHe2.
    by destruct (Expr.eval_expr_scoped columns row outer qualifiers e2).
  - apply andb_true_iff in Hw as [H1 H2]. specialize (IHe1 H1). specialize (IHe2 H2).
    unfold mbind, M_bind. rewrite IHe1. unfold Expr.both.
    destruct (Expr.eval_expr_scoped columns row outer qualifiers e1); try done. cbn. rewrite IHe2.
    by destruct (Expr.eval_expr_scoped columns row outer qualifiers e2).
  - specialize (IHe Hw). unfold mbind, M_bind. rewrite IHe.
    by destruct (Expr.eval_expr_scoped columns row outer qualifiers e).
Qed.

Lemma no_subqueries columns types qualifiers e : Expr.well_typed columns types qualifiers e = true ->
  Select.walk_subqueries e = [].
Proof.
  induction e; cbn; try done.
  - intros [H1 H2]%andb_true_iff. by rewrite IHe1, IHe2.
  - intros [H1 H2]%andb_true_iff. by rewrite IHe1, IHe2.
Qed.

(** The rows a [WHERE] clause keeps. *)
Definition kept (e : option Ast.Expr) (columns qualifiers : list Ast.str) (l : rows) : rows :=
  match e with Some e => List.filter (holds e columns qualifiers) l | None => l end.

Lemma filter_rows_ok run e columns types params ctes scope_columns qualifiers (l : rows) :
  (forall x, e = Some x -> Expr.well_typed columns types qualifiers x = true) -> Forall (typed_row types) l ->
  Select.filter_rows run e columns params [] ctes scope_columns qualifiers l = Ok (kept e columns qualifiers l).
Proof.
  intros He Hl. destruct e as [e|]; [|done]. specialize (He e eq_refl). cbn [Select.filter_rows kept].
  unfold Select.build_subquery_cache. rewrite (no_subqueries _ _ _ _ He). cbn [Db.collect Db.obind].
  apply keep_filter. intros r Hr. rewrite Forall_forall in Hl. unfold Select.where_true.
  rewrite (where_plain _ _ _ _ _ _ _ _ _ _ types) by done. cbn [fst].
  destruct (holds_ok e columns types qualifiers r He (Hl r Hr)) as [_ (b & -> & Hb)]. cbn. by rewrite Hb.
Qed.

(** ** The whole statement *)

(** A [SELECT] of named columns from joined tables: no grouping, window
    functions, vector search or CTEs. *)
Record plain (stmt : Ast.SelectStatement) : Prop := {
  pl_cosine : Ast.order_by_cosine stmt = None;
  pl_ctes : Ast.with_ctes stmt = [];
  pl_windows : Ast.window_funcs stmt = [];
  pl_group : Ast.group_by stmt = [];
  pl_aggregates : Ast.aggregates stmt = [];
  pl_having : Ast.having stmt = None;
}.

(** The names that may qualify a column. *)
Definition qualifiers_of (stmt : Ast.SelectStatement) : list Ast.str :=
  Ast.name (Ast.table stmt) :: map (fun j => let '(Ast.mkJoin _ t _) := j in Ast.name t) (Ast.joins stmt).

(** The relation of the [FROM] clause. *)
Definition from_of (db : Database) (V : mapdb) (stmt : Ast.SelectStatement) : option relation :=
  left ← lookup_rel db V (Ast.table stmt);
  from_rel db V (Ast.name (Ast.table stmt)) (qualifiers_of stmt) (Ast.joins stmt) left.

(** The other clauses type-check against it. *)
Record clauses_typed (stmt : Ast.SelectStatement) (rel : relation) : Prop := {
  ct_where : forall e, Ast.filter stmt = Some e ->
    Expr.well_typed (rel_columns rel) (rel_types rel) (qualifiers_of stmt) e = true;
  ct_columns : Ast.star stmt = false -> Forall (fun c => c ∈ rel_columns rel) (Ast.columns stmt);
  ct_order : Forall (fun ob => Ast.ob_column ob ∈ Exec.out_columns stmt (rel_columns rel)) (Ast.order_by stmt);
}.

(** The rows of the answer, before they are sorted and cut. *)
Definition selected (stmt : Ast.SelectStatement) (rel : relation) (from : rows) : rows :=
  map (Exec.project stmt (rel_columns rel)) (kept (Ast.filter stmt) (rel_columns rel) (qualifiers_of stmt) from).

Lemma typed_wide (types : list Expr.ty) (cols : list Ast.str) r : length types = length cols -> typed_row types r ->
  Exec.wide (length cols) r.
Proof. intros Hl [Ht Hw]. split; [|done]. rewrite <- Hl, (Forall2_length _ _ _ Ht). done. Qed.

Lemma plan_stmt_answer stmt cols (l : rows) :
  Exec.answer (Select.plan_stmt stmt) (Value.mkTable cols l) = map (Exec.project stmt cols) l.
Proof.
  unfold Exec.answer. cbn [Value.t_columns Value.t_rows]. destruct stmt. cbn [Select.plan_stmt Ast.filter Exec.keep].
  by rewrite filter_all.
Qed.

Lemma kept_typed e columns qualifiers types (l : rows) : Forall (typed_row types) l ->
  Forall (typed_row types) (kept e columns qualifiers l).
Proof.
  destruct e as [e|]; [|done]. cbn. rewrite !Forall_forall. intros H r Hr. apply H.
  apply list_elem_of_In, filter_In in Hr as [Hr _]. by apply list_elem_of_In.
Qed.

Lemma run_stages_ok run gpu stmt params rel (from : rows) : plain stmt -> rel_ok rel -> clauses_typed stmt rel ->
  Forall (typed_row (rel_types rel)) from ->
  exists keys full,
    Forall2 (fun ob i => Exec.out_columns stmt (rel_columns rel) !! i.1 = Some (Ast.ob_column ob) /\
      i.2 = Ast.descending ob) (Ast.order_by stmt) keys /\
    full ≡ₚ selected stmt rel from /\ StronglySorted (Exec.le_rows keys) full /\
    (forall r, Exec.wide (length (Exec.out_columns stmt (rel_columns rel))) r ->
       List.filter (Exec.ties keys r) full = List.filter (Exec.ties keys r) (selected stmt rel from)) /\
    Select.run_stages gpu run stmt params [] [] (qualifiers_of stmt) (rel_columns rel) from =
      Ok (Value.mkResult (Exec.out_columns stmt (rel_columns rel))
            (match Ast.limit stmt with Some n => take (Z.to_nat n) full | None => full end) None).
Proof.
  intros Hp Hrel Hc Hfrom. set (l := kept (Ast.filter stmt) (rel_columns rel) (qualifiers_of stmt) from).
  destruct (Exec.select_pipeline_ok (Select.plan_stmt stmt) (Value.mkTable (rel_columns rel) l))
    as (keys & full & Hk & Hperm & Hsort & Hstable & Hrun); try (by destruct stmt).
  - eapply Forall_impl; [apply (kept_typed _ _ _ _ _ Hfrom)|]. intros r. apply typed_wide, Hrel.
  - destruct stmt. apply (ct_columns _ _ Hc).
  - destruct stmt. apply (ct_order _ _ Hc).
  - exists keys, full. rewrite plan_stmt_answer in Hperm, Hstable. cbn [Value.t_columns] in *.
    split_and!; [by destruct stmt|done|done|by destruct stmt|].
    unfold Select.run_stages. rewrite (filter_rows_ok run (Ast.filter stmt) _ (rel_types rel)) by (done || apply Hc).
    cbn [Db.obind]. rewrite (pl_windows _ Hp), (pl_group _ Hp), (pl_aggregates _ Hp), (pl_having _ Hp).
    cbn [Db.obind Value.t_columns Value.t_rows Select.filter_rows]. fold l.
    destruct (Hrun gpu (Planner.mkStats (Z.of_nat (length l)))) as (plan & -> & He).
    cbn [Select.of_plan Db.of_tree Db.obind]. rewrite He. by destruct stmt.
Qed.

(** C2: A well-typed plain [SELECT] over tables never fails and changes nothing.  (Plain: no grouping,
    aggregates, HAVING, window calls, common table expressions or cosine ordering; well-typed: its columns exist,
    its conditions are well-typed, without subqueries, and it orders by columns that it outputs.)  It returns the declarative answer over the rows
    that the statement sees, the open transaction's own writes included: the relational join of the tables of
    [FROM] (in id order when there is one), the rows on which [WHERE] is true, projected to the named columns,
    stably sorted by the [ORDER BY] keys and cut to the [LIMIT]. *)
Theorem select_over_tables `{DebugValue} fuel gpu stmt params db C V rel :
  db_rep db C V -> plain stmt -> from_of db V stmt = Some rel -> clauses_typed stmt rel ->
  exists from keys full,
    from ≡ₚ rel_rows rel /\ (Ast.joins stmt = [] -> from = rel_rows rel) /\
    Forall2 (fun ob i => Exec.out_columns stmt (rel_columns rel) !! i.1 = Some (Ast.ob_column ob) /\
      i.2 = Ast.descending ob) (Ast.order_by stmt) keys /\
    full ≡ₚ selected stmt rel from /\ StronglySorted (Exec.le_rows keys) full /\
    (forall r, Exec.wide (length (Exec.out_columns stmt (rel_columns rel))) r ->
       List.filter (Exec.ties keys r) full = List.filter (Exec.ties keys r) (selected stmt rel from)) /\
    Engine.execute (S fuel) gpu (Ast.Select stmt) params db =
      (Ok (Value.mkResult (Exec.out_columns stmt (rel_columns rel))
            (match Ast.limit stmt with Some n => take (Z.to_nat n) full | None => full end) None), db).
Proof.
  intros Hr Hp Hfrom Hc. unfold from_of in Hfrom.
  destruct (lookup_rel db V (Ast.table stmt)) as [left|] eqn:Hl; [|done]. cbn [mbind option_bind] in Hfrom.
  set (run := Select.run_select_scoped fuel gpu db).
  destruct (resolve_ok db C V run _ _ Hr Hl) as [Hleft Eres].
  destruct (run_joins_ok db C V run _ _ _ Hr left rel (rel_rows left) Hfrom Hleft ltac:(done))
    as (from & Ej & Hperm & Hone & Hrel).
  assert (Hty : Forall (typed_row (rel_types rel)) from) by by rewrite Hperm; apply Hrel.
  destruct (run_stages_ok run gpu stmt params rel from Hp Hrel Hc Hty) as (keys & full & H1 & H2 & H3 & H4 & E).
  exists from, keys, full. split_and!; try done.
  { intros Hj. rewrite Hone by done. rewrite Hj in Hfrom. cbn in Hfrom. by injection Hfrom as ->. }
  cbn [Engine.execute]. unfold Db.read. f_equal. unfold Select.run_select. cbn [Select.run_select_scoped].
  fold run. unfold Select.select_body. rewrite (pl_cosine _ Hp), (pl_ctes _ Hp).
  cbn [Select.merge_ctes Select.validate_ctes foldl Db.obind]. rewrite Eres. cbn [Db.obind].
  unfold qualifiers_of in Ej, E. rewrite Ej. cbn [Db.obind]. exact E.
Qed.

(** C22: On a condition that evaluates on every pair of rows, each kind of join returns, up
    to order, the pairs that match, and the outer joins one row padded with NULLs for each row without a match
    on the side they keep. *)
Theorem joins_are_relational jtype on on_cols qualifiers p wl wr L R : evaluates on_cols qualifiers on p L R ->
  exists out, Select.join_rows jtype (Some on) on_cols qualifiers wl wr L R = Ok out /\
    out ≡ₚ join_spec p jtype (replicate wl Null) (replicate wr Null) L R.
Proof. intros He. apply join_rows_ok. right. by exists on. Qed.

(** ** Examples *)

#[local] Instance query_fmt : Lexer.Fmt := {| Lexer.tok_debug _ := []; Lexer.f32_display _ := [] |}.
#[local] Instance query_debug : DebugValue := fun _ => [].

Definition query (s : string) : Ast.SelectStatement :=
  match Parser.parse_statement (Ast.lit s) with
  | Ok (Ast.Select q) => q
  | _ => Ast.mkSelect [] true (Ast.Named [] None) None [] [] [] [] [] None None None []
  end.

(** The table of [demo_txn], whose row is only in the open transaction. *)
Definition open_db : Database := Db.set_txn true [(Ast.lit "t", demo_txn)] (Db.set_tables [(Ast.lit "t", demo_table)] Db.empty).
Definition open_view : mapdb := view [(Ast.lit "t", demo_txn)] demo_maps.

Definition pair_query : Ast.SelectStatement :=
  query "SELECT x, b.x FROM t LEFT JOIN t AS b ON t.x = b.parent WHERE b.x IS NULL ORDER BY x DESC LIMIT 5".

Lemma open_db_rep : db_rep open_db demo_maps open_view.
Proof. apply (demo_view [(Ast.lit "t", demo_txn)]). by right. Qed.

Definition pair_rel : relation := default (mkRel [] [] []) (from_of open_db open_view pair_query).

Lemma select_over_tables_witness :
  length (rel_rows pair_rel) = 1 /\
  exists full, Engine.execute 1 false (Ast.Select pair_query) [] open_db =
    (Ok (Value.mkResult [Ast.lit "x"; Ast.lit "b.x"] full None), open_db) /\ length full <= 5.
Proof.
  split; [vm_compute; reflexivity|].
  destruct (select_over_tables 0 false pair_query [] open_db demo_maps open_view pair_rel)
    as (from & keys & full & _ & _ & _ & _ & _ & _ & E).
  - apply open_db_rep.
  - split; vm_compute; reflexivity.
  - vm_compute. reflexivity.
  - split.
    + intros e He. vm_compute in He. injection He as <-. vm_compute. reflexivity.
    + intros _. apply (bool_decide_unpack _). vm_compute. exact I.
    + apply (bool_decide_unpack _). vm_compute. exact I.
  - assert (Ec : Exec.out_columns pair_query (rel_columns pair_rel) = [Ast.lit "x"; Ast.lit "b.x"])
      by (vm_compute; reflexivity).
    assert (El : Ast.limit pair_query = Some 5%Z) by (vm_compute; reflexivity).
    rewrite Ec, El in E. exists (take (Z.to_nat 5) full). split; [exact E|]. rewrite length_take. apply Nat.le_min_l.
Defined.

Lemma joins_are_relational_witness :
  let p := fun r : list Value => bool_decide (r !! 0 = r !! 1) in
  exists out, Select.join_rows Ast.Full (Some (Ast.CmpColumn (Ast.lit "t.x") Ast.Eq (Ast.lit "u.y")))
      [Ast.lit "t.x"; Ast.lit "u.y"] [Ast.lit "t"; Ast.lit "u"] 1 1 [[Int 1]; [Int 2]] [[Int 2]; [Int 3]] = Ok out /\
    out ≡ₚ [[Int 2; Int 2]; [Int 1; Null]; [Null; Int 3]].
Proof.
  intros p. change ([[Int 2; Int 2]; [Int 1; Null]; [Null; Int 3]]) with
    (join_spec p Ast.Full (replicate 1 Null) (replicate 1 Null) [[Int 1]; [Int 2]] [[Int 2]; [Int 3]]).
  apply joins_are_relational. intros l r Hl Hr.
  repeat (apply elem_of_cons in Hl as [->|Hl]); try (by apply elem_of_nil in Hl);
    repeat (apply elem_of_cons in Hr as [->|Hr]); try (by apply elem_of_nil in Hr); vm_compute; reflexivity.
Defined.

(** The projection comes before the sort: [ORDER BY] sees the selected columns
    only. *)
Example order_by_needs_selected_column :
  fst (run ["CREATE TABLE t (x INT, y INT)"; "SELECT y FROM t ORDER BY x"]%string Db.empty) =
  Db.db_err (Codec.UnknownColumn (Ast.lit "x")).
Proof. vm_compute. reflexivity. Qed.

(** A join qualifies the columns of the joined table only: the first table's
    cannot be selected by their qualified names. *)
Example base_table_is_not_qualified :
  fst (run ["CREATE TABLE t (x INT)"; "CREATE TABLE u (x INT)"; "SELECT t.x FROM t JOIN u ON t.x = u.x"]%string Db.empty) =
  Db.db_err (Codec.UnknownColumn (Ast.lit "t.x")).
Proof. vm_compute. reflexivity. Qed.

(** Two CTEs that read each other pass the check against recursion. *)
Example mutual_ctes_overflow :
  fst (run ["WITH a AS (SELECT x FROM b), b AS (SELECT x FROM a) SELECT x FROM a"]%string Db.empty) =
  Err Db.StackOverflow.
Proof. vm_compute. reflexivity. Qed.

(** Vector search reads the committed rows: a transaction does not find its own
    insert. *)
Example topk_misses_own_writes :
  let stmts := ["CREATE TABLE t (v VECTOR)"; "BEGIN"; "INSERT INTO t (v) VALUES ([1.0, 0.0])"]%string in
  ints (fst (run (stmts ++ ["SELECT id FROM t"%string]) Db.empty)) = Some [[Int 0]] /\
  ints (fst (Engine.execute 20 false (Ast.Select (query "SELECT id FROM t ORDER BY cosine(v, ?) LIMIT 1")) [[0; 0]%Z]
    (snd (run stmts Db.empty)))) = Some [].
Proof. vm_compute. split; reflexivity. Qed.
