(* ===== verification/QueryTerm.v ===== *)
(** * QueryTerm: how deep a query calls itself

    A query runs the queries inside it, the bodies of its CTEs and the bodies of
    the views it names.  [calls] lists them from the syntax and the views alone;
    when no chain of calls is longer than [n], a stack of depth [n] is enough:
    the query ends, and with the same result on every deeper stack. *)
From Stdlib Require Import ZArith Lia Strings.Byte Strings.String.
From stdpp Require Import base numbers option list gmap.
From S2P Require Import Prelude Ast Value Lexer Parser Expr VectorIndex Aggregate Planner Exec Window Codec Db Select Dml Engine StoreProof DmlProof EngineProof.
Import Ast(str, lit, f32, SelectStatement, CTE).
Import Value(Value, ResultSet).
Import Db(Database, Failure, find_named, obind).
Import Select(R, Run, Outer, RecursiveBinding, cte_name).

(** ** Results that no deeper stack changes *)

Definition stable {A} (a b : R A) : Prop := a = b /\ a <> Err Db.StackOverflow.

Lemma stable_ok {A} (a : A) : stable (Ok a) (Ok a).
Proof. done. Qed.

Lemma stable_bind {A B} (a a' : R A) (f f' : A -> R B) :
  stable a a' -> (forall x, a = Ok x -> stable (f x) (f' x)) -> stable (obind a f) (obind a' f').
Proof. intros [<- Ha] Hf. destruct a as [x|e|]; cbn; [by apply Hf|by split; [|congruence]|done]. Qed.

Lemma stable_refl {A} (a : R A) : a <> Err Db.StackOverflow -> stable a a.
Proof. done. Qed.

Lemma of_exec_stable {A} (o : outcome Value.ExecError A) : stable (Select.of_exec o) (Select.of_exec o).
Proof. apply stable_refl. by destruct o. Qed.

Lemma of_tree_stable {A} (o : outcome Empty_set A) : stable (Db.of_tree o) (Db.of_tree o).
Proof. apply stable_refl. by destruct o. Qed.

Lemma of_db_stable {A} (o : outcome Codec.DbError A) : stable (Db.of_db o) (Db.of_db o).
Proof. apply stable_refl. by destruct o. Qed.

Lemma at_stable {A} (l : list A) i : stable (Db.at_ l i) (Db.at_ l i).
Proof. apply stable_refl. unfold Db.at_. by case_match. Qed.

Lemma expect_stable {A} (o : option A) : stable (Db.expect o) (Db.expect o).
Proof. apply stable_refl. by destruct o. Qed.

Lemma ok_or_stable {A} (o : option A) e : stable (Db.ok_or o e) (Db.ok_or o e).
Proof. apply stable_refl. by destruct o. Qed.

Lemma db_err_stable {A} e : stable (Db.db_err e : R A) (Db.db_err e).
Proof. apply stable_refl. done. Qed.

Lemma panic_stable {A} : stable (Panic : R A) Panic.
Proof. apply stable_refl. done. Qed.

Lemma collect_stable {A B} (f f' : A -> R B) l : (forall x, x ∈ l -> stable (f x) (f' x)) ->
  stable (Db.collect f l) (Db.collect f' l).
Proof.
  induction l as [|x l IH]; intros H; [done|]. cbn. apply stable_bind; [apply H; by left|]. intros y _.
  apply stable_bind; [|done]. apply IH. intros z Hz. apply H. by right.
Qed.

Lemma keep_stable {A} (f f' : A -> R bool) l : (forall x, stable (f x) (f' x)) ->
  stable (Select.keep f l) (Select.keep f' l).
Proof.
  intros H. induction l as [|x l IH]; [done|]. cbn. apply stable_bind; [done|]. intros b _. by apply stable_bind.
Qed.

Create HintDb stable discriminated.
#[export] Hint Resolve stable_ok of_exec_stable of_tree_stable of_db_stable at_stable expect_stable ok_or_stable
  db_err_stable panic_stable : stable.
#[export] Hint Extern 2 (stable (Err _) (Err _)) => (by apply stable_refl) : stable.

(** Walk through a composition. *)
Ltac stable :=
  repeat first
    [ solve [eauto with stable]
    | apply stable_bind; [|intros ? _]
    | apply collect_stable; intros ? _
    | apply keep_stable; intros ?
    | case_match ].

(** The same for computations with a counter. *)
Definition stable_w {A} (c c' : M nat Failure A) : Prop := forall n, c n = c' n /\ fst (c n) <> Err Db.StackOverflow.

Lemma stable_w_bind {A B} (c c' : M nat Failure A) (f f' : A -> M nat Failure B) :
  stable_w c c' -> (forall x, stable_w (f x) (f' x)) -> stable_w (c ≫= f) (c' ≫= f').
Proof.
  intros Hc Hf n. unfold mbind, M_bind. destruct (Hc n) as [<- Hn]. destruct (c n) as [[x|e|] m]; cbn in *;
    [by apply Hf|by split; [|congruence]|done].
Qed.

Lemma stable_w_of_r {A} (o o' : R A) : stable o o' -> stable_w (Select.of_r o) (Select.of_r o').
Proof. by intros [<- H] n. Qed.

Lemma stable_w_ret {A} (a : A) : stable_w (mret a) (mret a).
Proof. by intros n. Qed.

Lemma stable_w_next : stable_w Select.next_index Select.next_index.
Proof. by intros n. Qed.

Ltac stable_w :=
  repeat first
    [ apply stable_w_ret | apply stable_w_next
    | apply stable_w_of_r; solve [stable]
    | apply stable_w_bind; [|intros ?]
    | apply stable_w_of_r; stable
    | case_match ].

(** ** The calls of a query *)

(** A query, the CTEs in scope, and the name bound to the rows of a recursion. *)
Definition node : Type := SelectStatement * list CTE * option str.

Definition bound_of (b : option RecursiveBinding) : option str := (fun r => fst (fst r)) <$> b.

Section Calls.
Context (db : Database).

Definition table_calls (ctes : list CTE) (bound : option str) (t : Ast.TableRef) : list node :=
  match t with
  | Ast.Named name _ =>
      if decide (bound = Some name) then []
      else
        match List.find (fun c => bool_decide (cte_name c = name)) ctes with
        | Some (Ast.mkCTE n q (Some (_, rq))) => [(q, ctes, None); (rq, ctes, Some n)]
        | Some (Ast.mkCTE _ q None) => [(q, ctes, None)]
        | None => match find_named name (Db.views db) with Some q => [(q, [], None)] | None => [] end
        end
  | Ast.Subquery q _ => [(q, ctes, None)]
  end.

Fixpoint expr_calls (ctes : list CTE) (e : Ast.Expr) : list node :=
  match e with
  | Ast.And l r | Ast.Or l r => expr_calls ctes l ++ expr_calls ctes r
  | Ast.Not e => expr_calls ctes e
  | Ast.Exists_ q | Ast.InSubquery _ q | Ast.ScalarCmp _ _ q => [(q, ctes, None)]
  | _ => []
  end.

Definition clause_calls (ctes : list CTE) (e : option Ast.Expr) : list node :=
  match e with Some e => expr_calls ctes e | None => [] end.

Definition join_calls (ctes : list CTE) (bound : option str) (joins : list Ast.Join) : list node :=
  flat_map (fun j => let '(Ast.mkJoin _ t _) := j in table_calls ctes bound t) joins.

Definition calls (n : node) : list node :=
  let '(stmt, outer_ctes, bound) := n in
  match Ast.order_by_cosine stmt with
  | Some _ =>
      match Ast.table stmt with Ast.Subquery q _ => [(q, [], None)] | Ast.Named _ _ => [] end
      ++ clause_calls [] (Ast.filter stmt)
  | None =>
      let ctes := Select.merge_ctes outer_ctes (Ast.with_ctes stmt) in
      table_calls ctes bound (Ast.table stmt) ++ join_calls ctes bound (Ast.joins stmt)
      ++ clause_calls ctes (Ast.filter stmt) ++ clause_calls ctes (Ast.having stmt)
  end.

(** No chain of calls from the query is longer than [n]. *)
Fixpoint calls_within (n : nat) (q : node) : bool :=
  match n with O => false | S n' => forallb (calls_within n') (calls q) end.

Lemma calls_within_mono n m q : n <= m -> calls_within n q = true -> calls_within m q = true.
Proof.
  revert m q. induction n as [|n IH]; intros m q Hm H; [done|]. destruct m as [|m]; [lia|]. cbn in *.
  rewrite forallb_forall in H |- *. intros x Hx. apply IH; [lia|by apply H].
Qed.

(** A query whose calls are well founded has a bound. *)
Lemma calls_bounded q : Acc (fun a b => a ∈ calls b) q -> exists n, calls_within n q = true.
Proof.
  induction 1 as [q _ IH]. assert (Hall : exists n, forallb (calls_within n) (calls q) = true).
  { induction (calls q) as [|a l IHl]; [by exists 0|].
    destruct IHl as [n Hn]; [intros y Hy; apply IH; by right|]. destruct (IH a) as [m Hm]; [by left|].
    exists (max n m). cbn. apply andb_true_iff. split; [by eapply calls_within_mono, Hm; lia|].
    rewrite forallb_forall in Hn |- *. intros y Hy. eapply calls_within_mono; [|by apply Hn]. lia. }
  destruct Hall as [n Hn]. by exists (S n).
Qed.

Lemma within_acc q n : calls_within n q = true -> Acc (fun a b => a ∈ calls b) q.
Proof.
  revert q. induction n as [|n IH]; intros q H; [done|]. constructor. intros a Ha. apply IH. cbn in H.
  rewrite forallb_forall in H. apply H. by apply list_elem_of_In.
Qed.
End Calls.

(** ** The body of a query *)

Section Body.
Context (gpu : bool) (db : Database) (run run' : Run).

Definition agree (n : node) : Prop :=
  forall params outer b, bound_of b = n.2 -> stable (run n.1.1 params outer n.1.2 b) (run' n.1.1 params outer n.1.2 b).

Lemma agree_call q ctes params outer : agree (q, ctes, None) -> stable (run q params outer ctes None) (run' q params outer ctes None).
Proof. intros H. by apply (H params outer None). Qed.

Lemma if_ok_stable {A} (a a' : R A) : stable a a' -> stable (Select.if_ok a) (Select.if_ok a').
Proof. intros [<- H]. apply stable_refl. destruct a as [|[]|]; cbn; congruence. Qed.

#[local] Hint Resolve agree_call if_ok_stable : stable.

Lemma cache_stable own params ctes e : Forall agree (expr_calls ctes e) ->
  stable (Select.build_subquery_cache run e own params ctes) (Select.build_subquery_cache run' e own params ctes).
Proof.
  intros H. apply collect_stable. intros x Hx.
  assert (Hq : Forall agree (expr_calls ctes x)).
  { clear -H Hx. induction e; cbn in *; try (by apply elem_of_nil in Hx);
      try (apply list_elem_of_singleton in Hx as ->; done); try by auto.
    - apply Forall_app in H as [H1 H2]. apply elem_of_app in Hx as [?|?]; auto.
    - apply Forall_app in H as [H1 H2]. apply elem_of_app in Hx as [?|?]; auto. }
  unfold Select.cache_entry. destruct (Select.expr_references_outer x own); [auto with stable|].
  destruct x; cbn in Hq; try (apply Forall_cons in Hq as [Hq _]); stable.
Qed.

Lemma any_first_stable lhs l : stable (Select.any_first lhs l) (Select.any_first lhs l).
Proof. induction l; cbn; stable. Qed.

Lemma find_outer_no_err {A} p (outer : list (list str * list A)) e : Expr.find_outer p outer <> Err (e : Failure).
Proof. induction outer as [|[ocols orow] outer IH]; [done|]. cbn. unfold Expr.find_in. repeat case_match; naive_solver. Qed.

Lemma find_value_stable {A} (column : str) columns (row : list A) outer q :
  stable (Expr.find_value column columns row outer q) (Expr.find_value column columns row outer q).
Proof.
  apply stable_refl. assert (Hi : forall p, Expr.find_in p columns row <> Err Db.StackOverflow).
  { intros p. unfold Expr.find_in. by repeat case_match. }
  assert (Ho := fun p => find_outer_no_err p outer Db.StackOverflow).
  assert (Hor : forall a b : outcome Failure (option A), a <> Err Db.StackOverflow -> b <> Err Db.StackOverflow ->
    Expr.orelse a b <> Err Db.StackOverflow) by (intros [[]|[]|] b; cbn; congruence).
  unfold Expr.find_value. repeat first [apply Hor|apply Hi|apply Ho|case_match]; done.
Qed.
#[local] Hint Resolve any_first_stable find_value_stable : stable.

(** *** [WHERE] *)

Section Where.
Context (columns : list str) (row : list Value) (params : list (list f32)) (outer : Outer) (ctes : list CTE)
  (scope_columns : list str) (cache : list Select.CacheEntry) (qualifiers : list str).

Lemma run_inner_stable q : agree (q, ctes, None) ->
  stable (Select.run_inner run row params outer ctes scope_columns q) (Select.run_inner run' row params outer ctes scope_columns q).
Proof. intros H. unfold Select.run_inner. case_decide; auto with stable. Qed.
#[local] Hint Resolve run_inner_stable : stable.

Lemma eval_where_stable e : Forall agree (expr_calls ctes e) ->
  stable_w (Select.eval_where run columns row params outer ctes scope_columns cache qualifiers e)
           (Select.eval_where run' columns row params outer ctes scope_columns cache qualifiers e).
Proof.
  assert (Hplain : forall x, stable_w (Select.of_r (Select.of_exec (Expr.eval_expr_scoped columns row outer qualifiers x)))
    (Select.of_r (Select.of_exec (Expr.eval_expr_scoped columns row outer qualifiers x)))) by (intros x; stable_w).
  assert (Hlook : forall c, stable_w (Select.of_r (Select.lookup columns row outer qualifiers c))
    (Select.of_r (Select.lookup columns row outer qualifiers c))).
  { intros c. apply stable_w_of_r. unfold Select.lookup. stable. }
  induction e; intros H; cbn [Select.eval_where expr_calls] in *; try apply Hplain.
  - apply Forall_app in H as [H1 H2]. apply stable_w_bind; [auto|intros a]. apply stable_w_bind; [auto|intros b]. stable_w.
  - apply Forall_app in H as [H1 H2]. apply stable_w_bind; [auto|intros a]. apply stable_w_bind; [auto|intros b]. stable_w.
  - apply stable_w_bind; [auto|intros a]. stable_w.
  - apply Forall_cons in H as [H _]. unfold Select.eval_exists. stable_w.
  - apply Forall_cons in H as [H _]. unfold Select.eval_in. apply stable_w_bind; [apply Hlook|intros lhs]. stable_w.
  - apply Forall_cons in H as [H _]. unfold Select.eval_scalar_cmp. apply stable_w_bind; [apply Hlook|intros lhs]. stable_w.
Qed.

Lemma where_true_stable e : Forall agree (expr_calls ctes e) ->
  stable (Select.where_true run columns row params outer ctes scope_columns cache qualifiers e)
         (Select.where_true run' columns row params outer ctes scope_columns cache qualifiers e).
Proof.
  intros H. destruct (eval_where_stable e H 0) as [E Hn]. unfold Select.where_true. rewrite <- E. apply stable_refl.
  by destruct (Select.eval_where _ _ _ _ _ _ _ _ _ _ _) as [[| |] ?]; cbn in *; [|congruence|].
Qed.
End Where.

Lemma filter_rows_stable e columns params outer ctes scope_columns qualifiers rows : Forall agree (clause_calls ctes e) ->
  stable (Select.filter_rows run e columns params outer ctes scope_columns qualifiers rows)
         (Select.filter_rows run' e columns params outer ctes scope_columns qualifiers rows).
Proof.
  intros H. destruct e as [e|]; [|apply stable_ok]. cbn in H. apply stable_bind; [by apply cache_stable|].
  intros cache _. apply keep_stable. intros row. by apply where_true_stable.
Qed.

(** *** [FROM] *)

Lemma recursive_loop_stable fuel name q dedup ctes columns : agree (q, ctes, Some name) -> forall iterations all working,
  stable (Select.recursive_loop run fuel iterations name q dedup ctes columns all working)
         (Select.recursive_loop run' fuel iterations name q dedup ctes columns all working).
Proof.
  intros H. induction fuel as [|fuel IH]; intros iterations all working; [apply panic_stable|].
  cbn [Select.recursive_loop]. destruct working as [|w working]; [apply stable_ok|]. case_match; [apply db_err_stable|].
  apply stable_bind; [by apply (H [] [] (Some (name, columns, w :: working)))|]. intros rs _.
  case_match; [apply db_err_stable|]. case_match; [apply stable_ok|]. apply IH.
Qed.

Lemma fetch_row_stable ts txn id : stable (Db.fetch_row ts txn id) (Db.fetch_row ts txn id).
Proof. unfold Db.fetch_row. stable. Qed.

Lemma fetch_rows_stable ts txn l : stable (Db.fetch_rows ts txn l) (Db.fetch_rows ts txn l).
Proof. induction l as [|id l IH]; cbn; [done|]. apply stable_bind; [apply fetch_row_stable|]. intros o _. stable. Qed.

Lemma resolve_stable ctes b t : Forall agree (table_calls db ctes (bound_of b) t) ->
  stable (Select.resolve_table_ref_with_ctes db run t ctes b) (Select.resolve_table_ref_with_ctes db run' t ctes b).
Proof.
  assert (Hscan : forall n, stable (Select.scan_table db n) (Select.scan_table db n)).
  { intros n. unfold Select.scan_table. apply stable_bind; [auto with stable|]. intros ts _.
    apply stable_bind; [apply fetch_rows_stable|]. by intros. }
  destruct t as [name alias|q alias]; cbn [table_calls Select.resolve_table_ref_with_ctes]; intros H.
  - assert (Hlook : bound_of b <> Some name -> stable
      (match List.find (fun c => bool_decide (cte_name c = name)) ctes with
       | Some (Ast.mkCTE n q (Some t)) => Select.run_recursive_cte run n q (Some t) ctes
       | Some (Ast.mkCTE n q None) => obind (run q [] [] ctes None) (fun rs => Ok (Value.columns rs, Value.rows rs))
       | None => match find_named name (Db.views db) with
                 | Some query => obind (run query [] [] [] None) (fun rs => Ok (Value.columns rs, Value.rows rs))
                 | None => Select.scan_table db name end end)
      (match List.find (fun c => bool_decide (cte_name c = name)) ctes with
       | Some (Ast.mkCTE n q (Some t)) => Select.run_recursive_cte run' n q (Some t) ctes
       | Some (Ast.mkCTE n q None) => obind (run' q [] [] ctes None) (fun rs => Ok (Value.columns rs, Value.rows rs))
       | None => match find_named name (Db.views db) with
                 | Some query => obind (run' query [] [] [] None) (fun rs => Ok (Value.columns rs, Value.rows rs))
                 | None => Select.scan_table db name end end)).
    { intros Hb. rewrite decide_False in H by done.
      destruct (List.find _ ctes) as [[n q [[op rq]|]]|].
      - apply Forall_cons in H as [H1 [H2 _]%Forall_cons]. unfold Select.run_recursive_cte. cbn [Db.expect obind].
        apply stable_bind; [by apply agree_call|]. intros rs _. apply stable_bind; [by apply recursive_loop_stable|]. by intros.
      - apply Forall_cons in H as [H1 _]. apply stable_bind; [by apply agree_call|]. by intros.
      - destruct (find_named name (Db.views db)); [|apply Hscan]. apply Forall_cons in H as [H1 _].
        apply stable_bind; [by apply agree_call|]. by intros. }
    destruct b as [[[bn bc] br]|]; [|by apply Hlook]. destruct (decide (bn = name)) as [Hb|Hb]; [apply stable_ok|].
    apply Hlook. cbn. congruence.
  - apply Forall_cons in H as [H _]. apply stable_bind; [by apply agree_call|]. by intros.
Qed.

(** *** Joins, stages and vector search *)

Lemma join_rows_stable jtype on on_cols qualifiers wl wr l r :
  stable (Select.join_rows jtype on on_cols qualifiers wl wr l r) (Select.join_rows jtype on on_cols qualifiers wl wr l r).
Proof.
  assert (Hm : forall e f x, stable (Select.matching on_cols qualifiers e f x) (Select.matching on_cols qualifiers e f x)).
  { intros e f x. apply keep_stable. intros y. apply of_exec_stable. }
  assert (Ha : forall e j x, stable (Select.any_match on_cols qualifiers e j x) (Select.any_match on_cols qualifiers e j x)).
  { intros e j x. induction x; cbn; [apply stable_ok|]. apply stable_bind; [apply of_exec_stable|]. intros b _. by destruct b. }
  unfold Select.join_rows, Select.inner_join, Select.left_join, Select.right_join, Select.full_join.
  destruct jtype; stable; try apply Hm; try apply Ha.
Qed.

Lemma run_joins_stable base qualifiers joins ctes b : Forall agree (join_calls db ctes (bound_of b) joins) ->
  forall columns rows,
  stable (Select.run_joins db run base qualifiers joins ctes b columns rows)
         (Select.run_joins db run' base qualifiers joins ctes b columns rows).
Proof.
  induction joins as [|[jtype t on] joins IH]; intros H columns rows; [apply stable_ok|].
  cbn [join_calls flat_map Select.run_joins] in *. apply Forall_app in H as [H1 H2].
  apply stable_bind; [by apply resolve_stable|]. intros [cols joined] _. cbv zeta.
  apply stable_bind; [apply join_rows_stable|]. intros new _. by apply IH.
Qed.

Lemma run_stages_stable stmt params outer ctes qualifiers columns rows :
  Forall agree (clause_calls ctes (Ast.filter stmt)) -> Forall agree (clause_calls ctes (Ast.having stmt)) ->
  stable (Select.run_stages gpu run stmt params outer ctes qualifiers columns rows)
         (Select.run_stages gpu run' stmt params outer ctes qualifiers columns rows).
Proof.
  intros H1 H2. unfold Select.run_stages. cbv zeta. apply stable_bind; [by apply filter_rows_stable|]. intros l _.
  apply stable_bind; [stable|]. intros tab _. apply stable_bind; [stable|]. intros tab2 _.
  apply stable_bind; [by apply filter_rows_stable|]. intros l2 _. apply stable_bind; [apply of_tree_stable|].
  intros plan _. apply of_exec_stable.
Qed.

Lemma validate_stable ctes : stable (Select.validate_ctes db ctes) (Select.validate_ctes db ctes).
Proof. induction ctes as [|[n q t] ctes IH]; cbn; [apply stable_ok|]. stable. Qed.

Lemma search_no_overflow query k nprobe idx :
  stable (VectorIndex.search (E := Failure) query k nprobe idx) (VectorIndex.search query k nprobe idx).
Proof.
  apply stable_refl. unfold VectorIndex.search. case_decide; [done|]. cbv zeta.
  generalize (take (Nat.min (length (VectorIndex.centroids idx)) (Nat.max 1 nprobe))
    (map fst (VectorIndex.sort_by VectorIndex.by_score
       (map (fun ic => (ic.1, VectorIndex.dot ic.2 (VectorIndex.normalize query))) (VectorIndex.enumerate (VectorIndex.centroids idx)))))).
  intros l. assert (Hp : VectorIndex.probe (VectorIndex.lists idx) query l <> Err Db.StackOverflow).
  { induction l as [|c l IH]; [done|]. cbn [VectorIndex.probe]. unfold VectorIndex.at_. case_match; [|done]. cbn [Expr.obind].
    by destruct (VectorIndex.probe _ query l). }
  destruct (VectorIndex.probe (VectorIndex.lists idx) query l); cbn; congruence.
Qed.

Lemma candidates_stable {X} (fetch : X -> R (option (list Value))) stmt columns params slot l :
  (forall x, stable (fetch x) (fetch x)) -> Forall agree (clause_calls [] (Ast.filter stmt)) ->
  stable (Select.candidates run fetch stmt columns params slot l) (Select.candidates run' fetch stmt columns params slot l).
Proof.
  intros Hf H. induction l as [|x l IH]; [apply stable_ok|]. cbn [Select.candidates]. apply stable_bind; [done|].
  intros [row|] _; [|done]. apply stable_bind.
  - destruct (Ast.filter stmt) as [e|]; [|apply stable_ok]. by apply where_true_stable.
  - intros [] _; [|done]. stable.
Qed.

Lemma topk_result_stable stmt columns query k cands :
  stable (Select.topk_result stmt columns query k cands) (Select.topk_result stmt columns query k cands).
Proof. unfold Select.topk_result, Select.checked_topk. stable. Qed.

Lemma topk_stable stmt ob params :
  Forall agree (match Ast.table stmt with Ast.Subquery q _ => [(q, [], None)] | Ast.Named _ _ => [] end
                ++ clause_calls [] (Ast.filter stmt)) ->
  stable (Select.run_vector_topk db run stmt ob params) (Select.run_vector_topk db run' stmt ob params).
Proof.
  intros [Ht Hf]%Forall_app. unfold Select.run_vector_topk. apply stable_bind; [apply ok_or_stable|]. intros query _.
  destruct (Ast.table stmt) as [name alias|q alias].
  - do 3 (apply stable_bind; [auto with stable|]; intros ? _). case_match; [apply db_err_stable|].
    apply stable_bind.
    + destruct (find_named _ _); [apply search_no_overflow|apply stable_ok].
    + intros ids _. apply stable_bind; [apply candidates_stable; [intros; apply fetch_row_stable|done]|].
      intros c _. apply topk_result_stable.
  - apply stable_bind; [by apply resolve_stable|]. intros [columns rows] _.
    apply stable_bind; [apply ok_or_stable|]. intros slot _.
    apply stable_bind; [apply candidates_stable; [intros; apply stable_ok|done]|]. intros c _. apply topk_result_stable.
Qed.

Lemma body_stable n : Forall agree (calls db n) -> forall params outer b, bound_of b = n.2 ->
  stable (Select.select_body gpu db run n.1.1 params outer n.1.2 b) (Select.select_body gpu db run' n.1.1 params outer n.1.2 b).
Proof.
  destruct n as [[stmt ctes] bound]. cbn [fst snd]. intros H params outer b Hb. unfold Select.select_body.
  cbn [calls] in H. destruct (Ast.order_by_cosine stmt) as [ob|]; [by apply topk_stable|]. cbv zeta.
  apply Forall_app in H as [H1 [H2 [H3 H4]%Forall_app]%Forall_app]. subst bound.
  apply stable_bind; [apply validate_stable|]. intros _ _.
  apply stable_bind; [by apply resolve_stable|]. intros [columns rows] _.
  apply stable_bind; [by apply run_joins_stable|]. intros [columns' rows'] _. by apply run_stages_stable.
Qed.
End Body.

(** ** Termination *)

Lemma run_stable n gpu db q fuel : calls_within db n q = true -> n <= fuel -> forall params outer b, bound_of b = q.2 ->
  stable (Select.run_select_scoped n gpu db q.1.1 params outer q.1.2 b)
         (Select.run_select_scoped fuel gpu db q.1.1 params outer q.1.2 b).
Proof.
  revert q fuel. induction n as [|n IH]; intros q fuel Hq Hle params outer b Hb; [done|].
  destruct fuel as [|fuel]; [lia|]. cbn [Select.run_select_scoped calls_within] in *.
  apply body_stable; [|done]. apply Forall_forall. intros c Hc. rewrite forallb_forall in Hq.
  intros params' outer' b' Hb'. apply IH; [apply Hq; by apply list_elem_of_In|lia|done].
Qed.

(** C10: When the calls that a query's syntax and the views allow (subqueries, CTE
    bodies and recursive terms, view bodies) form no cycle, the query ends: there is a stack depth, which
    [calls_within] computes, from which on it never overflows and always has the same outcome. *)
Theorem acyclic_queries_terminate gpu stmt params db `{DebugValue} :
  Acc (fun a b => a ∈ calls db b) (stmt, [], None) ->
  exists n, calls_within db n (stmt, [], None) = true /\
  forall m, calls_within db m (stmt, [], None) = true -> forall fuel, m <= fuel ->
  Engine.execute fuel gpu (Ast.Select stmt) params db = Engine.execute m gpu (Ast.Select stmt) params db /\
  fst (Engine.execute fuel gpu (Ast.Select stmt) params db) <> Err Db.StackOverflow.
Proof.
  intros Hacc. destruct (calls_bounded db _ Hacc) as [n Hn]. exists n. split; [done|]. intros m Hm fuel Hle.
  destruct (run_stable m gpu db (stmt, [], None) fuel Hm Hle params [] None eq_refl) as [E Ho]. cbn [fst snd] in E, Ho.
  cbn [Engine.execute]. unfold Db.read, Select.run_select. rewrite <- E. by split.
Qed.

(** A view over a view, with a subquery. *)
Definition deep_db : Database :=
  snd (run ["CREATE TABLE t (x INT)"; "INSERT INTO t (x) VALUES (1)"; "CREATE VIEW v AS SELECT x FROM t";
    "CREATE VIEW w AS SELECT x FROM v WHERE x IN (SELECT x FROM t)"]%string Db.empty).

Definition deep_query : SelectStatement :=
  match parse "SELECT x FROM w" with
  | Ast.Select q => q
  | _ => Ast.mkSelect [] true (Ast.Named [] None) None [] [] [] [] [] None None None []
  end.

#[local] Instance term_debug : DebugValue := fun _ => [].

Lemma acyclic_queries_terminate_witness :
  calls_within deep_db 3 (deep_query, [], None) = true /\
  exists n, calls_within deep_db n (deep_query, [], None) = true /\
  forall m, calls_within deep_db m (deep_query, [], None) = true -> forall fuel, m <= fuel ->
  Engine.execute fuel false (Ast.Select deep_query) [] deep_db = Engine.execute m false (Ast.Select deep_query) [] deep_db /\
  fst (Engine.execute fuel false (Ast.Select deep_query) [] deep_db) <> Err Db.StackOverflow.
Proof.
  split; [vm_compute; reflexivity|]. apply (acyclic_queries_terminate false deep_query [] deep_db).
  apply within_acc with 3. vm_compute. reflexivity.
Defined.
