(* ===== verification/PgText.v ===== *)
(** * PgText: the string functions of Rust that the wire-protocol crate uses

    A string is its UTF-8 bytes ([Ast.str]); a [char] is the bytes of one
    character, so that an iterator of characters is a list of byte strings. *)
From Stdlib Require Import ZArith Lia Strings.Byte Strings.String.
From stdpp Require Import base numbers option list sets.
From S2P Require Import Prelude Ast Lexer Codec.

Module PgText.
Import Ast(str, lit).

(** ** Characters *)

(** [s.chars()]. *)
Fixpoint chars_loop (fuel : nat) (s : str) : list str :=
  match fuel with
  | O => []
  | S fuel' =>
      match s with
      | [] => []
      | _ => let n := (Codec.utf8_next s).2 in take n s :: chars_loop fuel' (drop n s)
      end
  end.
Definition chars (s : str) : list str := chars_loop (length s) s.

(** An ASCII character. *)
Definition is_char (c : byte) (x : str) : bool := bool_decide (x = [c]).
Definition peek_is (c : byte) (cs : list str) : bool :=
  match cs with x :: _ => is_char c x | [] => false end.
(** [c.is_ascii_alphanumeric() || c == '_']. *)
Definition tag_char (x : str) : bool :=
  match x with [b] => Lexer.ident_char b | _ => false end.

(** [s.is_char_boundary(i)]: slicing elsewhere panics. *)
Definition is_char_boundary (i : nat) (s : str) : bool :=
  if i =? length s then true
  else match s !! i with Some b => negb (Codec.is_cont (Some b)) | None => false end.
(** [&s[i..]]. *)
Definition slice_from {E} (i : nat) (s : str) : outcome E str :=
  if is_char_boundary i s then Ok (drop i s) else Panic.

(** ** Prefixes, searches and splits *)

Fixpoint strip_prefix (p s : str) : option str :=
  match p, s with
  | [], _ => Some s
  | a :: p', b :: s' => if Byte.eqb a b then strip_prefix p' s' else None
  | _, [] => None
  end.

Definition starts_with (p s : str) : bool := bool_decide (is_Some (strip_prefix p s)).

(** The first occurrence of a string: what is before it and what is after. *)
Fixpoint split_once (p s : str) : option (str * str) :=
  match strip_prefix p s with
  | Some rest => Some ([], rest)
  | None =>
      match s with
      | [] => None
      | b :: s' => (fun r => (b :: r.1, r.2)) <$> split_once p s'
      end
  end.

Definition contains (p s : str) : bool := bool_decide (is_Some (split_once p s)).

(** [s.split(c)]: there is always a first part. *)
Fixpoint split (c : byte) (s : str) : list str :=
  match s with
  | [] => [[]]
  | b :: s' =>
      if Byte.eqb b c then [] :: split c s'
      else match split c s' with p :: ps => (b :: p) :: ps | [] => [[b]] end
  end.

(** [s.splitn(n, c)]: the last part is not split further. *)
Fixpoint splitn (n : nat) (c : byte) (s : str) : list str :=
  match n with
  | O => []
  | S O => [s]
  | S n' =>
      match split_once [c] s with
      | Some (a, b) => a :: splitn n' c b
      | None => [s]
      end
  end.

(** [trim_end_matches(c)], [trim_matches(c)]. *)
Definition trim_start_matches (c : byte) (s : str) : str := drop (Lexer.span (Byte.eqb c) s) s.
Definition trim_end_matches (c : byte) (s : str) : str := rev (trim_start_matches c (rev s)).
Definition trim_matches (c : byte) (s : str) : str := trim_end_matches c (trim_start_matches c s).

(** The characters with the property White_Space. *)
Definition white_space : list str :=
  [[x09]; [x0a]; [x0b]; [x0c]; [x0d]; [x20]; [xc2; x85]; [xc2; xa0]; [xe1; x9a; x80];
   [xe2; x80; x80]; [xe2; x80; x81]; [xe2; x80; x82]; [xe2; x80; x83]; [xe2; x80; x84]; [xe2; x80; x85];
   [xe2; x80; x86]; [xe2; x80; x87]; [xe2; x80; x88]; [xe2; x80; x89]; [xe2; x80; x8a];
   [xe2; x80; xa8]; [xe2; x80; xa9]; [xe2; x80; xaf]; [xe2; x81; x9f]; [xe3; x80; x80]].

(** Drop the pieces of [ws] at the front. *)
Fixpoint strip_all (fuel : nat) (ws : list str) (s : str) : str :=
  match fuel with
  | O => s
  | S fuel' =>
      match list_find (fun w => is_Some (strip_prefix w s)) ws with
      | Some (_, w) => strip_all fuel' ws (drop (length w) s)
      | None => s
      end
  end.

Definition trim_start (s : str) : str := strip_all (length s) white_space s.
(** A white-space character is at the end of a string exactly when its bytes
    are, because no character's encoding is a suffix of another's. *)
Definition trim_end (s : str) : str := rev (strip_all (length s) (map (@rev byte) white_space) (rev s)).
Definition trim (s : str) : str := trim_end (trim_start s).

(** ** Case *)

Definition to_ascii_upper (c : byte) : byte := if Lexer.is_ascii_lower c then z2b (b2z c - 32) else c.

(** [to_uppercase], exact on the ASCII characters of its result: the listed
    characters have an upper case with an ASCII character in it; every other
    one beyond ASCII stays beyond ASCII and is kept as it is.  The results are
    only compared with ASCII strings. *)
Definition special_upper : list (str * str) :=
  [([xc5; xbf], lit "S"); ([xc4; xb1], lit "I"); ([xc3; x9f], lit "SS");
   ([xc5; x89], [xca; xbc; x4e]); ([xc7; xb0], [x4a; xcc; x8c]);
   ([xe1; xba; x96], [x48; xcc; xb1]); ([xe1; xba; x97], [x54; xcc; x88]);
   ([xe1; xba; x98], [x57; xcc; x8a]); ([xe1; xba; x99], [x59; xcc; x8a]);
   ([xe1; xba; x9a], [x41; xca; xbe]);
   ([xef; xac; x80], lit "FF"); ([xef; xac; x81], lit "FI"); ([xef; xac; x82], lit "FL");
   ([xef; xac; x83], lit "FFI"); ([xef; xac; x84], lit "FFL");
   ([xef; xac; x85], lit "ST"); ([xef; xac; x86], lit "ST")].

Definition upper_char (x : str) : str :=
  match x with
  | [c] => [to_ascii_upper c]
  | _ => match list_find (fun r => r.1 = x) special_upper with Some (_, r) => r.2 | None => x end
  end.
Definition to_uppercase (s : str) : str := concat (map upper_char (chars s)).

(** [eq_ignore_ascii_case]. *)
Definition eq_ignore_ascii_case (a b : str) : bool :=
  bool_decide (Lexer.to_ascii_lowercase a = Lexer.to_ascii_lowercase b).

(** [parse::<u64>()] of a string of digits. *)
Definition parse_u64 (s : str) : option Z :=
  match s with
  | [] => None
  | _ => let v := Lexer.digits_val 0 s in
         if forallb Lexer.is_ascii_digit s && (v <? 2 ^ 64)%Z then Some v else None
  end.

(** [format!("{:08x}", n)]. *)
Definition hex_digit (n : Z) : byte := if (n <? 10)%Z then z2b (48 + n) else z2b (87 + n).
Definition hex08 (n : Z) : str :=
  map (fun i => hex_digit (Z.shiftr n (4 * (7 - Z.of_nat i)) mod 16)) (seq 0 8).

(** ** Laws *)

Lemma strip_prefix_Some p s r : strip_prefix p s = Some r <-> s = p ++ r.
Proof.
  revert s. induction p as [|a p IH]; intros s; cbn [strip_prefix app].
  { split; [by intros [= ->] | by intros ->]. }
  destruct s as [|b s]; [split; discriminate|]. destruct (Byte.eqb a b) eqn:Eb.
  - apply Byte.byte_dec_bl in Eb as ->. rewrite IH. split; [by intros -> | by intros [= ->]].
  - split; [discriminate|]. intros [= -> _]. by rewrite Byte.byte_dec_lb in Eb.
Qed.

Lemma strip_prefix_app p r : strip_prefix p (p ++ r) = Some r.
Proof. by apply strip_prefix_Some. Qed.

Lemma split_once_Some p s a b : split_once p s = Some (a, b) -> s = a ++ p ++ b.
Proof.
  revert a. induction s as [|x s IH]; intros a; cbn [split_once];
    destruct (strip_prefix p _) as [r|] eqn:Ep.
  - intros [= <- <-]. by apply strip_prefix_Some in Ep.
  - discriminate.
  - intros [= <- <-]. by apply strip_prefix_Some in Ep.
  - destruct (split_once p s) as [[a' b']|]; [|discriminate]. intros [= <- <-]. cbn [app].
    f_equal. by apply IH.
Qed.

Lemma split_parts c s : Forall (fun p => c ∉ p) (split c s).
Proof.
  induction s as [|b s IH]; cbn [split]; [by repeat constructor; set_solver|].
  destruct (Byte.eqb b c) eqn:Eb; [constructor; [set_solver|done]|].
  destruct (split c s) as [|p ps]; [repeat constructor; set_unfold; intros [->|[]]|].
  - by rewrite Byte.byte_dec_lb in Eb.
  - apply Forall_cons in IH as [Hp Hps]. constructor; [|done]. intros [->|Hin]%elem_of_cons; [|done].
    by rewrite Byte.byte_dec_lb in Eb.
Qed.

(** Splitting a string without the separator, and a joined one. *)
Lemma split_clean c s : c ∉ s -> split c s = [s].
Proof.
  induction s as [|b s IH]; intros H; [done|]. cbn [split].
  destruct (Byte.eqb b c) eqn:Eb; [apply Byte.byte_dec_bl in Eb as ->; set_solver|].
  rewrite IH; [done|set_solver].
Qed.

Lemma split_app c a b : c ∉ a -> split c (a ++ c :: b) = a :: split c b.
Proof.
  induction a as [|x a IH]; intros H; cbn [app split]; [by rewrite Byte.byte_dec_lb|].
  destruct (Byte.eqb x c) eqn:Eb; [apply Byte.byte_dec_bl in Eb as ->; set_solver|].
  rewrite IH; [done|set_solver].
Qed.

Lemma split_once_char_None c s : c ∉ s -> split_once [c] s = None.
Proof.
  induction s as [|b s IH]; intros H; [done|]. cbn [split_once strip_prefix].
  destruct (Byte.eqb c b) eqn:Eb; [apply Byte.byte_dec_bl in Eb as ->; set_solver|].
  rewrite IH; [done|set_solver].
Qed.

(** The first occurrence, when the pattern starts with a byte the text before
    it does not have. *)
Lemma split_once_app c p a b :
  c ∉ a -> split_once (c :: p) (a ++ (c :: p) ++ b) = Some (a, b).
Proof.
  induction a as [|x a IH]; intros H.
  { cbn [app]. destruct p; cbn [split_once]; change (c :: ?l) with (c :: l);
    rewrite (proj2 (strip_prefix_Some _ _ b)); done. }
  cbn [app split_once strip_prefix].
  destruct (Byte.eqb c x) eqn:Eb; [apply Byte.byte_dec_bl in Eb as ->; set_solver|].
  change (a ++ c :: p ++ b) with (a ++ (c :: p) ++ b). rewrite IH; [done|set_solver].
Qed.

(** A place that starts like the pattern and goes on differently is skipped. *)
Lemma split_once_skip c p a r :
  c ∉ a -> strip_prefix (c :: p) (c :: r) = None ->
  split_once (c :: p) (a ++ c :: r) = (fun q => (a ++ c :: q.1, q.2)) <$> split_once (c :: p) r.
Proof.
  intros Ha Hr. induction a as [|x a IH].
  { cbn [app]. cbn [split_once]. by rewrite Hr. }
  cbn [app split_once strip_prefix].
  destruct (Byte.eqb c x) eqn:Eb; [apply Byte.byte_dec_bl in Eb as ->; set_solver|].
  rewrite IH by set_solver. by destruct (split_once (c :: p) r).
Qed.

Lemma concat_chars_loop fuel s : length s <= fuel -> concat (chars_loop fuel s) = s.
Proof.
  revert s. induction fuel as [|fuel IH]; intros s H; [by destruct s; [|simpl in H; lia]|].
  destruct s as [|b s]; [done|]. cbn [chars_loop concat].
  assert (H1 : 1 <= (Codec.utf8_next (b :: s)).2).
  { unfold Codec.utf8_next. repeat case_match; simpl; lia. }
  rewrite IH; [apply take_drop|]. rewrite length_drop. simpl in *. lia.
Qed.

Lemma concat_chars s : concat (chars s) = s.
Proof. by apply concat_chars_loop. Qed.

Example trim_ex : trim ([x20; xe3; x80; x80] ++ lit "a b" ++ [xc2; xa0; x0a]) = lit "a b".
Proof. reflexivity. Qed.

(** ** Characters of a concatenation *)

Definition valid_char (x : str) : Prop := Codec.utf8_next x = (true, length x).

#[export] Instance valid_char_dec x : Decision (valid_char x).
Proof. unfold valid_char. apply _. Defined.

Lemma utf8_next_app x r : valid_char x -> Codec.utf8_next (x ++ r) = (true, length x).
Proof.
  unfold valid_char, Codec.utf8_next. cbv zeta. intros Hx.
  destruct x as [|a [|b [|c [|d x]]]]; cbn [lookup list_lookup app length] in *;
    repeat (case_match; try discriminate); try done;
    try (injection Hx as Hx; simpl in Hx; lia).
Qed.

Lemma chars_loop_concat fuel cs :
  Forall valid_char cs -> length (concat cs) <= fuel -> chars_loop fuel (concat cs) = cs.
Proof.
  intros Hcs. revert fuel. induction Hcs as [|x cs Hx _ IH]; intros fuel Hf; [by destruct fuel|].
  assert (H1 : 1 <= length x) by (destruct x; [discriminate Hx|simpl; lia]).
  cbn [concat] in *. rewrite length_app in Hf. destruct fuel as [|fuel]; [lia|].
  cbn [chars_loop]. destruct (x ++ concat cs) as [|b l] eqn:E; [destruct x; [simpl in H1; lia|discriminate]|].
  rewrite <- E, utf8_next_app by done. cbn [snd]. rewrite take_app_length, drop_app_length.
  f_equal. apply IH. lia.
Qed.

Lemma chars_concat cs : Forall valid_char cs -> chars (concat cs) = cs.
Proof. intros H. by apply chars_loop_concat. Qed.

End PgText.
