(* ===== verification/PgCodec.v ===== *)
(** * PgCodec: framing of the PostgreSQL wire protocol
    ([crates/out-archon-pgwire/src/codec/mod.rs] and [codec/message.rs])

    Frames are a tag byte, a big-endian length that counts itself, and a
    payload.  The crate has two codecs: [MessageReader]/[MessageWriter], which
    the thread-per-connection server uses, and the functions [read_message],
    [write_message] and [write_cstring], which the scheduled connection task
    uses.  A buffer is its list of bytes. *)
From Stdlib Require Import ZArith Lia Strings.Byte Strings.String.
From stdpp Require Import base numbers option list sets.
From S2P Require Import Prelude Ast Value Lexer Codec PgText.

Module PgCodec.
Import Ast(str, lit).
Import Value(Value, Int, Float, Text, Vector, Bool, Null).

(** ** Messages *)

Definition PROTOCOL_VERSION : Z := 196608.

(** The constants of [FrontendTag]. *)
Module FrontendTag.
Definition STARTUP : byte := x00.
Definition QUERY : byte := "Q"%byte.
Definition TERMINATE : byte := "X"%byte.
Definition PARSE : byte := "P"%byte.
Definition BIND : byte := "B"%byte.
Definition DESCRIBE : byte := "D"%byte.
Definition EXECUTE : byte := "E"%byte.
Definition SYNC : byte := "S"%byte.
Definition CLOSE : byte := "C"%byte.
Definition PASSWORD : byte := "p"%byte.
Definition SSL : byte := x00.
End FrontendTag.

(** The constants of [BackendTag]. *)
Module BackendTag.
Definition AUTH : byte := "R"%byte.
Definition BACKEND_KEY : byte := "K"%byte.
Definition PARAM_STATUS : byte := "S"%byte.
Definition READY_FOR_QUERY : byte := "Z"%byte.
Definition ROW_DESCRIPTION : byte := "T"%byte.
Definition DATA_ROW : byte := "D"%byte.
Definition COMMAND_COMPLETE : byte := "C"%byte.
Definition ERROR_RESPONSE : byte := "E"%byte.
Definition NO_DATA : byte := "n"%byte.
Definition PARSE_COMPLETE : byte := "1"%byte.
Definition BIND_COMPLETE : byte := "2"%byte.
Definition CLOSE_COMPLETE : byte := "3"%byte.
Definition PORTAL_SUSPEND : byte := "s"%byte.
End BackendTag.

Record StartupMessage : Type := mkStartup {
  protocol_major : Z;
  protocol_minor : Z;
  params : list (str * str)
}.

Inductive FrontendMessage : Type :=
| Startup (m : StartupMessage)
| Query (sql : str)
| Terminate
| Parse
| Bind
| Describe
| Execute
| Sync
| Close
| Password (p : str)
| SslRequest.

(** [FrontendMessage::tag]. *)
Definition tag (m : FrontendMessage) : byte :=
  match m with
  | Startup _ => FrontendTag.STARTUP
  | Query _ => FrontendTag.QUERY
  | Terminate => FrontendTag.TERMINATE
  | Parse => FrontendTag.PARSE
  | Bind => FrontendTag.BIND
  | Describe => FrontendTag.DESCRIBE
  | Execute => FrontendTag.EXECUTE
  | Sync => FrontendTag.SYNC
  | Close => FrontendTag.CLOSE
  | Password _ => FrontendTag.PASSWORD
  | SslRequest => FrontendTag.SSL
  end.

Record ColumnDesc : Type := mkColumn {
  name : str;
  table_oid : Z;
  column_attr : Z;
  type_oid : Z;
  type_size : Z;
  type_mod : Z;
  format : Z
}.

Inductive TxnStatus : Type := Idle | InTransaction | Failed.

Definition as_byte (t : TxnStatus) : byte :=
  match t with Idle => "I"%byte | InTransaction => "T"%byte | Failed => "E"%byte end.

(** [CodecError]; nothing constructs [Incomplete] or [Parse]. *)
Inductive CodecError : Type :=
| Incomplete (needed got : nat)
| InvalidLength (len : nat)
| UnexpectedTag (t : byte)
| ParseFailed (msg : str).

(** ** [MessageReader] *)

(** [((b0 as usize) << 24) | .. | (b3 as usize)]. *)
Definition be_len (b : list byte) : nat := Z.to_nat (be_val (take 4 b)).

Inductive ReaderState : Type :=
| Tag
| Length
| Body (len : nat) (t : byte) (body_pos : nat).

Record MessageReader : Type := mkReader { buf : list byte; state : ReaderState }.

Definition new : MessageReader := {| buf := []; state := Tag |}.

Definition default_for_body (len : nat) (t : byte) : ReaderState := Body len t 0.

Definition string_from_body (body : list byte) : str :=
  PgText.trim_end_matches x00 (if Codec.utf8_valid body then body else []).

Fixpoint startup_params (parts : list str) : list (str * str) :=
  match parts with
  | [] => []
  | part :: parts' =>
      match part with
      | [] => startup_params parts'
      | _ => match PgText.split_once [x00] part with
             | Some kv => kv :: startup_params parts'
             | None => startup_params parts'
             end
      end
  end.

Definition parse_startup (body : list byte) : outcome CodecError FrontendMessage :=
  Ok (Startup (mkStartup 3 0 (startup_params (PgText.split x00 (string_from_body body))))).

Definition parse_frontend_message (t : byte) (body : list byte) : outcome CodecError FrontendMessage :=
  if Byte.eqb t x00 then parse_startup body
  else if Byte.eqb t "Q" then Ok (Query (string_from_body body))
  else if Byte.eqb t "X" then Ok Terminate
  else if Byte.eqb t "p" then Ok (Password (string_from_body body))
  else if existsb (Byte.eqb t) ["P"; "B"; "D"; "E"; "S"; "C"]%byte then Ok Parse
  else Err (UnexpectedTag t).

Abbreviation Rd := (M MessageReader CodecError).

(** One turn of the loop of [feed]: [inl] continues with the messages so far,
    [inr] leaves the loop.  [Vec::drain(0..len)] panics when [len] is out of
    range. *)
Definition feed_step (msgs : list FrontendMessage) : Rd (list FrontendMessage + list FrontendMessage) := fun r =>
  match state r with
  | Tag =>
      match buf r with
      | [] => (Ok (inr msgs), r)
      | _ :: rest => (Ok (inl msgs), {| buf := rest; state := Length |})
      end
  | Length =>
      if length (buf r) <? 4 then (Ok (inr msgs), r)
      else
        let len := be_len (buf r) in
        let rest := drop 4 (buf r) in
        if len <? 4 then (Err (InvalidLength len), {| buf := rest; state := Length |})
        else
          let t := match state r with Body _ t _ => t | _ => x00 end in
          (Ok (inl msgs), {| buf := rest; state := default_for_body (len - 4) t |})
  | Body len t body_pos =>
      let available := length (buf r) `min` (len - body_pos) in
      if available =? 0 then (Ok (inr msgs), r)
      else
        let new_pos := body_pos + available in
        if new_pos <? len then (Ok (inr msgs), {| buf := buf r; state := Body len t new_pos |})
        else if length (buf r) <? len then (Panic, r)
        else
          let body := take len (buf r) in
          let rest := drop len (buf r) in
          match parse_frontend_message t body with
          | Ok msg => (Ok (inl (msgs ++ [msg])), {| buf := rest; state := Tag |})
          | Err e => (Err e, {| buf := rest; state := state r |})
          | Panic => (Panic, {| buf := rest; state := state r |})
          end
  end.

(** Every turn that continues consumes a byte, so one turn per byte and a last
    one are enough ([feed_fuel]). *)
Definition feed (bytes : list byte) : Rd (list FrontendMessage) := fun r =>
  let b := buf r ++ bytes in
  m_loop (S (length b)) feed_step [] {| buf := b; state := state r |}.

(** ** [MessageWriter]

    A writer is the bytes written so far. *)
Abbreviation W := (list byte -> list byte).

Definition start (t : byte) : W := fun out => out ++ [t] ++ [x00; x00; x00; x00].

(** [self.out[pos..].copy_from_slice(&len_bytes)] with [pos = out.len() - 4]. *)
Definition finish : W := fun out =>
  splice (length out - 4) (be_bytes 4 (Z.of_nat (length out))) out.

Definition write_i32 (v : Z) : W := fun out => out ++ be_bytes 4 v.
Definition write_i16 (v : Z) : W := fun out => out ++ be_bytes 2 v.
Definition put (b : list byte) : W := fun out => out ++ b.
(** [MessageWriter::write_cstring]. *)
Definition put_cstring (b : list byte) : W := fun out => out ++ b ++ [x00].

Definition len32 (b : list byte) : Z := Z.of_nat (length b).

Definition write_auth_ok : W := fun out =>
  finish (put (be_bytes 4 0) (write_i32 8 (start BackendTag.AUTH out))).

Definition write_auth_plain : W := fun out =>
  finish (put (be_bytes 4 3) (write_i32 8 (start BackendTag.AUTH out))).

Definition write_auth_sasl (mechanisms : list str) : W := fun out =>
  let total := (4 + 4 + foldr Z.add 0 (map (fun m => len32 m + 1) mechanisms) + 1)%Z in
  let out := put (be_bytes 4 10) (write_i32 total (start BackendTag.AUTH out)) in
  finish (put [x00] (fold_left (fun o m => put [x00] (put m o)) mechanisms out)).

Definition write_auth_sasl_continue (data : str) : W := fun out =>
  finish (put data (put (be_bytes 4 11) (write_i32 (4 + 4 + len32 data) (start BackendTag.AUTH out)))).

Definition write_auth_sasl_final (data : str) : W := fun out =>
  finish (put data (put (be_bytes 4 12) (write_i32 (4 + 4 + len32 data) (start BackendTag.AUTH out)))).

Definition write_backend_key_data (pid secret : Z) : W := fun out =>
  finish (put (be_bytes 4 secret) (put (be_bytes 4 pid) (write_i32 12 (start BackendTag.BACKEND_KEY out)))).

Definition write_parameter_status (nm value : str) : W := fun out =>
  let total := (4 + (len32 nm + 1) + (len32 value + 1))%Z in
  finish (put [x00] (put value (put [x00] (put nm (write_i32 total (start BackendTag.PARAM_STATUS out)))))).

Definition write_ready_for_query (t : TxnStatus) : W := fun out =>
  finish (put [as_byte t] (write_i32 5 (start BackendTag.READY_FOR_QUERY out))).

Definition write_column (out : list byte) (col : ColumnDesc) : list byte :=
  write_i16 (format col) (write_i32 (type_mod col) (write_i16 (type_size col)
    (write_i32 (type_oid col) (write_i16 (column_attr col) (write_i32 (table_oid col)
      (put_cstring (name col) out)))))).

Definition write_row_description (cols : list ColumnDesc) : W := fun out =>
  finish (fold_left write_column cols
            (write_i16 (Z.of_nat (length cols)) (start BackendTag.ROW_DESCRIPTION out))).

Section Text.
Context `{Lexer.Fmt}.

(** The vector's text, [[1,2.5]]. *)
Fixpoint join_comma (l : list str) : str :=
  match l with
  | [] => []
  | [s] => s
  | s :: l' => s ++ lit "," ++ join_comma l'
  end.

Definition encode_value (val : Value) (binary : bool) : list byte :=
  if binary then
    match val with
    | Int i => be_bytes 8 i
    | Float f => be_bytes 4 f
    | Text t => t
    | Vector v => be_bytes 4 (Z.of_nat (length v)) ++ concat (map (be_bytes 4) v)
    | Bool b => [if b then x01 else x00]
    | Null => []
    end
  else
    match val with
    | Int i => Lexer.int_to_string i
    | Float f => Lexer.f32_display f
    | Text t => t
    | Vector v => lit "[" ++ join_comma (map Lexer.f32_display v) ++ lit "]"
    | Bool b => lit (if b then "t" else "f")
    | Null => []
    end.

Definition write_data_row (cols : list ColumnDesc) (row : list Value) : W := fun out =>
  finish (fold_left (fun o cv =>
            let bytes := encode_value cv.2 (format cv.1 =? 1)%Z in
            put bytes (write_i32 (len32 bytes) o))
          (combine cols row) (write_i16 (Z.of_nat (length cols)) (start BackendTag.DATA_ROW out))).

End Text.

Definition write_command_complete (tg : str) (rows : Z) : W := fun out =>
  let bytes := tg ++ lit " " ++ Lexer.int_to_string rows in
  put [x00] (put bytes (put (be_bytes 4 (4 + (len32 bytes + 1))) (start BackendTag.COMMAND_COMPLETE out))).

Definition write_field (typ : byte) (value : list byte) : W := fun out =>
  out ++ [typ] ++ be_bytes 4 (len32 value) ++ value.

Definition write_error_response (message : str) (sqlstate : option str) : W := fun out =>
  let out := start BackendTag.ERROR_RESPONSE out in
  let out := write_field "S" (lit "ERROR") (write_field "M" message out) in
  let out := match sqlstate with Some ss => write_field "C" ss out | None => out end in
  finish (put [x00] out).

(** The messages without content: [finish] over a tag and the length 4. *)
Definition write_empty (t : byte) : W := fun out => finish (write_i32 4 (start t out)).
Definition write_parse_complete : W := write_empty BackendTag.PARSE_COMPLETE.
Definition write_bind_complete : W := write_empty BackendTag.BIND_COMPLETE.
Definition write_close_complete : W := write_empty BackendTag.CLOSE_COMPLETE.
Definition write_no_data : W := write_empty BackendTag.NO_DATA.
Definition write_portal_suspended : W := write_empty BackendTag.PORTAL_SUSPEND.

(** ** The free functions *)

Definition read_message : M (list byte) CodecError (option (byte * list byte)) := fun b =>
  if length b <? 5 then (Ok None, b)
  else
    let msg_type := default x00 (b !! 0) in
    let len := be_len (drop 1 b) in
    if len <? 4 then (Err (InvalidLength len), b)
    else
      let total_len := 1 + len in
      if length b <? total_len then (Ok None, b)
      else (Ok (Some (msg_type, slice 5 total_len b)), drop total_len b).

(** [len as u32] wraps; [be_bytes] keeps the low 32 bits. *)
Definition write_message (msg_type : byte) (payload : list byte) : W := fun b =>
  b ++ [msg_type] ++ be_bytes 4 (Z.of_nat (4 + length payload)) ++ payload.

(** The free function [write_cstring]. *)
Definition write_cstring (s : str) : W := fun b => b ++ s ++ [x00].

(** ** The framing of [read_message] and [write_message] *)

(** A loop whose continuing turns shrink a measure does not depend on its fuel. *)
Lemma m_loop_fuel {S0 Er A B} (body : A -> M S0 Er (A + B)) (mu : S0 -> nat) :
  (forall a s a' s', body a s = (Ok (inl a'), s') -> mu s' < mu s) ->
  forall n m a s, mu s < n -> mu s < m -> m_loop n body a s = m_loop m body a s.
Proof.
  intros Hmu n. induction n as [|n IH]; intros [|m] a s Hn Hm; [lia..|].
  cbn [m_loop]. unfold mbind, M_bind.
  destruct (body a s) as [[[a'|b]|e|] s'] eqn:Eb; [|reflexivity..].
  specialize (Hmu _ _ _ _ Eb). apply IH; lia.
Qed.

Definition frame (m : byte * list byte) : list byte := write_message m.1 m.2 [].
Definition stream (ms : list (byte * list byte)) : list byte := concat (map frame ms).
Definition sendable (m : byte * list byte) : Prop := (Z.of_nat (4 + length m.2) < 2 ^ 32)%Z.

Lemma message_length m : length (frame m) = 5 + length m.2.
Proof. unfold frame, write_message. rewrite !length_app, be_bytes_length. simpl. lia. Qed.

Lemma be_len_bytes n rest :
  (Z.of_nat n < 2 ^ 32)%Z -> be_len (be_bytes 4 (Z.of_nat n) ++ rest) = n.
Proof.
  intros H. unfold be_len. rewrite take_app_le, take_ge by (rewrite be_bytes_length; lia).
  rewrite be_val_bytes, Z.mod_small by (change (256 ^ Z.of_nat 4)%Z with (2 ^ 32)%Z; lia).
  apply Nat2Z.id.
Qed.

(** How [read_message] sees a buffer that starts with the bytes of a frame. *)
Lemma read_header t n b :
  (Z.of_nat n < 2 ^ 32)%Z -> 4 <= n ->
  read_message (t :: be_bytes 4 (Z.of_nat n) ++ b) =
    if length b <? n - 4 then (Ok None, t :: be_bytes 4 (Z.of_nat n) ++ b)
    else (Ok (Some (t, take (n - 4) b)), drop (n - 4) b).
Proof.
  intros H H4. unfold read_message.
  assert (Hl : length (t :: be_bytes 4 (Z.of_nat n) ++ b) = 5 + length b).
  { cbn [length]. rewrite length_app, be_bytes_length. lia. }
  rewrite Hl. destruct (Nat.ltb_spec (5 + length b) 5); [lia|].
  change (drop 1 (t :: be_bytes 4 (Z.of_nat n) ++ b)) with (be_bytes 4 (Z.of_nat n) ++ b). rewrite be_len_bytes by done.
  destruct (Nat.ltb_spec n 4); [lia|].
  destruct (Nat.ltb_spec (length b) (n - 4)), (Nat.ltb_spec (5 + length b) (1 + n)); try lia; [done|].
  assert (Hd : forall k, drop (5 + k) (t :: be_bytes 4 (Z.of_nat n) ++ b) = drop k b).
  { intros k. change (drop (5 + k) (t :: be_bytes 4 (Z.of_nat n) ++ b)) with (drop (4 + k) (be_bytes 4 (Z.of_nat n) ++ b)).
    rewrite <- drop_drop.
    by rewrite drop_app_length' by (by rewrite be_bytes_length). }
  replace (1 + n) with (5 + (n - 4)) by lia. rewrite Hd. unfold slice.
  replace (5 + (n - 4) - 5) with (n - 4) by lia.
  change (drop 5 (t :: be_bytes 4 (Z.of_nat n) ++ b)) with (drop (5 + 0) (t :: be_bytes 4 (Z.of_nat n) ++ b)).
  by rewrite Hd.
Qed.

Lemma frame_eq m : frame m = m.1 :: be_bytes 4 (Z.of_nat (4 + length m.2)) ++ m.2.
Proof. reflexivity. Qed.

Lemma read_frame m rest : sendable m -> read_message (frame m ++ rest) = (Ok (Some m), rest).
Proof.
  intros H. rewrite frame_eq. cbn [app]. rewrite <- app_assoc, read_header by (done || lia).
  replace (4 + length m.2 - 4) with (length m.2) by lia.
  destruct (Nat.ltb_spec (length (m.2 ++ rest)) (length m.2)) as [H1|H1]; [rewrite length_app in H1; lia|].
  rewrite take_app_length, drop_app_length. by destruct m.
Qed.

(** What is short of a frame is not read, and stays in the buffer. *)
Lemma read_partial m b rest :
  sendable m -> b ++ rest = frame m -> rest <> [] -> read_message b = (Ok None, b).
Proof.
  intros Hm Hb Hr.
  assert (Hl : length b + length rest = 5 + length m.2) by (rewrite <- length_app, Hb; apply message_length).
  destruct rest as [|r0 rest]; [done|]. cbn [length] in Hl.
  destruct (decide (length b < 5)) as [H5|H5].
  { unfold read_message. by destruct (Nat.ltb_spec (length b) 5); [|lia]. }
  assert (Hs : b = m.1 :: be_bytes 4 (Z.of_nat (4 + length m.2)) ++ take (length b - 5) m.2).
  { transitivity (take (length b) (b ++ r0 :: rest)); [by rewrite take_app_length|]. rewrite Hb, frame_eq.
    destruct (length b) as [|n] eqn:E; [lia|]. cbn [take]. f_equal.
    rewrite take_app, be_bytes_length, take_ge by (rewrite be_bytes_length; lia).
    do 2 f_equal. }
  rewrite Hs at 1. rewrite read_header by (done || lia). rewrite length_take.
  destruct (Nat.ltb_spec ((length b - 5) `min` length m.2) (4 + length m.2 - 4)); [|lia]. by rewrite <- Hs.
Qed.

(** Conversely a message that is read is the frame at the front of the buffer. *)
Lemma read_message_sound b t p rest :
  read_message b = (Ok (Some (t, p)), rest) -> b = frame (t, p) ++ rest /\ sendable (t, p).
Proof.
  intros H. assert (Hr := H). unfold read_message in H.
  destruct (Nat.ltb_spec (length b) 5) as [|H5]; [done|].
  destruct b as [|t0 b]; [simpl in H5; lia|]. cbn [length] in H5.
  change (drop 1 (t0 :: b)) with b in H. set (n := be_len b) in *.
  destruct (Nat.ltb_spec n 4) as [|H4]; [done|].
  assert (Hb : b = be_bytes 4 (Z.of_nat n) ++ drop 4 b).
  { rewrite <- (take_drop 4 b) at 1. f_equal. unfold n, be_len, be_val.
    assert (Hr4 := le_val_range (rev (take 4 b))).
    rewrite Z2Nat.id by lia. unfold be_bytes.
    rewrite (le_bytes_val_eq 4) by (rewrite length_rev, length_take; lia).
    by rewrite rev_involutive. }
  assert (Hn : (Z.of_nat n < 2 ^ 32)%Z).
  { unfold n, be_len, be_val. assert (Hr4 := le_val_range (rev (take 4 b))).
    rewrite length_rev, length_take in Hr4.
    rewrite Z2Nat.id by lia. replace (4 `min` length b) with 4 in Hr4 by lia. lia. }
  rewrite Hb in Hr. rewrite read_header in Hr by done.
  destruct (Nat.ltb_spec (length (drop 4 b)) (n - 4)) as [|Hd]; [done|].
  injection Hr as <- <- <-.
  assert (Hlen : length (take (n - 4) (drop 4 b)) = n - 4) by (rewrite length_take; lia).
  split.
  - rewrite frame_eq. cbn [fst snd]. rewrite Hlen. replace (4 + (n - 4)) with n by lia.
    cbn [app]. rewrite <- app_assoc, take_drop. by rewrite <- Hb.
  - unfold sendable. cbn [snd]. rewrite Hlen. by replace (4 + (n - 4)) with n by lia.
Qed.

(** A receiver: append what arrived, then take every complete message.  A
    message takes at least five bytes off the buffer. *)
Fixpoint read_all (fuel : nat) : M (list byte) CodecError (list (byte * list byte)) :=
  match fuel with
  | O => m_panic
  | S fuel' =>
      r ← read_message;
      match r with
      | Some m => ms ← read_all fuel'; mret (m :: ms)
      | None => mret []
      end
  end.

Definition receive (bytes : list byte) : M (list byte) CodecError (list (byte * list byte)) := fun b =>
  let b' := b ++ bytes in read_all (S (length b')) b'.

Fixpoint receive_all (chunks : list (list byte)) : M (list byte) CodecError (list (byte * list byte)) :=
  match chunks with
  | [] => mret []
  | c :: cs => ms ← receive c; ms' ← receive_all cs; mret (ms ++ ms')
  end.

Lemma read_all_prefix fuel ms b rest :
  Forall sendable ms -> b ++ rest = stream ms -> length b < fuel ->
  exists ms1 ms2 r, ms = ms1 ++ ms2 /\ read_all fuel b = (Ok ms1, r) /\ r ++ rest = stream ms2 /\
    read_message r = (Ok None, r).
Proof.
  revert ms b. induction fuel as [|fuel IH]; intros ms b Hms Hb Hf; [lia|].
  cbn [read_all].
  assert (Hstop : read_message b = (Ok None, b) -> exists ms1 ms2 r, ms = ms1 ++ ms2 /\
     (r0 ← read_message; match r0 with Some m => ms ← read_all fuel; mret (m :: ms) | None => mret [] end) b
       = (Ok ms1, r) /\ r ++ rest = stream ms2 /\ read_message r = (Ok None, r)).
  { intros H. exists [], ms, b. by rewrite (bind_ok _ _ _ _ _ H). }
  destruct ms as [|m ms].
  { apply app_eq_nil in Hb as [-> ->]. by apply Hstop. }
  apply Forall_cons in Hms as [Hm Hms]. cbn [stream map concat] in Hb. fold (stream ms) in Hb.
  destruct (decide (length b < length (frame m))) as [Hlt|Hge].
  - apply Hstop. apply app_eq_inv in Hb as [(k & Hk & _)|(k & Hk & _)].
    + rewrite Hk, length_app in Hlt. lia.
    + apply (read_partial m b k Hm); [done|]. intros ->. rewrite app_nil_r in Hk. rewrite Hk in Hlt. lia.
  - assert (exists k, b = frame m ++ k /\ k ++ rest = stream ms) as (k & -> & Hk).
    { apply app_eq_inv in Hb as [(k & Hk & Hk2)|(k & Hk & Hk2)]; [by exists k|].
      destruct k as [|k0 k]; [|rewrite Hk, length_app in Hge; simpl in Hge; lia].
      exists []. rewrite app_nil_r in *. by rewrite Hk2. }
    rewrite (bind_ok _ _ _ _ _ (read_frame m k Hm)).
    destruct (IH ms k Hms Hk) as (ms1 & ms2 & r & -> & Hr & Hs & Hn);
      [rewrite length_app, message_length in Hf; lia|].
    exists (m :: ms1), ms2, r. by rewrite (bind_ok _ _ _ _ _ Hr).
Qed.

Lemma receive_all_ok chunks ms b :
  Forall sendable ms -> read_message b = (Ok None, b) ->
  b ++ concat chunks = stream ms -> receive_all chunks b = (Ok ms, []).
Proof.
  revert ms b. induction chunks as [|c cs IH]; intros ms b Hms Hb Heq.
  - cbn [concat] in Heq. rewrite app_nil_r in Heq. destruct ms as [|m ms].
    + cbn in Heq. by subst.
    + apply Forall_cons in Hms as [Hm _]. subst b. unfold stream in Hb. cbn [map concat] in Hb.
      rewrite (read_frame m _ Hm) in Hb. discriminate.
  - cbn [concat] in Heq. rewrite app_assoc in Heq. cbn [receive_all].
    destruct (read_all_prefix (S (length (b ++ c))) ms (b ++ c) (concat cs) Hms Heq ltac:(lia))
      as (ms1 & ms2 & r & -> & Hr & Hs & Hn).
    apply Forall_app in Hms as [_ Hms2].
    assert (Hrc : receive c b = (Ok ms1, r)) by exact Hr.
    rewrite (bind_ok _ _ _ _ _ Hrc). rewrite (bind_ok _ _ _ _ _ (IH ms2 r Hms2 Hn Hs)). done.
Qed.

(** C11: framing round trip.  Messages written with
    [write_message], each shorter than 2^32 bytes with its length field, and
    sent over a stream are read back by [read_message], in order and with
    nothing left over, however the stream cuts their bytes into arrivals. *)
Theorem framing_survives_chunking chunks ms :
  Forall sendable ms -> concat chunks = stream ms -> receive_all chunks [] = (Ok ms, []).
Proof. intros Hms H. by apply receive_all_ok. Qed.

Lemma framing_survives_chunking_witness :
  let ms := [("Q"%byte, lit "SELECT 1" ++ [x00]); ("S"%byte, [])] in
  receive_all [take 3 (stream ms); slice 3 16 (stream ms); drop 16 (stream ms)] [] = (Ok ms, []).
Proof.
  apply framing_survives_chunking.
  - repeat constructor.
  - vm_compute. reflexivity.
Defined.

(** ** What [MessageReader] reads *)

(** [feed]'s turns: one that continues takes bytes off the buffer. *)
Lemma feed_step_consumes msgs r msgs' r' :
  feed_step msgs r = (Ok (inl msgs'), r') -> length (buf r') < length (buf r).
Proof.
  unfold feed_step. destruct (state r) as [| |len t pos] eqn:Es; intros H.
  - destruct (buf r) as [|b rest]; simplify_eq. simpl. lia.
  - destruct (Nat.ltb_spec (length (buf r)) 4); [done|].
    destruct (be_len (buf r) <? 4); simplify_eq. cbn [buf]. rewrite length_drop. lia.
  - destruct (Nat.eqb_spec (length (buf r) `min` (len - pos)) 0); [done|].
    destruct (Nat.ltb_spec (pos + length (buf r) `min` (len - pos)) len); [done|].
    destruct (length (buf r) <? len); [done|].
    destruct (parse_frontend_message _ _); simplify_eq. cbn [buf]. rewrite length_drop. lia.
Qed.

(** The fuel of [feed] is enough: more gives the same result. *)
Lemma feed_fuel bytes r n :
  S (length (buf r ++ bytes)) <= n ->
  feed bytes r = m_loop n feed_step [] {| buf := buf r ++ bytes; state := state r |}.
Proof.
  intros H. unfold feed. apply (m_loop_fuel _ (fun r => length (buf r))); [|simpl; lia..].
  intros a s a' s'. apply feed_step_consumes.
Qed.

(** The tag byte is taken off the buffer and forgotten: the tag of a body is 0. *)
Definition untagged (r : MessageReader) : Prop :=
  match state r with Body _ t _ => t = x00 | _ => True end.

(** Splitting at NUL leaves nothing for a second split at NUL. *)
Lemma startup_params_none s : startup_params (PgText.split x00 s) = [].
Proof.
  induction (PgText.split_parts x00 s) as [|p ps Hp _ IH]; [done|]. cbn [startup_params].
  destruct p as [|b p]; [done|]. by rewrite PgText.split_once_char_None.
Qed.

Definition blank_startup : FrontendMessage := Startup (mkStartup 3 0 []).

Lemma feed_step_untagged msgs r o r' :
  untagged r -> Forall (eq blank_startup) msgs -> feed_step msgs r = (o, r') ->
  untagged r' /\
  match o with
  | Ok (inl ms) | Ok (inr ms) => Forall (eq blank_startup) ms
  | Err e => exists n, e = InvalidLength n
  | Panic => True
  end.
Proof.
  unfold feed_step, untagged. intros Hr Hms H. destruct (state r) as [| |len t pos] eqn:Es.
  - destruct (buf r); simplify_eq; cbn [state]; rewrite ?Es; done.
  - destruct (length (buf r) <? 4); [simplify_eq; by rewrite Es|].
    destruct (be_len (buf r) <? 4); simplify_eq; cbn [state default_for_body]; eauto.
  - subst t. destruct (_ =? 0); [simplify_eq; by rewrite Es|].
    destruct (pos + _ <? len); [simplify_eq; done|].
    destruct (length (buf r) <? len); [simplify_eq; by rewrite Es|].
    cbn in H. simplify_eq. split; [done|]. apply Forall_app. split; [done|].
    constructor; [|done]. by rewrite startup_params_none.
Qed.

Lemma feed_loop_untagged n msgs r o r' :
  untagged r -> Forall (eq blank_startup) msgs -> m_loop n feed_step msgs r = (o, r') ->
  untagged r' /\
  match o with
  | Ok ms => Forall (eq blank_startup) ms
  | Err e => exists k, e = InvalidLength k
  | Panic => True
  end.
Proof.
  revert msgs r. induction n as [|n IH]; intros msgs r Hr Hms H; cbn [m_loop] in H.
  { unfold m_panic in H. by simplify_eq. }
  unfold mbind, M_bind in H. destruct (feed_step msgs r) as [[[ms|ms]|e|] r1] eqn:Ef;
    apply feed_step_untagged in Ef as [Hr1 Ho]; try done; [by eapply IH|..];
    unfold mret, M_ret in H; by simplify_eq.
Qed.

Lemma feed_untagged bytes r o r' :
  untagged r -> feed bytes r = (o, r') ->
  untagged r' /\ forall ms, o = Ok ms -> Forall (eq blank_startup) ms.
Proof.
  intros Hr H. unfold feed in H. apply feed_loop_untagged in H as [H1 H2]; [|done..].
  split; [done|]. by intros ms ->.
Qed.

(** What a connection's reader returns, arrival by arrival. *)
Fixpoint feed_all (chunks : list (list byte)) : Rd (list FrontendMessage) :=
  match chunks with
  | [] => mret []
  | c :: cs => ms ← feed c; ms' ← feed_all cs; mret (ms ++ ms')
  end.

Lemma feed_all_untagged chunks r ms r' :
  untagged r -> feed_all chunks r = (Ok ms, r') -> Forall (eq blank_startup) ms.
Proof.
  revert r ms. induction chunks as [|c cs IH]; intros r ms Hr H; cbn [feed_all] in H.
  { unfold mret, M_ret in H. by simplify_eq. }
  apply bind_inv in H as (m1 & r1 & H1 & H). apply bind_inv in H as (m2 & r2 & H2 & H).
  unfold mret, M_ret in H. simplify_eq. apply feed_untagged in H1 as [Hr1 Hm1]; [|done].
  apply Forall_app. split; [by apply Hm1|by eapply IH].
Qed.

(** [MessageReader] loses the tag.  Whatever
    bytes a connection sends, in whatever arrivals, every message its reader
    returns is a startup message without parameters: no query, password or
    termination ever reaches the server's dispatch, and the startup
    parameters are dropped too. *)
Theorem reader_yields_startups_only chunks ms r :
  feed_all chunks new = (Ok ms, r) -> Forall (fun m => m = Startup (mkStartup 3 0 [])) ms.
Proof.
  intros H. apply feed_all_untagged in H; [|done]. eapply Forall_impl; [exact H|]. by intros m <-.
Qed.

Lemma reader_yields_startups_only_witness :
  let sent := [frame ("Q"%byte, lit "SELECT 1"); frame ("p"%byte, lit "secret")] in
  feed_all sent new = (Ok [blank_startup; blank_startup], new) /\
  Forall (fun m => m = Startup (mkStartup 3 0 [])) [blank_startup; blank_startup].
Proof.
  intros sent. assert (H : feed_all sent new = (Ok [blank_startup; blank_startup], new)) by (vm_compute; reflexivity).
  split; [exact H|]. exact (reader_yields_startups_only sent _ _ H).
Defined.

(** A message without content is never returned, and what follows it waits
    behind it. *)
Lemma empty_message_blocks t rest :
  feed (frame (t, []) ++ rest) new = (Ok [], {| buf := rest; state := Body 0 x00 0 |}).
Proof.
  rewrite (feed_fuel _ _ (3 + (6 + length rest))) by (cbn [buf new app]; rewrite length_app, message_length; simpl; lia).
  cbn [buf state new app Nat.add m_loop]. rewrite frame_eq. cbn [fst snd length app]. rewrite <- app_assoc. cbn [app].
  erewrite bind_ok by reflexivity. cbv beta iota.
  set (r := mkReader (be_bytes 4 (Z.of_nat (4 + 0)) ++ rest) Length).
  assert (H : feed_step [] r = (Ok (inl []), mkReader rest (Body 0 x00 0))).
  { unfold feed_step, r. cbn [state buf]. rewrite be_len_bytes by lia.
    rewrite length_app, be_bytes_length. cbn [Nat.ltb Nat.leb Nat.add].
    by rewrite drop_app_length' by (by rewrite be_bytes_length). }
  rewrite (bind_ok _ _ _ _ _ H). unfold mbind, M_bind, feed_step. cbn [state buf]. by rewrite Nat.min_0_r.
Qed.

(** The bytes of a body that arrived early are counted again with every
    arrival: half of a four-byte body and one byte more panic. *)
Example body_in_pieces_panics :
  (feed_all [[x70; x00; x00; x00; x08; x01; x02]; [x03]] new).1 = Panic.
Proof. reflexivity. Qed.

(** ** What [MessageWriter] writes *)

Section Frames.
Context `{Lexer.Fmt}.

(** The messages the handlers write, each with a fresh writer. *)
Inductive backend : Type :=
| BAuthOk
| BAuthPlain
| BAuthSasl (mechanisms : list str)
| BAuthSaslContinue (data : str)
| BAuthSaslFinal (data : str)
| BBackendKeyData (pid secret : Z)
| BParameterStatus (nm value : str)
| BReadyForQuery (t : TxnStatus)
| BRowDescription (cols : list ColumnDesc)
| BDataRow (cols : list ColumnDesc) (row : list Value)
| BCommandComplete (tg : str) (rows : Z)
| BErrorResponse (message : str) (sqlstate : option str)
| BParseComplete
| BBindComplete
| BCloseComplete
| BNoData
| BPortalSuspended.

Definition write (m : backend) : W :=
  match m with
  | BAuthOk => write_auth_ok
  | BAuthPlain => write_auth_plain
  | BAuthSasl ms => write_auth_sasl ms
  | BAuthSaslContinue d => write_auth_sasl_continue d
  | BAuthSaslFinal d => write_auth_sasl_final d
  | BBackendKeyData p s => write_backend_key_data p s
  | BParameterStatus n v => write_parameter_status n v
  | BReadyForQuery t => write_ready_for_query t
  | BRowDescription cols => write_row_description cols
  | BDataRow cols row => write_data_row cols row
  | BCommandComplete t n => write_command_complete t n
  | BErrorResponse msg ss => write_error_response msg ss
  | BParseComplete => write_parse_complete
  | BBindComplete => write_bind_complete
  | BCloseComplete => write_close_complete
  | BNoData => write_no_data
  | BPortalSuspended => write_portal_suspended
  end.

Definition zero_header (out : list byte) : Prop :=
  exists t rest, out = t :: x00 :: x00 :: x00 :: x00 :: rest.

(** [finish] patches the last four bytes, not the ones [start] reserved. *)
Lemma finish_header t body :
  2 <= length body -> zero_header (finish (start t [] ++ body)).
Proof.
  intros H2. unfold finish, start, zero_header. cbn [app].
  destruct body as [|b0 [|b1 [|b2 [|b3 body]]]]; cbn [length] in H2; [lia|lia|..].
  - exists t, [x00; x07]. reflexivity.
  - exists t, [x00; x00; x08]. reflexivity.
  - unfold splice. cbn [length Nat.sub take app]. eauto.
Qed.

Lemma zero_header_unread out rest :
  zero_header out -> read_message (out ++ rest) = (Err (InvalidLength 0), out ++ rest).
Proof.
  intros (t & body & ->). unfold read_message. cbn [app length].
  by destruct (Nat.ltb_spec (S (S (S (S (S (length (body ++ rest))))))) 5); [lia|].
Qed.

Lemma fold_append {A} (f : list byte -> A -> list byte) l out :
  (forall o a, exists b, f o a = o ++ b) -> exists b, fold_left f l out = out ++ b.
Proof.
  intros Hf. revert out. induction l as [|a l IH]; intros out; cbn [fold_left].
  { exists []. by rewrite app_nil_r. }
  destruct (Hf out a) as [b ->]. destruct (IH (out ++ b)) as [b' ->].
  exists (b ++ b'). by rewrite app_assoc.
Qed.

Lemma write_column_appends o c : exists b, write_column o c = o ++ b.
Proof.
  unfold write_column, write_i16, write_i32, put_cstring. eexists. by rewrite <- !app_assoc.
Qed.

(** A message is written as [finish] over a tag, and at least two bytes. *)
Ltac finished :=
  eexists; unfold write_i32, write_i16, put, put_cstring, write_field;
  rewrite <- ?app_assoc; split; [reflexivity|];
  rewrite ?length_app, ?be_bytes_length; cbn [length]; lia.

Lemma write_zero_header m : zero_header (write m []).
Proof.
  assert (Hw : (exists t body, write m [] = finish (start t [] ++ body) /\ 2 <= length body) \/ zero_header (write m [])).
  { destruct m; cbn [write];
    try (left; eexists; finished).
    - left. unfold write_auth_sasl. eexists.
      edestruct (fold_append (fun o m => put [x00] (put m o)) mechanisms) as [b ->];
        [intros o a; unfold put; eexists; by rewrite <- app_assoc|finished].
    - left. unfold write_row_description. eexists.
      edestruct (fold_append write_column cols) as [b ->]; [apply write_column_appends|finished].
    - left. unfold write_data_row. eexists.
      edestruct (fold_append (fun o cv => put (encode_value cv.2 (format cv.1 =? 1)%Z)
        (write_i32 (len32 (encode_value cv.2 (format cv.1 =? 1)%Z)) o)) (combine cols row)) as [b Hb];
        [intros o a; unfold put, write_i32; eexists; by rewrite <- app_assoc|].
      cbv zeta. rewrite Hb. finished.
    - right. unfold write_command_complete, put, start, zero_header. cbn [app]. eauto.
    - left. unfold write_error_response. eexists. destruct sqlstate; finished. }
  destruct Hw as [(t & body & -> & H2)|Hw]; [by apply finish_header|exact Hw].
Qed.

(** no message of [MessageWriter] is a frame.
    The length field that [start] reserves stays zero, because [finish]
    overwrites the end of the payload instead: reading any of them, followed
    by anything, fails with the invalid length 0. *)
Theorem writer_frames_are_unreadable m rest :
  (read_message (write m [] ++ rest)).1 = Err (InvalidLength 0).
Proof. by rewrite zero_header_unread by apply write_zero_header. Qed.

End Frames.

End PgCodec.
