(* ===== verification/PgScram.v ===== *)
(** * PgScram: SCRAM-SHA-256 authentication and base64
    ([mod scram] of [crates/out-archon-pgwire/src/startup.rs])

    HMAC-SHA-256 and SHA-256 come from the crates [hmac] and [sha2], and random
    bytes from [rand]: the class [Crypto] gives the two functions, and random
    bytes are an argument. *)
From Stdlib Require Import ZArith Lia Strings.Byte Strings.String.
From stdpp Require Import base numbers option list gmap sets.
From S2P Require Import Prelude Ast Lexer PgText.

Module PgScram.
Import Ast(str, lit).

(** ** Base64 *)

Definition TABLE : list byte :=
  lit "ABCDEFGHIJKLMNOPQRSTUVWXYZabcdefghijklmnopqrstuvwxyz0123456789+/".
Definition PAD : byte := "="%byte.

(** [TABLE[i as usize]]. *)
Definition table_at (i : Z) : byte := default x00 (TABLE !! Z.to_nat i).

(** One turn of the loop takes three bytes, the missing ones being 0. *)
Fixpoint base64_encode (input : list byte) : str :=
  match input with
  | [] => []
  | c1 :: r1 =>
      let b1 := b2z c1 in
      let g1 := table_at (Z.shiftr b1 2) in
      match r1 with
      | [] => [g1; table_at (Z.lor (Z.shiftl (Z.land b1 3) 4) (Z.shiftr 0 4)); PAD; PAD]
      | c2 :: r2 =>
          let b2 := b2z c2 in
          let g2 := table_at (Z.lor (Z.shiftl (Z.land b1 3) 4) (Z.shiftr b2 4)) in
          match r2 with
          | [] => [g1; g2; table_at (Z.lor (Z.shiftl (Z.land b2 15) 2) (Z.shiftr 0 6)); PAD]
          | c3 :: r3 =>
              let b3 := b2z c3 in
              g1 :: g2 :: table_at (Z.lor (Z.shiftl (Z.land b2 15) 2) (Z.shiftr b3 6))
                 :: table_at (Z.land b3 63) :: base64_encode r3
          end
      end
  end.

Definition INV : Z := 255.
(** The decoding table: the value of a character, [INV] outside the alphabet. *)
Definition decode_at (c : byte) : Z :=
  match position (Byte.eqb c) TABLE with Some i => Z.of_nat i | None => INV end.

Fixpoint decode_loop (bytes : list byte) (out : list byte) : option (list byte) :=
  match bytes with
  | [] => Some out
  | c0 :: r0 =>
      if Byte.eqb c0 PAD then Some out
      else
        let v0 := decode_at c0 in
        match r0 with
        | [] => None
        | c1 :: r1 =>
            if Byte.eqb c1 PAD then Some out
            else
              let v1 := decode_at c1 in
              let out := out ++ [z2b (Z.lor (Z.shiftl v0 2) (Z.shiftr v1 4))] in
              match r1 with
              | [] => Some out
              | c2 :: r2 =>
                  if Byte.eqb c2 PAD then Some out
                  else
                    let v2 := decode_at c2 in
                    let out := out ++ [z2b (Z.lor (Z.shiftl v1 4) (Z.shiftr v2 2))] in
                    match r2 with
                    | [] => Some out
                    | c3 :: r3 =>
                        if Byte.eqb c3 PAD then Some out
                        else decode_loop r3 (out ++ [z2b (Z.lor (Z.shiftl v2 6) (decode_at c3))])
                    end
              end
        end
  end.
Definition base64_decode (input : str) : option (list byte) := decode_loop input [].

(** ** Credentials *)

Class Crypto : Type := {
  hmac : list byte -> list byte -> list byte;
  digest : list byte -> list byte
}.

Record StoredCredential : Type := mkCred {
  salt : list byte;
  iteration_count : Z;
  stored_key : list byte;
  server_key : list byte
}.

(** The store is a map from user names. *)
Abbreviation AuthStore := (gmap (list byte) StoredCredential).

Record ScramExchange : Type := mkExchange {
  client_first_bare : str;
  server_first : str;
  cred : StoredCredential
}.

Inductive ScramError : Type :=
| InvalidClientFirstMessage
| InvalidClientFinalMessage
| AuthenticationFailed.

Definition xor_byte (a b : byte) : byte := z2b (Z.lxor (b2z a) (b2z b)).
Definition xor_bytes (a b : list byte) : list byte := zip_with xor_byte a b.

Definition constant_time_eq (a b : list byte) : bool :=
  if length a =? length b then
    (fold_left Z.lor (zip_with (fun x y => Z.lxor (b2z x) (b2z y)) a b) 0 =? 0)%Z
  else false.

(** [random_nonce] over the random bytes. *)
Definition random_nonce (random : list byte) : str := map (fun b => table_at (b2z b mod 64)) random.

Section Crypto.
Context `{Crypto}.

Definition hmac_sha256 (key data : list byte) : list byte := hmac key data.
Definition sha256 (data : list byte) : list byte := digest data.

(** [for _ in 1..iter]: [t ^= u] over the common length keeps the rest of [t]. *)
Definition xor_into (t u : list byte) : list byte := xor_bytes t u ++ drop (length u) t.
Fixpoint pbkdf2_loop (n : nat) (password u t : list byte) : list byte :=
  match n with
  | O => t
  | S n' => let u := hmac_sha256 password u in pbkdf2_loop n' password u (xor_into t u)
  end.
Definition pbkdf2_hmac_sha256 (password slt : list byte) (iter : Z) : list byte :=
  let u := hmac_sha256 password (slt ++ [x00; x00; x00; x01]) in
  pbkdf2_loop (Z.to_nat (iter - 1)) password u u.

Definition derive_credential (password slt : list byte) (iter : Z) : StoredCredential :=
  let salted := pbkdf2_hmac_sha256 password slt iter in
  let client_key := hmac_sha256 salted (lit "Client Key") in
  mkCred slt iter (sha256 client_key) (hmac_sha256 salted (lit "Server Key")).

(** [AuthStore::add_user]; [random] is the fresh 16-byte salt. *)
Definition add_user (random : list byte) (name password : str) (store : AuthStore) : AuthStore :=
  <[name := derive_credential password random 4096]> store.
Definition get (name : str) (store : AuthStore) : option StoredCredential := store !! name.

(** [find_map(|p| p.strip_prefix(..))]. *)
Fixpoint find_prefix (p : str) (parts : list str) : option str :=
  match parts with
  | [] => None
  | x :: l => match PgText.strip_prefix p x with Some r => Some r | None => find_prefix p l end
  end.

Definition bare_of (client_first : str) : option str :=
  match PgText.strip_prefix (lit "n,,") client_first with
  | Some rest => Some rest
  | None =>
      match PgText.strip_prefix (lit "y,,") client_first with
      | Some rest => Some rest
      | None => (fun r => lit "n=" ++ r.2) <$> PgText.split_once (lit ",,n=") client_first
      end
  end.

(** [random] is the 18 random bytes of the server's nonce. *)
Definition process_client_first (random : list byte) (client_first : str) : M ScramExchange ScramError str := fun ex =>
  match bare_of client_first with
  | None => (Err InvalidClientFirstMessage, ex)
  | Some bare =>
      match find_prefix (lit "r=") (PgText.split "," bare) with
      | None => (Err InvalidClientFirstMessage, mkExchange bare (server_first ex) (cred ex))
      | Some client_nonce =>
          let server_nonce := client_nonce ++ random_nonce random in
          let sf := lit "r=" ++ server_nonce ++ lit ",s=" ++ base64_encode (salt (cred ex))
                    ++ lit ",i=" ++ Lexer.int_to_string (iteration_count (cred ex)) in
          (Ok sf, mkExchange bare sf (cred ex))
      end
  end.

Definition auth_message (ex : ScramExchange) (without_proof : str) : str :=
  client_first_bare ex ++ lit "," ++ server_first ex ++ lit "," ++ without_proof.

Definition process_client_final (ex : ScramExchange) (client_final : str) : outcome ScramError str :=
  match PgText.split_once (lit ",p=") client_final with
  | None => Err InvalidClientFinalMessage
  | Some (without_proof, _) =>
      let combined := auth_message ex without_proof in
      match find_prefix (lit "p=") (rev (PgText.split "," client_final)) with
      | None => Err InvalidClientFinalMessage
      | Some proof_b64 =>
          match base64_decode proof_b64 with
          | None => Err InvalidClientFinalMessage
          | Some proof =>
              let client_signature := hmac_sha256 (stored_key (cred ex)) combined in
              if negb (length client_signature =? length proof) then Err AuthenticationFailed
              else
                let client_key := xor_bytes client_signature proof in
                if negb (constant_time_eq (sha256 client_key) (stored_key (cred ex)))
                then Err AuthenticationFailed
                else
                  let server_signature := hmac_sha256 (server_key (cred ex)) combined in
                  Ok (lit "v=" ++ base64_encode server_signature)
          end
      end
  end.

End Crypto.
(** ** Base64 round trip *)

Lemma lor_low hi lo n : (0 <= n)%Z -> (0 <= lo < 2 ^ n)%Z -> Z.lor (Z.shiftl hi n) lo = (hi * 2 ^ n + lo)%Z.
Proof.
  intros Hn Hlo. rewrite Z.shiftl_mul_pow2 by done. symmetry. apply Z.add_nocarry_lor.
  apply Z.bits_inj'. intros k Hk. rewrite Z.land_spec, Z.bits_0.
  destruct (Z.ltb_spec k n).
  - by rewrite Z.mul_pow2_bits_low.
  - assert (2 ^ n <= 2 ^ k)%Z by (apply Z.pow_le_mono_r; lia).
    rewrite (proj2 (Z.testbit_false lo k Hk)); [by rewrite andb_false_r|].
    by rewrite Z.div_small by lia.
Qed.

Lemma land_low b n : (0 <= n)%Z -> Z.land b (2 ^ n - 1) = (b mod 2 ^ n)%Z.
Proof. intros H. rewrite <- Z.land_ones by done. f_equal. rewrite Z.ones_equiv. lia. Qed.

(** A character of the alphabet decodes to its value, and is no padding. *)
Lemma table_values :
  forallb (fun i => (decode_at (table_at i) =? i)%Z && negb (Byte.eqb (table_at i) PAD)
                    && negb (Byte.eqb (table_at i) ","))
    (map Z.of_nat (seq 0 64)) = true.
Proof. vm_compute. reflexivity. Qed.

Lemma table_value i :
  (0 <= i < 64)%Z ->
  decode_at (table_at i) = i /\ Byte.eqb (table_at i) PAD = false /\ table_at i <> ","%byte.
Proof.
  intros Hi. assert (H := proj1 (forallb_forall _ _) table_values i).
  rewrite !andb_true_iff, !negb_true_iff, Z.eqb_eq in H.
  destruct H as [[H1 H2] H3].
  { apply in_map_iff. exists (Z.to_nat i). split; [lia|]. apply in_seq. lia. }
  split_and!; [done..|]. intros He. rewrite He in H3. by rewrite Byte.byte_dec_lb in H3.
Qed.

(** The four groups of six bits of three bytes. *)
Section Groups.
Context (c1 c2 c3 : byte).
Let b1 := b2z c1.
Let b2 := b2z c2.
Let b3 := b2z c3.

Lemma group_values :
  Z.shiftr b1 2 = (b1 / 4)%Z /\
  Z.lor (Z.shiftl (Z.land b1 3) 4) (Z.shiftr b2 4) = (b1 mod 4 * 16 + b2 / 16)%Z /\
  Z.lor (Z.shiftl (Z.land b2 15) 2) (Z.shiftr b3 6) = (b2 mod 16 * 4 + b3 / 64)%Z /\
  Z.land b3 63 = (b3 mod 64)%Z.
Proof.
  assert (H1 := b2z_range c1). assert (H2 := b2z_range c2). assert (H3 := b2z_range c3).
  fold b1 b2 b3 in H1, H2, H3. rewrite !Z.shiftr_div_pow2 by lia.
  change 3%Z with (2 ^ 2 - 1)%Z. change 15%Z with (2 ^ 4 - 1)%Z. change 63%Z with (2 ^ 6 - 1)%Z.
  rewrite !land_low by lia. change (2 ^ 4)%Z with 16%Z. change (2 ^ 6)%Z with 64%Z. change (2 ^ 2)%Z with 4%Z.
  rewrite !lor_low by (change (2 ^ 4)%Z with 16%Z; change (2 ^ 2)%Z with 4%Z; Z.to_euclidean_division_equations; lia).
  done.
Qed.

(** Decoding the groups. *)
Lemma group_decode v0 v1 v2 v3 :
  v0 = (b1 / 4)%Z -> v1 = (b1 mod 4 * 16 + b2 / 16)%Z ->
  v2 = (b2 mod 16 * 4 + b3 / 64)%Z -> v3 = (b3 mod 64)%Z ->
  z2b (Z.lor (Z.shiftl v0 2) (Z.shiftr v1 4)) = c1 /\
  z2b (Z.lor (Z.shiftl v1 4) (Z.shiftr v2 2)) = c2 /\
  z2b (Z.lor (Z.shiftl v2 6) v3) = c3.
Proof.
  intros -> -> -> ->.
  assert (H1 := b2z_range c1). assert (H2 := b2z_range c2). assert (H3 := b2z_range c3).
  fold b1 b2 b3 in H1, H2, H3. rewrite !Z.shiftr_div_pow2 by lia.
  change (2 ^ 4)%Z with 16%Z. change (2 ^ 2)%Z with 4%Z.
  replace ((b1 mod 4 * 16 + b2 / 16) / 16)%Z with (b1 mod 4)%Z by (Z.to_euclidean_division_equations; lia).
  replace ((b2 mod 16 * 4 + b3 / 64) / 4)%Z with (b2 mod 16)%Z by (Z.to_euclidean_division_equations; lia).
  rewrite !lor_low by (change (2 ^ 4)%Z with 16%Z; change (2 ^ 2)%Z with 4%Z; change (2 ^ 6)%Z with 64%Z;
                       Z.to_euclidean_division_equations; lia).
  change (2 ^ 4)%Z with 16%Z. change (2 ^ 2)%Z with 4%Z. change (2 ^ 6)%Z with 64%Z.
  split_and!; apply b2z_inj; rewrite b2z_z2b; fold b1 b2 b3; Z.to_euclidean_division_equations; lia.
Qed.

Lemma group_range :
  (0 <= b1 / 4 < 64)%Z /\ (0 <= b1 mod 4 * 16 + b2 / 16 < 64)%Z /\
  (0 <= b2 mod 16 * 4 + b3 / 64 < 64)%Z /\ (0 <= b3 mod 64 < 64)%Z.
Proof.
  assert (H1 := b2z_range c1). assert (H2 := b2z_range c2). assert (H3 := b2z_range c3).
  fold b1 b2 b3 in H1, H2, H3.
  split_and!; Z.to_euclidean_division_equations; lia.
Qed.
End Groups.

(** Decoding from the values of the characters. *)
Lemma decode_quad i0 i1 i2 i3 rest out :
  (0 <= i0 < 64)%Z -> (0 <= i1 < 64)%Z -> (0 <= i2 < 64)%Z -> (0 <= i3 < 64)%Z ->
  decode_loop (table_at i0 :: table_at i1 :: table_at i2 :: table_at i3 :: rest) out =
  decode_loop rest (out ++ [z2b (Z.lor (Z.shiftl i0 2) (Z.shiftr i1 4));
                            z2b (Z.lor (Z.shiftl i1 4) (Z.shiftr i2 2));
                            z2b (Z.lor (Z.shiftl i2 6) i3)]) /\
  decode_loop [table_at i0; table_at i1; table_at i2; PAD] out =
    Some (out ++ [z2b (Z.lor (Z.shiftl i0 2) (Z.shiftr i1 4)); z2b (Z.lor (Z.shiftl i1 4) (Z.shiftr i2 2))]) /\
  decode_loop [table_at i0; table_at i1; PAD; PAD] out =
    Some (out ++ [z2b (Z.lor (Z.shiftl i0 2) (Z.shiftr i1 4))]).
Proof.
  intros H0 H1 H2 H3.
  destruct (table_value i0 H0) as (V0 & P0 & _). destruct (table_value i1 H1) as (V1 & P1 & _).
  destruct (table_value i2 H2) as (V2 & P2 & _). destruct (table_value i3 H3) as (V3 & P3 & _).
  cbn [decode_loop]. rewrite P0, P1, P2, P3, V0, V1, V2, V3. rewrite (Byte.byte_dec_lb eq_refl).
  by rewrite <- !app_assoc.
Qed.

Lemma decode_encoded n l out : length l <= n -> decode_loop (base64_encode l) out = Some (out ++ l).
Proof.
  revert l out. induction n as [|n IH]; intros l out Hl.
  { destruct l; [|simpl in Hl; lia]. simpl. by rewrite app_nil_r. }
  destruct l as [|c1 [|c2 [|c3 l]]]; cbn [base64_encode].
  - cbn [decode_loop]. by rewrite app_nil_r.
  - change (Z.shiftr 0 4) with (Z.shiftr (b2z x00) 4). destruct (group_values c1 x00 x00) as (G0 & G1 & G2 & G3).
    rewrite G0, G1. destruct (group_range c1 x00 x00) as (R0 & R1 & R2 & R3).
    destruct (decode_quad _ _ 0 0 [] out R0 R1) as (_ & _ & ->); [lia..|].
    destruct (group_decode c1 x00 x00 _ _ _ _ eq_refl eq_refl eq_refl eq_refl) as (-> & _ & _). done.
  - change (Z.shiftr 0 6) with (Z.shiftr (b2z x00) 6). destruct (group_values c1 c2 x00) as (G0 & G1 & G2 & G3).
    rewrite G0, G1, G2. destruct (group_range c1 c2 x00) as (R0 & R1 & R2 & R3).
    destruct (decode_quad _ _ _ 0 [] out R0 R1 R2) as (_ & -> & _); [lia..|].
    destruct (group_decode c1 c2 x00 _ _ _ _ eq_refl eq_refl eq_refl eq_refl) as (-> & -> & _). done.
  - destruct (group_values c1 c2 c3) as (-> & -> & -> & ->).
    destruct (group_range c1 c2 c3) as (R0 & R1 & R2 & R3).
    destruct (decode_quad _ _ _ _ (base64_encode l) out R0 R1 R2 R3) as (-> & _).
    destruct (group_decode c1 c2 c3 _ _ _ _ eq_refl eq_refl eq_refl eq_refl) as (-> & -> & ->).
    rewrite IH by (simpl in Hl; lia). by rewrite <- app_assoc.
Qed.

Lemma base64_inverse l : base64_decode (base64_encode l) = Some l.
Proof. unfold base64_decode. by rewrite (decode_encoded (length l)). Qed.

(** whatever the bytes, [base64_decode] inverts
    [base64_encode], padding included. *)
Theorem base64_round_trip l : base64_decode (base64_encode l) = Some l.
Proof. apply base64_inverse. Qed.

(** The decoder takes characters outside the alphabet for the value 255. *)
Example base64_decodes_junk : base64_decode (lit "!!!!") = Some [xff; xff; xff].
Proof. reflexivity. Qed.

Lemma encode_no_comma n l : length l <= n -> ","%byte ∉ base64_encode l.
Proof.
  revert l. induction n as [|n IH]; intros l Hl.
  { destruct l; [|simpl in Hl; lia]. set_solver. }
  destruct l as [|c1 [|c2 [|c3 l]]]; cbn [base64_encode]; [set_solver|..].
  - change (Z.shiftr 0 4) with (Z.shiftr (b2z x00) 4). destruct (group_values c1 x00 x00) as (G0 & G1 & _ & _).
    rewrite G0, G1. destruct (group_range c1 x00 x00) as (R0 & R1 & _ & _).
    apply table_value in R0 as (_ & _ & N0), R1 as (_ & _ & N1).
    rewrite !not_elem_of_cons. split_and!; try done; set_solver.
  - change (Z.shiftr 0 6) with (Z.shiftr (b2z x00) 6). destruct (group_values c1 c2 x00) as (G0 & G1 & G2 & _).
    rewrite G0, G1, G2. destruct (group_range c1 c2 x00) as (R0 & R1 & R2 & _).
    apply table_value in R0 as (_ & _ & N0), R1 as (_ & _ & N1), R2 as (_ & _ & N2).
    rewrite !not_elem_of_cons. split_and!; try done; set_solver.
  - destruct (group_values c1 c2 c3) as (-> & -> & -> & ->).
    destruct (group_range c1 c2 c3) as (R0 & R1 & R2 & R3).
    apply table_value in R0 as (_ & _ & N0), R1 as (_ & _ & N1), R2 as (_ & _ & N2), R3 as (_ & _ & N3).
    rewrite !not_elem_of_cons. split_and!; try done. apply IH. simpl in Hl. lia.
Qed.

Lemma base64_no_comma l : ","%byte ∉ base64_encode l.
Proof. by apply (encode_no_comma (length l)). Qed.

(** ** The exchange *)

Lemma lor_fold_zero l acc :
  (fold_left Z.lor l acc =? 0)%Z = true <-> acc = 0%Z /\ Forall (eq 0%Z) l.
Proof.
  revert acc. induction l as [|x l IH]; intros acc; cbn [fold_left].
  { rewrite Z.eqb_eq. split; [by intros ->|by intros [-> _]]. }
  rewrite IH, Z.lor_eq_0_iff, Forall_cons. intuition congruence.
Qed.

Lemma constant_time_eq_spec a b : constant_time_eq a b = true <-> a = b.
Proof.
  unfold constant_time_eq. destruct (Nat.eqb_spec (length a) (length b)) as [Hl|Hl];
    [|split; [done|by intros ->]].
  rewrite lor_fold_zero. split.
  - intros [_ Hf]. revert b Hl Hf. induction a as [|x a IH]; intros [|y b] Hl Hf; try done.
    cbn [zip_with] in Hf. apply Forall_cons in Hf as [Hx Hf]. f_equal; [|by apply IH; [injection Hl|]].
    symmetry in Hx. apply Z.lxor_eq in Hx. by apply b2z_inj.
  - intros ->. split; [done|]. clear Hl. induction b as [|x b IH]; [constructor|]. constructor; [|done].
    by rewrite Z.lxor_nilpotent.
Qed.

Lemma lxor_byte a b : (0 <= Z.lxor (b2z a) (b2z b) < 256)%Z.
Proof.
  assert (Ha := b2z_range a). assert (Hb := b2z_range b).
  split; [apply Z.lxor_nonneg; lia|].
  assert (Hl : forall x, (0 <= x < 256)%Z -> (Z.log2 x < 8)%Z).
  { intros x Hx. destruct (decide (x = 0%Z)) as [->|]; [done|]. apply Z.log2_lt_pow2; [lia|]. simpl. lia. }
  assert (Hx := Z.log2_lxor (b2z a) (b2z b) ltac:(lia) ltac:(lia)).
  assert (Ha8 := Hl _ Ha). assert (Hb8 := Hl _ Hb).
  apply (Z.log2_lt_cancel _ (2 ^ 8)). rewrite Z.log2_pow2 by lia. lia.
Qed.

Lemma xor_byte_cancel a b : xor_byte a (xor_byte b a) = b.
Proof.
  unfold xor_byte. apply b2z_inj. rewrite !b2z_z2b. rewrite (Z.mod_small (Z.lxor (b2z b) (b2z a))) by apply lxor_byte.
  rewrite (Z.lxor_comm (b2z b)), <- Z.lxor_assoc, Z.lxor_nilpotent, Z.lxor_0_l.
  apply Z.mod_small, b2z_range.
Qed.

Lemma xor_bytes_cancel a b : length a = length b -> xor_bytes a (xor_bytes b a) = b.
Proof.
  revert b. induction a as [|x a IH]; intros [|y b] H; try done. unfold xor_bytes in *. cbn [zip_with].
  f_equal; [apply xor_byte_cancel|]. apply IH. by injection H.
Qed.

Lemma xor_bytes_length a b : length (xor_bytes a b) = length a `min` length b.
Proof. unfold xor_bytes. apply length_zip_with. Qed.

(** The client's messages. *)
Definition client_first_message (user nonce : str) : str :=
  lit "n,," ++ lit "n=" ++ user ++ lit ",r=" ++ nonce.
Definition client_final_bare (cb nonce : str) : str := lit "c=" ++ cb ++ lit ",r=" ++ nonce.
Definition client_final_message (cb nonce : str) (proof : list byte) : str :=
  client_final_bare cb nonce ++ lit ",p=" ++ base64_encode proof.

Abbreviation comma_free s := (","%byte ∉ s).

Lemma split_final cb nonce proof :
  comma_free cb -> comma_free nonce ->
  PgText.split_once (lit ",p=") (client_final_message cb nonce proof)
    = Some (client_final_bare cb nonce, base64_encode proof) /\
  find_prefix (lit "p=") (rev (PgText.split "," (client_final_message cb nonce proof)))
    = Some (base64_encode proof).
Proof.
  intros Hc Hn.
  assert (E : client_final_message cb nonce proof =
    (lit "c=" ++ cb) ++ ","%byte :: (lit "r=" ++ nonce) ++ ","%byte :: lit "p=" ++ base64_encode proof).
  { unfold client_final_message, client_final_bare. rewrite <- !app_assoc. reflexivity. }
  assert (H1 : comma_free (lit "c=" ++ cb)) by set_solver.
  assert (H2 : comma_free (lit "r=" ++ nonce)) by set_solver.
  assert (H3 : comma_free (lit "p=" ++ base64_encode proof)) by (pose proof (base64_no_comma proof); set_solver).
  rewrite E. split.
  - change (lit ",p=") with (","%byte :: lit "p="). rewrite PgText.split_once_skip by done.
    change (","%byte :: lit "p=" ++ base64_encode proof) with ((","%byte :: lit "p=") ++ base64_encode proof).
    rewrite PgText.split_once_app by done. unfold client_final_bare. cbn [fmap option_fmap option_map fst snd].
    by rewrite <- app_assoc.
  - rewrite !PgText.split_app by done. by rewrite PgText.split_clean by done.
Qed.

Section Exchange.
Context `{Crypto}.

(** The first message of the server for a well-formed first message of the client. *)
Definition server_first_message (random : list byte) (nonce : str) (c : StoredCredential) : str :=
  lit "r=" ++ (nonce ++ random_nonce random) ++ lit ",s=" ++ base64_encode (salt c)
  ++ lit ",i=" ++ Lexer.int_to_string (iteration_count c).

Lemma client_first_ok random user nonce ex :
  comma_free user -> comma_free nonce ->
  process_client_first random (client_first_message user nonce) ex =
    (Ok (server_first_message random nonce (cred ex)),
     mkExchange (lit "n=" ++ user ++ lit ",r=" ++ nonce) (server_first_message random nonce (cred ex)) (cred ex)).
Proof.
  intros Hu Hn. unfold process_client_first, bare_of, client_first_message.
  rewrite PgText.strip_prefix_app.
  assert (E : lit "n=" ++ user ++ lit ",r=" ++ nonce = (lit "n=" ++ user) ++ ","%byte :: lit "r=" ++ nonce)
    by (rewrite <- !app_assoc; reflexivity).
  rewrite E, PgText.split_app, PgText.split_clean by set_solver.
  change (find_prefix (lit "r=") [lit "n=" ++ user; lit "r=" ++ nonce]) with (PgText.strip_prefix (lit "r=") (lit "r=" ++ nonce)).
  by rewrite PgText.strip_prefix_app.
Qed.

(** What is checked of a well-formed final message. *)
Definition key_check (ex : ScramExchange) (without_proof : str) (proof : list byte) : Prop :=
  length (hmac_sha256 (stored_key (cred ex)) (auth_message ex without_proof)) = length proof /\
  sha256 (xor_bytes (hmac_sha256 (stored_key (cred ex)) (auth_message ex without_proof)) proof)
    = stored_key (cred ex).

Definition server_final (ex : ScramExchange) (without_proof : str) : str :=
  lit "v=" ++ base64_encode (hmac_sha256 (server_key (cred ex)) (auth_message ex without_proof)).

(** What a final message presents: the part before its proof, which is signed,
    and the proof. *)
Definition presented (m : str) : option (str * list byte) :=
  match PgText.split_once (lit ",p=") m, find_prefix (lit "p=") (rev (PgText.split "," m)) with
  | Some (without_proof, _), Some b64 => pair without_proof <$> base64_decode b64
  | _, _ => None
  end.

Lemma final_checked ex m v :
  process_client_final ex m = Ok v ->
  exists wp proof, presented m = Some (wp, proof) /\ key_check ex wp proof /\ v = server_final ex wp.
Proof.
  unfold process_client_final, presented. intros Hm.
  destruct (PgText.split_once (lit ",p=") m) as [[wp rest]|]; [|done].
  destruct (find_prefix (lit "p=") _) as [b64|]; [|done].
  destruct (base64_decode b64) as [proof|]; [|done].
  destruct (Nat.eqb_spec (length (hmac_sha256 (stored_key (cred ex)) (auth_message ex wp))) (length proof))
    as [Hl|]; [|done]. cbn [negb] in Hm.
  destruct (constant_time_eq _ _) eqn:Ec; [|done]. apply constant_time_eq_spec in Ec.
  cbn [negb] in Hm. injection Hm as <-. by exists wp, proof.
Qed.

Lemma final_accepts ex cb nonce proof :
  comma_free cb -> comma_free nonce -> key_check ex (client_final_bare cb nonce) proof ->
  process_client_final ex (client_final_message cb nonce proof)
    = Ok (server_final ex (client_final_bare cb nonce)).
Proof.
  intros Hc Hn [Hl Hk]. destruct (split_final cb nonce proof Hc Hn) as [H1 H2].
  unfold process_client_final. rewrite H1, H2, base64_inverse, Hl, Nat.eqb_refl. cbn [negb].
  by rewrite (proj2 (constant_time_eq_spec _ _) Hk).
Qed.

(** The proof a client that knows the password computes. *)
Definition client_key (password slt : list byte) (iter : Z) : list byte :=
  hmac_sha256 (pbkdf2_hmac_sha256 password slt iter) (lit "Client Key").
Definition client_proof (password : list byte) (ex : ScramExchange) (without_proof : str) : list byte :=
  xor_bytes (client_key password (salt (cred ex)) (iteration_count (cred ex)))
            (hmac_sha256 (stored_key (cred ex)) (auth_message ex without_proof)).

(** C23: SCRAM completeness.  For a credential
    derived from a password, whatever its salt and iteration count, the client
    that knows the password is accepted: its first message is answered by the
    server's first message, and its proof over the exchanged messages by the
    server's signature.  (Nothing ties the nonce of the final message to the
    nonce the server chose: any [nonce'] is accepted.)  HMAC's results have
    one length. *)
Theorem scram_accepts_the_password (password slt random : list byte) user nonce cb nonce' iter n :
  (forall k d, length (hmac k d) = n) ->
  comma_free user -> comma_free nonce -> comma_free cb -> comma_free nonce' ->
  let ex0 := mkExchange [] [] (derive_credential password slt iter) in
  exists sf ex,
    process_client_first random (client_first_message user nonce) ex0 = (Ok sf, ex) /\
    PgText.starts_with (lit "r=" ++ nonce) sf = true /\
    process_client_final ex
      (client_final_message cb nonce' (client_proof password ex (client_final_bare cb nonce')))
      = Ok (server_final ex (client_final_bare cb nonce')).
Proof.
  intros Hh Hu Hn Hc Hn' ex0. do 2 eexists. split_and!; [by apply client_first_ok|..].
  { apply bool_decide_eq_true. unfold server_first_message.
    rewrite <- (app_assoc nonce), app_assoc. rewrite PgText.strip_prefix_app. by eexists. }
  apply final_accepts; [done..|]. unfold key_check, client_proof. cbn [cred].
  rewrite xor_bytes_cancel by (unfold hmac_sha256, client_key; by rewrite !Hh).
  split; [|done]. rewrite xor_bytes_length. unfold hmac_sha256, client_key. rewrite !Hh. lia.
Qed.

(** SCRAM soundness.  A final message is accepted
    only if the proof it carries, combined with the signature of the exchanged
    messages, is a preimage of the stored key; the answer is the server's
    signature of the same messages. *)
Theorem scram_proof_is_of_the_key ex m v :
  process_client_final ex m = Ok v ->
  exists wp proof, presented m = Some (wp, proof) /\
    sha256 (xor_bytes (hmac_sha256 (stored_key (cred ex)) (auth_message ex wp)) proof) = stored_key (cred ex) /\
    v = lit "v=" ++ base64_encode (hmac_sha256 (server_key (cred ex)) (auth_message ex wp)).
Proof. intros Hm. apply final_checked in Hm as (wp & proof & Hp & [_ Hk] & ->). by exists wp, proof. Qed.
End Exchange.

(** A toy instance for the examples: sums of bytes at a fixed length. *)
Definition toy_sum (l : list byte) : Z := fold_left (fun a b => (a * 7 + b2z b + 1) mod 256)%Z l 3%Z.
Definition toy_crypto : Crypto :=
  {| hmac k d := map (fun i => z2b (toy_sum (k ++ [z2b (Z.of_nat i)] ++ d))) (seq 0 4);
     digest d := map (fun i => z2b (toy_sum (d ++ [z2b (Z.of_nat i)]))) (seq 0 4) |}.

Lemma scram_accepts_the_password_witness :
  let _ := toy_crypto in
  let ex0 := mkExchange [] [] (derive_credential (lit "secret") [x01; x02] 2) in
  exists sf ex,
    process_client_first [x05] (client_first_message (lit "alice") (lit "abc")) ex0 = (Ok sf, ex) /\
    PgText.starts_with (lit "r=" ++ lit "abc") sf = true /\
    process_client_final ex
      (client_final_message (lit "biws") (lit "abcF") (client_proof (lit "secret") ex (client_final_bare (lit "biws") (lit "abcF"))))
      = Ok (server_final ex (client_final_bare (lit "biws") (lit "abcF"))).
Proof.
  intros C. apply (scram_accepts_the_password (H := C) _ _ _ _ _ _ _ _ 4);
    [intros k d; reflexivity|..];
    apply (bool_decide_unpack _); vm_compute; exact I.
Defined.

Definition toy_exchange : ScramExchange :=
  mkExchange (lit "n=a,r=b") (lit "r=bX,s=,i=1") (@derive_credential toy_crypto (lit "secret") [x01] 1).
Definition toy_final : str :=
  client_final_message (lit "biws") (lit "bX")
    (@client_proof toy_crypto (lit "secret") toy_exchange (client_final_bare (lit "biws") (lit "bX"))).

Lemma scram_proof_is_of_the_key_witness :
  exists v, @process_client_final toy_crypto toy_exchange toy_final = Ok v /\
  exists wp proof, presented toy_final = Some (wp, proof) /\
    @sha256 toy_crypto (xor_bytes (@hmac_sha256 toy_crypto (stored_key (cred toy_exchange)) (auth_message toy_exchange wp)) proof)
      = stored_key (cred toy_exchange) /\
    v = lit "v=" ++ base64_encode (@hmac_sha256 toy_crypto (server_key (cred toy_exchange)) (auth_message toy_exchange wp)).
Proof.
  assert (Hv : @process_client_final toy_crypto toy_exchange toy_final
    = Ok (@server_final toy_crypto toy_exchange (client_final_bare (lit "biws") (lit "bX")))) by (vm_compute; reflexivity).
  eexists. split; [exact Hv|]. exact (@scram_proof_is_of_the_key toy_crypto _ _ _ Hv).
Defined.

End PgScram.
