(* ===== verification/PgSession.v ===== *)
(** * PgSession: connections' sessions, metrics, startup and authentication
    ([session.rs], [metrics.rs], [extended.rs] and the handlers of [startup.rs]
    in [crates/out-archon-pgwire/src])

    A session holds handles to the shared database and to the shared metrics;
    both are part of the state the handlers run in, beside the session. *)
From Stdlib Require Import ZArith Lia Strings.Byte Strings.String.
From stdpp Require Import base numbers option list gmap.
From S2P Require Import Prelude Ast Lexer PgText PgCodec PgScram.

Module PgSession.
Import Ast(str, lit).

(** ** Metrics: atomic 64-bit counters *)

Record Metrics : Type := mkMetrics {
  connections_accepted : Z;
  connections_closed : Z;
  statements_executed : Z;
  errors : Z;
  bytes_sent : Z
}.

Definition metrics_new : Metrics := mkMetrics 0 0 0 0 0.

(** [fetch_add] wraps around. *)
Definition record_connection_accepted (m : Metrics) : Metrics :=
  mkMetrics (wrap64 (connections_accepted m + 1)) (connections_closed m) (statements_executed m) (errors m) (bytes_sent m).
Definition record_connection_closed (m : Metrics) : Metrics :=
  mkMetrics (connections_accepted m) (wrap64 (connections_closed m + 1)) (statements_executed m) (errors m) (bytes_sent m).
Definition record_statement (m : Metrics) : Metrics :=
  mkMetrics (connections_accepted m) (connections_closed m) (wrap64 (statements_executed m + 1)) (errors m) (bytes_sent m).
Definition record_error (m : Metrics) : Metrics :=
  mkMetrics (connections_accepted m) (connections_closed m) (statements_executed m) (wrap64 (errors m + 1)) (bytes_sent m).
Definition record_bytes_sent (n : Z) (m : Metrics) : Metrics :=
  mkMetrics (connections_accepted m) (connections_closed m) (statements_executed m) (errors m) (wrap64 (bytes_sent m + n)).

(** The counters of [snapshot] (its uptime is the clock's). *)
Definition snapshot (m : Metrics) : Metrics := m.

Definition prometheus_entry (name help : string) (v : Z) : str :=
  lit "# HELP archon_" ++ lit name ++ lit " " ++ lit help ++ [x0a]
  ++ lit "# TYPE archon_" ++ lit name ++ lit " counter" ++ [x0a]
  ++ lit "archon_" ++ lit name ++ lit " " ++ Lexer.int_to_string v ++ [x0a].

Definition as_prometheus (m : Metrics) : str :=
  prometheus_entry "connections_accepted" "Total accepted connections" (connections_accepted m)
  ++ prometheus_entry "connections_closed" "Total closed connections" (connections_closed m)
  ++ prometheus_entry "statements_executed" "Total statements executed" (statements_executed m)
  ++ prometheus_entry "errors" "Total errors returned" (errors m)
  ++ prometheus_entry "bytes_sent" "Total bytes sent to clients" (bytes_sent m).

(** ** Sessions *)

Inductive SessionTxnStatus : Type := Idle | InTransaction | Failed.

#[export] Instance SessionTxnStatus_eq_dec : EqDecision SessionTxnStatus.
Proof. solve_decision. Defined.

(** [SessionTxnStatus::as_byte]. *)
Definition as_byte (t : SessionTxnStatus) : byte :=
  match t with Idle => "I"%byte | InTransaction => "T"%byte | Failed => "E"%byte end.

Definition to_transaction_status (t : SessionTxnStatus) : PgCodec.TxnStatus :=
  match t with
  | Idle => PgCodec.Idle
  | InTransaction => PgCodec.InTransaction
  | Failed => PgCodec.Failed
  end.

(** The handles [database] and [metrics] are not fields: what they point to is
    passed along. *)
Record Session : Type := mkSession {
  txn_status : SessionTxnStatus;
  pid : Z;
  secret : Z;
  params : list (str * str);
  id : Z;
  auth_store : option PgScram.AuthStore;
  scram_state : option PgScram.ScramExchange;
  statement_timeout_ms : option Z
}.

(** [Session::new] and [Session::with_database]; [sid] is the identity
    [SessionId::new] draws from its counter. *)
Definition new (sid : Z) : Session := mkSession Idle 0 0 [] sid None None None.
Definition with_database (sid : Z) : Session := new sid.
Definition with_auth_store (sid : Z) (store : PgScram.AuthStore) : Session :=
  mkSession Idle 0 0 [] sid (Some store) None None.

Definition set_status (t : SessionTxnStatus) (s : Session) : Session :=
  mkSession t (pid s) (secret s) (params s) (id s) (auth_store s) (scram_state s) (statement_timeout_ms s).
Definition set_params (p : list (str * str)) (s : Session) : Session :=
  mkSession (txn_status s) (pid s) (secret s) p (id s) (auth_store s) (scram_state s) (statement_timeout_ms s).
Definition set_scram (x : option PgScram.ScramExchange) (s : Session) : Session :=
  mkSession (txn_status s) (pid s) (secret s) (params s) (id s) (auth_store s) x (statement_timeout_ms s).
Definition set_timeout (t : option Z) (s : Session) : Session :=
  mkSession (txn_status s) (pid s) (secret s) (params s) (id s) (auth_store s) (scram_state s) t.

(** [u64::saturating_mul]. *)
Definition saturating_mul (a b : Z) : Z := Z.min (a * b) u64_max.

Definition parse_statement_timeout (value : str) : option Z :=
  let v := Lexer.to_ascii_lowercase (PgText.trim value) in
  if bool_decide (v ∈ [[]; lit "off"; lit "0"; lit "0ms"]) then Some 0%Z
  else
    let n := Lexer.span Lexer.is_ascii_digit v in
    let '(num, unit) :=
      if n =? length v then (v, []) else (PgText.trim (take n v), PgText.trim (drop n v)) in
    match PgText.parse_u64 num with
    | None => None
    | Some k =>
        if bool_decide (unit ∈ [[]; lit "ms"]) then Some k
        else if bool_decide (unit = lit "s") then Some (saturating_mul k 1000)
        else if bool_decide (unit ∈ [lit "min"; lit "m"]) then Some (saturating_mul k 60000)
        else None
    end.

Definition set_statement_timeout (ms : Z) (s : Session) : Session :=
  set_timeout (if (ms =? 0)%Z then None else Some ms) s.

Definition begin (s : Session) : Session := set_status InTransaction s.
Definition commit (s : Session) : Session := set_status Idle s.
Definition rollback (s : Session) : Session := set_status Failed s.
Definition set_failed (s : Session) : Session := set_status Failed s.
Definition mark_transaction_failed (s : Session) : Session := set_status Failed s.

Definition set_parameter (key value : str) (s : Session) : Session :=
  set_params (List.filter (fun kv => negb (bool_decide (kv.1 = key))) (params s) ++ [(key, value)]) s.

(** ** Startup and passwords *)

Definition status (name value : string) (out : list byte) : list byte :=
  PgCodec.write_parameter_status (lit name) (lit value) out.

Definition handle_startup (msg : PgCodec.StartupMessage) (s : Session) : list byte * Session :=
  let s := set_params (PgCodec.params msg) s in
  let head := PgCodec.write_backend_key_data (pid s) (secret s) [] in
  let settings := status "standard_conforming_strings" "on" (status "integer_datetimes" "on"
    (status "TimeZone" "Etc/UTC" (status "DateStyle" "ISO, MDY" (status "client_encoding" "UTF8"
      (status "server_encoding" "UTF8" (status "server_version" "0.1.0-archon" [])))))) in
  let out := head ++ settings in
  match auth_store s with
  | Some _ => (out ++ PgCodec.write_auth_sasl [lit "SCRAM-SHA-256"] [], s)
  | None =>
      (out ++ PgCodec.write_auth_ok []
           ++ PgCodec.write_ready_for_query (to_transaction_status (txn_status s)) [], s)
  end.

Definition handle_password (password : str) (s : Session) : list byte * Session :=
  (PgCodec.write_auth_ok [] ++ PgCodec.write_ready_for_query PgCodec.Idle [], s).

Definition error_frame (msg code : string) : list byte :=
  PgCodec.write_error_response (lit msg) (Some (lit code)) [].

(** The user name of a client-first message, empty if there is none. *)
Definition username_of (client_data : str) : str :=
  let first (s : str) := default [] (head (PgText.split "," s)) in
  match PgText.strip_prefix (lit "n,,n=") client_data with
  | Some r => first r
  | None => match PgText.split_once (lit ",,n=") client_data with
            | Some (_, rest) => first rest
            | None => []
            end
  end.

Section Scram.
Context `{PgScram.Crypto}.

(** The frames that let a client in. *)
Definition authenticated (server_final : str) : list byte :=
  PgCodec.write_auth_sasl_final server_final [] ++ PgCodec.write_auth_ok []
  ++ PgCodec.write_ready_for_query PgCodec.Idle [].

(** [random] is the bytes of the server's nonce. *)
Definition handle_scram_auth (random : list byte) (mechanism client_data : str) (s : Session) : list byte * Session :=
  if negb (bool_decide (mechanism = lit "SCRAM-SHA-256")) then handle_password [] s
  else
    match auth_store s with
    | None => handle_password [] s
    | Some store =>
        if negb (PgText.starts_with (lit "c=") client_data) then
          let username := username_of client_data in
          match PgScram.get username store, negb (bool_decide (username = [])) with
          | Some c, true =>
              match PgScram.process_client_first random client_data (PgScram.mkExchange [] [] c) with
              | (Ok server_first, exchange) =>
                  (PgCodec.write_auth_sasl_continue server_first [], set_scram (Some exchange) s)
              | _ => (error_frame "SCRAM authentication failed" "28000", s)
              end
          | _, _ => (error_frame "password authentication failed" "28P01", s)
          end
        else
          match scram_state s with
          | None => (error_frame "SCRAM authentication failed" "28000", s)
          | Some exchange =>
              let s := set_scram None s in
              match PgScram.process_client_final exchange client_data with
              | Ok server_final => (authenticated server_final, s)
              | _ => (error_frame "password authentication failed" "28P01", s)
              end
          end
    end.

End Scram.

(** ** The extended protocol's stubs *)

Definition handle_parse (s : Session) : list byte := PgCodec.write_parse_complete [].
Definition handle_bind (s : Session) : list byte := PgCodec.write_bind_complete [].
Definition handle_describe (s : Session) : list byte := PgCodec.write_no_data [].
Definition handle_execute (s : Session) : list byte := PgCodec.write_portal_suspended [].
Definition handle_sync (s : Session) : list byte := PgCodec.write_ready_for_query PgCodec.Idle [].
Definition handle_close (s : Session) : list byte := PgCodec.write_close_complete [].

(** ** Laws *)

Example timeout_ex :
  map parse_statement_timeout
    [lit "0"; lit "off"; lit "5000"; lit "5s"; lit "100ms"; lit "2min"; lit " 3 s "; lit "bogus"]
  = [Some 0; Some 0; Some 5000; Some 5000; Some 100; Some 120000; Some 3000; None]%Z.
Proof. vm_compute. reflexivity. Qed.

(** A timeout is a [u64] whatever the text. *)
Lemma parse_u64_range s n : PgText.parse_u64 s = Some n -> is_u64 n.
Proof.
  unfold PgText.parse_u64. destruct s as [|b s]; [done|]. intros H.
  destruct (forallb Lexer.is_ascii_digit (b :: s)) eqn:Ef; cbn [andb] in H; [|done].
  destruct (Z.ltb_spec (Lexer.digits_val 0 (b :: s)) (2 ^ 64)) as [Hlt|]; [|done].
  injection H as <-. split; [|exact Hlt].
  assert (Hd : forall l a, (0 <= a)%Z -> forallb Lexer.is_ascii_digit l = true -> (0 <= Lexer.digits_val a l)%Z).
  { induction l as [|c l IH]; intros a Ha Hl; [done|]. cbn [forallb] in Hl. apply andb_true_iff in Hl as [Hc Hl].
    unfold Lexer.digits_val in *. cbn [fold_left]. apply IH; [|done].
    unfold Lexer.is_ascii_digit, Lexer.in_range in Hc. apply andb_true_iff in Hc as [Hc%Z.leb_le _].
    change (b2z "0") with 48%Z in Hc. unfold Lexer.digit_val. lia. }
  exact (Hd (b :: s) 0%Z ltac:(lia) Ef).
Qed.

Lemma timeout_range value n : parse_statement_timeout value = Some n -> is_u64 n.
Proof.
  assert (Hs : forall k u, is_u64 k -> (0 <= u)%Z -> is_u64 (saturating_mul k u)).
  { intros k u [H0 H1] Hu. unfold saturating_mul, is_u64, u64_max. lia. }
  unfold parse_statement_timeout. case_bool_decide; [by intros [= <-]|].
  destruct (if _ =? _ then _ else _) as [num unit].
  destruct (PgText.parse_u64 num) as [k|] eqn:Ek; [|done]. apply parse_u64_range in Ek.
  repeat case_bool_decide; intros [= <-]; auto with lia.
Qed.

(** [params] as a map: one entry per key, the last value set. *)
Definition param (key : str) (s : Session) : option str :=
  snd <$> head (List.filter (fun kv => bool_decide (kv.1 = key)) (params s)).
Definition params_unique (s : Session) : Prop := NoDup (map fst (params s)).

Lemma set_parameter_unique key value s : params_unique s -> params_unique (set_parameter key value s).
Proof.
  unfold params_unique, set_parameter. cbn [params set_params]. rewrite map_app. intros H.
  apply NoDup_app. split_and!.
  - induction (params s) as [|[k v] l IH]; [constructor|]. cbn [map List.filter fst] in *.
    apply NoDup_cons in H as [Hk H]. case_bool_decide; cbn [negb]; [by apply IH|].
    cbn [map fst]. constructor; [|by apply IH]. intros Hin. apply Hk.
    apply list_elem_of_In, in_map_iff in Hin as ([k' v'] & <- & Hin). apply filter_In in Hin as [Hin _].
    apply list_elem_of_In, in_map_iff. by exists (k', v').
  - intros k Hk Hin. cbn in Hin. apply list_elem_of_singleton in Hin as ->.
    apply list_elem_of_In, in_map_iff in Hk as ([k' v'] & <- & Hk). apply filter_In in Hk as [_ Hk].
    by rewrite bool_decide_eq_true_2 in Hk.
  - repeat constructor. set_solver.
Qed.

Lemma filter_both {A} (p q : A -> bool) l :
  List.filter p (List.filter q l) = List.filter (fun x => p x && q x) l.
Proof.
  induction l as [|x l IH]; [done|]. cbn [List.filter]. destruct (q x); cbn [List.filter];
    rewrite ?andb_true_r, ?andb_false_r, IH; done.
Qed.

Lemma param_set key value k s :
  param k (set_parameter key value s) = if decide (k = key) then Some value else param k s.
Proof.
  unfold param, set_parameter. cbn [params set_params]. rewrite List.filter_app, filter_both.
  cbn [List.filter fst]. destruct (decide (k = key)) as [->|Hk].
  - rewrite bool_decide_eq_true_2 by done.
    assert (Hn : List.filter (fun x : str * str => bool_decide (x.1 = key) && negb (bool_decide (x.1 = key))) (params s) = []).
    { induction (params s) as [|kv l IH]; [done|]. cbn [List.filter]. by rewrite andb_negb_r. }
    by rewrite Hn.
  - rewrite bool_decide_eq_false_2 by congruence. rewrite app_nil_r. do 2 f_equal.
    induction (params s) as [|kv l IH]; [done|]. cbn [List.filter]. rewrite IH.
    case_bool_decide as H1; [|done]. by rewrite bool_decide_eq_false_2 by congruence.
Qed.

(** ** Logging in *)

Section Login.
Context `{PgScram.Crypto}.

(** A session with a store, whose exchange, if one is open, is with a user of it. *)
Definition guarded (store : PgScram.AuthStore) (s : Session) : Prop :=
  auth_store s = Some store /\
  forall ex, scram_state s = Some ex -> exists user, store !! user = Some (PgScram.cred ex).

Definition refused (out : list byte) : Prop := exists msg code, out = error_frame msg code.
Definition challenged (out : list byte) : Prop := exists sf, out = PgCodec.write_auth_sasl_continue sf [].

Lemma first_keeps_cred random m ex o ex' :
  PgScram.process_client_first random m ex = (o, ex') -> PgScram.cred ex' = PgScram.cred ex.
Proof.
  unfold PgScram.process_client_first. intros Hp. repeat case_match; simplify_eq; done.
Qed.

(** C12: what a SCRAM message can do to a session
    with a credential store.  It is refused, or answered by a challenge, or it
    ends the open exchange and lets the client in.  The latter only when the
    message itself presents a proof which, combined with the signature of the
    messages exchanged and of the message without its proof, is a preimage of
    the key stored for the user of the exchange, who is a user of the store; the
    client then gets the server's signature of the same messages.  The open
    exchange stays one with a user of the store. *)
Theorem scram_login_needs_a_users_key random data s store out s' :
  guarded store s ->
  handle_scram_auth random (lit "SCRAM-SHA-256") data s = (out, s') ->
  guarded store s' /\
  (refused out \/ (challenged out /\ is_Some (scram_state s')) \/
   exists user ex wp proof,
     scram_state s = Some ex /\ scram_state s' = None /\ store !! user = Some (PgScram.cred ex) /\
     PgScram.presented data = Some (wp, proof) /\
     PgScram.sha256 (PgScram.xor_bytes (PgScram.hmac_sha256 (PgScram.stored_key (PgScram.cred ex)) (PgScram.auth_message ex wp)) proof)
       = PgScram.stored_key (PgScram.cred ex) /\
     out = authenticated (PgScram.server_final ex wp)).
Proof.
  intros Hg0 Hh. assert (Hg1 := Hg0). destruct Hg1 as [Hst Hex]. unfold handle_scram_auth in Hh. rewrite Hst, bool_decide_eq_true_2 in Hh by done.
  cbn [negb] in Hh. destruct (PgText.starts_with (lit "c=") data) eqn:Ed; cbn [negb] in Hh.
  - destruct (scram_state s) as [ex|] eqn:Es.
    2: { simplify_eq. split; [done|]. left. by do 2 eexists. }
    destruct (Hex ex eq_refl) as [user Hu].
    assert (Hg : guarded store (set_scram None s)) by (by split).
    destruct (PgScram.process_client_final ex data) as [v|e|] eqn:Ef; simplify_eq; (split; [done|]).
    + right; right. apply PgScram.final_checked in Ef as (wp & proof & Hp & [_ Hk] & ->).
      by exists user, ex, wp, proof.
    + left. by do 2 eexists.
    + left. by do 2 eexists.
  - unfold PgScram.get in Hh. destruct (store !! username_of data) as [c|] eqn:Ec; cycle 1.
    { simplify_eq. split; [done|]. left. by do 2 eexists. }
    destruct (negb (bool_decide (username_of data = []))).
    2: { simplify_eq. split; [done|]. left. by do 2 eexists. }
    destruct (PgScram.process_client_first _ _ _) as [[sf|e|] ex] eqn:Ep; simplify_eq.
    + split; [|right; left; split; by eexists]. split; [done|]. intros ex' [= <-].
      exists (username_of data). apply first_keeps_cred in Ep. by rewrite Ep.
    + split; [done|]. left. by do 2 eexists.
    + split; [done|]. left. by do 2 eexists.
Qed.
End Login.

Definition toy_store : PgScram.AuthStore :=
  @PgScram.add_user PgScram.toy_crypto [x07; x08] (lit "alice") (lit "secret") ∅.
Definition toy_session : Session := with_auth_store 1 toy_store.

(** The session after a challenge, and the answer of a client with the password. *)
Definition toy_challenged : Session :=
  (@handle_scram_auth PgScram.toy_crypto [x01] (lit "SCRAM-SHA-256") (lit "n,,n=alice,r=abc") toy_session).2.
Definition toy_answer : str :=
  let ex := default (PgScram.mkExchange [] [] (@PgScram.derive_credential PgScram.toy_crypto [] [] 1)) (scram_state toy_challenged) in
  PgScram.client_final_message (lit "biws") (lit "abc")
    (@PgScram.client_proof PgScram.toy_crypto (lit "secret") ex (PgScram.client_final_bare (lit "biws") (lit "abc"))).

Lemma scram_login_needs_a_users_key_witness :
  guarded toy_store toy_challenged /\
  exists out s',
    @handle_scram_auth PgScram.toy_crypto [x01] (lit "SCRAM-SHA-256") toy_answer toy_challenged = (out, s') /\
    ~ refused out /\ scram_state s' = None /\ guarded toy_store s' /\
    exists wp proof, PgScram.presented toy_answer = Some (wp, proof).
Proof.
  assert (Hg : guarded toy_store toy_challenged).
  { split; [vm_compute; reflexivity|]. intros ex Hx. exists (lit "alice").
    assert (E : PgScram.cred <$> scram_state toy_challenged = toy_store !! lit "alice") by (vm_compute; reflexivity).
    rewrite Hx in E. by symmetry. }
  split; [exact Hg|].
  destruct (@handle_scram_auth PgScram.toy_crypto [x01] (lit "SCRAM-SHA-256") toy_answer toy_challenged)
    as [out s'] eqn:E.
  exists out, s'. split; [reflexivity|].
  assert (Ho : hd x00 out = "R"%byte) by (change out with (out, s').1; rewrite <- E; vm_compute; reflexivity).
  assert (Hs : scram_state s' = None) by (change s' with (out, s').2; rewrite <- E; vm_compute; reflexivity).
  destruct (@scram_login_needs_a_users_key PgScram.toy_crypto _ _ _ _ _ _ Hg E) as [Hg' Hor].
  assert (Hnr : ~ refused out) by (intros (msg & code & ->); discriminate Ho).
  split_and!; [exact Hnr|exact Hs|exact Hg'|].
  destruct Hor as [Hr|[[_ [ex Hx]]|(user & ex & wp & proof & _ & _ & _ & Hp & _)]].
  - destruct (Hnr Hr).
  - rewrite Hs in Hx. discriminate Hx.
  - exists wp, proof. exact Hp.
Defined.

(** Any other mechanism, and any cleartext password, is let in, also by a
    session that has a store. *)
Lemma other_mechanisms_are_trusted `{PgScram.Crypto} random mechanism data s :
  mechanism <> lit "SCRAM-SHA-256" ->
  (handle_scram_auth random mechanism data s).1
    = PgCodec.write_auth_ok [] ++ PgCodec.write_ready_for_query PgCodec.Idle [].
Proof. intros Hm. unfold handle_scram_auth. by rewrite bool_decide_eq_false_2. Qed.


End PgSession.
