(* ===== verification/PgError.v ===== *)
(** * PgError: SQLSTATE codes and error responses
    ([crates/out-archon-pgwire/src/error.rs] and [sqlstate.rs], and the
    [Display] of [DbError] in [crates/tpt-archon-relational/src/database/schema.rs])

    The crate has two tables of codes: [sqlstate.rs] serves the
    thread-per-connection server, [error.rs] the scheduled one. *)
From Stdlib Require Import ZArith Lia Strings.Byte Strings.String.
From stdpp Require Import base numbers option list.
From S2P Require Import Prelude Ast Value Lexer Codec PgText PgCodec.

Module PgError.
Import Ast(str, lit).
Import Codec.

(** ** [Display] of [DbError] *)

(** The derived [Debug] of [ExecError]. *)
Class DebugExec : Type := exec_debug : Value.ExecError -> str.

Section Display.
Context `{DebugExec}.

Definition display (e : DbError) : str :=
  match e with
  | UnknownColumn c => lit "unknown column: " ++ c
  | TypeMismatch => lit "type mismatch"
  | ColumnTypeMismatch c => lit "column type mismatch: " ++ c
  | ArityMismatch => lit "arity mismatch"
  | NotAVectorColumn c => lit "not a vector column: " ++ c
  | MissingParam => lit "missing parameter"
  | RowNotFound id => lit "row not found: " ++ Lexer.int_to_string id
  | CorruptRow id => lit "corrupt row: " ++ Lexer.int_to_string id
  | UnknownTable t => lit "unknown table: " ++ t
  | TransactionError msg => lit "transaction error: " ++ msg
  | TableAlreadyExists t => lit "table already exists: " ++ t
  | ViewAlreadyExists v => lit "view already exists: " ++ v
  | UnknownView v => lit "unknown view: " ++ v
  | RecursiveView v => lit "recursive view: " ++ v
  | Unsupported msg => lit "unsupported: " ++ msg
  | ColumnCountMismatch => lit "column count mismatch"
  | SubqueryCardinality msg => lit "subquery cardinality: " ++ msg
  | NotNullViolation c => lit "NOT NULL constraint violated: " ++ c
  | UniqueViolation c => lit "UNIQUE constraint violated: " ++ c
  | CheckViolation c => lit "CHECK constraint violated: " ++ c
  | ForeignKeyViolation c => lit "FOREIGN KEY constraint violated: " ++ c
  | Exec e => lit "execution error: " ++ exec_debug e
  end.

End Display.

(** ** [sqlstate.rs] *)

Module SqlState.
Definition FEATURE_NOT_SUPPORTED : str := lit "0A000".
Definition DUPLICATE_TABLE : str := lit "42P07".
Definition UNDEFINED_TABLE : str := lit "42P01".
Definition UNDEFINED_COLUMN : str := lit "42703".
Definition SYNTAX_ERROR : str := lit "42601".
Definition DATA_EXCEPTION : str := lit "22000".
Definition NOT_NULL_VIOLATION : str := lit "23502".
Definition FOREIGN_KEY_VIOLATION : str := lit "23503".
Definition UNIQUE_VIOLATION : str := lit "23505".
Definition CHECK_VIOLATION : str := lit "23514".
Definition INTERNAL_ERROR : str := lit "XX000".
Definition ACTIVE_SQL_TRANSACTION : str := lit "25001".

Definition sqlstate_for_db_error (err : DbError) : str :=
  match err with
  | UnknownColumn _ => UNDEFINED_COLUMN
  | TypeMismatch => DATA_EXCEPTION
  | ColumnTypeMismatch _ => DATA_EXCEPTION
  | ArityMismatch => DATA_EXCEPTION
  | NotAVectorColumn _ => DATA_EXCEPTION
  | MissingParam => DATA_EXCEPTION
  | RowNotFound _ => INTERNAL_ERROR
  | CorruptRow _ => DATA_EXCEPTION
  | UnknownTable _ => UNDEFINED_TABLE
  | UnknownView _ => UNDEFINED_TABLE
  | TransactionError _ => ACTIVE_SQL_TRANSACTION
  | TableAlreadyExists _ => DUPLICATE_TABLE
  | ViewAlreadyExists _ => DUPLICATE_TABLE
  | RecursiveView _ => SYNTAX_ERROR
  | Unsupported _ => FEATURE_NOT_SUPPORTED
  | ColumnCountMismatch => DATA_EXCEPTION
  | SubqueryCardinality _ => DATA_EXCEPTION
  | NotNullViolation _ => NOT_NULL_VIOLATION
  | UniqueViolation _ => UNIQUE_VIOLATION
  | CheckViolation _ => CHECK_VIOLATION
  | ForeignKeyViolation _ => FOREIGN_KEY_VIOLATION
  | Exec _ => INTERNAL_ERROR
  end.
End SqlState.

(** ** [error.rs] *)

(** The errors of the standard library carry their text. *)
Inductive PgWireError : Type :=
| Io (text : str)
| Protocol (msg : str)
| Auth (msg : str)
| Database (e : DbError)
| Utf8 (text : str)
| InvalidMessage (msg : str)
| Codec (e : PgCodec.CodecError)
| FromUtf8 (text : str)
| Parse (msg : str).

(** The constants of [mod sqlstate] that the mapping uses. *)
Module codes.
Definition SERIALIZATION_FAILURE : str := lit "40001".
Definition ACTIVE_SQL_TRANSACTION : str := lit "25001".
Definition NO_ACTIVE_SQL_TRANSACTION : str := lit "25P01".
Definition INVALID_TRANSACTION_STATE : str := lit "25000".
Definition UNDEFINED_TABLE : str := lit "42P01".
Definition UNDEFINED_COLUMN : str := lit "42703".
Definition DUPLICATE_TABLE : str := lit "42P07".
Definition DATA_EXCEPTION : str := lit "22000".
Definition NO_DATA : str := lit "02000".
Definition NOT_NULL_VIOLATION : str := lit "23502".
Definition UNIQUE_VIOLATION : str := lit "23505".
Definition CHECK_VIOLATION : str := lit "23514".
Definition FOREIGN_KEY_VIOLATION : str := lit "23503".
Definition FEATURE_NOT_SUPPORTED : str := lit "0A000".
Definition INVALID_OBJECT_DEFINITION : str := lit "42P23".
Definition IO_ERROR : str := lit "58030".
Definition PROTOCOL_VIOLATION : str := lit "08P01".
Definition INVALID_AUTHORIZATION_SPECIFICATION : str := lit "28000".
Definition SYNTAX_ERROR : str := lit "42601".
End codes.

Import codes.

Definition db_error_to_sqlstate (err : DbError) : str :=
  match err with
  | TransactionError msg =>
      if PgText.contains (lit "conflict") msg then SERIALIZATION_FAILURE
      else if PgText.contains (lit "already in progress") msg then ACTIVE_SQL_TRANSACTION
      else if PgText.contains (lit "no active transaction") msg then NO_ACTIVE_SQL_TRANSACTION
      else INVALID_TRANSACTION_STATE
  | UnknownTable _ => UNDEFINED_TABLE
  | UnknownColumn _ => UNDEFINED_COLUMN
  | TableAlreadyExists _ => DUPLICATE_TABLE
  | ViewAlreadyExists _ => DUPLICATE_TABLE
  | ArityMismatch => DATA_EXCEPTION
  | ColumnCountMismatch => DATA_EXCEPTION
  | RowNotFound _ => NO_DATA
  | CorruptRow _ => DATA_EXCEPTION
  | NotNullViolation _ => NOT_NULL_VIOLATION
  | UniqueViolation _ => UNIQUE_VIOLATION
  | CheckViolation _ => CHECK_VIOLATION
  | ForeignKeyViolation _ => FOREIGN_KEY_VIOLATION
  | TypeMismatch => DATA_EXCEPTION
  | ColumnTypeMismatch _ => DATA_EXCEPTION
  | NotAVectorColumn _ => DATA_EXCEPTION
  | MissingParam => DATA_EXCEPTION
  | SubqueryCardinality _ => DATA_EXCEPTION
  | Unsupported _ => FEATURE_NOT_SUPPORTED
  | Exec (Value.UnknownColumn _) => UNDEFINED_COLUMN
  | Exec Value.TypeMismatch => DATA_EXCEPTION
  | Exec (Value.GroupByColumnNotFound _) => UNDEFINED_COLUMN
  | Exec Value.UnresolvedSubquery => FEATURE_NOT_SUPPORTED
  | Exec (Value.Unsupported _) => FEATURE_NOT_SUPPORTED
  | UnknownView _ => UNDEFINED_TABLE
  | RecursiveView _ => INVALID_OBJECT_DEFINITION
  end.

Definition pgwire_error_to_sqlstate (err : PgWireError) : str :=
  match err with
  | Io _ => IO_ERROR
  | Protocol _ => PROTOCOL_VIOLATION
  | Auth _ => INVALID_AUTHORIZATION_SPECIFICATION
  | Database e => db_error_to_sqlstate e
  | Utf8 _ => DATA_EXCEPTION
  | InvalidMessage _ => PROTOCOL_VIOLATION
  | Codec _ => PROTOCOL_VIOLATION
  | FromUtf8 _ => DATA_EXCEPTION
  | Parse _ => SYNTAX_ERROR
  end.

(** [{:#x}] of a byte. *)
Definition hex_byte (b : byte) : str :=
  let n := b2z b in
  lit "0x" ++ (if (n <? 16)%Z then [PgText.hex_digit n]
               else [PgText.hex_digit (n / 16); PgText.hex_digit (n mod 16)]).

Definition codec_display (e : PgCodec.CodecError) : str :=
  let num n := Lexer.int_to_string (Z.of_nat n) in
  match e with
  | PgCodec.Incomplete needed got =>
      lit "incomplete message: need " ++ num needed ++ lit " more bytes, got " ++ num got
  | PgCodec.InvalidLength n => lit "invalid message length " ++ num n
  | PgCodec.UnexpectedTag t => lit "unexpected frontend tag: " ++ hex_byte t
  | PgCodec.ParseFailed msg => lit "parse error: " ++ msg
  end.

Section Response.
Context `{DebugExec}.

(** [to_string] of an error. *)
Definition wire_display (e : PgWireError) : str :=
  match e with
  | Io text => lit "I/O error: " ++ text
  | Protocol msg => lit "Protocol error: " ++ msg
  | Auth msg => lit "Authentication error: " ++ msg
  | Database e => lit "Database error: " ++ display e
  | Utf8 text => lit "UTF-8 error: " ++ text
  | InvalidMessage msg => lit "Invalid message: " ++ msg
  | Codec e => lit "Codec error: " ++ codec_display e
  | FromUtf8 text => lit "UTF-8 conversion error: " ++ text
  | Parse msg => lit "SQL parse error: " ++ msg
  end.

(** Severity, SQLSTATE and message fields, each a letter and a C string. *)
Definition response_payload (severity sqlstate message : str) : list byte :=
  PgCodec.write_cstring message ((PgCodec.write_cstring sqlstate
    (PgCodec.write_cstring severity ["S"%byte] ++ ["C"%byte])) ++ ["M"%byte]) ++ [x00].

Definition build_error_response (err : PgWireError) : list byte :=
  PgCodec.write_message "E"
    (response_payload (lit "ERROR") (pgwire_error_to_sqlstate err) (wire_display err)) [].

Definition build_notice_response (severity sqlstate message : str) : list byte :=
  PgCodec.write_message "N" (response_payload severity sqlstate message) [].

End Response.

(** ** Laws *)

(** The messages of the engine's transaction errors that mean a conflict. *)
Definition codes_differ (e : DbError) : Prop :=
  match e with
  | TransactionError msg =>
      PgText.contains (lit "conflict") msg = true \/ PgText.contains (lit "already in progress") msg = false
  | RowNotFound _ | RecursiveView _ | Exec _ => True
  | _ => False
  end.

(** the two servers report the same SQLSTATE for an
    error exactly when it is not a missing row, a recursive view, an
    evaluation error, or a transaction error other than a nested BEGIN: a
    commit conflict, which clients retry on code 40001, is reported as 25001
    by the thread-per-connection server. *)
Theorem sqlstate_tables_differ e :
  SqlState.sqlstate_for_db_error e <> db_error_to_sqlstate e <-> codes_differ e.
Proof.
  destruct e as [| | | | | | | | |msg| | | | | | | | | | | |[]];
    cbn [SqlState.sqlstate_for_db_error db_error_to_sqlstate codes_differ];
    try (split; [intros Hn; by destruct (Hn eq_refl)|done]); try (split; [done|intros _ Hc; discriminate Hc]).
  destruct (PgText.contains (lit "conflict") msg).
  { split; [intros _; by left|intros _ Hc; discriminate Hc]. }
  destruct (PgText.contains (lit "already in progress") msg).
  { split; [intros Hn; by destruct (Hn eq_refl)|by intros [|]]. }
  split; [intros _; by right|]. intros _. destruct (PgText.contains (lit "no active transaction") msg); intros Hc; discriminate Hc.
Qed.

Lemma sqlstate_length e : length (pgwire_error_to_sqlstate e) = 5.
Proof.
  destruct e as [| | |e| | | | |]; try reflexivity. cbn [pgwire_error_to_sqlstate].
  destruct e as [| | | | | | | | |msg| | | | | | | | | | | |[]]; try reflexivity.
  cbn [db_error_to_sqlstate]. by repeat case_match.
Qed.

(** The fields of a response, as a client reads them: a letter and a string
    up to NUL, until the letter is NUL. *)
Fixpoint fields (fuel : nat) (b : list byte) : option (list (byte * str)) :=
  match fuel, b with
  | S fuel', t :: b' =>
      if Byte.eqb t x00 then match b' with [] => Some [] | _ => None end
      else match PgText.split_once [x00] b' with
           | Some (v, rest) => cons (t, v) <$> fields fuel' rest
           | None => None
           end
  | _, _ => None
  end.

Lemma response_fields severity sqlstate message :
  x00 ∉ severity -> x00 ∉ sqlstate -> x00 ∉ message ->
  fields 4 (response_payload severity sqlstate message)
    = Some [("S"%byte, severity); ("C"%byte, sqlstate); ("M"%byte, message)].
Proof.
  intros H1 H2 H3. unfold response_payload, PgCodec.write_cstring. rewrite <- !app_assoc. cbn [app].
  assert (Hs : forall a b, x00 ∉ a -> PgText.split_once [x00] (a ++ x00 :: b) = Some (a, b))
    by (intros a b Ha; exact (PgText.split_once_app x00 [] a b Ha)).
  cbn [fields]. change (Byte.eqb "S" x00) with false. cbv iota. rewrite Hs by done.
  change (Byte.eqb "C" x00) with false. cbv iota. rewrite Hs by done.
  change (Byte.eqb "M" x00) with false. cbv iota. rewrite Hs by done.
  reflexivity.
Qed.

Lemma sqlstate_no_nul e : x00 ∉ pgwire_error_to_sqlstate e.
Proof.
  assert (Hb : forall s : str, bool_decide (x00 ∈ s) = false -> x00 ∉ s)
    by (intros s Hs; exact (proj1 (bool_decide_eq_false _) Hs)).
  apply Hb. destruct e as [| | |e| | | | |]; try reflexivity. cbn [pgwire_error_to_sqlstate].
  destruct e as [| | | | | | | | |msg| | | | | | | | | | | |[]]; try reflexivity.
  cbn [db_error_to_sqlstate]. by repeat case_match.
Qed.

Lemma payload_length severity sqlstate message :
  length (response_payload severity sqlstate message) = 7 + length severity + length sqlstate + length message.
Proof.
  unfold response_payload, PgCodec.write_cstring. rewrite !length_app. cbn [length]. lia.
Qed.

Section Readable.
Context `{DebugExec}.

(** an error response of the scheduled server
    is a frame with the tag E that [read_message] takes off the stream whole,
    and its payload reads back as the severity, the SQLSTATE and the text of
    the error, provided the text has no NUL and fits the frame's length. *)
Theorem error_responses_are_readable e rest :
  x00 ∉ wire_display e -> (Z.of_nat (length (wire_display e)) < 2 ^ 32 - 21)%Z ->
  exists payload,
    PgCodec.read_message (build_error_response e ++ rest) = (Ok (Some ("E"%byte, payload)), rest) /\
    fields 4 payload = Some [("S"%byte, lit "ERROR"); ("C"%byte, pgwire_error_to_sqlstate e);
                             ("M"%byte, wire_display e)].
Proof.
  intros Hn Hl. set (p := response_payload (lit "ERROR") (pgwire_error_to_sqlstate e) (wire_display e)).
  exists p. split.
  - apply (PgCodec.read_frame ("E"%byte, p)). unfold PgCodec.sendable. cbn [snd]. unfold p.
    rewrite payload_length, sqlstate_length. change (length (lit "ERROR")) with 5. lia.
  - apply response_fields; [|apply sqlstate_no_nul|done].
    apply (bool_decide_unpack _). vm_compute. exact I.
Qed.
End Readable.

#[local] Instance no_debug : DebugExec := fun _ => lit "..".

Lemma error_responses_are_readable_witness :
  exists payload,
    PgCodec.read_message (build_error_response (Database (UnknownTable (lit "users"))) ++ [x51]) =
      (Ok (Some ("E"%byte, payload)), [x51]) /\
    fields 4 payload = Some [("S"%byte, lit "ERROR");
      ("C"%byte, pgwire_error_to_sqlstate (Database (UnknownTable (lit "users"))));
      ("M"%byte, wire_display (Database (UnknownTable (lit "users"))))].
Proof.
  apply error_responses_are_readable; [apply (bool_decide_unpack _)|apply Z.ltb_lt]; vm_compute; trivial.
Defined.

End PgError.
