(* ===== verification/PgCompat.v ===== *)
(** * PgCompat: splitting and normalizing SQL for the scheduled server
    ([crates/out-archon-pgwire/src/compat.rs])

    The text is scanned character by character; a peekable iterator is the
    list of the characters that are left. *)
From Stdlib Require Import ZArith Lia Strings.Byte Strings.String.
From stdpp Require Import base numbers option list sets.
From S2P Require Import Prelude Ast Lexer Codec Parser PgText PgError.

Module PgCompat.
Import Ast(str, lit).
Import PgText(chars, is_char, peek_is, tag_char).

Definition HYPHEN : byte := "-"%byte.
Definition SLASH : byte := "/"%byte.
Definition STAR : byte := "*"%byte.
Definition SQUOTE : byte := x27.
Definition DQUOTE : byte := x22.
Definition DOLLAR : byte := "$"%byte.
Definition SEMICOLON : byte := ";"%byte.
Definition NEWLINE : byte := x0a.

(** ** Comments *)

(** [line]: inside a line comment; [depth]: nesting of block comments. *)
Fixpoint strip_loop (cs : list str) (line : bool) (depth : nat) : str :=
  match cs with
  | [] => []
  | c :: cs' =>
      match cs' with
      | d :: cs'' =>
          match depth with
          | S depth' =>
              if is_char STAR c && is_char SLASH d then strip_loop cs'' line depth'
              else if is_char SLASH c && is_char STAR d then strip_loop cs'' line (S depth)
              else strip_loop cs' line depth
          | O =>
              if line then
                if is_char NEWLINE c then c ++ strip_loop cs' false 0 else strip_loop cs' true 0
              else if is_char HYPHEN c && is_char HYPHEN d then strip_loop cs'' true 0
              else if is_char SLASH c && is_char STAR d then strip_loop cs'' false 1
              else c ++ strip_loop cs' false 0
          end
      | [] =>
          match depth with
          | S _ => []
          | O => if line then (if is_char NEWLINE c then c else []) else c
          end
      end
  end.

Definition strip_comments (sql : str) : str := strip_loop (chars sql) false 0.

(** ** Statements *)

Inductive Mode : Type := Plain | SingleQuote | DoubleQuote | DollarQuote.

Record Split : Type := mkSplit {
  statements : list str;
  current : str;
  mode : Mode;
  dollar_tag : str
}.

Definition push (x : str) (s : Split) : Split :=
  mkSplit (statements s) (current s ++ x) (mode s) (dollar_tag s).
Definition set_mode (m : Mode) (s : Split) : Split :=
  mkSplit (statements s) (current s) m (dollar_tag s).
Definition set_tag (t : str) (s : Split) : Split :=
  mkSplit (statements s) (current s) (mode s) t.

(** Push the trimmed statement, if there is anything in it. *)
Definition end_statement (s : Split) : Split :=
  let stmt := PgText.trim (current s) in
  mkSplit (if bool_decide (stmt = []) then statements s else statements s ++ [stmt]) [] (mode s) (dollar_tag s).

(** [for tc in temp_chars.by_ref()]: the tag, and what is left after the
    character that ended the loop. *)
Fixpoint collect_tag (cs : list str) : str * list str :=
  match cs with
  | [] => ([], [])
  | x :: cs' => if tag_char x then let '(t, r) := collect_tag cs' in (x ++ t, r) else ([], cs')
  end.

(** Consume the tag's characters and one more, pushing them. *)
Definition consume_tag (t : str) (s : Split) (cs : list str) : Split * list str :=
  let n := S (length t) in (push (concat (take n cs)) s, drop n cs).

(** One turn of the loop: the character [c], then [cs]. *)
Definition split_step (s : Split) (c : str) (cs : list str) : Split * list str :=
  match mode s with
  | DollarQuote =>
      let s := push c s in
      if is_char DOLLAR c then
        if peek_is DOLLAR cs && bool_decide (dollar_tag s = []) then
          (set_tag [] (set_mode Plain (push [DOLLAR] s)), drop 1 cs)
        else
          let '(tag_check, temp) := collect_tag cs in
          if peek_is DOLLAR temp && bool_decide (tag_check = dollar_tag s) then
            let '(s, cs) := consume_tag tag_check s cs in (set_tag [] (set_mode Plain s), cs)
          else (s, cs)
      else (s, cs)
  | SingleQuote =>
      let s := push c s in
      if is_char SQUOTE c then
        if peek_is SQUOTE cs then (push [SQUOTE] s, drop 1 cs) else (set_mode Plain s, cs)
      else (s, cs)
  | DoubleQuote =>
      let s := push c s in
      if is_char DQUOTE c then
        if peek_is DQUOTE cs then (push [DQUOTE] s, drop 1 cs) else (set_mode Plain s, cs)
      else (s, cs)
  | Plain =>
      if is_char SQUOTE c then (push c (set_mode SingleQuote s), cs)
      else if is_char DQUOTE c then (push c (set_mode DoubleQuote s), cs)
      else if is_char DOLLAR c then
        match cs with
        | [] => (push c s, cs)
        | next_c :: cs' =>
            if is_char DOLLAR next_c then (set_mode DollarQuote (push [DOLLAR; DOLLAR] (set_tag [] s)), cs')
            else
              let '(tag, temp) := collect_tag cs in
              if peek_is DOLLAR temp then
                let s := push ([DOLLAR] ++ tag ++ [DOLLAR]) (set_tag tag s) in
                let '(s, cs) := consume_tag tag s cs in (set_mode DollarQuote s, cs)
              else (push c s, cs)
        end
      else if is_char SEMICOLON c then (end_statement s, cs)
      else (push c s, cs)
  end.

(** Every turn takes a character, so one turn per character is enough. *)
Fixpoint split_loop (fuel : nat) (s : Split) (cs : list str) : Split :=
  match fuel with
  | O => s
  | S fuel' =>
      match cs with
      | [] => s
      | c :: cs' => let '(s, cs'') := split_step s c cs' in split_loop fuel' s cs''
      end
  end.

Definition split_chars (cs : list str) : list str :=
  statements (end_statement (split_loop (length cs) (mkSplit [] [] Plain []) cs)).
Definition split_statements (sql : str) : list str := split_chars (chars sql).

(** ** Normalization *)

Inductive NormalizedStatement : Type :=
| SetParameter (name value : str)
| ShowParameter (name : str)
| ResetParameter (name : str)
| ResetAll
| SelectConstant (sql : str)
| Begin
| Commit
| Rollback
| Passthrough (sql : str).

Definition one_of (s : str) (l : list string) : bool := existsb (fun x => bool_decide (s = lit x)) l.

(** [name = value] in the rest of a SET. *)
Definition assignment (rest : str) : option NormalizedStatement :=
  match PgText.split_once [x3d] rest with
  | Some (n, v) => Some (SetParameter (PgText.trim n) (PgText.trim v))
  | None => None
  end.

(** The name in SHOW and RESET. *)
Definition parameter_name (trimmed : str) : option str :=
  match PgText.splitn 2 x20 trimmed with
  | [_; n] => Some (PgText.trim_matches SEMICOLON (PgText.trim n))
  | _ => None
  end.

Definition normalize_set (stmt trimmed : str) : outcome PgError.PgWireError NormalizedStatement :=
  let parts := PgText.splitn 3 x20 trimmed in
  if (3 <=? length parts) && PgText.eq_ignore_ascii_case (default [] (parts !! 1)) (lit "SESSION") then
    Ok (default (Passthrough stmt) (assignment (PgText.trim (default [] (parts !! 2)))))
  else if 2 <=? length parts then
    match PgText.slice_from 4 trimmed with
    | Ok after => Ok (default (Passthrough stmt) (assignment (PgText.trim after)))
    | Err e => Err e
    | Panic => Panic
    end
  else Ok (Passthrough stmt).

Definition normalize_statement (stmt : str) : outcome PgError.PgWireError NormalizedStatement :=
  let trimmed := PgText.trim stmt in
  let upper := PgText.to_uppercase trimmed in
  let shown := if PgText.starts_with (lit "SHOW ") upper then parameter_name trimmed else None in
  let reset := if PgText.starts_with (lit "RESET ") upper then parameter_name trimmed else None in
  if PgText.starts_with (lit "SET ") upper then normalize_set stmt trimmed
  else match shown with
  | Some name => Ok (ShowParameter name)
  | None =>
  if one_of upper ["RESET ALL"; "RESET ALL;"]%string then Ok ResetAll
  else match reset with
  | Some name => Ok (ResetParameter name)
  | None =>
  if PgText.starts_with (lit "SELECT ") upper && negb (PgText.contains (lit " FROM ") upper)
     && negb (PgText.contains (lit " WHERE ") upper) then Ok (SelectConstant trimmed)
  else if one_of upper ["START TRANSACTION"; "START TRANSACTION;"]%string then Ok Begin
  else if one_of upper ["END"; "END;"; "END TRANSACTION"; "END TRANSACTION;"]%string then Ok Commit
  else if one_of upper ["ABORT"; "ABORT;"; "ABORT TRANSACTION"; "ABORT TRANSACTION;"]%string then Ok Rollback
  else Ok (Passthrough stmt)
  end end.

(** ** [process_sql] *)

Section Process.
Context `{Lexer.Fmt}.

Definition parse (sql : str) : outcome PgError.PgWireError Ast.Statement :=
  match Parser.parse_statement sql with
  | Ok s => Ok s
  | Err (Lexer.mkParseError msg) => Err (PgError.Parse msg)
  | Panic => Panic
  end.

Definition to_statement (n : NormalizedStatement) : outcome PgError.PgWireError Ast.Statement :=
  match n with
  | SetParameter name value => Ok (Ast.SetParameter (Ast.mkSetParameter name value))
  | ShowParameter name => Ok (Ast.ShowParameter (Ast.mkShowParameter name))
  | ResetParameter name => Ok (Ast.ResetParameter (Ast.mkResetParameter name))
  | ResetAll => Ok Ast.ResetAll
  | SelectConstant sql => parse sql
  | Begin => Ok Ast.Begin
  | Commit => Ok Ast.Commit
  | Rollback => Ok Ast.Rollback
  | Passthrough sql => parse sql
  end.

Fixpoint process_statements (l : list str) : outcome PgError.PgWireError (list Ast.Statement) :=
  match l with
  | [] => Ok []
  | stmt_text :: l' =>
      match normalize_statement stmt_text with
      | Ok n =>
          match to_statement n with
          | Ok s => match process_statements l' with
                    | Ok ss => Ok (s :: ss)
                    | Err e => Err e
                    | Panic => Panic
                    end
          | Err e => Err e
          | Panic => Panic
          end
      | Err e => Err e
      | Panic => Panic
      end
  end.

Definition process_sql (raw_sql : str) : outcome PgError.PgWireError (list Ast.Statement) :=
  process_statements (split_statements (strip_comments raw_sql)).

End Process.

(** ** Splitting respects quotes *)

Lemma collect_tag_length cs : length (collect_tag cs).2 <= length cs.
Proof.
  induction cs as [|x cs IH]; [done|]. cbn [collect_tag]. destruct (tag_char x); [|simpl; lia].
  destruct (collect_tag cs) as [t r]. simpl in *. lia.
Qed.

Lemma split_step_length s c cs s' cs' : split_step s c cs = (s', cs') -> length cs' <= length cs.
Proof.
  assert (Hd : forall k, length (drop k cs) <= length cs) by (intros k; rewrite length_drop; lia).
  unfold split_step, consume_tag. intros Hs.
  repeat (case_match; simplify_eq); auto; try (simpl; lia).
  all: change (drop (S ?n) (?x :: ?l)) with (drop n l); simpl; rewrite length_drop; lia.
Qed.

(** The loop from a state to the end of the text. *)
Definition run (s : Split) (cs : list str) : Split := split_loop (length cs) s cs.

Lemma split_loop_fuel n m s cs : length cs <= n -> length cs <= m -> split_loop n s cs = split_loop m s cs.
Proof.
  revert m s cs. induction n as [|n IH]; intros [|m] s [|c cs] Hn Hm; try done; simpl in Hn, Hm; try lia.
  cbn [split_loop]. destruct (split_step s c cs) as [s' cs'] eqn:Es. apply split_step_length in Es.
  apply IH; lia.
Qed.

Lemma run_step s c cs s' cs' : split_step s c cs = (s', cs') -> run s (c :: cs) = run s' cs'.
Proof.
  intros Hs. unfold run. cbn [length split_loop]. rewrite Hs. apply split_step_length in Hs.
  apply split_loop_fuel; lia.
Qed.

(** A statement's text: characters without meaning to the splitter, and quoted
    strings.  In a quoted string [None] is a doubled quote. *)
Inductive piece : Type :=
| PChar (c : str)
| PSingle (body : list (option str))
| PDouble (body : list (option str))
| PDollar (body : list str).

Definition body_text (q : byte) (body : list (option str)) : list str :=
  concat (map (fun o => match o with Some c => [c] | None => [[q]; [q]] end) body).

Definition quoted (q : byte) (body : list (option str)) : list str :=
  [q] :: body_text q body ++ [[q]].

Definition ptext (p : piece) : list str :=
  match p with
  | PChar c => [c]
  | PSingle body => quoted SQUOTE body
  | PDouble body => quoted DQUOTE body
  | PDollar body => [[DOLLAR]; [DOLLAR]] ++ body ++ [[DOLLAR]; [DOLLAR]]
  end.

Definition special : list str := [[SQUOTE]; [DQUOTE]; [DOLLAR]; [SEMICOLON]].
Definition clean_body (q : byte) (body : list (option str)) : Prop :=
  Forall (fun o => match o with Some c => c <> [q] | None => True end) body.
Definition piece_ok (p : piece) : Prop :=
  match p with
  | PChar c => c ∉ special
  | PSingle body => clean_body SQUOTE body
  | PDouble body => clean_body DQUOTE body
  | PDollar body => [DOLLAR] ∉ body
  end.

(** What follows a quoted string is not another of the same kind: that would
    be a doubled quote. *)
Definition follows (p : piece) (rest : list str) : Prop :=
  match p with
  | PSingle _ => peek_is SQUOTE rest = false
  | PDouble _ => peek_is DQUOTE rest = false
  | _ => True
  end.

Lemma is_char_same c : is_char c [c] = true.
Proof. by apply bool_decide_eq_true_2. Qed.
Lemma is_char_other c x : x <> [c] -> is_char c x = false.
Proof. apply bool_decide_eq_false_2. Qed.

Abbreviation plain st cur := (mkSplit st cur Plain []).

(** Inside quotes of either kind, to the closing one. *)
Definition quote_step (q : byte) (s : Split) (c : str) (cs : list str) : Split * list str :=
  let s := push c s in
  if is_char q c then if peek_is q cs then (push [q] s, drop 1 cs) else (set_mode Plain s, cs) else (s, cs).

Lemma run_quoted q m body st cur rest :
  (forall s c cs, mode s = m -> split_step s c cs = quote_step q s c cs) ->
  clean_body q body -> peek_is q rest = false ->
  run (mkSplit st cur m []) (body_text q body ++ [[q]] ++ rest)
  = run (plain st (cur ++ concat (body_text q body ++ [[q]]))) rest.
Proof.
  intros Hm Hb Hr. unfold body_text. revert cur. induction Hb as [|o body Ho _ IH]; intros cur.
  { cbn [map concat app]. erewrite run_step; [reflexivity|]. rewrite Hm by done. unfold quote_step.
    by rewrite is_char_same, Hr. }
  destruct o as [c|]; cbn [map concat app].
  - erewrite run_step; [|rewrite Hm by done; unfold quote_step; by rewrite is_char_other].
    unfold push. cbn [statements current mode dollar_tag]. rewrite IH. by rewrite <- app_assoc.
  - erewrite run_step; [|rewrite Hm by done; unfold quote_step; cbn [peek_is]; rewrite !is_char_same; reflexivity].
    unfold push. cbn [statements current mode dollar_tag drop]. rewrite IH. by rewrite <- !app_assoc.
Qed.

Lemma run_dollar body st cur rest :
  [DOLLAR] ∉ body ->
  run (mkSplit st cur DollarQuote []) (body ++ [[DOLLAR]; [DOLLAR]] ++ rest)
  = run (plain st (cur ++ concat (body ++ [[DOLLAR]; [DOLLAR]]))) rest.
Proof.
  revert cur. induction body as [|c body IH]; intros cur Hb; cbn [app].
  - erewrite run_step; [|unfold split_step; cbn [mode peek_is push dollar_tag]; rewrite !is_char_same; reflexivity].
    unfold set_tag, set_mode, push. cbn [statements current mode dollar_tag drop].
    by rewrite <- app_assoc.
  - erewrite run_step; [|unfold split_step; cbn [mode]; rewrite is_char_other by (intros ->; set_solver); reflexivity].
    unfold push. cbn [statements current mode dollar_tag]. change (?a :: ?b :: rest) with ([a; b] ++ rest).
    rewrite IH by set_solver. cbn [concat]. by rewrite <- app_assoc.
Qed.

Lemma run_piece p rest st cur :
  piece_ok p -> follows p rest ->
  run (plain st cur) (ptext p ++ rest) = run (plain st (cur ++ concat (ptext p))) rest.
Proof.
  intros Hp Hf. destruct p as [c|body|body|body]; cbn [piece_ok follows ptext] in *.
  - cbn [app]. unfold special in Hp. rewrite !not_elem_of_cons in Hp. destruct Hp as (H1 & H2 & H3 & H4 & _).
    erewrite run_step; [|unfold split_step; cbn [mode]; rewrite !is_char_other by done; reflexivity].
    cbn [concat]. by rewrite app_nil_r.
  - unfold quoted. cbn [app]. erewrite run_step; [|unfold split_step; cbn [mode]; rewrite is_char_same; reflexivity].
    unfold push, set_mode. cbn [statements current mode dollar_tag]. rewrite <- app_assoc.
    rewrite (run_quoted SQUOTE SingleQuote) by (done || by intros [? ? [] ?] ? ? [=]). cbn [concat]. by rewrite <- app_assoc.
  - unfold quoted. cbn [app]. erewrite run_step; [|unfold split_step; cbn [mode]; rewrite is_char_same; reflexivity].
    unfold push, set_mode. cbn [statements current mode dollar_tag]. rewrite <- app_assoc.
    rewrite (run_quoted DQUOTE DoubleQuote) by (done || by intros [? ? [] ?] ? ? [=]). cbn [concat]. by rewrite <- app_assoc.
  - cbn [app]. erewrite run_step; [|unfold split_step; cbn [mode]; rewrite !is_char_same; reflexivity].
    unfold set_mode, push, set_tag. cbn [statements current mode dollar_tag]. rewrite <- app_assoc, run_dollar by done.
    by rewrite <- app_assoc.
Qed.

Definition stmt_text (l : list piece) : list str := concat (map ptext l).

Fixpoint pieces_ok (l : list piece) : Prop :=
  match l with
  | [] => True
  | p :: l' => piece_ok p /\ follows p (stmt_text l') /\ pieces_ok l'
  end.

(** The end of a statement: the end of the text or a semicolon. *)
Definition ends (rest : list str) : Prop := rest = [] \/ exists r, rest = [SEMICOLON] :: r.

Lemma follows_end p xs rest : ends rest -> follows p xs -> follows p (xs ++ rest).
Proof.
  intros [->|[r ->]]; [by rewrite app_nil_r|]. destruct xs; [by destruct p|]. by destruct p.
Qed.

Lemma run_stmt l rest st cur :
  pieces_ok l -> ends rest ->
  run (plain st cur) (stmt_text l ++ rest) = run (plain st (cur ++ concat (stmt_text l))) rest.
Proof.
  intros Hl Hr. revert cur. induction l as [|p l IH]; intros cur.
  { cbn. by rewrite app_nil_r. }
  destruct Hl as (Hp & Hf & Hl). change (stmt_text (p :: l)) with (ptext p ++ stmt_text l).
  rewrite <- app_assoc, run_piece by (done || by apply follows_end). rewrite IH by done.
  by rewrite concat_app, app_assoc.
Qed.

(** Statements separated by semicolons. *)
Fixpoint joined (ls : list (list piece)) : list str :=
  match ls with
  | [] => []
  | [l] => stmt_text l
  | l :: ls' => stmt_text l ++ [SEMICOLON] :: joined ls'
  end.

Definition add_statement (st : list str) (text : str) : list str :=
  if bool_decide (PgText.trim text = []) then st else st ++ [PgText.trim text].

Definition texts (ls : list (list piece)) : list str := map (fun l => concat (stmt_text l)) ls.
Definition nonblank (l : list str) : list str :=
  List.filter (fun s => negb (bool_decide (s = []))) (map PgText.trim l).

Lemma run_joined ls st :
  Forall pieces_ok ls ->
  statements (end_statement (run (plain st []) (joined ls))) = st ++ nonblank (texts ls).
Proof.
  assert (He : forall (st0 : list str) (text : str) (ts : list str), (if bool_decide (PgText.trim text = []) then st0 else st0 ++ [PgText.trim text]) ++ nonblank ts
             = st0 ++ nonblank (text :: ts)).
  { intros st0 text ts. unfold nonblank. cbn [map List.filter]. case_bool_decide; cbn [negb]; [done|].
    by rewrite <- app_assoc. }
  intros H. revert st. induction H as [|l ls Hl Hls IH]; intros st.
  { cbn [joined]. unfold run, end_statement. cbn. by rewrite app_nil_r. }
  destruct ls as [|l2 ls]; cbn [joined].
  - rewrite <- (app_nil_r (stmt_text l)), run_stmt by (done || by left).
    unfold run. cbn [length split_loop end_statement statements current mode dollar_tag app].
    change (texts [l]) with [concat (stmt_text l)]. rewrite <- (He st (concat (stmt_text l)) []). cbn [nonblank map List.filter]. by rewrite app_nil_r.
  - rewrite run_stmt by (done || by right; eexists). cbn [app].
    erewrite run_step; [|unfold split_step; cbn [mode]; rewrite is_char_same; reflexivity].
    unfold end_statement at 2. cbn [statements current mode dollar_tag]. rewrite IH. apply He.
Qed.

(** C24: the scheduled server splits a text at exactly
    the semicolons outside quotes.  For statements made of ordinary characters
    (not quotes, dollar signs or semicolons), of single-quoted and double-quoted
    strings with any content (the quote itself doubled, and no string right
    behind another of its kind), and of untagged dollar-quoted strings whose
    body has no dollar sign, joined by semicolons, the parts are the trimmed
    statements, in order, without the blank ones.  (Tagged dollar quotes and dollar signs
    in a body are split wrongly: [tagged_dollar_quote_is_split],
    [dollar_in_dollar_quote_splits].) *)
Theorem splitting_respects_quotes ls :
  Forall pieces_ok ls -> Forall PgText.valid_char (joined ls) ->
  split_statements (concat (joined ls)) = nonblank (texts ls).
Proof.
  intros Hls Hv. unfold split_statements. rewrite PgText.chars_concat by done.
  exact (run_joined ls [] Hls).
Qed.

(** Ordinary text as pieces. *)
Definition text_pieces (s : string) : list piece := map (fun c => PChar [c]) (lit s).

Definition sample : list (list piece) :=
  [text_pieces "SELECT " ++ [PSingle [Some [";"%byte]; None; Some ["$"%byte]]];
   text_pieces " ";
   text_pieces " SELECT " ++ [PDollar [["a"%byte]; [";"%byte]; [x27]; [xc3; xa9]]] ++ text_pieces ", "
     ++ [PDouble [Some [x27]; None]]].

Lemma splitting_respects_quotes_witness :
  split_statements (concat (joined sample)) = nonblank (texts sample) /\ length (nonblank (texts sample)) = 2.
Proof.
  split; [|vm_compute; reflexivity].
  apply splitting_respects_quotes.
  - unfold sample, text_pieces.
    repeat (constructor; [cbn; repeat split; try done; try (apply (bool_decide_unpack _); vm_compute; exact I);
                          repeat constructor; done|]). constructor.
  - apply (bool_decide_unpack _). vm_compute. exact I.
Defined.

(** Comments are stripped inside string literals too. *)
Example strip_comments_in_strings : strip_comments (lit "SELECT '--x'") = lit "SELECT '".
Proof. vm_compute. reflexivity. Qed.

(** A tagged dollar quote is not recognized: its semicolon splits it. *)
Example tagged_dollar_quote_is_split :
  split_statements (lit "SELECT $t$x;y$t$") = [lit "SELECT $t$x"; lit "y$t$"].
Proof. vm_compute. reflexivity. Qed.

(** In a dollar-quoted string a dollar sign, any character that is not part of a
    tag, and another dollar sign end the string early. *)
Example dollar_in_dollar_quote_splits :
  split_statements (lit "SELECT $$a$ $b;c$$") = [lit "SELECT $$a$ $b"; lit "c$$"].
Proof. vm_compute. reflexivity. Qed.

(** What is recognized instead is copied twice. *)
Example tagged_dollar_quote_is_garbled :
  split_statements (lit "SELECT $t$$x") = [lit "SELECT $t$t$$x"].
Proof. vm_compute. reflexivity. Qed.

End PgCompat.
