(* ===== verification/PgCatalog.v ===== *)
(** * PgCatalog: the emulated [pg_catalog] and [information_schema]
    ([crates/out-archon-pgwire/src/catalog.rs]) *)
From Stdlib Require Import ZArith Lia Strings.Byte Strings.String.
From stdpp Require Import base numbers option list gmap.
From S2P Require Import Prelude Ast Value Codec Db PgText.

Module PgCatalog.
Import Ast(str, lit).
Import Value(Value, Int, Text, Bool, Null, ResultSet, mkResult).
Import Codec(Schema).
Import Db(Database, R, obind, expect, at_, collect).

Definition PUBLIC_NAMESPACE_OID : Z := 2200.
Definition USER_REL_OID_BASE : Z := 16384.

(** FNV-1a over 64 bits, reduced to five decimal digits. *)
Definition fnv_byte (h : Z) (b : byte) : Z := wrap64 (Z.lxor h (b2z b) * 1099511628211).
Definition rel_oid (name : str) : Z :=
  let h := fold_left fnv_byte name 1469598103934665603%Z in
  (USER_REL_OID_BASE + h mod 100000)%Z.

(** [name.split('.').next_back()]. *)
Definition normalize_catalog_name (name : str) : str := default name (last (PgText.split "." name)).

Record CatalogTable : Type := mkCatalog { columns : list str; rows : list (list Value) }.

(** The rows of [information_schema.columns] for one table. *)
Definition column_rows (t : str) (s : Schema) : R (list (list Value)) :=
  collect (fun col =>
    obind (expect (Codec.index_of s col)) (fun i =>
      let ctype := default Ast.TText (Codec.types s !! i) in
      Ok [Text (lit "public"); Text t; Text col; Text (Ast.pg_type_name ctype)]))
    (Codec.columns s).

(** The rows of [pg_attribute] for one table. *)
Definition attribute_rows (t : str) (s : Schema) : list (list Value) :=
  imap (fun i col =>
    let ctype := default Ast.TText (Codec.types s !! i) in
    let notnull := existsb (fun c => bool_decide (c = col)) (Codec.not_null s) in
    [Int (rel_oid t); Text col; Int (Ast.pg_type_oid ctype); Int (Z.of_nat (i + 1)); Bool notnull; Bool false])
    (Codec.columns s).

(** [if let Some(schema) = db.table_schema(t)]. *)
Definition with_schema {A} (db : Database) (f : str -> Schema -> R (list A)) (t : str) : R (list A) :=
  match Db.table_schema t db with Some s => f t s | None => Ok [] end.

Definition known_types : list Ast.ColumnType :=
  [Ast.TInt; Ast.TBoolean; Ast.TFloat; Ast.TDouble; Ast.TNumeric; Ast.TText; Ast.TVarchar 1;
   Ast.TDate; Ast.TTimestamp; Ast.TVector].

Fixpoint type_rows (seen : list str) (l : list Ast.ColumnType) : list (list Value) :=
  match l with
  | [] => []
  | ct :: l' =>
      let name := Ast.pg_type_name ct in
      if bool_decide (name ∈ seen) then type_rows seen l'
      else [Int (Ast.pg_type_oid ct); Text name; Text (lit "b")] :: type_rows (seen ++ [name]) l'
  end.
Definition build_pg_type : CatalogTable :=
  mkCatalog [lit "oid"; lit "typname"; lit "typtype"] (type_rows [] known_types).

Definition is_name (name : str) (s : string) : bool := bool_decide (name = lit s).

Definition build_catalog_table (name : str) (db : Database) : R (option CatalogTable) :=
  let names := Db.table_names db in
  if is_name name "pg_namespace" then
    Ok (Some (mkCatalog [lit "oid"; lit "nspname"; lit "nspowner"]
      [[Int PUBLIC_NAMESPACE_OID; Text (lit "public"); Int 0]]))
  else if is_name name "pg_database" then
    Ok (Some (mkCatalog [lit "oid"; lit "datname"] [[Int USER_REL_OID_BASE; Text (lit "archon")]]))
  else if is_name name "pg_tables" then
    Ok (Some (mkCatalog [lit "schemaname"; lit "tablename"; lit "tableowner"]
      (map (fun t => [Text (lit "public"); Text t; Text (lit "archon")]) names)))
  else if is_name name "tables" then
    Ok (Some (mkCatalog [lit "table_schema"; lit "table_name"; lit "table_type"]
      (map (fun t => [Text (lit "public"); Text t; Text (lit "BASE TABLE")]) names)))
  else if is_name name "columns" then
    obind (collect (with_schema db column_rows) names) (fun rss =>
      Ok (Some (mkCatalog [lit "table_schema"; lit "table_name"; lit "column_name"; lit "data_type"] (concat rss))))
  else if is_name name "pg_class" then
    Ok (Some (mkCatalog [lit "oid"; lit "relname"; lit "relnamespace"; lit "relkind"; lit "relam"; lit "relhasindex"]
      (map (fun t => [Int (rel_oid t); Text t; Int PUBLIC_NAMESPACE_OID; Text (lit "r"); Int 0; Bool false]) names)))
  else if is_name name "pg_attribute" then
    obind (collect (with_schema db (fun t s => Ok (attribute_rows t s))) names) (fun rss =>
      Ok (Some (mkCatalog [lit "attrelid"; lit "attname"; lit "atttypid"; lit "attnum"; lit "attnotnull"; lit "attisdropped"]
        (concat rss))))
  else if is_name name "pg_type" then Ok (Some build_pg_type)
  else Ok None.

(** The columns a SELECT asks for, by their last segment. *)
Definition requested (select : Ast.SelectStatement) (table : CatalogTable) : list str :=
  if Ast.star select || existsb (fun c => bool_decide (c = lit "*")) (Ast.columns select) then columns table
  else omap (fun c => let bare := default c (last (PgText.split "." c)) in
                      snd <$> list_find (fun col => col = bare) (columns table))
         (Ast.columns select).

Definition project (select : Ast.SelectStatement) (table : CatalogTable) : R ResultSet :=
  let cols := requested select table in
  obind (collect (fun c => expect (position (fun col => bool_decide (col = c)) (columns table))) cols) (fun idxs =>
  obind (collect (fun row => collect (at_ row) idxs) (rows table)) (fun rs =>
  Ok (mkResult cols rs None))).

Definition handle_catalog (stmt : Ast.Statement) (db : Database) : R (option ResultSet) :=
  match stmt with
  | Ast.Select select =>
      match Ast.table select with
      | Ast.Named name _ =>
          obind (build_catalog_table (normalize_catalog_name name) db) (fun t =>
            match t with
            | None => Ok None
            | Some table => obind (project select table) (fun rs => Ok (Some rs))
            end)
      | Ast.Subquery _ _ => Ok None
      end
  | _ => Ok None
  end.

(** ** Laws *)

Definition well_shaped (t : CatalogTable) : Prop := Forall (fun r => length r = length (columns t)) (rows t).

Lemma collect_total {A B} (f : A -> R B) (P : B -> Prop) l :
  (forall x, x ∈ l -> exists y, f x = Ok y /\ P y) -> exists ys, collect f l = Ok ys /\ Forall P ys.
Proof.
  induction l as [|x l IH]; intros H; [by exists []|]. cbn [collect].
  destruct (H x ltac:(left)) as (y & -> & Hy). cbn [obind].
  destruct IH as (ys & -> & Hys); [intros z Hz; apply H; by right|]. cbn [obind].
  exists (y :: ys). split; [done|by constructor].
Qed.

Lemma with_schema_total {A} db (f : str -> Schema -> R (list A)) (P : A -> Prop) names :
  (forall t s, exists rs, f t s = Ok rs /\ Forall P rs) ->
  exists rss, collect (with_schema db f) names = Ok rss /\ Forall P (concat rss).
Proof.
  intros Hf. destruct (collect_total (with_schema db f) (Forall P) names) as (rss & H & Hrs).
  { intros t _. unfold with_schema. destruct (Db.table_schema t db); [apply Hf|by exists []]. }
  exists rss. split; [done|]. clear H. induction Hrs; [constructor|]. cbn [concat]. by apply Forall_app.
Qed.

Lemma build_total name db :
  exists t, build_catalog_table name db = Ok t /\ forall c, t = Some c -> well_shaped c.
Proof.
  unfold build_catalog_table.
  assert (Hm : forall {A} (f : A -> list Value) n l, (forall x, length (f x) = n) ->
            Forall (fun r => length r = n) (map f l)).
  { intros A f n l Hf. apply Forall_map, Forall_true. intros x. apply Hf. }
  assert (Hsome : forall c, well_shaped c -> exists t, Ok (Some c) = Ok (E := Db.Failure) t /\ forall c', t = Some c' -> well_shaped c').
  { intros c Hc. exists (Some c). split; [done|]. by intros c' [= <-]. }
  destruct (is_name name "pg_namespace"); [apply Hsome; by repeat constructor|].
  destruct (is_name name "pg_database"); [apply Hsome; by repeat constructor|].
  destruct (is_name name "pg_tables"); [apply Hsome; by apply Hm|].
  destruct (is_name name "tables"); [apply Hsome; by apply Hm|].
  destruct (is_name name "columns").
  { destruct (with_schema_total db column_rows (fun r => length r = 4) (Db.table_names db)) as (rss & -> & Hr).
    { intros t s. apply collect_total. intros col Hcol.
      destruct (Codec.index_of s col) as [i|] eqn:Ei; [cbn [expect obind]; by eexists|].
      unfold Codec.index_of in Ei. rewrite position_None in Ei. specialize (Ei col Hcol).
      by rewrite bool_decide_eq_true_2 in Ei. }
    cbn [obind]. by apply Hsome. }
  destruct (is_name name "pg_class"); [apply Hsome; by apply Hm|].
  destruct (is_name name "pg_attribute").
  { destruct (with_schema_total db (fun t s => Ok (attribute_rows t s)) (fun r => length r = 6) (Db.table_names db))
      as (rss & -> & Hr).
    { intros t s. eexists. split; [reflexivity|]. unfold attribute_rows. apply Forall_forall.
      intros r Hin. apply elem_of_lookup_imap in Hin as (i & x & -> & _). done. }
    cbn [obind]. by apply Hsome. }
  destruct (is_name name "pg_type"); [apply Hsome; by repeat constructor|].
  by exists None.
Qed.

Lemma requested_in select t c : c ∈ requested select t -> c ∈ columns t.
Proof.
  unfold requested. destruct (_ || _); [done|]. intros Hc. apply list_elem_of_omap in Hc as (x & _ & Hx).
  apply fmap_Some in Hx as ([i y] & Hf & ->). apply list_find_Some in Hf as (Hl & _).
  by eapply list_elem_of_lookup_2.
Qed.

Lemma collect_length {A B} (f : A -> R B) l ys : collect f l = Ok ys -> length ys = length l.
Proof.
  revert ys. induction l as [|x l IH]; intros ys H; cbn [collect] in H; [by injection H as <-|].
  destruct (f x) as [y| |]; cbn [obind] in H; try done.
  destruct (collect f l) as [zs| |]; cbn [obind] in H; try done.
  injection H as <-. cbn [length]. f_equal. by apply IH.
Qed.

Lemma project_total select t :
  well_shaped t ->
  exists rs, project select t = Ok rs /\ Value.columns rs = requested select t /\
    length (Value.rows rs) = length (rows t) /\
    Forall (fun r => length r = length (requested select t)) (Value.rows rs).
Proof.
  intros Ht. unfold project.
  destruct (collect_total (fun c => expect (position (fun col => bool_decide (col = c)) (columns t)))
              (fun i => i < length (columns t)) (requested select t)) as (idxs & Hi & Hlt).
  { intros c Hc%requested_in. destruct (position _ (columns t)) as [i|] eqn:Ep.
    - exists i. split; [done|]. by eapply position_lt.
    - rewrite position_None in Ep. specialize (Ep c Hc). by rewrite bool_decide_eq_true_2 in Ep. }
  rewrite Hi. cbn [obind]. apply collect_length in Hi.
  destruct (collect_total (fun row => collect (at_ row) idxs) (fun r => length r = length idxs) (rows t))
    as (rs & Hr & Hlen).
  { intros row Hrow. unfold well_shaped in Ht. rewrite Forall_forall in Ht. specialize (Ht row Hrow).
    destruct (collect_total (at_ row) (fun _ => True) idxs) as (vs & Hv & _).
    - intros i Hin. rewrite Forall_forall in Hlt. specialize (Hlt i Hin).
      destruct (lookup_lt_is_Some_2 row i ltac:(lia)) as [v Hv]. exists v. unfold at_. by rewrite Hv.
    - exists vs. split; [done|]. by eapply collect_length. }
  rewrite Hr. cbn [obind]. eexists. split; [reflexivity|]. cbn [Value.columns Value.rows].
  split; [done|]. split; [by eapply collect_length|]. by rewrite <- Hi.
Qed.

(** introspection never fails or panics, whatever the
    statement and the database, and its result is a table: every row has one
    value per column of the header. *)
Theorem catalog_is_total stmt db :
  exists r, handle_catalog stmt db = Ok r /\
    match r with
    | Some rs => Forall (fun row => length row = length (Value.columns rs)) (Value.rows rs)
    | None => True
    end.
Proof.
  unfold handle_catalog. destruct stmt; try (by exists None). destruct (Ast.table s); [|by exists None].
  destruct (build_total (normalize_catalog_name name) db) as (t & -> & Ht). cbn [obind].
  destruct t as [t|]; [|by exists None].
  destruct (project_total s t (Ht t eq_refl)) as (rs & -> & Hc & _ & Hr). cbn [obind].
  exists (Some rs). split; [done|]. by rewrite Hc.
Qed.

(** What is found depends on the last segment of the name only: a user's table
    called [columns] or [tables] is shadowed. *)
Definition select_star (name : string) : Ast.Statement :=
  Ast.Select (Ast.mkSelect [] true (Ast.Named (lit name) None) None [] [] [] [] [] None None None []).

Definition one_table (name : string) : Database :=
  Db.set_tables [(lit name, Db.new_table (Codec.mkSchema [lit "id"] [Ast.TInt] [] None [] [] []))] Db.empty.

Example user_table_is_shadowed :
  handle_catalog (select_star "columns") (one_table "columns") =
    Ok (Some (mkResult [lit "table_schema"; lit "table_name"; lit "column_name"; lit "data_type"]
      [[Text (lit "public"); Text (lit "columns"); Text (lit "id"); Text (lit "int8")]] None)).
Proof. vm_compute. reflexivity. Qed.

(** Different tables can have the same identifier. *)
Example rel_oid_collides : rel_oid (lit "products") = rel_oid (lit "t60").
Proof. vm_compute. reflexivity. Qed.

End PgCatalog.
