(* ===== verification/PgSimple.v ===== *)
(** * PgSimple: the simple query protocol
    ([crates/out-archon-pgwire/src/simple_query.rs])

    A query runs in the state of its connection: the shared database, the
    session and the shared metrics.  An engine error is answered; a panic, or
    the abort of an overflowing stack, ends the connection's thread. *)
From Stdlib Require Import ZArith Lia Strings.Byte Strings.String.
From stdpp Require Import base numbers option list gmap.
From S2P Require Import Prelude Ast Value Lexer Codec Parser Db Dml Engine PgText PgCodec PgSession PgError PgCatalog PgCompat.

Module PgSimple.
Import Ast(str, lit).
Import Value(Value, ResultSet).
Import PgText(chars, is_char, peek_is).
Import PgCompat(HYPHEN, SLASH, STAR, SQUOTE, DOLLAR, SEMICOLON, NEWLINE).

(** ** Splitting and comments *)

(** [for nc in chars.by_ref()]: skip to the end of the line, which is kept. *)
Fixpoint skip_line (cs : list str) : str * list str :=
  match cs with
  | [] => ([], [])
  | nc :: cs' => if is_char NEWLINE nc then ([NEWLINE], cs') else skip_line cs'
  end.

(** The rest of a block comment, and what follows it. *)
Fixpoint block_comment (cs : list str) : str * list str :=
  match cs with
  | [] => ([], [])
  | nc :: cs' =>
      match cs' with
      | d :: cs'' =>
          if is_char STAR nc && is_char SLASH d then (nc ++ [SLASH], cs'')
          else let '(t, r) := block_comment cs' in (nc ++ t, r)
      | [] => (nc, [])
      end
  end.

Record Split : Type := mkSplit {
  stmts : list str;
  current : str;
  in_string : bool;
  in_dollar_quote : bool
}.

Definition push (x : str) (s : Split) : Split := mkSplit (stmts s) (current s ++ x) (in_string s) (in_dollar_quote s).
Definition set_string (b : bool) (s : Split) : Split := mkSplit (stmts s) (current s) b (in_dollar_quote s).
Definition set_dollar (b : bool) (s : Split) : Split := mkSplit (stmts s) (current s) (in_string s) b.
Definition end_statement (s : Split) : Split :=
  let trimmed := PgText.trim (current s) in
  mkSplit (if bool_decide (trimmed = []) then stmts s else stmts s ++ [trimmed]) [] (in_string s) (in_dollar_quote s).

Definition split_step (s : Split) (c : str) (cs : list str) : Split * list str :=
  if in_dollar_quote s then
    let s := push c s in
    if is_char DOLLAR c && peek_is DOLLAR cs then (set_dollar false (push [DOLLAR] s), drop 1 cs) else (s, cs)
  else if is_char SQUOTE c then (push c (set_string (negb (in_string s)) s), cs)
  else if in_string s then (push c s, cs)
  else if is_char DOLLAR c then
    if peek_is DOLLAR cs then (set_dollar true (push [DOLLAR] (push c s)), drop 1 cs) else (push c s, cs)
  else if is_char SEMICOLON c then (end_statement s, cs)
  else if is_char HYPHEN c && peek_is HYPHEN cs then
    let '(t, r) := skip_line (drop 1 cs) in (push t (push c s), r)
  else if is_char SLASH c && peek_is STAR cs then
    let '(t, r) := block_comment (drop 1 cs) in (push t (push c s), r)
  else (push c s, cs).

Fixpoint split_loop (fuel : nat) (s : Split) (cs : list str) : Split :=
  match fuel with
  | O => s
  | S fuel' =>
      match cs with
      | [] => s
      | c :: cs' => let '(s, cs'') := split_step s c cs' in split_loop fuel' s cs''
      end
  end.

Definition split_statements (query : str) : list str :=
  let cs := chars query in
  stmts (end_statement (split_loop (length cs) (mkSplit [] [] false false) cs)).

(** One turn of [strip_comments]: what is kept, the string flag, what is left. *)
Definition strip_step (in_string : bool) (c : str) (cs : list str) : str * bool * list str :=
  if is_char SQUOTE c then (c, negb in_string, cs)
  else if in_string then (c, in_string, cs)
  else if is_char HYPHEN c && peek_is HYPHEN cs then
    let '(t, r) := skip_line (drop 1 cs) in (t, in_string, r)
  else if is_char SLASH c && peek_is STAR cs then ([], in_string, (block_comment (drop 1 cs)).2)
  else (c, in_string, cs).

Fixpoint strip_loop (fuel : nat) (in_string : bool) (cs : list str) : str :=
  match fuel with
  | O => []
  | S fuel' =>
      match cs with
      | [] => []
      | c :: cs' => let '(t, b, r) := strip_step in_string c cs' in t ++ strip_loop fuel' b r
      end
  end.

Definition strip_comments (sql : str) : str := let cs := chars sql in strip_loop (length cs) false cs.

(** ** Responses *)

Record Conn : Type := mkConn {
  db : Db.Database;
  session : PgSession.Session;
  metrics : PgSession.Metrics
}.

Definition set_session (f : PgSession.Session -> PgSession.Session) (c : Conn) : Conn :=
  mkConn (db c) (f (session c)) (metrics c).
Definition set_metrics (f : PgSession.Metrics -> PgSession.Metrics) (c : Conn) : Conn :=
  mkConn (db c) (session c) (f (metrics c)).
Definition set_db (d : Db.Database) (c : Conn) : Conn := mkConn d (session c) (metrics c).

(** The only way to fail is the abort of the process. *)
Inductive Abort : Type := Overflow.
Abbreviation C := (M Conn Abort).

Definition next_status (t : PgSession.SessionTxnStatus) (stmt : Ast.Statement) : PgSession.SessionTxnStatus :=
  match t with
  | PgSession.InTransaction =>
      match stmt with
      | Ast.Commit | Ast.Rollback => PgSession.Idle
      | _ => PgSession.InTransaction
      end
  | PgSession.Failed => match stmt with Ast.Rollback => PgSession.Idle | _ => PgSession.Failed end
  | PgSession.Idle => match stmt with Ast.Begin => PgSession.InTransaction | _ => PgSession.Idle end
  end.

Definition update_txn_status (stmt : Ast.Statement) (s : PgSession.Session) : PgSession.Session :=
  PgSession.set_status (next_status (PgSession.txn_status s) stmt) s.

Definition type_oid_for_value (v : Value) : Z :=
  match v with
  | Value.Int _ => 20
  | Value.Float _ => 701
  | Value.Text _ => 25
  | Value.Vector _ => 25
  | Value.Bool _ => 16
  | Value.Null => 25
  end.

Definition column_desc (name : str) : PgCodec.ColumnDesc :=
  PgCodec.mkColumn name 0 0 (type_oid_for_value Value.Null) (-1) (-1) 0.

Section Query.
Context `{Lexer.Fmt} `{DebugValue} `{PgError.DebugExec} (fuel : nat) (gpu : bool).

Definition parse_sql (raw : str) : outcome Lexer.ParseError Ast.Statement :=
  Parser.parse_statement (strip_comments raw).

(** The row description and the rows of a result with columns. *)
Definition result_frames (rs : ResultSet) : list byte :=
  match Value.columns rs with
  | [] => []
  | names =>
      let cols := map column_desc names in
      PgCodec.write_row_description cols []
      ++ concat (map (fun row => PgCodec.write_data_row cols row []) (Value.rows rs))
  end.

Definition emit_select (rs : ResultSet) : C (list byte) :=
  m_modify (set_session (update_txn_status (Ast.SelectLiteral [])));;
  mret (result_frames rs
        ++ PgCodec.write_command_complete (lit "SELECT") (Z.of_nat (length (Value.rows rs))) []).

Definition emit_error (err : Codec.DbError) : C (list byte) :=
  m_modify (fun c => set_session PgSession.set_failed (set_metrics PgSession.record_error c));;
  mret (PgCodec.write_error_response (PgError.display err) (Some (PgError.SqlState.sqlstate_for_db_error err)) []).

(** [SET statement_timeout = ..]. *)
Definition emit_timeout (value : str) : C (list byte) :=
  match PgSession.parse_statement_timeout value with
  | Some ms =>
      m_modify (set_session (PgSession.set_statement_timeout ms));;
      mret (PgCodec.write_command_complete (lit "SET") 0 [])
  | None =>
      m_modify (set_session PgSession.set_failed);;
      mret (PgCodec.write_error_response
        (lit "invalid value for parameter " ++ [x22] ++ lit "statement_timeout" ++ [x22] ++ lit ": "
         ++ [x22] ++ value ++ [x22]) (Some (lit "22023")) [])
  end.

Definition timeout_setting (stmt : Ast.Statement) : option str :=
  match stmt with
  | Ast.SetParameter sp =>
      if PgText.eq_ignore_ascii_case (Ast.sp_name sp) (lit "statement_timeout") then Some (Ast.sp_value sp) else None
  | _ => None
  end.

(** [db.execute_in_session_with_stats(session.id, &stmt, &[])]. *)
Definition run_statement (stmt : Ast.Statement) : C (outcome Codec.DbError (ResultSet * Value.CommandTag)) := fun c =>
  match Engine.execute_in_session_with_stats fuel gpu (PgSession.id (session c)) stmt [] (db c) with
  | (Ok r, d) => (Ok (Ok r), set_db d c)
  | (Err (Db.Db e), d) => (Ok (Err e), set_db d c)
  | (Err Db.StackOverflow, d) => (Err Overflow, set_db d c)
  | (Panic, d) => (Panic, set_db d c)
  end.

Definition catalog (stmt : Ast.Statement) : C (option ResultSet) := fun c =>
  match PgCatalog.handle_catalog stmt (db c) with
  | Ok r => (Ok r, c)
  | _ => (Panic, c)
  end.

(** The response to one statement. *)
Definition respond_parsed (raw_stmt : str) (stmt : Ast.Statement) : C (list byte) :=
  found ← catalog stmt;
  match found with
  | Some rs => emit_select rs
  | None =>
      match timeout_setting stmt with
      | Some value => emit_timeout value
      | None =>
          r ← run_statement stmt;
          match r with
          | Ok (rs, tag) =>
              m_modify (set_session (update_txn_status stmt));;
              mret (result_frames rs
                    ++ PgCodec.write_command_complete (Value.as_str tag) (default 0%Z (Value.row_count tag)) [])
          | _ => emit_error (Codec.Unsupported raw_stmt)
          end
      end
  end.

Definition respond (raw : str) : C (list byte) :=
  let raw_stmt := PgText.trim raw in
  if bool_decide (raw_stmt = []) then mret []
  else
    m_modify (set_metrics PgSession.record_statement);;
    match parse_sql raw_stmt with
    | Ok stmt => respond_parsed raw_stmt stmt
    | Err _ => emit_error (Codec.Unsupported raw_stmt)
    | Panic => m_panic
    end.

Fixpoint respond_all (l : list str) : C (list byte) :=
  match l with
  | [] => mret []
  | raw :: l' => out ← respond raw; rest ← respond_all l'; mret (out ++ rest)
  end.

Definition handle_simple_query (query : str) : C (list byte) :=
  body ← respond_all (split_statements query);
  c ← m_get;
  let out := body ++ PgCodec.write_ready_for_query
                       (PgSession.to_transaction_status (PgSession.txn_status (session c))) [] in
  m_modify (set_metrics (PgSession.record_bytes_sent (Z.of_nat (length out))));;
  mret out.

End Query.
End PgSimple.
