(* ===== verification/PgSimpleProof.v ===== *)
(** * PgSimpleProof: what the simple query protocol guarantees

    The status a session reports follows the transaction the engine keeps for
    it; no statement but BEGIN, COMMIT and ROLLBACK touches that record. *)
From Stdlib Require Import ZArith Lia Strings.Byte Strings.String.
From stdpp Require Import base numbers option list gmap.
From S2P Require Import Prelude Ast Value Lexer Codec Parser Db Dml Engine PgText PgCodec PgSession PgError PgCatalog PgCompat PgSimple.

Module PgSimpleProof.
Import Ast(str, lit).
Import PgSimple.

(** ** Statements leave the sessions' transactions alone *)

Definition keeps {A} (m : Dml.D A) : Prop := forall d, Db.session_txns (m d).2 = Db.session_txns d.

Lemma keeps_ret {A} (a : A) : keeps (mret a).
Proof. done. Qed.
Lemma keeps_of_r {A} (o : Dml.R A) : keeps (Dml.of_r o).
Proof. done. Qed.
Lemma keeps_get : keeps m_get.
Proof. done. Qed.
Lemma keeps_read {A} (f : Db.Database -> Dml.R A) : keeps (Db.read f).
Proof. done. Qed.

Lemma keeps_txn_bind {A B} (m : Dml.D A) (k : A -> Dml.D B) : keeps m -> (forall a, keeps (k a)) -> keeps (m ≫= k).
Proof.
  intros Hm Hk d. unfold mbind, M_bind. specialize (Hm d). destruct (m d) as [[a|e|] d']; simpl in *; [|done..].
  by rewrite Hk.
Qed.

Lemma keeps_txn_modify f : (forall d, Db.session_txns (f d) = Db.session_txns d) -> keeps (m_modify f).
Proof. intros Hf d. apply Hf. Qed.

Lemma keeps_on_table {A} name e (f : M Db.TableStorage Db.Failure A) : keeps (Db.on_table name e f).
Proof. intros d. unfold Db.on_table. destruct (Db.table name d) as [ts|]; [|done]. by destruct (f ts). Qed.

Lemma keeps_when b (m : Dml.D unit) : keeps m -> keeps (Dml.m_when b m).
Proof. intros Hm. by destruct b. Qed.

Lemma keeps_each {A} (f : A -> Dml.D unit) l : (forall x, keeps (f x)) -> keeps (Dml.m_each f l).
Proof. intros Hf. induction l as [|x l IH]; [done|]. apply keeps_txn_bind; [apply Hf|]. by intros _. Qed.

Lemma keeps_ensure name : keeps (Dml.ensure_txn name).
Proof. intros d. unfold Dml.ensure_txn. by repeat case_match. Qed.
Lemma keeps_write name id bytes : keeps (Dml.txn_write name id bytes).
Proof. intros d. unfold Dml.txn_write. by case_match. Qed.

#[local] Hint Resolve keeps_ret keeps_of_r keeps_get keeps_read keeps_on_table keeps_ensure keeps_write : keeps.

(** Peel a computation step by step. *)
Ltac keeps :=
  repeat first
    [ progress eauto with keeps
    | apply keeps_txn_bind; [|intros ?]
    | apply keeps_when
    | apply keeps_each; intros ?
    | match goal with |- keeps (match ?x with _ => _ end) => destruct x end ].

Section Execute.
Context `{Lexer.Fmt} `{DebugValue} `{PgError.DebugExec} (fuel : nat) (gpu : bool).

Lemma keeps_insert i : keeps (Dml.run_insert_stmt fuel gpu i).
Proof. unfold Dml.run_insert_stmt, Dml.insert_row. keeps. Qed.
Lemma keeps_update u : keeps (Dml.run_update fuel gpu u).
Proof. unfold Dml.run_update, Dml.update_row. keeps. Qed.
Lemma keeps_txn_delete d : keeps (Dml.run_delete fuel gpu d).
Proof. unfold Dml.run_delete, Dml.delete_row. keeps. Qed.

Lemma keeps_create ct : keeps (Engine.run_create_table ct).
Proof. intros d. unfold Engine.run_create_table. by repeat case_match. Qed.
Lemma keeps_view cv : keeps (Engine.run_create_view cv).
Proof. intros d. unfold Engine.run_create_view. by repeat case_match. Qed.
Lemma keeps_drop name : keeps (Engine.run_drop_view name).
Proof. intros d. unfold Engine.run_drop_view. by repeat case_match. Qed.
Lemma keeps_begin : keeps Engine.run_begin.
Proof. intros d. unfold Engine.run_begin. by repeat case_match. Qed.
Lemma keeps_rollback : keeps Engine.run_rollback.
Proof. intros d. unfold Engine.run_rollback. by repeat case_match. Qed.
Lemma keeps_commit : keeps Engine.run_commit.
Proof.
  intros d. unfold Engine.run_commit. destruct (negb _); [done|].
  match goal with |- Db.session_txns ((?m) (Db.set_txn false [] d)).2 = _ =>
    transitivity (Db.session_txns (Db.set_txn false [] d)); [|done]; assert (Hk : keeps m) by keeps; apply Hk end.
Qed.

Lemma keeps_alter a : keeps (Engine.run_alter_table a).
Proof. apply keeps_on_table. Qed.

#[local] Hint Resolve keeps_alter keeps_insert keeps_update keeps_txn_delete keeps_create keeps_view keeps_drop
  keeps_begin keeps_rollback keeps_commit : keeps.

Lemma keeps_execute stmt params : keeps (Engine.execute fuel gpu stmt params).
Proof.
  destruct stmt; cbn [Engine.execute]; try (by keeps);
    try (apply keeps_txn_bind; [apply keeps_txn_modify; intros ?; reflexivity|intros ?; apply keeps_ret]).
Qed.

(** ** The status of a session *)

Abbreviation open id d := (Engine.session_in_transaction id d).

Lemma open_lookup id d d' :
  Db.session_txns d' !! id = Db.session_txns d !! id -> open id d' = open id d.
Proof. unfold Engine.session_in_transaction. by intros ->. Qed.

(** A statement other than BEGIN, COMMIT and ROLLBACK. *)
Definition ordinary (stmt : Ast.Statement) : Prop :=
  match stmt with Ast.Begin | Ast.Commit | Ast.Rollback => False | _ => True end.

Lemma execute_swapped_open id stmt params d :
  open id (Engine.execute_swapped fuel gpu id stmt params d).2 = open id d.
Proof.
  unfold Engine.execute_swapped. destruct (Db.session_txns d !! id) as [s|] eqn:Es; [|done].
  match goal with |- context [Engine.execute fuel gpu stmt params ?d0] => set (d1 := d0) end.
  assert (Hk := keeps_execute stmt params d1). destruct (Engine.execute fuel gpu stmt params d1) as [r d'].
  cbn [snd] in *. unfold Engine.session_in_transaction. cbn [Db.set_sessions Db.session_txns].
  rewrite Hk. unfold d1. cbn [Db.set_txn Db.set_sessions Db.session_txns].
  by rewrite lookup_insert_eq, lookup_insert_eq, Es.
Qed.

Lemma run_ordinary id stmt params d :
  ordinary stmt -> open id (Engine.execute_in_session fuel gpu id stmt params d).2 = open id d.
Proof.
  intros Hs.
  assert (Hd : Engine.execute_in_session fuel gpu id stmt params d =
    if open id d then Engine.execute_swapped fuel gpu id stmt params d else Engine.execute fuel gpu stmt params d)
    by (by destruct stmt).
  rewrite Hd. destruct (open id d) eqn:Ho; [by rewrite execute_swapped_open|].
  rewrite <- Ho. apply open_lookup. by rewrite keeps_execute.
Qed.

(** What a statement that succeeds does to the session's transaction. *)
Lemma run_open id stmt params d r d' :
  Engine.execute_in_session fuel gpu id stmt params d = (Ok r, d') ->
  match stmt with
  | Ast.Begin => open id d = false /\ open id d' = true
  | Ast.Commit | Ast.Rollback => open id d = true /\ open id d' = false
  | _ => open id d' = open id d
  end.
Proof.
  intros He. assert (Ho := run_ordinary id stmt params d). rewrite He in Ho. cbn [snd] in Ho.
  destruct stmt; try exact (Ho I); cbn [Engine.execute_in_session] in He;
    apply bind_inv in He as ([] & d1 & He & Hr); unfold mret, M_ret in Hr; injection Hr as _ <-.
  - unfold Engine.session_begin in He. unfold Engine.session_in_transaction.
    destruct (Db.session_txns d !! id) as [s|]; cbn in He.
    + destruct (Db.s_in_transaction s); [discriminate He|]. injection He as <-.
      cbn [Db.set_sessions Db.session_txns]. by rewrite lookup_insert_eq.
    + injection He as <-. cbn [Db.set_sessions Db.session_txns]. by rewrite lookup_insert_eq.
  - unfold Engine.session_commit in He. unfold Engine.session_in_transaction.
    destruct (Db.session_txns d !! id) as [s|]; [|by unfold Db.db_err in He]. destruct (Db.s_in_transaction s); [|by unfold Db.db_err in He].
    cbn [negb] in He. split; [done|].
    match type of He with Dml.m_each ?f ?l ?d0 = _ =>
      assert (Hk : keeps (Dml.m_each f l)) by keeps; specialize (Hk d0); rewrite He in Hk end.
    cbn [snd Db.set_sessions Db.session_txns] in Hk. rewrite Hk. by rewrite lookup_insert_eq.
  - unfold Engine.session_rollback in He. unfold Engine.session_in_transaction.
    destruct (Db.session_txns d !! id) as [s|]; [|by unfold Db.db_err in He]. destruct (Db.s_in_transaction s); [|by unfold Db.db_err in He].
    injection He as <-. split; [done|]. cbn [Db.set_sessions Db.session_txns]. by rewrite lookup_insert_eq.
Qed.

(** The status agrees with the engine, unless the session has failed. *)
Definition agrees (c : Conn) : Prop :=
  match PgSession.txn_status (session c) with
  | PgSession.Idle => open (PgSession.id (session c)) (db c) = false
  | PgSession.InTransaction => open (PgSession.id (session c)) (db c) = true
  | PgSession.Failed => True
  end.

Definition preserves {A} (m : M Conn Abort A) : Prop :=
  forall c a c', agrees c -> m c = (Ok a, c') -> agrees c'.

Lemma preserves_ret {A} (a : A) : preserves (mret a).
Proof. intros c b c' Hc Hr. unfold mret, M_ret in Hr. by injection Hr as _ <-. Qed.

Lemma preserves_bind {A B} (m : M Conn Abort A) (k : A -> M Conn Abort B) :
  preserves m -> (forall a, preserves (k a)) -> preserves (m ≫= k).
Proof. intros Hm Hk c b c' Hc Hr. apply bind_inv in Hr as (a & c1 & E1 & E2). eapply Hk, E2. by eapply Hm. Qed.

Lemma preserves_modify f : (forall c, agrees c -> agrees (f c)) -> preserves (m_modify f).
Proof. intros Hf c a c' Hc Hr. unfold m_modify in Hr. injection Hr as _ <-. by apply Hf. Qed.

Lemma preserves_error err : preserves (emit_error err).
Proof. apply preserves_bind; [by apply preserves_modify|intros ?; apply preserves_ret]. Qed.

Lemma preserves_timeout value : preserves (emit_timeout value).
Proof.
  unfold emit_timeout. destruct (PgSession.parse_statement_timeout value);
    (apply preserves_bind; [apply preserves_modify|intros ?; apply preserves_ret]); [|done].
  intros c Hc. exact Hc.
Qed.

Lemma preserves_select rs : preserves (emit_select rs).
Proof.
  apply preserves_bind; [apply preserves_modify|intros ?; apply preserves_ret].
  intros [d s m] Hc. unfold agrees in *. cbn in *. by destruct (PgSession.txn_status s).
Qed.

(** A statement that succeeds moves both in step. *)
Lemma run_update stmt c r c' :
  agrees c -> run_statement fuel gpu stmt c = (Ok (Ok r), c') ->
  agrees (set_session (update_txn_status stmt) c').
Proof.
  intros Hc Hr. unfold run_statement in Hr.
  destruct (Engine.execute_in_session_with_stats _ _ _ _ _ _) as [[x|[e|]|] d] eqn:E; simplify_eq.
  unfold Engine.execute_in_session_with_stats in E. apply bind_inv in E as (rs & d1 & He & Hx). unfold mret, M_ret in Hx. injection Hx as _ <-.
  apply run_open in He. destruct c as [d0 s m]. unfold agrees in *. cbn in *.
  destruct (PgSession.txn_status s); destruct stmt; cbn; try done; try (destruct He; congruence); by rewrite He.
Qed.

Lemma run_failed stmt c e c' : run_statement fuel gpu stmt c = (Ok (Err e), c') -> session c' = session c.
Proof.
  unfold run_statement. destruct (Engine.execute_in_session_with_stats _ _ _ _ _ _) as [[x|[e'|]|] d]; intros; by simplify_eq.
Qed.

Lemma preserves_parsed raw stmt : preserves (respond_parsed fuel gpu raw stmt).
Proof.
  intros c out c' Hc Hr. unfold respond_parsed in Hr.
  apply bind_inv in Hr as (found & c1 & Hcat & Hr). unfold catalog in Hcat.
  destruct (PgCatalog.handle_catalog stmt (db c)); simplify_eq.
  destruct found as [rs|]; [by eapply preserves_select|].
  destruct (timeout_setting stmt) as [v|]; [by eapply preserves_timeout|].
  apply bind_inv in Hr as (r & c2 & Hrun & Hr).
  destruct r as [[rs tg]|e|].
  - apply run_update in Hrun; [|done]. unfold mbind, M_bind, m_modify, mret, M_ret in Hr. injection Hr as _ <-. exact Hrun.
  - unfold emit_error, mbind, M_bind, m_modify, mret, M_ret in Hr. by injection Hr as _ <-.
  - unfold emit_error, mbind, M_bind, m_modify, mret, M_ret in Hr. by injection Hr as _ <-.
Qed.

Lemma preserves_respond raw : preserves (respond fuel gpu raw).
Proof.
  unfold respond. case_bool_decide; [apply preserves_ret|].
  apply preserves_bind; [by apply preserves_modify|intros _].
  destruct (parse_sql _); [apply preserves_parsed|apply preserves_error|by intros ? ? ? ?].
Qed.

Lemma preserves_all l : preserves (respond_all fuel gpu l).
Proof.
  induction l as [|raw l IH]; [apply preserves_ret|].
  apply preserves_bind; [apply preserves_respond|intros out].
  apply preserves_bind; [exact IH|intros rest; apply preserves_ret].
Qed.

(** C4: the transaction status of a session is the
    engine's.  While a connection's status is Idle the engine has no
    transaction open for its session, and while it is InTransaction it has
    one; every query keeps this, whatever its text and whether its statements
    succeed or fail. *)
Theorem status_follows_the_engine query c out c' :
  agrees c -> handle_simple_query fuel gpu query c = (Ok out, c') -> agrees c'.
Proof.
  intros Hc Hr. unfold handle_simple_query in Hr.
  apply bind_inv in Hr as (body & c1 & E1 & Hr). apply preserves_all in E1; [|done].
  apply bind_inv in Hr as (c2 & c3 & E2 & Hr). unfold m_get in E2. injection E2 as <- <-.
  unfold mbind, M_bind, m_modify, mret, M_ret in Hr. injection Hr as _ <-. exact E1.
Qed.

(** Whatever is wrong with a statement, the client is told that it is not
    supported. *)
Lemma errors_are_not_reported raw c out c' stmt e c1 :
  PgText.trim raw <> [] -> parse_sql (PgText.trim raw) = Ok stmt ->
  catalog stmt (set_metrics PgSession.record_statement c) = (Ok None, set_metrics PgSession.record_statement c) ->
  timeout_setting stmt = None ->
  run_statement fuel gpu stmt (set_metrics PgSession.record_statement c) = (Ok (Err e), c1) ->
  respond fuel gpu raw c = (Ok out, c') ->
  out = PgCodec.write_error_response (lit "unsupported: " ++ PgText.trim raw) (Some (lit "0A000")) [].
Proof.
  intros Hn Hp Hcat Ht Hrun Hr. unfold respond in Hr. rewrite bool_decide_eq_false_2, Hp in Hr by done.
  unfold mbind, M_bind at 1, m_modify in Hr. unfold respond_parsed in Hr.
  rewrite (bind_ok _ _ _ _ _ Hcat), Ht, (bind_ok _ _ _ _ _ Hrun) in Hr.
  unfold emit_error, mbind, M_bind, m_modify, mret, M_ret in Hr. injection Hr as <- _. reflexivity.
Qed.

End Execute.

(** ** A connection at work *)

#[local] Instance demo_fmt : Lexer.Fmt := {| Lexer.tok_debug _ := []; Lexer.f32_display _ := [] |}.
#[local] Instance demo_debug : DebugValue := fun _ => [].
#[local] Instance demo_exec : PgError.DebugExec := fun _ => [].

Definition fresh : Conn := mkConn Db.empty (PgSession.new 7) PgSession.metrics_new.

(** A series of queries, and the connection after it. *)
Fixpoint queries (l : list string) (c : Conn) : Conn :=
  match l with
  | [] => c
  | q :: l' => queries l' (handle_simple_query 8 false (lit q) c).2
  end.

(** What a query answers with [SELECT]: the rows of a table. *)
Definition rows_of (q : string) (c : Conn) : list (list Value.Value) :=
  match Parser.parse_statement (lit q) with
  | Ok stmt => match (Engine.execute_in_session 8 false 99 stmt [] (db c)).1 with
               | Ok rs => Value.rows rs
               | _ => []
               end
  | _ => []
  end.

Lemma status_follows_the_engine_witness :
  let c := queries ["CREATE TABLE t (v INT)"%string; "BEGIN"%string] fresh in
  agrees c /\ PgSession.txn_status (session c) = PgSession.InTransaction /\
  exists out c', handle_simple_query 8 false (lit "INSERT INTO t (v) VALUES (5); COMMIT") c = (Ok out, c') /\
    agrees c' /\ PgSession.txn_status (session c') = PgSession.Idle.
Proof.
  intros c. assert (Hc : agrees c) by (vm_compute; reflexivity).
  split; [exact Hc|]. split; [vm_compute; reflexivity|].
  destruct (handle_simple_query 8 false (lit "INSERT INTO t (v) VALUES (5); COMMIT") c) as [o c'] eqn:E.
  assert (Ho : exists out, o = Ok out) by (eexists; change o with (o, c').1; rewrite <- E; vm_compute; reflexivity).
  destruct Ho as [out ->]. exists out, c'. split; [reflexivity|]. split.
  - exact (status_follows_the_engine 8 false _ _ _ _ Hc E).
  - change c' with (Ok (E := Abort) out, c').2. rewrite <- E. vm_compute. reflexivity.
Defined.

(** A failed transaction is not rolled back: its later statements run, and its
    COMMIT commits them. *)
Example failed_transaction_commits :
  let c := queries ["CREATE TABLE t (v INT)"%string; "BEGIN"%string; "nonsense"%string;
                    "INSERT INTO t (v) VALUES (5)"%string; "COMMIT"%string] fresh in
  PgSession.txn_status (session c) = PgSession.Failed /\
  Engine.session_in_transaction 7 (db c) = false /\ rows_of "SELECT v FROM t" c = [[Value.Int 5]].
Proof. vm_compute. auto. Qed.

(** An error outside a transaction leaves the session Failed, and ROLLBACK,
    which the engine refuses, does not help. *)
Example error_outside_transaction_sticks :
  PgSession.txn_status (session (queries ["nonsense"%string; "ROLLBACK"%string; "SELECT 1"%string] fresh))
    = PgSession.Failed.
Proof. vm_compute. reflexivity. Qed.

(** A line comment leaves a hyphen in the statement, which does not parse. *)
Example line_comment_leaves_a_hyphen :
  PgSimple.split_statements (lit "SELECT 1 -- one") = [lit "SELECT 1 -"] /\
  is_ok (parse_sql (lit "SELECT 1 -")) = false /\ is_ok (parse_sql (lit "SELECT 1 -- one")) = true.
Proof. vm_compute. auto. Qed.

End PgSimpleProof.
