(* ===== verification/PgTask.v ===== *)
(** * PgTask: a connection as a scheduled task
    ([crates/out-archon-pgwire/src/task.rs])

    The socket does not block: it is the events its reads will see, the bytes
    sent, and the room its peer leaves for writes.  A method that takes the
    stream out of the task and returns early does not put it back, which drops
    the connection: [connected] is whether the task has its stream.  A panic,
    and an abort of the engine, end the process that runs all the tasks. *)
From Stdlib Require Import ZArith Lia Strings.Byte Strings.String.
From stdpp Require Import base numbers option list gmap.
From S2P Require Import Prelude Scheduler Ast Value Lexer Codec Parser Db Dml Engine PgText PgCodec PgScram PgSession PgError PgCompat.

Module PgTask.
Import Ast(str, lit).
Import Value(Value, ResultSet).
Import PgError(PgWireError, Io, Protocol, FromUtf8).

(** ** The socket *)

Inductive event : Type :=
| Data (b : list byte)
| Block
| Fail (text : str).

Record TcpStream : Type := mkStream {
  incoming : list event;
  sent : list byte;
  room : option nat
}.

(** The errors the code distinguishes; the text is for the others. *)
Inductive IoError : Type := WouldBlock | Other (text : str).

(** Texts of the operating system and of the standard library. *)
Class OsText : Type := { would_block_text : str; utf8_error_text : list byte -> str }.

(** [read] into a buffer of [n] bytes; no event is left when the peer has closed. *)
Definition sock_read (n : nat) : M TcpStream IoError (list byte) := fun s =>
  match incoming s with
  | [] => (Ok [], s)
  | Data b :: r =>
      if length b <=? n then (Ok b, mkStream r (sent s) (room s))
      else (Ok (take n b), mkStream (Data (drop n b) :: r) (sent s) (room s))
  | Block :: r => (Err WouldBlock, mkStream r (sent s) (room s))
  | Fail t :: r => (Err (Other t), mkStream r (sent s) (room s))
  end.

(** [read_exact]: what was read before an error is lost.  Every turn uses up
    an event or fills the buffer. *)
Fixpoint read_exact_loop (fuel n : nat) : M TcpStream IoError (list byte) :=
  match n with
  | O => mret []
  | S _ =>
      match fuel with
      | O => m_panic
      | S fuel' =>
          b ← sock_read n;
          match b with
          | [] => m_err (Other (lit "failed to fill whole buffer"))
          | _ => rest ← read_exact_loop fuel' (n - length b); mret (b ++ rest)
          end
      end
  end.
Definition read_exact (n : nat) : M TcpStream IoError (list byte) := fun s =>
  read_exact_loop (S (length (incoming s))) n s.

(** [write_all]: what there is room for is sent before an error. *)
Definition sock_write (b : list byte) : M TcpStream IoError unit := fun s =>
  match room s with
  | None => (Ok tt, mkStream (incoming s) (sent s ++ b) None)
  | Some n =>
      if length b <=? n then (Ok tt, mkStream (incoming s) (sent s ++ b) (Some (n - length b)))
      else (Err WouldBlock, mkStream (incoming s) (sent s ++ take n b) (Some 0))
  end.

(** ** The task *)

Inductive ConnectionState : Type := Startup | Authenticating | Ready | Processing | Closed | Error.

#[export] Instance ConnectionState_eq_dec : EqDecision ConnectionState.
Proof. solve_decision. Defined.

Record PgConnectionTask : Type := mkTask {
  stream : TcpStream;
  connected : bool;
  session : PgSession.Session;
  state : ConnectionState;
  read_buf : list byte;
  startup_complete : bool;
  auth_complete : bool
}.

(** [PgConnectionTask::new]; the write buffer is cleared before every use and
    is not part of the state. *)
Definition new (s : TcpStream) (sess : PgSession.Session) : PgConnectionTask :=
  mkTask s true sess Startup [] false false.

Definition set_stream (x : TcpStream) (t : PgConnectionTask) : PgConnectionTask :=
  mkTask x (connected t) (session t) (state t) (read_buf t) (startup_complete t) (auth_complete t).
Definition set_connected (x : bool) (t : PgConnectionTask) : PgConnectionTask :=
  mkTask (stream t) x (session t) (state t) (read_buf t) (startup_complete t) (auth_complete t).
Definition set_session (x : PgSession.Session) (t : PgConnectionTask) : PgConnectionTask :=
  mkTask (stream t) (connected t) x (state t) (read_buf t) (startup_complete t) (auth_complete t).
Definition set_state (x : ConnectionState) (t : PgConnectionTask) : PgConnectionTask :=
  mkTask (stream t) (connected t) (session t) x (read_buf t) (startup_complete t) (auth_complete t).
Definition set_read_buf (x : list byte) (t : PgConnectionTask) : PgConnectionTask :=
  mkTask (stream t) (connected t) (session t) (state t) x (startup_complete t) (auth_complete t).
Definition set_startup_complete (t : PgConnectionTask) : PgConnectionTask :=
  mkTask (stream t) (connected t) (session t) (state t) (read_buf t) true (auth_complete t).
Definition set_auth_complete (t : PgConnectionTask) : PgConnectionTask :=
  mkTask (stream t) (connected t) (session t) (state t) (read_buf t) (startup_complete t) true.

(** A method runs in the task and the shared database. *)
Record World : Type := mkWorld { task : PgConnectionTask; db : Db.Database }.
Abbreviation T := (M World PgWireError).

Definition on_task (f : PgConnectionTask -> PgConnectionTask) (w : World) : World := mkWorld (f (task w)) (db w).
Definition modify (f : PgConnectionTask -> PgConnectionTask) : T unit := m_modify (on_task f).

Section Task.
Context `{OsText} `{Lexer.Fmt} `{DebugValue} `{PgError.DebugExec} `{PgScram.Crypto} (fuel : nat) (gpu : bool).
(** The random bytes of the connection's SCRAM exchange. *)
Context (random : list byte).

Definition io_error (e : IoError) : PgWireError :=
  match e with WouldBlock => Io would_block_text | Other t => Io t end.

(** Run a socket operation, its error seen by the caller. *)
Definition try_io {A} (m : M TcpStream IoError A) : T (outcome IoError A) := fun w =>
  let '(o, s) := m (stream (task w)) in (Ok o, on_task (set_stream s) w).

(** ..and with [?]. *)
Definition io {A} (m : M TcpStream IoError A) : T A :=
  o ← try_io m;
  match o with Ok a => mret a | Err e => m_err (io_error e) | Panic => m_panic end.

Definition write_all (b : list byte) : T unit := io (sock_write b).

(** [self.stream.take().ok_or_else(..)?] and [self.stream = Some(stream)]. *)
Definition take_stream : T unit :=
  w ← m_get;
  if connected (task w) then modify (set_connected false) else m_err (Io (lit "Stream not available")).
Definition put_stream : T unit := modify (set_connected true).

(** ** Startup *)

(** The bytes up to NUL, and what follows it. *)
Fixpoint cstring (b : list byte) : list byte * list byte :=
  match b with
  | [] => ([], [])
  | c :: b' => if Byte.eqb c x00 then ([], b') else let '(s, r) := cstring b' in (c :: s, r)
  end.

Definition read_cstring (b : list byte) : outcome PgWireError (str * list byte) :=
  let '(s, r) := cstring b in
  if Codec.utf8_valid s then Ok (s, r) else Err (Io (utf8_error_text s)).

(** A pair takes at least one byte. *)
Fixpoint startup_params (fuel : nat) (b : list byte) : outcome PgWireError (list (str * str)) :=
  match fuel with
  | O => Panic
  | S fuel' =>
      match read_cstring b with
      | Ok ([], _) => Ok []
      | Ok (key, b1) =>
          match read_cstring b1 with
          | Ok (value, b2) =>
              match startup_params fuel' b2 with Ok ps => Ok ((key, value) :: ps) | o => o end
          | Err e => Err e
          | Panic => Panic
          end
      | Err e => Err e
      | Panic => Panic
      end
  end.

Definition lift {A} (o : outcome PgWireError A) : T A := fun w => (o, w).

Definition handle_startup (msg_len : Z) : T unit :=
  if (msg_len <? 8)%Z then m_panic
  else
    payload ← io (read_exact (Z.to_nat (msg_len - 8)));
    params ← lift (startup_params (S (length payload)) payload);
    modify (fun t => set_session
      (fold_left (fun s kv => PgSession.set_parameter kv.1 kv.2 s) params (session t)) t).

Definition unsupported_version (v : Z) : PgWireError :=
  Protocol (lit "Unsupported protocol version: " ++ PgText.hex08 v).

Definition startup_done : T unit :=
  put_stream;; modify (fun t => set_state Authenticating (set_startup_complete t)).

Definition process_startup : T unit :=
  take_stream;;
  o ← try_io (read_exact 8);
  match o with
  | Err WouldBlock => put_stream
  | Err e => put_stream;; m_err (io_error e)
  | Panic => m_panic
  | Ok b =>
      let msg_len := be_val (take 4 b) in
      let protocol_version := be_val (drop 4 b) in
      if (protocol_version =? 80877103)%Z then
        write_all (lit "N");;
        b ← io (read_exact 8);
        let msg_len := be_val (take 4 b) in
        let protocol_version := be_val (drop 4 b) in
        if negb (protocol_version =? PgCodec.PROTOCOL_VERSION)%Z then
          put_stream;; m_err (unsupported_version protocol_version)
        else handle_startup msg_len;; startup_done
      else if (protocol_version =? PgCodec.PROTOCOL_VERSION)%Z then handle_startup msg_len;; startup_done
      else if (protocol_version =? 0)%Z then put_stream;; m_err (Protocol (lit "Cancel requests not supported"))
      else put_stream;; m_err (unsupported_version protocol_version)
  end.

(** Clear the write buffer, write a frame into it and send it. *)
Definition send (t : byte) (payload : list byte) : T unit := write_all (PgCodec.write_message t payload []).

Definition send_ready_for_query (status : PgCodec.TxnStatus) : T unit := send "Z" [PgCodec.as_byte status].

Definition auth_params : list (str * str) :=
  [(lit "server_version", lit "16.0"); (lit "server_encoding", lit "UTF8"); (lit "client_encoding", lit "UTF8");
   (lit "application_name", []); (lit "DateStyle", lit "ISO, MDY"); (lit "TimeZone", lit "UTC");
   (lit "standard_conforming_strings", lit "on");
   (lit "search_path", [x22] ++ lit "$user" ++ [x22] ++ lit ", public");
   (lit "default_transaction_isolation", lit "read committed"); (lit "transaction_isolation", lit "read committed")].

Fixpoint each {A} (f : A -> T unit) (l : list A) : T unit :=
  match l with [] => mret tt | x :: l' => f x;; each f l' end.

Definition send_auth_and_params : T unit :=
  take_stream;;
  send "R" [x00; x00; x00; x00];;
  each (fun nv => send "S" (PgCodec.write_cstring nv.2 (PgCodec.write_cstring nv.1 []))) auth_params;;
  send "K" (be_bytes 4 12345 ++ be_bytes 4 54321);;
  send_ready_for_query PgCodec.Idle;;
  modify (fun t => set_state Ready (set_auth_complete t));;
  put_stream.

(** ** Messages *)

Definition column_payload (name : str) : list byte :=
  PgCodec.write_cstring name [] ++ be_bytes 4 0 ++ be_bytes 2 0 ++ be_bytes 4 25 ++ be_bytes 2 (-1)
  ++ be_bytes 4 (-1) ++ be_bytes 2 0.

Definition sized (s : str) : list byte := be_bytes 4 (Z.of_nat (length s)) ++ s.

Definition value_payload (v : Value) : list byte :=
  match v with
  | Value.Null => be_bytes 4 (-1)
  | Value.Int i => sized (Lexer.int_to_string i)
  | Value.Text s => sized s
  | Value.Float f => sized (Lexer.f32_display f)
  | Value.Vector v => sized (lit "[" ++ PgCodec.join_comma (map Lexer.f32_display v) ++ lit "]")
  | Value.Bool b => sized (lit (if b then "t" else "f"))
  end.

Definition send_command_complete (tag : str) : T unit := send "C" (PgCodec.write_cstring tag []).
Definition send_empty_query_response : T unit := send "I" [].

Definition count (n : nat) : str := Lexer.int_to_string (Z.of_nat n).

Definition send_query_results (rs : ResultSet) : T unit :=
  send "T" (be_bytes 2 (Z.of_nat (length (Value.columns rs))) ++ concat (map column_payload (Value.columns rs)));;
  each (fun row => send "D" (be_bytes 2 (Z.of_nat (length row)) ++ concat (map value_payload row))) (Value.rows rs);;
  send_command_complete (lit "SELECT " ++ count (length (Value.rows rs))).

(** [db_guard.execute_with_stats(&stmt, &[])?]. *)
Definition execute (stmt : Ast.Statement) : T (ResultSet * Value.CommandTag) := fun w =>
  match Engine.execute_with_stats fuel gpu stmt [] (db w) with
  | (Ok r, d) => (Ok r, mkWorld (task w) d)
  | (Err (Db.Db e), d) => (Err (PgError.Database e), mkWorld (task w) d)
  | (_, d) => (Panic, mkWorld (task w) d)
  end.

Definition empty_result : ResultSet * Value.CommandTag := (Value.mkResult [] [] None, Value.Empty).

(** The statements in turn; the last result is kept. *)
Fixpoint execute_all (last : ResultSet * Value.CommandTag) (l : list Ast.Statement) : T (ResultSet * Value.CommandTag) :=
  match l with
  | [] => mret last
  | stmt :: l' => r ← execute stmt; execute_all r l'
  end.

Definition num (n : Z) : str := Lexer.int_to_string n.

Definition send_result (last_result : ResultSet) (last_tag : Value.CommandTag) : T unit :=
  match last_tag with
  | Value.Select _ => send_query_results last_result
  | Value.Insert n => send_command_complete (lit "INSERT 0 " ++ num n)
  | Value.Update n => send_command_complete (lit "UPDATE " ++ num n)
  | Value.Delete n => send_command_complete (lit "DELETE " ++ num n)
  | Value.CreateTable => send_command_complete (lit "CREATE TABLE")
  | Value.CreateView => send_command_complete (lit "CREATE VIEW")
  | Value.DropView => send_command_complete (lit "DROP VIEW")
  | Value.AlterTable => send_command_complete (lit "ALTER TABLE")
  | Value.Begin => send_command_complete (lit "BEGIN")
  | Value.Commit => send_command_complete (lit "COMMIT")
  | Value.Rollback => send_command_complete (lit "ROLLBACK")
  | Value.Set_ => send_command_complete (lit "SET")
  | Value.Reset_ => send_command_complete (lit "RESET")
  | Value.Empty => send_empty_query_response
  end.

Definition handle_simple_query (query : str) : T unit :=
  stmts ← lift (PgCompat.process_sql query);
  r ← execute_all empty_result stmts;
  send_result r.1 r.2.

Definition handle_parse : T unit := send "1" [].
Definition handle_bind : T unit := send "2" [].
Definition handle_execute : T unit := send_empty_query_response.
Definition handle_sync : T unit :=
  w ← m_get;
  send_ready_for_query (PgSession.to_transaction_status (PgSession.txn_status (session (task w)))).
Definition handle_close : T unit := mret tt.
Definition handle_describe : T unit := mret tt.

(** Answer with the startup handlers' frames. *)
Definition answer (f : PgSession.Session -> list byte * PgSession.Session) : T unit :=
  w ← m_get;
  let '(frames, s) := f (session (task w)) in
  modify (set_session s);; write_all frames.

Definition handle_password (password : str) : T unit :=
  if PgText.starts_with (lit "SCRAM-SHA-256") password then
    match PgText.splitn 2 x20 password with
    | [mechanism; data] => answer (PgSession.handle_scram_auth random mechanism data)
    | _ => answer (PgSession.handle_password [])
    end
  else answer (PgSession.handle_password password).

(** [String::from_utf8(payload[..payload.len() - 1].to_vec())?]. *)
Definition text_payload (payload : list byte) : T str :=
  match payload with
  | [] => m_panic
  | _ => let s := take (length payload - 1) payload in
         if Codec.utf8_valid s then mret s else m_err (FromUtf8 (utf8_error_text s))
  end.

Definition process_message (msg_type : byte) (payload : list byte) : T unit :=
  if Byte.eqb msg_type "Q" then query ← text_payload payload; handle_simple_query query
  else if Byte.eqb msg_type "X" then modify (set_state Closed);; m_err (Protocol (lit "Terminate"))
  else if Byte.eqb msg_type "P" then handle_parse
  else if Byte.eqb msg_type "B" then handle_bind
  else if Byte.eqb msg_type "E" then handle_execute
  else if Byte.eqb msg_type "S" then handle_sync
  else if Byte.eqb msg_type "H" then mret tt
  else if Byte.eqb msg_type "C" then handle_close
  else if Byte.eqb msg_type "D" then handle_describe
  else if Byte.eqb msg_type "p" then password ← text_payload payload; handle_password password
  else mret tt.

(** Run a computation whose error the caller handles. *)
Definition attempt {A} (m : T A) : T (outcome PgWireError A) := fun w =>
  match m w with
  | (Panic, w') => (Panic, w')
  | (o, w') => (Ok o, w')
  end.

Definition report (e : PgWireError) : T unit :=
  write_all (PgError.build_error_response e);;
  modify (fun t => set_session (PgSession.mark_transaction_failed (session t)) t);;
  handle_sync.

(** [read_message(&mut self.read_buf)]. *)
Definition next_message : T (outcome PgCodec.CodecError (option (byte * list byte))) := fun w =>
  let '(o, b) := PgCodec.read_message (read_buf (task w)) in
  (Ok o, on_task (set_read_buf b) w).

Definition dispatch : T bool :=
  m ← next_message;
  match m with
  | Ok (Some (msg_type, payload)) =>
      modify (set_state Processing);;
      result ← attempt (process_message msg_type payload);
      match result with Err e => report e | _ => mret tt end;;
      modify (set_state Ready);;
      put_stream;;
      mret true
  | Ok None => put_stream;; mret true
  | Err e => put_stream;; m_err (PgError.Codec e)
  | Panic => m_panic
  end.

Definition process_one_message : T bool :=
  take_stream;;
  w ← m_get;
  if length (read_buf (task w)) <? 5 then
    o ← try_io (sock_read 8192);
    match o with
    | Ok [] => modify (set_state Closed);; put_stream;; mret false
    | Ok b => modify (fun t => set_read_buf (read_buf t ++ b) t);; dispatch
    | Err WouldBlock => put_stream;; mret true
    | Err e => put_stream;; m_err (io_error e)
    | Panic => m_panic
    end
  else dispatch.

(** ** [Task::poll] *)

(** [if let Err(_e) = m { self.state = Error; return Ready; }]; [None] goes on. *)
Definition or_error (m : T unit) : T (option Scheduler.Poll) :=
  r ← attempt m;
  match r with
  | Err _ => modify (set_state Error);; mret (Some Scheduler.Ready)
  | _ => mret None
  end.

Definition poll_messages : T Scheduler.Poll :=
  r ← attempt process_one_message;
  match r with
  | Ok true => mret Scheduler.Pending
  | Ok false => mret Scheduler.Ready
  | _ => modify (set_state Error);; mret Scheduler.Ready
  end.

(** A phase that is not complete: run it, and yield if it still is not. *)
Definition phase (complete : PgConnectionTask -> bool) (m : T unit) (next : T Scheduler.Poll) : T Scheduler.Poll :=
  w ← m_get;
  if complete (task w) then next
  else
    r ← or_error m;
    match r with
    | Some p => mret p
    | None => w ← m_get; if complete (task w) then next else mret Scheduler.Pending
    end.

Definition poll : T Scheduler.Poll :=
  w ← m_get;
  if bool_decide (state (task w) = Closed) || bool_decide (state (task w) = Error) then mret Scheduler.Ready
  else phase startup_complete process_startup (phase auth_complete send_auth_and_params poll_messages).

(** What the tasks share: the database, or nothing once the process is gone. *)
Definition Shared : Type := option Db.Database.

#[export] Instance pg_task : Scheduler.Task Shared PgConnectionTask := fun t s =>
  match s with
  | None => (Scheduler.Pending, t, None)
  | Some d =>
      match poll (mkWorld t d) with
      | (Ok p, w) => (p, task w, Some (db w))
      | (_, w) => (Scheduler.Pending, task w, None)
      end
  end.

End Task.
End PgTask.
