(* ===== verification/PgTaskProof.v ===== *)
(** * PgTaskProof: what the scheduled connection task guarantees

    The answer to a message as a function of the session and the database; a
    message that arrives in pieces blocks its connection for good. *)
From Stdlib Require Import ZArith Lia Strings.Byte Strings.String.
From stdpp Require Import base numbers option list gmap.
From S2P Require Import Prelude Scheduler Ast Value Lexer Codec Parser Db Dml Engine PgText PgCodec PgScram PgSession PgError PgCompat PgTask.

Module PgTaskProof.
Import Ast(str, lit).
Import PgTask.

Section Task.
Context `{OsText} `{Lexer.Fmt} `{DebugValue} `{PgError.DebugExec} `{PgScram.Crypto} (fuel : nat) (gpu : bool).
Context (random : list byte).

(** ** The answers, as a function of the session and the database *)

(** The frames of a result. *)
Definition result_frames (rs : Value.ResultSet) (tag : Value.CommandTag) : list (byte * list byte) :=
  let complete text := [("C"%byte, PgCodec.write_cstring text [])] in
  match tag with
  | Value.Select _ =>
      ("T"%byte, be_bytes 2 (Z.of_nat (length (Value.columns rs))) ++ concat (map column_payload (Value.columns rs))) ::
      map (fun row => ("D"%byte, be_bytes 2 (Z.of_nat (length row)) ++ concat (map value_payload row))) (Value.rows rs) ++
      complete (lit "SELECT " ++ count (length (Value.rows rs)))
  | Value.Insert n => complete (lit "INSERT 0 " ++ num n)
  | Value.Update n => complete (lit "UPDATE " ++ num n)
  | Value.Delete n => complete (lit "DELETE " ++ num n)
  | Value.CreateTable => complete (lit "CREATE TABLE")
  | Value.CreateView => complete (lit "CREATE VIEW")
  | Value.DropView => complete (lit "DROP VIEW")
  | Value.AlterTable => complete (lit "ALTER TABLE")
  | Value.Begin => complete (lit "BEGIN")
  | Value.Commit => complete (lit "COMMIT")
  | Value.Rollback => complete (lit "ROLLBACK")
  | Value.Set_ => complete (lit "SET")
  | Value.Reset_ => complete (lit "RESET")
  | Value.Empty => [("I"%byte, [])]
  end.

(** The statements of a text one after the other, up to the first that fails. *)
Fixpoint run_all (last : Value.ResultSet * Value.CommandTag) (l : list Ast.Statement) (d : Db.Database)
    : outcome PgError.PgWireError (Value.ResultSet * Value.CommandTag) * Db.Database :=
  match l with
  | [] => (Ok last, d)
  | stmt :: l =>
      match Engine.execute_with_stats fuel gpu stmt [] d with
      | (Ok r, d) => run_all r l d
      | (Err (Db.Db e), d) => (Err (PgError.Database e), d)
      | (_, d) => (Panic, d)
      end
  end.

Definition run_text (query : str) (d : Db.Database) :=
  match PgCompat.process_sql query with
  | Ok stmts => run_all empty_result stmts d
  | Err e => (Err e, d)
  | Panic => (Panic, d)
  end.

Definition ready_frame (s : PgSession.Session) : byte * list byte :=
  ("Z"%byte, [PgCodec.as_byte (PgSession.to_transaction_status (PgSession.txn_status s))]).

(** The text of a payload, without its last byte. *)
Definition payload_text (payload : list byte) : outcome PgError.PgWireError str :=
  match payload with
  | [] => Panic
  | _ => let text := take (length payload - 1) payload in
         if Codec.utf8_valid text then Ok text else Err (PgError.FromUtf8 (utf8_error_text text))
  end.

(** What a message does when nothing is wrong with it: the bytes that are sent and
    the session after them; or its error. *)
Definition response (t : byte) (payload : list byte) (s : PgSession.Session) (d : Db.Database)
    : outcome PgError.PgWireError (list byte * PgSession.Session) * Db.Database :=
  let frames ms := (Ok (PgCodec.stream ms, s), d) in
  if decide (t = "Q"%byte) then
    match payload_text payload with
    | Ok query =>
        match run_text query d with
        | (Ok (rs, tag), d) => (Ok (PgCodec.stream (result_frames rs tag), s), d)
        | (Err e, d) => (Err e, d)
        | (Panic, d) => (Panic, d)
        end
    | Err e => (Err e, d)
    | Panic => (Panic, d)
    end
  else if decide (t = "p"%byte) then
    match payload_text payload with
    | Ok password =>
        (Ok (if PgText.starts_with (lit "SCRAM-SHA-256") password then
               match PgText.splitn 2 x20 password with
               | [mechanism; data] => PgSession.handle_scram_auth random mechanism data s
               | _ => PgSession.handle_password [] s
               end
             else PgSession.handle_password password s), d)
    | Err e => (Err e, d)
    | Panic => (Panic, d)
    end
  else if decide (t = "X"%byte) then (Err (PgError.Protocol (lit "Terminate")), d)
  else if decide (t = "P"%byte) then frames [("1"%byte, [])]
  else if decide (t = "B"%byte) then frames [("2"%byte, [])]
  else if decide (t = "E"%byte) then frames [("I"%byte, [])]
  else if decide (t = "S"%byte) then frames [ready_frame s]
  else frames [].

(** An error is answered by its response and by the status of the session, whose
    transaction has failed. *)
Definition reply (t : byte) (payload : list byte) (s : PgSession.Session) (d : Db.Database)
    : option (list byte * PgSession.Session * Db.Database) :=
  match response t payload s d with
  | (Ok (out, s), d) => Some (out, s, d)
  | (Err e, d) =>
      let s := PgSession.mark_transaction_failed s in
      Some (PgError.build_error_response e ++ PgCodec.stream [ready_frame s], s, d)
  | (Panic, _) => None
  end.

(** ** What the task does *)

Abbreviation sent_of w := (sent (stream (task w))).
Abbreviation room_of w := (room (stream (task w))).

Definition tell (b : list byte) (w : World) : World :=
  on_task (set_stream (mkStream (incoming (stream (task w))) (sent_of w ++ b) None)) w.
Definition with_db (d : Db.Database) (w : World) : World := mkWorld (task w) d.

Lemma frame_written b w : room_of w = None -> write_all b w = (Ok tt, tell b w).
Proof. intros Hr. unfold write_all, io, try_io, sock_write, mbind, M_bind. by rewrite Hr. Qed.

Lemma tell_nil w : room_of w = None -> tell [] w = w.
Proof.
  destruct w as [[[inc snt rm] c s st rb sc ac] d]. cbn. intros ->. unfold tell, on_task. cbn. by rewrite app_nil_r.
Qed.

Lemma tell_tell a b w : tell b (tell a w) = tell (a ++ b) w.
Proof. unfold tell, on_task, set_stream. cbn. by rewrite app_assoc. Qed.

Lemma stream_app a b : PgCodec.stream (a ++ b) = PgCodec.stream a ++ PgCodec.stream b.
Proof. unfold PgCodec.stream. by rewrite map_app, concat_app. Qed.

Lemma stream_cons m ms : PgCodec.stream (m :: ms) = PgCodec.frame m ++ PgCodec.stream ms.
Proof. reflexivity. Qed.

Lemma stream_one m : PgCodec.stream [m] = PgCodec.frame m.
Proof. apply app_nil_r. Qed.

Lemma send_ok t payload w : room_of w = None -> send t payload w = (Ok tt, tell (PgCodec.stream [(t, payload)]) w).
Proof. intros Hr. rewrite stream_one. by apply frame_written. Qed.

Lemma each_send_ok {A} t (f : A -> list byte) l : forall w, room_of w = None ->
  each (fun x => send t (f x)) l w = (Ok tt, tell (PgCodec.stream (map (fun x => (t, f x)) l)) w).
Proof.
  induction l as [|x l IH]; intros w Hr; cbn [each map].
  - by rewrite tell_nil.
  - rewrite (bind_ok _ _ _ _ _ (send_ok _ _ w Hr)), IH by done. by rewrite tell_tell, stream_one, stream_cons.
Qed.

Lemma send_result_ok rs tag w : room_of w = None ->
  send_result rs tag w = (Ok tt, tell (PgCodec.stream (result_frames rs tag)) w).
Proof.
  intros Hr. destruct tag; cbn [send_result result_frames]; try by apply send_ok.
  unfold send_query_results. rewrite (bind_ok _ _ _ _ _ (send_ok _ _ w Hr)).
  rewrite (bind_ok _ _ _ _ _ (each_send_ok "D"%byte
    (fun row => be_bytes 2 (Z.of_nat (length row)) ++ concat (map value_payload row)) _ (tell _ w) eq_refl)).
  unfold send_command_complete. rewrite send_ok, !tell_tell by done.
  rewrite <- !stream_app. reflexivity.
Qed.

Lemma execute_all_ok l : forall last w,
  execute_all fuel gpu last l w = ((run_all last l (db w)).1, with_db (run_all last l (db w)).2 w).
Proof.
  induction l as [|stmt l IH]; intros last w; cbn [execute_all run_all]; [by destruct w|].
  unfold execute, mbind at 1, M_bind. destruct (Engine.execute_with_stats fuel gpu stmt [] (db w)) as [[r|[e|]|] d];
    [exact (IH r (with_db d w))|done..].
Qed.

Lemma query_ok query w : room_of w = None ->
  match run_text query (db w) with
  | (Ok (rs, tag), d) => handle_simple_query fuel gpu query w = (Ok tt, with_db d (tell (PgCodec.stream (result_frames rs tag)) w))
  | (Err e, d) => handle_simple_query fuel gpu query w = (Err e, with_db d w)
  | (Panic, _) => (handle_simple_query fuel gpu query w).1 = Panic
  end.
Proof.
  intros Hr. unfold run_text, handle_simple_query, lift, mbind at 1 3 5, M_bind. destruct (PgCompat.process_sql query) as [stmts|e|].
  - assert (He := execute_all_ok stmts empty_result w).
    destruct (run_all empty_result stmts (db w)) as [[[rs tag]|e|] d]; cbn [fst snd] in He.
    + rewrite (bind_ok _ _ _ _ _ He). cbn [fst snd]. by rewrite send_result_ok.
    + by rewrite (bind_err _ _ _ _ _ He).
    + unfold mbind, M_bind. by rewrite He.
  - by destruct w.
  - done.
Qed.

Lemma text_ok payload w :
  text_payload payload w = (payload_text payload, w).
Proof. unfold text_payload, payload_text. destruct payload; [done|]. by destruct (Codec.utf8_valid _). Qed.

(** A message's effect, up to the state, which its caller sets. *)
Definition does (m : M World PgError.PgWireError unit) (w : World)
    (r : outcome PgError.PgWireError (list byte * PgSession.Session) * Db.Database) : Prop :=
  match r with
  | (Ok (out, s), d) => exists st, m w = (Ok tt, with_db d (on_task (set_state st) (on_task (set_session s) (tell out w))))
  | (Err e, d) => exists st, m w = (Err e, with_db d (on_task (set_state st) w))
  | (Panic, _) => (m w).1 = Panic
  end.

Lemma does_ok m w out d s : m w = (Ok tt, with_db d (tell out w)) -> s = session (task w) -> does m w (Ok (out, s), d).
Proof. intros Hm ->. exists (state (task w)). rewrite Hm. by destruct w as [[[] ? ? ? ? ? ?] ?]. Qed.

Lemma does_err m w e d : m w = (Err e, with_db d w) -> does m w (Err e, d).
Proof. intros Hm. exists (state (task w)). rewrite Hm. by destruct w as [[] ?]. Qed.

Lemma does_send t payload w : room_of w = None ->
  does (send t payload) w (Ok (PgCodec.stream [(t, payload)], session (task w)), db w).
Proof. intros Hr. apply does_ok; [|done]. rewrite send_ok by done. by destruct w. Qed.

Lemma does_nothing w : room_of w = None -> does (mret tt) w (Ok (PgCodec.stream [], session (task w)), db w).
Proof. intros Hr. apply does_ok; [|done]. rewrite tell_nil by done. by destruct w. Qed.

Lemma does_answer f w : room_of w = None -> does (answer f) w (Ok (f (session (task w))), db w).
Proof.
  intros Hr. unfold answer. unfold does. destruct (f (session (task w))) as [out s] eqn:E. exists (state (task w)).
  unfold mbind at 1, M_bind, m_get. rewrite E. unfold modify, m_modify, mbind, M_bind. rewrite frame_written by done.
  by destruct w as [[[] ? ? ? ? ? ?] ?].
Qed.

Lemma eqb_other (t b : byte) : t <> b -> Byte.eqb t b = false.
Proof. intros Hn. destruct (Byte.eqb t b) eqn:E; [|done]. by apply Byte.byte_dec_bl in E. Qed.

Lemma process_does t payload w : room_of w = None ->
  does (process_message fuel gpu random t payload) w (response t payload (session (task w)) (db w)).
Proof.
  intros Hr.
  assert (Htext : forall (k : str -> M World PgError.PgWireError unit) f,
    (forall text, does (k text) w (f text)) ->
    does (text ← text_payload payload; k text) w
      (match payload_text payload with Ok text => f text | Err e => (Err e, db w) | Panic => (Panic, db w) end)).
  { intros k f Hk. assert (Ht := text_ok payload w). destruct (payload_text payload) as [text|e|].
    - unfold does in *. rewrite (bind_ok _ _ _ _ _ Ht). apply Hk.
    - apply does_err. rewrite (bind_err _ _ _ _ _ Ht). by destruct w.
    - unfold does, mbind, M_bind. by rewrite Ht. }
  assert (Hq : does (text ← text_payload payload; handle_simple_query fuel gpu text) w
                 (response "Q" payload (session (task w)) (db w))).
  { apply (Htext _ (fun query => match run_text query (db w) with
      | (Ok (rs, tag), d) => (Ok (PgCodec.stream (result_frames rs tag), session (task w)), d)
      | (Err e, d) => (Err e, d) | (Panic, d) => (Panic, d) end)).
    intros query. assert (Hok := query_ok query w Hr).
    destruct (run_text query (db w)) as [[[rs tag]|e|] d]; [by apply does_ok|by apply does_err|exact Hok]. }
  assert (Hp : does (text ← text_payload payload; handle_password random text) w
                 (response "p" payload (session (task w)) (db w))).
  { apply Htext. intros text. unfold handle_password. destruct (PgText.starts_with _ text); [|by apply does_answer].
    destruct (PgText.splitn 2 x20 text) as [|? [|? [|]]]; by apply does_answer. }
  destruct (decide (t = "Q"%byte)) as [->|]; [exact Hq|]. destruct (decide (t = "p"%byte)) as [->|]; [exact Hp|].
  clear Hq Hp Htext. unfold response. rewrite (decide_False (P := t = "Q"%byte)), (decide_False (P := t = "p"%byte)) by done.
  destruct (decide (t = "X"%byte)) as [->|]; [by exists Closed; destruct w as [[] ?]|].
  destruct (decide (t = "P"%byte)) as [->|]; [by apply does_send|].
  destruct (decide (t = "B"%byte)) as [->|]; [by apply does_send|].
  destruct (decide (t = "E"%byte)) as [->|]; [by apply does_send|].
  destruct (decide (t = "S"%byte)) as [->|].
  { apply does_ok; [|done]. change (handle_sync w = (Ok tt, with_db (db w) (tell (PgCodec.stream [ready_frame (session (task w))]) w))).
    unfold handle_sync, m_get, mbind, M_bind, send_ready_for_query. rewrite send_ok by done. by destruct w. }
  unfold process_message. rewrite (eqb_other t "Q"), (eqb_other t "X"), (eqb_other t "P"), (eqb_other t "B"),
    (eqb_other t "E"), (eqb_other t "S"), (eqb_other t "p") by done.
  repeat match goal with |- does (if ?b then _ else _) _ _ => destruct b end; by apply does_nothing.
Qed.

Lemma report_does e w : room_of w = None ->
  let s := PgSession.mark_transaction_failed (session (task w)) in
  report e w = (Ok tt, on_task (set_session s) (tell (PgError.build_error_response e ++ PgCodec.stream [ready_frame s]) w)).
Proof.
  intros Hr s. unfold report. rewrite (bind_ok _ _ _ _ _ (frame_written _ w Hr)).
  unfold modify, m_modify, mbind at 1, M_bind. unfold handle_sync, m_get, send_ready_for_query, mbind, M_bind.
  rewrite send_ok by done. rewrite <- (tell_tell _ _ w). reflexivity.
Qed.

(** The task after an answer: connected, ready and with the rest of its buffer. *)
Definition answered (w : World) (rest out : list byte) (s : PgSession.Session) (d : Db.Database) : World :=
  mkWorld (mkTask (mkStream (incoming (stream (task w))) (sent_of w ++ out) None) true s Ready rest
             (startup_complete (task w)) (auth_complete (task w))) d.

(** C3: a complete message at the front of the buffer of a
    task whose peer reads.  The task takes it off the buffer, sends exactly the
    answer to it, and is connected and ready for the next one; its session and
    the database are those of the answer.  [reply] gives the answer as a function
    of the message, the session and the database: a query runs its statements up
    to the first that fails and is answered by the rows and the tag of the last;
    every error, of a statement or of the message (text that is not UTF-8, even
    Terminate), is answered by its error response and then ReadyForQuery, the
    session's transaction marked as failed; Sync by ReadyForQuery; Parse, Bind and
    Execute by fixed frames, a password by the authentication's, and other messages
    by nothing.  The process goes down exactly when there is no answer: on a query
    or password with an empty payload, or when executing its text panics or
    overflows the stack. *)
Theorem messages_are_answered w t payload rest :
  PgCodec.read_message (read_buf (task w)) = (Ok (Some (t, payload)), rest) -> room_of w = None ->
  match reply t payload (session (task w)) (db w) with
  | Some (out, s, d) => dispatch fuel gpu random w = (Ok true, answered w rest out s d)
  | None => (dispatch fuel gpu random w).1 = Panic
  end.
Proof.
  intros Hm Hr. unfold dispatch.
  assert (Hn : next_message w = (Ok (Ok (Some (t, payload))), on_task (set_read_buf rest) w))
    by (unfold next_message; by rewrite Hm).
  rewrite (bind_ok _ _ _ _ _ Hn). cbv beta iota.
  set (w1 := on_task (set_state Processing) (on_task (set_read_buf rest) w)).
  assert (Hp : modify (set_state Processing) (on_task (set_read_buf rest) w) = (Ok tt, w1)) by reflexivity.
  rewrite (bind_ok _ _ _ _ _ Hp). cbv beta.
  assert (Hd := process_does t payload w1 Hr). unfold reply.
  change (session (task w1)) with (session (task w)) in Hd. change (db w1) with (db w) in Hd.
  destruct (response t payload (session (task w)) (db w)) as [[[out s]|e|] d].
  - destruct Hd as [st Hst].
    rewrite (bind_ok (attempt _) _ _ (Ok tt) _ ltac:(unfold attempt; by rewrite Hst)). reflexivity.
  - destruct Hd as [st Hst].
    rewrite (bind_ok (attempt _) _ _ (Err e) _ ltac:(unfold attempt; by rewrite Hst)). cbv beta iota.
    rewrite (bind_ok _ _ _ _ _ (report_does e (with_db d (on_task (set_state st) w1)) Hr)). reflexivity.
  - unfold does in Hd. unfold mbind at 1, M_bind, attempt. destruct (process_message _ _ _ _ _ w1) as [[]]; cbn [fst] in Hd; done.
Qed.

(** ** A message in pieces *)

(** The task waits for messages, and its buffer holds the start of a message,
    header included. *)
Definition waiting (t : PgConnectionTask) : Prop :=
  state t = Ready /\ connected t = true /\ startup_complete t = true /\ auth_complete t = true /\
  5 <= length (read_buf t) /\ PgCodec.read_message (read_buf t) = (Ok None, read_buf t).

(** More data arrives at the socket. *)
Definition arrive (l : list event) (t : PgConnectionTask) : PgConnectionTask :=
  set_stream (mkStream (incoming (stream t) ++ l) (sent (stream t)) (room (stream t))) t.

(** a message that does not arrive whole blocks its
    connection.  Once the buffer holds five bytes or more of an incomplete
    message the task does not read again: whatever arrives after that, every
    poll leaves it as it is and pending, so that the message is never
    complete and never answered. *)
Theorem partial_messages_stall t arrivals d :
  waiting t ->
  pg_task fuel gpu random (arrive arrivals t) (Some d) = (Scheduler.Pending, arrive arrivals t, Some d).
Proof.
  intros (Hs & Hc & Hst & Hau & Hl & Hm). destruct t as [st c se sta buf sc ac]. cbn in Hs, Hc, Hst, Hau, Hl, Hm. subst.
  unfold pg_task, arrive, set_stream. cbn [stream connected session state read_buf startup_complete auth_complete].
  unfold poll, phase, m_get, mbind, M_bind. cbn [task state startup_complete auth_complete].
  rewrite !bool_decide_eq_false_2 by done. cbn [orb].
  unfold poll_messages, attempt, process_one_message, take_stream, m_get, modify, m_modify, on_task, set_connected, mbind, M_bind.
  cbn [task connected read_buf stream session state startup_complete auth_complete db].
  destruct (Nat.ltb_spec (length buf) 5); [lia|].
  unfold dispatch, next_message, put_stream, modify, m_modify, on_task, set_connected, set_read_buf, mbind, M_bind.
  cbn [task connected read_buf stream session state startup_complete auth_complete db]. rewrite Hm. reflexivity.
Qed.

End Task.

(** ** Connections at work *)

#[local] Instance task_fmt : Lexer.Fmt := {| Lexer.tok_debug _ := []; Lexer.f32_display _ := [] |}.
#[local] Instance task_debug : DebugValue := fun _ => [].
#[local] Instance task_exec : PgError.DebugExec := fun _ => [].
#[local] Instance task_os : OsText := {| would_block_text := []; utf8_error_text _ := [] |}.
#[local] Existing Instance PgScram.toy_crypto.

Definition task_poll : Scheduler.Task Shared PgConnectionTask := pg_task 8 false [x01].

(** A task over the arrivals, polled [n] times. *)
Fixpoint polls (n : nat) (t : PgConnectionTask) (s : Shared) : PgConnectionTask * Shared :=
  match n with
  | O => (t, s)
  | S n' => let '(_, t, s) := task_poll t s in polls n' t s
  end.

Definition connection (events : list event) : PgConnectionTask :=
  new (mkStream events [] None) (PgSession.new 1).

Definition startup_message (payload : list byte) : list byte :=
  be_bytes 4 (Z.of_nat (8 + length payload)) ++ be_bytes 4 PgCodec.PROTOCOL_VERSION ++ payload.
Definition hello : event := Data (startup_message (lit "user" ++ [x00] ++ lit "bob" ++ [x00; x00])).
Definition query (s : string) : list byte := PgCodec.frame ("Q"%byte, lit s ++ [x00]).

(** The frames a task has sent since its greeting. *)
Definition greeting : nat := length (sent (stream (polls 1 (connection [hello; Block]) (Some Db.empty)).1)).
Definition answers (t : PgConnectionTask) : list (byte * list byte) :=
  match (PgCodec.receive (drop greeting (sent (stream t))) []).1 with Ok ms => ms | _ => [] end.

Lemma partial_messages_stall_witness :
  let t := (polls 2 (connection [hello; Block; Data (take 7 (query "SELECT 1"))]) (Some Db.empty)).1 in
  waiting t /\
  pg_task 8 false [x01] (arrive [Data (drop 7 (query "SELECT 1"))] t) (Some Db.empty)
    = (Scheduler.Pending, arrive [Data (drop 7 (query "SELECT 1"))] t, Some Db.empty).
Proof.
  intros t. assert (Ht : waiting t).
  { vm_compute. split_and!; try reflexivity. repeat constructor. }
  split; [exact Ht|]. exact (partial_messages_stall 8 false [x01] t _ _ Ht).
Defined.

Definition ready (buf : list byte) : World :=
  mkWorld (mkTask (mkStream [] [] None) false (PgSession.new 1) Ready buf true true) Db.empty.

Lemma messages_are_answered_witness :
  let q := lit "SELECT 1; SELECT a FROM t" ++ [x00] in
  let w := ready (PgCodec.frame ("Q"%byte, q) ++ [x51]) in
  exists w', dispatch 8 false [x01] w = (Ok true, w') /\ read_buf (task w') = [x51] /\
    map fst (match (PgCodec.receive (sent (stream (task w'))) []).1 with Ok ms => ms | _ => [] end) = ["E"%byte; "Z"%byte].
Proof.
  intros q w.
  assert (Hm : PgCodec.read_message (read_buf (task w)) = (Ok (Some ("Q"%byte, q)), [x51])) by (vm_compute; reflexivity).
  assert (Ha := messages_are_answered 8 false [x01] w _ _ _ Hm eq_refl).
  assert (Hx : (fun r => map fst (match (PgCodec.receive r.1.1 []).1 with Ok ms => ms | _ => [] end))
               <$> reply 8 false [x01] "Q" q (session (task w)) (db w) = Some ["E"%byte; "Z"%byte]) by (vm_compute; reflexivity).
  destruct (reply 8 false [x01] "Q" q (session (task w)) (db w)) as [[[out s] d]|]; [|discriminate Hx].
  eexists. split; [exact Ha|]. split; [reflexivity|]. injection Hx as Hx. exact Hx.
Defined.

(** A query is answered by its last result alone, and by no ReadyForQuery. *)
Example query_is_not_followed_by_ready :
  map fst (answers (polls 2 (connection [hello; Data (query "SELECT 1; SELECT 2")]) (Some Db.empty)).1)
    = ["T"%byte; "D"%byte; "C"%byte].
Proof. vm_compute. reflexivity. Qed.

(** Terminate is answered by an error, and the task stays. *)
Example terminate_does_not_close :
  let t := (polls 1 (connection [hello; Data (PgCodec.frame ("X"%byte, []))]) (Some Db.empty)).1 in
  map fst (answers t) = ["E"%byte; "Z"%byte] /\ state t = Ready.
Proof. vm_compute. auto. Qed.

(** Eight bytes, and a query without its terminator, take the server down. *)
Example short_startup_crashes :
  (polls 1 (connection [Data (be_bytes 4 7 ++ be_bytes 4 PgCodec.PROTOCOL_VERSION)]) (Some Db.empty)).2 = None.
Proof. vm_compute. reflexivity. Qed.
Example empty_query_crashes :
  (polls 2 (connection [hello; Data (PgCodec.frame ("Q"%byte, []))]) (Some Db.empty)).2 = None.
Proof. vm_compute. reflexivity. Qed.

(** A startup message in two pieces: cut in its header its first bytes are
    lost, cut in its payload the connection is dropped. *)
Example split_startup_fails :
  let m := startup_message (lit "user" ++ [x00] ++ lit "bob" ++ [x00; x00]) in
  state (polls 2 (connection [Data (take 4 m); Block; Data (drop 4 m)]) (Some Db.empty)).1 = Error /\
  state (polls 1 (connection [Data (take 8 m); Block; Data (drop 8 m)]) (Some Db.empty)).1 = Error.
Proof. vm_compute. auto. Qed.

(** All connections share one transaction: what one begins another rolls back. *)
Example connections_share_a_transaction :
  let '(_, s) := polls 3 (connection [hello; Data (query "CREATE TABLE t (v INT)");
                                      Data (query "BEGIN; INSERT INTO t (v) VALUES (5)")]) (Some Db.empty) in
  let '(_, s) := polls 2 (connection [hello; Data (query "ROLLBACK")]) s in
  match s with Some d => Db.in_transaction d | None => true end = false.
Proof. vm_compute. reflexivity. Qed.

End PgTaskProof.
