(* ===== verification/PgServer.v ===== *)
(** * PgServer: the two servers
    ([crates/out-archon-pgwire/src/lib.rs])

    [run_protocol] is what a thread of the thread-per-connection server does
    with its stream: the arrivals of its reads in, the bytes it writes out.
    [serve_scheduled] runs every connection as a task of the scheduler; what
    the listener returns at each turn is a list. *)
From Stdlib Require Import ZArith Lia Strings.Byte Strings.String.
From stdpp Require Import base numbers option list gmap.
From S2P Require Import Prelude Scheduler Ast Value Lexer Codec Parser Db Dml Engine PgText PgCodec PgScram PgSession PgError PgSimple PgTask.

Module PgServer.
Import Ast(str, lit).
Import PgSimple(Conn, Abort, mkConn, db, session, metrics, set_session, set_metrics).

Section Server.
Context `{Lexer.Fmt} `{DebugValue} `{PgError.DebugExec} `{PgScram.Crypto} (fuel : nat) (gpu : bool).
(** The random bytes of the connection's SCRAM exchange. *)
Context (random : list byte).

Abbreviation C := (M Conn Abort).

(** Run a handler of the session. *)
Definition with_session (f : PgSession.Session -> list byte * PgSession.Session) : C (list byte) := fun c =>
  let '(out, s) := f (session c) in (Ok out, set_session (fun _ => s) c).
Definition stub (f : PgSession.Session -> list byte) : C (list byte) := fun c => (Ok (f (session c)), c).

Definition unexpected_startup : list byte :=
  PgCodec.write_error_response (lit "unexpected startup in middle of connection") (Some (lit "58000")) [].

(** [Message::Password]. *)
Definition password_frames (password : str) : C (list byte) :=
  if PgText.starts_with (lit "SCRAM-SHA-256") password then
    match PgText.splitn 2 x20 password with
    | [mechanism; data] => with_session (PgSession.handle_scram_auth random mechanism data)
    | _ => with_session (PgSession.handle_password [])
    end
  else with_session (PgSession.handle_password password).

(** The response to a message; [None] returns from the connection. *)
Definition dispatch (msg : PgCodec.FrontendMessage) : C (option (list byte)) :=
  let answer (m : C (list byte)) : C (option (list byte)) := (b ← m; mret (Some b)) in
  match msg with
  | PgCodec.Query sql =>
      answer (frames ← PgSimple.handle_simple_query fuel gpu sql;
              m_modify (set_metrics PgSession.record_statement);;
              mret frames)
  | PgCodec.Terminate => mret None
  | PgCodec.Parse => answer (stub PgSession.handle_parse)
  | PgCodec.Bind => answer (stub PgSession.handle_bind)
  | PgCodec.Describe => answer (stub PgSession.handle_describe)
  | PgCodec.Execute => answer (stub PgSession.handle_execute)
  | PgCodec.Sync => answer (stub PgSession.handle_sync)
  | PgCodec.Close => answer (stub PgSession.handle_close)
  | PgCodec.Password password => answer (password_frames password)
  | PgCodec.SslRequest => mret (Some (lit "N"))
  | PgCodec.Startup _ => mret (Some unexpected_startup)
  end.

(** The messages of one arrival: the response, unless one of them returns. *)
Fixpoint dispatch_all (msgs : list PgCodec.FrontendMessage) (response : list byte) : C (option (list byte)) :=
  match msgs with
  | [] => mret (Some response)
  | msg :: msgs' =>
      r ← dispatch msg;
      match r with
      | Some b => dispatch_all msgs' (response ++ b)
      | None => mret None
      end
  end.

(** The loop over the arrivals.  It ends when the peer closes or an arrival
    cannot be read ([Ok false], after which the connection counts as closed),
    or returns on Terminate ([Ok true]).  The bytes written are collected. *)
Fixpoint serve_loop (reader : PgCodec.MessageReader) (out : list byte) (arrivals : list (list byte))
    : C (bool * list byte) :=
  match arrivals with
  | [] => mret (false, out)
  | [] :: _ => mret (false, out)
  | bytes :: arrivals' =>
      match PgCodec.feed bytes reader with
      | (Ok [], reader') => serve_loop reader' out arrivals'
      | (Ok msgs, reader') =>
          r ← dispatch_all msgs [];
          match r with
          | None => mret (true, out)
          | Some response =>
              if bool_decide (response = []) then serve_loop reader' out arrivals'
              else
                m_modify (set_metrics (PgSession.record_bytes_sent (Z.of_nat (length response))));;
                serve_loop reader' (out ++ response) arrivals'
          end
      | (Err _, _) => mret (false, out)
      | (Panic, _) => m_panic
      end
  end.

Definition startup_request : PgCodec.StartupMessage := PgCodec.mkStartup 3 0 [].

(** The connection starts with a fresh session [sid] over the shared database
    and metrics; what it writes is the result. *)
Definition run_protocol (sid : Z) (arrivals : list (list byte)) (d : Db.Database) (m : PgSession.Metrics)
    : outcome Abort (list byte) * Conn :=
  let '(hello, s) := PgSession.handle_startup startup_request (PgSession.new sid) in
  (r ← serve_loop PgCodec.new hello arrivals;
   if r.1 : bool then mret r.2
   else m_modify (set_metrics PgSession.record_connection_closed);; mret r.2) (mkConn d s m).

(** [serve] for one accepted connection. *)
Definition handle_connection (sid : Z) (arrivals : list (list byte)) (d : Db.Database) (m : PgSession.Metrics)
    : outcome Abort (list byte) * Conn :=
  run_protocol sid arrivals d (PgSession.record_connection_accepted m).

(** ** The scheduled server *)

Context `{PgTask.OsText}.

(** What [accept] returns: a stream, nothing yet, or an error that ends the
    server.  [sid] numbers the sessions. *)
Inductive accepted : Type := Stream (s : PgTask.TcpStream) | NoStream | AcceptError.

Record Server : Type := mkServer {
  scheduler : Scheduler.Scheduler PgTask.PgConnectionTask;
  next_session : Z
}.

Definition serve_step (a : accepted) (srv : Server) (w : PgTask.Shared) : option (Server * PgTask.Shared) :=
  let run sch sid :=
    let '(_, sch', w') := Scheduler.tick (H := PgTask.pg_task fuel gpu random) sch w in
    Some (mkServer sch' sid, w') in
  match a with
  | AcceptError => None
  | NoStream => run (scheduler srv) (next_session srv)
  | Stream s =>
      let t := PgTask.new s (PgSession.with_database (next_session srv)) in
      run (Scheduler.spawn t (scheduler srv)).2 (next_session srv + 1)%Z
  end.

Fixpoint serve_scheduled (l : list accepted) (srv : Server) (w : PgTask.Shared) : Server * PgTask.Shared :=
  match l with
  | [] => (srv, w)
  | a :: l' =>
      match serve_step a srv w with
      | Some (srv', w') => serve_scheduled l' srv' w'
      | None => (srv, w)
      end
  end.

(** ** The thread-per-connection server executes nothing *)

Lemma dispatch_blank c : dispatch PgCodec.blank_startup c = (Ok (Some unexpected_startup), c).
Proof. reflexivity. Qed.

Lemma dispatch_all_blank msgs response c :
  Forall (eq PgCodec.blank_startup) msgs ->
  exists response', dispatch_all msgs response c = (Ok (Some response'), c) /\
    response' = response ++ concat (replicate (length msgs) unexpected_startup).
Proof.
  intros Hm. revert response. induction Hm as [|msg msgs <- _ IH]; intros response; cbn [dispatch_all].
  { exists response. by rewrite app_nil_r. }
  rewrite (bind_ok _ _ _ _ _ (dispatch_blank c)). destruct (IH (response ++ unexpected_startup)) as (r & Hr & ->).
  exists ((response ++ unexpected_startup) ++ concat (replicate (length msgs) unexpected_startup)).
  split; [exact Hr|]. cbn [length replicate concat]. by rewrite app_assoc.
Qed.

(** The database, the session and the count of statements are those of [c]. *)
Definition untouched (c c' : Conn) : Prop :=
  db c' = db c /\ session c' = session c /\
  PgSession.statements_executed (metrics c') = PgSession.statements_executed (metrics c).

Lemma serve_loop_untouched arrivals reader out c o c' :
  PgCodec.untagged reader -> serve_loop reader out arrivals c = (o, c') ->
  untouched c c' /\
  forall b out', o = Ok (b, out') ->
    b = false /\ exists n, out' = out ++ concat (replicate n unexpected_startup).
Proof.
  revert reader out c. induction arrivals as [|a arrivals IH]; intros reader out c Hr Hs; cbn [serve_loop] in Hs.
  { unfold mret, M_ret in Hs. injection Hs as <- <-. split; [done|]. intros b out' [= <- <-]. split; [done|].
    exists 0. by rewrite app_nil_r. }
  assert (Hstop : (Ok (false, out), c) = (o, c') -> untouched c c' /\ forall b out', o = Ok (b, out') ->
            b = false /\ exists n, out' = out ++ concat (replicate n unexpected_startup)).
  { intros [= <- <-]. split; [done|]. intros b out' [= <- <-]. split; [done|]. exists 0. by rewrite app_nil_r. }
  destruct a as [|x a]; [by apply Hstop|]. destruct (PgCodec.feed (x :: a) reader) as [fo reader'] eqn:Ef.
  apply PgCodec.feed_untagged in Ef as [Hr' Hms]; [|done].
  destruct fo as [msgs|e|]; [|by apply Hstop|by injection Hs as <- <-].
  specialize (Hms msgs eq_refl). destruct msgs as [|msg msgs]; [by apply (IH reader')|].
  destruct (dispatch_all_blank _ [] c Hms) as (resp & Hd & Hresp). rewrite (bind_ok _ _ _ _ _ Hd) in Hs. cbv beta iota in Hs.
  case_bool_decide; [by apply (IH reader')|]. unfold mbind, M_bind, m_modify in Hs.
  apply (IH reader') in Hs as [Hu Ho]; [|done]. split; [exact Hu|].
  intros b out' Hb. destruct (Ho b out' Hb) as [-> [n ->]]. split; [done|].
  exists (length (msg :: msgs) + n). rewrite Hresp. cbn [app]. by rewrite replicate_add, concat_app, app_assoc.
Qed.

(** C13: whatever a client sends to the
    thread-per-connection server, and however it arrives, the database
    and the count of executed statements are what they were, the session is the
    new one that the connection began with, and the client is sent the greeting
    and a number of errors about an unexpected startup message. *)
Theorem thread_server_executes_nothing sid arrivals d m o c :
  run_protocol sid arrivals d m = (o, c) ->
  db c = d /\ session c = PgSession.new sid /\
  PgSession.statements_executed (metrics c) = PgSession.statements_executed m /\
  forall out, o = Ok out ->
    exists n, out = (PgSession.handle_startup startup_request (PgSession.new sid)).1
                    ++ concat (replicate n unexpected_startup).
Proof.
  assert (Hnew : (PgSession.handle_startup startup_request (PgSession.new sid)).2 = PgSession.new sid) by reflexivity.
  unfold run_protocol. destruct (PgSession.handle_startup startup_request (PgSession.new sid)) as [hello s].
  cbn [snd] in Hnew. intros Hr. cbn [fst]. unfold mbind at 1, M_bind in Hr.
  destruct (serve_loop PgCodec.new hello arrivals (mkConn d s m)) as [r c1] eqn:Es.
  apply serve_loop_untouched in Es as [(Hd & Hs & Hm) Ho]; [|exact I]. cbn [db session metrics] in *. rewrite Hnew in Hs.
  destruct r as [[b out1]|e|]; [|injection Hr as <- <-; split_and!; [done..|]; by intros ? ?..].
  destruct (Ho b out1 eq_refl) as [-> Hn]. cbn [fst snd] in Hr. unfold m_modify, mret, M_ret in Hr.
  injection Hr as <- <-. cbn [db session metrics set_metrics]. split_and!; [done..|]. by intros out [= <-].
Qed.

End Server.

#[local] Instance server_fmt : Lexer.Fmt := {| Lexer.tok_debug _ := []; Lexer.f32_display _ := [] |}.
#[local] Instance server_debug : DebugValue := fun _ => [].
#[local] Instance server_exec : PgError.DebugExec := fun _ => [].
#[local] Existing Instance PgScram.toy_crypto.

Lemma thread_server_executes_nothing_witness :
  let sent := [PgCodec.frame ("Q"%byte, lit "CREATE TABLE t (v INT)" ++ [x00])] in
  exists out c,
    run_protocol 8 false [x01] 1 sent Db.empty PgSession.metrics_new = (Ok out, c) /\
    Db.tables (db c) = [] /\
    exists n, out = (PgSession.handle_startup startup_request (PgSession.new 1)).1
                    ++ concat (replicate n unexpected_startup).
Proof.
  intros sent. destruct (run_protocol 8 false [x01] 1 sent Db.empty PgSession.metrics_new) as [o c] eqn:E.
  assert (Ho : exists out, o = Ok out) by (eexists; change o with (o, c).1; rewrite <- E; vm_compute; reflexivity).
  destruct Ho as [out ->]. exists out, c. split; [reflexivity|].
  destruct (thread_server_executes_nothing 8 false [x01] _ _ _ _ _ _ E) as (Hd & _ & _ & Hn).
  split; [rewrite Hd; reflexivity|exact (Hn out eq_refl)].
Defined.

End PgServer.
