(* ===== verification/PgTls.v ===== *)
(** * PgTls: the negotiation of TLS
    ([serve_tls] of [crates/out-archon-pgwire/src/lib.rs])

    What a thread of [serve_tls] does with the stream it is given, before and
    with [run_protocol].  The handshake of rustls is a parameter: it takes what
    the client sends after its request and gives what the client says inside the
    encrypted stream. *)
From Stdlib Require Import ZArith Lia Strings.Byte Strings.String.
From stdpp Require Import base numbers option list gmap.
From S2P Require Import Prelude Ast Value Lexer Db Dml PgScram PgSession PgError PgSimple PgCodec PgServer.

Module PgTls.
Import Ast(str, lit).
Import PgSimple(Conn, Abort, mkConn, db, session, metrics).

Definition SSL_REQUEST_CODE : Z := 80877103.

(** What a [peek] sees: the first [n] bytes of what the client has sent are in
    the queue (none: the client has closed), or an error. *)
Inductive Peek : Type := Avail (n : nat) | PeekErr.

(** How the loop of peeks ends: never, as the client sends nothing more; with the
    thread's return; or with the buffer and the number of bytes in it. *)
Inductive Peeked : Type := Waits | Gone | Filled (buf : list byte) (filled : nat).

(** [stream.peek(&mut peek[filled..])] takes nothing out of the queue. *)
Fixpoint peek_loop (peeks : list Peek) (input buf : list byte) (filled : nat) : Peeked :=
  if 8 <=? filled then Filled buf filled
  else
    match peeks with
    | [] => Waits
    | PeekErr :: _ => Gone
    | Avail n :: peeks =>
        match take (8 - filled) (take n input) with
        | [] => Filled buf filled
        | seg => peek_loop peeks input (splice filled seg buf) (filled + length seg)
        end
    end.

Definition wants_ssl (buf : list byte) (filled : nat) : bool :=
  (filled =? 8) && (be_val (slice 0 4 buf) =? 8)%Z && (be_val (slice 4 8 buf) =? SSL_REQUEST_CODE)%Z.

(** [crate::tls::accept]: the arrivals inside the encrypted stream. *)
Class Tls : Type := tls_accept : list byte -> option (list (list byte)).

(** What has become of a connection. *)
Inductive Served : Type :=
| Waiting
| Dropped
| Handshake_failed (sent : list byte)
| Encrypted (sent out : list byte)
| Plain (sent : list byte).

Section Server.
Context `{Lexer.Fmt} `{DebugValue} `{PgError.DebugExec} `{PgScram.Crypto} `{Tls} (fuel : nat) (gpu : bool).
Context (random : list byte).

(** A connection of [serve_tls]: [arrivals] is what the client sends, and
    [writes] whether the negotiation's one byte can be written.  The eight bytes
    that were peeked are still there for [read_exact]. *)
Definition tls_connection (sid : Z) (peeks : list Peek) (arrivals : list (list byte)) (writes : bool)
    (d : Db.Database) (m : PgSession.Metrics) : outcome Abort Served * (Db.Database * PgSession.Metrics) :=
  let m := PgSession.record_connection_accepted m in
  let run arrivals k :=
    match PgServer.run_protocol fuel gpu random sid arrivals d m with
    | (Ok out, c) => (Ok (k out), (db c, metrics c))
    | (Err e, c) => (Err e, (db c, metrics c))
    | (Panic, c) => (Panic, (db c, metrics c))
    end in
  match peek_loop peeks (concat arrivals) (replicate 8 x00) 0 with
  | Waits => (Ok Waiting, (d, m))
  | Gone => (Ok Dropped, (d, m))
  | Filled buf filled =>
      if wants_ssl buf filled then
        if writes then
          match tls_accept (drop 8 (concat arrivals)) with
          | Some inner => run inner (Encrypted (lit "S"))
          | None => (Ok (Handshake_failed (lit "S")), (d, m))
          end
        else (Ok Dropped, (d, m))
      else if writes then run arrivals (fun out => Plain (lit "N" ++ out))
      else (Ok Dropped, (d, m))
  end.

End Server.

(** ** The listeners *)

(** What the listener returns: a stream, nothing yet, or an error. *)
Inductive Incoming (A : Type) : Type := Accepted (s : A) | NothingYet | Fails.
Arguments Accepted {A}.
Arguments NothingYet {A}.
Arguments Fails {A}.

(** [serve] and [serve_tls] after binding: the streams for which they spawn a
    thread ([handle_connection] or [tls_connection]), and how they return. *)
Fixpoint serve {A} (incoming : list (Incoming A)) : outcome unit unit * list A :=
  match incoming with
  | [] => (Ok tt, [])
  | Accepted s :: incoming => let '(r, spawned) := serve incoming in (r, s :: spawned)
  | NothingYet :: incoming => serve incoming
  | Fails :: _ => (Err tt, [])
  end.

(** One error of the listener ends the server: the streams after it get no
    thread. *)
Lemma serve_until_an_error {A} (before after : list (Incoming A)) : Fails ∉ before ->
  serve (before ++ Fails :: after) = (Err tt, omap (fun i => match i with Accepted s => Some s | _ => None end) before).
Proof.
  induction before as [|[s| |] before IH]; intros Hn; [done|..]; cbn [app serve]; [|apply IH; set_solver|].
  - rewrite IH by set_solver. done.
  - exfalso. apply Hn. left.
Qed.

(** ** Which requests are recognised *)

(** The bytes of the request. *)
Definition ssl_request : list byte := be_bytes 4 8 ++ be_bytes 4 SSL_REQUEST_CODE.

Lemma be_bytes_val n l : length l = n -> be_bytes n (be_val l) = l.
Proof.
  intros Hl. unfold be_bytes, be_val. rewrite le_bytes_val_eq by by rewrite length_rev. apply rev_involutive.
Qed.

Lemma wants_ssl_spec buf filled : length buf = 8 -> wants_ssl buf filled = true -> filled = 8 /\ buf = ssl_request.
Proof.
  intros Hb. unfold wants_ssl. intros [[Hf%Nat.eqb_eq H1%Z.eqb_eq]%andb_prop H2%Z.eqb_eq]%andb_prop. split; [done|].
  assert (Hs : buf = slice 0 4 buf ++ slice 4 8 buf).
  { unfold slice. rewrite drop_0. rewrite (take_ge (drop 4 buf)) by (rewrite length_drop; lia). by rewrite take_drop. }
  rewrite Hs. unfold ssl_request.
  rewrite <- H1, <- H2, !be_bytes_val; rewrite ?slice_length by (simpl; lia); done.
Qed.

(** A segment copied from the start of the queue to a later place of the buffer
    puts a zero byte where the request has none. *)
Lemma misplaced (input buf : list byte) filled n : length buf = 8 -> 1 <= filled -> filled < 8 ->
  8 - filled <= n -> splice filled (take (8 - filled) (take n (ssl_request ++ input))) buf <> ssl_request.
Proof.
  intros Hb H1 H8 Hn Heq. rewrite take_take, Nat.min_l in Heq by done.
  assert (Hseg : take (8 - filled) (ssl_request ++ input) = take (8 - filled) ssl_request).
  { rewrite take_app_le; [done|]. change (length ssl_request) with 8. lia. }
  rewrite Hseg in Heq.
  assert (Hdrop : drop filled ssl_request = take (8 - filled) ssl_request).
  { rewrite <- Heq at 1. unfold splice. rewrite drop_app_ge by (rewrite length_take; lia).
    rewrite length_take, Hb, Nat.min_l, Nat.sub_diag by lia. rewrite drop_0, drop_ge, app_nil_r; [done|].
    rewrite length_take. change (length ssl_request) with 8. lia. }
  clear - Hdrop H1 H8. do 8 (destruct filled as [|filled]; [try lia; discriminate Hdrop|]). lia.
Qed.

Lemma peek_loop_spoilt peeks input : forall buf filled buf' filled', length buf = 8 -> 1 <= filled -> filled < 8 ->
  peek_loop peeks (ssl_request ++ input) buf filled = Filled buf' filled' -> wants_ssl buf' filled' = false.
Proof.
  induction peeks as [|[n|] peeks IH]; intros buf filled buf' filled' Hb H1 H8; cbn [peek_loop];
    rewrite (proj2 (Nat.leb_gt _ _)) by done; [done| |done].
  destruct (take _ _) as [|b seg] eqn:Es.
  { intros [= <- <-]. unfold wants_ssl. by rewrite (proj2 (Nat.eqb_neq _ _)) by lia. }
  rewrite <- Es.
  assert (Hseg : length (take (8 - filled) (take n (ssl_request ++ input))) <= 8 - filled) by (rewrite length_take; lia).
  assert (Hlen : length (splice filled (take (8 - filled) (take n (ssl_request ++ input))) buf) = 8)
    by (rewrite splice_length; lia).
  destruct (decide (filled + length (take (8 - filled) (take n (ssl_request ++ input))) < 8)) as [Hlt|Hge].
  { apply IH; [done|rewrite Es; simpl; lia|done]. }
  assert (Hfull : peek_loop peeks (ssl_request ++ input) (splice filled (take (8 - filled) (take n (ssl_request ++ input))) buf)
      (filled + length (take (8 - filled) (take n (ssl_request ++ input)))) =
    Filled (splice filled (take (8 - filled) (take n (ssl_request ++ input))) buf)
      (filled + length (take (8 - filled) (take n (ssl_request ++ input))))).
  { destruct peeks as [|[]]; cbn [peek_loop]; by rewrite (proj2 (Nat.leb_le _ _)) by lia. }
  rewrite Hfull. intros [= <- <-]. destruct (wants_ssl _ _) eqn:E; [|done].
  apply wants_ssl_spec in E as [_ E]; [|done]. destruct (misplaced input buf filled n Hb H1 H8); [|done].
  rewrite !length_take in Hge. lia.
Qed.

(** C30: A client's request for TLS is recognised exactly when the first peek
    finds all its eight bytes: a request that arrives in two pieces never is, however many peeks follow, because
    each of them sees the same first bytes again. *)
Theorem ssl_request_must_arrive_whole k peeks input buf filled :
  peek_loop (Avail k :: peeks) (ssl_request ++ input) (replicate 8 x00) 0 = Filled buf filled ->
  wants_ssl buf filled = (8 <=? k).
Proof.
  cbn [peek_loop]. change (8 <=? 0) with false. change (8 - 0) with 8. cbv iota. destruct (decide (8 <= k)) as [Hk|Hk].
  - rewrite take_take, Nat.min_l, (proj2 (Nat.leb_le _ _)) by done.
    assert (Hseg : take 8 (ssl_request ++ input) = ssl_request) by (by rewrite (take_app_length' ssl_request)).
    rewrite Hseg. cbn [ssl_request be_bytes]. change (splice 0 ssl_request (replicate 8 x00)) with ssl_request.
    intros He. assert (Hf : Filled ssl_request 8 = Filled buf filled) by (by destruct peeks as [|[]]).
    by injection Hf as <- <-.
  - rewrite (proj2 (Nat.leb_gt _ _)) by lia. rewrite take_take, Nat.min_r by lia.
    assert (Hlen : length (take k (ssl_request ++ input)) = k).
    { rewrite length_take, length_app. change (length ssl_request) with 8. lia. }
    destruct (take k (ssl_request ++ input)) as [|b seg] eqn:Es; [by intros [= <- <-]|].
    rewrite <- Es in *. apply peek_loop_spoilt; [rewrite splice_length by (rewrite Hlen; simpl; lia); done|..].
    + rewrite Es. simpl. lia.
    + rewrite Hlen. lia.
Qed.

#[local] Instance tls_fmt : Lexer.Fmt := {| Lexer.tok_debug _ := []; Lexer.f32_display _ := [] |}.
#[local] Instance tls_debug : DebugValue := fun _ => [].
#[local] Instance tls_exec : PgError.DebugExec := fun _ => [].
#[local] Instance tls_plain : Tls := fun bs => Some [bs].
#[local] Existing Instance PgScram.toy_crypto.

Lemma ssl_request_must_arrive_whole_witness :
  exists buf filled, peek_loop [Avail 4; Avail 8] (ssl_request ++ []) (replicate 8 x00) 0 = Filled buf filled /\
    wants_ssl buf filled = false.
Proof.
  do 2 eexists. split; [vm_compute; reflexivity|].
  apply (ssl_request_must_arrive_whole 4 [Avail 8] []). vm_compute. reflexivity.
Defined.

(** A client that asks for no TLS is sent an answer to a question it has not put:
    the byte [N] comes before the greeting. *)
Example plain_client_is_told_no :
  let arrivals := [[x00; x00; x00; x08; x00; x03; x00; x00]] in
  exists out, (PgServer.run_protocol 8 false [x01] 1 arrivals Db.empty
                 (PgSession.record_connection_accepted PgSession.metrics_new)).1 = Ok out /\
    (tls_connection 8 false [x01] 1 [Avail 8] arrivals true Db.empty PgSession.metrics_new).1 =
      Ok (Plain (lit "N" ++ out)).
Proof. eexists. split; vm_compute; reflexivity. Qed.

End PgTls.
