(* ===== verification/PgBackup.v ===== *)
(** * PgBackup: offline backup and restore
    ([crates/out-archon-pgwire/src/backup.rs])

    The file system is its files and directories by path; a path is its list of
    components.  What the code needs of it is written out with the errors
    POSIX gives: a missing source, a directory where a file is expected. *)
From Stdlib Require Import ZArith Lia Strings.Byte Strings.String.
From stdpp Require Import base numbers option list gmap sorting.
From S2P Require Import Prelude Ast Value Lexer PgText.

Module PgBackup.
Import Ast(str, lit).

Abbreviation path := (list str).

Record FS : Type := mkFS { files : gmap path (list byte); dirs : gset path }.

Inductive IoError : Type := NotFound | NotADirectory | IsADirectory.
Abbreviation F := (M FS IoError).

Definition exists_ (p : path) (fs : FS) : bool :=
  bool_decide (is_Some (files fs !! p)) || bool_decide (p ∈ dirs fs).

(** The directories above a path, itself included. *)
Fixpoint prefixes (p : path) : list path :=
  match p with [] => [[]] | c :: p' => [] :: map (cons c) (prefixes p') end.

Definition create_dir_all (p : path) : F unit := fun fs =>
  if existsb (fun q => bool_decide (is_Some (files fs !! q))) (prefixes p) then (Err NotADirectory, fs)
  else (Ok tt, mkFS (files fs) (list_to_set (prefixes p) ∪ dirs fs)).

Definition parent (p : path) : option path := match p with [] => None | _ => Some (take (length p - 1) p) end.
Definition file_name (p : path) : option str := last p.

Definition fs_copy (src dst : path) : F unit := fun fs =>
  match files fs !! src with
  | None => (Err NotFound, fs)
  | Some b =>
      if bool_decide (dst ∈ dirs fs) then (Err IsADirectory, fs)
      else if bool_decide (default [] (parent dst) ∈ dirs fs) then (Ok tt, mkFS (<[dst := b]> (files fs)) (dirs fs))
      else (Err NotFound, fs)
  end.

Definition remove_file (p : path) : F unit := fun fs =>
  match files fs !! p with
  | Some _ => (Ok tt, mkFS (delete p (files fs)) (dirs fs))
  | None => (Err NotFound, fs)
  end.

(** ** The operations *)

(** [.wal] is appended to the last component. *)
Definition wal_path (db_path : path) : path :=
  match file_name db_path with
  | Some n => take (length db_path - 1) db_path ++ [n ++ lit ".wal"]
  | None => [lit ".wal"]
  end.

Definition join (dir : path) (name : option str) : path :=
  match name with Some n => dir ++ [n] | None => dir end.

Definition copy_overwrite (src dst : path) : F unit :=
  match parent dst with
  | Some (c :: p) => create_dir_all (c :: p);; fs_copy src dst
  | _ => fs_copy src dst
  end.

Definition copy_if_exists (src dst : path) : F unit :=
  fs ← m_get;
  if exists_ src fs then copy_overwrite src dst else mret tt.

Definition prefix : str := lit "archon-backup-".
Definition snapshot_name (secs : Z) : str := prefix ++ Lexer.int_to_string secs.

(** [secs] is the clock's. *)
Definition snapshot (secs : Z) (db_path dest_dir : path) : F path :=
  fs ← m_get;
  (if exists_ dest_dir fs then mret tt else create_dir_all dest_dir);;
  let snap := dest_dir ++ [snapshot_name secs] in
  create_dir_all snap;;
  copy_if_exists db_path (join snap (file_name db_path));;
  let wp := wal_path db_path in
  copy_if_exists wp (join snap (file_name wp));;
  mret snap.

Definition restore (snapshot_dir db_path : path) : F unit :=
  copy_overwrite (join snapshot_dir (file_name db_path)) db_path;;
  let wp := wal_path db_path in
  let src_wal := join snapshot_dir (file_name wp) in
  fs ← m_get;
  if exists_ src_wal fs then copy_overwrite src_wal wp
  else if exists_ wp fs then remove_file wp
  else mret tt.

(** The entries of a directory; a path's order is its components'. *)
Definition entries (dir : path) (fs : FS) : list path :=
  List.filter (fun p => bool_decide (parent p = Some dir))
    (map fst (map_to_list (files fs)) ++ elements (dirs fs)).
Definition path_le (a b : path) : Prop := Value.lex_cmp Value.str_cmp a b <> Gt.
#[export] Instance path_le_dec : RelDecision path_le.
Proof. intros a b. unfold path_le. apply _. Defined.

Definition list_snapshots (dest_dir : path) : F (list path) := fun fs =>
  if negb (exists_ dest_dir fs) then (Ok [], fs)
  else if bool_decide (dest_dir ∈ dirs fs) then
    (Ok (merge_sort path_le
      (List.filter (fun p => match file_name p with Some n => PgText.starts_with prefix n | None => false end)
        (entries dest_dir fs))), fs)
  else (Err NotADirectory, fs).

(** ** A backup restores *)

(** A file can be written at [d ++ [n]]: nothing above it is a file and it is
    not a directory. *)
Definition writable (d : path) (n : str) (fs : FS) : Prop :=
  (forall q, q ∈ prefixes d -> files fs !! q = None) /\ d ++ [n] ∉ dirs fs /\ [] ∈ dirs fs.

Lemma prefixes_spec p q : q ∈ prefixes p <-> exists r, p = q ++ r.
Proof.
  revert q. induction p as [|c p IH]; intros q; cbn [prefixes].
  - rewrite list_elem_of_singleton. split; [intros ->; by exists []|]. intros [r Hr].
    symmetry in Hr. by apply app_eq_nil in Hr as [-> _].
  - rewrite elem_of_cons, list_elem_of_fmap. split.
    + intros [->|(r & -> & Hr)]; [by eexists|]. apply IH in Hr as [r' ->]. by exists r'.
    + intros [r Hr]. destruct q as [|x q]; [by left|]. injection Hr as <- Hr. right. exists q.
      split; [done|]. apply IH. by exists r.
Qed.

Lemma prefixes_length p q : q ∈ prefixes p -> length q <= length p.
Proof. intros [r ->]%prefixes_spec. rewrite length_app. lia. Qed.

Lemma prefixes_self p : p ∈ prefixes p.
Proof. apply prefixes_spec. exists []. by rewrite app_nil_r. Qed.

Lemma file_name_snoc (d : path) n : file_name (d ++ [n]) = Some n.
Proof. apply last_snoc. Qed.

Lemma parent_snoc (d : path) n : parent (d ++ [n]) = Some d.
Proof.
  unfold parent. destruct (d ++ [n]) eqn:E; [by destruct d|]. rewrite <- E, length_app. cbn [length].
  replace (length d + 1 - 1) with (length d) by lia. by rewrite take_app_length.
Qed.

Lemma wal_path_snoc (d : path) n : wal_path (d ++ [n]) = d ++ [n ++ lit ".wal"].
Proof.
  unfold wal_path. rewrite file_name_snoc, length_app. cbn [length].
  replace (length d + 1 - 1) with (length d) by lia. by rewrite take_app_length.
Qed.

Lemma create_dir_ok p fs :
  (forall q, q ∈ prefixes p -> files fs !! q = None) ->
  create_dir_all p fs = (Ok tt, mkFS (files fs) (list_to_set (prefixes p) ∪ dirs fs)).
Proof.
  intros Hp. unfold create_dir_all.
  destruct (existsb _ (prefixes p)) eqn:E; [|done].
  apply existsb_exists in E as (q & Hq & Hs). apply list_elem_of_In in Hq. rewrite (Hp q Hq) in Hs.
  by rewrite bool_decide_eq_false_2 in Hs by (by intros [? ?]).
Qed.

Lemma copy_ok src d n b fs :
  files fs !! src = Some b -> writable d n fs ->
  exists ds, copy_overwrite src (d ++ [n]) fs = (Ok tt, mkFS (<[d ++ [n] := b]> (files fs)) ds) /\
    dirs fs ⊆ ds /\ ds ⊆ list_to_set (prefixes d) ∪ dirs fs.
Proof.
  intros Hsrc (Hd & Hn & Hroot). unfold copy_overwrite. rewrite parent_snoc.
  destruct d as [|c d].
  - exists (dirs fs). unfold fs_copy. rewrite Hsrc, bool_decide_eq_false_2 by done.
    rewrite parent_snoc. cbn [default from_option id].
    rewrite bool_decide_eq_true_2 by done. split_and!; [done|set_solver..].
  - exists (list_to_set (prefixes (c :: d)) ∪ dirs fs).
    rewrite (bind_ok _ _ _ _ _ (create_dir_ok (c :: d) fs Hd)). unfold fs_copy. cbn [files dirs]. rewrite Hsrc.
    rewrite bool_decide_eq_false_2.
    2: { rewrite elem_of_union, elem_of_list_to_set. intros [Hin|Hin]; [|done].
         apply prefixes_length in Hin. rewrite length_app in Hin. simpl in Hin. lia. }
    rewrite parent_snoc. cbn [default from_option id].
    rewrite bool_decide_eq_true_2 by (rewrite elem_of_union, elem_of_list_to_set; left; apply prefixes_self).
    split_and!; [done|set_solver..].
Qed.

Lemma wal_name_differs (d : path) (n : str) : d ++ [n] <> d ++ [n ++ lit ".wal"].
Proof.
  intros [= Hn]%app_inv_head. apply (f_equal length) in Hn. rewrite length_app in Hn. simpl in Hn. lia.
Qed.

(** The files of a backup. *)
Definition holds (snap : path) (n : str) (data : list byte) (wal : option (list byte)) (fs : FS) : Prop :=
  files fs !! (snap ++ [n]) = Some data /\ files fs !! (snap ++ [n ++ lit ".wal"]) = wal /\
  (wal = None -> snap ++ [n ++ lit ".wal"] ∉ dirs fs).

(** Writing another file keeps a place writable. *)
Lemma writable_after d n p b ds fs :
  writable d n fs -> d ++ [p] ∉ prefixes d -> dirs fs ⊆ ds -> ds ⊆ list_to_set (prefixes d) ∪ dirs fs ->
  writable d n (mkFS (<[d ++ [p] := b]> (files fs)) ds).
Proof.
  intros (Hq & Hdir & Hroot) Hp Hsub Hsup. split_and!; cbn [files dirs].
  - intros q Hin. rewrite lookup_insert_ne; [by apply Hq|]. by intros <-.
  - intros Hin. apply Hsup in Hin. rewrite elem_of_union, elem_of_list_to_set in Hin.
    destruct Hin as [Hin|Hin]; [|done]. apply prefixes_length in Hin. rewrite length_app in Hin. simpl in Hin. lia.
  - by apply Hsub.
Qed.

Lemma snoc_no_prefix (d : path) (n : str) : d ++ [n] ∉ prefixes d.
Proof. intros Hin%prefixes_length. rewrite length_app in Hin. simpl in Hin. lia. Qed.

Lemma restore_ok snap d n data wal fs :
  holds snap n data wal fs -> snap ∉ prefixes d ->
  writable d n fs -> writable d (n ++ lit ".wal") fs ->
  exists fs', restore snap (d ++ [n]) fs = (Ok tt, fs') /\
    files fs' !! (d ++ [n]) = Some data /\ files fs' !! (d ++ [n ++ lit ".wal"]) = wal.
Proof.
  intros (Hdata & Hwal & Hnw) Hne Hw1 Hw2. unfold restore. rewrite wal_path_snoc, !file_name_snoc. cbn [join].
  destruct (copy_ok _ d n data fs Hdata Hw1) as (ds & Hc & Hsub & Hsup). rewrite (bind_ok _ _ _ _ _ Hc).
  set (fs1 := mkFS (<[d ++ [n] := data]> (files fs)) ds).
  assert (Hsw : forall m k : str, d ++ [m] <> snap ++ [k]).
  { intros m k [He _]%app_inj_2; [|done]. apply Hne. rewrite <- He. apply prefixes_self. }
  rewrite (bind_ok _ _ _ fs1 fs1) by reflexivity.
  assert (Hw1' : files fs1 !! (snap ++ [n ++ lit ".wal"]) = wal).
  { cbn [fs1 files]. by rewrite lookup_insert_ne by apply Hsw. }
  assert (Hd1 : files fs1 !! (d ++ [n]) = Some data) by (cbn [fs1 files]; apply lookup_insert_eq).
  assert (Hwr : writable d (n ++ lit ".wal") fs1) by (apply writable_after; [done|apply snoc_no_prefix|done..]).
  destruct wal as [w|].
  - unfold exists_ at 1. rewrite Hw1', bool_decide_eq_true_2 by by eexists. cbn [orb].
    destruct (copy_ok _ d (n ++ lit ".wal") w fs1 Hw1' Hwr) as (ds2 & -> & _). eexists. split; [reflexivity|].
    cbn [files]. rewrite lookup_insert_eq. by rewrite lookup_insert_ne by (apply not_eq_sym, wal_name_differs).
  - assert (Hnd : snap ++ [n ++ lit ".wal"] ∉ dirs fs1).
    { cbn [fs1 dirs]. intros Hin. apply Hsup in Hin. rewrite elem_of_union, elem_of_list_to_set in Hin.
      destruct Hin as [[r Hr]%prefixes_spec|Hin]; [|by apply Hnw].
      apply Hne, prefixes_spec. rewrite <- app_assoc in Hr. by eexists. }
    unfold exists_ at 1. rewrite Hw1', !bool_decide_eq_false_2 by (done || by intros [? ?]). cbn [orb].
    unfold exists_. rewrite (bool_decide_eq_false_2 (_ ∈ dirs fs1)) by apply Hwr. rewrite orb_false_r.
    case_bool_decide as Hx.
    + destruct Hx as [b Hb]. unfold remove_file. rewrite Hb. eexists. split; [reflexivity|]. cbn [files].
      rewrite lookup_delete_eq. by rewrite lookup_delete_ne by (apply not_eq_sym, wal_name_differs).
    + exists fs1. split; [done|]. split; [done|]. destruct (files fs1 !! (d ++ [n ++ lit ".wal"])) eqn:E; [|done].
      destruct Hx. by eexists.
Qed.

(** Where a backup can be made: the snapshot directory can be created and has
    nothing in it, and the database is neither above it nor in it. *)
Record site (secs : Z) (d : path) (n : str) (dest : path) (fs : FS) : Prop := {
  st_free : forall q, q ∈ prefixes (dest ++ [snapshot_name secs]) -> files fs !! q = None;
  st_root : [] ∈ dirs fs;
  st_empty : forall m, files fs !! (dest ++ [snapshot_name secs] ++ [m]) = None /\
                       dest ++ [snapshot_name secs] ++ [m] ∉ dirs fs;
  st_apart : dest ++ [snapshot_name secs] ∉ prefixes d;
  st_wal : d ++ [n ++ lit ".wal"] ∉ dirs fs /\ d ++ [n ++ lit ".wal"] ∉ prefixes (dest ++ [snapshot_name secs])
}.

Lemma make_snapshot_dir secs dest fs :
  (forall q, q ∈ prefixes (dest ++ [snapshot_name secs]) -> files fs !! q = None) ->
  exists ds,
    ((if exists_ dest fs then mret tt else create_dir_all dest);; create_dir_all (dest ++ [snapshot_name secs])) fs
      = (Ok tt, mkFS (files fs) ds) /\
    dirs fs ⊆ ds /\ ds ⊆ list_to_set (prefixes (dest ++ [snapshot_name secs])) ∪ dirs fs.
Proof.
  intros Hf. set (snap := dest ++ [snapshot_name secs]) in *.
  assert (Hsub : forall q, q ∈ prefixes dest -> q ∈ prefixes snap).
  { intros q [r ->]%prefixes_spec. apply prefixes_spec. exists (r ++ [snapshot_name secs]). unfold snap.
    by rewrite <- app_assoc. }
  destruct (exists_ dest fs).
  - rewrite (bind_ok _ _ _ tt fs) by reflexivity. rewrite create_dir_ok by done. eexists. split; [reflexivity|]. set_solver.
  - rewrite (bind_ok _ _ _ _ _ (create_dir_ok dest fs (fun q Hq => Hf q (Hsub q Hq)))).
    rewrite create_dir_ok by done. eexists. split; [reflexivity|]. cbn [dirs]. split; [set_solver|].
    intros q. rewrite !elem_of_union, !elem_of_list_to_set. intros [?|[?|?]]; auto.
Qed.

Lemma snapshot_ok secs d n dest data fs :
  site secs d n dest fs -> files fs !! (d ++ [n]) = Some data ->
  exists fs', snapshot secs (d ++ [n]) dest fs = (Ok (dest ++ [snapshot_name secs]), fs') /\
    holds (dest ++ [snapshot_name secs]) n data (files fs !! (d ++ [n ++ lit ".wal"])) fs'.
Proof.
  intros [Hf Hroot Hempty Hap [Hwd Hwp]] Hdata. unfold snapshot. rewrite wal_path_snoc, !file_name_snoc. cbn [join].
  rewrite (bind_ok _ _ _ fs fs) by reflexivity.
  destruct (make_snapshot_dir secs dest fs Hf) as (ds & Hmk & Hsub & Hsup).
  set (snap := dest ++ [snapshot_name secs]) in *.
  apply bind_inv in Hmk as ([] & fs0 & Hm1 & Hm2). rewrite (bind_ok _ _ _ _ _ Hm1), (bind_ok _ _ _ _ _ Hm2).
  assert (Hfresh : forall m, files fs !! (snap ++ [m]) = None /\ snap ++ [m] ∉ ds).
  { intros m. destruct (Hempty m) as [H1 H2]. unfold snap. rewrite <- app_assoc. split; [done|].
    intros Hin. apply Hsup in Hin. rewrite elem_of_union, elem_of_list_to_set in Hin. destruct Hin as [Hin|Hin]; [|done].
    apply prefixes_length in Hin. unfold snap in Hin. rewrite !length_app in Hin. simpl in Hin. lia. }
  assert (Hw : forall m, writable snap m (mkFS (files fs) ds)).
  { intros m. split_and!; cbn [files dirs]; [exact Hf|apply Hfresh|by apply Hsub]. }
  assert (Hne : forall m k : str, d ++ [m] <> snap ++ [k]).
  { intros m k [He _]%app_inj_2; [|done]. apply Hap. rewrite <- He. apply prefixes_self. }
  destruct (copy_ok (d ++ [n]) snap n data (mkFS (files fs) ds) Hdata (Hw n)) as (ds1 & Hc1 & Hsub1 & Hsup1).
  cbn [files dirs] in Hc1, Hsub1, Hsup1. set (fs1 := mkFS (<[snap ++ [n] := data]> (files fs)) ds1) in *.
  assert (Hci : copy_if_exists (d ++ [n]) (snap ++ [n]) (mkFS (files fs) ds) = (Ok tt, fs1)).
  { unfold copy_if_exists. rewrite (bind_ok _ _ _ _ _ (eq_refl (m_get (mkFS (files fs) ds)))).
    unfold exists_. cbn [files]. by rewrite Hdata, bool_decide_eq_true_2 by by eexists. }
  rewrite (bind_ok _ _ _ _ _ Hci). unfold copy_if_exists.
  assert (Hin1 : forall q, q ∈ ds1 -> q ∈ prefixes snap \/ q ∈ dirs fs).
  { intros q Hq. apply Hsup1 in Hq. rewrite elem_of_union, elem_of_list_to_set in Hq.
    destruct Hq as [Hq|Hq]; [by left|]. apply Hsup in Hq. rewrite elem_of_union, elem_of_list_to_set in Hq. tauto. }
  assert (Hwf : files fs1 !! (d ++ [n ++ lit ".wal"]) = files fs !! (d ++ [n ++ lit ".wal"])).
  { cbn [fs1 files]. by rewrite lookup_insert_ne by (apply not_eq_sym, Hne). }
  destruct (files fs !! (d ++ [n ++ lit ".wal"])) as [w|] eqn:Ew.
  - destruct (copy_ok (d ++ [n ++ lit ".wal"]) snap (n ++ lit ".wal") w fs1 Hwf) as (ds2 & Hc2 & _).
    { apply (writable_after snap _ n data ds1 (mkFS (files fs) ds)); [apply Hw|apply snoc_no_prefix|done..]. }
    unfold m_get, mbind, M_bind. unfold exists_. rewrite Hwf, bool_decide_eq_true_2 by by eexists. cbn [orb].
    rewrite Hc2. eexists. split; [reflexivity|]. split_and!; cbn [files]; [| |done].
    + rewrite lookup_insert_ne by (apply not_eq_sym, wal_name_differs). cbn [fs1 files]. apply lookup_insert_eq.
    + apply lookup_insert_eq.
  - unfold m_get, mbind, M_bind. unfold exists_. rewrite Hwf, !bool_decide_eq_false_2; cbn [orb].
    2: { intros Hin. by destruct (Hin1 _ Hin). }
    2: { by intros [? ?]. }
    eexists. split; [reflexivity|]. split_and!; cbn [fs1 files dirs].
    + apply lookup_insert_eq.
    + rewrite lookup_insert_ne by apply wal_name_differs. apply Hfresh.
    + intros _ Hin. destruct (Hin1 _ Hin) as [Hp|Hp].
      * apply prefixes_length in Hp. rewrite length_app in Hp. simpl in Hp. lia.
      * destruct (Hempty (n ++ lit ".wal")) as [_ Hx]. apply Hx. unfold snap in Hp. by rewrite <- app_assoc in Hp.
Qed.

(** C25: what [snapshot] saved, [restore] brings back.  Take a
    snapshot of a database whose data file exists, where the snapshot's
    directory can be made, is apart from the database and holds nothing yet,
    so that it is the first one of its second ([site]); let anything happen to
    the file system except in the snapshot, as long as the data file and the
    log can still be written: no directory has their name and no file is
    in the place of one above them ([writable]).  Then restoring it succeeds, and the data file and
    the log are those of the time of the snapshot, the log removed again if
    there was none.  (A second snapshot in the same second reuses the
    directory, and a stale log comes back: [snapshot_in_the_same_second].) *)
Theorem backup_restores secs d n dest data fs snap fs1 fs2 :
  site secs d n dest fs -> files fs !! (d ++ [n]) = Some data ->
  snapshot secs (d ++ [n]) dest fs = (Ok snap, fs1) ->
  (forall m, files fs2 !! (snap ++ [m]) = files fs1 !! (snap ++ [m])) ->
  (forall m, snap ++ [m] ∈ dirs fs2 -> snap ++ [m] ∈ dirs fs1) ->
  writable d n fs2 -> writable d (n ++ lit ".wal") fs2 ->
  exists fs3, restore snap (d ++ [n]) fs2 = (Ok tt, fs3) /\
    files fs3 !! (d ++ [n]) = files fs !! (d ++ [n]) /\
    files fs3 !! wal_path (d ++ [n]) = files fs !! wal_path (d ++ [n]).
Proof.
  intros Hsite Hdata Hsnap Hfiles Hdirs Hw1 Hw2.
  destruct (snapshot_ok secs d n dest data fs Hsite Hdata) as (fs' & Hs & Hh1 & Hh2 & Hh3).
  rewrite Hs in Hsnap. injection Hsnap as <- <-. rewrite wal_path_snoc, Hdata.
  apply restore_ok; [|apply Hsite|done..]. split_and!; [by rewrite Hfiles|by rewrite Hfiles|].
  intros Hn Hin. apply Hdirs in Hin. by apply Hh3.
Qed.

Definition sample : FS := mkFS {[ [lit "data"; lit "db"] := lit "old" ]} {[ []; [lit "data"] ]}.
Definition later : FS := (snapshot 7 [lit "data"; lit "db"] [lit "backups"] sample).2.
Definition changed : FS :=
  mkFS (<[ [lit "data"; lit "db"] := lit "new" ]> (<[ [lit "data"; lit "db.wal"] := lit "log" ]> (files later))) (dirs later).

Lemma backup_restores_witness :
  exists snap fs3,
    snapshot 7 [lit "data"; lit "db"] [lit "backups"] sample = (Ok snap, later) /\
    restore snap [lit "data"; lit "db"] changed = (Ok tt, fs3) /\
    files fs3 !! [lit "data"; lit "db"] = Some (lit "old") /\
    files fs3 !! wal_path [lit "data"; lit "db"] = None.
Proof.
  assert (Hs : snapshot 7 [lit "data"; lit "db"] [lit "backups"] sample
               = (Ok ([lit "backups"] ++ [snapshot_name 7]), later)) by (vm_compute; reflexivity).
  destruct (backup_restores 7 [lit "data"] (lit "db") [lit "backups"] (lit "old") sample ([lit "backups"] ++ [snapshot_name 7]) later changed)
    as (fs3 & Hr & H1 & H2).
  - split.
    + apply Forall_forall, (bool_decide_unpack _). vm_compute. exact I.
    + apply (bool_decide_unpack _). vm_compute. exact I.
    + intros m. split; [unfold sample; cbn [files]; rewrite lookup_singleton_ne; [done|discriminate]|].
      unfold sample. cbn [dirs]. rewrite elem_of_union, !elem_of_singleton. by intros [|].
    + apply (bool_decide_unpack _). vm_compute. exact I.
    + split; apply (bool_decide_unpack _); vm_compute; exact I.
  - vm_compute. reflexivity.
  - exact Hs.
  - intros m. unfold changed. cbn [files]. by rewrite !lookup_insert_ne by discriminate.
  - intros m Hin. exact Hin.
  - split_and!; [|apply (bool_decide_unpack _); vm_compute; exact I..].
    apply Forall_forall, (bool_decide_unpack _). vm_compute. exact I.
  - split_and!; [|apply (bool_decide_unpack _); vm_compute; exact I..].
    apply Forall_forall, (bool_decide_unpack _). vm_compute. exact I.
  - exists ([lit "backups"] ++ [snapshot_name 7]), fs3. split; [exact Hs|]. split; [exact Hr|].
    split; [refine (eq_trans H1 _)|refine (eq_trans H2 _)]; vm_compute; reflexivity.
Defined.

(** A database without a data file, of which a snapshot can be taken, cannot
    be restored. *)
Example logless_snapshot_does_not_restore :
  let fs := mkFS ∅ {[ []; [lit "data"] ]} in
  match snapshot 7 [lit "data"; lit "db"] [lit "backups"] fs with
  | (Ok snap, fs1) => (restore snap [lit "data"; lit "db"] fs1).1 = Err NotFound
  | _ => False
  end.
Proof. vm_compute. reflexivity. Qed.

(** Two snapshots in the same second share a directory, and the second leaves
    the first one's copy of the log there.  Between the two the log was emptied
    into the data file and removed; restoring the second brings it back. *)
Example snapshot_in_the_same_second :
  let db := [lit "data"; lit "db"] in
  let fs := mkFS {[ db := lit "v1"; wal_path db := lit "log1" ]} {[ []; [lit "data"] ]} in
  let fs1 := (snapshot 7 db [lit "backups"] fs).2 in
  let checkpointed := mkFS (<[ db := lit "v2" ]> (delete (wal_path db) (files fs1))) (dirs fs1) in
  match snapshot 7 db [lit "backups"] checkpointed with
  | (Ok snap, fs2) =>
      let fs3 := (restore snap db fs2).2 in
      files checkpointed !! wal_path db = None /\
      files fs3 !! db = Some (lit "v2") /\ files fs3 !! wal_path db = Some (lit "log1")
  | _ => False
  end.
Proof. vm_compute. auto. Qed.

End PgBackup.
