(* ===== verification/Repl.v ===== *)
(** * Repl: the interactive SQL shell [crates/out-archon-sql/src/main.rs]

    The shell's state is a database, the output mode and what it has written.
    Its input is the list of its reads.  The crate is modelled as it is built by
    default, without [sqlite-import].  Parameters: the text of floating-point
    numbers, of execution errors and of parser tokens. *)
From Stdlib Require Import ZArith Lia Strings.Byte Strings.String.
From stdpp Require Import base numbers option list gmap.
From S2P Require Import Prelude Ast Value Lexer Expr Codec Parser Db Dml Engine PgText PgError.

(** [format!("{:.4}", f)]. *)
Class FixedText : Type := f32_fixed4 : Ast.f32 -> Ast.str.

Module Repl.
Import Ast(str, lit).
Import Value(Value).
Import Expr(obind).
Import Codec(DbError(..), Schema).

Inductive OutputMode : Type := Table | Csv | Json.

(** What the process writes.  [Elapsed] is the line with the time that a
    statement took. *)
Inductive Event : Type := Out (s : str) | ErrOut (s : str) | Elapsed.

Record Shell : Type := mkShell { db : Db.Database; mode : OutputMode; written : list Event }.

(** [Err Exit]: [process::exit(0)].  An overflowing stack aborts the process, as
    a panic of its only thread does. *)
Inductive Exit : Type := exit0.
Abbreviation S := (M Shell Exit).

Definition LF : byte := x0a.
Definition DQUOTE : byte := x22.
Definition COMMA : byte := ","%byte.
Definition SPACE : byte := " "%byte.
Definition BACKSLASH : byte := x5c.

Definition emit (e : Event) : S unit := m_modify (fun s => mkShell (db s) (mode s) (written s ++ [e])).
Definition println (s : str) : S unit := emit (Out (s ++ [LF])).
Definition eprintln (s : str) : S unit := emit (ErrOut (s ++ [LF])).
Fixpoint print_lines (ls : list str) : S unit :=
  match ls with [] => mret tt | l :: ls => println l;; print_lines ls end.

(** [parts.join(sep)]. *)
Fixpoint join (sep : str) (parts : list str) : str :=
  match parts with
  | [] => []
  | [p] => p
  | p :: ps => p ++ sep ++ join sep ps
  end.

(** [s.replace(c, t)] for a character [c]. *)
Definition replace (c : byte) (t s : str) : str := concat (map (fun b => if Byte.eqb b c then t else [b]) s).

Section Shell.
Context `{Lexer.Fmt} `{DebugValue} `{PgError.DebugExec} `{FixedText}.

Definition display_value (val : Value) : str :=
  match val with
  | Value.Int n => Lexer.int_to_string n
  | Value.Float f => Lexer.f32_display f
  | Value.Text s => s
  | Value.Vector v => lit "[" ++ join (lit ", ") (map f32_fixed4 v) ++ lit "]"
  | Value.Bool b => if b then lit "t" else lit "f"
  | Value.Null => lit "NULL"
  end.

Definition quoted (s : str) : str := lit "'" ++ s ++ lit "'".

Definition fmt_db_error (e : DbError) : str :=
  match e with
  | UnknownColumn c => lit "unknown column " ++ quoted c
  | TypeMismatch => lit "type mismatch"
  | ColumnTypeMismatch c => lit "type mismatch for column " ++ quoted c
  | ArityMismatch => lit "arity mismatch"
  | NotAVectorColumn c => lit "column " ++ quoted c ++ lit " is not a vector column"
  | MissingParam => lit "missing query parameter"
  | RowNotFound id => lit "row " ++ Lexer.int_to_string id ++ lit " not found"
  | CorruptRow id => lit "corrupt row at id " ++ Lexer.int_to_string id
  | UnknownTable t => lit "unknown table " ++ quoted t
  | TransactionError m => lit "transaction error: " ++ m
  | TableAlreadyExists t => lit "table " ++ quoted t ++ lit " already exists"
  | ViewAlreadyExists v => lit "view " ++ quoted v ++ lit " already exists"
  | UnknownView v => lit "unknown view " ++ quoted v
  | RecursiveView v => lit "view " ++ quoted v ++ lit " cannot reference itself"
  | Unsupported m => lit "unsupported: " ++ m
  | SubqueryCardinality m => lit "subquery error: " ++ m
  | ColumnCountMismatch => lit "each UNION/INTERSECT/EXCEPT query must have the same number of columns"
  | NotNullViolation c => lit "NOT NULL constraint violated: " ++ c
  | UniqueViolation c => lit "UNIQUE constraint violated: " ++ c
  | CheckViolation c => lit "CHECK constraint violated: " ++ c
  | ForeignKeyViolation c => lit "FOREIGN KEY constraint violated: " ++ c
  | Exec e => lit "execution error: " ++ PgError.exec_debug e
  end.

(** ** Result sets *)

Definition escape_csv (s : str) : str :=
  if existsb (fun b => Byte.eqb b DQUOTE || Byte.eqb b COMMA || Byte.eqb b LF) s
  then [DQUOTE] ++ replace DQUOTE [DQUOTE; DQUOTE] s ++ [DQUOTE]
  else s.

Definition csv_lines (columns : list str) (rows : list (list Value)) : list str :=
  join [COMMA] (map escape_csv columns) ::
  map (fun row => join [COMMA] (map (fun v => escape_csv (display_value v)) row)) rows.

Definition print_result_set_csv (columns : list str) (rows : list (list Value)) : S unit :=
  print_lines (csv_lines columns rows).

Definition escape_json (s : str) : str :=
  replace DQUOTE [BACKSLASH; DQUOTE] (replace BACKSLASH [BACKSLASH; BACKSLASH] s).

Definition json_value (val : Value) : str :=
  match val with
  | Value.Int n => Lexer.int_to_string n
  | Value.Null => lit "null"
  | other => [DQUOTE] ++ escape_json (display_value other) ++ [DQUOTE]
  end.

Definition json_object (columns : list str) (row : list Value) : str :=
  lit "{" ++ join [COMMA] (map (fun p => [DQUOTE] ++ escape_json p.1 ++ [DQUOTE] ++ lit ":" ++ json_value p.2)
                             (zip columns row)) ++ lit "}".

Definition print_result_set_json (columns : list str) (rows : list (list Value)) : S unit :=
  println (lit "[" ++ join [COMMA] (map (json_object columns) rows) ++ lit "]").

(** [format!("{:>width$}", s)]: the width is counted in characters. *)
Definition pad_left (width : nat) (s : str) : str := replicate (width - length (PgText.chars s)) SPACE ++ s.

(** The widths after a row; indexing past the columns panics. *)
Fixpoint widen (widths : list nat) (row : list Value) : outcome Exit (list nat) :=
  match row with
  | [] => Ok widths
  | val :: row =>
      match widths with
      | [] => Panic
      | w :: ws => obind (widen ws row) (fun ws => Ok (Nat.max w (length (display_value val)) :: ws))
      end
  end.

Fixpoint widths_of (widths : list nat) (rows : list (list Value)) : outcome Exit (list nat) :=
  match rows with
  | [] => Ok widths
  | row :: rows => obind (widen widths row) (fun widths => widths_of widths rows)
  end.

Definition table_lines (columns : list str) (rows : list (list Value)) (widths : list nat) : list str :=
  join (lit " | ") (zip_with (fun c w => pad_left w c) columns widths) ::
  join (lit "-+-") (map (fun w => replicate w "-"%byte) widths) ::
  map (fun row => join (lit " | ") (zip_with (fun v w => pad_left w (display_value v)) row widths)) rows.

Definition print_result_set_table (columns : list str) (rows : list (list Value)) : S unit :=
  match rows with
  | [] => println (lit "(0 rows)")
  | _ =>
      match widths_of (map length columns) rows with
      | Ok widths =>
          print_lines (table_lines columns rows widths);;
          println (lit "(" ++ Lexer.int_to_string (Z.of_nat (length rows)) ++ lit " rows)")
      | _ => m_panic
      end
  end.

Definition print_result_set (columns : list str) (rows : list (list Value)) (m : OutputMode) : S unit :=
  match m with
  | Table => print_result_set_table columns rows
  | Csv => print_result_set_csv columns rows
  | Json => print_result_set_json columns rows
  end.

(** ** Statements *)

Context (fuel : nat) (gpu : bool).

Definition set_db (d : Db.Database) : S unit := m_modify (fun s => mkShell d (mode s) (written s)).

Definition run_one (sql : str) (m : OutputMode) : S unit :=
  let sql := PgText.trim (PgText.trim_end_matches ";" (PgText.trim sql)) in
  if bool_decide (sql = []) then mret tt
  else
    match Parser.parse_statement sql with
    | Ok stmt =>
        s ← m_get;
        match Engine.execute fuel gpu stmt [] (db s) with
        | (Ok rs, d) =>
            set_db d;;
            match Value.columns rs with
            | [] => println (lit "OK")
            | columns => print_result_set columns (Value.rows rs) m
            end;;
            emit Elapsed
        | (Err (Db.Db e), d) => set_db d;; eprintln (lit "Error: " ++ fmt_db_error e ++ [LF])
        | (Err Db.StackOverflow, d) | (Panic, d) => set_db d;; m_panic
        end
    | Err (Lexer.mkParseError msg) => eprintln (lit "Parse error: " ++ msg ++ [LF])
    | Panic => m_panic
    end.

(** ** Dot commands *)

Definition help_lines : list str :=
  [lit "Dot commands:";
   lit "  .tables              List all tables";
   lit "  .schema TBL          Show columns for a table";
   lit "  .mode table|csv|json Set result-set output format (default: table)";
   lit "  .quit                Exit the REPL";
   lit "  .help                Show this help";
   [];
   lit "SQL:";
   lit "  CREATE TABLE name (col TYPE, ...)";
   lit "  SELECT ... FROM ... WHERE ... GROUP BY ... ORDER BY ... LIMIT n";
   lit "  INSERT INTO name (cols) VALUES (...)";
   lit "  UPDATE name SET col = val WHERE ...";
   lit "  DELETE FROM name WHERE ...";
   lit "  BEGIN / COMMIT / ROLLBACK";
   [];
   lit "Types: INT, TEXT, VECTOR[dim]"].

Definition type_name (ty : Ast.ColumnType) : str :=
  match ty with
  | Ast.TInt => lit "INT"
  | Ast.TBoolean => lit "BOOLEAN"
  | Ast.TFloat => lit "FLOAT"
  | Ast.TDouble => lit "DOUBLE"
  | Ast.TNumeric => lit "NUMERIC"
  | Ast.TText => lit "TEXT"
  | Ast.TVarchar _ => lit "VARCHAR"
  | Ast.TDate => lit "DATE"
  | Ast.TTimestamp => lit "TIMESTAMP"
  | Ast.TVector => lit "VECTOR"
  end.

Definition show_tables : S unit :=
  s ← m_get;
  match Db.table_names (db s) with
  | [] => println (lit "(no tables)")
  | tables => print_lines (map (fun t => lit "  " ++ t) tables)
  end.

Definition set_mode (m : OutputMode) (arg : str) : S unit :=
  m_modify (fun s => mkShell (db s) m (written s));; println (lit "mode set to " ++ arg).

Definition change_mode (arg : str) : S unit :=
  if bool_decide (arg = lit "table") then set_mode Table arg
  else if bool_decide (arg = lit "csv") then set_mode Csv arg
  else if bool_decide (arg = lit "json") then set_mode Json arg
  else eprintln (lit "Unknown mode " ++ quoted arg ++ lit ". Use table, csv, or json.").

Definition show_schema (name : str) : S unit :=
  s ← m_get;
  match Db.table_schema name (db s) with
  | Some schema =>
      print_lines (map (fun p => lit "  " ++ p.1 ++ lit " " ++ type_name p.2)
                     (zip (Codec.columns schema) (Codec.types schema)))
  | None => eprintln (lit "Error: unknown table " ++ quoted name)
  end.

Definition handle_dot_command (cmd : str) : S unit :=
  if bool_decide (cmd = lit ".quit" \/ cmd = lit ".q" \/ cmd = lit ".exit") then
    println (lit "Bye.");; m_err exit0
  else if bool_decide (cmd = lit ".help") then print_lines help_lines
  else if bool_decide (cmd = lit ".tables") then show_tables
  else match PgText.strip_prefix (lit ".mode ") cmd, PgText.strip_prefix (lit ".schema ") cmd with
       | Some arg, _ => change_mode (PgText.trim arg)
       | None, Some name => show_schema (PgText.trim name)
       | None, None =>
           eprintln (lit "Unknown command: " ++ cmd);;
           println (lit "Type .help for available commands.")
       end.

(** ** The loop *)

(** One [read_line]: a line with its newline (the last may lack it), or an
    error.  After the reads the input is at its end. *)
Inductive Read : Type := Line (s : str) | ReadFails.

Definition prompt (pending : option str) : str :=
  match pending with None => lit "archon> " | Some _ => lit "  ...> " end.

Definition complete (sql : str) : bool := bool_decide (last (PgText.trim_end sql) = Some ";"%byte).

(** The nested loops of [main], a turn per read: [pending] is the statement that
    the inner loop is collecting. *)
Fixpoint session (stdin : list Read) (pending : option str) : S unit :=
  emit (Out (prompt pending));;
  match stdin with
  | [] | ReadFails :: _ | Line [] :: _ => println (lit "Bye.")
  | Line line :: rest =>
      let statement sql :=
        if complete sql then s ← m_get; run_one sql (mode s);; session rest None
        else session rest (Some sql) in
      match pending with
      | None =>
          let trimmed := PgText.trim line in
          if bool_decide (trimmed = []) then session rest None
          else if PgText.starts_with (lit ".") trimmed then handle_dot_command trimmed;; session rest None
          else statement line
      | Some sql => statement (sql ++ line)
      end
  end.

Context (version : str).

Definition usage_lines : list str :=
  [lit "archon-sql " ++ version;
   lit "Interactive SQL shell for the TPT Archon database engine.";
   [];
   lit "Usage:";
   lit "  archon-sql              Start the interactive REPL";
   lit "  archon-sql -e " ++ [DQUOTE] ++ lit "SQL;" ++ [DQUOTE] ++ lit "    Execute a single statement and exit";
   lit "  archon-sql --help       Show this help";
   lit "  archon-sql --version    Show the version";
   [];
   lit "Once in the REPL, type .help for dot-commands, .quit to exit."].

Definition print_usage : S unit := print_lines usage_lines.

(** The dash of the banner is not ASCII. *)
Definition banner : list str :=
  [lit "archon-sql " ++ [xe2; x80; x94] ++ lit " TPT Archon interactive SQL shell";
   lit "Type .help for commands, .quit to exit, or enter SQL terminated by ';'." ++ [LF]].

Definition has_arg (args : list str) (names : list str) : bool :=
  existsb (fun a => bool_decide (a ∈ names)) args.

(** [main], from a shell with an empty database in table mode. *)
Definition main (args : list str) (stdin : list Read) : S unit :=
  if has_arg args [lit "--help"; lit "-h"] then print_usage
  else if has_arg args [lit "--version"; lit "-V"] then println (lit "archon-sql " ++ version)
  else match args with
       | _ :: a :: sql :: _ =>
           if bool_decide (a = lit "-e") then run_one sql Table else print_lines banner;; session stdin None
       | _ => print_lines banner;; session stdin None
       end.

Definition start : Shell := mkShell Db.empty Table [].

End Shell.
End Repl.
