(* ===== verification/ReplProof.v ===== *)
(** * ReplProof: what the SQL shell prints, and what it executes

    The shell of Repl: a result printed as CSV is read back by an RFC 4180 reader,
    a table is aligned, and a session executes the statements that are typed,
    however they are spread over lines. *)
From Stdlib Require Import ZArith Lia Strings.Byte Strings.String.
From stdpp Require Import base numbers option list gmap.
From S2P Require Import Prelude Ast Value Lexer Expr Codec Parser Db Dml Engine PgText PgError Repl.

Module ReplProof.
Import Ast(str, lit).
Import Value(Value).
Import Repl.

(** ** A reader of CSV, after RFC 4180

    Records end with CRLF or LF.  Between quotes any byte may stand, a quote
    doubled; outside them a quote, and a CR without its LF, are errors. *)

Inductive CellState : Type := AtStart | Bare | Quoted | Closing | Return | Bad.

Record Reader : Type := mkReader {
  records : list (list str);
  fields : list str;
  cell : str;
  state : CellState
}.

Definition CR : byte := x0d.

Definition push (b : byte) (t : CellState) (r : Reader) : Reader :=
  mkReader (records r) (fields r) (cell r ++ [b]) t.
Definition enter (t : CellState) (r : Reader) : Reader := mkReader (records r) (fields r) (cell r) t.
Definition end_cell (r : Reader) : Reader := mkReader (records r) (fields r ++ [cell r]) [] AtStart.
Definition end_record (r : Reader) : Reader := mkReader (records r ++ [fields r ++ [cell r]]) [] [] AtStart.

(** A byte outside quotes; [other] when it does not end the cell. *)
Definition read_outside (b : byte) (other r : Reader) : Reader :=
  if Byte.eqb b COMMA then end_cell r
  else if Byte.eqb b LF then end_record r
  else if Byte.eqb b CR then enter Return r
  else other.

Definition read_byte (r : Reader) (b : byte) : Reader :=
  match state r with
  | AtStart => if Byte.eqb b DQUOTE then enter Quoted r else read_outside b (push b Bare r) r
  | Bare => read_outside b (if Byte.eqb b DQUOTE then enter Bad r else push b Bare r) r
  | Quoted => if Byte.eqb b DQUOTE then enter Closing r else push b Quoted r
  | Closing => if Byte.eqb b DQUOTE then push b Quoted r else read_outside b (enter Bad r) r
  | Return => if Byte.eqb b LF then end_record r else enter Bad r
  | Bad => r
  end.

(** The records of a text that is CSV, each of them ended. *)
Definition read_csv (text : str) : option (list (list str)) :=
  match foldl read_byte (mkReader [] [] [] AtStart) text with
  | mkReader rs [] [] AtStart => Some rs
  | _ => None
  end.

(** What the process has written to its standard output, where [clock] is what
    it prints for the time a statement took. *)
Definition stdout (clock : str) (es : list Event) : str :=
  concat (map (fun e => match e with Out s => s | ErrOut _ => [] | Elapsed => clock end) es).

(** ** Printing *)

Lemma stdout_app clock es es' : stdout clock (es ++ es') = stdout clock es ++ stdout clock es'.
Proof. unfold stdout. by rewrite map_app, concat_app. Qed.

Lemma print_lines_eq ls : forall s,
  print_lines ls s = (Ok tt, mkShell (db s) (mode s) (written s ++ map (fun l => Out (l ++ [LF])) ls)).
Proof.
  induction ls as [|l ls IH]; intros s; simpl.
  - rewrite app_nil_r. by destruct s.
  - unfold println, emit, mbind, M_bind, m_modify. rewrite IH. simpl. by rewrite <- app_assoc.
Qed.

Lemma stdout_lines clock ls : stdout clock (map (fun l => Out (l ++ [LF])) ls) = concat (map (fun l => l ++ [LF]) ls).
Proof. unfold stdout. by rewrite map_map. Qed.

(** ** CSV *)

Lemma eqb_refl b : Byte.eqb b b = true.
Proof. by apply Byte.byte_dec_lb. Qed.

(** The bytes of a cell between quotes. *)
Lemma read_quoted s : forall rs fs c,
  foldl read_byte (mkReader rs fs c Quoted) (replace DQUOTE [DQUOTE; DQUOTE] s) = mkReader rs fs (c ++ s) Quoted.
Proof.
  induction s as [|b s IH]; intros rs fs c; cbn [replace map concat]; [by rewrite app_nil_r|].
  change (concat (map _ s)) with (replace DQUOTE [DQUOTE; DQUOTE] s). rewrite foldl_app.
  assert (Hstep : foldl read_byte (mkReader rs fs c Quoted) (if Byte.eqb b DQUOTE then [DQUOTE; DQUOTE] else [b]) =
    mkReader rs fs (c ++ [b]) Quoted).
  { destruct (Byte.eqb b DQUOTE) eqn:Eb; [by apply Byte.byte_dec_bl in Eb as ->|].
    cbn [foldl]. unfold read_byte. cbn [state]. by rewrite Eb. }
  rewrite Hstep, IH. by rewrite <- app_assoc.
Qed.

(** The bytes of a cell without special ones. *)
Definition plain (b : byte) : bool :=
  negb (Byte.eqb b DQUOTE || Byte.eqb b COMMA || Byte.eqb b LF) && negb (Byte.eqb b CR).

Lemma read_bare s : forall rs fs c t, forallb plain s = true -> t = AtStart \/ t = Bare ->
  exists t', foldl read_byte (mkReader rs fs c t) s = mkReader rs fs (c ++ s) t' /\ (t' = AtStart \/ t' = Bare).
Proof.
  induction s as [|b s IH]; intros rs fs c t Hs Ht; cbn [foldl]; [exists t; by rewrite app_nil_r|].
  cbn [forallb] in Hs. apply andb_true_iff in Hs as [Hb Hs]. unfold plain in Hb.
  destruct (Byte.eqb b DQUOTE) eqn:E1, (Byte.eqb b COMMA) eqn:E2, (Byte.eqb b LF) eqn:E3, (Byte.eqb b CR) eqn:E4;
    try discriminate.
  assert (Hstep : read_byte (mkReader rs fs c t) b = mkReader rs fs (c ++ [b]) Bare).
  { unfold read_byte, read_outside. cbn [state]. rewrite E1, E2, E3, E4. by destruct Ht as [-> | ->]. }
  rewrite Hstep. destruct (IH rs fs (c ++ [b]) Bare Hs (or_intror eq_refl)) as (t' & E & Ht').
  exists t'. rewrite E, <- app_assoc. done.
Qed.

(** A CR stands only in a cell that is printed between quotes. *)
Definition returns_quoted (s : str) : Prop := CR ∈ s -> escape_csv s <> s.

(** Between cells. *)
Definition outside (t : CellState) : Prop := t = AtStart \/ t = Bare \/ t = Closing.

(** A printed cell, up to the byte that ends it. *)
Lemma read_cell s rs fs : returns_quoted s -> exists t,
  foldl read_byte (mkReader rs fs [] AtStart) (escape_csv s) = mkReader rs fs s t /\ outside t.
Proof.
  unfold returns_quoted, escape_csv. intros Hcr. destruct (existsb _ s) eqn:Es.
  - exists Closing. split; [|by do 2 right]. rewrite !foldl_app.
    change (foldl read_byte (mkReader rs fs [] AtStart) [DQUOTE]) with (mkReader rs fs [] Quoted).
    by rewrite read_quoted.
  - destruct (read_bare s rs fs [] AtStart) as (t & E & Ht); [|by left|].
    + apply forallb_forall. intros b Hb. unfold plain. apply andb_true_iff. split; apply negb_true_iff.
      * destruct (Byte.eqb b DQUOTE || Byte.eqb b COMMA || Byte.eqb b LF) eqn:E; [|done].
        rewrite <- Es. symmetry. apply existsb_exists. by exists b.
      * destruct (Byte.eqb b CR) eqn:E; [|done]. apply Byte.byte_dec_bl in E as ->.
        destruct Hcr; [by apply list_elem_of_In|done].
    + exists t. split; [done|]. destruct Ht; [by left|by right; left].
Qed.

Lemma read_comma rs fs c t : outside t -> read_byte (mkReader rs fs c t) COMMA = mkReader rs (fs ++ [c]) [] AtStart.
Proof. by intros [-> | [-> | ->]]. Qed.

Lemma read_newline rs fs c t : outside t ->
  read_byte (mkReader rs fs c t) LF = mkReader (rs ++ [fs ++ [c]]) [] [] AtStart.
Proof. by intros [-> | [-> | ->]]. Qed.

(** A printed record. *)
Lemma read_record cs : forall rs fs, cs <> [] -> Forall returns_quoted cs ->
  foldl read_byte (mkReader rs fs [] AtStart) (join [COMMA] (map escape_csv cs) ++ [LF]) =
  mkReader (rs ++ [fs ++ cs]) [] [] AtStart.
Proof.
  induction cs as [|c cs IH]; intros rs fs Hne Hq; [done|]. apply Forall_cons in Hq as [Hc Hq].
  destruct (read_cell c rs fs Hc) as (t & E & Ht). destruct cs as [|c' cs].
  - cbn [map join]. rewrite foldl_app, E. cbn [foldl]. by apply read_newline.
  - change (join [COMMA] (map escape_csv (c :: c' :: cs)))
      with (escape_csv c ++ [COMMA] ++ join [COMMA] (map escape_csv (c' :: cs))).
    rewrite <- !app_assoc, foldl_app, E, foldl_app. cbn [foldl].
    rewrite read_comma, IH by done. by rewrite <- app_assoc.
Qed.

Lemma read_records css : forall rs, Forall (fun cs => cs <> [] /\ Forall returns_quoted cs) css ->
  foldl read_byte (mkReader rs [] [] AtStart)
    (concat (map (fun l => l ++ [LF]) (map (fun cs => join [COMMA] (map escape_csv cs)) css))) =
  mkReader (rs ++ css) [] [] AtStart.
Proof.
  induction css as [|cs css IH]; intros rs Hne; cbn [map concat]; [by rewrite app_nil_r|].
  apply Forall_cons in Hne as [[Hcs Hq] Hne]. rewrite foldl_app, read_record by done. cbn [app].
  rewrite IH by done. by rewrite <- app_assoc.
Qed.

(** ** Tables *)

(** A Rust string is a sequence of characters, and is as wide as it has
    characters. *)
Definition valid (s : str) : Prop := Forall PgText.valid_char (PgText.chars s).
Definition nchars (s : str) : nat := length (PgText.chars s).

Lemma chars_app s t : valid s -> valid t -> PgText.chars (s ++ t) = PgText.chars s ++ PgText.chars t.
Proof.
  intros Hs Ht. rewrite <- (PgText.concat_chars s) at 1. rewrite <- (PgText.concat_chars t) at 1.
  rewrite <- concat_app. apply PgText.chars_concat. by apply Forall_app.
Qed.

Lemma valid_app s t : valid s -> valid t -> valid (s ++ t).
Proof. intros Hs Ht. unfold valid. rewrite chars_app by done. by apply Forall_app. Qed.

Lemma nchars_app s t : valid s -> valid t -> nchars (s ++ t) = nchars s + nchars t.
Proof. intros Hs Ht. unfold nchars. by rewrite chars_app, length_app. Qed.

(** A run of one ASCII character. *)
Lemma chars_replicate n b : PgText.valid_char [b] -> PgText.chars (replicate n b) = replicate n [b].
Proof.
  intros Hb. rewrite <- (PgText.chars_concat (replicate n [b])) by by apply Forall_replicate.
  f_equal. induction n; simpl; by f_equal.
Qed.

Lemma valid_replicate n b : PgText.valid_char [b] -> valid (replicate n b).
Proof. intros Hb. unfold valid. rewrite chars_replicate by done. by apply Forall_replicate. Qed.

Lemma nchars_replicate n b : PgText.valid_char [b] -> nchars (replicate n b) = n.
Proof. intros Hb. unfold nchars. rewrite chars_replicate by done. apply length_replicate. Qed.

Lemma nchars_le s : valid s -> nchars s <= length s.
Proof.
  intros Hs. rewrite <- (PgText.concat_chars s) at 2. unfold valid, nchars in *.
  induction Hs as [|x cs Hx _ IH]; simpl; [done|]. rewrite length_app.
  destruct x; [discriminate Hx|simpl; lia].
Qed.

Lemma space_valid : PgText.valid_char [SPACE].
Proof. reflexivity. Qed.

Lemma pad_left_valid w s : valid s -> valid (pad_left w s).
Proof. intros Hs. by apply valid_app, Hs; apply valid_replicate. Qed.

Lemma pad_left_nchars w s : valid s -> length s <= w -> nchars (pad_left w s) = w.
Proof.
  intros Hs Hw. assert (Hl := nchars_le s Hs). unfold pad_left.
  rewrite nchars_app, nchars_replicate by (done || by apply valid_replicate). fold (nchars s). lia.
Qed.

Lemma join_chars sep sep' : valid sep -> valid sep' -> nchars sep = nchars sep' -> forall ps qs,
  Forall valid ps -> Forall valid qs -> map nchars ps = map nchars qs ->
  valid (join sep ps) /\ valid (join sep' qs) /\ nchars (join sep ps) = nchars (join sep' qs).
Proof.
  intros Hsep Hsep' Hn. induction ps as [|p ps IH]; intros [|q qs]; try discriminate; [intros _ _ _; repeat split; constructor|].
  intros [Hp Hps]%Forall_cons [Hq Hqs]%Forall_cons [= Hpq Hpqs].
  destruct (IH qs Hps Hqs Hpqs) as (Hv & Hv' & Heq).
  destruct ps as [|p' ps], qs as [|q' qs]; try discriminate; [done|].
  change (join sep (p :: p' :: ps)) with (p ++ sep ++ join sep (p' :: ps)).
  change (join sep' (q :: q' :: qs)) with (q ++ sep' ++ join sep' (q' :: qs)).
  split_and!; [by repeat apply valid_app..|].
  rewrite !nchars_app by (done || by apply valid_app). lia.
Qed.

Lemma Forall2_compose {A B C} (P : A -> B -> Prop) (Q : B -> C -> Prop) (R : A -> C -> Prop) l k m :
  (forall a b c, P a b -> Q b c -> R a c) -> Forall2 P l k -> Forall2 Q k m -> Forall2 R l m.
Proof.
  intros HR HP. revert m. induction HP; intros m HQ; inversion HQ; subst; constructor; eauto.
Qed.

Section Table.
Context `{Lexer.Fmt} `{DebugValue} `{PgError.DebugExec} `{FixedText}.

(** A cell that fits its column. *)
Definition fits (s : str) (w : nat) : Prop := length s <= w.

Lemma widen_ok row : forall ws, length row = length ws ->
  exists ws', widen ws row = Ok ws' /\ Forall2 le ws ws' /\ Forall2 fits (map display_value row) ws'.
Proof.
  induction row as [|v row IH]; intros [|w ws] Hl; try discriminate; [by exists []|].
  injection Hl as Hl. destruct (IH ws Hl) as (ws' & E & Hle & Hf). cbn [widen]. rewrite E. cbn.
  eexists. split; [done|]. unfold fits in *. split; constructor; try done; lia.
Qed.

Lemma le_trans_all a b c : Forall2 le a b -> Forall2 le b c -> Forall2 le a c.
Proof. apply Forall2_compose. intros ???. lia. Qed.

Lemma fits_mono ss ws ws' : Forall2 fits ss ws -> Forall2 le ws ws' -> Forall2 fits ss ws'.
Proof. apply Forall2_compose. unfold fits. intros ???. lia. Qed.

Lemma widths_ok rows : forall ws, Forall (fun row => length row = length ws) rows ->
  exists ws', widths_of ws rows = Ok ws' /\ Forall2 le ws ws' /\
    Forall (fun row => Forall2 fits (map display_value row) ws') rows.
Proof.
  induction rows as [|row rows IH]; intros ws Hr.
  { exists ws. split; [done|]. split; [|done]. induction ws; by constructor. }
  apply Forall_cons in Hr as [Hrow Hr]. destruct (widen_ok row ws Hrow) as (w1 & E1 & Hle1 & Hf1).
  assert (Hl := Forall2_length _ _ _ Hle1).
  destruct (IH w1) as (w2 & E2 & Hle2 & Hf2).
  { eapply Forall_impl; [exact Hr|]. intros r Hr'. simpl in Hr'. congruence. }
  exists w2. cbn [widths_of]. rewrite E1. split; [exact E2|]. split; [by eapply le_trans_all|].
  constructor; [by eapply fits_mono|done].
Qed.

Lemma padded ss ws : Forall valid ss -> Forall2 fits ss ws ->
  Forall valid (zip_with (fun s w => pad_left w s) ss ws) /\
  map nchars (zip_with (fun s w => pad_left w s) ss ws) = ws.
Proof.
  intros Hv Hf. revert Hv. induction Hf as [|s w ss ws Hs Hf IH]; intros Hv; [done|].
  apply Forall_cons in Hv as [Hvs Hv]. destruct (IH Hv) as [Hval Hn]. cbn [zip_with map]. split.
  - constructor; [by apply pad_left_valid|done].
  - rewrite pad_left_nchars by done. by f_equal.
Qed.

(** Every line of a table is as wide as its separator. *)
Lemma table_lines_wide columns rows ws :
  Forall valid columns -> Forall2 fits columns ws ->
  Forall (fun row => Forall valid (map display_value row) /\ Forall2 fits (map display_value row) ws) rows ->
  Forall (fun l => nchars l = nchars (join (lit "-+-") (map (fun w => replicate w "-"%byte) ws)))
    (table_lines columns rows ws).
Proof.
  intros Hc Hcf Hr.
  assert (Hline : forall ss, Forall valid ss -> Forall2 fits ss ws ->
    nchars (join (lit " | ") (zip_with (fun s w => pad_left w s) ss ws)) =
    nchars (join (lit "-+-") (map (fun w => replicate w "-"%byte) ws))).
  { intros ss Hv Hf. destruct (padded ss ws Hv Hf) as [Hpv Hpn].
    apply join_chars; [by repeat constructor..|done|done| |].
    - apply Forall_map, Forall_forall. intros w _. by apply valid_replicate.
    - rewrite Hpn, map_map. symmetry. erewrite map_ext; [apply map_id|]. intros w. by apply nchars_replicate. }
  constructor; [by apply Hline|]. constructor; [done|]. apply Forall_map.
  eapply Forall_impl; [exact Hr|]. intros row [Hv Hf]. simpl.
  rewrite <- (zip_with_fmap_l (fun s w => pad_left w s) display_value). by apply Hline.
Qed.

(** a table is printed without a panic, and its header, its
    separator and its rows are lines of one width, counted in characters, in which
    every cell is padded to the width of its column. *)
Theorem table_is_aligned columns rows s :
  rows <> [] -> Forall valid columns ->
  Forall (fun row => length row = length columns /\ Forall valid (map display_value row)) rows ->
  exists widths n,
    print_result_set_table columns rows s =
      (Ok tt, mkShell (db s) (mode s) (written s ++
         map (fun l => Out (l ++ [LF])) (table_lines columns rows widths ++
           [lit "(" ++ Lexer.int_to_string (Z.of_nat (length rows)) ++ lit " rows)"]))) /\
    Forall (fun l => nchars l = n) (table_lines columns rows widths) /\
    Forall2 fits columns widths /\ Forall (fun row => Forall2 fits (map display_value row) widths) rows.
Proof.
  intros Hne Hc Hr. destruct (widths_ok rows (map length columns)) as (ws & E & Hle & Hf).
  { eapply Forall_impl; [exact Hr|]. intros row [Hl _]. by rewrite length_map. }
  assert (Hcf : Forall2 fits columns ws) by (by apply (Forall2_fmap_l length le)).
  exists ws, (nchars (join (lit "-+-") (map (fun w => replicate w "-"%byte) ws))). split_and!; [| |done|done].
  - unfold print_result_set_table. destruct rows; [done|]. rewrite E.
    unfold mbind, M_bind. rewrite print_lines_eq. unfold println, emit, m_modify. cbn [db mode written].
    rewrite map_app. cbn [map]. by rewrite <- (app_assoc (written s)), <- !app_assoc.
  - apply table_lines_wide; [done|done|]. apply Forall_forall. intros row Hin.
    rewrite Forall_forall in Hr, Hf. split; [by apply Hr|by apply Hf].
Qed.

(** C29: what the shell prints for a result set in CSV mode is CSV.
    Whatever the names and the values (with commas, quotes or newlines in
    them), as long as a carriage return stands only in a cell that the shell
    puts between quotes, a reader of RFC 4180, whose records end with CRLF or
    LF, gets back the header and the text of every cell.  This is the output of
    [print_result_set_csv]; the shell goes on to print the elapsed time on the
    same stream ([elapsed_time_follows_csv]), and a carriage return at the
    end of a line is lost ([carriage_return_is_lost]). *)
Theorem csv_round_trip columns rows s :
  columns <> [] -> Forall (fun row => row <> []) rows ->
  Forall returns_quoted columns -> Forall (fun row => Forall returns_quoted (map display_value row)) rows ->
  exists es,
    print_result_set_csv columns rows s = (Ok tt, mkShell (db s) (mode s) (written s ++ es)) /\
    forall clock, read_csv (stdout clock es) = Some (columns :: map (map display_value) rows).
Proof.
  intros Hc Hr Hqc Hqr. eexists. split; [apply print_lines_eq|]. intros clock. rewrite stdout_lines. unfold csv_lines.
  change (join [COMMA] (map escape_csv columns) ::
    map (fun row => join [COMMA] (map (fun v => escape_csv (display_value v)) row)) rows)
    with ([join [COMMA] (map escape_csv columns)] ++
      map (fun row => join [COMMA] (map (fun v => escape_csv (display_value v)) row)) rows).
  assert (Hm : map (fun row => join [COMMA] (map (fun v => escape_csv (display_value v)) row)) rows =
    map (fun cs => join [COMMA] (map escape_csv cs)) (map (map display_value) rows)).
  { rewrite map_map. apply map_ext. intros row. by rewrite map_map. }
  rewrite Hm. refine (f_equal (fun r => match r with mkReader rs [] [] AtStart => Some rs | _ => None end)
    (read_records (columns :: map (map display_value) rows) [] _)).
  constructor; [done|]. apply Forall_map. rewrite Forall_forall in Hr, Hqr |- *.
  intros row Hin. split; [|by apply Hqr]. specialize (Hr row Hin). by destruct row.
Qed.

(** ** Sessions *)

Context (fuel : nat) (gpu : bool).

(** A statement as it is typed: its lines, of which only the last completes it,
    and the first is neither blank nor a dot command. *)
Definition typed_ok (lines : list str) : Prop :=
  exists first more, lines = first :: more /\
    PgText.trim first <> [] /\ PgText.starts_with (lit ".") (PgText.trim first) = false /\
    Forall (fun l => l <> []) lines /\
    (forall k, 0 < k < length lines -> complete (concat (take k lines)) = false) /\
    complete (concat lines) = true.

(** A prompt for each line after the first. *)
Fixpoint more_prompts (ls : list str) : S unit :=
  match ls with [] => mret tt | _ :: ls => emit (Out (lit "  ...> "));; more_prompts ls end.

(** The prompts, then the statement. *)
Definition run_typed (lines : list str) : S unit :=
  emit (Out (lit "archon> "));; more_prompts (tail lines);;
  s ← m_get; run_one fuel gpu (concat lines) (mode s).

Fixpoint run_script (script : list (list str)) : S unit :=
  match script with
  | [] => emit (Out (lit "archon> "));; println (lit "Bye.")
  | lines :: script => run_typed lines;; run_script script
  end.

Lemma session_more rest ls : forall sql s,
  ls <> [] -> Forall (fun l => l <> []) ls ->
  (forall k, 0 < k < length ls -> complete (sql ++ concat (take k ls)) = false) ->
  complete (sql ++ concat ls) = true ->
  session fuel gpu (map Line ls ++ rest) (Some sql) s =
  (more_prompts ls;; s ← m_get; run_one fuel gpu (sql ++ concat ls) (mode s);; session fuel gpu rest None) s.
Proof.
  induction ls as [|l ls IH]; intros sql s Hne Hl Hk Hc; [done|].
  apply Forall_cons in Hl as [Hl0 Hl]. destruct l as [|b l]; [done|]. clear Hl0 Hne.
  cbn [map app session more_prompts prompt]. unfold mbind, M_bind at 1 2, emit at 1 2, m_modify at 1 2.
  destruct ls as [|l' ls].
  - cbn [concat app] in *. rewrite app_nil_r in Hc |- *. rewrite Hc. reflexivity.
  - assert (Hinc : complete (sql ++ b :: l) = false).
    { specialize (Hk 1 ltac:(simpl; lia)). cbn [take concat] in Hk. by rewrite app_nil_r in Hk. }
    rewrite Hinc. rewrite IH; [|done|done| |].
    + cbn [concat]. rewrite <- app_assoc. reflexivity.
    + intros k Hk'. specialize (Hk (Datatypes.S k) ltac:(simpl in *; lia)). cbn [take concat] in Hk.
      by rewrite <- app_assoc.
    + cbn [concat] in *. by rewrite <- app_assoc.
Qed.

Lemma session_typed lines rest s : typed_ok lines ->
  session fuel gpu (map Line lines ++ rest) None s = (run_typed lines;; session fuel gpu rest None) s.
Proof.
  intros (l & more & -> & Ht & Hd & Hl & Hk & Hc).
  apply Forall_cons in Hl as [Hl0 Hl]. destruct l as [|b l]; [done|]. clear Hl0.
  cbn [map app session prompt]. unfold run_typed. cbn [tail].
  unfold mbind, M_bind at 1 2 3, emit at 1 2, m_modify at 1 2.
  rewrite bool_decide_eq_false_2, Hd by done. destruct more as [|l' more].
  - cbn [concat app] in *. rewrite app_nil_r in Hc |- *. rewrite Hc. reflexivity.
  - assert (Hinc : complete (b :: l) = false).
    { specialize (Hk 1 ltac:(simpl; lia)). cbn [take concat] in Hk. by rewrite app_nil_r in Hk. }
    rewrite Hinc. rewrite (session_more rest (l' :: more) (b :: l)); [|done|done| |done].
    + unfold mbind, M_bind. destruct (more_prompts _ _) as [[]?]; reflexivity.
    + intros k Hk'. specialize (Hk (Datatypes.S k) ltac:(simpl in *; lia)). exact Hk.
Qed.

(** a session executes the statements that are typed, in
    order, however they are spread over lines: it prints a prompt for each line,
    runs each statement when the line that completes it is entered, on the state
    that the statements before it left, and says goodbye at the end of its input. *)
Theorem shell_runs_what_is_typed script s : Forall typed_ok script ->
  session fuel gpu (map Line (concat script)) None s = run_script script s.
Proof.
  intros Hs. revert s. induction Hs as [|lines script Hl Hs IH]; intros s; [reflexivity|].
  cbn [concat run_script]. rewrite map_app, session_typed by done.
  unfold mbind, M_bind. destruct (run_typed lines s) as [[]?]; [apply IH|done|done].
Qed.

End Table.
(** ** Examples *)

#[local] Instance ex_fmt : Lexer.Fmt := {| Lexer.tok_debug _ := []; Lexer.f32_display _ := [] |}.
#[local] Instance ex_debug : DebugValue := fun _ => [].
#[local] Instance ex_exec : PgError.DebugExec := fun _ => [].
#[local] Instance ex_fixed : FixedText := fun _ => [].

Definition ex_columns : list str := [lit "id"; lit "a,b"].
Definition ex_rows : list (list Value) :=
  [[Value.Int 7; Value.Text ([DQUOTE; CR; LF] ++ [xc3; xa9])]; [Value.Null; Value.Bool true]].

Ltac returns := first [intros _; discriminate
  | let H := fresh in intros H; exfalso; revert H; apply (bool_decide_unpack _); vm_compute; exact I].

Lemma csv_round_trip_witness :
  ex_columns <> [] /\ exists es,
    print_result_set_csv ex_columns ex_rows start = (Ok tt, mkShell Db.empty Table es) /\
    read_csv (stdout [] es) =
      Some [[lit "id"; lit "a,b"]; [lit "7"; [DQUOTE; CR; LF; xc3; xa9]]; [lit "NULL"; lit "t"]].
Proof.
  split; [done|].
  destruct (csv_round_trip ex_columns ex_rows start) as (es & E & Hr); [done|by repeat constructor| | |].
  - repeat (apply Forall_cons; split); first [apply Forall_nil_2|returns].
  - repeat (apply Forall_cons; split); first [apply Forall_nil_2|returns].
  - exists es. split; [exact E|exact (Hr [])].
Defined.

(** A carriage return alone does not make the shell quote a cell: at the end of
    a line it reads as a part of the line's end, and elsewhere it is not CSV. *)
Example carriage_return_is_lost :
  let printed row := stdout [] (written (print_result_set_csv [lit "a"] [row] start).2) in
  read_csv (printed [Value.Text (lit "x" ++ [CR])]) = Some [[lit "a"]; [lit "x"]] /\
  read_csv (printed [Value.Text ([CR] ++ lit "x")]) = None.
Proof. vm_compute. split; reflexivity. Qed.

(** After the result set the shell prints the time it took and a blank line, in
    CSV mode too: a reader takes them for two more records. *)
Example elapsed_time_follows_csv :
  let s := (run_one 20 false (lit "SELECT x FROM t") Csv
    (run_one 20 false (lit "CREATE TABLE t (x INT)") Csv start).2).2 in
  read_csv (stdout (lit "(1.234ms)" ++ [LF; LF]) (drop 2 (written s))) = Some [[lit "x"]; [lit "(1.234ms)"]; [[]]].
Proof. vm_compute. reflexivity. Qed.

Lemma table_is_aligned_witness :
  exists widths n, Forall (fun l => nchars l = n) (table_lines ex_columns ex_rows widths) /\
    Forall2 fits ex_columns widths.
Proof.
  destruct (table_is_aligned ex_columns ex_rows start) as (ws & n & _ & Hn & Hf & _);
    [done|by repeat constructor|by repeat constructor|].
  exists ws, n. split; assumption.
Defined.

Definition ex_script : list (list str) :=
  [[lit "CREATE TABLE t (x INT);" ++ [LF]]; [lit "INSERT INTO t (x)" ++ [LF]; lit "VALUES (7) ; " ++ [LF]]].

Lemma shell_runs_what_is_typed_witness :
  session 20 false (map Line (concat ex_script)) None start = run_script 20 false ex_script start /\
  fst (run_script 20 false ex_script start) = Ok tt.
Proof.
  split; [|vm_compute; reflexivity]. apply shell_runs_what_is_typed.
  constructor; [|constructor; [|constructor]].
  - do 2 eexists. split_and!; [reflexivity|vm_compute; discriminate|reflexivity|by repeat constructor| |reflexivity].
    intros k Hk. simpl in Hk. lia.
  - do 2 eexists. split_and!; [reflexivity|vm_compute; discriminate|reflexivity|by repeat constructor| |reflexivity].
    intros k Hk. simpl in Hk. by assert (k = 1) as -> by lia.
Defined.

(** A newline of a text is printed raw in JSON, where it must be escaped. *)
Example json_newline_is_raw :
  json_object [lit "a"] [Value.Text [LF]] = lit "{" ++ [DQUOTE] ++ lit "a" ++ [DQUOTE] ++ lit ":" ++ [DQUOTE; LF; DQUOTE] ++ lit "}".
Proof. reflexivity. Qed.

(** A semicolon at the end of a line ends the statement, in a string too. *)
Example semicolon_in_string_ends_statement :
  complete (lit "INSERT INTO t (s) VALUES ('a;" ++ [LF]) = true /\
  is_ok (Parser.parse_statement (lit "INSERT INTO t (s) VALUES ('a")) = false /\
  is_ok (Parser.parse_statement (lit "INSERT INTO t (s) VALUES ('a;" ++ [LF] ++ lit "b')")) = true.
Proof. vm_compute. split_and!; reflexivity. Qed.

End ReplProof.
