(* ===== verification/PgOracle.v ===== *)
(** * PgOracle: the comparison of the SQL corpus with a PostgreSQL server
    ([crates/out-archon-pgcompat/src/main.rs])

    The parser of [.slt] files, the scanner of the rows that the server renders as
    JSON, and the run of a file.  The server's client is the crate [postgres]'s
    and is given by the class [Client]; a file is the outcome of reading it. *)
From Stdlib Require Import ZArith Lia Strings.Byte Strings.String.
From stdpp Require Import base numbers option list sorting.
From S2P Require Import Prelude Ast Value Lexer Expr Codec PgText Repl.

Module PgOracle.
Import Ast(str, lit).
Import Expr(obind).
Import Repl(join, DQUOTE, BACKSLASH, COMMA).

(** ** Directives *)

Inductive Directive : Type :=
| StatementOk (sql : str) (line : nat)
| StatementError (sql : str) (line : nat)
| Query (sql types : str) (expected : list (list str)) (ordered : bool) (line : nat).

(** The parser panics on text that is not a corpus file. *)
Inductive NoError : Type :=.
Abbreviation P := (outcome NoError).

(** [text.lines()]: the text split at newlines, a carriage return before the
    newline dropped, without the empty part after the last newline. *)
Definition strip_cr (l : str) : str :=
  match last l with Some x0d => take (length l - 1) l | _ => l end.
Definition lines (text : str) : list str :=
  let parts := PgText.split x0a text in
  let parts := match last parts with Some [] => take (length parts - 1) parts | _ => parts end in
  map strip_cr parts.

(** [s.split_whitespace()]. *)
Definition is_whitespace (c : str) : bool := bool_decide (c ∈ PgText.white_space).
Fixpoint words (cs : list str) (word : str) : list str :=
  match cs with
  | [] => match word with [] => [] | _ => [word] end
  | c :: cs =>
      if is_whitespace c then match word with [] => words cs [] | _ => word :: words cs [] end
      else words cs (word ++ c)
  end.
Definition split_whitespace (s : str) : list str := words (PgText.chars s) [].

Definition DASHES : str := lit "----".
Definition HASH : str := lit "#".

(** [collect_block]: the parts, and the lines that are left. *)
Fixpoint block_parts (rest : list str) (stop_at_dashes : bool) : list str * list str :=
  match rest with
  | [] => ([], [])
  | line :: rest' =>
      let trimmed := PgText.trim line in
      if bool_decide (trimmed = []) then ([], rest)
      else if stop_at_dashes && bool_decide (trimmed = DASHES) then ([], rest)
      else
        let '(parts, after) := block_parts rest' stop_at_dashes in
        (if PgText.starts_with HASH trimmed then parts else trimmed :: parts, after)
  end.
Definition collect_block (rest : list str) (stop_at_dashes : bool) : str * list str :=
  let '(parts, after) := block_parts rest stop_at_dashes in (join (lit " ") parts, after).

Fixpoint skip_blank (rest : list str) : list str :=
  match rest with
  | line :: rest' => if bool_decide (PgText.trim line = []) then skip_blank rest' else rest
  | [] => []
  end.

(** The expected rows of a query, up to a blank line. *)
Fixpoint expected_rows (rest : list str) : list (list str) * list str :=
  match rest with
  | [] => ([], [])
  | line :: rest' =>
      let trimmed := PgText.trim line in
      if bool_decide (trimmed = []) then ([], rest)
      else
        let '(rows, after) := expected_rows rest' in
        (if PgText.starts_with HASH trimmed then rows else split_whitespace trimmed :: rows, after)
  end.

(** [sql.to_ascii_uppercase().contains("ORDER BY")]. *)
Definition is_ordered (sql : str) : bool :=
  PgText.contains (lit "ORDER BY") (map PgText.to_ascii_upper sql).

(** The directive at the front of [rest], if it is one, and the lines after it;
    [line] is the number of the first of them. *)
Definition directive (line : nat) (trimmed : str) (rest : list str) : P (Directive * list str) :=
  if bool_decide (trimmed = lit "statement ok") then
    let '(sql, rest) := collect_block rest false in Ok (StatementOk sql line, rest)
  else if bool_decide (is_Some (PgText.strip_prefix (lit "statement error ") trimmed)) then
    let '(sql, rest) := collect_block rest false in Ok (StatementError sql line, rest)
  else
    match PgText.strip_prefix (lit "query ") trimmed with
    | Some types =>
        let types := PgText.trim types in
        let '(sql, rest) := collect_block rest true in
        match skip_blank rest with
        | dashes :: rest =>
            if bool_decide (PgText.trim dashes = DASHES) then
              let '(expected, rest) := expected_rows rest in
              Ok (Query sql types expected (is_ordered sql) line, rest)
            else Panic
        | [] => Panic
        end
    | None => Panic
    end.

(** The loop of [parse_directives] over the lines that are left; every turn takes
    a line, so that the number of lines is fuel enough. *)
Fixpoint parse_loop (fuel total : nat) (rest : list str) : P (list Directive) :=
  match fuel with
  | O => Ok []
  | S fuel =>
      match rest with
      | [] => Ok []
      | l :: rest =>
          let trimmed := PgText.trim l in
          if bool_decide (trimmed = []) || PgText.starts_with HASH trimmed then parse_loop fuel total rest
          else
            obind (directive (total - length rest) trimmed rest) (fun dr =>
            obind (parse_loop fuel total dr.2) (fun ds => Ok (dr.1 :: ds)))
      end
  end.

Definition parse_directives (text : str) : P (list Directive) :=
  let ls := lines text in parse_loop (length ls) (length ls) ls.

(** ** The scanner of JSON rows *)

(** The scanner's loop may not end: its turns are bounded by fuel. *)
Inductive Scan : Type := OutOfFuel.

(** [b as char], pushed to a string: the character with the byte's number. *)
Definition push_byte (b : byte) : str :=
  if (b2z b <? 128)%Z then [b]
  else [z2b (Z.lor 192 (Z.shiftr (b2z b) 6)); z2b (Z.lor 128 (Z.land (b2z b) 63))].

(** How far the index moves over the rest of a key. *)
Fixpoint key_len (s : str) : nat :=
  match s with
  | [] => 0
  | c :: s' =>
      if Byte.eqb c DQUOTE then 0
      else if Byte.eqb c BACKSLASH then 2 + match s' with [] => 0 | _ :: s'' => key_len s'' end
      else 1 + key_len s'
  end.

(** The rest of a string value, and how far the index moves over it. *)
Fixpoint string_value (s : str) : str * nat :=
  match s with
  | [] => ([], 0)
  | c :: s' =>
      if Byte.eqb c DQUOTE then ([], 0)
      else
        match s' with
        | d :: s'' =>
            if Byte.eqb c BACKSLASH then let '(t, n) := string_value s'' in (push_byte d ++ t, 2 + n)
            else let '(t, n) := string_value s' in (push_byte c ++ t, 1 + n)
        | [] => (push_byte c, 1)
        end
  end.

Definition number_byte (b : byte) : bool :=
  Lexer.is_ascii_digit b || existsb (Byte.eqb b) ["-"; "."; "e"; "E"; "+"]%byte.

Section Scanner.
Context (json : str).

Definition skip (p : byte -> bool) (i : nat) : nat := i + Lexer.span p (drop i json).
Definition at_byte (c : byte) (i : nat) : bool := bool_decide (json !! i = Some c).

(** The value at index [i], and the index behind it. *)
Definition scan_value (i : nat) : outcome Scan (str * nat) :=
  if at_byte DQUOTE i then
    let '(unescaped, n) := string_value (drop (i + 1) json) in Ok (unescaped, i + 1 + n + 1)
  else
    obind (PgText.slice_from i json) (fun rest =>
    if PgText.starts_with (lit "null") rest then Ok (lit "NULL", i + 4)
    else let stop := skip number_byte i in Ok (slice i stop json, stop)).

Fixpoint scan_loop (fuel i : nat) (values : list str) : outcome Scan (list str) :=
  match fuel with
  | O => Err OutOfFuel
  | S fuel =>
      let i := skip Lexer.is_ascii_whitespace i in
      if (length json <=? i) || at_byte "}" i then Ok values
      else
        let i := if at_byte DQUOTE i then i + 1 + key_len (drop (i + 1) json) + 1 else i in
        let i := skip (fun b => Lexer.is_ascii_whitespace b || Byte.eqb b ":") i in
        obind (scan_value i) (fun vi =>
        let i := skip Lexer.is_ascii_whitespace vi.2 in
        scan_loop fuel (if at_byte COMMA i then i + 1 else i) (values ++ [vi.1]))
  end.

Definition extract_json_row_values (fuel : nat) : outcome Scan (list str) :=
  let i := skip (fun b => negb (Byte.eqb b "{")) 0 in
  scan_loop fuel (if i <? length json then i + 1 else i) [].

End Scanner.

(** ** Running a file *)

(** The client: its state is the server's, its errors are their texts, and a
    query returns the first column of its rows as text. *)
Class Client (C : Type) : Type := {
  batch_execute : str -> M C str unit;
  execute : str -> M C str unit;
  query : str -> M C str (list (option str))
}.

(** What a run reports: the place, what went wrong, and the server's text. *)
Inductive Failure : Type :=
| ReadFailed (e : str)
| ResetFailed (e : str)
| StatementFailed (line : nat) (sql e : str)
| ErrorExpected (line : nat) (sql : str)
| QueryFailed (line : nat) (sql e : str)
| ColumnCount (line : nat) (sql types : str) (values : list str) (json : str)
| RowMismatch (line : nat) (sql : str) (ordered : bool) (expected actual : list (list str)).

(** The order of [Vec<Vec<String>>]: strings by their bytes, rows lexicographically. *)
Definition row_cmp (a b : list str) : comparison :=
  Value.lex_cmp (Value.lex_cmp (fun x y => (b2z x ?= b2z y)%Z)) a b.
Definition row_le (a b : list str) : Prop := row_cmp a b <> Gt.
#[export] Instance row_le_dec a b : Decision (row_le a b).
Proof. unfold row_le. destruct (row_cmp a b); [left|left|right]; congruence. Defined.

Section Run.
Context {C : Type} `{Client C} (fuel : nat).

Record Run : Type := mkRun { client : C; failures : list Failure }.

(** A call of the client, its error handed to the caller. *)
Definition call {A} (m : M C str A) : M Run Scan (str + A) := fun r =>
  match m (client r) with
  | (Ok a, c) => (Ok (inr a), mkRun c (failures r))
  | (Err e, c) => (Ok (inl e), mkRun c (failures r))
  | (Panic, c) => (Panic, mkRun c (failures r))
  end.

Definition fail (f : Failure) : M Run Scan unit := m_modify (fun r => mkRun (client r) (failures r ++ [f])).

(** The values of the rows, up to the first row that has not one per type. *)
Fixpoint read_rows (types : str) (rows : list (option str))
    : outcome Scan ((list str * str) + list (list str)) :=
  match rows with
  | [] => Ok (inr [])
  | row :: rows =>
      let json := default [] row in
      obind (extract_json_row_values json fuel) (fun values =>
      if negb (length values =? length types) then Ok (inl (values, json))
      else obind (read_rows types rows) (fun r =>
           Ok match r with inr vss => inr (values :: vss) | inl bad => inl bad end))
  end.

Definition run_query (sql types : str) (expected : list (list str)) (ordered : bool) (line : nat) : M Run Scan unit :=
  r ← call (query (lit "SELECT row_to_json(t)::text AS j FROM (" ++ sql ++ lit ") AS t"));
  match r with
  | inl e => fail (QueryFailed line sql e)
  | inr rows =>
      rs ← (fun st => (read_rows types rows, st));
      match rs with
      | inl (values, json) => fail (ColumnCount line sql types values json)
      | inr actual =>
          let actual := if ordered then actual else merge_sort row_le actual in
          let expected := if ordered then expected else merge_sort row_le expected in
          if bool_decide (actual = expected) then mret tt
          else fail (RowMismatch line sql ordered expected actual)
      end
  end.

Definition run_directive (d : Directive) : M Run Scan unit :=
  match d with
  | StatementOk sql line =>
      r ← call (execute sql);
      match r with inl e => fail (StatementFailed line sql e) | inr _ => mret tt end
  | StatementError sql line =>
      r ← call (execute sql);
      match r with inl _ => mret tt | inr _ => fail (ErrorExpected line sql) end
  | Query sql types expected ordered line => run_query sql types expected ordered line
  end.

Fixpoint run_directives (ds : list Directive) : M Run Scan unit :=
  match ds with [] => mret tt | d :: ds => run_directive d;; run_directives ds end.

Definition reset_schema : str :=
  lit "DROP SCHEMA IF EXISTS pgcompat_slt CASCADE; CREATE SCHEMA pgcompat_slt; SET search_path TO pgcompat_slt, public;".

Definition run_file (text : str + str) : M Run Scan unit :=
  match text with
  | inl e => fail (ReadFailed e)
  | inr text =>
      match parse_directives text with
      | Ok directives =>
          r ← call (batch_execute reset_schema);
          match r with
          | inl e => fail (ResetFailed e)
          | inr _ => run_directives directives
          end
      | _ => m_panic
      end
  end.

Fixpoint run_files (files : list (str + str)) : M Run Scan unit :=
  match files with [] => mret tt | f :: files => run_file f;; run_files files end.

(** [main] once it is connected and has found the files: whether it reports
    success. *)
Definition main (files : list (str + str)) : M Run Scan bool :=
  match files with
  | [] => mret false
  | _ =>
      run_files files;;
      call (batch_execute (lit "DROP SCHEMA IF EXISTS pgcompat_slt CASCADE;"));;
      r ← m_get; mret (bool_decide (length (failures r) = 0))
  end.

End Run.

(** ** The parser's fuel *)

Lemma block_length rest b : length (block_parts rest b).2 <= length rest.
Proof.
  induction rest as [|l rest IH]; [done|]. cbn [block_parts].
  repeat case_match; simplify_eq/=; try done; lia.
Qed.

Lemma skip_blank_length rest : length (skip_blank rest) <= length rest.
Proof. induction rest as [|l rest IH]; [done|]. cbn [skip_blank]. case_match; simpl in *; lia. Qed.

Lemma expected_length rest : length (expected_rows rest).2 <= length rest.
Proof.
  induction rest as [|l rest IH]; [done|]. cbn [expected_rows].
  repeat case_match; simplify_eq/=; try done; lia.
Qed.

Lemma directive_length line trimmed rest d rest' :
  directive line trimmed rest = Ok (d, rest') -> length rest' <= length rest.
Proof.
  unfold directive, collect_block.
  assert (Hb := block_length rest false). assert (Hb' := block_length rest true).
  destruct (block_parts rest false) as [p1 r1], (block_parts rest true) as [p2 r2]. simpl in Hb, Hb'.
  case_match; [by intros [= <- <-]|]. case_match; [by intros [= <- <-]|]. case_match; [|done].
  assert (Hs := skip_blank_length r2). destruct (skip_blank r2) as [|dashes r3]; [done|].
  case_match; [|done]. assert (He := expected_length r3). destruct (expected_rows r3) as [e r4].
  simpl in *. intros [= <- <-]. lia.
Qed.

(** Any fuel from the number of lines on gives the same directives. *)
Lemma parse_loop_fuel total fuel fuel' : forall rest, length rest <= fuel -> fuel <= fuel' ->
  parse_loop fuel' total rest = parse_loop fuel total rest.
Proof.
  revert fuel'. induction fuel as [|fuel IH]; intros fuel' rest Hr Hf.
  { destruct rest; [|simpl in Hr; lia]. by destruct fuel'. }
  destruct fuel' as [|fuel']; [lia|]. destruct rest as [|l rest]; [done|]. simpl in Hr. cbn [parse_loop].
  case_match; [apply IH; lia|]. destruct (directive _ _ rest) as [[d rest']| |] eqn:E; [|done..].
  apply directive_length in E. cbn. by rewrite IH by lia.
Qed.

(** ** Rows of numbers, texts and nulls *)

Inductive JsonValue : Type := JNumber (t : str) | JText (t : str) | JNull.

(** Escapes of the characters of a JSON string that need one. *)
Definition json_escape (t : str) : str :=
  concat (map (fun b => if Byte.eqb b DQUOTE || Byte.eqb b BACKSLASH then [BACKSLASH; b] else [b]) t).

Definition json_text (v : JsonValue) : str :=
  match v with
  | JNumber t => t
  | JText t => [DQUOTE] ++ json_escape t ++ [DQUOTE]
  | JNull => lit "null"
  end.

(** [row_to_json]. *)
Definition json_field (f : str * JsonValue) : str :=
  [DQUOTE] ++ json_escape f.1 ++ [DQUOTE] ++ [":"%byte] ++ json_text f.2.
Definition row_to_json (row : list (str * JsonValue)) : str :=
  lit "{" ++ join [COMMA] (map json_field row) ++ lit "}".

(** What the corpus writes for a value. *)
Definition shown (v : JsonValue) : str :=
  match v with JNumber t => t | JText t => t | JNull => lit "NULL" end.

(** Texts of ASCII characters, and numbers. *)
Definition value_ok (v : JsonValue) : Prop :=
  match v with
  | JNumber t => t <> [] /\ Forall (fun b => number_byte b = true) t
  | JText t => Forall (fun b => (b2z b < 128)%Z) t
  | JNull => True
  end.

Lemma key_len_ok t rest : key_len (json_escape t ++ DQUOTE :: rest) = length (json_escape t).
Proof.
  induction t as [|b t IH]; [done|]. unfold json_escape in *. cbn [map concat].
  destruct (Byte.eqb b DQUOTE) eqn:E1, (Byte.eqb b BACKSLASH) eqn:E2; cbn [orb app key_len length].
  1-3: cbn; by rewrite IH.
  rewrite E1, E2. by rewrite IH.
Qed.

Lemma string_value_ok t rest : Forall (fun b => (b2z b < 128)%Z) t ->
  string_value (json_escape t ++ DQUOTE :: rest) = (t, length (json_escape t)).
Proof.
  induction 1 as [|b t Hb Ht IH]; [done|]. unfold json_escape in *. cbn [map concat].
  assert (Hp : push_byte b = [b]) by (unfold push_byte; by rewrite (proj2 (Z.ltb_lt _ _) Hb)).
  destruct (Byte.eqb b DQUOTE) eqn:E1, (Byte.eqb b BACKSLASH) eqn:E2; cbn [orb app string_value length].
  1-3: cbn; by rewrite IH, Hp.
  rewrite E1. destruct (concat _ ++ DQUOTE :: rest) as [|d l] eqn:E; [by destruct (concat _)|].
  by rewrite E2, IH, Hp.
Qed.

(** The scanner's index is the length of what is before it. *)
Lemma skip_at p pre rest : skip (pre ++ rest) p (length pre) = length pre + Lexer.span p rest.
Proof. unfold skip. by rewrite drop_app_length. Qed.

Lemma byte_at c pre rest : at_byte (pre ++ rest) c (length pre) = bool_decide (head rest = Some c).
Proof.
  unfold at_byte. rewrite lookup_app_r, Nat.sub_diag by lia. by destruct rest.
Qed.

Lemma drop_at pre b (rest : str) : drop (length pre + 1) (pre ++ b :: rest) = rest.
Proof. by rewrite <- drop_drop, drop_app_length. Qed.

(** What ends a field. *)
Definition ends (d : byte) : Prop := d = COMMA \/ d = "}"%byte.

Lemma span_number t d rest : Forall (fun b => number_byte b = true) t -> ends d ->
  Lexer.span number_byte (t ++ d :: rest) = length t.
Proof.
  intros Ht Hd. induction Ht as [|b t Hb Ht IH]; cbn [app Lexer.span length].
  - by destruct Hd as [-> | ->].
  - by rewrite Hb, IH.
Qed.

(** The first byte of a number. *)
Lemma number_head b : number_byte b = true ->
  Byte.eqb b DQUOTE = false /\ Byte.eqb b "n" = false /\ Lexer.is_ascii_whitespace b = false /\
  Byte.eqb b ":" = false /\ Codec.is_cont (Some b) = false.
Proof. by destruct b; vm_compute. Qed.

Lemma slice_from_at pre b rest : Codec.is_cont (Some b) = false ->
  PgText.slice_from (E := Scan) (length pre) (pre ++ b :: rest) = Ok (b :: rest).
Proof.
  intros Hb. unfold PgText.slice_from, PgText.is_char_boundary.
  rewrite (proj2 (Nat.eqb_neq _ _)) by (rewrite length_app; simpl; lia).
  rewrite lookup_app_r, Nat.sub_diag by lia. cbn [lookup list_lookup]. rewrite Hb. cbn [negb].
  by rewrite drop_app_length.
Qed.

Lemma scan_value_ok pre v d tail : value_ok v -> ends d ->
  scan_value (pre ++ json_text v ++ d :: tail) (length pre) = Ok (shown v, length (pre ++ json_text v)).
Proof.
  intros Hv Hd. unfold scan_value. rewrite byte_at, length_app. destruct v as [t|t|]; cbn [json_text shown].
  - destruct Hv as [Hne Hn]. destruct t as [|b t]; [done|].
    assert (Hb := Hn). apply Forall_cons in Hb as [Hb _]. apply number_head in Hb as (H1 & H2 & _ & _ & Hc).
    rewrite bool_decide_eq_false_2 by (cbn; intros [= ->]; discriminate H1).
    cbn [app]. rewrite slice_from_at by done. cbn [obind].
    assert (Hnull : PgText.starts_with (lit "null") (b :: t ++ d :: tail) = false).
    { unfold PgText.starts_with. apply bool_decide_eq_false_2. change (lit "null") with ("n"%byte :: lit "ull").
      cbn [PgText.strip_prefix]. destruct (Byte.eqb "n" b) eqn:E; [|by intros []].
      apply Byte.byte_dec_bl in E as <-. by rewrite Byte.byte_dec_lb in H2. }
    rewrite Hnull. change (b :: t ++ d :: tail) with ((b :: t) ++ d :: tail).
    rewrite skip_at, span_number by done. f_equal. f_equal. unfold slice.
    rewrite drop_app_length. rewrite Nat.add_comm, Nat.add_sub. by rewrite take_app_length.
  - rewrite bool_decide_eq_true_2 by done. cbn [app]. rewrite <- app_assoc. cbn [app].
    rewrite drop_at, string_value_ok by done. f_equal. f_equal. simpl. rewrite ?length_app. simpl. lia.
  - rewrite bool_decide_eq_false_2 by done. change (lit "null") with ("n"%byte :: lit "ull"). cbn [app].
    rewrite slice_from_at by done. cbn [obind]. done.
Qed.

(** The first byte of a value is not skipped. *)
Lemma span_value v d tail : value_ok v ->
  Lexer.span (fun b => Lexer.is_ascii_whitespace b || Byte.eqb b ":") (json_text v ++ d :: tail) = 0.
Proof.
  intros Hv. destruct v as [t|t|]; [|done|done]. destruct Hv as [Hne Hn]. destruct t as [|b t]; [done|].
  apply Forall_cons in Hn as [Hb _]. apply number_head in Hb as (_ & _ & H1 & H2 & _). cbn [json_text app Lexer.span]. by rewrite H1, H2.
Qed.

(** One turn of the scanner reads one field. *)
Lemma scan_field fuel pre f d tail values : value_ok f.2 -> ends d ->
  let sep := if Byte.eqb d COMMA then [COMMA] else [] in
  scan_loop (pre ++ json_field f ++ d :: tail) (S fuel) (length pre) values =
  scan_loop (pre ++ json_field f ++ d :: tail) fuel (length (pre ++ json_field f ++ sep)) (values ++ [shown f.2]).
Proof.
  intros Hv Hd sep. destruct f as [k v]. cbn [fst snd] in *. cbn [scan_loop].
  set (json := pre ++ json_field (k, v) ++ d :: tail).
  set (key := [DQUOTE] ++ json_escape k ++ [DQUOTE]).
  assert (E1 : json = pre ++ DQUOTE :: json_escape k ++ DQUOTE :: ":"%byte :: json_text v ++ d :: tail).
  { subst json. unfold json_field. cbn [app fst snd]. by rewrite <- !app_assoc. }
  assert (E2 : json = (pre ++ key) ++ ":"%byte :: json_text v ++ d :: tail).
  { rewrite E1. subst key. cbn [app]. rewrite <- !app_assoc. cbn [app]. by rewrite <- app_assoc. }
  assert (E3 : json = (pre ++ key ++ [":"%byte]) ++ json_text v ++ d :: tail).
  { rewrite E2. rewrite <- !app_assoc. done. }
  assert (E4 : json = (pre ++ json_field (k, v)) ++ d :: tail) by (subst json; by rewrite <- app_assoc).
  assert (Hi : skip json Lexer.is_ascii_whitespace (length pre) = length pre) by (rewrite E1, skip_at; simpl; lia).
  rewrite Hi. rewrite (proj2 (Nat.leb_gt _ _)) by (rewrite E1, length_app; simpl; lia).
  replace (at_byte json "}" (length pre)) with false by (by rewrite E1, byte_at).
  replace (at_byte json DQUOTE (length pre)) with true by (by rewrite E1, byte_at).
  cbn [orb].
  replace (length pre + 1 + key_len (drop (length pre + 1) json) + 1) with (length (pre ++ key))
    by (rewrite E1, drop_at, key_len_ok; subst key; rewrite !length_app; simpl; lia).
  replace (skip json _ (length (pre ++ key))) with (length (pre ++ key ++ [":"%byte]))
    by (rewrite E2, skip_at; cbn [Lexer.span]; rewrite span_value by done; rewrite !length_app; simpl; lia).
  rewrite E3 at 1. rewrite scan_value_ok by done. cbn [obind fst snd].
  replace ((pre ++ key ++ [":"%byte]) ++ json_text v) with (pre ++ json_field (k, v))
    by (unfold json_field; subst key; cbn [fst snd app]; rewrite <- !app_assoc; cbn [app]; by rewrite <- app_assoc).
  replace (skip json Lexer.is_ascii_whitespace (length (pre ++ json_field (k, v)))) with (length (pre ++ json_field (k, v)))
    by (rewrite E4, skip_at; destruct Hd as [-> | ->]; simpl; lia).
  replace (at_byte json COMMA (length (pre ++ json_field (k, v)))) with (Byte.eqb d COMMA)
    by (rewrite E4, byte_at; by destruct Hd as [-> | ->]).
  f_equal. subst sep. rewrite !length_app. destruct (Byte.eqb d COMMA); simpl; lia.
Qed.

Lemma scan_fields row : forall fuel pre values,
  Forall (fun f => value_ok f.2) row -> length row < fuel ->
  scan_loop (pre ++ join [COMMA] (map json_field row) ++ lit "}") fuel (length pre) values =
  Ok (values ++ map shown (map snd row)).
Proof.
  induction row as [|f row IH]; intros fuel pre values Hr Hf; (destruct fuel as [|fuel]; [simpl in Hf; lia|]).
  - cbn [map join app scan_loop]. rewrite skip_at. cbn. rewrite Nat.add_0_r, byte_at.
    rewrite orb_true_r, app_nil_r. done.
  - apply Forall_cons in Hr as [Hv Hr]. simpl in Hf. destruct row as [|f' row].
    + cbn [map join]. change (lit "}") with ["}"%byte]. rewrite scan_field by (done || by right).
      specialize (IH fuel (pre ++ json_field f) (values ++ [shown f.2]) Hr ltac:(simpl; lia)).
      cbn [map join app] in IH. change (Byte.eqb "}" COMMA) with false. cbn [map]. rewrite app_nil_r.
      rewrite <- app_assoc in IH. change (lit "}") with ["}"%byte] in IH. rewrite IH, app_nil_r. done.
    + change (join [COMMA] (map json_field (f :: f' :: row)))
        with (json_field f ++ COMMA :: join [COMMA] (map json_field (f' :: row))).
      rewrite <- app_assoc. cbn [app]. rewrite scan_field by (done || by left).
      specialize (IH fuel (pre ++ json_field f ++ [COMMA]) (values ++ [shown f.2]) Hr ltac:(simpl in *; lia)).
      change (Byte.eqb COMMA COMMA) with true. cbn [map] in *.
      rewrite <- !app_assoc in IH. cbn [app] in IH. rewrite IH. done.
Qed.

(** the scanner ends on every row of numbers, ASCII texts and
    nulls that the server renders, whatever its columns are called, and returns the
    values as the corpus writes them; one turn per column and one more are enough. *)
Theorem rows_are_extracted row fuel :
  Forall (fun f => value_ok f.2) row -> length row < fuel ->
  extract_json_row_values (row_to_json row) fuel = Ok (map shown (map snd row)).
Proof. intros Hr Hf. apply (scan_fields row fuel (lit "{") []); done. Qed.

Lemma rows_are_extracted_witness :
  let row := [(lit "id", JNumber (lit "-7")); ([DQUOTE; ","%byte], JText (lit "null" ++ [DQUOTE] ++ lit "}, :")); (lit "z", JNull)] in
  4 < 5 /\ extract_json_row_values (row_to_json row) 5 = Ok [lit "-7"; lit "null" ++ [DQUOTE] ++ lit "}, :"; lit "NULL"].
Proof.
  intros row. split; [lia|]. apply (rows_are_extracted row 5); [|simpl; lia].
  repeat constructor; vm_compute; done.
Defined.

(** *** What the scanner does on other rows *)

Definition boolean_row : str := lit "{" ++ [DQUOTE] ++ lit "a" ++ [DQUOTE] ++ lit ":true}".

(** On a boolean the scanner stays where it is and collects empty values, for ever. *)
Lemma boolean_stalls fuel : forall values, scan_loop boolean_row fuel 5 values = Err OutOfFuel.
Proof.
  induction fuel as [|fuel IH]; intros values; [done|].
  assert (E : scan_value boolean_row 5 = Ok ([], 5)) by reflexivity.
  cbn [scan_loop]. change (skip boolean_row Lexer.is_ascii_whitespace 5) with 5.
  change ((length boolean_row <=? 5) || at_byte boolean_row "}" 5) with false. cbv iota.
  change (at_byte boolean_row DQUOTE 5) with false. cbv iota zeta.
  change (skip boolean_row (fun b => Lexer.is_ascii_whitespace b || Byte.eqb b ":") 5) with 5.
  rewrite E. cbn [obind fst snd]. apply IH.
Qed.

Theorem booleans_hang_the_oracle fuel : extract_json_row_values boolean_row fuel = Err OutOfFuel.
Proof. destruct fuel as [|fuel]; [done|]. exact (boolean_stalls fuel [[]]). Qed.

(** The bytes of a character beyond ASCII become a character each. *)
Example text_is_read_as_latin1 :
  extract_json_row_values (row_to_json [(lit "a", JText [xc3; xa9])]) 5 = Ok [[xc3; x83; xc2; xa9]].
Proof. reflexivity. Qed.

(** A corpus file. *)
Example parse_directives_ex :
  parse_directives (lit "# c" ++ [x0a] ++ lit "statement ok" ++ [x0a] ++ lit "CREATE TABLE t (a INT)" ++ [x0a; x0a] ++
    lit "query I" ++ [x0d; x0a] ++ lit "SELECT a" ++ [x0a] ++ lit "FROM t order by a" ++ [x0a] ++ lit "----" ++ [x0a] ++ lit "1  2" ++ [x0a]) =
  Ok [StatementOk (lit "CREATE TABLE t (a INT)") 2;
      Query (lit "SELECT a FROM t order by a") (lit "I") [[lit "1"; lit "2"]] true 5].
Proof. reflexivity. Qed.

End PgOracle.
