(* ===== verification/Explain.v ===== *)
(** * Explain: [explain_plan] of [crates/tpt-archon-relational/src/explain.rs]

    The text of a query's physical plan.  The derived [Debug] of expressions is a
    parameter.  The functions under the feature [gpu] are in Gpu. *)
From Stdlib Require Import ZArith Lia Strings.Byte Strings.String.
From stdpp Require Import base numbers option list.
From S2P Require Import Prelude Ast Lexer Parser Planner Repl.

(** [format!("{:?}", expr)]. *)
Class DebugExpr : Type := expr_debug : Ast.Expr -> Ast.str.

Module Explain.
Import Ast(str, lit).
Import Repl(join, LF).

Section Explain.
Context `{Lexer.Fmt} `{DebugExpr}.

Definition func_debug (f : Ast.AggregateFunc) : str :=
  match f with
  | Ast.Count => lit "Count"
  | Ast.Sum => lit "Sum"
  | Ast.Avg => lit "Avg"
  | Ast.Min => lit "Min"
  | Ast.Max => lit "Max"
  end.

Definition bool_display (b : bool) : str := if b then lit "true" else lit "false".

Definition order_text (ob : Ast.OrderBy) : str :=
  Ast.ob_column ob ++ (if Ast.descending ob then lit " DESC" else lit " ASC").

Definition aggregate_text (a : str * Ast.AggregateFunc * str) : str :=
  let '(alias, func, col) := a in func_debug func ++ lit "(" ++ col ++ lit ") AS " ++ alias.

(** The line of a node, without its indentation. *)
Definition label (node : Planner.PlanNode) : str :=
  match node with
  | Planner.Scan table vectorized =>
      lit "Scan { table: " ++ table ++ lit ", vectorized: " ++ bool_display vectorized ++ lit " }"
  | Planner.Filter expr _ => lit "Filter { " ++ expr_debug expr ++ lit " }"
  | Planner.Project columns star _ =>
      lit "Project { " ++ (if star then lit "*" else join (lit ", ") columns) ++ lit " }"
  | Planner.Limit n _ => lit "Limit { n: " ++ Lexer.int_to_string n ++ lit " }"
  | Planner.Sort columns _ => lit "Sort { " ++ join (lit ", ") (map order_text columns) ++ lit " }"
  | Planner.Aggregate group_by aggregates having _ =>
      lit "Aggregate { group_by: [" ++
      match group_by with [] => lit "none" | _ => join (lit ", ") group_by end ++
      lit "], aggs: [" ++ join (lit ", ") (map aggregate_text aggregates) ++ lit "]" ++
      match having with Some e => lit ", having: " ++ expr_debug e | None => [] end ++ lit " }"
  | Planner.SubqueryScan _ alias => lit "SubqueryScan { alias: " ++ alias ++ lit " }"
  end.

Definition indent (depth : nat) : str := concat (replicate depth (lit "  ")).

Fixpoint render_node (node : Planner.PlanNode) (depth : nat) : str :=
  indent depth ++ label node ++ [LF] ++
  match node with
  | Planner.Scan _ _ => []
  | Planner.Filter _ input | Planner.Project _ _ input | Planner.Limit _ input
  | Planner.Sort _ input | Planner.Aggregate _ _ _ input => render_node input (depth + 1)
  | Planner.SubqueryScan (Planner.mkPlan root _ _) _ => render_node root (depth + 1)
  end.

Definition dispatch_text (d : Planner.Dispatch) : str :=
  match d with Planner.Cpu => lit "CPU" | Planner.Gpu => lit "GPU (TPTIR emission)" end.

(** Parse errors are the caller's; the planner's arithmetic can panic. *)
Definition explain_plan (gpu : bool) (sql : str) (stats : Planner.TableStats) : outcome Lexer.ParseError str :=
  match Parser.parse_select sql with
  | Ok stmt =>
      match Planner.plan_select gpu stmt stats with
      | Ok plan =>
          Ok (lit "Plan:" ++ [LF] ++ render_node (Planner.root plan) 1 ++
              lit "estimated_rows: " ++ Lexer.int_to_string (Planner.estimated_rows plan) ++ [LF] ++
              lit "dispatch: " ++ dispatch_text (Planner.dispatch plan) ++ [LF])
      | _ => Panic
      end
  | Err e => Err e
  | Panic => Panic
  end.

(** ** What the text shows *)

(** The nodes of a plan from its root to its scan. *)
Fixpoint chain (node : Planner.PlanNode) : list Planner.PlanNode :=
  node ::
  match node with
  | Planner.Scan _ _ => []
  | Planner.Filter _ input | Planner.Project _ _ input | Planner.Limit _ input
  | Planner.Sort _ input | Planner.Aggregate _ _ _ input => chain input
  | Planner.SubqueryScan (Planner.mkPlan root _ _) _ => chain root
  end.

(** One line per node, each indented one step further than the node it feeds. *)
Theorem plan_is_rendered_node_by_node : forall node depth,
  render_node node depth =
  concat (imap (fun i n => indent (depth + i) ++ label n ++ [LF]) (chain node)).
Proof.
  assert (Hstep : forall n0 depth l,
    concat (imap (fun i n => indent (depth + i) ++ label n ++ [LF]) (n0 :: l)) =
    indent depth ++ label n0 ++ [LF] ++
    concat (imap (fun i n => indent (depth + 1 + i) ++ label n ++ [LF]) l)).
  { intros n0 depth l. cbn [imap concat]. rewrite Nat.add_0_r, <- !app_assoc. do 3 f_equal.
    f_equal. apply imap_ext. intros i n _. simpl. by rewrite <- Nat.add_assoc. }
  fix IH 1. intros node depth. destruct node as [t v|e i|c s i|n i|c i|g a h i|[r er d] al];
    cbn [render_node chain]; rewrite Hstep; f_equal; f_equal; f_equal; first [done|apply IH].
Qed.

End Explain.
End Explain.
