(* ===== verification/Gpu.v ===== *)
(** * Gpu: GPU lowering of [crates/tpt-archon-relational/src/gpu.rs]

    The regions that a plan is lowered to, and the functions of [explain.rs] under
    the feature [gpu] that show them.  Instructions, blocks and regions have the
    fields that the code gives them; the types, the operations and the emitter of
    the crate [tpt_gpu_ir_spec] are the class [Ir]. *)
From Stdlib Require Import ZArith Lia Strings.Byte Strings.String.
From stdpp Require Import base numbers option list.
From S2P Require Import Prelude Ast Lexer Parser Planner Repl Explain.

Module Gpu.
Import Ast(str, lit, AggregateFunc).
Import Planner(PlanNode, Plan).

Section Regions.
Context {Op Ty : Type}.

Record Instruction : Type := mkInstruction {
  result : option str;
  op : Op;
  operands : list str;
  attrs : list (str * str);
  result_type : option Ty;
}.

Record Block : Type := mkBlock { label : str; instructions : list Instruction }.

Record Region : Type := mkRegion {
  name : str;
  args : list (str * Ty);
  return_types : list Ty;
  blocks : list Block;
}.

End Regions.
Arguments Instruction : clear implicits.
Arguments Block : clear implicits.
Arguments Region : clear implicits.

(** What the code uses of the crate: [emit] has the default options. *)
Class Ir : Type := {
  ElemType : Type; F32 : ElemType; I64 : ElemType;
  AddressSpace : Type; Global : AddressSpace;
  Ty : Type;
  scalar : ElemType -> Ty;
  memref : list Z -> Ty -> AddressSpace -> Ty;
  tensor : list Z -> Ty -> AddressSpace -> Ty;
  Op : Type;
  Load : Op; ReduceSum : Op; ReduceMin : Op; ReduceMax : Op; Constant : Op; Divf : Op; Return : Op;
  Custom : str -> Op;
  emit : Region Op Ty -> str;
}.

Section Lowering.
Context `{Ir}.

Abbreviation instruction := (Instruction Op Ty).
Abbreviation region := (Region Op Ty).

(** [n as i64]. *)
Definition load_col (n : Z) : Ty * Ty * instruction :=
  let f32_ty := scalar F32 in
  let mem := memref [wrap_i64 n] f32_ty Global in
  let tens := tensor [wrap_i64 n] f32_ty Global in
  (mem, tens, mkInstruction (Some (lit "vals")) Load [lit "col"] [] (Some tens)).

Definition reduce (res : string) (o : Op) (ty : Ty) : instruction :=
  mkInstruction (Some (lit res)) o [lit "vals"] [] (Some ty).

Definition ret (val : string) : instruction := mkInstruction None Return [lit val] [] None.

Definition lower_topk (n : Z) : region :=
  let '(mem, _, load) := load_col n in
  let f32_ty := scalar F32 in
  mkRegion (lit "vector_topk") [(lit "embeddings", mem)] [f32_ty]
    [mkBlock (lit "entry") [load; reduce "best" ReduceMax f32_ty; ret "best"]].

Definition emit_topk (n : Z) : str := emit (lower_topk n).

Definition lower_aggregate (func : AggregateFunc) (n : Z) : region :=
  let '(mem, _, load) := load_col n in
  let f32_ty := scalar F32 in
  let i64_ty := scalar I64 in
  let '(nm, ret_ty, tl) :=
    match func with
    | Ast.Sum => ("aggregate_sum", f32_ty, [reduce "sum" ReduceSum f32_ty; ret "sum"])
    | Ast.Min => ("aggregate_min", f32_ty, [reduce "min" ReduceMin f32_ty; ret "min"])
    | Ast.Max => ("aggregate_max", f32_ty, [reduce "max" ReduceMax f32_ty; ret "max"])
    | Ast.Count =>
        ("aggregate_count", i64_ty,
         [mkInstruction (Some (lit "cnt")) (Custom (lit "count")) [lit "vals"] [] (Some i64_ty); ret "cnt"])
    | Ast.Avg =>
        ("aggregate_avg", f32_ty,
         [reduce "sum" ReduceSum f32_ty;
          mkInstruction (Some (lit "n")) Constant [] [(lit "value", Lexer.int_to_string n)] (Some f32_ty);
          mkInstruction (Some (lit "avg")) Divf [lit "sum"; lit "n"] [] (Some f32_ty);
          ret "avg"])
    end%string in
  mkRegion (lit nm) [(lit "col", mem)] [ret_ty] [mkBlock (lit "entry") (load :: tl)].

Definition emit_aggregate (func : AggregateFunc) (n : Z) : str := emit (lower_aggregate func n).

Fixpoint find_aggregate (node : PlanNode) : option PlanNode :=
  match node with
  | Planner.Aggregate _ _ _ _ => Some node
  | Planner.Scan _ _ | Planner.SubqueryScan _ _ => None
  | Planner.Filter _ input | Planner.Project _ _ input | Planner.Limit _ input | Planner.Sort _ input =>
      find_aggregate input
  end.

Definition emit_for_plan (plan : Plan) : option str :=
  match find_aggregate (Planner.root plan) with
  | Some (Planner.Aggregate _ [(_, func, _)] _ _) => Some (emit_aggregate func (Z.max (Planner.estimated_rows plan) 1))
  | _ => None
  end.

(** ** [explain.rs] with the feature [gpu] *)

Definition scan_rows (plan : Plan) : Z := Z.max (Planner.estimated_rows plan) 1.

(** The text with the number of rows that it was made for. *)
Definition gpu_text (plan : Plan) : str :=
  match Planner.dispatch plan with
  | Planner.Gpu =>
      lit "GPU IR (TPTIR, emitted " ++ [xe2; x80; x94] ++ lit " not executed):" ++ [Repl.LF] ++
      match emit_for_plan plan with
      | Some tptir => tptir
      | None => emit_topk (scan_rows plan)
      end
  | Planner.Cpu =>
      lit "GPU IR: not emitted (dispatch is CPU; build with `gpu` feature and a large enough scan to enable GPU dispatch)."
      ++ [Repl.LF]
  end.

Definition explain_gpu `{Lexer.Fmt} `{DebugExpr} (sql : str) (stats : Planner.TableStats) : outcome Lexer.ParseError str :=
  match Parser.parse_select sql with
  | Ok stmt =>
      match Planner.plan_select true stmt stats with
      | Ok plan =>
          match Explain.explain_plan true sql stats with
          | Ok out => Ok (out ++ [Repl.LF] ++ gpu_text plan)
          | other => other
          end
      | _ => Panic
      end
  | Err e => Err e
  | Panic => Panic
  end.

Definition explain_gpu_scan (n : Z) : str := emit_topk n.

(** ** Names *)

(** Each instruction reads names that are defined before it, and defines a new
    one. *)
Fixpoint scoped (names : list str) (l : list instruction) : bool :=
  match l with
  | [] => true
  | i :: l =>
      forallb (fun o => bool_decide (o ∈ names)) (operands i) &&
      match result i with
      | Some r => negb (bool_decide (r ∈ names)) && scoped (r :: names) l
      | None => scoped names l
      end
  end.

Definition well_scoped (r : region) : bool := forallb (fun b => scoped (map fst (args r)) (instructions b)) (blocks r).

(** The type of a name. *)
Definition type_of (r : region) (l : list instruction) (n : str) : option Ty :=
  match list_find (fun i => result i = Some n) l with
  | Some (_, i) => result_type i
  | None => (fun p => p.2.2) <$> list_find (fun a => a.1 = n) (args r)
  end.

(** A block ends by returning one value, of the region's type. *)
Definition returns (r : region) (b : Block Op Ty) : Prop :=
  exists l o, instructions b = l ++ [mkInstruction None Return [o] [] None] /\
    Forall (fun i => is_Some (result i)) l /\ Some <$> return_types r = [type_of r l o].

Definition well_formed (r : region) : Prop := well_scoped r = true /\ Forall (returns r) (blocks r).

(** The region of an aggregate, for any number of rows. *)
Theorem aggregate_regions_are_well_formed func n : well_formed (lower_aggregate func n).
Proof.
  split; [by destruct func|]. destruct func; constructor; try constructor.
  all: match goal with |- returns _ ?b => set (l0 := instructions b) end.
  all: exists (removelast l0); subst l0; eexists; cbn; split; [reflexivity|split; [repeat constructor; eauto|reflexivity]].
Qed.

(** The region of a top-k scan reads [col], but its argument is [embeddings]. *)
Theorem topk_reads_an_undefined_name n : well_scoped (lower_topk n) = false.
Proof. reflexivity. Qed.

(** ** Plans *)

(** What a planned query is lowered to: its aggregate, when it has exactly one. *)
Theorem the_only_aggregate_is_emitted gpu stmt stats plan :
  Planner.plan_select gpu stmt stats = Ok plan ->
  emit_for_plan plan =
  match Ast.aggregates stmt with
  | [(_, func, _)] => Some (emit_aggregate func (Z.max (Planner.estimated_rows plan) 1))
  | _ => None
  end.
Proof.
  unfold Planner.plan_select. cbv zeta.
  set (filtered := match Ast.filter stmt with Some _ => _ | None => _ end).
  assert (Hnode : forall e nd, filtered = Ok (e, nd) -> find_aggregate nd = None).
  { intros e nd. unfold filtered. destruct (Ast.filter stmt) as [f|]; [|intros [= <- <-]; reflexivity].
    destruct (Planner.selectivity f) as [num den]. destruct (Planner.div_ceil _ _); [|done|done].
    intros [= <- <-]. reflexivity. }
  destruct filtered as [[e nd]| |]; [|done|done]. specialize (Hnode e nd eq_refl).
  destruct (bool_decide (Ast.group_by stmt = [])), (Ast.aggregates stmt) as [|[[a f] c] [|]];
    rewrite ?(bool_decide_true (length [] = 0)), ?bool_decide_false by done; cbn [andb];
    destruct (Ast.order_by stmt), (Ast.limit stmt); intros [= <-]; unfold emit_for_plan;
    cbn [Planner.root find_aggregate]; rewrite ?Hnode; reflexivity.
Qed.

(** The number of rows of a region is the plan's estimate of the rows of its
    result: under [LIMIT 1] an average over any number of rows is one over a
    column of one row, and is divided by one. *)
Theorem a_limit_shrinks_the_column stmt stats plan alias func column :
  Planner.plan_select true stmt stats = Ok plan ->
  (Planner.GPU_ROW_THRESHOLD <= Planner.row_count stats)%Z ->
  Ast.aggregates stmt = [(alias, func, column)] -> Ast.limit stmt = Some 1%Z ->
  Planner.dispatch plan = Planner.Gpu /\ emit_for_plan plan = Some (emit_aggregate func 1).
Proof.
  intros Hp Hrows Ha Hl. rewrite (the_only_aggregate_is_emitted _ _ _ _ Hp), Ha.
  assert (Hgpu : Planner.dispatch plan = Planner.Gpu /\ (Planner.estimated_rows plan <= 1)%Z).
  { revert Hp. unfold Planner.plan_select. cbv zeta. rewrite Hl.
    destruct (match Ast.filter stmt with Some _ => _ | None => _ end) as [[e nd]| |]; [|done|done].
    destruct (if bool_decide (Ast.group_by stmt = []) && _ then _ else _) as [e' nd'].
    rewrite (proj2 (Z.leb_le _ _)) by done. intros [= <-]. cbn. split; [done|lia]. }
  destruct Hgpu as [-> He]. split; [done|]. by rewrite Z.max_r.
Qed.

End Lowering.
End Gpu.
