(* ===== verification/Bindings.v ===== *)
(** * Bindings: the engine in Node.js, Python and the browser

    [crates/out-archon-node/src/lib.rs], [crates/out-archon-py/src/lib.rs] and
    [crates/out-archon-wasm/src/lib.rs]: a statement is parsed and executed, and
    its rows become values of the language.  The text of a JSON document is
    [serde_json]'s and a parameter. *)
From Stdlib Require Import ZArith Lia Strings.Byte Strings.String Floats.SpecFloat.
From stdpp Require Import base numbers option list gmap.
From S2P Require Import Prelude Ast Value Lexer Aggregate Codec Parser Db Dml Engine PgText PgError Repl.

(** ** Values of the languages *)

Module Bindings.
Import Ast(str, lit, f32).
Import Value(Value, Row, ResultSet).
Import Aggregate(f64, f64_of_f32, f32_of_f64).
Import Codec(DbError).

(** The JSON values of cells. *)
Inductive JsonValue : Type :=
| JNull
| JBool (b : bool)
| JInt (i : Z)
| JFloat (f : f64)
| JString (s : str)
| JArray (l : list JsonValue).

(** [Number::from_f64]: no infinities, no NaN. *)
Definition from_f64 (f : f64) : option f64 :=
  match f with S754_infinity _ | S754_nan => None | _ => Some f end.

Definition float_to_json (f : f32) : JsonValue :=
  match from_f64 (f64_of_f32 f) with Some n => JFloat n | None => JNull end.

(** Python's. *)
Inductive PyValue : Type :=
| PyNone
| PyBool (b : bool)
| PyInt (i : Z)
| PyFloat (f : f64)
| PyStr (s : str)
| PyList (l : list f64).

(** Python's [dict], in the order in which its keys came. *)
Fixpoint set_item {A} (k : str) (v : A) (d : list (str * A)) : list (str * A) :=
  match d with
  | [] => [(k, v)]
  | (k', v') :: d => if decide (k' = k) then (k', v) :: d else (k', v') :: set_item k v d
  end.

(** What a binding throws.  [Py] has an exception for each of the two. *)
Inductive Thrown : Type := ParseFailed (msg : str) | ExecutionFailed (msg : str).

Abbreviation B := (M Db.Database Thrown).

Section Bindings.
Context `{Lexer.Fmt} `{DebugValue} `{PgError.DebugExec}.
Context (fuel : nat) (gpu : bool).

(** The table of messages is the shell's, in each of the three. *)
Definition node_fmt_db_error : DbError -> str := Repl.fmt_db_error.
Definition py_format_db_error : DbError -> str := Repl.fmt_db_error.
Definition wasm_fmt_db_error : DbError -> str := Repl.fmt_db_error.

(** [parse_statement(sql)] with its error mapped. *)
Definition parse (wrap : str -> Thrown) (sql : str) : B Ast.Statement := fun db =>
  match Parser.parse_statement sql with
  | Ok stmt => (Ok stmt, db)
  | Err (Lexer.mkParseError msg) => (Err (wrap msg), db)
  | Panic => (Panic, db)
  end.

(** [db.execute(..)] with its error mapped; an overflowing stack ends the
    process. *)
Definition run (fmt : DbError -> str) (stmt : Ast.Statement) (params : list (list f32)) : B ResultSet := fun db =>
  match Engine.execute fuel gpu stmt params db with
  | (Ok rs, db) => (Ok rs, db)
  | (Err (Db.Db e), db) => (Err (ExecutionFailed (fmt e)), db)
  | (Err Db.StackOverflow, db) | (Panic, db) => (Panic, db)
  end.

(** ** Node.js *)

Definition node_value_to_json (v : Value) : JsonValue :=
  match v with
  | Value.Int i => JInt i
  | Value.Float f => float_to_json f
  | Value.Text s => JString s
  | Value.Vector v => JArray (map float_to_json v)
  | Value.Bool b => JBool b
  | Value.Null => JNull
  end.

(** A row as an object: a later column replaces an earlier one of its name. *)
Definition row_object (columns : list str) (row : Row) : gmap str JsonValue :=
  foldl (fun obj p => <[p.1 := node_value_to_json p.2]> obj) ∅ (zip columns row).

(** The array of objects. *)
Definition node_execute (sql : str) (vector_params : option (list (list f64))) : B (list (gmap str JsonValue)) :=
  stmt ← parse (fun msg => ParseFailed (lit "parse error: " ++ msg)) sql;
  let params := map (map f32_of_f64) (default [] vector_params) in
  rs ← run node_fmt_db_error stmt params;
  mret (map (row_object (Value.columns rs)) (Value.rows rs)).

Definition node_table_names (db : Db.Database) : list str := Db.table_names db.

(** ** Python *)

Definition value_to_py (v : Value) : PyValue :=
  match v with
  | Value.Int i => PyInt i
  | Value.Float f => PyFloat (f64_of_f32 f)
  | Value.Text s => PyStr s
  | Value.Vector v => PyList (map f64_of_f32 v)
  | Value.Bool b => PyBool b
  | Value.Null => PyNone
  end.

Definition row_dict (columns : list str) (row : Row) : list (str * PyValue) :=
  foldl (fun d p => set_item p.1 (value_to_py p.2) d) [] (zip columns row).

Definition py_execute (sql : str) (params : option (list (list f32))) : B (list (list (str * PyValue))) :=
  stmt ← parse ParseFailed sql;
  rs ← run py_format_db_error stmt (default [] params);
  mret (map (row_dict (Value.columns rs)) (Value.rows rs)).

Definition tables (db : Db.Database) : list str := Db.table_names db.

Definition column_type_name (ty : Ast.ColumnType) : str :=
  match ty with
  | Ast.TInt => lit "INT"
  | Ast.TBoolean => lit "BOOLEAN"
  | Ast.TFloat => lit "FLOAT"
  | Ast.TDouble => lit "DOUBLE"
  | Ast.TNumeric => lit "NUMERIC"
  | Ast.TText => lit "TEXT"
  | Ast.TVarchar _ => lit "VARCHAR"
  | Ast.TDate => lit "DATE"
  | Ast.TTimestamp => lit "TIMESTAMP"
  | Ast.TVector => lit "VECTOR"
  end.

Definition schema (table : str) (db : Db.Database) : option (list (str * str)) :=
  (fun s => zip (Codec.columns s) (map column_type_name (Codec.types s))) <$> Db.table_schema table db.

(** ** The browser *)

(** [serde_json::json!(f)] of a float that is not finite is null. *)
Definition wasm_value_to_json (v : Value) : JsonValue :=
  match v with
  | Value.Int i => JInt i
  | Value.Float f => float_to_json f
  | Value.Text s => JString s
  | Value.Vector v => JArray (map float_to_json v)
  | Value.Bool b => JBool b
  | Value.Null => JNull
  end.

(** The text of the object with the fields [columns] and [rows]. *)
Context (json_text : list str -> list (list JsonValue) -> str).

Definition result_set_to_json (rs : ResultSet) : str :=
  json_text (Value.columns rs) (map (map wasm_value_to_json) (Value.rows rs)).

Definition wasm_execute (sql : str) : B str :=
  let sql := PgText.trim (PgText.trim_end_matches ";" (PgText.trim sql)) in
  stmt ← parse ParseFailed sql;
  rs ← run wasm_fmt_db_error stmt [];
  mret (result_set_to_json rs).

(** ** Rows *)

(** The last cell of a column's name. *)
Definition last_cell (c : str) (cells : list (str * Value)) : option Value :=
  foldl (fun r p => if decide (p.1 = c) then Some p.2 else r) None cells.

Lemma row_object_lookup columns row c :
  row_object columns row !! c = node_value_to_json <$> last_cell c (zip columns row).
Proof.
  unfold row_object, last_cell. generalize (zip columns row). intros l.
  assert (Hg : forall (o : gmap str JsonValue) r, o !! c = node_value_to_json <$> r ->
    foldl (fun obj p => <[p.1 := node_value_to_json p.2]> obj) o l !! c =
    node_value_to_json <$> foldl (fun r p => if decide (p.1 = c) then Some p.2 else r) r l).
  { induction l as [|[c' v] l IH]; intros o r Ho; [done|]. cbn [foldl fst snd]. apply IH.
    case_decide as Hc; [subst c'; by rewrite lookup_insert_eq|by rewrite lookup_insert_ne]. }
  by apply Hg.
Qed.

Lemma row_object_dom columns row : length row = length columns ->
  dom (row_object columns row) = (list_to_set columns : gset str).
Proof.
  intros Hl. unfold row_object. rewrite <- (fst_zip columns row) at 2 by lia. generalize (zip columns row). intros l.
  assert (Hg : forall o : gmap str JsonValue,
    dom (foldl (fun obj p => <[p.1 := node_value_to_json p.2]> obj) o l) = (dom o ∪ list_to_set l.*1 : gset str)).
  { induction l as [|[c v] l IH]; intros o; cbn [foldl fst snd fmap list_fmap list_to_set]; [set_solver|].
    rewrite IH, dom_insert_L. set_solver. }
  rewrite Hg. set_solver.
Qed.

Lemma set_size_le (l : list str) : size (list_to_set l : gset str) <= length l.
Proof.
  induction l as [|x l IH]; cbn [list_to_set length]; [rewrite size_empty; lia|].
  destruct (decide (x ∈ l)) as [Hx|Hx].
  - replace ({[x]} ∪ list_to_set l : gset str) with (list_to_set l : gset str) by set_solver. lia.
  - rewrite size_union, size_singleton by set_solver. lia.
Qed.

Lemma set_size_all (l : list str) : size (list_to_set l : gset str) = length l <-> NoDup l.
Proof.
  split; [|apply size_list_to_set]. induction l as [|x l IH]; intros Hs; [constructor|]. cbn [list_to_set length] in Hs.
  destruct (decide (x ∈ l)) as [Hx|Hx].
  - exfalso. replace ({[x]} ∪ list_to_set l : gset str) with (list_to_set l : gset str) in Hs by set_solver.
    assert (H3 := set_size_le l). lia.
  - constructor; [done|]. apply IH. rewrite size_union in Hs by set_solver. rewrite size_singleton in Hs. lia.
Qed.

(** An object keeps every cell of a row exactly when no two columns have one
    name. *)
Theorem objects_keep_distinct_columns columns row : length row = length columns ->
  (size (row_object columns row) = length columns <-> NoDup columns).
Proof. intros Hl. rewrite <- set_size_all, <- row_object_dom with (row := row) by done. by rewrite <- size_dom. Qed.

Lemma set_item_new {A} k (v : A) d : k ∉ d.*1 -> set_item k v d = d ++ [(k, v)].
Proof.
  induction d as [|[k' v'] d IH]; [done|]. cbn. intros Hk. rewrite decide_False by set_solver. rewrite IH by set_solver. done.
Qed.

Lemma row_dict_distinct columns row : NoDup columns -> row_dict columns row = zip columns (map value_to_py row).
Proof.
  intros Hnd. unfold row_dict.
  assert (Hg : forall d : list (str * PyValue), (forall c, c ∈ columns -> c ∉ d.*1) ->
    foldl (fun d p => set_item p.1 (value_to_py p.2) d) d (zip columns row) = d ++ zip columns (map value_to_py row)).
  { revert row. induction Hnd as [|c cs Hc Hcs IH]; intros [|v vs] d Hd; cbn; rewrite ?app_nil_r; try done.
    rewrite set_item_new by (apply Hd; left). rewrite IH.
    - by rewrite <- app_assoc.
    - intros c' Hc'. rewrite fmap_app, elem_of_app. cbn. rewrite list_elem_of_singleton. intros [Hin| ->]; [|done].
      by apply (Hd c' (list_elem_of_further _ _ _ Hc')). }
  rewrite Hg; [done|]. intros c _. apply not_elem_of_nil.
Qed.

(** ** The front ends agree *)

(** Output leaves the shell's database alone. *)
Definition keeps_db {A} (c : Repl.S A) : Prop := forall s, Repl.db (c s).2 = Repl.db s.

Lemma keeps_db_bind {A C} (c : Repl.S A) (k : A -> Repl.S C) : keeps_db c -> (forall a, keeps_db (k a)) -> keeps_db (c ≫= k).
Proof.
  intros Hc Hk s. unfold mbind, M_bind. specialize (Hc s). destruct (c s) as [[a| |] s']; cbn in *; [|done|done].
  by rewrite Hk.
Qed.

Lemma keeps_db_panic {A} : keeps_db (m_panic : Repl.S A).
Proof. done. Qed.

Lemma keeps_db_print_lines ls : keeps_db (Repl.print_lines ls).
Proof. induction ls as [|l ls IH]; [done|]. cbn [Repl.print_lines]. by apply keeps_db_bind. Qed.

Lemma keeps_db_print_result_set `{FixedText} columns rows m : keeps_db (Repl.print_result_set columns rows m).
Proof.
  destruct m; cbn [Repl.print_result_set]; [|apply keeps_db_print_lines|done]. unfold Repl.print_result_set_table.
  destruct rows as [|r rows]; [done|]. destruct (Repl.widths_of _ _); [|apply keeps_db_panic|apply keeps_db_panic].
  apply keeps_db_bind; [apply keeps_db_print_lines|done].
Qed.

(** The database that a statement's text leaves. *)
Definition left_by (text : str) (params : list (list f32)) (db : Db.Database) : Db.Database :=
  match Parser.parse_statement text with
  | Ok stmt => (Engine.execute fuel gpu stmt params db).2
  | _ => db
  end.

Lemma run_leaves fmt wrap text params {A} (k : ResultSet -> A) db :
  ((stmt ← parse wrap text; rs ← run fmt stmt params; mret (k rs)) db).2 = left_by text params db.
Proof.
  unfold left_by, parse, run, mbind, M_bind. destruct (Parser.parse_statement text) as [stmt|[msg]|]; [|done|done].
  by destruct (Engine.execute fuel gpu stmt params db) as [[rs|[e|]|] d].
Qed.

Lemma shell_leaves `{FixedText} sql m s :
  Repl.db (Repl.run_one fuel gpu sql m s).2 =
  left_by (PgText.trim (PgText.trim_end_matches ";" (PgText.trim sql))) [] (Repl.db s).
Proof.
  unfold Repl.run_one, left_by. set (text := PgText.trim _). case_bool_decide as He.
  { rewrite He. reflexivity. }
  destruct (Parser.parse_statement text) as [stmt|[msg]|]; [|done|done].
  unfold mbind, M_bind, m_get. destruct (Engine.execute fuel gpu stmt [] (Repl.db s)) as [[rs|[e|]|] d]; try done.
  unfold Repl.set_db, m_modify. cbn [snd]. set (s1 := Repl.mkShell d _ _).
  destruct (Value.columns rs) as [|c cs]; [done|].
  assert (Hq := keeps_db_print_result_set (c :: cs) (Value.rows rs) m s1).
  by destruct (Repl.print_result_set _ _ _ s1) as [[[]| |] s2].
Qed.

(** one statement typed at the shell, or given without its
    semicolons to the bindings of Node.js, Python and the browser, leaves the
    same database; and what the bindings return are images of one result set,
    an object or a dict per row. *)
Theorem front_ends_agree `{FixedText} sql m s :
  let text := PgText.trim (PgText.trim_end_matches ";" (PgText.trim sql)) in
  let db := Repl.db s in
  let left_ := Repl.db (Repl.run_one fuel gpu sql m s).2 in
  (wasm_execute sql db).2 = left_ /\ (node_execute text None db).2 = left_ /\ (py_execute text None db).2 = left_ /\
  ((exists rs, (wasm_execute sql db).1 = Ok (result_set_to_json rs) /\
               (node_execute text None db).1 = Ok (map (row_object (Value.columns rs)) (Value.rows rs)) /\
               (py_execute text None db).1 = Ok (map (row_dict (Value.columns rs)) (Value.rows rs))) \/
   (exists e1 e2, (wasm_execute sql db).1 = Err e1 /\ (node_execute text None db).1 = Err e2 /\
                  (py_execute text None db).1 = Err e1) \/
   ((wasm_execute sql db).1 = Panic /\ (node_execute text None db).1 = Panic /\ (py_execute text None db).1 = Panic)).
Proof.
  cbv zeta. rewrite shell_leaves. unfold wasm_execute, node_execute, py_execute. rewrite !run_leaves.
  do 3 (split; [done|]). set (text := PgText.trim _). generalize (Repl.db s). intros db.
  unfold parse, run, mbind, M_bind. destruct (Parser.parse_statement text) as [stmt|[msg]|]; cbn [map default];
    [|right; left; eauto 6|by right; right].
  destruct (Engine.execute fuel gpu stmt [] db) as [[rs|[e|]|] d]; [left; eauto|right; left; eauto 6| |]; by right; right.
Qed.

End Bindings.
(** ** A repeated column *)

Section Repeated.
#[local] Instance no_text : Lexer.Fmt := {| Lexer.tok_debug _ := []; Lexer.f32_display _ := [] |}.
#[local] Instance no_value_text : DebugValue := fun _ => [].
#[local] Instance no_error_text : PgError.DebugExec := fun _ => [].

Definition after (sql : list string) : Db.Database :=
  foldl (fun db q => (node_execute 10 false (lit q) None db).2) Db.empty sql.

Definition some_rows : Db.Database := after ["CREATE TABLE t (a INT, b TEXT)"; "INSERT INTO t (a, b) VALUES (7, 'x')"]%string.

(** The row (7, x, 7) of three cells comes back as an object of two fields. *)
Example repeated_columns_are_lost :
  (py_execute 10 false (lit "SELECT a, b, a FROM t") None some_rows).1 = Ok [[(lit "a", PyInt 7); (lit "b", PyStr (lit "x"))]] /\
  (wasm_execute 10 false (fun columns _ => concat columns) (lit " SELECT a, b, a FROM t; ") some_rows).1 = Ok (lit "aba") /\
  (match (node_execute 10 false (lit "SELECT a, b, a FROM t") None some_rows).1 with
   | Ok l => map size l
   | _ => []
   end) = [2].
Proof. vm_compute. repeat split. Qed.

End Repeated.
End Bindings.
