(* ===== verification/PgBin.v ===== *)
(** * PgBin: the binaries of the wire-protocol crate and their TLS material

    [tls.rs], [bin/archon-backup.rs] and [bin/archon-pgwire.rs] of
    [crates/out-archon-pgwire/src].  The PEM parsers and the configuration of
    rustls, the text of paths and of I/O errors, and the reading of a file are
    parameters; a server that runs is the value that says which. *)
From Stdlib Require Import ZArith Lia Strings.Byte Strings.String.
From stdpp Require Import base numbers option list gmap.
From S2P Require Import Prelude Ast PgBackup Repl.

(** ** TLS material *)

Module PgTlsConfig.
Import Ast(str, lit).

Abbreviation bytes := (list byte).

(** [rustls_pemfile]'s parsers, [None] for their errors, and the builder's
    [with_single_cert]. *)
Class Rustls : Type := {
  pem_certs : bytes -> option (list bytes);
  pkcs8_private_keys : bytes -> option (list bytes);
  rsa_private_keys : bytes -> option (list bytes);
  ec_private_keys : bytes -> option (list bytes);
  ServerConfig : Type;
  with_single_cert : list bytes -> bytes -> option ServerConfig;
}.

Record TlsConfig : Type := mkTlsConfig { cert_chain : bytes; key : bytes }.

Inductive TlsError : Type := Unreadable (path : str) | BadCerts | NoCertificates | NoPrivateKey | Rejected.

(** [std::fs::read]. *)
Definition from_pem_files (read : str -> option bytes) (cert_path key_path : str) : outcome TlsError TlsConfig :=
  match read cert_path with
  | None => Err (Unreadable cert_path)
  | Some c => match read key_path with None => Err (Unreadable key_path) | Some k => Ok (mkTlsConfig c k) end
  end.

Section Config.
Context `{Rustls}.

(** The loop over the parsers: [keys.pop()] takes the last of the keys. *)
Fixpoint first_parsed (parsers : list (bytes -> option (list bytes))) (pem : bytes) : option bytes :=
  match parsers with
  | [] => None
  | parser :: parsers =>
      match parser pem ≫= last with Some k => Some k | None => first_parsed parsers pem end
  end.

Definition load_private_key (pem : bytes) : option bytes :=
  first_parsed [pkcs8_private_keys; rsa_private_keys; ec_private_keys] pem.

Definition into_server_config (c : TlsConfig) : outcome TlsError ServerConfig :=
  match pem_certs (cert_chain c) with
  | None => Err BadCerts
  | Some [] => Err NoCertificates
  | Some certs =>
      match load_private_key (key c) with
      | None => Err NoPrivateKey
      | Some k => match with_single_cert certs k with Some cfg => Ok cfg | None => Err Rejected end
      end
  end.

(** The key that is used: the last one of the first format that has any. *)
Theorem load_private_key_takes_the_last pem k : load_private_key pem = Some k <->
  exists before parser after keys,
    [pkcs8_private_keys; rsa_private_keys; ec_private_keys] = before ++ parser :: after /\
    Forall (fun p => match p pem with Some (_ :: _) => False | _ => True end) before /\
    parser pem = Some (keys ++ [k]).
Proof.
  unfold load_private_key. generalize [pkcs8_private_keys; rsa_private_keys; ec_private_keys]. intros ps. split.
  - induction ps as [|p ps IH]; [done|]. cbn [first_parsed]. destruct (p pem ≫= last) as [k'|] eqn:E.
    + intros [= ->]. apply bind_Some in E as (l & Ep & (l' & ->)%last_Some). exists [], p, ps, l'. by repeat split.
    + intros Hf. destruct (IH Hf) as (b & q & a & l & -> & Hb & Hq). exists (p :: b), q, a, l. split; [done|].
      split; [constructor; [|done]|done]. destruct (p pem) as [[|x l']|]; try done.
      cbn in E. apply last_None in E. done.
  - intros (b & q & a & l & -> & Hb & Hq). induction Hb as [|p b Hp Hb IH]; cbn [app first_parsed].
    + rewrite Hq. cbn. by rewrite last_snoc.
    + destruct (p pem) as [[|x l']|]; [cbn; apply IH|done|cbn; apply IH].
Qed.

(** A chain without certificates is refused before any key is read. *)
Theorem empty_chain_is_refused c : pem_certs (cert_chain c) = Some [] -> into_server_config c = Err NoCertificates.
Proof. intros E. unfold into_server_config. by rewrite E. Qed.

End Config.
End PgTlsConfig.

(** ** archon-pgwire *)

Module PgMain.
Import Ast(str, lit).
Import PgTlsConfig.

Record Args : Type := mkArgs {
  host : str; port : str; tls_cert : option str; tls_key : option str;
  unknown : list str;
}.

Definition defaults : Args := mkArgs (lit "127.0.0.1") (lit "5432") None None [].

(** A flag at the end of the arguments has no value and no effect. *)
Fixpoint parse_args (args : list str) (a : Args) : Args :=
  match args with
  | [] => a
  | f :: rest =>
      let '(mkArgs h p c k u) := a in
      if decide (f = lit "--host") then
        match rest with v :: rest => parse_args rest (mkArgs v p c k u) | [] => a end
      else if decide (f = lit "--port") then
        match rest with v :: rest => parse_args rest (mkArgs h v c k u) | [] => a end
      else if decide (f = lit "--tls-cert") then
        match rest with v :: rest => parse_args rest (mkArgs h p (Some v) k u) | [] => a end
      else if decide (f = lit "--tls-key") then
        match rest with v :: rest => parse_args rest (mkArgs h p c (Some v) u) | [] => a end
      else parse_args rest (mkArgs h p c k (u ++ [f]))
  end.

(** How the process goes on: a server over an empty database, or an error. *)
Inductive Start {Config : Type} : Type :=
| Serve (addr : str) (warned : bool)
| ServeTls (addr : str) (config : Config)
| Fails (e : TlsError).
Arguments Start : clear implicits.

(** [tls] is the crate's feature; [args] has the program's name first. *)
Definition main `{Rustls} (tls : bool) (read : str -> option bytes) (args : list str) : Start ServerConfig :=
  let a := parse_args (drop 1 args) defaults in
  let addr := host a ++ lit ":" ++ port a in
  if tls then
    match tls_cert a, tls_key a with
    | Some cert, Some key =>
        match from_pem_files read cert key with
        | Ok cfg => match into_server_config cfg with Ok sc => ServeTls addr sc | Err e => Fails e | Panic => Fails Rejected end
        | Err e => Fails e
        | Panic => Fails Rejected
        end
    | _, _ => Serve addr false
    end
  else Serve addr (bool_decide (is_Some (tls_cert a)) || bool_decide (is_Some (tls_key a))).

(** The command line that the usage shows sets every option. *)
Definition flags (h p c k : str) : list str :=
  [lit "archon-pgwire"; lit "--host"; h; lit "--port"; p; lit "--tls-cert"; c; lit "--tls-key"; k].

Theorem flags_are_read h p c k : parse_args (drop 1 (flags h p c k)) defaults = mkArgs h p (Some c) (Some k) [].
Proof. reflexivity. Qed.

(** A server started with a certificate and no key serves plain text, and says
    nothing. *)
Theorem half_a_tls_configuration_is_plaintext `{Rustls} read cert :
  main true read [lit "archon-pgwire"; lit "--tls-cert"; cert] = Serve (lit "127.0.0.1:5432") false.
Proof. reflexivity. Qed.

End PgMain.

(** ** archon-backup *)

Module PgBackupMain.
Import Ast(str, lit).
Import PgBackup.

(** [Path::new], [p.display()] and the [Display] of an I/O error. *)
Class PathText : Type := { path_of : str -> path; path_display : path -> str; io_display : IoError -> str }.

(** The exit code, and what is written to the two streams. *)
Record Ended : Type := mkEnded { code : Z; out : str; err : str }.

Section Main.
Context `{PathText}.

Definition usage : str :=
  Repl.join [Repl.LF]
    [lit "usage:"; lit "  archon-backup backup <db-path> <dest-dir>";
     lit "  archon-backup restore <snapshot-dir> <db-path>"; lit "  archon-backup list <dest-dir>"] ++ [Repl.LF].

Definition finish (r : outcome IoError str) : Ended :=
  match r with
  | Ok msg => mkEnded 0 (msg ++ [Repl.LF]) []
  | Err e => mkEnded 1 [] (lit "error: " ++ io_display e ++ [Repl.LF])
  | Panic => mkEnded 101 [] []
  end.

(** The command's result, or [None] when there is no such command.  [secs] is
    the clock's. *)
Definition command (secs : Z) (cmd : str) (rest : list str) : option (F str) :=
  match rest with
  | a :: b :: _ =>
      if decide (cmd = lit "backup") then
        Some (p ← snapshot secs (path_of a) (path_of b); mret (lit "snapshot written to " ++ path_display p))
      else if decide (cmd = lit "restore") then Some (restore (path_of a) (path_of b);; mret (lit "restored"))
      else None
  | _ => None
  end.

Definition list_command (dir : str) : F str :=
  snaps ← list_snapshots (path_of dir);
  mret (match snaps with [] => lit "no snapshots found" | _ => Repl.join [Repl.LF] (map path_display snaps) end).

Definition main (secs : Z) (args : list str) (fs : FS) : Ended * FS :=
  match args with
  | _ :: cmd :: a :: rest =>
      match command secs cmd (a :: rest) with
      | Some c => let '(r, fs) := c fs in (finish r, fs)
      | None =>
          if decide (cmd = lit "list") then let '(r, fs) := list_command a fs in (finish r, fs)
          else (mkEnded 2 [] (lit "unknown command or wrong argument count: " ++ cmd ++ [Repl.LF]), fs)
      end
  | _ => (mkEnded 2 [] usage, fs)
  end.

(** Listing, and a command line that is not understood, leave the files alone. *)
Theorem only_commands_change_files secs args fs :
  (match args with _ :: cmd :: _ => cmd <> lit "backup" /\ cmd <> lit "restore" | _ => True end) ->
  (main secs args fs).2 = fs.
Proof.
  destruct args as [|prog [|cmd [|a rest]]]; try done. intros [H1 H2]. unfold main.
  assert (Hc : command secs cmd (a :: rest) = None).
  { unfold command. destruct rest; [reflexivity|]. by rewrite (decide_False (P := cmd = lit "backup")), decide_False. }
  rewrite Hc. case_decide; [|done]. unfold list_command, mbind, M_bind, list_snapshots.
  destruct (negb _); [done|]. by destruct (bool_decide _).
Qed.

End Main.

(** ** A backup of nothing *)

#[local] Instance slashes : PathText := {|
  path_of s := [s]; path_display p := Repl.join (lit "/") p; io_display _ := lit "io" |}.

(** There is no database [db]: the backup succeeds all the same, and restoring
    it is an error. *)
Example backup_of_nothing_succeeds :
  let fs0 := mkFS ∅ {[ [] ]} in
  let '(e, fs1) := main 7 [lit "archon-backup"; lit "backup"; lit "db"; lit "out"] fs0 in
  code e = 0%Z /\ out e = lit "snapshot written to out/archon-backup-7" ++ [Repl.LF] /\
  files fs1 = ∅ /\ (restore [lit "out"; lit "archon-backup-7"] [lit "db"] fs1).1 = Err NotFound.
Proof. vm_compute. auto. Qed.

End PgBackupMain.
